(* ===== verification/_CoqProject ===== *)
-Q . S2P
Prelude.v
Text.v
Ids.v
Wire.v
Graph.v
Contracts.v
MessagePack.v
Framing.v
Session.v
Origin.v
Lifecycle.v
Bridge.v
ProxyMessage.v
Proxy.v
Controls.v
ControlsLaws.v
Ownership.v
ProcessWorkers.v
ProcessSession.v
ProcessSessionLaws.v
ProcessSessionSpec.v
Evidence.v
Compatibility.v
ControlPlane.v
Policy.v
Certify.v
Runner.v
CertifyLaws.v
RunnerLaws.v
Attest.v
AttestLaws.v
AttestSpec.v
Ledger.v
LedgerLaws.v
LedgerSpec.v
Asar.v
AsarLaws.v
AsarSpec.v
Overlay.v
Execution.v
ExecutionTarget.v
Scenario.v
ScenarioLaws.v
Launch.v
LaunchLaws.v
Authorization.v
AuthorizationLaws.v
AuthorizationSpec.v
Supervision.v
Transform.v
TransformLaws.v
SourceMap.v
SourceMapLaws.v
SourceMapSpec.v
Bundle.v
BundleLaws.v
