(* ===== verification/Prelude.v ===== *)
(** * Verification of the Weregopher runtime core

    Weregopher hosts packaged desktop applications outside their original
    shell.  A host process talks to a runtime worker over a framed, bounded
    protocol; application pages run in a renderer behind a private origin and
    reach the host only through a bridge that derives their authority; the
    traffic between a packaged client and its app-server passes through a
    transparent, bounded proxy; packages are read as ASAR archives and rewritten
    under a static authority, with evidence of every edit; results are certified
    under local, revocable policies and recorded in a hash-chained ledger; and a
    resolved executable is launched only under an authorization that names it.
    This library models those parts of the Rust sources (under [src/crates]) and
    proves that they keep their promises.

    ** Files

    Shared:
    - [Prelude] (this file): [Result] and the [?] operator ([result], [let?]),
      [&mut self] methods ([mut], [let*]: the state is returned on the error
      path too), checked machine arithmetic, bytes and UTF-8, ordered maps as
      [gmap]s with a sorted iteration, and the tactics [inv_ok], [inv_guards],
      [inv_mut] and [run_mut].
    - [Text]: decimal numerals, paths, [BTreeMap] iteration, characters.
    - [Ids] ([weregopher-domain/src/ids.rs], [digest.rs]): stable names and the
      text of a digest.

    Worker protocol:
    - [Wire] ([weregopher-domain/src/protocol.rs]): frame header and codec,
      limits and their negotiation, wire values, handles, call contexts.
    - [Graph] ([weregopher-domain/src/runtime_protocol.rs], the functions
      [validate_wire_value_graph*], [validate_wire_value], [validate_wire_error]):
      the iterative validation of a forest of wire values.
    - [Contracts] (the same file): each protocol message, its constructor, its
      [validate] and its checked deserialization; version negotiation.
    - [MessagePack], [Framing] ([weregopher-runtime-protocol/src/codec.rs]): the
      structural preflight of a payload; [FramedWriter], [FramedReader],
      [BoundedPayload] and the trait [ProtocolMessage].
    - [Session] ([weregopher-runtime-protocol/src/session.rs]): nonce proof,
      host and worker handshakes, [PendingRequests], [StreamCredit].

    Renderer:
    - [Origin] ([weregopher-renderer/src/origin.rs]): immutable packages,
      request paths, private origins and the responder.
    - [Lifecycle] ([weregopher-renderer/src/lifecycle.rs]): the state machine.
    - [Bridge] ([weregopher-domain/src/renderer.rs],
      [weregopher-renderer/src/bridge.rs]): contracts and per-navigation authority.

    App-server ([weregopher-adapter-openai/src]):
    - [ProxyMessage], [Proxy] ([app_server_proxy.rs]): reading one line; the
      proxy session with its queues and request correlation.
    - [Controls], [ControlsLaws] ([app_server_controls.rs]): the event journal
      and the interception policy, and how the journal follows the proxy.
    - [Ownership] ([app_server_ownership.rs]): identities and owned resources.
    - [ProcessWorkers], [ProcessSession], [ProcessSessionLaws],
      [ProcessSessionSpec] ([app_server_process.rs]): the four threads around a
      child process with their bounded channels, the session over the proxy and
      the journal, its invariant, and what its callers may rely on.  A thread is a
      state machine; [schedule] says what the threads do between two channel
      operations of the session, so a theorem for every schedule is one for
      every interleaving.

    Certification ([weregopher-domain/src], [weregopher-transform/src]):
    - [Evidence] ([certification.rs], [certification_evidence.rs]),
      [Compatibility] ([compatibility.rs]), [ControlPlane]
      ([certification_control_plane.rs]): the documents, their bounded reading
      and their dispositions.
    - [Policy]: the generation-aware stores of [certification_policy.rs],
      [certification_runner_policy.rs] and [execution_authorization.rs], as
      locks in a heap with a step relation for what other threads do to them.
    - [Certify], [CertifyLaws] ([certification_artifacts.rs],
      [certification_policy.rs], [certification_publication.rs]); [Runner],
      [RunnerLaws] ([certification_runner.rs], [certification_runner_policy.rs],
      [certification_runner_components.rs]); [Attest], [AttestLaws], [AttestSpec]
      ([certification_attestation.rs]): verified artifacts, an approved runner,
      and the attestation of one run, end to end.
    - [Ledger], [LedgerLaws], [LedgerSpec] ([certification_ledger.rs]): the
      ledger over a directory whose operations may fail.
    - [Scenario], [ScenarioLaws] ([weregopher-domain/src/certification_scenario.rs]):
      disposable scenarios and their reports.

    Execution:
    - [Execution], [ExecutionTarget] ([weregopher-domain/src/execution.rs],
      [execution_target.rs], [execution_digest.rs]): authorities, overlays,
      contracts and resolution evidence.
    - [Launch], [LaunchLaws] ([weregopher-windows/src/process.rs], [job.rs]):
      command lines, environments, prepared launches, the suspended process.
    - [Authorization], [AuthorizationLaws], [AuthorizationSpec]
      ([weregopher-transform/src/execution_authorization.rs]): the decision to
      execute one target, and its launch.
    - [Supervision] ([weregopher-transform/src/supervision.rs]): the loop over
      policy checks and bounded waits that a launched process lives under.

    Packages and their transformation:
    - [Asar], [AsarLaws], [AsarSpec] ([weregopher-asar/src/lib.rs]): archives.
    - [Overlay] ([weregopher-domain/src/transformation.rs]): authority, overlays.
    - [Transform], [TransformLaws] ([weregopher-transform/src/planning.rs],
      [emission.rs]): planning and emission of import rewrites.
    - [SourceMap], [SourceMapLaws], [SourceMapSpec] ([source_map.rs]).
    - [Bundle], [BundleLaws] ([bundle.rs], [lib.rs]): bundles, their verification.

    A struct is a [Record], an enum an [Inductive] with the source's variants, a
    function or method a [Definition] of (nearly) the same name with the same
    order of checks.  A [Raw*] or [Unchecked*] structure is the unchecked record,
    or a transport record with what its members still are.  A [BTreeMap] is a
    [gmap] and a [BTreeSet] a [gset]; where the code iterates one, the iteration
    is in key order.  Integers are [Z] and every checked, saturating or wrapping
    operation is written out at its width; [usize] is 64 bits.  An [Instant] and a
    [Duration] are numbers of nanoseconds.  A digest is its bytes in every role and
    an identifier the text it wraps.  Getters, redacting [Debug] implementations and
    JSON-schema derivations have no counterpart.

    ** What is proved

    - Codecs and documents: the frame codec is canonical
      ([frame_header_codec_canonical]), the MessagePack preflight accepts exactly the
      encodings of bounded trees ([messagepack_preflight_exact]), archives
      round-trip ([asar_round_trip]) and cover their body, command lines split
      into what they were built from ([build_command_line_roundtrip]), scenario and
      execution documents are what was written and within their bounds
      ([scenario_documents_faithful], [execution_documents_typed]), identifiers are
      the language of their schema ([stable_names_match_schema]).
    - Protocol: receiving and sending are exact on every branch and a
      conversation whose payloads pass the peer's preflight is delivered in order
      ([conversation_delivered]); handshakes
      agree ([handshake_agreement]); every request begins and ends once
      ([pending_requests_history]); the graph validation equals a recursive
      specification ([graph_validation_exact]).
    - Renderer: only manifest assets are served ([serve_only_manifest]), the
      lifecycle implements its diagram ([lifecycle_refines_diagram]), a page can
      neither choose its authority nor replay a request ([authorize_never_replays]).
    - App-server: the proxy's invariant, exact forwarding and single use of
      identities in every reachable session ([proxy_session_invariant],
      [proxy_forwards_exactly], [proxy_identities_once]); the journal never
      contradicts the proxy ([observer_never_inconsistent]); resources are conserved.
      Around a child process and under every interleaving: it is initialized in
      order ([child_initialized_in_order]), gets exactly the accepted lines
      ([stdin_carries_accepted_lines]) and its own are cut exactly
      ([stdout_lines_exact]); the session ends once ([session_ends_once]), within
      its deadlines ([poll_enforces_deadlines]), with a truthful report
      ([exit_report_truthful]), its termination reaches the child
      ([termination_reaches_child]), and its errors are never internal
      ([session_errors_expected]).
      [Proxy.transition] is the abstract specification the operations refine.
    - Certification: replay refines the abstract chain ([replay_refines_chain]), a
      pinned head determines the history up to a collision of two of its files,
      racing writers, stopped or failing in the middle of a write, share it
      ([concurrent_writers_share_history]), the policy rules hold along it ([ledger_policy_invariant]); a run through the whole pipeline
      yields an attestation the ledger accepts ([attested_run_sound]); a decision is
      worth exactly as long as its policy ([policy_decision_durability]).
    - Execution: an executable is authorized exactly on matching identities
      ([authorize_execution_exact]), what runs is what was authorized
      ([authorized_launch_sound]), it does not outlive its policy
      ([supervision_ends_with_policy]) and every supervision ends
      ([supervision_ends_truthfully]); an overlay validates only against its
      authority or one whose document collides with it
      ([overlay_validates_only_its_authority]).
    - Transformation: a source map reads as the right table of positions
      ([emit_source_map_sound]), bundles that are produced and fit the limits
      of verification verify ([produced_bundles_verify]), verification is exact.

    ** Fuel and bounds

    [Graph.graph_loop] runs with one unit of fuel per node of the forest and one
    more ([graph_loop_terminates]); [MessagePack.mp_loop] with one per byte of the
    payload and two more ([mp_loop_terminates]); [Transform.surrogate_loop] with
    the length of the literal and one more; [Supervision.supervise_loop] with
    [loop_turns] turns, which is enough once polled waits add up to a tick
    ([earlier_turns_bounded], [supervision_ends_truthfully]).  The digits of
    a 64-bit number fit 20, those of a VLQ field 13 groups and a 32-bit escape 10,
    which the length lemmas of [Text], [SourceMapLaws] and [TransformLaws] show.
    The loops of [ProcessSession.poll] take [poll_events] turns, which is the bound
    of the code's loops ([dispatch_loop_fuel] for the one that tests a counter).
    [Origin.str_replace_from] consumes one unit per byte of its subject.  Every
    other definition recurses on its data.

    ** Parameters

    Code that is not part of the repository is an argument of the definitions:
    [sha2] ([Sha256]), [rmp_serde] ([Framing.Rmp], [Framing.Codec]), [uuid] and
    [hex] ([Origin.TextFormats], [hex_encode], [hex_decode]), [serde_json] (the
    [json_stream] of [ProxyMessage]; the classes [ControlJson], [CertifyJson],
    [RunnerJson], [ExecutionJson], [ScenarioJson]; the header functions of [Asar]),
    the Oxc parser ([Transform.Oxc]), the transport ([Framing.Write],
    [Framing.Read]), readers ([ControlPlane.Reader]), the file system of the ledger
    ([Ledger.Io]), Windows ([Launch.launch_os], [Supervision.SupervisionHost]), the
    start of a thread and the answers of pipes and of a child
    ([ProcessSession.spawn_worker], [ProcessWorkers.WorkerAction]), and the
    allocator behind [try_reserve] ([Allocator]).  Clock readings and random
    challenges are arguments.  What a theorem needs of them is a named hypothesis or
    law ([LawfulWrite], [LawfulRead], [LawfulMessage], [LawfulText], [lawful_hex],
    [lawful_host], [ticking_host], [lawful_scenario_json], [header_json_law],
    [record_json_law], [record_prefix_law], [ample], [stream_typed]), and each such
    theorem has a witness with concrete instances.

    No law says that SHA-256 is injective.  Where the code compares digests, a
    theorem either names the two byte strings that would have to collide, or
    assumes that those of one session do not: an app-server session is bound to
    the finitely many request identities on the lines it was given
    ([Proxy.no_digest_collision], [ControlsLaws.no_collision],
    [ProcessSessionSpec.lines_heard]), and the laws of [Proxy], [ControlsLaws] and
    [ProcessSessionLaws] are relative to a set of identities ([Proxy.Identities]).
    The witnesses use a hash of thirty-two bytes.

    ** Not modelled

    The immutable store, snapshots and materialization, the WebView2 backend, pipes
    and paths of Windows, discovery and fingerprinting (effects of the operating
    system); the run of a certification scenario on Windows files; the launch of an
    app-server in a Windows job; the command line; and the constants and records of the vendor
    adapters. *)

From Stdlib Require Export ZArith Lia.
From Stdlib Require Import Strings.Byte Strings.Ascii.
Export (notations) Ascii.
From stdpp Require Export sorting base gmap sets strings option.
From stdpp Require Export list_basics list_relations list_monad list_misc list_numbers list.

#[global] Open Scope Z_scope.

(** ** Results *)

(** Rust's [Result<A, E>]. *)
Inductive result (A E : Type) : Type :=
| Ok (a : A)
| Err (e : E).
Arguments Ok {A E} a.
Arguments Err {A E} e.

(** The [?] operator: continue on [Ok], return early on [Err]. *)
Definition result_bind {A B E} (m : result A E) (k : A → result B E) : result B E :=
  match m with Ok a => k a | Err e => Err e end.

(** [map_err], and the conversion performed by [?] through [#[from]]. *)
Definition map_err {A E F} (f : E → F) (m : result A E) : result A F :=
  match m with Ok a => Ok a | Err e => Err (f e) end.

(** [Option::ok_or]. *)
Definition ok_or {A E} (o : option A) (e : E) : result A E :=
  match o with Some a => Ok a | None => Err e end.

(** [if cond { return Err(e); }]. *)
Definition reject {E} (cond : bool) (e : E) : result unit E :=
  if cond then Err e else Ok tt.

Definition is_ok {A E} (m : result A E) : bool :=
  match m with Ok _ => true | Err _ => false end.
(** The value of a computation that is known to succeed. *)
Definition from_ok {A E} (m : result A E) : is_ok m = true → A :=
  match m with Ok x => λ _, x | Err _ => λ H, False_rect A (diff_false_true H) end.
Lemma from_ok_eq {A E} (m : result A E) (H : is_ok m = true) : m = Ok (from_ok m H).
Proof. by destruct m. Qed.

Declare Scope result_scope.
Delimit Scope result_scope with result.
#[global] Open Scope result_scope.
Notation "'let?' x ':=' m 'in' k" := (result_bind m (λ x, k))
  (at level 10, x pattern, m at level 200, k at level 200) : result_scope.
Notation "'do?' m 'in' k" := (result_bind m (λ _, k))
  (at level 10, m at level 200, k at level 200) : result_scope.

(** A [&mut self] method: the state after the call is returned on every path,
    so a mutation performed before an early return stays visible. *)
Definition mut (S E A : Type) : Type := S → result A E * S.

Definition mut_ret {S E A} (a : A) : mut S E A := λ s, (Ok a, s).
Definition mut_bind {S E A B} (m : mut S E A) (k : A → mut S E B) : mut S E B :=
  λ s, match m s with (Ok a, s') => k a s' | (Err e, s') => (Err e, s') end.
Definition mut_lift {S E A} (r : result A E) : mut S E A := λ s, (r, s).
Definition mut_get {S E} : mut S E S := λ s, (Ok s, s).
Definition mut_put {S E} (s : S) : mut S E unit := λ _, (Ok tt, s).

Notation "'let*' x ':=' m 'in' k" := (mut_bind m (λ x, k))
  (at level 10, x pattern, m at level 200, k at level 200) : result_scope.
Notation "'do*' m 'in' k" := (mut_bind m (λ _, k))
  (at level 10, m at level 200, k at level 200) : result_scope.

(** ** Machine integers *)

Definition u8_max : Z := 255.
Definition u16_max : Z := 65535.
Definition u32_max : Z := 4294967295.
Definition u64_max : Z := 18446744073709551615.
(** [usize] on the supported 64-bit targets. *)
Definition usize_max : Z := u64_max.

(** [checked_add], [checked_mul] and [checked_sub] at the width whose largest
    value is [max]. *)
Definition checked_add (max a b : Z) : option Z :=
  if a + b <=? max then Some (a + b) else None.
Definition checked_mul (max a b : Z) : option Z :=
  if a * b <=? max then Some (a * b) else None.
Definition checked_sub (a b : Z) : option Z :=
  if b <=? a then Some (a - b) else None.
Definition saturating_add (max a b : Z) : Z := Z.min max (a + b).

Definition in_range (lo hi v : Z) : bool := (lo <=? v) && (v <=? hi).

(** ** Allocation *)

(** [Vec::try_reserve] may fail: the allocator is an oracle on the number of
    elements requested. *)
Class Allocator : Type := try_reserve : Z → bool.

(** An allocator that never refuses a request. *)
Definition ample (A : Allocator) : Prop := ∀ n, A n = true.
Definition ample_allocator : Allocator := λ _, true.

Lemma ample_allocator_ample : ample ample_allocator.
Proof. done. Qed.

(** ** Bytes and byte strings *)

Abbreviation byte := Byte.byte.

(** [Vec<u8>], [&[u8]] and the contents of a [String]: a Rust string is the
    list of its UTF-8 bytes, so [len()] is the length of the list. *)
Abbreviation bytes := (list byte).
Abbreviation str := (list byte).

(** A string literal of the source, as bytes. *)
Definition lit (s : string) : str := String.list_byte_of_string s.

(** A byte literal [b'c'] of the source. *)
Definition chr (c : Ascii.ascii) : byte := Ascii.byte_of_ascii c.
Arguments chr c%_char.

#[global] Instance byte_eq_dec : EqDecision byte := Byte.byte_eq_dec.
#[global] Program Instance byte_countable : Countable byte := {|
  encode b := encode (Byte.to_N b);
  decode p := decode p ≫= Byte.of_N |}.
Next Obligation. intros b. simpl. by rewrite decode_encode, <-(Byte.of_to_N b). Qed.

Definition len {A} (l : list A) : Z := Z.of_nat (length l).

(** The numeric value of a byte, and the truncation [as u8]. *)
Definition byte_val (b : byte) : Z := Z.of_N (Byte.to_N b).
Definition byte_of (z : Z) : byte :=
  match Byte.of_N (Z.to_N (z mod 256)) with Some b => b | None => x00 end.

(** [to_le_bytes] and [from_le_bytes] at a width of [n] bytes, and their
    big-endian counterparts. *)
Fixpoint le_bytes (n : nat) (z : Z) : bytes :=
  match n with
  | O => []
  | S n => byte_of z :: le_bytes n (z / 256)
  end.
Fixpoint le_val (bs : bytes) : Z :=
  match bs with
  | [] => 0
  | b :: bs => byte_val b + 256 * le_val bs
  end.
Definition be_bytes (n : nat) (z : Z) : bytes := rev (le_bytes n z).
Definition be_val (bs : bytes) : Z := le_val (rev bs).

(** [slice.get(start..end)]. *)
Definition slice {A} (l : list A) (start stop : Z) : option (list A) :=
  if (0 <=? start) && (start <=? stop) && (stop <=? len l)
  then Some (take (Z.to_nat (stop - start)) (drop (Z.to_nat start) l))
  else None.

(** [str::from_utf8] accepts exactly the well-formed byte sequences of the
    Unicode standard (table 3-7). *)
Definition utf8_cont (b : byte) : bool := in_range 0x80 0xBF (byte_val b).

Fixpoint utf8_valid (bs : bytes) : bool :=
  match bs with
  | [] => true
  | b0 :: t0 =>
    let v := byte_val b0 in
    if v <? 0x80 then utf8_valid t0
    else if in_range 0xC2 0xDF v then
      match t0 with
      | b1 :: t1 => utf8_cont b1 && utf8_valid t1
      | _ => false
      end
    else if in_range 0xE0 0xEF v then
      match t0 with
      | b1 :: b2 :: t2 =>
        (if v =? 0xE0 then in_range 0xA0 0xBF (byte_val b1)
         else if v =? 0xED then in_range 0x80 0x9F (byte_val b1)
         else utf8_cont b1) && utf8_cont b2 && utf8_valid t2
      | _ => false
      end
    else if in_range 0xF0 0xF4 v then
      match t0 with
      | b1 :: b2 :: b3 :: t3 =>
        (if v =? 0xF0 then in_range 0x90 0xBF (byte_val b1)
         else if v =? 0xF4 then in_range 0x80 0x8F (byte_val b1)
         else utf8_cont b1) && utf8_cont b2 && utf8_cont b3 && utf8_valid t3
      | _ => false
      end
    else false
  end.

(** Byte-string searching: [contains], [starts_with], [ends_with],
    [strip_prefix], [split] and [split_once] on a one-byte separator. *)
Definition contains_byte (b : byte) (s : str) : bool := bool_decide (b ∈ s).
Definition contains_any (bs : list byte) (s : str) : bool :=
  existsb (λ b, bool_decide (b ∈ bs)) s.
Definition starts_with_byte (b : byte) (s : str) : bool :=
  match s with c :: _ => bool_decide (c = b) | [] => false end.
Definition ends_with_byte (b : byte) (s : str) : bool :=
  match last s with Some c => bool_decide (c = b) | None => false end.

Fixpoint strip_prefix (p s : str) : option str :=
  match p, s with
  | [], _ => Some s
  | a :: p', b :: s' => if bool_decide (a = b) then strip_prefix p' s' else None
  | _ :: _, [] => None
  end.

Fixpoint split (sep : byte) (s : str) : list str :=
  match s with
  | [] => [[]]
  | b :: s' =>
    if bool_decide (b = sep) then [] :: split sep s'
    else match split sep s' with
         | [] => [[b]]
         | seg :: segs => (b :: seg) :: segs
         end
  end.

Fixpoint split_once (sep : byte) (s : str) : option (str * str) :=
  match s with
  | [] => None
  | b :: s' =>
    if bool_decide (b = sep) then Some ([], s')
    else match split_once sep s' with
         | Some (l, r) => Some (b :: l, r)
         | None => None
         end
  end.

Definition to_ascii_lowercase (s : str) : str :=
  map (λ b, if in_range 65 90 (byte_val b) then byte_of (byte_val b + 32) else b) s.

(** [SHA-256], a parameter of the components that hash. *)
Class Sha256 : Type := sha256 : bytes → bytes.

(** ** Ordered maps and sets

    A [BTreeMap] is a [gmap] whose iteration order is fixed by the key order. *)

(** The number of entries of a map. *)
Definition map_len {K V} `{Countable K} (m : gmap K V) : Z := Z.of_nat (size m).

Lemma map_len_insert {K V} `{Countable K} (m : gmap K V) k v : m !! k = None → map_len (<[k:=v]> m) = map_len m + 1.
Proof. intros Hn. unfold map_len. rewrite map_size_insert_None by done. lia. Qed.

(** The derived [Ord] of byte strings: lexicographic on byte values. *)
Fixpoint str_le (s t : str) : bool :=
  match s, t with
  | [], _ => true
  | _ :: _, [] => false
  | a :: s', b :: t' =>
    (byte_val a <? byte_val b) || ((byte_val a =? byte_val b) && str_le s' t')
  end.

(** Iteration of a map in increasing key order. *)
Definition btree_iter {K V} `{Countable K} (le : K → K → bool) (m : gmap K V) : list (K * V) :=
  merge_sort (λ p q, Is_true (le p.1 q.1)) (map_to_list m).
Definition btree_keys {K V} `{Countable K} (le : K → K → bool) (m : gmap K V) : list K :=
  (btree_iter le m).*1.

(** ** Laws of results and of the state monad *)

Lemma result_bind_Ok {A B E} (m : result A E) (k : A → result B E) b :
  result_bind m k = Ok b ↔ ∃ a, m = Ok a ∧ k a = Ok b.
Proof. destruct m; naive_solver. Qed.

Lemma result_bind_Err {A B E} (m : result A E) (k : A → result B E) e :
  result_bind m k = Err e ↔ m = Err e ∨ ∃ a, m = Ok a ∧ k a = Err e.
Proof. destruct m; naive_solver. Qed.

Lemma map_err_Ok {A E F} (f : E → F) (m : result A E) a :
  map_err f m = Ok a ↔ m = Ok a.
Proof. destruct m; naive_solver. Qed.

Lemma ok_or_Ok {A E} (o : option A) (e : E) a : ok_or o e = Ok a ↔ o = Some a.
Proof. destruct o; naive_solver. Qed.

Lemma reject_Ok {E} b (e : E) u : reject b e = Ok u ↔ b = false.
Proof. destruct b, u; naive_solver. Qed.

Lemma mut_bind_Ok {S E A B} (m : mut S E A) (k : A → mut S E B) s b s' :
  mut_bind m k s = (Ok b, s') ↔ ∃ a s1, m s = (Ok a, s1) ∧ k a s1 = (Ok b, s').
Proof. unfold mut_bind. destruct (m s) as [[a|e] s1]; naive_solver. Qed.

Lemma mut_bind_Err {S E A B} (m : mut S E A) (k : A → mut S E B) s e s' :
  mut_bind m k s = (Err e, s') ↔
  m s = (Err e, s') ∨ ∃ a s1, m s = (Ok a, s1) ∧ k a s1 = (Err e, s').
Proof. unfold mut_bind. destruct (m s) as [[a|e'] s1]; naive_solver. Qed.

Lemma mut_bind_step {S E A B} (m : mut S E A) (k : A → mut S E B) s a s1 :
  m s = (Ok a, s1) → mut_bind m k s = k a s1.
Proof. unfold mut_bind. by intros ->. Qed.

Lemma mut_lift_Ok {S E A} (r : result A E) (s : S) a s' :
  mut_lift r s = (Ok a, s') ↔ r = Ok a ∧ s' = s.
Proof. unfold mut_lift. naive_solver. Qed.

Lemma checked_add_Some max a b c :
  checked_add max a b = Some c ↔ c = a + b ∧ a + b <= max.
Proof. unfold checked_add. destruct (Z.leb_spec (a + b) max); naive_solver lia. Qed.

Lemma checked_mul_Some max a b c :
  checked_mul max a b = Some c ↔ c = a * b ∧ a * b <= max.
Proof. unfold checked_mul. destruct (Z.leb_spec (a * b) max); naive_solver lia. Qed.

Lemma checked_sub_Some a b c : checked_sub a b = Some c ↔ c = a - b ∧ b <= a.
Proof. unfold checked_sub. destruct (Z.leb_spec b a); naive_solver lia. Qed.

Lemma in_range_true lo hi v : in_range lo hi v = true ↔ lo <= v <= hi.
Proof. unfold in_range. lia. Qed.

Lemma in_range_false lo hi v : in_range lo hi v = false ↔ v < lo ∨ hi < v.
Proof. unfold in_range. lia. Qed.

(** ** Automation *)

Create HintDb weregopher.

(** Run through the equations that say a chain of [?] steps succeeded. *)
Ltac inv_ok :=
  repeat match goal with
  | H : result_bind _ _ = Ok _ |- _ => apply result_bind_Ok in H as (? & ? & H)
  | H : map_err _ _ = Ok _ |- _ => apply map_err_Ok in H
  | H : ok_or _ _ = Ok _ |- _ => apply ok_or_Ok in H
  | H : reject _ _ = Ok _ |- _ => apply reject_Ok in H
  | H : Ok _ = Ok _ |- _ => injection H as H; try subst
  | H : Err _ = Err _ |- _ => injection H as H; try subst
  | H : Err _ = Ok _ |- _ => discriminate H
  | H : Ok _ = Err _ |- _ => discriminate H
  | H : Some _ = Some _ |- _ => injection H as H; try subst
  | H : Some _ = None |- _ => discriminate H
  | H : None = Some _ |- _ => discriminate H
  | H : (_, _) = (_, _) |- _ => injection H as ?H ?H; try subst
  | H : checked_add _ _ _ = Some _ |- _ => apply checked_add_Some in H as [? ?]; try subst
  | H : checked_mul _ _ _ = Some _ |- _ => apply checked_mul_Some in H as [? ?]; try subst
  | H : checked_sub _ _ = Some _ |- _ => apply checked_sub_Some in H as [? ?]; try subst
  | u : unit |- _ => destruct u
  end.

(** What the guards that passed say. *)
Ltac inv_guards :=
  repeat match goal with
  | H : _ || _ = false |- _ => apply orb_false_iff in H as [? ?]
  | H : _ && _ = true |- _ => apply andb_true_iff in H as [? ?]
  | H : negb _ = false |- _ => apply negb_false_iff in H
  | H : negb _ = true |- _ => apply negb_true_iff in H
  | H : bool_decide (_ ≠ _) = false |- _ => apply bool_decide_eq_false, dec_stable in H
  | H : bool_decide _ = false |- _ => apply bool_decide_eq_false in H
  | H : bool_decide _ = true |- _ => apply bool_decide_eq_true in H
  | H : (_ =? _) = false |- _ => apply Z.eqb_neq in H
  | H : (_ =? _) = true |- _ => apply Z.eqb_eq in H
  | H : (_ <? _) = false |- _ => apply Z.ltb_ge in H
  | H : (_ <? _) = true |- _ => apply Z.ltb_lt in H
  end.

(** The same for a method run in the state monad that succeeded. *)
Ltac inv_mut :=
  repeat match goal with
  | H : mut_bind _ _ _ = (Ok _, _) |- _ => apply mut_bind_Ok in H as (? & ? & ? & H)
  | H : mut_lift _ _ = (Ok _, _) |- _ => apply mut_lift_Ok in H as [? ?]; try subst
  | H : mut_get _ = (Ok _, _) |- _ => unfold mut_get in H; injection H as ? ?; try subst
  | H : mut_put _ _ = (Ok _, _) |- _ => unfold mut_put in H; injection H as ? ?; try subst
  | H : mut_ret _ _ = (Ok _, _) |- _ => unfold mut_ret in H; injection H as ? ?; try subst
  end; inv_ok.

(** One case split on the scrutinee of a result or state-monad computation. *)
Ltac run_case :=
  match goal with
  | H : context [ if ?b then _ else _ ] |- _ => destruct b eqn:?
  | H : context [ match ?x with _ => _ end ] |- _ =>
      lazymatch x with context [ match _ with _ => _ end ] => fail | _ => destruct x eqn:? end
  end.

(** Unfold the state monad and split every branch of a concrete method run. *)
Ltac run_mut H :=
  unfold mut_bind, mut_lift, mut_get, mut_put, mut_ret, reject, ok_or in H; simpl in H;
  repeat (run_case; simpl in *; try discriminate; simplify_eq/=).

(** ** Lengths, slices and byte values *)

Lemma len_nonneg {A} (l : list A) : 0 <= len l.
Proof. unfold len. lia. Qed.

Lemma len_nil {A} : len (@nil A) = 0.
Proof. done. Qed.

Lemma len_cons {A} (x : A) l : len (x :: l) = 1 + len l.
Proof. unfold len. simpl. lia. Qed.

Lemma len_app {A} (l k : list A) : len (l ++ k) = len l + len k.
Proof. unfold len. rewrite length_app. lia. Qed.

Lemma len_zero {A} (l : list A) : len l = 0 ↔ l = [].
Proof. destruct l; unfold len; simpl; naive_solver lia. Qed.

Lemma slice_Some {A} (l : list A) a b r :
  slice l a b = Some r ↔
  0 <= a <= b ∧ b <= len l ∧
  ∃ l1 l2, l = l1 ++ r ++ l2 ∧ len l1 = a ∧ len r = b - a.
Proof.
  unfold slice. split.
  - destruct (_ && _) eqn:E; [|done]. intros [= <-].
    repeat split; [lia..|].
    exists (take (Z.to_nat a) l), (drop (Z.to_nat b) l). unfold len in *. repeat split.
    + replace (drop (Z.to_nat b) l)
        with (drop (Z.to_nat (b - a)) (drop (Z.to_nat a) l)).
      * by rewrite !take_drop.
      * rewrite drop_drop. f_equal. lia.
    + rewrite length_take. lia.
    + rewrite length_take, length_drop. lia.
  - intros (Ha & Hb & l1 & l2 & -> & Hl1 & Hr).
    destruct (_ && _) eqn:E; [|lia]. f_equal. unfold len in *.
    rewrite drop_app_length' by lia. by rewrite take_app_length' by lia.
Qed.

Lemma byte_val_range b : 0 <= byte_val b <= 255.
Proof. unfold byte_val. pose proof (Byte.to_N_bounded b). lia. Qed.

Lemma byte_val_inj b c : byte_val b = byte_val c → b = c.
Proof.
  unfold byte_val. intros H%N2Z.inj.
  pose proof (Byte.of_to_N b) as Hb. pose proof (Byte.of_to_N c) as Hc. congruence.
Qed.

Lemma byte_val_of z : byte_val (byte_of z) = z mod 256.
Proof.
  unfold byte_val, byte_of. pose proof (Z.mod_pos_bound z 256 ltac:(lia)).
  destruct (Byte.of_N (Z.to_N (z mod 256))) as [b|] eqn:E.
  - apply Byte.to_of_N in E. rewrite E. lia.
  - apply Byte.of_N_None_iff in E. lia.
Qed.

Lemma byte_of_val b : byte_of (byte_val b) = b.
Proof.
  apply byte_val_inj. rewrite byte_val_of. pose proof (byte_val_range b).
  apply Z.mod_small. lia.
Qed.

Lemma le_bytes_length n z : length (le_bytes n z) = n.
Proof. revert z. induction n; intros; simpl; auto. Qed.

Lemma le_val_range bs : 0 <= le_val bs < 256 ^ len bs.
Proof.
  induction bs as [|b bs IH]; [done|]. cbn [le_val]. rewrite len_cons, Z.pow_add_r by (pose proof (len_nonneg bs); lia).
  pose proof (byte_val_range b). change (256 ^ 1) with 256. lia.
Qed.

Lemma le_val_bytes n z : 0 <= z < 256 ^ Z.of_nat n → le_val (le_bytes n z) = z.
Proof.
  revert z. induction n as [|n IH]; intros z Hz.
  - simpl in *. lia.
  - cbn [le_bytes le_val]. rewrite byte_val_of, IH.
    + pose proof (Z.div_mod z 256 ltac:(lia)). lia.
    + rewrite Nat2Z.inj_succ, Z.pow_succ_r in Hz by lia.
      split; [apply Z.div_pos; lia | apply Z.div_lt_upper_bound; lia].
Qed.

Lemma le_val_bytes_mod n z : le_val (le_bytes n z) = z mod 256 ^ Z.of_nat n.
Proof.
  revert z. induction n as [|n IH]; intros z.
  - cbn. by rewrite Z.mod_1_r.
  - cbn [le_bytes le_val]. rewrite byte_val_of, IH, Nat2Z.inj_succ, Z.pow_succ_r by lia.
    rewrite Z.rem_mul_r; lia.
Qed.

Lemma be_bytes_mod n y z :
  be_bytes n y = be_bytes n z → y mod 256 ^ Z.of_nat n = z mod 256 ^ Z.of_nat n.
Proof.
  unfold be_bytes. intros H%(f_equal (@rev byte)). rewrite !rev_involutive in H.
  by rewrite <-!le_val_bytes_mod, H.
Qed.

Lemma be_bytes_length n z : length (be_bytes n z) = n.
Proof. unfold be_bytes. rewrite length_rev. apply le_bytes_length. Qed.

Lemma le_bytes_val bs : le_bytes (length bs) (le_val bs) = bs.
Proof.
  induction bs as [|b bs IH]; [done|]. cbn [le_bytes le_val length].
  pose proof (byte_val_range b).
  replace ((byte_val b + 256 * le_val bs) / 256) with (le_val bs).
  2: { rewrite Z.mul_comm, Z.div_add by lia. rewrite (Z.div_small (byte_val b)); lia. }
  rewrite IH. f_equal. apply byte_val_inj. rewrite byte_val_of.
  rewrite Z.mul_comm, Z.mod_add by lia. apply Z.mod_small. lia.
Qed.

#[export] Hint Resolve len_nonneg byte_val_range : weregopher.

Lemma max_list_with_app {A} (f : A → nat) l k :
  max_list_with f (l ++ k) = (max_list_with f l `max` max_list_with f k)%nat.
Proof. induction l as [|x l IH]; simpl; [done|]. rewrite IH. lia. Qed.

Lemma size_list_to_set_le {A} `{Countable A} (l : list A) : (size (list_to_set l : gset A) <= length l)%nat.
Proof.
  induction l as [|x l IH]; [done|]. cbn [list_to_set length]. rewrite size_union_alt, size_singleton.
  apply le_n_S. etransitivity; [|exact IH]. apply subseteq_size, subseteq_difference_l. done.
Qed.

Lemma size_list_to_set_NoDup {A} `{Countable A} (l : list A) :
  Z.of_nat (size (list_to_set l : gset A)) = len l ↔ NoDup l.
Proof.
  unfold len. rewrite Nat2Z.inj_iff. split.
  - intros Hs. induction l as [|x l IH]; [constructor|]. cbn [list_to_set length] in Hs.
    destruct (decide (x ∈ l)) as [Hin|Hin].
    + assert (Heq : {[x]} ∪ list_to_set l = (list_to_set l : gset A)).
      { apply leibniz_equiv, subseteq_union_1. intros y ->%elem_of_singleton. by apply elem_of_list_to_set. }
      rewrite Heq in Hs. pose proof (size_list_to_set_le l). lia.
    + constructor; [done|]. apply IH. rewrite size_union in Hs; [rewrite size_singleton in Hs; lia|].
      intros y ->%elem_of_singleton. by rewrite elem_of_list_to_set.
  - apply size_list_to_set.
Qed.

Lemma list_to_set_empty_iff {A} `{Countable A} (l : list A) :
  (list_to_set l : gset A) = ∅ ↔ l = [].
Proof.
  split; [|by intros ->]. destruct l as [|x l]; [done|]. intros Hl. exfalso.
  assert (Hx : x ∈ (list_to_set (x :: l) : gset A)) by (apply elem_of_list_to_set; by left).
  rewrite Hl in Hx. by apply elem_of_empty in Hx.
Qed.

(** ** Iteration of ordered maps *)

Section BTree.
Context {K V : Type} `{Countable K} (le : K → K → bool).

Lemma btree_iter_perm (m : gmap K V) : btree_iter le m ≡ₚ map_to_list m.
Proof. apply merge_sort_Permutation. Qed.

Lemma elem_of_btree_iter (m : gmap K V) k v : (k, v) ∈ btree_iter le m ↔ m !! k = Some v.
Proof. by rewrite btree_iter_perm, elem_of_map_to_list. Qed.

Lemma btree_iter_NoDup (m : gmap K V) : NoDup (btree_iter le m).*1.
Proof. rewrite btree_iter_perm. apply NoDup_fst_map_to_list. Qed.

Lemma btree_iter_sorted (m : gmap K V) :
  (∀ x y, le x y = true ∨ le y x = true) →
  (∀ x y z, le x y = true → le y z = true → le x z = true) →
  StronglySorted (λ p q, Is_true (le p.1 q.1)) (btree_iter le m).
Proof.
  intros Htot Htrans. apply Sorted_StronglySorted.
  - intros p q r. rewrite !Is_true_true. apply Htrans.
  - apply Sorted_merge_sort. intros p q. rewrite !Is_true_true. apply Htot.
Qed.
End BTree.

(** Filtering the bindings of a map. *)
Lemma filter_fst_NoDup {K V} (P : K * V → Prop) `{∀ x, Decision (P x)} (l : list (K * V)) :
  NoDup l.*1 → NoDup (filter P l).*1.
Proof.
  induction l as [|[k v] l IH]; simpl; [done|]. rewrite NoDup_cons. intros [Hk Hl].
  rewrite filter_cons. case_decide; [|auto]. simpl. apply NoDup_cons. split; [|auto].
  intros ([k' v'] & -> & [_ Hin]%list_elem_of_filter)%list_elem_of_fmap.
  apply Hk. apply list_elem_of_fmap. by exists (k', v').
Qed.

Lemma StronglySorted_filter {A} (R : relation A) (P : A → Prop) `{∀ x, Decision (P x)} l :
  StronglySorted R l → StronglySorted R (filter P l).
Proof.
  induction 1 as [|x l Hl IH Hx]; [constructor|]. rewrite filter_cons.
  case_decide; [|done]. constructor; [done|]. apply Forall_forall. intros y [_ Hy]%list_elem_of_filter.
  by eapply Forall_forall in Hx.
Qed.

(** ** Prefixes and separators *)

Lemma strip_prefix_Some p s r : strip_prefix p s = Some r ↔ s = p ++ r.
Proof.
  revert s. induction p as [|a p IH]; intros s; simpl; [naive_solver|].
  destruct s as [|b s]; [naive_solver|]. case_bool_decide; [|naive_solver]. subst.
  rewrite IH. naive_solver.
Qed.

Lemma contains_any_false bs s : contains_any bs s = false ↔ ∀ b, b ∈ s → b ∉ bs.
Proof.
  unfold contains_any. rewrite <-not_true_iff_false, existsb_exists. split.
  - intros H b Hb Hin. apply H. exists b. rewrite bool_decide_eq_true, <-list_elem_of_In. done.
  - intros H (b & Hb%list_elem_of_In & Hin%bool_decide_eq_true). by apply (H b).
Qed.

Lemma contains_byte_false b s : contains_byte b s = false ↔ b ∉ s.
Proof. apply bool_decide_eq_false. Qed.

Lemma split_nonempty sep s : split sep s ≠ [].
Proof. destruct s; simpl; [done|]. case_bool_decide; [done|]. by destruct (split sep s). Qed.

(** Every byte is a separator or belongs to a segment. *)
Lemma elem_of_split sep s b : b ∈ s → b = sep ∨ ∃ seg, seg ∈ split sep s ∧ b ∈ seg.
Proof.
  induction s as [|c s IH]; [by intros ?%elem_of_nil|]. simpl.
  intros [->|Hb]%elem_of_cons; case_bool_decide as Hc; subst.
  - by left.
  - right. destruct (split sep s) as [|seg segs]; [exists [c]|exists (c :: seg)]; set_solver.
  - destruct (IH Hb) as [?|(seg & ? & ?)]; [by left|right]. exists seg. set_solver.
  - destruct (IH Hb) as [?|(seg & Hseg & Hb')]; [by left|right].
    destruct (split sep s) as [|seg0 segs]; [by apply elem_of_nil in Hseg|].
    apply elem_of_cons in Hseg as [->|Hseg]; [exists (c :: seg0)|exists seg]; set_solver.
Qed.

Lemma split_once_None sep s : split_once sep s = None ↔ sep ∉ s.
Proof.
  induction s as [|b s IH]; simpl; [split; [intros _; apply not_elem_of_nil|done]|].
  case_bool_decide as Hb; [subst; set_solver|]. rewrite not_elem_of_cons, <-IH.
  destruct (split_once sep s) as [[? ?]|]; naive_solver.
Qed.

Lemma split_once_Some sep s l r : split_once sep s = Some (l, r) ↔ s = l ++ sep :: r ∧ sep ∉ l.
Proof.
  revert l. induction s as [|b s IH]; intros l; simpl.
  { split; [done|]. intros [H _]. by destruct l. }
  case_bool_decide as Hb; subst.
  - split; [intros [= <- <-]; split; [done|apply not_elem_of_nil]|].
    intros [H Hl]. destruct l as [|c l]; simplify_eq/=; [done|]. set_solver.
  - destruct (split_once sep s) as [[l' r']|] eqn:E; split.
    + intros [= <- <-]. destruct (proj1 (IH l') eq_refl). subst. set_solver.
    + intros [H Hl]. destruct l as [|c l]; simplify_eq/=.
      apply not_elem_of_cons in Hl as [_ Hl]. pose proof (proj2 (IH l) (conj eq_refl Hl)).
      by simplify_eq.
    + done.
    + intros [H Hl]. destruct l as [|c l]; simplify_eq/=.
      apply not_elem_of_cons in Hl as [_ Hl]. by specialize (proj2 (IH l) (conj eq_refl Hl)).
Qed.
