(* ===== verification/Text.v ===== *)
(** * Text: decimal numerals, separated paths and ordered associations

    What the components that read and write text share: the lexicographic
    order of byte strings as a total order, the iteration order of a [BTreeMap]
    as the unique sorted list of its bindings, a [BTreeMap] nested inside a data
    type as the sorted list of its bindings, [usize] numerals ([to_string] and
    [parse]), and joining the components of a path. *)

From S2P Require Import Prelude.

(** ** The order of byte strings *)

Lemma str_le_refl s : str_le s s = true.
Proof. induction s as [|b s IH]; [done|]. cbn. rewrite IH, Z.eqb_refl. by destruct (_ <? _). Qed.

Lemma str_le_total s t : str_le s t = true ∨ str_le t s = true.
Proof.
  revert t. induction s as [|a s IH]; intros [|b t]; cbn; auto.
  destruct (Z.lt_trichotomy (byte_val a) (byte_val b)) as [?|[E|?]].
  - left. lia.
  - rewrite E, Z.eqb_refl, Z.ltb_irrefl. apply IH.
  - right. lia.
Qed.

Lemma str_le_trans s t u : str_le s t = true → str_le t u = true → str_le s u = true.
Proof.
  revert t u. induction s as [|a s IH]; intros [|b t] [|c u]; cbn; try done.
  rewrite !orb_true_iff, !andb_true_iff, !Z.ltb_lt, !Z.eqb_eq.
  intros [?|[? ?]] [?|[? ?]]; try (left; lia). right. split; [lia|]. by eapply IH.
Qed.

Lemma str_le_antisymm s t : str_le s t = true → str_le t s = true → s = t.
Proof.
  revert t. induction s as [|a s IH]; intros [|b t]; cbn; try done.
  rewrite !orb_true_iff, !andb_true_iff, !Z.ltb_lt, !Z.eqb_eq.
  intros [?|[E ?]] [?|[? ?]]; try lia. apply byte_val_inj in E as ->. f_equal. auto.
Qed.

(** [Ord] on keys: strictly before. *)
Definition str_lt (s t : str) : bool := str_le s t && negb (bool_decide (s = t)).

Lemma str_lt_spec s t : str_lt s t = true ↔ str_le s t = true ∧ s ≠ t.
Proof. unfold str_lt. by rewrite andb_true_iff, negb_true_iff, bool_decide_eq_false. Qed.

Lemma str_lt_trans s t u : str_lt s t = true → str_lt t u = true → str_lt s u = true.
Proof.
  rewrite !str_lt_spec. intros [H1 N1] [H2 N2]. split; [by eapply str_le_trans|].
  intros ->. apply N2, str_le_antisymm; done.
Qed.

Lemma str_lt_irrefl s : str_lt s s = false.
Proof. unfold str_lt. rewrite bool_decide_eq_true_2 by done. apply andb_false_r. Qed.

Lemma str_lt_asymm s t : str_lt s t = true → str_lt t s = true → False.
Proof.
  intros H1 H2. pose proof (str_lt_trans _ _ _ H1 H2) as H. by rewrite str_lt_irrefl in H.
Qed.

Lemma str_trichotomy s t : str_lt s t = true ∨ s = t ∨ str_lt t s = true.
Proof.
  rewrite !str_lt_spec. destruct (decide (s = t)); [auto|].
  destruct (str_le_total s t); naive_solver.
Qed.

(** ** The iteration order is unique *)

Abbreviation key_le := (λ p q, Is_true (str_le p.1 q.1)).

Lemma key_sorted_unique {V} (l k : list (str * V)) :
  StronglySorted key_le l → StronglySorted key_le k → NoDup l.*1 → l ≡ₚ k → l = k.
Proof.
  intros Hl Hk Hnd Hp. eapply (StronglySorted_unique_strong key_le); try done.
  intros [a x] [b y] Ha Hb. cbn. rewrite !Is_true_true. intros H1 H2.
  assert (a = b) as -> by (by apply str_le_antisymm).
  f_equal. rewrite <-Hp in Hb.
  apply list_elem_of_lookup in Ha as [i Hi], Hb as [j Hj].
  assert (i = j) as ->; [|by simplify_eq].
  eapply (NoDup_lookup l.*1); [done|..]; rewrite list_lookup_fmap; [by rewrite Hi|by rewrite Hj].
Qed.

Lemma btree_iter_str_sorted {V} (m : gmap str V) : StronglySorted key_le (btree_iter str_le m).
Proof. apply btree_iter_sorted; [apply str_le_total|apply str_le_trans]. Qed.

(** A sorted list without repeated keys is the iteration of the map it lists. *)
Lemma btree_iter_of_sorted {V} (l : list (str * V)) (m : gmap str V) :
  StronglySorted key_le l → NoDup l.*1 → list_to_map l = m → btree_iter str_le m = l.
Proof.
  intros Hs Hnd <-. apply key_sorted_unique; [apply btree_iter_str_sorted|done|apply btree_iter_NoDup|].
  rewrite btree_iter_perm. by apply map_to_list_to_map.
Qed.

Lemma btree_iter_fmap {V W} (f : V → W) (m : gmap str V) :
  btree_iter str_le (f <$> m) = prod_map id f <$> btree_iter str_le m.
Proof.
  apply btree_iter_of_sorted.
  - induction (btree_iter_str_sorted m) as [|[k v] l Hl IH Hx]; [constructor|].
    cbn. constructor; [done|]. apply Forall_fmap. eapply Forall_impl; [exact Hx|]. by intros [].
  - rewrite <-list_fmap_compose, (list_fmap_ext _ fst) by (by intros ? [] ?). apply btree_iter_NoDup.
  - apply map_eq. intros k. rewrite lookup_fmap, option_eq. intros w.
    rewrite <-elem_of_list_to_map, list_elem_of_fmap, fmap_Some.
    + split.
      * intros ([k' v] & [= -> ->] & Hin%elem_of_btree_iter). by exists v.
      * intros (v & Hv & ->). exists (k, v). by rewrite elem_of_btree_iter.
    + rewrite <-list_fmap_compose, (list_fmap_ext _ fst) by (by intros ? [] ?). apply btree_iter_NoDup.
Qed.

(** ** A nested [BTreeMap] *)

(** The bindings in increasing key order. *)
Abbreviation key_lt := (λ p q, Is_true (str_lt p.1 q.1)).

Fixpoint assoc_get {V} (k : str) (m : list (str * V)) : option V :=
  match m with
  | [] => None
  | (k', v) :: m => if bool_decide (k = k') then Some v else assoc_get k m
  end.

(** [BTreeMap::insert], without the returned binding (which is [assoc_get]). *)
Fixpoint assoc_insert {V} (k : str) (v : V) (m : list (str * V)) : list (str * V) :=
  match m with
  | [] => [(k, v)]
  | (k', v') :: m' =>
    if bool_decide (k = k') then (k, v) :: m'
    else if str_lt k k' then (k, v) :: m
    else (k', v') :: assoc_insert k v m'
  end.

Section Assoc.
Context {V : Type}.
Implicit Types m : list (str * V).

Lemma assoc_get_None k m : assoc_get k m = None ↔ k ∉ m.*1.
Proof.
  induction m as [|[k' v] m IH]; cbn; [split; [intros _; apply not_elem_of_nil|done]|].
  rewrite not_elem_of_cons. case_bool_decide; naive_solver.
Qed.

Lemma assoc_get_Some_elem k v m : assoc_get k m = Some v → (k, v) ∈ m.
Proof.
  induction m as [|[k' v'] m IH]; cbn; [done|]. case_bool_decide; [intros [= ->]; subst; by left|].
  intros ?. right. auto.
Qed.

Lemma assoc_sorted_fresh k v m : StronglySorted key_lt ((k, v) :: m) → k ∉ m.*1.
Proof.
  intros H. apply StronglySorted_inv in H as [_ Hall].
  intros ([k' v'] & -> & Hin)%list_elem_of_fmap. eapply Forall_forall in Hall; [|done].
  cbn in Hall. by rewrite str_lt_irrefl in Hall.
Qed.

Lemma assoc_sorted_NoDup m : StronglySorted key_lt m → NoDup m.*1.
Proof.
  induction 1 as [|[k v] m Hm IH Hall]; [constructor|]. cbn. apply NoDup_cons. split; [|done].
  eapply (assoc_sorted_fresh _ v). by constructor.
Qed.

Lemma assoc_elem_get k v m : StronglySorted key_lt m → (k, v) ∈ m → assoc_get k m = Some v.
Proof.
  induction m as [|[k' v'] m IH]; intros Hs Hin; [by apply elem_of_nil in Hin|]. cbn.
  apply elem_of_cons in Hin as [[= -> ->]|Hin]; [by rewrite bool_decide_eq_true_2|].
  pose proof (assoc_sorted_fresh _ _ _ Hs) as Hf. apply StronglySorted_inv in Hs as [Hs _].
  rewrite bool_decide_eq_false_2; [auto|]. intros ->. apply Hf, list_elem_of_fmap. by exists (k', v).
Qed.

Lemma assoc_get_insert k v m j :
  assoc_get j (assoc_insert k v m) = if bool_decide (j = k) then Some v else assoc_get j m.
Proof.
  induction m as [|[k' v'] m IH]; cbn; [done|].
  destruct (decide (k = k')) as [->|Hne].
  - rewrite (bool_decide_eq_true_2 (k' = k')) by done. cbn. by case_bool_decide.
  - rewrite (bool_decide_eq_false_2 (k = k')) by done. destruct (str_lt k k'); cbn; [done|].
    rewrite IH. repeat case_bool_decide; congruence.
Qed.

Lemma assoc_insert_keys k v m x :
  x ∈ assoc_insert k v m → x = (k, v) ∨ x ∈ m.
Proof.
  induction m as [|[k' v'] m IH]; cbn; [set_solver|].
  case_bool_decide; [set_solver|]. destruct (str_lt k k'); set_solver.
Qed.

Lemma assoc_insert_sorted k v m :
  StronglySorted key_lt m → StronglySorted key_lt (assoc_insert k v m).
Proof.
  induction 1 as [|[k' v'] m Hm IH Hall]; cbn; [by repeat constructor|].
  case_bool_decide as Hk; subst; [by constructor|].
  destruct (str_lt k k') eqn:Hlt.
  - constructor; [by constructor|]. constructor; [by apply Is_true_true|].
    eapply Forall_impl; [exact Hall|]. intros [j w]. cbn. rewrite !Is_true_true.
    by apply str_lt_trans.
  - constructor; [done|]. apply Forall_forall. intros x [->|Hx]%assoc_insert_keys.
    + cbn. apply Is_true_true. destruct (str_trichotomy k k') as [?|[?|?]]; congruence.
    + by eapply Forall_forall in Hall.
Qed.

(** Sorted bindings are determined by what they bind. *)
Lemma assoc_ext m m' :
  StronglySorted key_lt m → StronglySorted key_lt m' →
  (∀ k, assoc_get k m = assoc_get k m') → m = m'.
Proof.
  intros Hm. revert m'. induction Hm as [|[k v] m Hm IH Hall]; intros m' Hm' Heq.
  - destruct m' as [|[k' v'] m']; [done|]. specialize (Heq k'). cbn in Heq.
    by rewrite bool_decide_eq_true_2 in Heq.
  - destruct m' as [|[k' v'] m']; [specialize (Heq k); cbn in Heq; by rewrite bool_decide_eq_true_2 in Heq|].
    assert (Hsm : StronglySorted key_lt ((k, v) :: m)) by (by constructor).
    assert (k = k') as ->.
    { pose proof (Heq k) as H1. pose proof (Heq k') as H2. cbn in H1, H2.
      rewrite bool_decide_eq_true_2 in H1 by done. rewrite (bool_decide_eq_true_2 (k' = k')) in H2 by done.
      repeat case_bool_decide; try congruence.
      symmetry in H1. apply assoc_get_Some_elem in H1, H2.
      apply StronglySorted_inv in Hm' as [_ Hall'].
      eapply Forall_forall in Hall, Hall'; [|done..]. cbn in *. apply Is_true_true in Hall, Hall'.
      exfalso. eauto using str_lt_asymm. }
    pose proof (Heq k') as Hv. cbn in Hv. rewrite !bool_decide_eq_true_2 in Hv by done.
    injection Hv as ->. f_equal. pose proof (assoc_sorted_fresh _ _ _ Hsm) as Hf.
    pose proof (assoc_sorted_fresh _ _ _ Hm') as Hf'. apply StronglySorted_inv in Hm' as [Hm' _].
    apply IH; [done|]. intros j. specialize (Heq j). cbn in Heq. case_bool_decide; [|done]. subst.
    rewrite (proj2 (assoc_get_None _ _) Hf), (proj2 (assoc_get_None _ _) Hf'). done.
Qed.
End Assoc.

(** ** Checked sums *)

(** A loop of [checked_add] over lengths. *)
Fixpoint checked_sum (lengths : list Z) (total : Z) : option Z :=
  match lengths with
  | [] => Some total
  | n :: lengths => total ← checked_add usize_max total n; checked_sum lengths total
  end.
Definition sum_lengths (l : list Z) : Z := foldr Z.add 0 l.

Lemma sum_lengths_nonneg l : Forall (λ x, 0 <= x) l → 0 <= sum_lengths l.
Proof. unfold sum_lengths. induction 1; cbn; lia. Qed.

Lemma sum_lengths_app l k : sum_lengths (l ++ k) = sum_lengths l + sum_lengths k.
Proof. unfold sum_lengths. induction l as [|x l IH]; cbn; lia. Qed.

Lemma checked_sum_exact l n m :
  Forall (λ x, 0 <= x) l → checked_sum l n = Some m ↔ m = n + sum_lengths l ∧ (l = [] ∨ m <= usize_max).
Proof.
  intros Hl. revert n. induction Hl as [|x l Hx Hl IH]; intros n; cbn [checked_sum].
  - unfold sum_lengths. cbn. split; [intros [= <-]; split; [lia|auto]|intros [-> _]; f_equal; lia].
  - rewrite bind_Some. setoid_rewrite checked_add_Some. pose proof (sum_lengths_nonneg l Hl).
    change (sum_lengths (x :: l)) with (x + sum_lengths l). split.
    + intros (k & [-> Hk] & [-> Hm]%IH). split; [lia|right]. destruct Hm as [->|]; [unfold sum_lengths; cbn|]; lia.
    + intros [-> Hm]. exists (n + x). destruct Hm as [|Hm]; [done|]. split; [lia|]. apply IH. split; [lia|right; lia].
Qed.

(** ** Decimal numerals *)

(** [usize::to_string]: the digits of [n], least significant first, with one
    unit of fuel per digit. *)
Fixpoint digits_rev (fuel : nat) (n : Z) : list Z :=
  match fuel with
  | O => []
  | S fuel => n mod 10 :: if n <? 10 then [] else digits_rev fuel (n / 10)
  end.
Definition digit_byte (d : Z) : byte := byte_of (48 + d).
(** A [usize] has at most twenty digits. *)
Definition usize_to_string (n : Z) : str := digit_byte <$> rev (digits_rev 20 n).

#[global] Arguments usize_to_string : simpl never.

Definition digit_val (b : byte) : option Z :=
  if in_range 48 57 (byte_val b) then Some (byte_val b - 48) else None.

Fixpoint parse_digits (acc : Z) (s : str) : option Z :=
  match s with
  | [] => Some acc
  | b :: s =>
    d ← digit_val b; m ← checked_mul usize_max acc 10; a ← checked_add usize_max m d;
    parse_digits a s
  end.

(** [str::parse::<usize>]: an optional plus sign and at least one digit. *)
Definition parse_usize (s : str) : option Z :=
  match s with
  | [] => None
  | [b] => parse_digits 0 [b]
  | b :: s' => if bool_decide (b = chr "+") then parse_digits 0 s' else parse_digits 0 s
  end.

(** The number a list of digits denotes, continuing from [acc]. *)
Definition digits_value (acc : Z) (ds : list Z) : Z := foldl (λ a d, a * 10 + d) acc ds.

Lemma digits_value_app acc ds es : digits_value acc (ds ++ es) = digits_value (digits_value acc ds) es.
Proof. apply foldl_app. Qed.

Lemma digits_value_mono acc ds : 0 <= acc → Forall (λ d, 0 <= d < 10) ds → acc <= digits_value acc ds.
Proof.
  intros Ha Hds. revert acc Ha. induction Hds as [|d ds Hd Hds IH]; intros acc Ha; [done|].
  unfold digits_value in *. cbn. specialize (IH (acc * 10 + d) ltac:(lia)). lia.
Qed.

Lemma digits_rev_range fuel n : 0 <= n → Forall (λ d, 0 <= d < 10) (digits_rev fuel n).
Proof.
  revert n. induction fuel as [|fuel IH]; intros n Hn; cbn; [constructor|].
  constructor; [apply Z.mod_pos_bound; lia|].
  destruct (n <? 10); [constructor|]. apply IH, Z.div_pos; lia.
Qed.

Lemma digits_rev_value fuel n :
  0 <= n < 10 ^ Z.of_nat fuel → digits_value 0 (rev (digits_rev fuel n)) = n.
Proof.
  revert n. induction fuel as [|fuel IH]; intros n Hn; [cbn in *; lia|].
  rewrite Nat2Z.inj_succ, Z.pow_succ_r in Hn by lia. cbn [digits_rev rev].
  rewrite digits_value_app. unfold digits_value at 1. cbn [foldl].
  destruct (Z.ltb_spec n 10) as [Hs|Hs].
  - cbn. rewrite Z.mod_small by lia. lia.
  - rewrite IH by (split; [apply Z.div_pos; lia|apply Z.div_lt_upper_bound; lia]).
    pose proof (Z.div_mod n 10 ltac:(lia)). lia.
Qed.

Lemma digit_val_byte d : 0 <= d < 10 → digit_val (digit_byte d) = Some d.
Proof.
  intros Hd. unfold digit_val, digit_byte. rewrite byte_val_of, Z.mod_small by lia.
  rewrite (proj2 (in_range_true 48 57 _)) by lia. f_equal. lia.
Qed.

Lemma parse_digits_value acc ds :
  0 <= acc → Forall (λ d, 0 <= d < 10) ds → digits_value acc ds <= usize_max →
  parse_digits acc (digit_byte <$> ds) = Some (digits_value acc ds).
Proof.
  intros Ha Hds. revert acc Ha. induction Hds as [|d ds Hd Hds IH]; intros acc Ha Hb; [done|].
  cbn [fmap list_fmap parse_digits]. rewrite digit_val_byte by done. cbn [mbind option_bind].
  assert (Hle : acc * 10 + d <= usize_max).
  { etransitivity; [|exact Hb]. change (digits_value acc (d :: ds)) with (digits_value (acc * 10 + d) ds).
    apply digits_value_mono; [lia|done]. }
  rewrite (proj2 (checked_mul_Some usize_max acc 10 (acc * 10))) by lia. cbn [mbind option_bind].
  rewrite (proj2 (checked_add_Some _ _ _ _) (conj eq_refl Hle)). cbn [mbind option_bind].
  apply IH; [lia|done].
Qed.

(** Printing then parsing a [usize] gives it back. *)
Lemma parse_usize_to_string n : 0 <= n <= usize_max → parse_usize (usize_to_string n) = Some n.
Proof.
  intros Hn. unfold usize_to_string.
  pose proof (digits_rev_range 20 n ltac:(lia)) as Hr. apply Forall_rev in Hr.
  assert (Hv : digits_value 0 (rev (digits_rev 20 n)) = n).
  { apply digits_rev_value. unfold usize_max, u64_max in Hn.
    change (10 ^ Z.of_nat 20) with 100000000000000000000. lia. }
  pose proof (parse_digits_value 0 _ ltac:(lia) Hr ltac:(rewrite Hv; lia)) as Hp. rewrite Hv in Hp.
  assert (Hne : rev (digits_rev 20 n) ≠ []).
  { cbn [digits_rev rev]. intros H%app_eq_nil. by destruct H. }
  destruct (rev (digits_rev 20 n)) as [|d ds] eqn:E; [done|].
  change (digit_byte <$> d :: ds) with (digit_byte d :: (digit_byte <$> ds)) in *.
  unfold parse_usize. destruct (digit_byte <$> ds) as [|b bs] eqn:Eb; [done|].
  rewrite bool_decide_eq_false_2; [done|]. intros H%(f_equal byte_val).
  apply Forall_inv in Hr. unfold digit_byte in H. rewrite byte_val_of, Z.mod_small in H by lia.
  change (byte_val (chr "+")) with 43 in H. lia.
Qed.

(** ** Joined paths *)

(** The components of a path joined by slashes, as [format!("{parent}/{name}")]
    builds them. *)
Definition member_path (parent name : str) : str :=
  match parent with [] => name | _ => parent ++ chr "/" :: name end.

Definition join_path (components : list str) : str := foldl member_path [] components.

Definition name_plain (name : str) : Prop := name ≠ [] ∧ chr "/" ∉ name.

Lemma split_app_sep sep s t : (sep ∉ s) → split sep (s ++ sep :: t) = s :: split sep t.
Proof.
  induction s as [|b s IH]; cbn; intros Hn.
  - by rewrite bool_decide_eq_true_2.
  - apply not_elem_of_cons in Hn as [Hb Hn].
    rewrite bool_decide_eq_false_2 by congruence. by rewrite IH.
Qed.

Lemma split_plain sep s : (sep ∉ s) → split sep s = [s].
Proof.
  induction s as [|b s IH]; cbn; intros Hn; [done|]. apply not_elem_of_cons in Hn as [Hb Hn].
  rewrite bool_decide_eq_false_2 by congruence. by rewrite IH.
Qed.

Lemma split_snoc sep s t : (sep ∉ t) → split sep (s ++ sep :: t) = split sep s ++ [t].
Proof.
  intros Ht. induction s as [|b s IH]; cbn.
  - rewrite bool_decide_eq_true_2 by done. by rewrite split_plain.
  - case_bool_decide; rewrite IH; [done|]. pose proof (split_nonempty sep s).
    by destruct (split sep s).
Qed.

Lemma join_path_snoc cs c : join_path (cs ++ [c]) = member_path (join_path cs) c.
Proof. unfold join_path. by rewrite foldl_app. Qed.

Lemma join_path_nonempty cs : cs ≠ [] → Forall name_plain cs → join_path cs ≠ [].
Proof.
  destruct cs as [|c cs _] using rev_ind; [done|]. intros _ [_ Hc]%Forall_app.
  apply Forall_inv in Hc as [Hc _]. rewrite join_path_snoc. unfold member_path.
  destruct (join_path cs); [done|]. by destruct cs.
Qed.

(** Splitting a joined path gives its components back. *)
Lemma split_join_path cs : cs ≠ [] → Forall name_plain cs → split (chr "/") (join_path cs) = cs.
Proof.
  induction cs as [|c cs IH] using rev_ind; [done|]. intros _ [Hcs Hc]%Forall_app.
  apply Forall_inv in Hc as [Hc Hs]. rewrite join_path_snoc.
  destruct (decide (cs = [])) as [->|Hne]; [by apply split_plain|].
  pose proof (join_path_nonempty cs Hne Hcs) as Hj. unfold member_path.
  destruct (join_path cs) as [|b p] eqn:E; [done|]. rewrite <-E in *.
  by rewrite split_snoc, IH.
Qed.

Lemma join_path_inj cs ds :
  Forall name_plain cs → Forall name_plain ds → cs ≠ [] → ds ≠ [] →
  join_path cs = join_path ds → cs = ds.
Proof.
  intros Hc Hd Hcn Hdn H. rewrite <-(split_join_path cs), <-(split_join_path ds) by done.
  by rewrite H.
Qed.

(** ** Characters *)

(** [str::chars().any(char::is_control)]: the code points U+0000..001F and
    U+007F..009F, read off their UTF-8 encoding. *)
Fixpoint has_control (s : str) : bool :=
  match s with
  | [] => false
  | b :: s' =>
    (byte_val b <? 0x20) || (byte_val b =? 0x7f) ||
    ((byte_val b =? 0xC2) &&
     match s' with c :: _ => in_range 0x80 0x9F (byte_val c) | [] => false end) ||
    has_control s'
  end.

(** [str::chars], each character as its UTF-8 bytes: a byte with the
    continuation bytes that follow it. *)
Definition starts_with_cont (s : str) : bool :=
  match s with b :: _ => utf8_cont b | [] => false end.

Fixpoint chars (s : str) : list str :=
  match s with
  | [] => []
  | b :: s' =>
    if starts_with_cont s' then
      match chars s' with c :: cs => (b :: c) :: cs | [] => [[b]] end
    else [b] :: chars s'
  end.

(** [char::len_utf16]: two units outside the basic plane. *)
Definition len_utf16 (c : str) : Z := if len c =? 4 then 2 else 1.

(** [str::is_char_boundary] and [str::get(start..end)]. *)
Definition is_char_boundary (s : str) (i : Z) : bool :=
  (i =? 0) || (i =? len s) ||
  match s !! Z.to_nat i with Some b => negb (utf8_cont b) | None => false end.
Definition str_get (s : str) (start stop : Z) : option str :=
  if is_char_boundary s start && is_char_boundary s stop then slice s start stop else None.

Lemma chars_nonempty s : s ≠ [] → chars s ≠ [].
Proof. destruct s as [|b s]; [done|]. intros _. cbn. destruct (starts_with_cont s); [by destruct (chars s)|done]. Qed.

Lemma concat_chars s : concat (chars s) = s.
Proof.
  induction s as [|b s IH]; [done|]. cbn. destruct (starts_with_cont s) eqn:E; [|cbn; by rewrite IH].
  destruct (chars s) as [|c cs] eqn:Ec; cbn in *; [by rewrite <-IH|by rewrite <-IH].
Qed.

Lemma chars_app s t : starts_with_cont t = false → chars (s ++ t) = chars s ++ chars t.
Proof.
  intros Ht. induction s as [|b s IH]; [done|]. cbn.
  assert (Hs : starts_with_cont (s ++ t) = starts_with_cont s) by (by destruct s).
  rewrite Hs. destruct (starts_with_cont s) eqn:E; [|by rewrite IH].
  rewrite IH. destruct s as [|b' s]; [done|].
  pose proof (chars_nonempty (b' :: s) ltac:(done)) as Hc. by destruct (chars (b' :: s)).
Qed.

Lemma chars_elem_nonempty s c : c ∈ chars s → c ≠ [].
Proof.
  induction s as [|b s IH]; cbn; [by intros ?%elem_of_nil|].
  destruct (starts_with_cont s); [destruct (chars s)|]; set_solver.
Qed.

Lemma chars_prefix s cs ds : chars s = cs ++ ds → chars (concat cs) = cs.
Proof.
  revert cs ds. induction s as [|b s IH]; cbn [chars]; intros cs ds H.
  { symmetry in H. by apply app_eq_nil in H as [-> _]. }
  destruct cs as [|c cs]; [done|].
  destruct (starts_with_cont s) eqn:E.
  - destruct s as [|b' s]; [done|]. destruct (chars (b' :: s)) as [|c' cs'] eqn:Ec; [by apply chars_nonempty in Ec|].
    injection H as <- H. specialize (IH (c' :: cs) ds ltac:(cbn; by rewrite H)).
    assert (Hb : ∃ t, c' = b' :: t).
    { cbn in Ec. destruct (starts_with_cont s); [destruct (chars s)|]; injection Ec as <- <-; eauto. }
    destruct Hb as [t ->]. change (concat ((b :: b' :: t) :: cs)) with (b :: concat ((b' :: t) :: cs)).
    cbn [chars]. rewrite IH. change (starts_with_cont (concat ((b' :: t) :: cs))) with (utf8_cont b').
    cbn [starts_with_cont] in E. by rewrite E.
  - injection H as <- H. specialize (IH cs ds H). cbn [concat app chars].
    assert (Hn : starts_with_cont (concat cs) = false).
    { destruct s as [|b' s]; [destruct cs; [done|by cbn in H]|]. destruct cs as [|c' cs]; [done|].
      cbn in H. destruct (starts_with_cont s); [destruct (chars s)|]; injection H as <- H; exact E. }
    by rewrite Hn, IH.
Qed.

(** *** Well-formed text, character by character *)

Definition utf8_char (c : str) : Prop :=
  (∃ b, c = [b] ∧ byte_val b < 0x80) ∨
  (2 <= len c <= 4 ∧ Forall (λ b, 0x80 <= byte_val b) c).

Lemma utf8_valid_start s : utf8_valid s = true → starts_with_cont s = false.
Proof.
  destruct s as [|b s]; [done|]. cbn. unfold utf8_cont, in_range. intros H.
  destruct (Z.ltb_spec (byte_val b) 0x80); [lia|]. destruct (Z.leb_spec (byte_val b) 0xBF); [|lia].
  rewrite (proj2 (Z.leb_gt 0xC2 _)), (proj2 (Z.leb_gt 0xE0 _)), (proj2 (Z.leb_gt 0xF0 _)) in H by lia. done.
Qed.

Lemma chars_cons_ascii b s : starts_with_cont s = false → chars (b :: s) = [b] :: chars s.
Proof. intros H. cbn. by rewrite H. Qed.

Lemma chars_group b cs s :
  Forall (λ c, utf8_cont c = true) cs → starts_with_cont s = false →
  chars (b :: cs ++ s) = (b :: cs) :: chars s.
Proof.
  intros Hcs Hs. revert b. induction Hcs as [|c cs Hc _ IH]; intros b; [by apply chars_cons_ascii|].
  change (b :: (c :: cs) ++ s) with (b :: c :: cs ++ s). cbn [chars starts_with_cont]. rewrite Hc.
  pose proof (IH c) as H. cbn [chars] in H. by rewrite H.
Qed.

(** Well-formed text is a sequence of well-formed characters. *)
Lemma utf8_ind (P : str → Prop) :
  P [] →
  (∀ c s, utf8_char c → utf8_valid s = true → chars (c ++ s) = c :: chars s → P s → P (c ++ s)) →
  ∀ s, utf8_valid s = true → P s.
Proof.
  intros Hnil Hstep s. remember (length s) as n eqn:Hn. revert s Hn.
  induction n as [n IH] using lt_wf_ind. intros [|b0 s] Hn Hv; [done|].
  assert (Hcont : ∀ b, utf8_cont b = true → 0x80 <= byte_val b) by (intros b H; apply in_range_true in H; lia).
  assert (Hgroup : ∀ cs t, s = cs ++ t → Forall (λ c, utf8_cont c = true) cs → 0x80 <= byte_val b0 →
    1 <= len cs <= 3 → utf8_valid t = true → P (b0 :: s)).
  { intros cs t -> Hcs Hb Hl Ht. apply (Hstep (b0 :: cs) t).
    - right. rewrite len_cons. split; [lia|]. constructor; [lia|]. eapply Forall_impl; [exact Hcs|]. auto.
    - done.
    - apply chars_group; [done|by apply utf8_valid_start].
    - eapply IH; [|done|done]. subst n. cbn. rewrite length_app. lia. }
  cbn in Hv. destruct (Z.ltb_spec (byte_val b0) 0x80).
  { apply (Hstep [b0] s); [left; by exists b0|done|apply chars_cons_ascii; by apply utf8_valid_start|].
    eapply IH; [|done|done]. subst n. cbn. lia. }
  assert (Hr : ∀ lo hi b, in_range lo hi (byte_val b) = true → 0x80 <= lo → hi <= 0xBF → utf8_cont b = true).
  { intros lo hi b H1%in_range_true ? ?. apply in_range_true. lia. }
  destruct (in_range 0xC2 0xDF (byte_val b0)).
  { destruct s as [|b1 t]; [done|]. apply andb_true_iff in Hv as [H1 H2].
    apply (Hgroup [b1] t); [done|by repeat constructor|lia|done|done]. }
  destruct (in_range 0xE0 0xEF (byte_val b0)).
  { destruct s as [|b1 [|b2 t]]; [done..|]. rewrite !andb_true_iff in Hv. destruct Hv as [[H1 H2] H3].
    apply (Hgroup [b1; b2] t); [done| |lia|done|done]. constructor; [|by repeat constructor].
    destruct (byte_val b0 =? 0xE0); [by eapply Hr; [exact H1|lia|lia]|].
    destruct (byte_val b0 =? 0xED); [by eapply Hr; [exact H1|lia|lia]|done]. }
  destruct (in_range 0xF0 0xF4 (byte_val b0)); [|done].
  destruct s as [|b1 [|b2 [|b3 t]]]; [done..|]. rewrite !andb_true_iff in Hv. destruct Hv as [[[H1 H2] H3] H4].
  apply (Hgroup [b1; b2; b3] t); [done| |lia|done|done]. constructor; [|by repeat constructor].
  destruct (byte_val b0 =? 0xF0); [by eapply Hr; [exact H1|lia|lia]|].
  destruct (byte_val b0 =? 0xF4); [by eapply Hr; [exact H1|lia|lia]|done].
Qed.
