(* ===== verification/Ids.v ===== *)
(** * Identifiers: stable names and the text of a digest

    Models [crates/weregopher-domain/src/ids.rs] (the grammar behind every
    identifier declared with [stable_string_id!], which is what [validate_stable_name]
    accepts) and the text form of [Sha256Digest] in
    [crates/weregopher-domain/src/digest.rs].  The identifiers that wrap a UUID or a
    [u64] check nothing and appear in the other files as the values they wrap.
    The [hex] crate is a pair of parameters with the laws of its documentation. *)

From S2P Require Import Prelude Text.

(** ** Stable names *)

Record IdentifierError : Type := mkIdentifierError {
  identifier_error_kind : str;
  identifier_error_value : str;
  identifier_error_reason : str
}.

Definition is_ascii_lowercase (b : byte) : bool := in_range 97 122 (byte_val b).
Definition is_ascii_alphanumeric_lower (b : byte) : bool := is_ascii_lowercase b || in_range 48 57 (byte_val b).
(** [.], [-] and [_]. *)
Definition name_separators : list byte := [chr "."; chr "-"; chr "_"].
Definition is_stable_byte (b : byte) : bool := is_ascii_alphanumeric_lower b || bool_decide (b ∈ name_separators).

(** [value.contains("..")]. *)
Fixpoint contains_dotdot (s : str) : bool :=
  match s with
  | a :: (b :: _) as rest => (bool_decide (a = chr ".") && bool_decide (b = chr ".")) || contains_dotdot rest
  | _ => false
  end.

Definition validate_stable_name (kind value : str) : result str IdentifierError :=
  let error reason := mkIdentifierError kind value (lit reason) in
  let? _ := reject (bool_decide (value = [])) (error "must not be empty") in
  let? _ := reject (255 <? len value) (error "must not exceed 255 bytes") in
  let? _ := reject (existsb (λ b, starts_with_byte b value) name_separators ||
                    existsb (λ b, ends_with_byte b value) name_separators)
    (error "must start and end with an ASCII lowercase letter or digit") in
  let? _ := reject (negb (forallb is_stable_byte value)) (error "contains a character outside [a-z0-9._-]") in
  let? _ := reject (contains_dotdot value) (error "must not contain an empty dotted segment") in
  Ok value.

(** ** The text of a digest *)

Definition SHA256_LEN : Z := 32.
Definition SHA256_TEXT_PREFIX : str := lit "sha256:".

Inductive Sha256DigestError : Type :=
| DigestMissingPrefix | DigestInvalidLength (actual : Z) | DigestUppercaseHex | DigestInvalidHex.

Definition is_ascii_uppercase (b : byte) : bool := in_range 65 90 (byte_val b).

Section Digest.
Context (hex_encode : bytes → str) (hex_decode : str → option bytes).

Definition sha256_digest_to_string (d : bytes) : str := SHA256_TEXT_PREFIX ++ hex_encode d.

Definition sha256_digest_from_str (value : str) : result bytes Sha256DigestError :=
  let? hex_value := ok_or (strip_prefix SHA256_TEXT_PREFIX value) DigestMissingPrefix in
  let? _ := reject (negb (len hex_value =? SHA256_LEN * 2)) (DigestInvalidLength (len hex_value)) in
  let? _ := reject (existsb is_ascii_uppercase hex_value) DigestUppercaseHex in
  ok_or (hex_decode hex_value) DigestInvalidHex.
End Digest.

(** ** The grammar of names *)

(** The pattern of the identifiers' JSON schema:
    [^(?!.*\.\.)[a-z0-9](?:[a-z0-9._-]{0,253}[a-z0-9])?$]. *)
Definition schema_pattern (s : str) : Prop :=
  (¬ ∃ before after, s = before ++ lit ".." ++ after) ∧
  ((∃ c, s = [c] ∧ is_ascii_alphanumeric_lower c) ∨
   (∃ c middle d, s = c :: middle ++ [d] ∧ is_ascii_alphanumeric_lower c ∧ is_ascii_alphanumeric_lower d ∧
      Forall is_stable_byte middle ∧ (length middle <= 253)%nat)).

Lemma contains_dotdot_spec s : contains_dotdot s = true ↔ ∃ before after, s = before ++ lit ".." ++ after.
Proof.
  split.
  - induction s as [|a [|b s] IH]; [done..|]. cbn [contains_dotdot].
    rewrite orb_true_iff, andb_true_iff, !bool_decide_eq_true. intros [[-> ->]|H]; [by exists [], s|].
    destruct (IH H) as (before & after & He). exists (a :: before), after. by rewrite He.
  - intros (before & after & ->). induction before as [|a before IH]; [by destruct after|].
    cbn [app]. destruct (before ++ lit ".." ++ after) eqn:E; [by destruct before|].
    cbn [contains_dotdot]. rewrite orb_true_iff. right. exact IH.
Qed.

(** A separator is stable but not alphanumeric, and nothing else is. *)
Lemma stable_not_separator b : is_stable_byte b = true → (b ∉ name_separators) → is_ascii_alphanumeric_lower b = true.
Proof. unfold is_stable_byte. rewrite orb_true_iff, bool_decide_eq_true. tauto. Qed.
Lemma alphanumeric_not_separator b : is_ascii_alphanumeric_lower b = true → b ∉ name_separators.
Proof. intros H Hin. destruct b; try discriminate H; revert Hin; by apply (bool_decide_unpack _). Qed.
Lemma alphanumeric_stable b : is_ascii_alphanumeric_lower b = true → is_stable_byte b = true.
Proof. unfold is_stable_byte. by intros ->. Qed.

Lemma ends_with_separator s c :
  last s = Some c → existsb (λ b, ends_with_byte b s) name_separators = bool_decide (c ∈ name_separators).
Proof.
  intros H. cbn [existsb name_separators]. unfold ends_with_byte. rewrite H. by destruct c.
Qed.
Lemma starts_with_separator s c :
  head s = Some c → existsb (λ b, starts_with_byte b s) name_separators = bool_decide (c ∈ name_separators).
Proof.
  destruct s as [|d s]; [done|]. intros [= ->]. cbn [existsb name_separators]. unfold starts_with_byte. by destruct c.
Qed.

(** What the checks of [validate_stable_name] say, in the order of the code. *)
Lemma validate_stable_name_Ok kind value v :
  validate_stable_name kind value = Ok v ↔
    v = value ∧ ∃ c d, head value = Some c ∧ last value = Some d ∧ len value <= 255 ∧
      (c ∉ name_separators) ∧ (d ∉ name_separators) ∧ Forall is_stable_byte value ∧ contains_dotdot value = false.
Proof.
  unfold validate_stable_name. destruct value as [|c s].
  { cbn. split; [done|]. intros (_ & c & d & Hc & _). discriminate Hc. }
  destruct (last_is_Some (c :: s)) as [_ [d Hd]]; [done|].
  rewrite (ends_with_separator _ _ Hd), (starts_with_separator (c :: s) c eq_refl). split.
  - intros H. inv_ok. inv_guards. split; [done|]. exists c, d. split_and!; try done; [].
    match goal with Hf : forallb _ _ = true |- _ => rewrite forallb_forall in Hf; rename Hf into Hall end.
    apply Forall_forall. intros x Hx%list_elem_of_In. apply Is_true_true. auto.
  - intros (-> & ? & ? & [= <-] & Hd' & Hl & Hc & Hd'' & Hall & Hdot). rewrite Hd in Hd'. injection Hd' as <-.
    rewrite !bool_decide_eq_false_2 by done. rewrite (proj2 (Z.ltb_ge _ _)) by lia. cbn [orb reject result_bind].
    rewrite (proj2 (forallb_forall _ _)), Hdot; [done|]. rewrite Forall_forall in Hall.
    intros x Hx%list_elem_of_In. by apply Is_true_true, Hall.
Qed.

(** Stable names are ASCII text without quotes: they can be written between quotes as they are. *)
Lemma stable_name_bytes kind value v b :
  validate_stable_name kind value = Ok v → b ∈ v → is_stable_byte b = true.
Proof.
  intros (-> & _ & _ & _ & _ & _ & _ & _ & Hall & _)%validate_stable_name_Ok Hb.
  rewrite Forall_forall in Hall. by apply Is_true_true, Hall.
Qed.

(** An identifier of a kind: the text of a value of the type. *)
Definition stable_name (kind s : str) : Prop := validate_stable_name kind s = Ok s.

Lemma stable_name_omits kind s b : stable_name kind s → is_stable_byte b = false → b ∉ s.
Proof. intros Hs Hb Hin. by rewrite (stable_name_bytes _ _ _ _ Hs Hin) in Hb. Qed.

(** The constructor of an identifier and the pattern of its JSON schema are the same language:
    a name is accepted, unchanged, exactly when it matches; and every rejection names the kind and
    the value, whichever check fails. *)
Theorem stable_names_match_schema kind value :
  (∀ v, validate_stable_name kind value = Ok v ↔ v = value ∧ schema_pattern value) ∧
  (∀ e, validate_stable_name kind value = Err e →
     identifier_error_kind e = kind ∧ identifier_error_value e = value ∧ ¬ schema_pattern value).
Proof.
  assert (Hok : ∀ v, validate_stable_name kind value = Ok v ↔ v = value ∧ schema_pattern value).
  { intros v. rewrite validate_stable_name_Ok. unfold schema_pattern. apply and_iff_compat_l. split.
    - intros (c & d & Hc & Hd & Hl & Hcs & Hds & Hall & Hdot). split.
      { rewrite <-contains_dotdot_spec, Hdot. done. }
      destruct value as [|c' s]; [done|]. injection Hc as ->. apply Forall_cons in Hall as [Hcst Hall].
      pose proof (stable_not_separator c (proj1 (Is_true_true _) Hcst) Hcs) as Hca.
      destruct s as [|x s _] using rev_ind; [left; exists c; split; [done|by apply Is_true_true]|].
      right. change (last ((c :: s) ++ [x]) = Some d) in Hd. rewrite last_snoc in Hd. injection Hd as ->.
      apply Forall_app in Hall as [Hmid Hx]. apply Forall_singleton, Is_true_true in Hx.
      exists c, s, d. split_and!; [done|by apply Is_true_true|by apply Is_true_true, stable_not_separator|done|].
      unfold len in Hl. cbn in Hl. rewrite length_app in Hl. cbn in Hl. lia.
    - intros (Hdot & Hshape). rewrite <-contains_dotdot_spec, not_true_iff_false in Hdot.
      destruct Hshape as [(c & -> & Hc%Is_true_true)|(c & m & d & -> & Hc%Is_true_true & Hd%Is_true_true & Hm & Hl)].
      + exists c, c. pose proof (alphanumeric_not_separator c Hc). split_and!; try done.
        apply Forall_singleton, Is_true_true. by apply alphanumeric_stable.
      + exists c, d. pose proof (alphanumeric_not_separator c Hc). pose proof (alphanumeric_not_separator d Hd).
        split_and!; try done.
        * change (last ((c :: m) ++ [d]) = Some d). apply last_snoc.
        * unfold len. cbn. rewrite length_app. cbn. lia.
        * apply Forall_cons. split; [by apply Is_true_true, alphanumeric_stable|]. apply Forall_app. split; [done|].
          apply Forall_singleton, Is_true_true. by apply alphanumeric_stable. }
  split; [exact Hok|]. intros e He.
  assert (Hp : ¬ schema_pattern value).
  { intros Hp. rewrite (proj2 (Hok value)) in He; [discriminate He|done]. }
  unfold validate_stable_name, reject in He.
  repeat (destruct (_ : bool); cbn [result_bind] in He; [injection He as <-; done|]). discriminate He.
Qed.

(** ** The text of a digest round-trips *)

(** What the code relies on of the [hex] crate. *)
Record lawful_hex_codec (hex_encode : bytes → str) (hex_decode : str → option bytes) : Prop := {
  hex_decode_encode : ∀ bs, hex_decode (hex_encode bs) = Some bs;
  hex_encode_decode : ∀ s bs, hex_decode s = Some bs → hex_encode bs = to_ascii_lowercase s;
  hex_encode_length : ∀ bs, len (hex_encode bs) = 2 * len bs;
  hex_encode_lowercase : ∀ bs, existsb is_ascii_uppercase (hex_encode bs) = false
}.

Lemma to_ascii_lowercase_id s : existsb is_ascii_uppercase s = false → to_ascii_lowercase s = s.
Proof.
  induction s as [|b s IH]; [done|]. cbn. intros [Hb Hs]%orb_false_iff. unfold is_ascii_uppercase in Hb.
  rewrite Hb. f_equal. by apply IH.
Qed.

(** The text of a digest is canonical: reading accepts exactly the texts [Display] writes, for the
    32 bytes that were written. *)
Lemma sha256_digest_text_canonical hex_encode hex_decode s d :
  lawful_hex_codec hex_encode hex_decode →
  sha256_digest_from_str hex_decode s = Ok d ↔ s = sha256_digest_to_string hex_encode d ∧ len d = SHA256_LEN.
Proof.
  intros Hhex. unfold sha256_digest_from_str, sha256_digest_to_string. split.
  - intros H. inv_ok. inv_guards.
    match goal with Hd : hex_decode _ = _, Hp : strip_prefix _ _ = _ |- _ => apply strip_prefix_Some in Hp as ->; pose proof (hex_encode_decode _ _ Hhex _ _ Hd) as He end.
    rewrite to_ascii_lowercase_id in He by done. split; [by rewrite He|].
    pose proof (hex_encode_length _ _ Hhex d). rewrite He in *. unfold SHA256_LEN in *. lia.
  - intros [-> Hl]. rewrite (proj2 (strip_prefix_Some _ _ _) eq_refl). cbn [ok_or result_bind].
    rewrite (hex_encode_length _ _ Hhex), (hex_encode_lowercase _ _ Hhex), (hex_decode_encode _ _ Hhex), Hl. done.
Qed.
