(* ===== verification/Wire.v ===== *)
(** * Wire: the backend-neutral protocol contracts

    Models [crates/weregopher-domain/src/protocol.rs]: the frame header with
    its padding-free 28-byte codec, the message tags, the negotiated limits and
    the semantic value model exchanged by worker, host and renderer.

    A UUID identity ([AppInstanceId], [RuntimeId], ...) is the 128-bit number it
    wraps; a numeric identity is its [u64]; an [f64] is its 64-bit pattern. *)

From S2P Require Import Prelude.

(** ** Identities *)

Definition AppInstanceId : Type := Z.
Definition RuntimeId : Type := Z.
Definition ProtocolSessionId : Type := Z.
Definition CapabilityGrantId : Type := Z.
Definition UserActivationId : Type := Z.
Definition TraceId : Type := Z.
Definition RendererId : Type := Z.
Definition Sha256Digest : Type := bytes.

(** ** Message kinds *)

Inductive MessageKind : Type :=
| Kind_Hello | Kind_Welcome | Kind_Reject | Kind_LoadApplication
| Kind_ApplicationReady | Kind_ApplicationExit | Kind_Call | Kind_CallResult
| Kind_CallError | Kind_Cancel | Kind_Event | Kind_Subscribe | Kind_Unsubscribe
| Kind_IpcSend | Kind_IpcInvoke | Kind_IpcReply | Kind_IpcError
| Kind_StreamOpen | Kind_StreamWindow | Kind_StreamData | Kind_StreamEnd
| Kind_StreamError | Kind_RetainHandle | Kind_ReleaseHandle
| Kind_SharedBufferOffer | Kind_SharedBufferAccept | Kind_SharedBufferRelease
| Kind_Heartbeat | Kind_Diagnostics | Kind_Shutdown.

#[global] Instance MessageKind_eq_dec : EqDecision MessageKind.
Proof. solve_decision. Defined.

(** The [#[repr(u8)]] discriminant: [kind as u8]. *)
Definition message_kind_tag (k : MessageKind) : Z :=
  match k with
  | Kind_Hello => 1 | Kind_Welcome => 2 | Kind_Reject => 3
  | Kind_LoadApplication => 4 | Kind_ApplicationReady => 5
  | Kind_ApplicationExit => 6 | Kind_Call => 7 | Kind_CallResult => 8
  | Kind_CallError => 9 | Kind_Cancel => 10 | Kind_Event => 11
  | Kind_Subscribe => 12 | Kind_Unsubscribe => 13 | Kind_IpcSend => 14
  | Kind_IpcInvoke => 15 | Kind_IpcReply => 16 | Kind_IpcError => 17
  | Kind_StreamOpen => 18 | Kind_StreamWindow => 19 | Kind_StreamData => 20
  | Kind_StreamEnd => 21 | Kind_StreamError => 22 | Kind_RetainHandle => 23
  | Kind_ReleaseHandle => 24 | Kind_SharedBufferOffer => 25
  | Kind_SharedBufferAccept => 26 | Kind_SharedBufferRelease => 27
  | Kind_Heartbeat => 28 | Kind_Diagnostics => 29 | Kind_Shutdown => 30
  end.

Inductive FrameHeaderError : Type :=
| InvalidLength (actual : Z)
| ReservedBitsSet
| UnknownFlags (flags : Z)
| UnknownMessageKind (tag : Z).

(** [MessageKind::try_from(u8)]. *)
Definition message_kind_try_from (value : Z) : result MessageKind FrameHeaderError :=
  match value with
  | 1 => Ok Kind_Hello | 2 => Ok Kind_Welcome | 3 => Ok Kind_Reject
  | 4 => Ok Kind_LoadApplication | 5 => Ok Kind_ApplicationReady
  | 6 => Ok Kind_ApplicationExit | 7 => Ok Kind_Call | 8 => Ok Kind_CallResult
  | 9 => Ok Kind_CallError | 10 => Ok Kind_Cancel | 11 => Ok Kind_Event
  | 12 => Ok Kind_Subscribe | 13 => Ok Kind_Unsubscribe | 14 => Ok Kind_IpcSend
  | 15 => Ok Kind_IpcInvoke | 16 => Ok Kind_IpcReply | 17 => Ok Kind_IpcError
  | 18 => Ok Kind_StreamOpen | 19 => Ok Kind_StreamWindow
  | 20 => Ok Kind_StreamData | 21 => Ok Kind_StreamEnd
  | 22 => Ok Kind_StreamError | 23 => Ok Kind_RetainHandle
  | 24 => Ok Kind_ReleaseHandle | 25 => Ok Kind_SharedBufferOffer
  | 26 => Ok Kind_SharedBufferAccept | 27 => Ok Kind_SharedBufferRelease
  | 28 => Ok Kind_Heartbeat | 29 => Ok Kind_Diagnostics | 30 => Ok Kind_Shutdown
  | unknown => Err (UnknownMessageKind unknown)
  end.

(** ** Frame header *)

Definition FRAME_HEADER_LEN : Z := 28.

Record FrameHeader : Type := mkFrameHeader {
  frame_length : Z;
  protocol_major : Z;
  protocol_minor : Z;
  message_kind : MessageKind;
  flags : Z;
  request_id : Z;
  sequence : Z
}.

(** [FrameHeader::new]: flags are always zero. *)
Definition frame_header_new (frame_length protocol_major protocol_minor : Z)
    (message_kind : MessageKind) (request_id sequence : Z) : FrameHeader :=
  mkFrameHeader frame_length protocol_major protocol_minor message_kind 0 request_id sequence.

(** [FrameHeader::encode]: the fields in order, little endian, two reserved
    zero bytes after the flags. *)
Definition frame_header_encode (h : FrameHeader) : bytes :=
  le_bytes 4 (frame_length h) ++ le_bytes 2 (protocol_major h) ++
  le_bytes 2 (protocol_minor h) ++ [byte_of (message_kind_tag (message_kind h))] ++
  [byte_of (flags h)] ++ le_bytes 2 0 ++
  le_bytes 8 (request_id h) ++ le_bytes 8 (sequence h).

(** [bytes[i]] and [uN::from_le_bytes] over a range of [bytes]; [decode] reads
    them only after the length check. *)
Definition byte_at (bs : bytes) (i : nat) : Z := byte_val (default (byte_of 0) (bs !! i)).
Definition le_at (bs : bytes) (start count : nat) : Z := le_val (take count (drop start bs)).

Definition frame_header_decode (bs : bytes) : result FrameHeader FrameHeaderError :=
  do? reject (negb (len bs =? FRAME_HEADER_LEN)) (InvalidLength (len bs)) in
  do? reject (negb (byte_at bs 10 =? 0) || negb (byte_at bs 11 =? 0)) ReservedBitsSet in
  do? reject (negb (byte_at bs 9 =? 0)) (UnknownFlags (byte_at bs 9)) in
  let? kind := message_kind_try_from (byte_at bs 8) in
  Ok {| frame_length := le_at bs 0 4;
        protocol_major := le_at bs 4 2;
        protocol_minor := le_at bs 6 2;
        message_kind := kind;
        flags := byte_at bs 9;
        request_id := le_at bs 12 8;
        sequence := le_at bs 20 8 |}.

(** The widths of the header's fields, with the private [flags] field at the
    only value its constructor gives it. *)
Definition frame_header_wf (h : FrameHeader) : Prop :=
  0 <= frame_length h <= u32_max ∧ 0 <= protocol_major h <= u16_max ∧
  0 <= protocol_minor h <= u16_max ∧ flags h = 0 ∧
  0 <= request_id h <= u64_max ∧ 0 <= sequence h <= u64_max.

(** ** Protocol limits *)

Record ProtocolLimits : Type := mkProtocolLimits {
  max_frame_bytes : Z;
  max_graph_nodes : Z;
  max_object_depth : Z;
  max_string_bytes : Z;
  max_inline_buffer_bytes : Z;
  max_pending_requests : Z;
  max_remote_handles : Z;
  max_open_streams : Z;
  max_listener_count : Z
}.

#[global] Instance ProtocolLimits_eq_dec : EqDecision ProtocolLimits.
Proof. solve_decision. Defined.

Definition secure_default : ProtocolLimits := {|
  max_frame_bytes := 4 * 1024 * 1024;
  max_graph_nodes := 50000;
  max_object_depth := 64;
  max_string_bytes := 2 * 1024 * 1024;
  max_inline_buffer_bytes := 256 * 1024;
  max_pending_requests := 1024;
  max_remote_handles := 10000;
  max_open_streams := 256;
  max_listener_count := 2048
|}.

Inductive ProtocolLimitError : Type :=
| Limit_Zero (field : string).

Definition validate_nonzero (field : string) (value : Z) : result unit ProtocolLimitError :=
  if value =? 0 then Err (Limit_Zero field) else Ok tt.

(** [ProtocolLimits::validate]. *)
Definition limits_validate (self : ProtocolLimits) : result unit ProtocolLimitError :=
  do? validate_nonzero "max_frame_bytes" (max_frame_bytes self) in
  do? validate_nonzero "max_graph_nodes" (max_graph_nodes self) in
  do? validate_nonzero "max_object_depth" (max_object_depth self) in
  do? validate_nonzero "max_string_bytes" (max_string_bytes self) in
  do? validate_nonzero "max_inline_buffer_bytes" (max_inline_buffer_bytes self) in
  do? validate_nonzero "max_pending_requests" (max_pending_requests self) in
  do? validate_nonzero "max_remote_handles" (max_remote_handles self) in
  do? validate_nonzero "max_open_streams" (max_open_streams self) in
  validate_nonzero "max_listener_count" (max_listener_count self).

(** [ProtocolLimits::negotiate]. *)
Definition limits_negotiate (self hard_cap : ProtocolLimits) :
    result ProtocolLimits ProtocolLimitError :=
  do? limits_validate self in
  do? limits_validate hard_cap in
  Ok {|
    max_frame_bytes := Z.min (max_frame_bytes self) (max_frame_bytes hard_cap);
    max_graph_nodes := Z.min (max_graph_nodes self) (max_graph_nodes hard_cap);
    max_object_depth := Z.min (max_object_depth self) (max_object_depth hard_cap);
    max_string_bytes := Z.min (max_string_bytes self) (max_string_bytes hard_cap);
    max_inline_buffer_bytes :=
      Z.min (max_inline_buffer_bytes self) (max_inline_buffer_bytes hard_cap);
    max_pending_requests :=
      Z.min (max_pending_requests self) (max_pending_requests hard_cap);
    max_remote_handles := Z.min (max_remote_handles self) (max_remote_handles hard_cap);
    max_open_streams := Z.min (max_open_streams self) (max_open_streams hard_cap);
    max_listener_count := Z.min (max_listener_count self) (max_listener_count hard_cap)
  |}.

(** The widths of the fields of [ProtocolLimits]. *)
Definition limits_wf (l : ProtocolLimits) : Prop :=
  0 <= max_frame_bytes l <= u32_max ∧ 0 <= max_graph_nodes l <= u32_max ∧
  0 <= max_object_depth l <= u16_max ∧ 0 <= max_string_bytes l <= u32_max ∧
  0 <= max_inline_buffer_bytes l <= u32_max ∧
  0 <= max_pending_requests l <= u32_max ∧
  0 <= max_remote_handles l <= u32_max ∧ 0 <= max_open_streams l <= u16_max ∧
  0 <= max_listener_count l <= u32_max.

(** Pointwise comparison: [limits_le a b] says that [a] grants no more than [b]. *)
Definition limits_le (a b : ProtocolLimits) : Prop :=
  max_frame_bytes a <= max_frame_bytes b ∧ max_graph_nodes a <= max_graph_nodes b ∧
  max_object_depth a <= max_object_depth b ∧ max_string_bytes a <= max_string_bytes b ∧
  max_inline_buffer_bytes a <= max_inline_buffer_bytes b ∧
  max_pending_requests a <= max_pending_requests b ∧
  max_remote_handles a <= max_remote_handles b ∧
  max_open_streams a <= max_open_streams b ∧
  max_listener_count a <= max_listener_count b.

(** ** Call contexts *)

Record CallAuthority : Type := mkCallAuthority {
  capability : option CapabilityGrantId;
  user_activation : option UserActivationId
}.

(** [CallAuthority::default()]. *)
Definition call_authority_default : CallAuthority := mkCallAuthority None None.

Record OriginIdentity : Type := mkOriginIdentity {
  serialized : str;
  opaque : bool
}.

Record FrameIdentity : Type := mkFrameIdentity {
  frame_renderer : RendererId;
  frame_id : Z;
  frame_generation : Z;
  parent_frame_id : option Z;
  frame_origin : OriginIdentity;
  is_main_frame : bool
}.

Inductive ScriptWorldKind : Type :=
| World_Main
| World_PreloadIsolated
| World_AdapterIsolated
| World_BackendSpecific (kind : str).

Record WorldIdentity : Type := mkWorldIdentity {
  world_frame : FrameIdentity;
  world_id : Z;
  world_generation : Z;
  world_kind : ScriptWorldKind
}.

Record CallContext : Type := mkCallContext {
  ctx_app : AppInstanceId;
  ctx_renderer : option RendererId;
  ctx_frame : option FrameIdentity;
  ctx_world : option WorldIdentity;
  ctx_authority : CallAuthority;
  ctx_deadline_ms : option Z;
  ctx_trace_parent : option TraceId
}.

#[global] Instance OriginIdentity_eq_dec : EqDecision OriginIdentity.
Proof. solve_decision. Defined.
#[global] Instance RendererId_eq_dec : EqDecision RendererId.
Proof. unfold RendererId. solve_decision. Defined.
#[global] Instance FrameIdentity_eq_dec : EqDecision FrameIdentity.
Proof. solve_decision. Defined.
#[global] Instance AppInstanceId_eq_dec : EqDecision AppInstanceId.
Proof. unfold AppInstanceId. solve_decision. Defined.
#[global] Instance RuntimeId_eq_dec : EqDecision RuntimeId.
Proof. unfold RuntimeId. solve_decision. Defined.

(** ** Handles and buffers *)

Inductive ObjectKind : Type :=
| Object_App | Object_BrowserWindow | Object_WebContents | Object_Session
| Object_WebRequest | Object_Menu | Object_MenuItem | Object_Tray
| Object_NativeImage | Object_Notification | Object_DownloadItem
| Object_MessagePort | Object_UtilityProcess
| Object_AdapterDefined (tag : Z).

Record ObjectHandle : Type := mkObjectHandle {
  object_app : AppInstanceId;
  object_id : Z;
  object_generation : Z;
  object_kind : ObjectKind
}.

Record OpaqueHandle : Type := mkOpaqueHandle {
  handle_app : AppInstanceId;
  handle_id : Z;
  handle_generation : Z
}.

Record ContentBlobId : Type := mkContentBlobId {
  blob_sha256 : Sha256Digest;
  blob_byte_len : Z
}.

Inductive BufferStorage : Type :=
| Storage_Inline (value : bytes)
| Storage_Shared (handle : OpaqueHandle)
| Storage_Stream (handle : OpaqueHandle)
| Storage_Blob (id : ContentBlobId).

Inductive TypedArrayKind : Type :=
| Int8 | Uint8 | Uint8Clamped | Int16 | Uint16 | Int32 | Uint32
| Float32 | Float64 | BigInt64 | BigUint64.

(** ** Wire values *)

(** The semantic value graph.  [WireError::data] is a [BTreeMap], listed here
    in its iteration order. *)
Inductive WireValue : Type :=
| Wire_Undefined
| Wire_Null
| Wire_Bool (value : bool)
| Wire_Integer (value : Z)
| Wire_Float (value : Z)
| Wire_NegativeZero
| Wire_NaN
| Wire_PositiveInfinity
| Wire_NegativeInfinity
| Wire_BigInt (negative : bool) (magnitude_be : bytes)
| Wire_String (value : str)
| Wire_Bytes (value : bytes)
| Wire_Array (values : list WireValue)
| Wire_Object (entries : list WireObjectEntry)
| Wire_Reference (id : Z)
| Wire_DateMillis (value : Z)
| Wire_RegExp (source flags : str)
| Wire_Error (value : WireError)
| Wire_Handle (value : ObjectHandle)
| Wire_Function (value : OpaqueHandle)
| Wire_Promise (value : OpaqueHandle)
| Wire_MessagePort (value : OpaqueHandle)
| Wire_TypedArray (array_kind : TypedArrayKind) (byte_offset element_count : Z)
    (storage : BufferStorage)
with WireObjectEntry : Type :=
| mkWireObjectEntry (key : str) (value : WireValue)
with WireError : Type :=
| mkWireError (name message : str) (stack code kind : option str)
    (cause : option WireValue) (data : list (str * WireValue)).

Definition entry_key (e : WireObjectEntry) : str :=
  match e with mkWireObjectEntry k _ => k end.
Definition entry_value (e : WireObjectEntry) : WireValue :=
  match e with mkWireObjectEntry _ v => v end.
Definition error_cause (e : WireError) : option WireValue :=
  match e with mkWireError _ _ _ _ _ c _ => c end.
Definition error_data (e : WireError) : list (str * WireValue) :=
  match e with mkWireError _ _ _ _ _ _ d => d end.

(** ** Laws of the frame header *)

Lemma message_kind_tag_range k : 1 <= message_kind_tag k <= 30.
Proof. destruct k; simpl; lia. Qed.

Lemma message_kind_try_from_tag k : message_kind_try_from (message_kind_tag k) = Ok k.
Proof. by destruct k. Qed.

Lemma message_kind_tag_try_from v k :
  message_kind_try_from v = Ok k → message_kind_tag k = v.
Proof.
  unfold message_kind_try_from. intros H.
  repeat (run_case; try discriminate); injection H as <-; done.
Qed.

Lemma frame_header_encode_length h : len (frame_header_encode h) = FRAME_HEADER_LEN.
Proof. unfold frame_header_encode, len. by rewrite !length_app, !le_bytes_length. Qed.

(** [to_le_bytes] of what [from_le_bytes] read from a slice gives the slice. *)
Lemma le_bytes_at bs start n :
  (start + n <= length bs)%nat → le_bytes n (le_at bs start n) = take n (drop start bs).
Proof.
  intros Hn. unfold le_at. rewrite <-(le_bytes_val (take n (drop start bs))) at 2.
  by rewrite length_take, length_drop, Nat.min_l by lia.
Qed.

Lemma le_at_range bs start n :
  (start + n <= length bs)%nat → 0 <= le_at bs start n < 256 ^ Z.of_nat n.
Proof.
  intros Hn. unfold le_at. pose proof (le_val_range (take n (drop start bs))) as H.
  unfold len in H. by rewrite length_take, length_drop, Nat.min_l in H by lia.
Qed.

Lemma byte_of_at bs i : (i < length bs)%nat → [byte_of (byte_at bs i)] = take 1 (drop i bs).
Proof.
  intros [b Hb]%lookup_lt_is_Some. unfold byte_at. rewrite Hb. simpl.
  rewrite byte_of_val. erewrite drop_S by done. done.
Qed.

Lemma frame_header_decode_encode h :
  frame_header_wf h → frame_header_decode (frame_header_encode h) = Ok h.
Proof.
  intros (Hl & Hmaj & Hmin & Hf & Hr & Hs).
  unfold frame_header_decode. rewrite frame_header_encode_length.
  change (reject _ (InvalidLength _)) with (Ok (E := FrameHeaderError) tt).
  cbn [result_bind].
  unfold frame_header_encode. rewrite Hf.
  assert (∀ i z pre post, (length pre = i)%nat → 0 <= z <= 255 →
            byte_at (pre ++ [byte_of z] ++ post) i = z) as Hb.
  { intros i z pre post <- Hz. unfold byte_at. cbn [app]. rewrite list_lookup_middle by done.
    simpl. rewrite byte_val_of. apply Z.mod_small. lia. }
  unfold u64_max, u32_max, u16_max in *.
  pose proof (message_kind_tag_range (message_kind h)).
  set (L := le_bytes 4 _ ++ _).
  assert (byte_at L 8 = message_kind_tag (message_kind h)) as ->.
  { apply (Hb 8%nat _ (le_bytes 4 _ ++ le_bytes 2 _ ++ le_bytes 2 _)); [done|lia]. }
  assert (byte_at L 9 = 0) as -> by done.
  assert (byte_at L 10 = 0) as -> by done.
  assert (byte_at L 11 = 0) as -> by done. simpl.
  rewrite message_kind_try_from_tag. simpl. f_equal.
  destruct h as [fl maj min k f r s]; simpl in *. subst f. f_equal.
  - apply (le_val_bytes 4 fl). simpl. lia.
  - apply (le_val_bytes 2 maj). simpl. lia.
  - apply (le_val_bytes 2 min). simpl. lia.
  - apply (le_val_bytes 8 r). simpl. lia.
  - apply (le_val_bytes 8 s). simpl. lia.
Qed.

Lemma frame_header_encode_decode bs h :
  frame_header_decode bs = Ok h → frame_header_wf h ∧ bs = frame_header_encode h.
Proof.
  unfold frame_header_decode, FRAME_HEADER_LEN. intros H. inv_ok.
  assert (length bs = 28%nat) as Hlen by (unfold len in *; lia).
  apply message_kind_tag_try_from in H3. split.
  - unfold frame_header_wf, u64_max, u32_max, u16_max; simpl.
    pose proof (le_at_range bs 0 4 ltac:(lia)). pose proof (le_at_range bs 4 2 ltac:(lia)).
    pose proof (le_at_range bs 6 2 ltac:(lia)). pose proof (le_at_range bs 12 8 ltac:(lia)).
    pose proof (le_at_range bs 20 8 ltac:(lia)). simpl in *. lia.
  - unfold frame_header_encode.
    cbn [frame_length protocol_major protocol_minor message_kind flags request_id sequence].
    rewrite H3, !le_bytes_at, !byte_of_at by lia.
    do 28 (destruct bs as [|? bs]; [done|]). destruct bs; [|done].
    unfold byte_at in *; simpl in *.
    repeat match goal with
    | |- context [ byte_of ?z ] => replace z with 0 by lia
    end.
    repeat f_equal; apply byte_val_inj; rewrite byte_val_of, ?Z.div_0_l, Z.mod_0_l by lia; lia.
Qed.

(** C1: the 28-byte frame header codec is canonical.  A byte string decodes to
    a header exactly when it is the encoding of that header and the header's
    fields fit their widths: encoding then decoding gives the header back, no
    two byte strings decode to the same header, and every malformed length,
    reserved byte, flag or tag is refused. *)
Theorem frame_header_codec_canonical bs h :
  frame_header_decode bs = Ok h ↔ frame_header_wf h ∧ bs = frame_header_encode h.
Proof.
  split; [apply frame_header_encode_decode|].
  intros [Hwf ->]. by apply frame_header_decode_encode.
Qed.

(** ** Laws of the limits *)

Lemma validate_nonzero_Ok f v u : validate_nonzero f v = Ok u ↔ v ≠ 0.
Proof. unfold validate_nonzero. destruct u, (Z.eqb_spec v 0); naive_solver. Qed.

(** Validation accepts exactly the limits with no zero dimension. *)
Lemma limits_validate_Ok l :
  limits_validate l = Ok tt ↔
  max_frame_bytes l ≠ 0 ∧ max_graph_nodes l ≠ 0 ∧ max_object_depth l ≠ 0 ∧
  max_string_bytes l ≠ 0 ∧ max_inline_buffer_bytes l ≠ 0 ∧
  max_pending_requests l ≠ 0 ∧ max_remote_handles l ≠ 0 ∧
  max_open_streams l ≠ 0 ∧ max_listener_count l ≠ 0.
Proof.
  unfold limits_validate. rewrite !result_bind_Ok.
  repeat setoid_rewrite result_bind_Ok. setoid_rewrite validate_nonzero_Ok.
  split; [naive_solver|]. intros; destruct_and!. repeat (exists tt; split; [done|]). done.
Qed.

(** Negotiation succeeds exactly on two valid limits and gives their greatest
    lower bound. *)
Lemma limits_negotiate_Ok a b c :
  limits_negotiate a b = Ok c →
  limits_validate a = Ok tt ∧ limits_validate b = Ok tt ∧
  limits_le c a ∧ limits_le c b ∧ (∀ d, limits_le d a → limits_le d b → limits_le d c).
Proof.
  unfold limits_negotiate. intros H. inv_ok. split_and!; [done..| | |];
    unfold limits_le; simpl; lia.
Qed.

Lemma limits_negotiate_valid a b c :
  limits_wf a → limits_wf b → limits_negotiate a b = Ok c →
  limits_wf c ∧ limits_validate c = Ok tt.
Proof.
  unfold limits_negotiate. intros Ha Hb H. inv_ok.
  rewrite limits_validate_Ok in *. unfold limits_wf in *; simpl. destruct_and!.
  assert (∀ x y m, x <= m → Z.min x y <= m) by lia.
  assert (∀ x y, x ≠ 0 → y ≠ 0 → Z.min x y ≠ 0) by lia.
  split_and!; auto 2 using Z.min_glb.
Qed.

Lemma limits_negotiate_total a b :
  limits_validate a = Ok tt → limits_validate b = Ok tt →
  ∃ c, limits_negotiate a b = Ok c.
Proof. unfold limits_negotiate. intros -> ->. simpl. eauto. Qed.

Lemma limits_le_refl a : limits_le a a.
Proof. unfold limits_le. lia. Qed.

Lemma limits_le_antisymm a b : limits_le a b → limits_le b a → a = b.
Proof. destruct a, b; unfold limits_le; simpl; intros. f_equal; lia. Qed.

(** Negotiating with a more generous peer changes nothing. *)
Lemma limits_negotiate_le a b :
  limits_le a b → limits_validate a = Ok tt → limits_validate b = Ok tt →
  limits_negotiate a b = Ok a.
Proof.
  intros Hle Ha Hb. destruct (limits_negotiate_total a b Ha Hb) as [c Hc].
  rewrite Hc. f_equal. apply limits_negotiate_Ok in Hc as (_ & _ & Hca & _ & Hglb).
  apply limits_le_antisymm; [done|]. by apply Hglb; [apply limits_le_refl|].
Qed.

#[export] Hint Resolve limits_le_refl : weregopher.
