(* ===== verification/Graph.v ===== *)
(** * Graph: budgets of semantic wire-value graphs

    Models the graph half of [crates/weregopher-domain/src/runtime_protocol.rs]:
    [RuntimeProtocolContractError], the text and byte checks, and the iterative
    validation of wire-value graphs ([validate_wire_value_graph_with_app],
    [validate_wire_value], [validate_wire_error], ...).

    The loop over the explicit stack is a fixpoint on fuel; the number of nodes
    of the forest plus one is always enough ([graph_loop_terminates]).  The
    specification is recursive: a value has children, nodes, a depth and a
    number of remote handles, and every node satisfies a local predicate.  The
    main theorem says that the loop accepts exactly the graphs that satisfy the
    recursive specification, and reports their exact usage. *)

From S2P Require Import Prelude Wire.

(** ** Errors *)

Inductive RuntimeProtocolContractError : Type :=
| ZeroProtocolMajor
| VersionRangeMajorMismatch
| InvertedVersionRange
| EmptyText (field : string)
| TextExceeded (field : string) (maximum actual : Z)
| ZeroNonceProof
| Limits (e : ProtocolLimitError)
| ZeroHeartbeatDuration
| InvertedHeartbeatPolicy
| HeartbeatTimeoutExceeded
| ZeroRequestId
| ZeroCallDeadline
| CallDeadlineExceeded
| FrameWithoutRenderer
| FrameRendererMismatch
| WorldWithoutFrame
| WorldFrameMismatch
| GraphNodesExceeded (maximum actual : Z)
| GraphNodeCountOverflow
| GraphDepthExceeded (maximum actual : Z)
| GraphDepthOverflow
| BudgetAllocationFailed
| InlineBytesExceeded (maximum actual : Z)
| DuplicateObjectKey (key : str)
| NonCanonicalFloat
| NonCanonicalBigInt
| InvalidRegularExpressionFlags
| CrossApplicationHandle
| RemoteHandleCountOverflow
| RemoteHandlesExceeded (maximum actual : Z)
| TypedArrayRangeOverflow
| TypedArrayRangeExceeded
| ZeroStreamCredit
| ZeroStreamSequence
| EmptyStreamData.

(** ** Text and byte checks *)

Definition validate_bounded_text (field : string) (value : str) (maximum : Z) :
    result unit RuntimeProtocolContractError :=
  reject (maximum <? len value) (TextExceeded field maximum (len value)).

Definition validate_text (field : string) (value : str) (maximum : Z) :
    result unit RuntimeProtocolContractError :=
  do? reject (len value =? 0) (EmptyText field) in
  validate_bounded_text field value maximum.

Definition validate_inline_bytes (bs : bytes) (maximum : Z) :
    result unit RuntimeProtocolContractError :=
  reject (maximum <? len bs) (InlineBytesExceeded maximum (len bs)).

(** ** Floating-point classification

    [f64::is_finite] and [f64::fract() != 0.0] read off the bit pattern: the
    value is [m * 2 ^ (e - 1075)] with [m] the 53-bit significand and [e] the
    biased exponent (at least 1). *)

Definition f64_exponent (bits : Z) : Z := (bits / 2 ^ 52) mod 2048.
Definition f64_fraction (bits : Z) : Z := bits mod 2 ^ 52.
Definition f64_is_finite (bits : Z) : bool := negb (f64_exponent bits =? 2047).
Definition f64_significand (bits : Z) : Z :=
  if f64_exponent bits =? 0 then f64_fraction bits else 2 ^ 52 + f64_fraction bits.
Definition f64_fract_nonzero (bits : Z) : bool :=
  let shift := 1075 - Z.max 1 (f64_exponent bits) in
  (0 <? shift) && negb (f64_significand bits mod 2 ^ shift =? 0).

(** ** The pending stack

    The stack [Vec<(&WireValue, u16)>] is a list with the top at the head. *)

Abbreviation pending_stack := (list (WireValue * Z)).

(** [for child in children.iter().rev() { pending.push((child, depth)); }]. *)
Definition push_children (pending : pending_stack) (children : list WireValue) (depth : Z) :
    pending_stack :=
  foldl (λ p child, (child, depth) :: p) pending (rev children).

Section Validation.
Context `{Alloc : Allocator}.

Definition reserve_pending (pending : pending_stack) (additional remaining_nodes maximum_nodes : Z) :
    result unit RuntimeProtocolContractError :=
  let? required := ok_or (checked_add usize_max (len pending) additional) GraphNodeCountOverflow in
  if remaining_nodes <? required then
    let? actual := ok_or (checked_add u32_max maximum_nodes 1) GraphNodeCountOverflow in
    Err (GraphNodesExceeded maximum_nodes actual)
  else reject (negb (try_reserve additional)) BudgetAllocationFailed.

Definition child_depth (depth : Z) (limits : ProtocolLimits) (has_no_children : bool) :
    result Z RuntimeProtocolContractError :=
  if has_no_children then Ok depth
  else
    let? child_depth := ok_or (checked_add u16_max depth 1) GraphDepthOverflow in
    do? reject (max_object_depth limits <? child_depth)
      (GraphDepthExceeded (max_object_depth limits) child_depth) in
    Ok child_depth.

(** The new value of [*remote_handles] is returned. *)
Definition validate_remote_handle (actual_app : AppInstanceId)
    (expected_app : option AppInstanceId) (remote_handles : Z) (limits : ProtocolLimits) :
    result Z RuntimeProtocolContractError :=
  do? reject (match expected_app with
              | Some expected => negb (bool_decide (actual_app = expected))
              | None => false
              end) CrossApplicationHandle in
  let? next := ok_or (checked_add u32_max remote_handles 1) RemoteHandleCountOverflow in
  do? reject (max_remote_handles limits <? next)
    (RemoteHandlesExceeded (max_remote_handles limits) next) in
  Ok next.

(** The loop over entries with the [BTreeSet] of keys seen so far. *)
Fixpoint validate_object_entries_from (keys : gset str) (entries : list WireObjectEntry)
    (maximum_string : Z) : result unit RuntimeProtocolContractError :=
  match entries with
  | [] => Ok tt
  | entry :: entries =>
    do? validate_bounded_text "wire object key" (entry_key entry) maximum_string in
    do? reject (bool_decide (entry_key entry ∈ keys)) (DuplicateObjectKey (entry_key entry)) in
    validate_object_entries_from ({[entry_key entry]} ∪ keys) entries maximum_string
  end.

Definition validate_object_entries (entries : list WireObjectEntry) (maximum_string : Z) :
    result unit RuntimeProtocolContractError :=
  validate_object_entries_from ∅ entries maximum_string.

(** [b"dgimsuvy".iter().position(...)]. *)
Definition regexp_flag_position (flag : byte) : option nat :=
  fst <$> list_find (λ candidate, candidate = flag) (lit "dgimsuvy").

(** The loop over the flags, threading [previous_position], [unicode] and
    [unicode_sets]. *)
Fixpoint validate_regexp_flags (previous_position : option nat) (unicode unicode_sets : bool)
    (flags : str) : result unit RuntimeProtocolContractError :=
  match flags with
  | [] => reject (unicode && unicode_sets) InvalidRegularExpressionFlags
  | flag :: flags =>
    let? position := ok_or (regexp_flag_position flag) InvalidRegularExpressionFlags in
    do? reject (match previous_position with
                | Some previous => (position <=? previous)%nat
                | None => false
                end) InvalidRegularExpressionFlags in
    validate_regexp_flags (Some position)
      (unicode || bool_decide (flag = chr "u"))
      (unicode_sets || bool_decide (flag = chr "v")) flags
  end.

(** [if let Some(value) = value { validate_bounded_text(field, value, max)?; }]. *)
Definition validate_optional_text (field : string) (value : option str) (maximum : Z) :
    result unit RuntimeProtocolContractError :=
  match value with
  | Some value => validate_bounded_text field value maximum
  | None => Ok tt
  end.

(** The loop over [error.data.iter().rev()]: check the key, push the value. *)
Fixpoint push_error_data (pending : pending_stack) (data_rev : list (str * WireValue))
    (depth maximum_string : Z) : result pending_stack RuntimeProtocolContractError :=
  match data_rev with
  | [] => Ok pending
  | (key, value) :: data_rev =>
    do? validate_bounded_text "wire error data key" key maximum_string in
    push_error_data ((value, depth) :: pending) data_rev depth maximum_string
  end.

Definition validate_wire_error (error : WireError) (maximum_string : Z)
    (pending : pending_stack) (depth : Z) (limits : ProtocolLimits) (remaining_nodes : Z) :
    result pending_stack RuntimeProtocolContractError :=
  match error with
  | mkWireError name message stack code kind cause data =>
    do? validate_bounded_text "wire error name" name maximum_string in
    do? validate_bounded_text "wire error message" message maximum_string in
    do? validate_optional_text "wire error stack" stack maximum_string in
    do? validate_optional_text "wire error code" code maximum_string in
    do? validate_optional_text "wire error kind" kind maximum_string in
    let? children := ok_or (checked_add usize_max (len data)
      (match cause with Some _ => 1 | None => 0 end)) GraphNodeCountOverflow in
    do? reserve_pending pending children remaining_nodes (max_graph_nodes limits) in
    let? child_depth := child_depth depth limits (children =? 0) in
    let? pending := push_error_data pending (rev data) child_depth maximum_string in
    Ok (match cause with
        | Some cause => (cause, child_depth) :: pending
        | None => pending
        end)
  end.

Definition typed_array_element_bytes (kind : TypedArrayKind) : Z :=
  match kind with
  | Int8 | Uint8 | Uint8Clamped => 1
  | Int16 | Uint16 => 2
  | Int32 | Uint32 | Float32 => 4
  | Float64 | BigInt64 | BigUint64 => 8
  end.

(** [validate_wire_value]: the new stack and handle count are returned. *)
Definition validate_wire_value (value : WireValue) (depth : Z) (limits : ProtocolLimits)
    (pending : pending_stack) (remote_handles remaining_nodes : Z)
    (expected_app : option AppInstanceId) :
    result (pending_stack * Z) RuntimeProtocolContractError :=
  let maximum_string := max_string_bytes limits in
  let maximum_inline := max_inline_buffer_bytes limits in
  let unchanged := Ok (pending, remote_handles) in
  let remote_handle actual_app :=
    let? handles := validate_remote_handle actual_app expected_app remote_handles limits in
    Ok (pending, handles) in
  match value with
  | Wire_Undefined | Wire_Null | Wire_Bool _ | Wire_Integer _ | Wire_NegativeZero
  | Wire_NaN | Wire_PositiveInfinity | Wire_NegativeInfinity | Wire_Reference _
  | Wire_DateMillis _ => unchanged
  | Wire_Float value =>
    if f64_is_finite value && f64_fract_nonzero value then unchanged
    else Err NonCanonicalFloat
  | Wire_BigInt negative magnitude_be =>
    do? reject ((len magnitude_be =? 0) ||
                (match magnitude_be with b :: _ => byte_val b =? 0 | [] => false end) ||
                (negative && forallb (λ b, byte_val b =? 0) magnitude_be))
      NonCanonicalBigInt in
    do? validate_inline_bytes magnitude_be maximum_inline in
    unchanged
  | Wire_String value =>
    do? validate_bounded_text "wire string" value maximum_string in unchanged
  | Wire_Bytes value => do? validate_inline_bytes value maximum_inline in unchanged
  | Wire_Array values =>
    do? reserve_pending pending (len values) remaining_nodes (max_graph_nodes limits) in
    let? child_depth := child_depth depth limits (len values =? 0) in
    Ok (push_children pending values child_depth, remote_handles)
  | Wire_Object entries =>
    do? validate_object_entries entries maximum_string in
    do? reserve_pending pending (len entries) remaining_nodes (max_graph_nodes limits) in
    let? child_depth := child_depth depth limits (len entries =? 0) in
    Ok (push_children pending (map entry_value entries) child_depth, remote_handles)
  | Wire_RegExp source flags =>
    do? validate_bounded_text "regular expression source" source maximum_string in
    do? reject (maximum_string <? len flags)
      (TextExceeded "regular expression flags" maximum_string (len flags)) in
    do? validate_regexp_flags None false false flags in
    unchanged
  | Wire_Error value =>
    let? pending := validate_wire_error value maximum_string pending depth limits remaining_nodes in
    Ok (pending, remote_handles)
  | Wire_Handle value => remote_handle (object_app value)
  | Wire_Function value | Wire_Promise value | Wire_MessagePort value =>
    remote_handle (handle_app value)
  | Wire_TypedArray array_kind byte_offset element_count storage =>
    let element_bytes := typed_array_element_bytes array_kind in
    let? byte_len := ok_or (checked_mul u64_max element_count element_bytes ≫=
                            λ length, checked_add u64_max byte_offset length)
      TypedArrayRangeOverflow in
    match storage with
    | Storage_Inline value =>
      do? validate_inline_bytes value maximum_inline in
      do? reject (len value <? byte_len) TypedArrayRangeExceeded in
      unchanged
    | Storage_Shared handle | Storage_Stream handle => remote_handle (handle_app handle)
    | Storage_Blob _ => unchanged
    end
  end.

(** ** The traversal *)

Record WireValueBudget : Type := mkWireValueBudget {
  budget_nodes : Z;
  budget_maximum_depth : Z;
  budget_remote_handles : Z
}.

(** [while let Some((value, depth)) = pending.pop() { ... }]; [None] is "out of
    fuel". *)
Fixpoint graph_loop (fuel : nat) (limits : ProtocolLimits)
    (expected_app : option AppInstanceId) (pending : pending_stack)
    (nodes maximum_depth remote_handles : Z) :
    option (result WireValueBudget RuntimeProtocolContractError) :=
  match fuel with
  | O => None
  | S fuel =>
    match pending with
    | [] => Some (Ok (mkWireValueBudget nodes maximum_depth remote_handles))
    | (value, depth) :: pending =>
      match
        (let? nodes := ok_or (checked_add u32_max nodes 1) GraphNodeCountOverflow in
         do? reject (max_graph_nodes limits <? nodes)
           (GraphNodesExceeded (max_graph_nodes limits) nodes) in
         do? reject (max_object_depth limits <? depth)
           (GraphDepthExceeded (max_object_depth limits) depth) in
         let? (pending, remote_handles) :=
           validate_wire_value value depth limits pending remote_handles
             (max_graph_nodes limits - nodes) expected_app in
         Ok (pending, nodes, Z.max maximum_depth depth, remote_handles))
      with
      | Ok (pending, nodes, maximum_depth, remote_handles) =>
        graph_loop fuel limits expected_app pending nodes maximum_depth remote_handles
      | Err e => Some (Err e)
      end
    end
  end.
End Validation.

(** ** Recursive view of a value *)

(** The children of a node, in the order in which the stack visits them. *)
Definition value_children (v : WireValue) : list WireValue :=
  match v with
  | Wire_Array values => values
  | Wire_Object entries => map entry_value entries
  | Wire_Error e => option_list (error_cause e) ++ map snd (error_data e)
  | _ => []
  end.

(** Number of nodes of the tree rooted at a value. *)
Fixpoint value_nodes (v : WireValue) : nat :=
  match v with
  | Wire_Array values => S (sum_list_with value_nodes values)
  | Wire_Object entries =>
    S (sum_list_with (λ e, match e with mkWireObjectEntry _ v => value_nodes v end) entries)
  | Wire_Error (mkWireError _ _ _ _ _ cause data) =>
    S (match cause with Some c => value_nodes c | None => 0 end +
       sum_list_with (λ p, match p with (_, v) => value_nodes v end) data)%nat
  | _ => 1%nat
  end.

Definition forest_nodes (vs : list WireValue) : nat := sum_list_with value_nodes vs.

(** The public entry points: the limits are validated, the roots are counted
    and pushed in reverse, then the loop runs.  The fuel is one more than the
    number of nodes, so the last branch is never taken. *)
Section Entry.
Context `{Alloc : Allocator}.

Definition validate_wire_value_graph_with_app (roots : list WireValue) (limits : ProtocolLimits)
    (expected_app : option AppInstanceId) :
    result WireValueBudget RuntimeProtocolContractError :=
  do? map_err Limits (limits_validate limits) in
  do? reject (u32_max <? len roots) GraphNodeCountOverflow in
  do? reject (max_graph_nodes limits <? len roots)
    (GraphNodesExceeded (max_graph_nodes limits) (len roots)) in
  do? reject (negb (try_reserve (len roots))) BudgetAllocationFailed in
  match graph_loop (S (forest_nodes roots)) limits expected_app
          (push_children [] roots 1) 0 0 0 with
  | Some r => r
  | None => Err GraphNodeCountOverflow
  end.

Definition validate_wire_value_graph (roots : list WireValue) (limits : ProtocolLimits) :
    result WireValueBudget RuntimeProtocolContractError :=
  validate_wire_value_graph_with_app roots limits None.

Definition validate_wire_value_graph_for_app (roots : list WireValue) (limits : ProtocolLimits)
    (app : AppInstanceId) : result WireValueBudget RuntimeProtocolContractError :=
  validate_wire_value_graph_with_app roots limits (Some app).
End Entry.

(** ** Specification *)

(** Depth of the tree rooted at a value: one for a leaf. *)
Fixpoint value_depth (v : WireValue) : nat :=
  match v with
  | Wire_Array values => S (max_list_with value_depth values)
  | Wire_Object entries =>
    S (max_list_with (λ e, match e with mkWireObjectEntry _ v => value_depth v end) entries)
  | Wire_Error (mkWireError _ _ _ _ _ cause data) =>
    S (match cause with Some c => value_depth c | None => 0 end `max`
       max_list_with (λ p, match p with (_, v) => value_depth v end) data)%nat
  | _ => 1%nat
  end.

(** The remote handle carried by a node itself, as its owning application. *)
Definition node_handle (v : WireValue) : option AppInstanceId :=
  match v with
  | Wire_Handle h => Some (object_app h)
  | Wire_Function h | Wire_Promise h | Wire_MessagePort h => Some (handle_app h)
  | Wire_TypedArray _ _ _ (Storage_Shared h) | Wire_TypedArray _ _ _ (Storage_Stream h) =>
    Some (handle_app h)
  | _ => None
  end.
Definition node_handles (v : WireValue) : nat :=
  match node_handle v with Some _ => 1 | None => 0 end.

Fixpoint value_handles (v : WireValue) : nat :=
  match v with
  | Wire_Array values => sum_list_with value_handles values
  | Wire_Object entries =>
    sum_list_with (λ e, match e with mkWireObjectEntry _ v => value_handles v end) entries
  | Wire_Error (mkWireError _ _ _ _ _ cause data) =>
    (match cause with Some c => value_handles c | None => 0 end +
     sum_list_with (λ p, match p with (_, v) => value_handles v end) data)%nat
  | _ => node_handles v
  end.

(** Canonical regular-expression flags: the flags are known, strictly ordered
    as in "dgimsuvy" (so not repeated), and [u] and [v] exclude each other. *)
Definition regexp_flags_ok (flags : str) : Prop :=
  (∃ positions, mapM regexp_flag_position flags = Some positions ∧
     Sorted Nat.lt positions) ∧
  ¬ (chr "u" ∈ flags ∧ chr "v" ∈ flags).

Definition opt_text_ok (maximum : Z) (o : option str) : Prop :=
  match o with Some s => len s <= maximum | None => True end.

(** What one node must satisfy on its own. *)
Definition node_ok (limits : ProtocolLimits) (app : option AppInstanceId) (v : WireValue) : Prop :=
  (∀ owner expected, node_handle v = Some owner → app = Some expected → owner = expected) ∧
  match v with
  | Wire_Float bits => f64_is_finite bits = true ∧ f64_fract_nonzero bits = true
  | Wire_BigInt _ magnitude =>
    (∃ b rest, magnitude = b :: rest ∧ byte_val b ≠ 0) ∧
    len magnitude <= max_inline_buffer_bytes limits
  | Wire_String s => len s <= max_string_bytes limits
  | Wire_Bytes bs => len bs <= max_inline_buffer_bytes limits
  | Wire_Object entries =>
    Forall (λ e, len (entry_key e) <= max_string_bytes limits) entries ∧
    NoDup (map entry_key entries)
  | Wire_RegExp source flags =>
    len source <= max_string_bytes limits ∧ len flags <= max_string_bytes limits ∧
    regexp_flags_ok flags
  | Wire_Error (mkWireError name message stack code kind _ data) =>
    len name <= max_string_bytes limits ∧ len message <= max_string_bytes limits ∧
    opt_text_ok (max_string_bytes limits) stack ∧
    opt_text_ok (max_string_bytes limits) code ∧
    opt_text_ok (max_string_bytes limits) kind ∧
    Forall (λ p, len p.1 <= max_string_bytes limits) data
  | Wire_TypedArray kind byte_offset element_count storage =>
    let size := typed_array_element_bytes kind in
    element_count * size <= u64_max ∧ byte_offset + element_count * size <= u64_max ∧
    match storage with
    | Storage_Inline bs =>
      len bs <= max_inline_buffer_bytes limits ∧ byte_offset + element_count * size <= len bs
    | _ => True
    end
  | _ => True
  end.

(** Every node of the tree is fine. *)
Inductive value_ok (limits : ProtocolLimits) (app : option AppInstanceId) : WireValue → Prop :=
| value_ok_node v :
    node_ok limits app v → Forall (value_ok limits app) (value_children v) →
    value_ok limits app v.

(** The specification of graph validation: the limits have no zero dimension,
    every node of every root is fine, and the exact usage fits the limits. *)
Definition graph_usage (roots : list WireValue) : WireValueBudget := {|
  budget_nodes := Z.of_nat (forest_nodes roots);
  budget_maximum_depth := Z.of_nat (max_list_with value_depth roots);
  budget_remote_handles := Z.of_nat (sum_list_with value_handles roots)
|}.

Definition graph_ok (roots : list WireValue) (limits : ProtocolLimits)
    (app : option AppInstanceId) : Prop :=
  limits_validate limits = Ok tt ∧
  Forall (value_ok limits app) roots ∧
  budget_nodes (graph_usage roots) <= max_graph_nodes limits ∧
  budget_maximum_depth (graph_usage roots) <= max_object_depth limits ∧
  budget_remote_handles (graph_usage roots) <= max_remote_handles limits.

(** ** Induction and equations *)

(** Induction on values through their children. *)
Lemma wire_value_ind' (P : WireValue → Prop) :
  (∀ v, Forall P (value_children v) → P v) → ∀ v, P v.
Proof.
  intros Hstep. fix IH 1. intros v. apply Hstep.
  destruct v; simpl; try constructor.
  - induction values as [|v vs IHvs]; constructor; auto.
  - induction entries as [|[k v] es IHes]; simpl; constructor; auto.
  - destruct value as [n m st co ki cause data]; simpl. apply Forall_app. split.
    + destruct cause; simpl; repeat constructor; auto.
    + induction data as [|[k v] ds IHds]; simpl; constructor; auto.
Qed.

Lemma value_nodes_eq v : value_nodes v = S (forest_nodes (value_children v)).
Proof.
  unfold forest_nodes. destruct v; try done.
  - simpl. f_equal. induction entries as [|[k v] es IH]; simpl; congruence.
  - destruct value as [n m st co ki cause data]; simpl. rewrite sum_list_with_app.
    f_equal. f_equal.
    + destruct cause; simpl; lia.
    + induction data as [|[k v] ds IH]; simpl; congruence.
Qed.

Lemma value_depth_eq v : value_depth v = S (max_list_with value_depth (value_children v)).
Proof.
  destruct v; try done.
  - simpl. f_equal. induction entries as [|[k v] es IH]; simpl; congruence.
  - destruct value as [n m st co ki cause data]; simpl. f_equal.
    rewrite max_list_with_app. f_equal.
    + destruct cause; simpl; lia.
    + induction data as [|[k v] ds IH]; simpl; congruence.
Qed.

Lemma value_handles_eq v :
  value_handles v = (node_handles v + sum_list_with value_handles (value_children v))%nat.
Proof.
  destruct v; simpl; try (unfold node_handles; simpl; lia).
  - induction entries as [|[k v] es IH]; simpl; unfold node_handles in *; simpl in *; lia.
  - destruct value as [n m st co ki cause data]; simpl.
    rewrite sum_list_with_app. unfold node_handles; simpl. f_equal.
    + destruct cause; simpl; lia.
    + induction data as [|[k v] ds IH]; simpl; congruence.
Qed.

Lemma value_nodes_pos v : (1 <= value_nodes v)%nat.
Proof. rewrite value_nodes_eq. lia. Qed.

Lemma forest_nodes_length vs : (length vs <= forest_nodes vs)%nat.
Proof.
  unfold forest_nodes. induction vs as [|v vs IH]; simpl; [lia|].
  pose proof (value_nodes_pos v). lia.
Qed.

Definition at_depth (d : Z) (v : WireValue) : WireValue * Z := (v, d).

Lemma push_children_eq pending vs d :
  push_children pending vs d = map (at_depth d) vs ++ pending.
Proof.
  unfold push_children. revert pending. induction vs as [|v vs IH]; intros; [done|].
  simpl. rewrite foldl_app. simpl. by rewrite IH.
Qed.

(** ** Local checks *)

Lemma validate_bounded_text_Ok f s m u :
  validate_bounded_text f s m = Ok u ↔ len s <= m.
Proof. unfold validate_bounded_text. rewrite reject_Ok. lia. Qed.

Lemma validate_text_Ok f s m u : validate_text f s m = Ok u ↔ s ≠ [] ∧ len s <= m.
Proof.
  unfold validate_text, reject. rewrite <-len_zero.
  destruct (Z.eqb_spec (len s) 0); simpl; [naive_solver|].
  rewrite validate_bounded_text_Ok. naive_solver.
Qed.

Lemma validate_inline_bytes_Ok bs m u : validate_inline_bytes bs m = Ok u ↔ len bs <= m.
Proof. unfold validate_inline_bytes. rewrite reject_Ok. lia. Qed.

Lemma validate_optional_text_Ok f o m u :
  validate_optional_text f o m = Ok u ↔ opt_text_ok m o.
Proof.
  destruct o; simpl; [by rewrite validate_bounded_text_Ok|]. destruct u; naive_solver.
Qed.

Lemma validate_object_entries_Ok keys es m u :
  validate_object_entries_from keys es m = Ok u ↔
  Forall (λ e, len (entry_key e) <= m) es ∧ NoDup (map entry_key es) ∧
  (∀ e, e ∈ es → entry_key e ∉ keys).
Proof.
  revert keys. induction es as [|e es IH]; intros keys; simpl.
  { destruct u. split; [|done]. intros _. split_and!; [constructor..|set_solver]. }
  rewrite Forall_cons, NoDup_cons. split.
  - intros H. inv_ok. apply validate_bounded_text_Ok in H0. apply IH in H as (Hall & Hnd & Hkeys).
    apply bool_decide_eq_false in H1. split_and!; [done..| |done|].
    + intros (e' & Heq & He')%list_elem_of_fmap. apply (Hkeys e'); [done|]. set_solver.
    + intros e' [->|He']%elem_of_cons; [done|]. specialize (Hkeys e' He'). set_solver.
  - intros ((Hlen & Hall) & (Hnin & Hnd) & Hkeys).
    rewrite (proj2 (validate_bounded_text_Ok _ _ _ tt) Hlen). simpl.
    rewrite bool_decide_eq_false_2 by (apply Hkeys; set_solver). simpl.
    apply IH. split_and!; [done..|]. intros e' He'.
    specialize (Hkeys e' ltac:(set_solver)).
    assert (entry_key e' ∈ map entry_key es) by (apply list_elem_of_fmap; eauto).
    set_solver.
Qed.

Lemma validate_regexp_flags_Ok prev u v flags r :
  validate_regexp_flags prev u v flags = Ok r ↔
  (∃ positions, mapM regexp_flag_position flags = Some positions ∧
     Sorted Nat.lt (option_list prev ++ positions)) ∧
  ¬ ((u = true ∨ chr "u" ∈ flags) ∧ (v = true ∨ chr "v" ∈ flags)).
Proof.
  revert prev u v. induction flags as [|flag flags IH]; intros prev u v; simpl.
  - rewrite reject_Ok, andb_false_iff, !elem_of_nil. split.
    + intros H. split; [|destruct u, v; naive_solver].
      exists []. split; [done|]. destruct prev; repeat constructor.
    + intros [_ H]. destruct u, v; naive_solver.
  - destruct (regexp_flag_position flag) as [position|] eqn:Hpos; simpl.
    2: { split; [done|]. intros [(? & ? & _) _]. done. }
    destruct (match prev with Some _ => _ | None => _ end) eqn:Hprev; simpl.
    + destruct prev as [p|]; [|done]. apply Nat.leb_le in Hprev.
      split; [done|]. intros [(ps & Hps & Hsorted) _]. exfalso.
      apply bind_Some in Hps as (ps' & _ & [= <-]). simpl in Hsorted.
      apply Sorted_inv in Hsorted as [_ Hhd%HdRel_inv]. lia.
    + rewrite IH. rewrite !orb_true_iff, !bool_decide_eq_true, !elem_of_cons. f_equiv.
      * split.
        -- intros (ps & -> & Hsorted). simpl. eexists; split; [done|].
           destruct prev as [p|]; simpl in *; [|done]. constructor; [done|].
           apply Nat.leb_gt in Hprev. by constructor.
        -- intros (ps & Hps & Hsorted). apply bind_Some in Hps as (ps' & -> & [= <-]).
           exists ps'. split; [done|]. destruct prev as [p|]; simpl in *; [|done].
           by apply Sorted_inv in Hsorted as [? _].
      * naive_solver.
Qed.

Lemma push_error_data_Ok p dr d m p' :
  push_error_data p dr d m = Ok p' ↔
  Forall (λ q, len q.1 <= m) dr ∧ p' = map (at_depth d) (map snd (rev dr)) ++ p.
Proof.
  revert p. induction dr as [|[k v] dr IH]; intros p; simpl.
  { split; [intros [= <-]; by split|intros [_ ->]; done]. }
  rewrite Forall_cons, result_bind_Ok, !map_app, <-app_assoc. simpl. split.
  - intros (? & Hk%validate_bounded_text_Ok & H). by apply IH in H as [? ->].
  - intros [[Hk Hdr] ->]. exists tt. rewrite validate_bounded_text_Ok, IH. by split.
Qed.

Lemma child_depth_Ok d limits b cd :
  child_depth d limits b = Ok cd ↔
  (b = true ∧ cd = d) ∨
  (b = false ∧ cd = d + 1 ∧ d + 1 <= u16_max ∧ d + 1 <= max_object_depth limits).
Proof.
  unfold child_depth, checked_add, reject. destruct b; simpl; [naive_solver|].
  destruct (Z.leb_spec (d + 1) u16_max); simpl; [|naive_solver lia].
  destruct (Z.ltb_spec (max_object_depth limits) (d + 1)); simpl; naive_solver lia.
Qed.

(** Children are pushed one level deeper; without children nothing is pushed. *)
Lemma child_depth_push d limits (vs : list WireValue) cd :
  child_depth d limits (len vs =? 0) = Ok cd →
  (vs = [] ∨ d + 1 <= max_object_depth limits) ∧ map (at_depth cd) vs = map (at_depth (d + 1)) vs.
Proof. intros [[H ->]|(H & -> & _ & ?)]%child_depth_Ok; [|by auto]. rewrite (proj1 (len_zero vs)) by lia. auto. Qed.

Lemma validate_remote_handle_Ok app expected h limits h' :
  validate_remote_handle app expected h limits = Ok h' ↔
  (∀ e, expected = Some e → app = e) ∧ h' = h + 1 ∧
  h + 1 <= u32_max ∧ h + 1 <= max_remote_handles limits.
Proof.
  unfold validate_remote_handle, reject, checked_add.
  assert ((match expected with Some e => negb (bool_decide (app = e)) | None => false end = false)
          ↔ ∀ e, expected = Some e → app = e) as Hiff.
  { destruct expected; [|naive_solver]. rewrite negb_false_iff, bool_decide_eq_true. naive_solver. }
  destruct (match expected with Some _ => _ | None => _ end) eqn:E; simpl.
  { split; [done|]. intros [H _]. by apply Hiff in H. }
  destruct (Z.leb_spec (h + 1) u32_max); simpl; [|naive_solver lia].
  destruct (Z.ltb_spec (max_remote_handles limits) (h + 1)); simpl; naive_solver lia.
Qed.

Section Steps.
Context `{Alloc : Allocator}.
Variables (limits : ProtocolLimits) (app : option AppInstanceId).

(** What processing a node does to the stack and the handle count. *)
Definition step_spec (v : WireValue) (d : Z) (p : pending_stack) (h : Z)
    (p' : pending_stack) (h' : Z) : Prop :=
  h' = h + Z.of_nat (node_handles v) ∧
  (node_handles v = 0%nat ∨ h' <= max_remote_handles limits) ∧
  (value_children v = [] ∨ d + 1 <= max_object_depth limits) ∧
  p' = map (at_depth (d + 1)) (value_children v) ++ p.

Lemma step_leaf v d p h :
  node_handle v = None → value_children v = [] → step_spec v d p h p h.
Proof.
  intros Hn Hc. unfold step_spec, node_handles. rewrite Hn, Hc.
  split_and!; [lia|by left|by left|done].
Qed.

Lemma step_handle v owner d p h p' h' :
  node_handle v = Some owner → value_children v = [] →
  (let? handles := validate_remote_handle owner app h limits in Ok (p, handles)) = Ok (p', h') →
  (∀ o e, node_handle v = Some o → app = Some e → o = e) ∧ step_spec v d p h p' h'.
Proof.
  intros Hn Hc H. unfold step_spec, node_handles. rewrite Hn, Hc. inv_ok.
  apply validate_remote_handle_Ok in H0 as (? & -> & _ & ?). split_and!; naive_solver.
Qed.

Lemma step_children v d p h vs cd :
  node_handle v = None → value_children v = vs →
  child_depth d limits (len vs =? 0) = Ok cd →
  step_spec v d p h (map (at_depth cd) vs ++ p) h.
Proof.
  intros Hn Hc [? Heq]%child_depth_push. unfold step_spec, node_handles. rewrite Hn, Hc, Heq.
  split_and!; [lia|by left|done|done].
Qed.

Lemma children_count_eq (cause : option WireValue) (data : list (str * WireValue)) :
  len (option_list cause ++ map snd data) =
  len data + match cause with Some _ => 1 | None => 0 end.
Proof.
  rewrite len_app. unfold len. rewrite length_map. destruct cause; simpl; lia.
Qed.

Lemma validate_wire_error_sound e d p h remaining p' :
  validate_wire_error e (max_string_bytes limits) p d limits remaining = Ok p' →
  node_ok limits app (Wire_Error e) ∧ step_spec (Wire_Error e) d p h p' h.
Proof.
  destruct e as [n m st co ki cause data]. unfold validate_wire_error, node_ok. intros H. inv_ok.
  repeat match goal with
  | H : validate_bounded_text _ _ _ = _ |- _ => apply validate_bounded_text_Ok in H
  | H : validate_optional_text _ _ _ = _ |- _ => apply validate_optional_text_Ok in H
  end.
  rewrite <-children_count_eq in *.
  match goal with H : push_error_data _ _ _ _ = _ |- _ =>
    apply push_error_data_Ok in H as [Hkeys ->] end.
  split; [split_and!; try done|].
  - by apply Forall_rev in Hkeys; rewrite rev_involutive in Hkeys.
  - match goal with H : child_depth _ _ _ = Ok ?cd |- _ =>
      pose proof (step_children (Wire_Error (mkWireError n m st co ki cause data)) d p h _ cd
        eq_refl eq_refl H) as Hstep end.
    rewrite rev_involutive. simpl in Hstep. rewrite map_app, <-app_assoc in Hstep.
    by destruct cause.
Qed.

(** A node that is accepted is fine, adds its own handle to the count, and
    pushes its children in order one level deeper. *)
Lemma validate_wire_value_sound v d p h remaining p' h' :
  validate_wire_value v d limits p h remaining app = Ok (p', h') →
  node_ok limits app v ∧ step_spec v d p h p' h'.
Proof.
  intros H. destruct v; simpl in H;
    try (match goal with |- node_ok _ _ ?v ∧ _ =>
      destruct (step_handle v _ d _ _ _ _ eq_refl eq_refl H) as (? & ?) end; by split);
    try (injection H as <- <-; split; [done|by apply step_leaf]).
  - run_case; [|done]. apply andb_true_iff in Heqb as [? ?]. inv_ok.
    split; [done|by apply step_leaf].
  - inv_ok. apply validate_inline_bytes_Ok in H1.
    split; [|by apply step_leaf]. split_and!; [done| |done].
    destruct magnitude_be as [|b rest]; [done|]. exists b, rest. split; [done|]. lia.
  - inv_ok. apply validate_bounded_text_Ok in H0. split; [done|by apply step_leaf].
  - inv_ok. apply validate_inline_bytes_Ok in H0. split; [done|by apply step_leaf].
  - inv_ok. rewrite push_children_eq. split; [done|]. by eapply step_children.
  - inv_ok. apply validate_object_entries_Ok in H0 as (? & ? & _).
    split; [done|]. rewrite push_children_eq. eapply step_children; [done..|].
    unfold len. by rewrite length_map.
  - inv_ok. apply validate_bounded_text_Ok in H0.
    apply validate_regexp_flags_Ok in H2 as [? ?]. split; [|by apply step_leaf].
    split_and!; [done..|lia|]. split; [done|]. naive_solver.
  - inv_ok. by eapply validate_wire_error_sound.
  - inv_ok. destruct storage; simpl in H; unfold node_ok; simpl.
    + inv_ok. apply validate_inline_bytes_Ok in H1. split; [|by apply step_leaf].
      apply bind_Some in H0 as (? & ? & ?). inv_ok. split_and!; [done..|lia].
    + destruct (step_handle (Wire_TypedArray array_kind byte_offset element_count (Storage_Shared handle))
        _ d _ _ _ _ eq_refl eq_refl H) as (? & ?).
      apply bind_Some in H0 as (? & ? & ?). inv_ok. by split_and!.
    + destruct (step_handle (Wire_TypedArray array_kind byte_offset element_count (Storage_Stream handle))
        _ d _ _ _ _ eq_refl eq_refl H) as (? & ?).
      apply bind_Some in H0 as (? & ? & ?). inv_ok. by split_and!.
    + inv_ok. apply bind_Some in H0 as (? & ? & ?). inv_ok.
      split; [by split_and!|by apply step_leaf].
Qed.

(** *** Completeness of one step *)

Lemma node_handles_zero v : node_handle v = None → node_handles v = 0%nat.
Proof. unfold node_handles. by intros ->. Qed.

Hypothesis Hample : ample Alloc.
Hypothesis Hwf : limits_wf limits.

Lemma reserve_pending_complete p n remaining maximum :
  len p + n <= remaining → remaining <= u32_max →
  reserve_pending p n remaining maximum = Ok tt.
Proof.
  unfold reserve_pending, checked_add, try_reserve, u32_max, usize_max, u64_max.
  intros. rewrite Hample. destruct (Z.leb_spec (len p + n) 18446744073709551615); [|lia].
  simpl. by destruct (Z.ltb_spec remaining (len p + n)); [lia|].
Qed.

Lemma child_depth_complete {A} d (vs : list A) :
  vs = [] ∨ d + 1 <= max_object_depth limits →
  ∃ cd, child_depth d limits (len vs =? 0) = Ok cd.
Proof.
  intros Hd. destruct vs as [|v vs]; [by exists d|]. destruct Hd as [|Hd]; [done|].
  exists (d + 1). apply child_depth_Ok. right. destruct Hwf as (_ & _ & ? & _).
  split_and!; [|lia..]. rewrite len_cons. pose proof (len_nonneg vs). lia.
Qed.

Lemma remote_handle_complete {A} v owner h (p : A) :
  node_handle v = Some owner → (∀ o e, node_handle v = Some o → app = Some e → o = e) →
  h + Z.of_nat (node_handles v) <= max_remote_handles limits →
  ∃ r, (let? handles := validate_remote_handle owner app h limits in Ok (p, handles)) = Ok r.
Proof.
  intros Hn Hok Hh. unfold node_handles in Hh. rewrite Hn in Hh.
  destruct Hwf as (_ & _ & _ & _ & _ & _ & ? & _).
  rewrite (proj2 (validate_remote_handle_Ok owner app h limits (h + 1))); [simpl; eauto|].
  split_and!; [naive_solver|done|lia..].
Qed.

Lemma validate_wire_error_complete e d p remaining :
  node_ok limits app (Wire_Error e) →
  (value_children (Wire_Error e) = [] ∨ d + 1 <= max_object_depth limits) →
  len p + len (value_children (Wire_Error e)) <= remaining → remaining <= u32_max →
  ∃ p', validate_wire_error e (max_string_bytes limits) p d limits remaining = Ok p'.
Proof.
  destruct e as [n m st co ki cause data].
  intros (_ & Hn & Hm & Hst & Hco & Hki & Hkeys) Hd Hrem Hmax.
  unfold validate_wire_error. simpl in Hd, Hrem.
  destruct (child_depth_complete d _ Hd) as [cd Hcd].
  rewrite !(proj2 (validate_bounded_text_Ok _ _ _ tt)) by done. simpl.
  rewrite !(proj2 (validate_optional_text_Ok _ _ _ tt)) by done. simpl.
  rewrite (proj2 (checked_add_Some usize_max (len data) _
    (len (option_list cause ++ map snd data)))).
  2: { rewrite <-children_count_eq. pose proof (len_nonneg p).
       unfold usize_max, u64_max, u32_max in *. lia. }
  simpl. rewrite (reserve_pending_complete _ _ _ _ Hrem) by done. simpl.
  rewrite Hcd. simpl. erewrite (proj2 (push_error_data_Ok _ _ _ _ _)); [by eauto|].
  split; [by apply Forall_rev|done].
Qed.

(** A fine node whose handle, children and depth fit is accepted. *)
Lemma validate_wire_value_complete v d p h remaining :
  node_ok limits app v →
  (node_handles v = 0%nat ∨ h + Z.of_nat (node_handles v) <= max_remote_handles limits) →
  (value_children v = [] ∨ d + 1 <= max_object_depth limits) →
  len p + len (value_children v) <= remaining → remaining <= u32_max →
  ∃ r, validate_wire_value v d limits p h remaining app = Ok r.
Proof.
  intros [Hown Hok] Hh Hd Hrem Hmax.
  assert (∀ owner, node_handle v = Some owner →
    ∃ r, (let? handles := validate_remote_handle owner app h limits in Ok (p, handles)) = Ok r)
    as Hremote.
  { intros owner Ho. eapply remote_handle_complete; eauto.
    destruct Hh as [Hh|]; [|done]. unfold node_handles in Hh. by rewrite Ho in Hh. }
  destruct v; simpl in *; try (by eauto).
  - destruct Hok as [-> ->]. simpl. eauto.
  - destruct Hok as [(b & rest & -> & Hb) Hl]. rewrite len_cons in *. pose proof (len_nonneg rest).
    destruct (Z.eqb_spec (1 + len rest) 0); [lia|]. simpl.
    destruct (Z.eqb_spec (byte_val b) 0); [lia|]. simpl. rewrite andb_false_r. simpl.
    rewrite (proj2 (validate_inline_bytes_Ok _ _ tt)) by (rewrite len_cons; lia). simpl. eauto.
  - rewrite (proj2 (validate_bounded_text_Ok _ _ _ tt)) by done. simpl. eauto.
  - rewrite (proj2 (validate_inline_bytes_Ok _ _ tt)) by done. simpl. eauto.
  - rewrite (reserve_pending_complete _ _ _ _ Hrem) by done. simpl.
    destruct (child_depth_complete d _ Hd) as [cd ->]. simpl. eauto.
  - unfold validate_object_entries. rewrite (proj2 (validate_object_entries_Ok _ _ _ tt)).
    2: { destruct Hok. split_and!; [done..|]. intros. set_solver. }
    assert (len (map entry_value entries) = len entries) as Hl
      by (unfold len; by rewrite length_map).
    rewrite Hl in Hrem. simpl. rewrite (reserve_pending_complete _ _ _ _ Hrem) by done. simpl.
    destruct (child_depth_complete d (map entry_value entries) Hd) as [cd Hcd].
    rewrite Hl in Hcd. rewrite Hcd. simpl. eauto.
  - destruct Hok as (Hs & Hf & Hflags & Hex).
    rewrite (proj2 (validate_bounded_text_Ok _ _ _ tt)) by done. simpl.
    unfold reject. destruct (Z.ltb_spec (max_string_bytes limits) (len flags)); [lia|]. simpl.
    rewrite (proj2 (validate_regexp_flags_Ok _ _ _ _ tt)); [simpl; eauto|].
    split; [done|]. naive_solver.
  - destruct (validate_wire_error_complete value d p remaining) as [p' ->]; [done..|].
    simpl. eauto.
  - destruct Hok as (Hmul & Hadd & Hst).
    rewrite (proj2 (checked_mul_Some u64_max _ _ _) (conj eq_refl Hmul)). simpl.
    rewrite (proj2 (checked_add_Some u64_max _ _ _) (conj eq_refl Hadd)). simpl.
    destruct storage; simpl in *; [|by eauto..]. destruct Hst.
    rewrite (proj2 (validate_inline_bytes_Ok _ _ tt)) by done. simpl. unfold reject.
    match goal with |- context [?a <? ?b] => destruct (Z.ltb_spec a b); [lia|] end.
    simpl. eauto.
Qed.
End Steps.

(** ** The loop *)

(** The usage that the loop will report from a given state. *)
Definition stack_depth (p : pending_stack) : Z :=
  foldr (λ q acc, Z.max (q.2 - 1 + Z.of_nat (value_depth q.1)) acc) 0 p.
Definition loop_usage (p : pending_stack) (n m h : Z) : WireValueBudget := {|
  budget_nodes := n + Z.of_nat (forest_nodes p.*1);
  budget_maximum_depth := Z.max m (stack_depth p);
  budget_remote_handles := h + Z.of_nat (sum_list_with value_handles p.*1)
|}.

Definition depths_pos (p : pending_stack) : Prop := Forall (λ q, 1 <= q.2) p.

Lemma stack_depth_app p q : stack_depth (p ++ q) = Z.max (stack_depth p) (stack_depth q).
Proof.
  induction p as [|x p IH]; simpl; [|rewrite IH; lia].
  enough (0 <= stack_depth q) by lia. induction q; simpl; lia.
Qed.

Lemma stack_depth_at d vs :
  0 <= d →
  Z.max d (stack_depth (map (at_depth (d + 1)) vs)) = d + Z.of_nat (max_list_with value_depth vs).
Proof. intros Hd. induction vs as [|v vs IH]; simpl; lia. Qed.

Lemma fst_at_depth d vs : (map (at_depth d) vs).*1 = vs.
Proof. induction vs as [|v vs IH]; [done|]. simpl. by f_equal. Qed.

(** One iteration does not change the usage to be reported. *)
Lemma loop_usage_step v d p n m h :
  1 <= d →
  loop_usage ((v, d) :: p) n m h =
  loop_usage (map (at_depth (d + 1)) (value_children v) ++ p) (n + 1) (Z.max m d)
    (h + Z.of_nat (node_handles v)).
Proof.
  intros Hd. unfold loop_usage, forest_nodes. rewrite fmap_app, fst_at_depth, !sum_list_with_app, stack_depth_app.
  pose proof (stack_depth_at d (value_children v) ltac:(lia)).
  rewrite fmap_cons. simpl. fold (stack_depth p).
  change (list_fmap _ _ fst p) with p.*1.
  rewrite value_nodes_eq, value_depth_eq, value_handles_eq. unfold forest_nodes.
  f_equal; lia.
Qed.

Lemma depths_pos_step v d p :
  depths_pos ((v, d) :: p) → depths_pos (map (at_depth (d + 1)) (value_children v) ++ p).
Proof.
  intros [Hd Hp]%Forall_cons. apply Forall_app. split; [|done].
  apply Forall_map, Forall_true. simpl in *. lia.
Qed.

(** The usage bounds what is already counted. *)
Lemma loop_usage_le p n m h :
  n <= budget_nodes (loop_usage p n m h) ∧ m <= budget_maximum_depth (loop_usage p n m h) ∧
  h <= budget_remote_handles (loop_usage p n m h) ∧
  n + len p <= budget_nodes (loop_usage p n m h).
Proof.
  simpl. pose proof (forest_nodes_length p.*1) as H. rewrite length_fmap in H.
  unfold len. lia.
Qed.

Definition usage_fits (limits : ProtocolLimits) (b : WireValueBudget) : Prop :=
  budget_nodes b <= max_graph_nodes limits ∧
  budget_maximum_depth b <= max_object_depth limits ∧
  budget_remote_handles b <= max_remote_handles limits.

Lemma value_ok_inv limits app v :
  value_ok limits app v ↔ node_ok limits app v ∧ Forall (value_ok limits app) (value_children v).
Proof. split; [by intros []|intros [? ?]; by constructor]. Qed.

Section Loop.
Context `{Alloc : Allocator}.
Variables (limits : ProtocolLimits) (app : option AppInstanceId).

(** One fuel unit per remaining node, and one to see the empty stack. *)
Lemma graph_loop_terminates fuel p n m h :
  (forest_nodes p.*1 < fuel)%nat → is_Some (graph_loop fuel limits app p n m h).
Proof.
  revert p n m h. induction fuel as [|fuel IH]; intros p n m h Hfuel; [lia|].
  destruct p as [|[v d] p]; simpl; [by eauto|].
  destruct (result_bind _ _) as [[[[p' n'] m'] h']|e] eqn:E; [|by eauto].
  inv_ok. case_match. inv_ok.
  match goal with H : validate_wire_value _ _ _ _ _ _ _ = _ |- _ => rename H into Hval end.
  apply validate_wire_value_sound in Hval as (_ & _ & _ & _ & ->).
  apply IH. unfold forest_nodes in *. rewrite fmap_app, fst_at_depth, sum_list_with_app.
  simpl in Hfuel. change (list_fmap _ _ fst p) with p.*1 in Hfuel.
  rewrite value_nodes_eq in Hfuel. unfold forest_nodes in Hfuel. lia.
Qed.

Lemma graph_loop_sound fuel p n m h b :
  0 <= m → depths_pos p → usage_fits limits (loop_usage [] n m h) →
  graph_loop fuel limits app p n m h = Some (Ok b) →
  Forall (value_ok limits app) p.*1 ∧ b = loop_usage p n m h ∧ usage_fits limits b.
Proof.
  revert p n m h. induction fuel as [|fuel IH]; intros p n m h Hm Hpos Hfit Hrun; [done|].
  destruct p as [|[v d] p]; simpl in Hrun.
  { clear IH. simplify_eq. unfold usage_fits, loop_usage in *; simpl in *.
    split_and!; [constructor|f_equal; lia|lia..]. }
  destruct (result_bind _ _) as [[[[p' n'] m'] h']|e] eqn:E; [|done].
  inv_ok. case_match. inv_ok.
  match goal with H : validate_wire_value _ _ _ _ _ _ _ = _ |- _ => rename H into Hval end.
  apply validate_wire_value_sound in Hval as (Hok & -> & Hh & Hd & ->).
  apply Forall_cons in Hpos as Hpos'. destruct Hpos' as [Hd1 _]; simpl in Hd1.
  apply IH in Hrun as (Hall & -> & Hfits).
  - rewrite fmap_app, fst_at_depth in Hall. apply Forall_app in Hall as [Hch Hp].
    split_and!; [|by rewrite <-loop_usage_step|done].
    simpl. constructor; [by apply value_ok_inv|done].
  - lia.
  - by apply depths_pos_step.
  - clear IH Hrun. unfold usage_fits, loop_usage, forest_nodes in *; simpl in *. lia.
Qed.

Lemma graph_loop_complete fuel p n m h :
  ample Alloc → limits_wf limits → 0 <= n → 0 <= m → depths_pos p →
  Forall (value_ok limits app) p.*1 → usage_fits limits (loop_usage p n m h) →
  (forest_nodes p.*1 < fuel)%nat →
  graph_loop fuel limits app p n m h = Some (Ok (loop_usage p n m h)).
Proof.
  intros Hample Hwf. revert p n m h.
  induction fuel as [|fuel IH]; intros p n m h Hn Hm Hpos Hok Hfit Hfuel; [lia|].
  destruct p as [|[v d] p].
  { simpl. unfold loop_usage; simpl. do 2 f_equal. f_equal; lia. }
  apply Forall_cons in Hpos as Hpos'. destruct Hpos' as [Hd1 _]; simpl in Hd1.
  simpl in Hok. apply Forall_cons in Hok as [[Hnode Hch]%value_ok_inv Hp].
  rewrite loop_usage_step in Hfit |- * by done.
  set (ch := map (at_depth (d + 1)) (value_children v) ++ p) in *.
  pose proof (loop_usage_le ch (n + 1) (Z.max m d) (h + Z.of_nat (node_handles v)))
    as (Hle1 & Hle2 & Hle3 & Hle4).
  destruct Hfit as (Hf1 & Hf2 & Hf3).
  assert (value_children v = [] ∨ d + 1 <= max_object_depth limits) as Hdepth.
  { destruct (value_children v) as [|c cs] eqn:Ec; [by left|right].
    assert (d + 1 <= stack_depth ch); [|unfold loop_usage in Hf2; cbn [budget_maximum_depth] in Hf2; lia].
    unfold ch. rewrite stack_depth_app. simpl. rewrite value_depth_eq. lia. }
  pose proof Hwf as (_ & Hmax & _).
  assert (len ch = len (value_children v) + len p) as Hlen.
  { unfold ch. rewrite len_app. unfold len. by rewrite length_map. }
  destruct (validate_wire_value_complete limits app Hample Hwf v d p h
    (max_graph_nodes limits - (n + 1))) as [[p' h'] Hstep]; [done|right; lia|done|lia|lia|].
  cbn [graph_loop]. rewrite (proj2 (checked_add_Some u32_max n 1 (n + 1))) by lia. simpl.
  unfold reject. destruct (Z.ltb_spec (max_graph_nodes limits) (n + 1)); [lia|].
  destruct (Z.ltb_spec (max_object_depth limits) d); [lia|]. simpl.
  rewrite Hstep. simpl.
  apply validate_wire_value_sound in Hstep as (_ & -> & _ & _ & ->).
  apply IH; [lia|lia|by apply depths_pos_step| |by split_and!|].
  - unfold ch. rewrite fmap_app, fst_at_depth. by apply Forall_app.
  - unfold ch, forest_nodes in *. rewrite fmap_app, fst_at_depth, sum_list_with_app.
    simpl in Hfuel. change (list_fmap _ _ fst p) with p.*1 in Hfuel.
  rewrite value_nodes_eq in Hfuel. unfold forest_nodes in Hfuel. lia.
Qed.
End Loop.

(** ** Main theorems *)

Lemma stack_depth_roots roots :
  stack_depth (map (at_depth 1) roots) = Z.of_nat (max_list_with value_depth roots).
Proof. induction roots as [|v vs IH]; simpl; lia. Qed.

Lemma roots_usage roots :
  loop_usage (push_children [] roots 1) 0 0 0 = graph_usage roots.
Proof.
  rewrite push_children_eq, app_nil_r. unfold loop_usage, graph_usage.
  rewrite fst_at_depth, stack_depth_roots. f_equal; lia.
Qed.

Lemma roots_depths roots : depths_pos (push_children [] roots 1).
Proof.
  rewrite push_children_eq, app_nil_r. apply Forall_map, Forall_true. simpl. lia.
Qed.

Section Main.
Context `{Alloc : Allocator}.

(** What is accepted satisfies the specification, whatever the allocator does. *)
Lemma validate_graph_sound roots limits app b :
  limits_wf limits →
  validate_wire_value_graph_with_app roots limits app = Ok b →
  graph_ok roots limits app ∧ b = graph_usage roots.
Proof.
  intros Hwf. unfold validate_wire_value_graph_with_app. intros H. inv_ok.
  destruct (graph_loop _ _ _ _ _ _ _) as [r|] eqn:Hrun; [|done]. subst r.
  apply graph_loop_sound in Hrun as (Hall & -> & Hfit); [|lia|apply roots_depths|].
  - rewrite roots_usage in *. rewrite push_children_eq, app_nil_r, fst_at_depth in Hall.
    destruct Hfit as (? & ? & ?). by split_and!.
  - destruct Hwf as (_ & ? & ? & _ & _ & _ & ? & _). split_and!; simpl; lia.
Qed.

Lemma validate_graph_complete roots limits app :
  ample Alloc → limits_wf limits → graph_ok roots limits app →
  validate_wire_value_graph_with_app roots limits app = Ok (graph_usage roots).
Proof.
  intros Hample Hwf (Hlim & Hall & Hfit). unfold validate_wire_value_graph_with_app.
  rewrite Hlim. cbn [map_err result_bind]. pose proof (forest_nodes_length roots) as Hlen.
  assert (len roots <= max_graph_nodes limits <= u32_max).
  { destruct Hwf as (_ & ? & _), Hfit as (Hn & _). unfold len. simpl in Hn. lia. }
  unfold reject. destruct (Z.ltb_spec u32_max (len roots)); [lia|].
  destruct (Z.ltb_spec (max_graph_nodes limits) (len roots)); [lia|].
  unfold try_reserve. rewrite Hample. cbn [negb result_bind].
  rewrite graph_loop_complete; [by rewrite roots_usage|done..|apply roots_depths| | |];
    rewrite ?push_children_eq, ?app_nil_r, ?fst_at_depth; [done| |lia].
  rewrite <-(app_nil_r (map _ _)), <-push_children_eq, roots_usage. done.
Qed.

(** C2: graph validation is exact.  With an allocator that grants the requested
    stack space, the iterative validator accepts a list of roots exactly when
    the recursive specification holds (valid limits, every node of every root
    locally fine, and the total nodes, depth and remote handles within the
    limits), and the budget it reports is the exact usage of the graph. *)
Theorem graph_validation_exact roots limits app b :
  ample Alloc → limits_wf limits →
  validate_wire_value_graph_with_app roots limits app = Ok b ↔
  graph_ok roots limits app ∧ b = graph_usage roots.
Proof.
  intros Hample Hwf. split; [by apply validate_graph_sound|].
  intros [Hok ->]. by apply validate_graph_complete.
Qed.

(** A value occurs in a graph. *)
Inductive occurs_in : WireValue → WireValue → Prop :=
| occurs_here v : occurs_in v v
| occurs_child u v w : v ∈ value_children w → occurs_in u v → occurs_in u w.

Lemma value_ok_occurs limits app u v :
  occurs_in u v → value_ok limits app v → node_ok limits app u.
Proof.
  induction 1 as [v|u v w Hin _ IH]; intros [Hnode Hch]%value_ok_inv; [done|].
  apply IH. by eapply Forall_forall in Hch.
Qed.

(** a graph accepted for an application carries no handle of another one.
    Every object, function, promise, port or buffer handle that occurs at any
    depth of an accepted root belongs to the application validated for. *)
Theorem graph_handles_stay_in_app roots limits app b root u owner :
  limits_wf limits →
  validate_wire_value_graph_for_app roots limits app = Ok b →
  root ∈ roots → occurs_in u root → node_handle u = Some owner → owner = app.
Proof.
  intros Hwf Hrun Hroot Hu Hown.
  apply validate_graph_sound in Hrun as [(_ & Hall & _) _]; [|done].
  eapply Forall_forall in Hall; [|done].
  destruct (value_ok_occurs _ _ _ _ Hu Hall) as [Happ _]. by eapply Happ.
Qed.
End Main.

(** A small graph with nesting, an error cause and a handle of application 7. *)
Definition sample_graph : list WireValue :=
  [Wire_Object [mkWireObjectEntry (lit "a") (Wire_Array [Wire_Null; Wire_Bool true])];
   Wire_Error (mkWireError (lit "E") (lit "m") None None None
     (Some (Wire_Handle (mkObjectHandle 7 1 1 Object_App))) [(lit "k", Wire_Integer 3)])].

Lemma sample_graph_accepted :
  validate_wire_value_graph_with_app (Alloc := ample_allocator) sample_graph secure_default
    (Some 7) = Ok (mkWireValueBudget 7 3 1).
Proof. vm_compute. reflexivity. Qed.

Lemma secure_default_wf : limits_wf secure_default.
Proof. unfold limits_wf, secure_default, u32_max, u16_max. simpl. lia. Qed.

Lemma graph_validation_exact_witness :
  validate_wire_value_graph_with_app (Alloc := ample_allocator) sample_graph secure_default
    (Some 7) = Ok (mkWireValueBudget 7 3 1) ∧
  graph_ok sample_graph secure_default (Some 7) ∧
  mkWireValueBudget 7 3 1 = graph_usage sample_graph.
Proof.
  split; [exact sample_graph_accepted|].
  apply (graph_validation_exact (Alloc := ample_allocator) sample_graph secure_default (Some 7));
    [exact ample_allocator_ample|exact secure_default_wf|exact sample_graph_accepted].
Defined.

Lemma graph_handles_stay_in_app_witness : (7 : AppInstanceId) = 7.
Proof.
  refine (graph_handles_stay_in_app (Alloc := ample_allocator) sample_graph secure_default 7 _
    _ (Wire_Handle (mkObjectHandle 7 1 1 Object_App)) 7 secure_default_wf
    sample_graph_accepted _ _ eq_refl).
  - apply elem_of_cons; right. apply elem_of_cons; left. reflexivity.
  - eapply occurs_child; [|apply occurs_here]. apply elem_of_cons; left. reflexivity.
Defined.
