(* ===== verification/Contracts.v ===== *)
(** * Contracts: the messages of the worker/host control protocol

    Models the first half of [crates/weregopher-domain/src/runtime_protocol.rs]:
    protocol versions and their negotiation, the handshake messages, calls,
    results, events, stream and shutdown messages, and [validate_call_context].

    The [Raw*] structures of the source have the fields of the type they
    deserialize to, so a raw value is a value of the same record that no
    constructor has checked yet; every [*_deserialize] function is the source's
    [Deserialize] implementation applied to it, nested fields first. *)

From S2P Require Import Prelude Wire Graph.

Abbreviation Error := RuntimeProtocolContractError.

(** ** Versions *)

Definition G1_PROTOCOL_MAJOR : Z := 1.
Definition G1_PROTOCOL_MINOR : Z := 0.
Definition MAX_PROTOCOL_BACKEND_VERSION_BYTES : Z := 128.
Definition MAX_PROTOCOL_REJECT_DETAIL_BYTES : Z := 512.
Definition MAX_PROTOCOL_HEARTBEAT_MILLIS : Z := 60000.
Definition MAX_PROTOCOL_CALL_DEADLINE_MILLIS : Z := 10 * 60 * 1000.
Definition MAX_PROTOCOL_SERVICE_NAME_BYTES : Z := 255.

Record ProtocolVersion : Type := mkProtocolVersion {
  major : Z;
  minor : Z
}.

Definition protocol_version_new (major minor : Z) : result ProtocolVersion Error :=
  do? reject (major =? 0) ZeroProtocolMajor in
  Ok (mkProtocolVersion major minor).

Definition protocol_version_deserialize (raw : ProtocolVersion) : result ProtocolVersion Error :=
  protocol_version_new (major raw) (minor raw).

Record ProtocolVersionRange : Type := mkProtocolVersionRange {
  minimum : ProtocolVersion;
  maximum : ProtocolVersion
}.

Definition version_range_new (minimum maximum : ProtocolVersion) :
    result ProtocolVersionRange Error :=
  do? reject (negb (major minimum =? major maximum)) VersionRangeMajorMismatch in
  do? reject (minor maximum <? minor minimum) InvertedVersionRange in
  Ok (mkProtocolVersionRange minimum maximum).

Definition version_range_deserialize (raw : ProtocolVersionRange) :
    result ProtocolVersionRange Error :=
  let? lo := protocol_version_deserialize (minimum raw) in
  let? hi := protocol_version_deserialize (maximum raw) in
  version_range_new lo hi.

Definition version_range_negotiate (self other : ProtocolVersionRange) :
    option ProtocolVersion :=
  if negb (major (minimum self) =? major (minimum other)) then None
  else
    let minimum_minor :=
      if minor (minimum other) <? minor (minimum self)
      then minor (minimum self) else minor (minimum other) in
    let maximum_minor :=
      if minor (maximum self) <? minor (maximum other)
      then minor (maximum self) else minor (maximum other) in
    if maximum_minor <? minimum_minor then None
    else Some (mkProtocolVersion (major (minimum self)) maximum_minor).

Definition version_range_g1 : result ProtocolVersionRange Error :=
  let? version := protocol_version_new G1_PROTOCOL_MAJOR G1_PROTOCOL_MINOR in
  version_range_new version version.

#[global] Instance ProtocolVersion_eq_dec : EqDecision ProtocolVersion.
Proof. solve_decision. Defined.
#[global] Instance ProtocolVersionRange_eq_dec : EqDecision ProtocolVersionRange.
Proof. solve_decision. Defined.

(** ** Backend identity, features and heartbeats *)

Record RuntimeBackendIdentity : Type := mkRuntimeBackendIdentity {
  backend_id : str;
  backend_version : str
}.

#[global] Instance RuntimeBackendIdentity_eq_dec : EqDecision RuntimeBackendIdentity.
Proof. solve_decision. Defined.

Definition backend_identity_new (id version : str) : result RuntimeBackendIdentity Error :=
  do? validate_text "runtime backend version" version MAX_PROTOCOL_BACKEND_VERSION_BYTES in
  Ok (mkRuntimeBackendIdentity id version).

Definition backend_identity_deserialize (raw : RuntimeBackendIdentity) :
    result RuntimeBackendIdentity Error :=
  backend_identity_new (backend_id raw) (backend_version raw).

Record ProtocolFeatures : Type := mkProtocolFeatures {
  calls : bool;
  cancellation : bool;
  events : bool;
  credit_streams : bool;
  sync_lane : bool;
  shared_buffers : bool
}.

#[global] Instance ProtocolFeatures_eq_dec : EqDecision ProtocolFeatures.
Proof. solve_decision. Defined.

Definition features_g1_control : ProtocolFeatures :=
  mkProtocolFeatures true true true true false false.

Definition features_negotiate (self supported : ProtocolFeatures) : ProtocolFeatures := {|
  calls := calls self && calls supported;
  cancellation := cancellation self && cancellation supported;
  events := events self && events supported;
  credit_streams := credit_streams self && credit_streams supported;
  sync_lane := sync_lane self && sync_lane supported;
  shared_buffers := shared_buffers self && shared_buffers supported
|}.

Record HeartbeatPolicy : Type := mkHeartbeatPolicy {
  interval_millis : Z;
  timeout_millis : Z
}.

Definition heartbeat_policy_new (interval_millis timeout_millis : Z) :
    result HeartbeatPolicy Error :=
  do? reject ((interval_millis =? 0) || (timeout_millis =? 0)) ZeroHeartbeatDuration in
  do? reject (timeout_millis <? interval_millis) InvertedHeartbeatPolicy in
  do? reject (MAX_PROTOCOL_HEARTBEAT_MILLIS <? timeout_millis) HeartbeatTimeoutExceeded in
  Ok (mkHeartbeatPolicy interval_millis timeout_millis).

Definition heartbeat_policy_deserialize (raw : HeartbeatPolicy) : result HeartbeatPolicy Error :=
  heartbeat_policy_new (interval_millis raw) (timeout_millis raw).

(** ** Handshake messages *)

Record RuntimeHello : Type := mkRuntimeHello {
  hello_runtime : RuntimeId;
  hello_app : AppInstanceId;
  hello_backend : RuntimeBackendIdentity;
  hello_protocol_range : ProtocolVersionRange;
  hello_nonce_proof : bytes;
  hello_capabilities : ProtocolFeatures;
  hello_requested_limits : ProtocolLimits
}.

(** [[0_u8; 32]]. *)
Definition zero_32 : bytes := repeat (byte_of 0) 32.

Definition runtime_hello_new (runtime : RuntimeId) (app : AppInstanceId)
    (backend : RuntimeBackendIdentity) (protocol_range : ProtocolVersionRange)
    (nonce_proof : bytes) (capabilities : ProtocolFeatures)
    (requested_limits : ProtocolLimits) : result RuntimeHello Error :=
  do? reject (bool_decide (nonce_proof = zero_32)) ZeroNonceProof in
  do? map_err Limits (limits_validate requested_limits) in
  Ok (mkRuntimeHello runtime app backend protocol_range nonce_proof capabilities
        requested_limits).

Definition runtime_hello_deserialize (raw : RuntimeHello) : result RuntimeHello Error :=
  let? backend := backend_identity_deserialize (hello_backend raw) in
  let? range := version_range_deserialize (hello_protocol_range raw) in
  runtime_hello_new (hello_runtime raw) (hello_app raw) backend range
    (hello_nonce_proof raw) (hello_capabilities raw) (hello_requested_limits raw).

Record RuntimeWelcome : Type := mkRuntimeWelcome {
  welcome_session : ProtocolSessionId;
  welcome_version : ProtocolVersion;
  welcome_limits : ProtocolLimits;
  welcome_compatibility : Sha256Digest;
  welcome_heartbeat : HeartbeatPolicy;
  welcome_features : ProtocolFeatures
}.

Definition runtime_welcome_new (session : ProtocolSessionId) (version : ProtocolVersion)
    (limits : ProtocolLimits) (compatibility : Sha256Digest) (heartbeat : HeartbeatPolicy)
    (features : ProtocolFeatures) : result RuntimeWelcome Error :=
  do? map_err Limits (limits_validate limits) in
  Ok (mkRuntimeWelcome session version limits compatibility heartbeat features).

Definition runtime_welcome_deserialize (raw : RuntimeWelcome) : result RuntimeWelcome Error :=
  let? version := protocol_version_deserialize (welcome_version raw) in
  let? heartbeat := heartbeat_policy_deserialize (welcome_heartbeat raw) in
  runtime_welcome_new (welcome_session raw) version (welcome_limits raw)
    (welcome_compatibility raw) heartbeat (welcome_features raw).

Inductive ProtocolRejectCode : Type :=
| VersionMismatch | IdentityMismatch | PeerRejected | NonceRejected
| LimitsRejected | FeaturesRejected | MalformedHandshake.

Record ProtocolReject : Type := mkProtocolReject {
  reject_code : ProtocolRejectCode;
  reject_detail : str
}.

Definition protocol_reject_new (code : ProtocolRejectCode) (detail : str) :
    result ProtocolReject Error :=
  do? validate_text "protocol rejection detail" detail MAX_PROTOCOL_REJECT_DETAIL_BYTES in
  Ok (mkProtocolReject code detail).

Definition protocol_reject_deserialize (raw : ProtocolReject) : result ProtocolReject Error :=
  protocol_reject_new (reject_code raw) (reject_detail raw).

(** ** Calls *)

Inductive CallTarget : Type :=
| Target_Service (name : str)
| Target_Object (handle : ObjectHandle)
| Target_Runtime (runtime : RuntimeId).

Definition call_target_service (name : str) : result CallTarget Error :=
  do? validate_text "call service" name MAX_PROTOCOL_SERVICE_NAME_BYTES in
  Ok (Target_Service name).

Definition call_target_validate (self : CallTarget) (limits : ProtocolLimits)
    (expected_app : AppInstanceId) : result unit Error :=
  match self with
  | Target_Service name =>
    validate_text "call service" name
      (Z.min (max_string_bytes limits) MAX_PROTOCOL_SERVICE_NAME_BYTES)
  | Target_Object handle =>
    reject (negb (bool_decide (object_app handle = expected_app))) CrossApplicationHandle
  | Target_Runtime _ => Ok tt
  end.

Definition call_target_deserialize (raw : CallTarget) : result CallTarget Error :=
  match raw with
  | Target_Service name => call_target_service name
  | Target_Object handle => Ok (Target_Object handle)
  | Target_Runtime runtime => Ok (Target_Runtime runtime)
  end.

Definition validate_call_context (context : CallContext) (limits : ProtocolLimits) :
    result unit Error :=
  do? (match ctx_deadline_ms context with
       | Some deadline =>
         do? reject (deadline =? 0) ZeroCallDeadline in
         reject (MAX_PROTOCOL_CALL_DEADLINE_MILLIS <? deadline) CallDeadlineExceeded
       | None => Ok tt
       end) in
  do? (match ctx_renderer context, ctx_frame context with
       | None, Some _ => Err FrameWithoutRenderer
       | Some renderer, Some frame =>
         reject (negb (bool_decide (renderer = frame_renderer frame))) FrameRendererMismatch
       | _, None => Ok tt
       end) in
  do? (match ctx_frame context with
       | Some frame =>
         validate_text "frame origin" (serialized (frame_origin frame))
           (max_string_bytes limits)
       | None => Ok tt
       end) in
  match ctx_world context with
  | Some world =>
    let? frame := ok_or (ctx_frame context) WorldWithoutFrame in
    do? reject (negb (bool_decide (world_frame world = frame))) WorldFrameMismatch in
    match world_kind world with
    | World_BackendSpecific kind =>
      validate_text "backend-specific world kind" kind (max_string_bytes limits)
    | _ => Ok tt
    end
  | None => Ok tt
  end.

Record RuntimeCall : Type := mkRuntimeCall {
  call_target : CallTarget;
  call_method : str;
  call_args : list WireValue;
  call_context : CallContext
}.

Section Messages.
Context `{Alloc : Allocator}.

Definition runtime_call_validate (self : RuntimeCall) (limits : ProtocolLimits) :
    result unit Error :=
  do? map_err Limits (limits_validate limits) in
  do? call_target_validate (call_target self) limits (ctx_app (call_context self)) in
  do? validate_text "call method" (call_method self) (max_string_bytes limits) in
  do? validate_call_context (call_context self) limits in
  do? validate_wire_value_graph_for_app (call_args self) limits
        (ctx_app (call_context self)) in
  Ok tt.

Definition runtime_call_new (target : CallTarget) (method : str) (args : list WireValue)
    (context : CallContext) (limits : ProtocolLimits) : result RuntimeCall Error :=
  let call := mkRuntimeCall target method args context in
  do? runtime_call_validate call limits in
  Ok call.

Definition runtime_call_deserialize (raw : RuntimeCall) : result RuntimeCall Error :=
  let? target := call_target_deserialize (call_target raw) in
  runtime_call_new target (call_method raw) (call_args raw) (call_context raw) secure_default.

(** ** Results, errors and cancellation *)

Record RuntimeCallResult : Type := mkRuntimeCallResult { result_value : WireValue }.

Definition call_result_new (value : WireValue) (limits : ProtocolLimits) :
    result RuntimeCallResult Error :=
  do? validate_wire_value_graph [value] limits in
  Ok (mkRuntimeCallResult value).

Definition call_result_validate (self : RuntimeCallResult) (limits : ProtocolLimits) :
    result unit Error :=
  do? validate_wire_value_graph [result_value self] limits in Ok tt.

Definition call_result_deserialize (raw : RuntimeCallResult) : result RuntimeCallResult Error :=
  call_result_new (result_value raw) secure_default.

Record RuntimeCallError : Type := mkRuntimeCallError { error_value : WireError }.

Definition call_error_new (error : WireError) (limits : ProtocolLimits) :
    result RuntimeCallError Error :=
  do? validate_wire_value_graph [Wire_Error error] limits in
  Ok (mkRuntimeCallError error).

Definition call_error_validate (self : RuntimeCallError) (limits : ProtocolLimits) :
    result unit Error :=
  do? validate_wire_value_graph [Wire_Error (error_value self)] limits in Ok tt.

Definition call_error_deserialize (raw : RuntimeCallError) : result RuntimeCallError Error :=
  call_error_new (error_value raw) secure_default.

Record RuntimeCancel : Type := mkRuntimeCancel { cancel_request_id : Z }.

Definition runtime_cancel_new (request_id : Z) : result RuntimeCancel Error :=
  if request_id =? 0 then Err ZeroRequestId else Ok (mkRuntimeCancel request_id).

Definition runtime_cancel_deserialize (raw : RuntimeCancel) : result RuntimeCancel Error :=
  runtime_cancel_new (cancel_request_id raw).

(** ** Events *)

Record RuntimeEvent : Type := mkRuntimeEvent {
  event_name : str;
  event_args : list WireValue
}.

Definition runtime_event_validate (self : RuntimeEvent) (limits : ProtocolLimits) :
    result unit Error :=
  do? validate_text "event name" (event_name self) (max_string_bytes limits) in
  do? validate_wire_value_graph (event_args self) limits in Ok tt.

Definition runtime_event_new (name : str) (args : list WireValue) (limits : ProtocolLimits) :
    result RuntimeEvent Error :=
  let event := mkRuntimeEvent name args in
  do? runtime_event_validate event limits in
  Ok event.

Definition runtime_event_deserialize (raw : RuntimeEvent) : result RuntimeEvent Error :=
  runtime_event_new (event_name raw) (event_args raw) secure_default.

(** ** Streams and shutdown *)

Record RuntimeStreamOpen : Type := mkRuntimeStreamOpen {
  open_stream : OpaqueHandle;
  initial_credit : Z
}.

Definition stream_open_new (stream : OpaqueHandle) (initial_credit : Z) :
    result RuntimeStreamOpen Error :=
  if initial_credit =? 0 then Err ZeroStreamCredit
  else Ok (mkRuntimeStreamOpen stream initial_credit).

Definition stream_open_deserialize (raw : RuntimeStreamOpen) : result RuntimeStreamOpen Error :=
  stream_open_new (open_stream raw) (initial_credit raw).

Record RuntimeStreamWindow : Type := mkRuntimeStreamWindow {
  window_stream : OpaqueHandle;
  additional_credit : Z
}.

Definition stream_window_new (stream : OpaqueHandle) (additional_credit : Z) :
    result RuntimeStreamWindow Error :=
  if additional_credit =? 0 then Err ZeroStreamCredit
  else Ok (mkRuntimeStreamWindow stream additional_credit).

Definition stream_window_deserialize (raw : RuntimeStreamWindow) :
    result RuntimeStreamWindow Error :=
  stream_window_new (window_stream raw) (additional_credit raw).

Record RuntimeStreamData : Type := mkRuntimeStreamData {
  data_stream : OpaqueHandle;
  data_sequence : Z;
  data_bytes : bytes
}.

Definition validate_stream_data (sequence : Z) (bs : bytes) (limits : ProtocolLimits) :
    result unit Error :=
  do? map_err Limits (limits_validate limits) in
  do? reject (sequence =? 0) ZeroStreamSequence in
  do? reject (len bs =? 0) EmptyStreamData in
  validate_inline_bytes bs (max_inline_buffer_bytes limits).

Definition stream_data_new (stream : OpaqueHandle) (sequence : Z) (bs : bytes)
    (limits : ProtocolLimits) : result RuntimeStreamData Error :=
  do? validate_stream_data sequence bs limits in
  Ok (mkRuntimeStreamData stream sequence bs).

Definition stream_data_validate (self : RuntimeStreamData) (limits : ProtocolLimits) :
    result unit Error :=
  validate_stream_data (data_sequence self) (data_bytes self) limits.

Definition stream_data_deserialize (raw : RuntimeStreamData) : result RuntimeStreamData Error :=
  stream_data_new (data_stream raw) (data_sequence raw) (data_bytes raw) secure_default.
End Messages.

Inductive RuntimeShutdownReason : Type :=
| ApplicationExit | HostShutdown | WorkerShutdown | PolicyRevoked.

Record RuntimeShutdown : Type := mkRuntimeShutdown { shutdown_reason : RuntimeShutdownReason }.

(** ** Version negotiation *)

(** A well-formed range: what [ProtocolVersionRange::new] returns. *)
Definition version_range_wf (r : ProtocolVersionRange) : Prop :=
  major (minimum r) = major (maximum r) ∧ minor (minimum r) <= minor (maximum r).

Definition version_in (v : ProtocolVersion) (r : ProtocolVersionRange) : Prop :=
  major v = major (minimum r) ∧ minor (minimum r) <= minor v <= minor (maximum r).

Lemma version_range_new_Ok lo hi r :
  version_range_new lo hi = Ok r ↔ r = mkProtocolVersionRange lo hi ∧ version_range_wf r.
Proof.
  unfold version_range_new, reject, version_range_wf.
  destruct (Z.eqb_spec (major lo) (major hi)); simpl; [|naive_solver].
  destruct (Z.ltb_spec (minor hi) (minor lo)); simpl; naive_solver lia.
Qed.

Lemma version_range_negotiate_Some a b v :
  version_range_negotiate a b = Some v ↔
  major (minimum a) = major (minimum b) ∧ major v = major (minimum a) ∧
  minor v = Z.min (minor (maximum a)) (minor (maximum b)) ∧
  Z.max (minor (minimum a)) (minor (minimum b)) <= minor v.
Proof.
  unfold version_range_negotiate.
  destruct (Z.eqb_spec (major (minimum a)) (major (minimum b))); simpl; [|naive_solver].
  destruct v as [vmaj vmin]; simpl.
  destruct (Z.ltb_spec (minor (minimum b)) (minor (minimum a))),
    (Z.ltb_spec (minor (maximum a)) (minor (maximum b)));
    match goal with |- context [?x <? ?y] => destruct (Z.ltb_spec x y) end;
    (split; [intros [=]; lia|intros (_ & -> & -> & ?); (lia || (do 2 f_equal; lia))]).
Qed.

(** version negotiation returns the highest common version.  For two
    well-formed ranges the result is a version of both ranges that no common
    version exceeds, every pair of ranges with a common version gets a result,
    and both peers compute the same result whichever of them starts. *)
Theorem version_negotiation_highest_common a b :
  version_range_wf a → version_range_wf b →
  (∀ v, version_range_negotiate a b = Some v ↔
     version_in v a ∧ version_in v b ∧
     (∀ w, version_in w a → version_in w b → minor w <= minor v)) ∧
  (version_range_negotiate a b = None ↔ ∀ v, ¬ (version_in v a ∧ version_in v b)) ∧
  version_range_negotiate a b = version_range_negotiate b a.
Proof.
  intros [Ha Ha'] [Hb Hb']. split_and!.
  - intros v. rewrite version_range_negotiate_Some. unfold version_in. split; [naive_solver lia|].
    intros ((H1 & H2) & (H3 & H4) & Hmax).
    specialize (Hmax (mkProtocolVersion (major v) (Z.min (minor (maximum a)) (minor (maximum b)))));
      simpl in Hmax. lia.
  - destruct (version_range_negotiate a b) as [v|] eqn:E.
    + split; [done|]. intros Hno. apply version_range_negotiate_Some in E.
      destruct (Hno v). unfold version_in. lia.
    + split; [|done]. intros _ v [(? & ?) (? & ?)].
      destruct (version_range_negotiate a b) eqn:E'; [done|].
      assert (version_range_negotiate a b = Some (mkProtocolVersion (major v)
        (Z.min (minor (maximum a)) (minor (maximum b))))); [|congruence].
      apply version_range_negotiate_Some. simpl. lia.
  - apply option_eq. intros v. rewrite !version_range_negotiate_Some. lia.
Qed.

Lemma version_negotiation_highest_common_witness :
  version_range_negotiate (mkProtocolVersionRange (mkProtocolVersion 1 2) (mkProtocolVersion 1 7))
    (mkProtocolVersionRange (mkProtocolVersion 1 0) (mkProtocolVersion 1 5)) =
  Some (mkProtocolVersion 1 5).
Proof.
  apply (version_negotiation_highest_common
    (mkProtocolVersionRange (mkProtocolVersion 1 2) (mkProtocolVersion 1 7))
    (mkProtocolVersionRange (mkProtocolVersion 1 0) (mkProtocolVersion 1 5)));
    unfold version_range_wf, version_in; simpl; lia.
Defined.

(** ** Validity of calls *)

Definition text_ok (maximum : Z) (s : str) : Prop := s ≠ [] ∧ len s <= maximum.

Definition call_target_ok (limits : ProtocolLimits) (app : AppInstanceId) (t : CallTarget) : Prop :=
  match t with
  | Target_Service name =>
    text_ok (Z.min (max_string_bytes limits) MAX_PROTOCOL_SERVICE_NAME_BYTES) name
  | Target_Object handle => object_app handle = app
  | Target_Runtime _ => True
  end.

(** A consistent caller: a bounded deadline, a frame only inside its own
    renderer, and a script world only inside exactly that frame. *)
Definition call_context_ok (limits : ProtocolLimits) (c : CallContext) : Prop :=
  (∀ d, ctx_deadline_ms c = Some d → d ≠ 0 ∧ d <= MAX_PROTOCOL_CALL_DEADLINE_MILLIS) ∧
  (∀ f, ctx_frame c = Some f →
     ctx_renderer c = Some (frame_renderer f) ∧
     text_ok (max_string_bytes limits) (serialized (frame_origin f))) ∧
  (∀ w, ctx_world c = Some w →
     ctx_frame c = Some (world_frame w) ∧
     (∀ k, world_kind w = World_BackendSpecific k → text_ok (max_string_bytes limits) k)).

Definition runtime_call_ok (limits : ProtocolLimits) (c : RuntimeCall) : Prop :=
  call_target_ok limits (ctx_app (call_context c)) (call_target c) ∧
  text_ok (max_string_bytes limits) (call_method c) ∧
  call_context_ok limits (call_context c) ∧
  graph_ok (call_args c) limits (Some (ctx_app (call_context c))).

Lemma call_target_validate_Ok t limits app u :
  call_target_validate t limits app = Ok u ↔ call_target_ok limits app t.
Proof.
  destruct t; simpl; [apply validate_text_Ok| |destruct u; naive_solver].
  rewrite reject_Ok, negb_false_iff, bool_decide_eq_true. done.
Qed.

Lemma validate_call_context_Ok c limits u :
  validate_call_context c limits = Ok u ↔ call_context_ok limits c.
Proof.
  destruct c as [app r f w auth d tp]; unfold validate_call_context, call_context_ok; simpl.
  destruct u. rewrite !result_bind_Ok. split.
  - intros (u1 & Hd & H). rewrite !result_bind_Ok in H. destruct H as (u2 & Hr & H).
    rewrite !result_bind_Ok in H. destruct H as (u3 & Hf & Hw). split_and!.
    + intros d' ->. inv_ok. lia.
    + intros f' ->. apply validate_text_Ok in Hf. destruct r; [|done].
      apply reject_Ok, negb_false_iff, bool_decide_eq_true in Hr as ->. done.
    + intros w' ->. inv_ok. apply negb_false_iff, bool_decide_eq_true in H0 as <-.
      split; [done|]. intros k Hk. rewrite Hk in Hw. by apply validate_text_Ok in Hw.
  - intros (Hd & Hf & Hw). exists tt. split.
    { destruct d as [d|]; [|done]. destruct (Hd d eq_refl).
      unfold reject. destruct (Z.eqb_spec d 0); [done|]. simpl.
      by destruct (Z.ltb_spec MAX_PROTOCOL_CALL_DEADLINE_MILLIS d); [lia|]. }
    destruct f as [f|].
    + destruct (Hf f eq_refl) as [-> Htext]. rewrite bool_decide_eq_true_2 by done. simpl.
      rewrite (proj2 (validate_text_Ok _ _ _ tt) Htext). simpl.
      destruct w as [w|]; [|done]. destruct (Hw w eq_refl) as [[= ->] Hk]. simpl.
      rewrite bool_decide_eq_true_2 by done. simpl.
      destruct (world_kind w); try done. apply validate_text_Ok. by apply Hk.
    + destruct r; simpl; (destruct w as [w|]; [by destruct (Hw w eq_refl)|done]).
Qed.

(** ** Larger limits accept more *)

Lemma text_ok_mono m m' s : m <= m' → text_ok m s → text_ok m' s.
Proof. unfold text_ok. naive_solver lia. Qed.

Lemma opt_text_ok_mono m m' o : m <= m' → opt_text_ok m o → opt_text_ok m' o.
Proof. destruct o; simpl; [lia|done]. Qed.

Lemma node_ok_mono l l' app v : limits_le l l' → node_ok l app v → node_ok l' app v.
Proof.
  intros (_ & _ & _ & Hs & Hb & _) [Hown Hok]. split; [done|].
  destruct v; try done.
  - destruct Hok. split; [done|lia].
  - lia.
  - lia.
  - destruct Hok as [Hkeys ?]. split; [|done]. eapply Forall_impl; [done|]. simpl. lia.
  - destruct Hok as (? & ? & ?). split_and!; [lia..|done].
  - destruct value. destruct Hok as (? & ? & ? & ? & ? & Hkeys).
    split_and!; [lia|lia|by eapply opt_text_ok_mono|by eapply opt_text_ok_mono|
      by eapply opt_text_ok_mono|]. eapply Forall_impl; [done|]. simpl. lia.
  - destruct Hok as (? & ? & ?). split_and!; [lia..|]. destruct storage; [lia|done..].
Qed.

Lemma value_ok_mono l l' app v : limits_le l l' → value_ok l app v → value_ok l' app v.
Proof.
  intros Hle. induction v as [v IH] using wire_value_ind'.
  rewrite !value_ok_inv. intros [Hnode Hch]. split; [by eapply node_ok_mono|].
  rewrite Forall_forall in *. auto.
Qed.

Lemma graph_ok_mono roots l l' app :
  limits_le l l' → limits_validate l' = Ok tt → graph_ok roots l app → graph_ok roots l' app.
Proof.
  intros Hle Hv (_ & Hall & Hn & Hd & Hh). pose proof Hle as (_ & ? & ? & _ & _ & _ & ? & _).
  split_and!; [done| |lia..]. eapply Forall_impl; [done|]. intros. by eapply value_ok_mono.
Qed.

Lemma runtime_call_ok_mono l l' c :
  limits_le l l' → limits_validate l' = Ok tt → runtime_call_ok l c → runtime_call_ok l' c.
Proof.
  intros Hle Hv (Ht & Hm & (Hd & Hf & Hw) & Hg). pose proof Hle as (_ & _ & _ & Hs & _).
  split_and!; [|by eapply text_ok_mono| |by eapply graph_ok_mono].
  - destruct (call_target c); simpl in *; [|done..]. eapply text_ok_mono; [|done]. lia.
  - split_and!; [done| |].
    + intros f Hf'. destruct (Hf f Hf'). split; [done|]. by eapply text_ok_mono.
    + intros w Hw'. destruct (Hw w Hw') as [? Hk]. split; [done|].
      intros k Hk'. eapply text_ok_mono; [done|]. by apply Hk.
Qed.

Section Calls.
Context `{Alloc : Allocator}.

Lemma runtime_call_validate_sound call limits u :
  limits_wf limits → runtime_call_validate call limits = Ok u → runtime_call_ok limits call.
Proof.
  intros Hwf. unfold runtime_call_validate, runtime_call_ok. intros H. inv_ok.
  apply call_target_validate_Ok in H1. apply validate_text_Ok in H2.
  apply validate_call_context_Ok in H3.
  apply validate_graph_sound in H4 as [? _]; [by split_and!|done].
Qed.

Hypothesis Hample : ample Alloc.

Lemma runtime_call_validate_complete call limits :
  limits_wf limits → runtime_call_ok limits call → runtime_call_validate call limits = Ok tt.
Proof.
  intros Hwf (Ht & Hm & Hc & Hg). unfold runtime_call_validate.
  pose proof Hg as (Hlim & _). rewrite Hlim. simpl.
  rewrite (proj2 (call_target_validate_Ok _ _ _ tt) Ht). simpl.
  rewrite (proj2 (validate_text_Ok _ _ _ tt) Hm). simpl.
  rewrite (proj2 (validate_call_context_Ok _ _ tt) Hc). simpl.
  unfold validate_wire_value_graph_for_app. by rewrite validate_graph_complete.
Qed.

(** a call passes [RuntimeCall::validate] exactly when it is well formed:
    its target exists in the caller's application, its method is named, its
    deadline is bounded, its frame belongs to its renderer and its script
    world to its frame, and its argument graph fits the limits and carries
    only handles of the caller's application. *)
Theorem runtime_call_validate_exact call limits :
  limits_wf limits →
  runtime_call_validate call limits = Ok tt ↔ runtime_call_ok limits call.
Proof.
  intros Hwf. split; [by apply runtime_call_validate_sound|].
  by apply runtime_call_validate_complete.
Qed.

(** ** What a peer sends is what the other side reads *)

Lemma secure_default_valid : limits_validate secure_default = Ok tt.
Proof. done. Qed.

Lemma graph_deserializes roots limits app b :
  limits_wf limits → limits_le limits secure_default →
  validate_wire_value_graph_with_app roots limits app = Ok b →
  validate_wire_value_graph_with_app roots secure_default app = Ok b.
Proof.
  intros Hwf Hle [Hok ->]%validate_graph_sound; [|done].
  apply validate_graph_complete; [done|apply secure_default_wf|].
  by eapply graph_ok_mono.
Qed.

Lemma runtime_call_deserializes call limits u :
  limits_wf limits → limits_le limits secure_default →
  runtime_call_validate call limits = Ok u → runtime_call_deserialize call = Ok call.
Proof.
  intros Hwf Hle Hok%runtime_call_validate_sound; [|done].
  eapply runtime_call_ok_mono in Hok; [|done|apply secure_default_valid].
  unfold runtime_call_deserialize.
  assert (call_target_deserialize (call_target call) = Ok (call_target call)) as ->.
  { destruct Hok as (Ht & _). destruct (call_target call); [|done..]. simpl.
    unfold call_target_service. destruct Ht.
    by rewrite (proj2 (validate_text_Ok _ _ _ tt)) by (split; [done|simpl in *; lia]). }
  simpl. unfold runtime_call_new.
  replace (mkRuntimeCall _ _ _ _) with call by (by destruct call).
  rewrite runtime_call_validate_complete; [done|apply secure_default_wf|done].
Qed.

Lemma call_result_deserializes r limits u :
  limits_wf limits → limits_le limits secure_default →
  call_result_validate r limits = Ok u → call_result_deserialize r = Ok r.
Proof.
  unfold call_result_validate, call_result_deserialize, call_result_new, validate_wire_value_graph.
  intros Hwf Hle H. inv_ok. erewrite graph_deserializes by done. by destruct r.
Qed.

Lemma call_error_deserializes r limits u :
  limits_wf limits → limits_le limits secure_default →
  call_error_validate r limits = Ok u → call_error_deserialize r = Ok r.
Proof.
  unfold call_error_validate, call_error_deserialize, call_error_new, validate_wire_value_graph.
  intros Hwf Hle H. inv_ok. erewrite graph_deserializes by done. by destruct r.
Qed.

Lemma runtime_event_deserializes e limits u :
  limits_wf limits → limits_le limits secure_default →
  runtime_event_validate e limits = Ok u → runtime_event_deserialize e = Ok e.
Proof.
  unfold runtime_event_deserialize, runtime_event_new, runtime_event_validate,
    validate_wire_value_graph.
  intros Hwf Hle H. inv_ok. pose proof Hle as (_ & _ & _ & Hs & _).
  apply validate_text_Ok in H0. cbn [event_name event_args].
  rewrite (proj2 (validate_text_Ok _ _ _ tt)) by naive_solver lia.
  cbn [result_bind]. erewrite graph_deserializes by done. by destruct e.
Qed.

Lemma stream_data_deserializes d limits u :
  limits_le limits secure_default →
  stream_data_validate d limits = Ok u → stream_data_deserialize d = Ok d.
Proof.
  unfold stream_data_deserialize, stream_data_new, stream_data_validate, validate_stream_data.
  intros Hle H. inv_ok. pose proof Hle as (_ & _ & _ & _ & Hb & _).
  apply validate_inline_bytes_Ok in H. rewrite secure_default_valid. simpl.
  rewrite H1, H2. cbn [reject result_bind].
  rewrite (proj2 (validate_inline_bytes_Ok _ _ tt)); [by destruct d|].
  simpl in *. lia.
Qed.
End Calls.

(** A call from a script world in the main frame of a renderer. *)
Definition sample_call : RuntimeCall :=
  let frame := mkFrameIdentity 5 1 1 None (mkOriginIdentity (lit "https://a") false) true in
  mkRuntimeCall (Target_Service (lit "fs")) (lit "read")
    [Wire_Handle (mkObjectHandle 7 1 1 Object_App)]
    (mkCallContext 7 (Some 5) (Some frame) (Some (mkWorldIdentity frame 1 1 World_Main))
       call_authority_default (Some 1000) None).

Lemma runtime_call_validate_exact_witness :
  runtime_call_validate (Alloc := ample_allocator) sample_call secure_default = Ok tt ∧
  runtime_call_ok secure_default sample_call.
Proof.
  assert (runtime_call_validate (Alloc := ample_allocator) sample_call secure_default = Ok tt) as H
    by (vm_compute; reflexivity).
  split; [exact H|].
  apply (runtime_call_validate_exact (Alloc := ample_allocator) ample_allocator_ample
    sample_call secure_default secure_default_wf). exact H.
Defined.

(** ** Values built by the constructors deserialize to themselves *)

Definition version_built (v : ProtocolVersion) : Prop :=
  protocol_version_new (major v) (minor v) = Ok v.
Definition version_range_built (r : ProtocolVersionRange) : Prop :=
  version_built (minimum r) ∧ version_built (maximum r) ∧
  version_range_new (minimum r) (maximum r) = Ok r.
Definition backend_built (b : RuntimeBackendIdentity) : Prop :=
  backend_identity_new (backend_id b) (backend_version b) = Ok b.
Definition heartbeat_built (h : HeartbeatPolicy) : Prop :=
  heartbeat_policy_new (interval_millis h) (timeout_millis h) = Ok h.

Lemma version_new_built a b v : protocol_version_new a b = Ok v → version_built v.
Proof.
  unfold version_built, protocol_version_new, reject.
  destruct (a =? 0) eqn:E; simpl; [done|]. intros [= <-]. simpl. by rewrite E.
Qed.

Lemma version_range_deserializes r :
  version_range_built r → version_range_deserialize r = Ok r.
Proof.
  intros (Hlo & Hhi & Hr). unfold version_range_deserialize, protocol_version_deserialize.
  by rewrite Hlo, Hhi.
Qed.

(** The range of the first protocol version is one that peers can exchange. *)
Lemma version_range_g1_built r : version_range_g1 = Ok r → version_range_built r.
Proof. intros [= <-]. done. Qed.

Lemma runtime_hello_deserializes m u a b c d e f g :
  backend_built c → version_range_built d → runtime_hello_new a b c d e f g = Ok m →
  map_err Limits (limits_validate (hello_requested_limits m)) = Ok u →
  runtime_hello_deserialize m = Ok m.
Proof.
  intros Hb Hr Hnew _. unfold runtime_hello_deserialize, backend_identity_deserialize.
  assert (hello_backend m = c ∧ hello_protocol_range m = d) as [-> ->].
  { unfold runtime_hello_new in Hnew. by inv_ok. }
  rewrite Hb. simpl. rewrite version_range_deserializes by done. simpl.
  unfold runtime_hello_new in *. inv_ok. simpl.
  by repeat match goal with H : _ = _ |- _ => rewrite H end.
Qed.

Lemma runtime_welcome_deserializes m a b c d e f :
  version_built b → heartbeat_built e → runtime_welcome_new a b c d e f = Ok m →
  runtime_welcome_deserialize m = Ok m.
Proof.
  unfold runtime_welcome_new. intros Hv Hh Hnew. inv_ok.
  unfold runtime_welcome_deserialize, protocol_version_deserialize, heartbeat_policy_deserialize,
    runtime_welcome_new. simpl. rewrite Hv. simpl. rewrite Hh. simpl.
  by match goal with H : limits_validate _ = _ |- _ => rewrite H end.
Qed.

Lemma protocol_reject_deserializes m code detail :
  protocol_reject_new code detail = Ok m → protocol_reject_deserialize m = Ok m.
Proof.
  unfold protocol_reject_deserialize, protocol_reject_new. intros H. inv_ok. simpl. by rewrite H0.
Qed.

Lemma runtime_cancel_deserializes m id :
  runtime_cancel_new id = Ok m → runtime_cancel_deserialize m = Ok m.
Proof.
  unfold runtime_cancel_deserialize, runtime_cancel_new.
  destruct (id =? 0) eqn:E; [done|]. intros [= <-]. simpl. by rewrite E.
Qed.

Lemma stream_open_deserializes m s c :
  stream_open_new s c = Ok m → stream_open_deserialize m = Ok m.
Proof.
  unfold stream_open_deserialize, stream_open_new.
  destruct (c =? 0) eqn:E; [done|]. intros [= <-]. simpl. by rewrite E.
Qed.

Lemma stream_window_deserializes m s c :
  stream_window_new s c = Ok m → stream_window_deserialize m = Ok m.
Proof.
  unfold stream_window_deserialize, stream_window_new.
  destruct (c =? 0) eqn:E; [done|]. intros [= <-]. simpl. by rewrite E.
Qed.
