(* ===== verification/MessagePack.v ===== *)
(** * MessagePack: the structural preflight of payloads

    Models [inspect_messagepack] and [MessagePackCursor] of
    [crates/weregopher-runtime-protocol/src/codec.rs].  The cursor is a method
    state (the byte offset); the traversal keeps the number of values still
    expected at every open depth, innermost first.

    The specification is a tree: a payload is accepted exactly when it is the
    encoding of one tree of the MessagePack format without extension types,
    within the limits, and the reported budget is the size and depth of that
    tree.  One unit of fuel per payload byte, and two more, are enough: every
    iteration consumes a marker byte ([mp_loop_terminates]). *)

From S2P Require Import Prelude Wire.

Inductive MessagePackError : Type :=
| Mp_Empty
| Mp_Truncated (offset : Z)
| Mp_TrailingBytes (offset : Z)
| Mp_ExtensionType (marker : Z)
| Mp_ReservedMarker
| Mp_InvalidUtf8 (offset : Z)
| Mp_ChildCountOverflow
| Mp_FrameBytesExceeded (maximum actual : Z)
| Mp_NodesExceeded (maximum actual : Z)
| Mp_DepthExceeded (maximum actual : Z)
| Mp_StringBytesExceeded (maximum actual : Z)
| Mp_BinaryBytesExceeded (maximum actual : Z)
| Mp_BudgetAllocationFailed
| Mp_InvalidObservedBudget
| Mp_InvalidLimits (e : ProtocolLimitError).

Record MessagePackBudget : Type := mkMessagePackBudget {
  mp_nodes : Z;
  mp_maximum_depth : Z
}.

Definition messagepack_budget_new (nodes maximum_depth : Z) :
    result MessagePackBudget MessagePackError :=
  if (nodes =? 0) || (maximum_depth =? 0) || (nodes <? maximum_depth)
  then Err Mp_InvalidObservedBudget
  else Ok (mkMessagePackBudget nodes maximum_depth).

(** ** The cursor *)

Section Cursor.
Variable (bs : bytes).

Abbreviation cursor := (mut Z MessagePackError).

Definition cursor_take (length : Z) : cursor bytes :=
  let* offset := mut_get in
  let* stop := mut_lift (ok_or (checked_add usize_max offset length) (Mp_Truncated offset)) in
  let* value := mut_lift (ok_or (slice bs offset stop) (Mp_Truncated offset)) in
  do* mut_put stop in
  mut_ret value.

Definition cursor_skip (length : Z) : cursor unit :=
  do* cursor_take length in mut_ret tt.

Definition read_u8 : cursor Z :=
  let* value := cursor_take 1 in
  let* offset := mut_get in
  mut_lift (ok_or (byte_val <$> head value) (Mp_Truncated offset)).

Definition read_u16 : cursor Z :=
  let* value := cursor_take 2 in mut_ret (be_val value).

Definition read_u32 : cursor Z :=
  let* value := cursor_take 4 in mut_ret (be_val value).

Definition map_children (entries : Z) : result Z MessagePackError :=
  ok_or (checked_mul u64_max entries 2) Mp_ChildCountOverflow.

Definition read_string (length : Z) (limits : ProtocolLimits) : cursor unit :=
  do* mut_lift (reject (max_string_bytes limits <? length)
    (Mp_StringBytesExceeded (max_string_bytes limits) length)) in
  let* start := mut_get in
  let* value := cursor_take length in
  mut_lift (reject (negb (utf8_valid value)) (Mp_InvalidUtf8 start)).

Definition read_binary (length : Z) (limits : ProtocolLimits) : cursor unit :=
  do* mut_lift (reject (max_inline_buffer_bytes limits <? length)
    (Mp_BinaryBytesExceeded (max_inline_buffer_bytes limits) length)) in
  cursor_skip length.

(** One value's marker and scalar body; the result is the number of children.
    [marker & 0x0f] and [marker & 0x1f] are written with [Z.land]. *)
Definition read_value (limits : ProtocolLimits) : cursor Z :=
  let* marker := read_u8 in
  if (in_range 0x00 0x7f marker || in_range 0xe0 0xff marker || (marker =? 0xc0) ||
      (marker =? 0xc2) || (marker =? 0xc3)) then mut_ret 0
  else if in_range 0x80 0x8f marker then mut_lift (map_children (Z.land marker 0x0f))
  else if in_range 0x90 0x9f marker then mut_ret (Z.land marker 0x0f)
  else if in_range 0xa0 0xbf marker then
    do* read_string (Z.land marker 0x1f) limits in mut_ret 0
  else if marker =? 0xc1 then mut_lift (Err Mp_ReservedMarker)
  else if marker =? 0xc4 then
    let* length := read_u8 in do* read_binary length limits in mut_ret 0
  else if marker =? 0xc5 then
    let* length := read_u16 in do* read_binary length limits in mut_ret 0
  else if marker =? 0xc6 then
    let* length := read_u32 in do* read_binary length limits in mut_ret 0
  else if in_range 0xc7 0xc9 marker || in_range 0xd4 0xd8 marker then
    mut_lift (Err (Mp_ExtensionType marker))
  else if (marker =? 0xca) || (marker =? 0xce) || (marker =? 0xd2) then
    do* cursor_skip 4 in mut_ret 0
  else if (marker =? 0xcb) || (marker =? 0xcf) || (marker =? 0xd3) then
    do* cursor_skip 8 in mut_ret 0
  else if (marker =? 0xcc) || (marker =? 0xd0) then
    do* cursor_skip 1 in mut_ret 0
  else if (marker =? 0xcd) || (marker =? 0xd1) then
    do* cursor_skip 2 in mut_ret 0
  else if marker =? 0xd9 then
    let* length := read_u8 in do* read_string length limits in mut_ret 0
  else if marker =? 0xda then
    let* length := read_u16 in do* read_string length limits in mut_ret 0
  else if marker =? 0xdb then
    let* length := read_u32 in do* read_string length limits in mut_ret 0
  else if marker =? 0xdc then read_u16
  else if marker =? 0xdd then read_u32
  else if marker =? 0xde then
    let* entries := read_u16 in mut_lift (map_children entries)
  else
    let* entries := read_u32 in mut_lift (map_children entries).

(** ** The traversal *)

(** [while remaining_by_depth.last() == Some(&0) { remaining_by_depth.pop(); }]. *)
Fixpoint pop_finished (remaining_by_depth : list Z) : list Z :=
  match remaining_by_depth with
  | remaining :: rest => if remaining =? 0 then pop_finished rest else remaining_by_depth
  | [] => []
  end.

(** The checks and the push that follow the reading of a value at [depth]. *)
Definition push_level (limits : ProtocolLimits) (depth children : Z)
    (remaining_by_depth : list Z) : result (list Z) MessagePackError :=
  if negb (children =? 0) then
    let? child_depth := ok_or (checked_add u16_max depth 1)
      (Mp_DepthExceeded (max_object_depth limits) u16_max) in
    do? reject (max_object_depth limits <? child_depth)
      (Mp_DepthExceeded (max_object_depth limits) child_depth) in
    Ok (children :: remaining_by_depth)
  else Ok remaining_by_depth.

(** The depth and node checks at the head of the loop body: the new maximum
    depth and node count. *)
Definition enter_value (limits : ProtocolLimits) (depth nodes maximum_depth : Z) :
    result (Z * Z) MessagePackError :=
  do? reject (u16_max <? depth) (Mp_DepthExceeded (max_object_depth limits) u16_max) in
  do? reject (max_object_depth limits <? depth)
    (Mp_DepthExceeded (max_object_depth limits) depth) in
  let? nodes := ok_or (checked_add u32_max nodes 1) Mp_ChildCountOverflow in
  do? reject (max_graph_nodes limits <? nodes)
    (Mp_NodesExceeded (max_graph_nodes limits) nodes) in
  Ok (nodes, Z.max maximum_depth depth).

Fixpoint mp_loop (fuel : nat) (limits : ProtocolLimits) (remaining_by_depth : list Z)
    (offset nodes maximum_depth : Z) : option (result (Z * Z * Z) MessagePackError) :=
  match fuel with
  | O => None
  | S fuel =>
    match pop_finished remaining_by_depth with
    | [] => Some (Ok (offset, nodes, maximum_depth))
    | remaining :: outer =>
      let remaining_by_depth := (remaining - 1) :: outer in
      let depth := len remaining_by_depth in
      match enter_value limits depth nodes maximum_depth with
      | Err e => Some (Err e)
      | Ok (nodes, maximum_depth) =>
        match read_value limits offset with
        | (Err e, _) => Some (Err e)
        | (Ok children, offset) =>
          match push_level limits depth children remaining_by_depth with
          | Err e => Some (Err e)
          | Ok remaining_by_depth =>
            mp_loop fuel limits remaining_by_depth offset nodes maximum_depth
          end
        end
      end
    end
  end.
End Cursor.

Definition inspect_messagepack `{Alloc : Allocator} (payload : bytes) (limits : ProtocolLimits) :
    result MessagePackBudget MessagePackError :=
  do? map_err Mp_InvalidLimits (limits_validate limits) in
  do? reject (max_frame_bytes limits <? len payload)
    (Mp_FrameBytesExceeded (max_frame_bytes limits) (len payload)) in
  do? reject (len payload =? 0) Mp_Empty in
  do? reject (negb (try_reserve (max_object_depth limits))) Mp_BudgetAllocationFailed in
  match mp_loop payload (length payload + 2) limits [1] 0 0 0 with
  | None => Err Mp_ChildCountOverflow
  | Some (Err e) => Err e
  | Some (Ok (offset, nodes, maximum_depth)) =>
    do? reject (negb (offset =? len payload)) (Mp_TrailingBytes offset) in
    messagepack_budget_new nodes maximum_depth
  end.

(** ** Specification: the trees of the format *)

(** The heads of values: the bytes before the first child, and the number of
    children.  The table follows the MessagePack specification; a length may be
    written in any of the admissible prefix widths. *)
Inductive mp_head (limits : ProtocolLimits) : bytes → Z → Prop :=
| head_fixint b : byte_val b < 0x80 ∨ 0xe0 <= byte_val b → mp_head limits [b] 0
| head_nil_bool m : m ∈ [0xc0; 0xc2; 0xc3] → mp_head limits [byte_of m] 0
| head_number m w body :
    (m, w) ∈ [(0xcc, 1); (0xcd, 2); (0xce, 4); (0xcf, 8); (0xd0, 1); (0xd1, 2);
              (0xd2, 4); (0xd3, 8); (0xca, 4); (0xcb, 8)] →
    len body = w → mp_head limits (byte_of m :: body) 0
| head_fixstr s :
    len s < 32 → len s <= max_string_bytes limits → utf8_valid s = true →
    mp_head limits (byte_of (0xa0 + len s) :: s) 0
| head_str m w s :
    (m, w) ∈ [(0xd9, 1%nat); (0xda, 2%nat); (0xdb, 4%nat)] →
    len s < 256 ^ Z.of_nat w → len s <= max_string_bytes limits → utf8_valid s = true →
    mp_head limits (byte_of m :: be_bytes w (len s) ++ s) 0
| head_bin m w s :
    (m, w) ∈ [(0xc4, 1%nat); (0xc5, 2%nat); (0xc6, 4%nat)] →
    len s < 256 ^ Z.of_nat w → len s <= max_inline_buffer_bytes limits →
    mp_head limits (byte_of m :: be_bytes w (len s) ++ s) 0
| head_fixarray n : 0 <= n < 16 → mp_head limits [byte_of (0x90 + n)] n
| head_fixmap n : 0 <= n < 16 → mp_head limits [byte_of (0x80 + n)] (2 * n)
| head_array m w n :
    (m, w) ∈ [(0xdc, 2%nat); (0xdd, 4%nat)] → 0 <= n < 256 ^ Z.of_nat w →
    mp_head limits (byte_of m :: be_bytes w n) n
| head_map m w n :
    (m, w) ∈ [(0xde, 2%nat); (0xdf, 4%nat)] → 0 <= n < 256 ^ Z.of_nat w →
    mp_head limits (byte_of m :: be_bytes w n) (2 * n).

Inductive mp_tree : Type := MpTree (hd : bytes) (children : list mp_tree).

Definition tree_children (t : mp_tree) : list mp_tree :=
  match t with MpTree _ cs => cs end.
Fixpoint mp_encode (t : mp_tree) : bytes :=
  match t with MpTree h cs => h ++ concat (map mp_encode cs) end.
Fixpoint tree_nodes (t : mp_tree) : nat :=
  match t with MpTree _ cs => S (sum_list_with tree_nodes cs) end.
Fixpoint tree_depth (t : mp_tree) : nat :=
  match t with MpTree _ cs => S (max_list_with tree_depth cs) end.

Inductive tree_wf (limits : ProtocolLimits) : mp_tree → Prop :=
| tree_wf_node h cs :
    mp_head limits h (len cs) → Forall (tree_wf limits) cs → tree_wf limits (MpTree h cs).

(** What the preflight accepts, and what it reports. *)
Definition payload_ok (limits : ProtocolLimits) (payload : bytes) (b : MessagePackBudget) : Prop :=
  limits_validate limits = Ok tt ∧ len payload <= max_frame_bytes limits ∧
  ∃ t, mp_encode t = payload ∧ tree_wf limits t ∧
    mp_nodes b = Z.of_nat (tree_nodes t) ∧ mp_maximum_depth b = Z.of_nat (tree_depth t) ∧
    mp_nodes b <= max_graph_nodes limits ∧ mp_maximum_depth b <= max_object_depth limits.

(** [{"a": [1, true], "b": "xy"}]. *)
Example inspect_sample :
  inspect_messagepack (Alloc := ample_allocator)
    (map byte_of [0x82; 0xa1; 0x61; 0x92; 0x01; 0xc3; 0xa1; 0x62; 0xa2; 0x78; 0x79])
    secure_default = Ok (mkMessagePackBudget 7 3).
Proof. vm_compute. reflexivity. Qed.

(** ** Laws of the cursor *)

Lemma be_val_bytes n z : 0 <= z < 256 ^ Z.of_nat n → be_val (be_bytes n z) = z.
Proof. intros. unfold be_val, be_bytes. rewrite rev_involutive. by apply le_val_bytes. Qed.

Lemma be_bytes_val n l : length l = n → be_bytes n (be_val l) = l.
Proof.
  intros <-. unfold be_val, be_bytes. rewrite <-length_rev, le_bytes_val. apply rev_involutive.
Qed.

Lemma be_bytes_len n z : len (be_bytes n z) = Z.of_nat n.
Proof. unfold be_bytes, len. by rewrite length_rev, le_bytes_length. Qed.

Lemma be_val_range l : 0 <= be_val l < 256 ^ len l.
Proof. unfold be_val. pose proof (le_val_range (rev l)). unfold len in *. by rewrite length_rev in H. Qed.

Section CursorLaws.
Variables (bs : bytes) (limits : ProtocolLimits).

(** The cursor stands at offset [o] with [rest] still to read. *)
Definition at_pos (o : Z) (rest : bytes) : Prop := ∃ pre, bs = pre ++ rest ∧ len pre = o.

Lemma at_pos_app o v r : at_pos o (v ++ r) → at_pos (o + len v) r.
Proof.
  intros (pre & -> & <-). exists (pre ++ v). by rewrite <-app_assoc, len_app.
Qed.

Lemma at_pos_len o r : at_pos o r → 0 <= o ∧ o + len r = len bs.
Proof. intros (pre & -> & <-). rewrite len_app. pose proof (len_nonneg pre). lia. Qed.

Lemma at_pos_inj o r r' : at_pos o r → at_pos o r' → r = r'.
Proof.
  intros (p & Heq & Hp) (p' & Heq' & Hp'). rewrite Heq in Heq'.
  apply app_inj_1 in Heq' as [_ ?]; [done|].
  unfold len in *. lia.
Qed.

Lemma cursor_take_ok o v r n :
  len bs <= usize_max → at_pos o (v ++ r) → len v = n →
  cursor_take bs n o = (Ok v, o + n).
Proof.
  intros Hmax Hpos <-. pose proof (at_pos_len _ _ Hpos) as [? Hl]. rewrite len_app in Hl.
  pose proof (len_nonneg r). pose proof (len_nonneg v).
  unfold cursor_take, mut_bind, mut_get, mut_lift, mut_put, mut_ret.
  rewrite (proj2 (checked_add_Some usize_max o (len v) (o + len v))) by lia. simpl.
  destruct Hpos as (pre & Hbs & Hpre).
  rewrite (proj2 (slice_Some bs o (o + len v) v)); [done|].
  split_and!; [lia..|]. exists pre, r. split_and!; [done..|lia].
Qed.

Lemma cursor_take_inv o rest n v o' :
  at_pos o rest → cursor_take bs n o = (Ok v, o') →
  ∃ r, rest = v ++ r ∧ len v = n ∧ o' = o + n ∧ at_pos o' r.
Proof.
  intros Hpos. unfold cursor_take, mut_bind, mut_get, mut_lift, mut_put, mut_ret.
  destruct (checked_add _ _ _) as [stop|] eqn:Hadd; simpl; [|done].
  destruct (slice bs o stop) as [v'|] eqn:Hs; simpl; [|done]. intros [= -> <-].
  apply checked_add_Some in Hadd as [-> _].
  apply slice_Some in Hs as (? & ? & pre & r & Hbs & Hpre & Hv).
  assert (at_pos o (v ++ r)) as Hpos' by (by exists pre).
  exists r. split_and!; [by eapply at_pos_inj|lia|done|].
  replace (o + n) with (o + len v) by lia. by apply at_pos_app.
Qed.

Lemma read_u8_ok o b r :
  len bs <= usize_max → at_pos o (b :: r) → read_u8 bs o = (Ok (byte_val b), o + 1).
Proof.
  intros Hmax Hpos. unfold read_u8, mut_bind at 1.
  by rewrite (cursor_take_ok o [b] r 1).
Qed.

Lemma read_u8_inv o rest x o' :
  at_pos o rest → read_u8 bs o = (Ok x, o') →
  ∃ b r, rest = b :: r ∧ x = byte_val b ∧ o' = o + 1 ∧ at_pos o' r.
Proof.
  intros Hpos. unfold read_u8, mut_bind at 1.
  destruct (cursor_take bs 1 o) as [[v|] o1] eqn:Ht; [|done].
  apply (cursor_take_inv _ _ _ _ _ Hpos) in Ht as (r & -> & Hv & -> & Hpos').
  destruct v as [|b [|]]; [done| |unfold len in Hv; simpl in Hv; lia].
  intros [= <- <-]. by exists b, r.
Qed.

(** Length prefixes: [n] big-endian bytes read by [read_u8/16/32]. *)
Inductive prefix_reader : nat → mut Z MessagePackError Z → Prop :=
| prefix_u8 : prefix_reader 1 (read_u8 bs)
| prefix_u16 : prefix_reader 2 (read_u16 bs)
| prefix_u32 : prefix_reader 4 (read_u32 bs).

Lemma prefix_ok w rd o x r :
  len bs <= usize_max → prefix_reader w rd → 0 <= x < 256 ^ Z.of_nat w →
  at_pos o (be_bytes w x ++ r) → rd o = (Ok x, o + Z.of_nat w).
Proof.
  intros Hmax Hrd Hx Hpos. destruct Hrd.
  - simpl in *. erewrite read_u8_ok by done. rewrite byte_val_of, Z.mod_small by lia. done.
  - unfold read_u16, mut_bind. erewrite (cursor_take_ok o _ r 2); [|done..].
    unfold mut_ret. by rewrite be_val_bytes.
  - unfold read_u32, mut_bind. erewrite (cursor_take_ok o _ r 4); [|done..].
    unfold mut_ret. by rewrite be_val_bytes.
Qed.

Lemma prefix_inv w rd o rest x o' :
  prefix_reader w rd → at_pos o rest → rd o = (Ok x, o') →
  ∃ r, rest = be_bytes w x ++ r ∧ 0 <= x < 256 ^ Z.of_nat w ∧ o' = o + Z.of_nat w ∧ at_pos o' r.
Proof.
  intros Hrd Hpos. destruct Hrd.
  - intros H. apply (read_u8_inv _ _ _ _ Hpos) in H as (b & r & -> & -> & -> & Hpos').
    exists r. pose proof (byte_val_range b). split_and!; [|lia..|done].
    unfold be_bytes. simpl. by rewrite byte_of_val.
  - unfold read_u16, mut_bind. destruct (cursor_take bs 2 o) as [[v|] o1] eqn:Ht; [|done].
    apply (cursor_take_inv _ _ _ _ _ Hpos) in Ht as (r & -> & Hv & -> & Hpos'). intros [= <- <-].
    exists r. pose proof (be_val_range v). rewrite be_bytes_val by (unfold len in *; lia).
    rewrite Hv in *. change (Z.of_nat 2) with 2. change (Z.of_nat 4) with 4. split_and!; [done|lia..|done].
  - unfold read_u32, mut_bind. destruct (cursor_take bs 4 o) as [[v|] o1] eqn:Ht; [|done].
    apply (cursor_take_inv _ _ _ _ _ Hpos) in Ht as (r & -> & Hv & -> & Hpos'). intros [= <- <-].
    exists r. pose proof (be_val_range v). rewrite be_bytes_val by (unfold len in *; lia).
    rewrite Hv in *. change (Z.of_nat 2) with 2. change (Z.of_nat 4) with 4. split_and!; [done|lia..|done].
Qed.

Lemma read_string_ok o s r :
  len bs <= usize_max → at_pos o (s ++ r) → len s <= max_string_bytes limits →
  utf8_valid s = true → read_string bs (len s) limits o = (Ok tt, o + len s).
Proof.
  intros Hmax Hpos Hs Hu. unfold read_string, mut_bind, mut_lift, mut_get, reject.
  destruct (Z.ltb_spec (max_string_bytes limits) (len s)); [lia|].
  erewrite cursor_take_ok by done. by rewrite Hu.
Qed.

Lemma read_string_inv o rest n u o' :
  at_pos o rest → read_string bs n limits o = (Ok u, o') →
  ∃ s r, rest = s ++ r ∧ n = len s ∧ len s <= max_string_bytes limits ∧ utf8_valid s = true ∧
    o' = o + len s ∧ at_pos o' r.
Proof.
  intros Hpos. unfold read_string, mut_bind, mut_lift, mut_get, reject.
  destruct (Z.ltb_spec (max_string_bytes limits) n); [done|].
  destruct (cursor_take bs n o) as [[v|] o1] eqn:Ht; [|done].
  apply (cursor_take_inv _ _ _ _ _ Hpos) in Ht as (r & -> & Hv & -> & Hpos').
  destruct (utf8_valid v) eqn:Hu; [|done]. intros [= _ <-].
  exists v, r. split_and!; try done; lia.
Qed.

Lemma cursor_skip_ok o s r n :
  len bs <= usize_max → at_pos o (s ++ r) → len s = n → cursor_skip bs n o = (Ok tt, o + n).
Proof. intros. unfold cursor_skip, mut_bind. by erewrite cursor_take_ok. Qed.

Lemma cursor_skip_inv o rest n u o' :
  at_pos o rest → cursor_skip bs n o = (Ok u, o') →
  ∃ s r, rest = s ++ r ∧ len s = n ∧ o' = o + len s ∧ at_pos o' r.
Proof.
  intros Hpos. unfold cursor_skip, mut_bind.
  destruct (cursor_take bs n o) as [[v|] o1] eqn:Ht; [|done].
  apply (cursor_take_inv _ _ _ _ _ Hpos) in Ht as (r & -> & Hv & -> & Hpos'). intros [= _ <-].
  exists v, r. split_and!; try done. lia.
Qed.

Lemma read_binary_ok o s r :
  len bs <= usize_max → at_pos o (s ++ r) → len s <= max_inline_buffer_bytes limits →
  read_binary bs (len s) limits o = (Ok tt, o + len s).
Proof.
  intros. unfold read_binary, mut_bind, mut_lift, reject.
  destruct (Z.ltb_spec (max_inline_buffer_bytes limits) (len s)); [lia|].
  by eapply cursor_skip_ok.
Qed.

Lemma read_binary_inv o rest n u o' :
  at_pos o rest → read_binary bs n limits o = (Ok u, o') →
  ∃ s r, rest = s ++ r ∧ n = len s ∧ len s <= max_inline_buffer_bytes limits ∧
    o' = o + len s ∧ at_pos o' r.
Proof.
  intros Hpos. unfold read_binary, mut_bind, mut_lift, reject.
  destruct (Z.ltb_spec (max_inline_buffer_bytes limits) n); [done|].
  intros H'. apply (cursor_skip_inv _ _ _ _ _ Hpos) in H' as (s & r & -> & <- & -> & ?).
  exists s, r. by split_and!.
Qed.
End CursorLaws.

(** ** Reading one value *)

(** Membership in a literal list. *)
Ltac in_list := apply list_elem_of_In; simpl; auto 12.

Lemma byte_eq_of b m : byte_val b = m → b = byte_of m.
Proof. intros <-. by rewrite byte_of_val. Qed.

Lemma land_low v k : 0 <= k → Z.land v (2 ^ k - 1) = v mod 2 ^ k.
Proof. intros. rewrite <-Z.land_ones by done. by rewrite Z.ones_equiv, Z.sub_1_r. Qed.

Lemma land_0f v : Z.land v 0x0f = v mod 16.
Proof. apply (land_low v 4). lia. Qed.
Lemma land_1f v : Z.land v 0x1f = v mod 32.
Proof. apply (land_low v 5). lia. Qed.

Lemma mod_offset base n m : base mod m = 0 → 0 <= n < m → (base + n) mod m = n.
Proof. intros Hb Hn. rewrite Z.add_mod, Hb, Z.add_0_l, Z.mod_mod, Z.mod_small by lia. done. Qed.

Lemma low_bits base v m : base mod m = 0 → base <= v < base + m → v mod m = v - base.
Proof.
  intros Hb Hv. replace v with (base + (v - base)) at 1 by lia. by apply mod_offset; [|lia].
Qed.

Lemma mut_bind_run {S E A B} (m : mut S E A) (k : A → mut S E B) s b s' :
  mut_bind m k s = (Ok b, s') → ∃ a s1, m s = (Ok a, s1) ∧ k a s1 = (Ok b, s').
Proof. apply mut_bind_Ok. Qed.

Section ReadValue.
Variables (bs : bytes) (limits : ProtocolLimits).

(** The three shapes of variable-length scalars: a length prefix and a body. *)
Lemma str_inv w rd m o r n o' :
  prefix_reader bs w rd → (m, w) ∈ [(0xd9, 1%nat); (0xda, 2%nat); (0xdb, 4%nat)] →
  at_pos bs o r →
  (let* length := rd in do* read_string bs length limits in mut_ret 0) o = (Ok n, o') →
  ∃ h r', byte_of m :: r = h ++ r' ∧ mp_head limits h n ∧ o' = o - 1 + len h ∧ at_pos bs o' r'.
Proof.
  intros Hrd Hm Hpos (x & o1 & Hx & H)%mut_bind_run.
  destruct (prefix_inv _ _ _ _ _ _ _ Hrd Hpos Hx) as (r1 & -> & Hx' & -> & Hpos1).
  apply mut_bind_run in H as (u & o2 & Hs & [= <- <-]).
  apply (read_string_inv _ _ _ _ _ _ _ Hpos1) in Hs as (s & r2 & -> & -> & ? & ? & -> & Hpos2).
  exists (byte_of m :: be_bytes w (len s) ++ s), r2. split_and!.
  - simpl. by rewrite <-app_assoc.
  - by eapply head_str; [|lia|..].
  - rewrite len_cons, len_app, be_bytes_len. lia.
  - done.
Qed.

Lemma bin_inv w rd m o r n o' :
  prefix_reader bs w rd → (m, w) ∈ [(0xc4, 1%nat); (0xc5, 2%nat); (0xc6, 4%nat)] →
  at_pos bs o r →
  (let* length := rd in do* read_binary bs length limits in mut_ret 0) o = (Ok n, o') →
  ∃ h r', byte_of m :: r = h ++ r' ∧ mp_head limits h n ∧ o' = o - 1 + len h ∧ at_pos bs o' r'.
Proof.
  intros Hrd Hm Hpos (x & o1 & Hx & H)%mut_bind_run.
  destruct (prefix_inv _ _ _ _ _ _ _ Hrd Hpos Hx) as (r1 & -> & Hx' & -> & Hpos1).
  apply mut_bind_run in H as (u & o2 & Hs & [= <- <-]).
  apply (read_binary_inv _ _ _ _ _ _ _ Hpos1) in Hs as (s & r2 & -> & -> & ? & -> & Hpos2).
  exists (byte_of m :: be_bytes w (len s) ++ s), r2. split_and!.
  - simpl. by rewrite <-app_assoc.
  - by eapply head_bin; [|lia|..].
  - rewrite len_cons, len_app, be_bytes_len. lia.
  - done.
Qed.

Lemma number_inv m w o r n o' :
  (m, w) ∈ [(0xcc, 1); (0xcd, 2); (0xce, 4); (0xcf, 8); (0xd0, 1); (0xd1, 2);
            (0xd2, 4); (0xd3, 8); (0xca, 4); (0xcb, 8)] →
  at_pos bs o r → (do* cursor_skip bs w in mut_ret 0) o = (Ok n, o') →
  ∃ h r', byte_of m :: r = h ++ r' ∧ mp_head limits h n ∧ o' = o - 1 + len h ∧ at_pos bs o' r'.
Proof.
  intros Hm Hpos (u & o1 & Hs & [= <- <-])%mut_bind_run.
  apply (cursor_skip_inv _ _ _ _ _ _ Hpos) in Hs as (s & r2 & -> & Hl & -> & Hpos2).
  exists (byte_of m :: s), r2. split_and!; [done|by eapply head_number| |done].
  rewrite len_cons. lia.
Qed.

Lemma array_inv w rd m o r n o' :
  prefix_reader bs w rd → (m, w) ∈ [(0xdc, 2%nat); (0xdd, 4%nat)] →
  at_pos bs o r → rd o = (Ok n, o') →
  ∃ h r', byte_of m :: r = h ++ r' ∧ mp_head limits h n ∧ o' = o - 1 + len h ∧ at_pos bs o' r'.
Proof.
  intros Hrd Hm Hpos Hx.
  destruct (prefix_inv _ _ _ _ _ _ _ Hrd Hpos Hx) as (r1 & -> & Hx' & -> & Hpos1).
  exists (byte_of m :: be_bytes w n), r1. split_and!; [done|by eapply head_array| |done].
  rewrite len_cons, be_bytes_len. lia.
Qed.

Lemma map_inv w rd m o r n o' :
  prefix_reader bs w rd → (m, w) ∈ [(0xde, 2%nat); (0xdf, 4%nat)] →
  at_pos bs o r → (let* entries := rd in mut_lift (map_children entries)) o = (Ok n, o') →
  ∃ h r', byte_of m :: r = h ++ r' ∧ mp_head limits h n ∧ o' = o - 1 + len h ∧ at_pos bs o' r'.
Proof.
  intros Hrd Hm Hpos (x & o1 & Hx & H)%mut_bind_run.
  destruct (prefix_inv _ _ _ _ _ _ _ Hrd Hpos Hx) as (r1 & -> & Hx' & -> & Hpos1).
  unfold mut_lift, map_children in H. injection H as H <-. inv_ok.
  exists (byte_of m :: be_bytes w x), r1. split_and!; [done| | |done].
  - rewrite Z.mul_comm. by eapply head_map.
  - rewrite len_cons, be_bytes_len. lia.
Qed.

Lemma fixstr_inv b o r n o' :
  0xa0 <= byte_val b <= 0xbf → at_pos bs o r →
  (do* read_string bs (Z.land (byte_val b) 0x1f) limits in mut_ret 0) o = (Ok n, o') →
  ∃ h r', b :: r = h ++ r' ∧ mp_head limits h n ∧ o' = o - 1 + len h ∧ at_pos bs o' r'.
Proof.
  intros Hb Hpos (u & o2 & Hs & [= <- <-])%mut_bind_run.
  apply (read_string_inv _ _ _ _ _ _ _ Hpos) in Hs as (s & r2 & -> & Hl & ? & ? & -> & Hpos2).
  rewrite land_1f, (low_bits 0xa0) in Hl by (done || lia).
  exists (b :: s), r2. rewrite len_cons. split_and!; [done| |lia|done].
  rewrite (byte_eq_of b (0xa0 + len s)) by lia. apply head_fixstr; [lia|done..].
Qed.

(** What the cursor reads is the head of a value of the format. *)
Lemma read_value_inv o rest n o' :
  at_pos bs o rest → read_value bs limits o = (Ok n, o') →
  ∃ h r, rest = h ++ r ∧ mp_head limits h n ∧ o' = o + len h ∧ at_pos bs o' r.
Proof.
  intros Hpos (v & o1 & Hv & H)%mut_bind_run.
  apply (read_u8_inv _ _ _ _ _ Hpos) in Hv as (b & r & -> & -> & -> & Hpos1).
  replace o with (o + 1 - 1) by lia. pose proof (byte_val_range b).
  assert (at_pos bs (o + 1) r → mp_head limits [b] n → (Ok n, o + 1) = (Ok (E := MessagePackError) n, o') →
    ∃ h r', b :: r = h ++ r' ∧ mp_head limits h n ∧ o' = o + 1 - 1 + len h ∧ at_pos bs o' r')
    as Hsingle.
  { intros Hp Hh [= <-]. exists [b], r. split_and!; [done..| |done].
    rewrite len_cons, len_nil. lia. }
  repeat match type of H with
  | (if ?c then _ else _) _ = _ => destruct c eqn:?
  end; try discriminate H;
    try (eapply fixstr_inv; [|done|exact H]; by apply in_range_true);
    try (match goal with Hm : (_ =? _) = true |- _ =>
           apply Z.eqb_eq in Hm; apply byte_eq_of in Hm; subst b end;
         first [ eapply str_inv; [by constructor|in_list|done|exact H]
               | eapply bin_inv; [by constructor|in_list|done|exact H]
               | eapply array_inv; [by constructor|in_list|done|exact H]
               | eapply map_inv; [by constructor|in_list|done|exact H] ]).
  - apply Hsingle; [done| |by unfold mut_ret in H; congruence].
    injection H as <- _. rewrite !orb_true_iff, !in_range_true, !Z.eqb_eq in Heqb0.
    destruct_or!; [constructor; lia..| | |]; apply byte_eq_of in Heqb0 as ->;
      constructor; in_list.
  - rewrite in_range_true in Heqb1. unfold mut_lift, map_children in H.
    rewrite land_0f, (low_bits 0x80) in H by (done || lia). injection H as H <-. inv_ok.
    apply Hsingle; [done| |done]. rewrite Z.mul_comm.
    rewrite (byte_eq_of b (0x80 + (byte_val b - 0x80))) at 1 by lia. apply head_fixmap. lia.
  - rewrite in_range_true in Heqb2. unfold mut_ret in H.
    rewrite land_0f, (low_bits 0x90) in H by (done || lia). injection H as <- <-.
    apply Hsingle; [done| |done].
    rewrite (byte_eq_of b (0x90 + (byte_val b - 0x90))) at 1 by lia. apply head_fixarray. lia.
  - rewrite !orb_true_iff, !Z.eqb_eq in Heqb9.
    destruct_or!; apply byte_eq_of in Heqb9 as ->; (eapply number_inv; [|done|exact H]; in_list).
  - rewrite !orb_true_iff, !Z.eqb_eq in Heqb10.
    destruct_or!; apply byte_eq_of in Heqb10 as ->; (eapply number_inv; [|done|exact H]; in_list).
  - rewrite !orb_true_iff, !Z.eqb_eq in Heqb11.
    destruct_or!; apply byte_eq_of in Heqb11 as ->; (eapply number_inv; [|done|exact H]; in_list).
  - rewrite !orb_true_iff, !Z.eqb_eq in Heqb12.
    destruct_or!; apply byte_eq_of in Heqb12 as ->; (eapply number_inv; [|done|exact H]; in_list).
  - assert (b = byte_of 0xdf) as -> by (apply byte_eq_of; unfold in_range in *; lia).
    eapply map_inv; [by constructor|in_list|done|exact H].
Qed.

Hypothesis Hmax : len bs <= usize_max.

(** Enter [read_value] at a marker byte and decide its branch. *)
Ltac enter_marker :=
  unfold read_value, mut_bind at 1; erewrite read_u8_ok by done;
  match goal with |- context [byte_val (byte_of ?m)] =>
    let v := eval vm_compute in (byte_val (byte_of m)) in
    change (byte_val (byte_of m)) with v
  end; simpl.

(** Decide the branches taken by a marker known by its range. *)
Ltac decide_marker :=
  repeat match goal with |- (if ?c then _ else _) _ = _ =>
    first [ replace c with false by (unfold in_range; lia)
          | replace c with true by (unfold in_range; lia) ]; cbv iota end.

Ltac each_member H :=
  apply list_elem_of_In in H; simpl in H; destruct_or!; simplify_eq.

Lemma at_pos_tail o b r : at_pos bs o (b :: r) → at_pos bs (o + 1) r.
Proof. apply (at_pos_app bs o [b] r). Qed.

(** After the length prefix, the cursor stands at the body. *)
Lemma at_pos_prefix o w x r :
  at_pos bs o (be_bytes w x ++ r) → at_pos bs (o + Z.of_nat w) r.
Proof. intros H%at_pos_app. by rewrite be_bytes_len in H. Qed.

Lemma str_ok w rd s o r :
  prefix_reader bs w rd → len s < 256 ^ Z.of_nat w → len s <= max_string_bytes limits →
  utf8_valid s = true → at_pos bs o ((be_bytes w (len s) ++ s) ++ r) →
  (let* length := rd in do* read_string bs length limits in mut_ret 0) o =
  (Ok 0, o + Z.of_nat w + len s).
Proof.
  intros Hrd Hw Hs Hu Hpos. rewrite <-app_assoc in Hpos. pose proof (len_nonneg s). unfold mut_bind.
  erewrite prefix_ok by (done || lia). by erewrite read_string_ok by (done || by eapply at_pos_prefix).
Qed.

Lemma bin_ok w rd s o r :
  prefix_reader bs w rd → len s < 256 ^ Z.of_nat w → len s <= max_inline_buffer_bytes limits →
  at_pos bs o ((be_bytes w (len s) ++ s) ++ r) →
  (let* length := rd in do* read_binary bs length limits in mut_ret 0) o =
  (Ok 0, o + Z.of_nat w + len s).
Proof.
  intros Hrd Hw Hs Hpos. rewrite <-app_assoc in Hpos. pose proof (len_nonneg s). unfold mut_bind.
  erewrite prefix_ok by (done || lia). by erewrite read_binary_ok by (done || by eapply at_pos_prefix).
Qed.

Lemma map_ok w rd x o r :
  prefix_reader bs w rd → 0 <= x < 256 ^ Z.of_nat w → (w <= 4)%nat →
  at_pos bs o (be_bytes w x ++ r) →
  (let* entries := rd in mut_lift (map_children entries)) o = (Ok (2 * x), o + Z.of_nat w).
Proof.
  intros Hrd Hx Hw Hpos. unfold mut_bind. erewrite prefix_ok by done.
  unfold mut_lift, map_children. rewrite (proj2 (checked_mul_Some u64_max x 2 (2 * x))); [done|].
  split; [lia|]. assert (256 ^ Z.of_nat w <= 256 ^ 4) by (apply Z.pow_le_mono_r; lia).
  unfold u64_max. lia.
Qed.

Lemma fix_ok base n o r (K : Z → mut Z MessagePackError Z) res :
  0 <= base + n < 256 → at_pos bs o (byte_of (base + n) :: r) →
  K (base + n) (o + 1) = res →
  (let* marker := read_u8 bs in K marker) o = res.
Proof.
  intros Hn Hpos <-. unfold mut_bind. erewrite read_u8_ok by done.
  by rewrite byte_val_of, Z.mod_small by lia.
Qed.

(** Every head of the format is read, whatever follows it. *)
Lemma read_value_ok h n o r :
  mp_head limits h n → at_pos bs o (h ++ r) → read_value bs limits o = (Ok n, o + len h).
Proof.
  intros Hh Hpos. destruct Hh as [b Hb|m Hm|m w body Hm Hw|s H32 Hs Hu|m w s Hm Hw Hs Hu
    |m w s Hm Hw Hs|k Hk|k Hk|m w k Hm Hw|m w k Hm Hw];
    simpl in Hpos; pose proof (at_pos_tail _ _ _ Hpos) as Hpos1;
    rewrite ?len_cons, ?len_app, ?be_bytes_len, ?len_nil, ?Z.add_assoc, ?Z.add_0_r.
  - unfold read_value, mut_bind at 1. erewrite read_u8_ok by done.
    pose proof (byte_val_range b).
    replace (_ || _) with true; [done|]. unfold in_range. lia.
  - each_member Hm; enter_marker; done.
  - each_member Hm; enter_marker; unfold mut_bind; erewrite cursor_skip_ok by done;
      unfold mut_ret; f_equal; lia.
  - pose proof (len_nonneg s). eapply (fix_ok 0xa0 (len s)); [lia|done|].
    rewrite land_1f, mod_offset by (done || lia).
    decide_marker.
    unfold mut_bind. by erewrite read_string_ok.
  - each_member Hm; enter_marker; (eapply str_ok; [constructor|done..]).
  - each_member Hm; enter_marker; (eapply bin_ok; [constructor|done..]).
  - eapply (fix_ok 0x90 k); [lia|done|]. rewrite land_0f, mod_offset by (done || lia).
    decide_marker. done.
  - eapply (fix_ok 0x80 k); [lia|done|]. rewrite land_0f, mod_offset by (done || lia).
    decide_marker.
    unfold mut_lift, map_children. rewrite (proj2 (checked_mul_Some u64_max k 2 (2 * k))); [done|].
    unfold u64_max. lia.
  - each_member Hm; enter_marker; (eapply prefix_ok; [done|constructor|done..]).
  - each_member Hm; enter_marker; (eapply map_ok; [constructor|done|lia|done]).
Qed.
End ReadValue.

(** ** Forests: what an open traversal still has to read *)

(** One list of trees per open depth, innermost first. *)
Abbreviation forest := (list (list mp_tree)).

Definition forest_encode (f : forest) : bytes := concat (map (λ l, concat (map mp_encode l)) f).
Definition forest_size (f : forest) : nat := sum_list_with (sum_list_with tree_nodes) f.
Definition level_depth (d : Z) (l : list mp_tree) : Z :=
  match l with [] => 0 | _ => d + Z.of_nat (max_list_with tree_depth l) end.
Fixpoint forest_depth (f : forest) : Z :=
  match f with [] => 0 | l :: f => Z.max (level_depth (len f) l) (forest_depth f) end.
Definition forest_matches (stack : list Z) (f : forest) : Prop :=
  Forall2 (λ r l, r = len l) stack f.
Definition forest_wf (limits : ProtocolLimits) (f : forest) : Prop :=
  Forall (Forall (tree_wf limits)) f.

(** Entering a value replaces it by its children, one level deeper. *)
Definition descend (cs : list mp_tree) (f : forest) : forest :=
  match cs with [] => f | _ => cs :: f end.

Lemma forest_depth_nonneg f : 0 <= forest_depth f.
Proof. induction f; simpl; lia. Qed.

Lemma descend_encode h cs l f :
  forest_encode ((MpTree h cs :: l) :: f) = h ++ forest_encode (descend cs (l :: f)).
Proof. unfold forest_encode. simpl. destruct cs; simpl; rewrite ?app_nil_r, <-!app_assoc; done. Qed.

Lemma descend_size h cs l f :
  forest_size ((MpTree h cs :: l) :: f) = S (forest_size (descend cs (l :: f))).
Proof. unfold forest_size. destruct cs; simpl; lia. Qed.

Lemma descend_depth h cs l f :
  forest_depth ((MpTree h cs :: l) :: f) =
  Z.max (len f + 1) (forest_depth (descend cs (l :: f))).
Proof.
  pose proof (len_nonneg f).
  assert (level_depth (len f) (MpTree h cs :: l) =
    Z.max (len f + 1 + Z.of_nat (max_list_with tree_depth cs)) (level_depth (len f) l)) as Heq.
  { destruct l; simpl; lia. }
  destruct cs as [|c cs]; simpl descend; cbn [forest_depth]; rewrite Heq; [simpl; lia|].
  change (level_depth (len (l :: f)) (c :: cs)) with
    (len (l :: f) + Z.of_nat (max_list_with tree_depth (c :: cs))).
  rewrite len_cons. lia.
Qed.

Lemma descend_wf limits h cs l f :
  forest_wf limits ((MpTree h cs :: l) :: f) ↔
  mp_head limits h (len cs) ∧ forest_wf limits (descend cs (l :: f)).
Proof.
  unfold forest_wf. split.
  - intros [[Ht Hl]%Forall_cons Hf]%Forall_cons. inversion Ht; subst.
    split; [done|]. destruct cs; simpl; [by constructor|]. constructor; [done|by constructor].
  - intros [Hh Hd]. destruct cs as [|c cs]; simpl in Hd.
    + apply Forall_cons in Hd as [? ?]. constructor; [|done]. constructor; [|done]. by constructor.
    + apply Forall_cons in Hd as [? [? ?]%Forall_cons]. constructor; [|done].
      constructor; [by constructor|done].
Qed.

Lemma mp_head_length limits h n : mp_head limits h n → (1 <= length h)%nat.
Proof. destruct 1; simpl; lia. Qed.

Lemma tree_ind' (P : mp_tree → Prop) :
  (∀ h cs, Forall P cs → P (MpTree h cs)) → ∀ t, P t.
Proof.
  intros Hstep. fix IH 1. intros [h cs]. apply Hstep. induction cs; constructor; auto.
Qed.

Lemma tree_nodes_length limits t : tree_wf limits t → (tree_nodes t <= length (mp_encode t))%nat.
Proof.
  induction t as [h cs IH] using tree_ind'. intros Hwf. inversion Hwf as [? ? Hh Hcs]; subst.
  apply mp_head_length in Hh. simpl. rewrite length_app.
  enough (sum_list_with tree_nodes cs <= length (concat (map mp_encode cs)))%nat by lia.
  clear Hh Hwf. induction cs as [|c cs IHcs]; simpl; [lia|]. rewrite length_app.
  apply Forall_cons in IH as [Hc IH], Hcs as [Hcwf Hcs]. specialize (Hc Hcwf).
  specialize (IHcs IH Hcs). lia.
Qed.

Lemma tree_depth_nodes t : (1 <= tree_depth t <= tree_nodes t)%nat.
Proof.
  induction t as [h cs IH] using tree_ind'. simpl.
  enough (max_list_with tree_depth cs <= sum_list_with tree_nodes cs)%nat by lia.
  induction IH; simpl; lia.
Qed.

(** Finished levels hold no trees. *)
Lemma pop_finished_forest st f :
  forest_matches st f →
  ∃ f', forest_matches (pop_finished st) f' ∧ forest_encode f' = forest_encode f ∧
    forest_size f' = forest_size f ∧ forest_depth f' = forest_depth f ∧
    (∀ limits, forest_wf limits f → forest_wf limits f').
Proof.
  induction 1 as [|r l st f -> Hf IH]; simpl; [by exists []; split_and!; [constructor|..]|].
  destruct (Z.eqb_spec (len l) 0) as [->%len_zero|]; [|by exists (l :: f); split_and!; [constructor|..]].
  destruct IH as (f' & ? & ? & ? & Hd & Hwf). exists f'. split_and!; [done..| |].
  - simpl. pose proof (forest_depth_nonneg f). rewrite Hd. lia.
  - intros limits [_ ?]%Forall_cons. by apply Hwf.
Qed.

Lemma pop_finished_unpop st f' :
  forest_matches (pop_finished st) f' →
  ∃ f, forest_matches st f ∧ forest_encode f = forest_encode f' ∧
    forest_size f = forest_size f' ∧ forest_depth f = forest_depth f' ∧
    (∀ limits, forest_wf limits f' → forest_wf limits f).
Proof.
  induction st as [|r st IH]; simpl; [by exists f'|].
  destruct (Z.eqb_spec r 0) as [->|]; [|by exists f'].
  intros (f & ? & ? & ? & Hd & Hwf)%IH. exists ([] :: f). split_and!; [by constructor|done..| |].
  - simpl. pose proof (forest_depth_nonneg f). lia.
  - intros limits Hf. constructor; [constructor|by apply Hwf].
Qed.

(** ** The loop *)

Lemma enter_value_Ok limits d n m n' m' :
  enter_value limits d n m = Ok (n', m') ↔
  n' = n + 1 ∧ m' = Z.max m d ∧ d <= u16_max ∧ d <= max_object_depth limits ∧
  n + 1 <= u32_max ∧ n + 1 <= max_graph_nodes limits.
Proof.
  unfold enter_value, reject, checked_add.
  destruct (Z.ltb_spec u16_max d); simpl; [naive_solver lia|].
  destruct (Z.ltb_spec (max_object_depth limits) d); simpl; [naive_solver lia|].
  destruct (Z.leb_spec (n + 1) u32_max); simpl; [|naive_solver lia].
  destruct (Z.ltb_spec (max_graph_nodes limits) (n + 1)); simpl; naive_solver lia.
Qed.

Lemma push_level_Ok limits d c st st' :
  push_level limits d c st = Ok st' ↔
  (c = 0 ∧ st' = st) ∨
  (c ≠ 0 ∧ st' = c :: st ∧ d + 1 <= u16_max ∧ d + 1 <= max_object_depth limits).
Proof.
  unfold push_level, reject, checked_add.
  destruct (Z.eqb_spec c 0); simpl; [naive_solver|].
  destruct (Z.leb_spec (d + 1) u16_max); simpl; [|naive_solver lia].
  destruct (Z.ltb_spec (max_object_depth limits) (d + 1)); simpl; naive_solver lia.
Qed.

Section Loop.
Variables (bs : bytes) (limits : ProtocolLimits).

(** Every iteration consumes at least a marker byte, so one unit of fuel per
    remaining byte and one for the end are enough. *)
Lemma mp_loop_terminates fuel st o n m rest :
  at_pos bs o rest → (length rest < fuel)%nat →
  is_Some (mp_loop bs fuel limits st o n m).
Proof.
  revert st o n m rest. induction fuel as [|fuel IH]; intros st o n m rest Hpos Hfuel; [lia|].
  simpl. destruct (pop_finished st) as [|r outer]; [by eauto|].
  destruct (enter_value _ _ _ _) as [[n' m']|e]; [|by eauto].
  destruct (read_value bs limits o) as [[c|e] o'] eqn:Hread; [|by eauto].
  destruct (push_level _ _ _ _) as [st'|e]; [|by eauto].
  apply (read_value_inv _ _ _ _ _ _ Hpos) in Hread as (h & r' & -> & Hh & _ & Hpos').
  apply mp_head_length in Hh. rewrite length_app in Hfuel. eapply IH; [done|lia].
Qed.

Lemma mp_loop_sound fuel st o n m rest o' n' m' :
  at_pos bs o rest → 0 <= m → n <= max_graph_nodes limits → m <= max_object_depth limits →
  mp_loop bs fuel limits st o n m = Some (Ok (o', n', m')) →
  ∃ f r, forest_matches st f ∧ forest_wf limits f ∧
    rest = forest_encode f ++ r ∧ at_pos bs o' r ∧
    n' = n + Z.of_nat (forest_size f) ∧ m' = Z.max m (forest_depth f) ∧
    n' <= max_graph_nodes limits ∧ m' <= max_object_depth limits.
Proof.
  revert st o n m rest. induction fuel as [|fuel IH]; intros st o n m rest Hpos Hm Hn Hd Hrun; [done|].
  simpl in Hrun. destruct (pop_finished st) as [|r outer] eqn:Hpop.
  { simplify_eq. destruct (pop_finished_unpop st []) as (f & ? & He & Hs & Hfd & Hwf);
      [rewrite Hpop; constructor|].
    exists f, rest. rewrite He, Hs, Hfd. split_and!; try done; [by apply Hwf; constructor|simpl; lia..]. }
  destruct (enter_value _ _ _ _) as [[n1 m1]|e] eqn:Henter; [|done].
  destruct (read_value bs limits o) as [[c|e] o1] eqn:Hread; [|done].
  destruct (push_level _ _ _ _) as [st'|e] eqn:Hpush; [|done].
  apply enter_value_Ok in Henter as (-> & -> & _ & ? & _ & ?).
  apply (read_value_inv _ _ _ _ _ _ Hpos) in Hread as (h & r' & -> & Hh & _ & Hpos').
  pose proof (len_nonneg ((r - 1) :: outer)).
  apply (IH _ _ _ _ _ Hpos') in Hrun as (f & r2 & Hf & Hwf & -> & Hpos2 & -> & -> & ? & ?); [|lia..].
  assert (∃ cs l f0, len cs = c ∧ f = descend cs (l :: f0) ∧ len l = r - 1 ∧ forest_matches outer f0)
    as (cs & l & f0 & <- & -> & Hl & Hf0).
  { apply push_level_Ok in Hpush as [[-> ->]|(Hc & -> & _)].
    - inversion Hf as [|? l ? f0]; subst. by exists [], l, f0.
    - inversion Hf as [|? cs ? f' ? Hf']; subst. inversion Hf' as [|? l ? f0]; subst.
      exists cs, l, f0. split_and!; try done. by destruct cs. }
  destruct (pop_finished_unpop st ((MpTree h cs :: l) :: f0)) as (f & Hm' & He & Hs & Hfd & Hwf').
  { rewrite Hpop. constructor; [rewrite len_cons; lia|done]. }
  exists f, r2. rewrite He, Hs, Hfd, descend_encode, descend_size, descend_depth, <-app_assoc.
  assert (len f0 = len outer) as Hlen by (unfold len; by rewrite (Forall2_length _ _ _ Hf0)).
  rewrite len_cons in *. rewrite Hlen. split_and!; try done; [by apply Hwf', descend_wf|lia..].
Qed.

Lemma mp_loop_complete fuel st o n m f r :
  len bs <= usize_max → limits_wf limits →
  at_pos bs o (forest_encode f ++ r) → forest_matches st f → forest_wf limits f →
  0 <= n → 0 <= m → n + Z.of_nat (forest_size f) <= max_graph_nodes limits →
  forest_depth f <= max_object_depth limits → (forest_size f < fuel)%nat →
  mp_loop bs fuel limits st o n m =
  Some (Ok (o + len (forest_encode f), n + Z.of_nat (forest_size f), Z.max m (forest_depth f))).
Proof.
  intros Hmax Hlim. pose proof Hlim as (_ & ? & ? & _).
  revert st o n m f. induction fuel as [|fuel IH];
    intros st o n m f Hpos Hst Hwf Hn Hm Hnodes Hdepth Hfuel; [lia|].
  destruct (pop_finished_forest st f Hst) as (f' & Hst' & He & Hs & Hd & Hwf').
  specialize (Hwf' _ Hwf). rewrite <-He, <-Hs, <-Hd in *. clear f Hst Hwf He Hs Hd.
  cbn [mp_loop]. destruct (pop_finished st) as [|c outer] eqn:Hpop.
  { inversion Hst'; subst. unfold forest_encode, forest_size; simpl. rewrite len_nil.
    do 3 f_equal; [f_equal|]; lia. }
  inversion Hst' as [|? lt ? f0 Hc Hf0]; subst.
  destruct lt as [|[h cs] l].
  { exfalso. clear -Hpop. induction st as [|r st IH]; simpl in Hpop; [done|].
    destruct (Z.eqb_spec r 0); [auto|]. by injection Hpop as ->. }
  apply descend_wf in Hwf' as [Hh Hwf'].
  rewrite descend_encode, descend_size, descend_depth, <-?app_assoc in *.
  assert (len f0 = len outer) as Hlen by (unfold len; by rewrite (Forall2_length _ _ _ Hf0)).
  rewrite len_cons in *. rewrite Hlen in *.
  rewrite (proj2 (enter_value_Ok limits (1 + len outer) n m (n + 1) (Z.max m (1 + len outer))))
    by (pose proof (len_nonneg outer); split_and!; lia).
  rewrite (read_value_ok bs limits Hmax h (len cs) o _ Hh Hpos).
  apply at_pos_app in Hpos.
  assert (∃ st', push_level limits (1 + len outer) (len cs) ((1 + len l - 1) :: outer) = Ok st' ∧
    forest_matches st' (descend cs (l :: f0))) as (st' & Hpush & Hst1).
  { assert (forest_matches ((1 + len l - 1) :: outer) (l :: f0)) by (constructor; [lia|done]).
    destruct cs as [|ch cs]; [by eexists|]. eexists. rewrite push_level_Ok. split.
    - right. split_and!; [by rewrite len_zero|done| |];
        (assert (1 + len outer + 1 <= forest_depth (descend (ch :: cs) (l :: f0))); [|lia]);
        simpl; rewrite len_cons, Hlen; pose proof (tree_depth_nodes ch); lia.
    - by constructor. }
  rewrite (len_cons _ l), Hpush, IH with (f := descend cs (l :: f0)); try done; try lia.
  rewrite len_app. do 3 f_equal; [f_equal|]; lia.
Qed.
End Loop.

(** ** Main theorem *)

Lemma at_pos_start bs : at_pos bs 0 bs.
Proof. by exists []. Qed.

Lemma single_forest t :
  forest_encode [[t]] = mp_encode t ∧ forest_size [[t]] = tree_nodes t ∧
  forest_depth [[t]] = Z.of_nat (tree_depth t).
Proof.
  unfold forest_encode, forest_size. split_and!.
  - simpl. by rewrite !app_nil_r.
  - cbn [sum_list_with]. lia.
  - cbn [forest_depth level_depth max_list_with]. rewrite len_nil. lia.
Qed.

Lemma mp_encode_pos limits t : tree_wf limits t → 1 <= len (mp_encode t).
Proof.
  intros H%tree_nodes_length. pose proof (tree_depth_nodes t). unfold len. lia.
Qed.

Lemma budget_new_tree t :
  messagepack_budget_new (Z.of_nat (tree_nodes t)) (Z.of_nat (tree_depth t)) =
  Ok (mkMessagePackBudget (Z.of_nat (tree_nodes t)) (Z.of_nat (tree_depth t))).
Proof.
  pose proof (tree_depth_nodes t). unfold messagepack_budget_new.
  replace (_ || _) with false by lia. done.
Qed.

Section Main.
Context `{Alloc : Allocator}.

Lemma inspect_sound payload limits b :
  limits_wf limits → inspect_messagepack payload limits = Ok b → payload_ok limits payload b.
Proof.
  intros Hwf H. unfold inspect_messagepack in H. inv_ok.
  destruct (mp_loop _ _ _ _ _ _ _) as [[[[o n] m]|]|] eqn:Hrun; try done. inv_ok.
  pose proof Hwf as (_ & ? & ? & _).
  apply (mp_loop_sound payload limits _ _ _ _ _ payload) in Hrun as
    (f & r & Hm & Hf & Hp & Hpos & -> & -> & ? & ?); [|apply at_pos_start|lia..].
  inversion Hm as [|? l ? f' Hl Hf']; subst. inversion Hf'; subst.
  destruct l as [|t [|]]; [done| |unfold len in Hl; simpl in Hl; lia].
  destruct (single_forest t) as (He & Hs & Hd). rewrite He, Hs, Hd in *.
  rewrite Z.max_r, Z.add_0_l, budget_new_tree in * by lia. inv_ok.
  apply Forall_cons in Hf as [[Ht _]%Forall_cons _].
  assert (r = []) as -> by (apply at_pos_len in Hpos; apply len_zero; lia).
  split_and!; [done|lia|]. exists t. rewrite app_nil_r. by split_and!.
Qed.

Lemma inspect_complete payload limits b :
  ample Alloc → limits_wf limits → payload_ok limits payload b →
  inspect_messagepack payload limits = Ok b.
Proof.
  intros Hample Hwf (Hlim & Hlen & t & <- & Ht & Hn & Hd & ? & ?).
  pose proof Hwf as (? & _). pose proof (mp_encode_pos _ _ Ht). pose proof (tree_nodes_length _ _ Ht).
  destruct b as [nb db]; simpl in *; subst nb db.
  unfold inspect_messagepack. rewrite Hlim. cbn [map_err result_bind]. unfold reject, try_reserve.
  destruct (Z.ltb_spec (max_frame_bytes limits) (len (mp_encode t))); [lia|].
  destruct (Z.eqb_spec (len (mp_encode t)) 0); [lia|]. rewrite Hample. cbn [negb result_bind].
  destruct (single_forest t) as (He & Hs & Hdp).
  rewrite (mp_loop_complete _ limits _ [1] 0 0 0 [[t]] []);
    rewrite ?He, ?Hs, ?Hdp, ?app_nil_r; try lia; try done.
  - rewrite !Z.add_0_l, Z.eqb_refl. cbn [negb result_bind].
    rewrite Z.max_r by lia. apply budget_new_tree.
  - unfold u32_max, usize_max, u64_max in *. lia.
  - apply at_pos_start.
  - repeat constructor.
  - repeat constructor; done.
Qed.

(** C3: the MessagePack preflight is exact.  With traversal storage available,
    a payload is accepted exactly when the limits are valid, its length fits
    the frame, and it is the encoding of one tree of the MessagePack format
    (no extension types, UTF-8 strings, no trailing byte) whose strings,
    binaries, node count and depth fit the limits; the reported budget is the
    node count and the depth of that tree. *)
Theorem messagepack_preflight_exact payload limits b :
  ample Alloc → limits_wf limits →
  inspect_messagepack payload limits = Ok b ↔ payload_ok limits payload b.
Proof. intros Ha Hwf. split; [by apply inspect_sound|by apply inspect_complete]. Qed.
End Main.

Lemma secure_default_widths : limits_wf secure_default.
Proof. unfold limits_wf, secure_default, u32_max, u16_max. simpl. lia. Qed.

Lemma messagepack_preflight_exact_witness :
  payload_ok secure_default
    (map byte_of [0x82; 0xa1; 0x61; 0x92; 0x01; 0xc3; 0xa1; 0x62; 0xa2; 0x78; 0x79])
    (mkMessagePackBudget 7 3).
Proof.
  apply (messagepack_preflight_exact (Alloc := ample_allocator)
    (map byte_of [0x82; 0xa1; 0x61; 0x92; 0x01; 0xc3; 0xa1; 0x62; 0xa2; 0x78; 0x79])
    secure_default (mkMessagePackBudget 7 3) ample_allocator_ample secure_default_widths).
  exact inspect_sample.
Defined.
