(* ===== verification/Framing.v ===== *)
(** * Framing: typed messages over a byte transport

    Models the rest of [crates/weregopher-runtime-protocol/src/codec.rs]: the
    [ProtocolMessage] trait and its implementations, [BoundedPayload],
    [FramedWriter::send] and [FramedReader::receive].

    The transport is any implementation of the classes [Write] and [Read]; their
    laws are the contracts of [write_all] and [read_exact] for a reliable byte
    stream, and an in-memory pair of instances discharges them.  The third-party
    serializer [rmp_serde] is a parameter ([Rmp] and [Codec]): the buffers that
    [write_named] passes to the payload writer, and the field parser under
    [from_slice], which is followed by the contract checks of the message's own
    [Deserialize] implementation. *)

From S2P Require Import Prelude Wire Graph Contracts MessagePack.

(** ** Messages *)

(** The trait [ProtocolMessage], with its supertrait [DeserializeOwned]. *)
Class ProtocolMessage (M : Type) : Type := {
  KIND : MessageKind;
  validate_message : M → ProtocolLimits → result unit RuntimeProtocolContractError;
  deserialize : M → result M RuntimeProtocolContractError
}.

#[global] Instance hello_message : ProtocolMessage RuntimeHello := {|
  KIND := Kind_Hello;
  validate_message m _ := map_err Limits (limits_validate (hello_requested_limits m));
  deserialize := runtime_hello_deserialize |}.
#[global] Instance welcome_message : ProtocolMessage RuntimeWelcome := {|
  KIND := Kind_Welcome;
  validate_message m _ := map_err Limits (limits_validate (welcome_limits m));
  deserialize := runtime_welcome_deserialize |}.
#[global] Instance reject_message : ProtocolMessage ProtocolReject := {|
  KIND := Kind_Reject;
  validate_message _ _ := Ok tt;
  deserialize := protocol_reject_deserialize |}.
#[global] Instance call_message `{Allocator} : ProtocolMessage RuntimeCall := {|
  KIND := Kind_Call;
  validate_message := runtime_call_validate;
  deserialize := runtime_call_deserialize |}.
#[global] Instance call_result_message `{Allocator} : ProtocolMessage RuntimeCallResult := {|
  KIND := Kind_CallResult;
  validate_message := call_result_validate;
  deserialize := call_result_deserialize |}.
#[global] Instance call_error_message `{Allocator} : ProtocolMessage RuntimeCallError := {|
  KIND := Kind_CallError;
  validate_message := call_error_validate;
  deserialize := call_error_deserialize |}.
#[global] Instance cancel_message : ProtocolMessage RuntimeCancel := {|
  KIND := Kind_Cancel;
  validate_message _ _ := Ok tt;
  deserialize := runtime_cancel_deserialize |}.
#[global] Instance event_message `{Allocator} : ProtocolMessage RuntimeEvent := {|
  KIND := Kind_Event;
  validate_message := runtime_event_validate;
  deserialize := runtime_event_deserialize |}.
#[global] Instance stream_open_message : ProtocolMessage RuntimeStreamOpen := {|
  KIND := Kind_StreamOpen;
  validate_message _ _ := Ok tt;
  deserialize := stream_open_deserialize |}.
#[global] Instance stream_window_message : ProtocolMessage RuntimeStreamWindow := {|
  KIND := Kind_StreamWindow;
  validate_message _ _ := Ok tt;
  deserialize := stream_window_deserialize |}.
#[global] Instance stream_data_message : ProtocolMessage RuntimeStreamData := {|
  KIND := Kind_StreamData;
  validate_message := stream_data_validate;
  deserialize := stream_data_deserialize |}.
#[global] Instance shutdown_message : ProtocolMessage RuntimeShutdown := {|
  KIND := Kind_Shutdown;
  validate_message _ _ := Ok tt;
  deserialize m := Ok m |}.

(** ** Transports *)

Inductive IoError : Type :=
| Io_UnexpectedEof
| Io_Other (message : string).

(** [std::io::Write] and [std::io::Read], through the methods used here. *)
Class Write (W : Type) : Type := write_all : bytes → mut W IoError unit.
Class Read (R : Type) : Type := read_exact : Z → mut R IoError bytes.

(** A writer that appends what it is given to an observable output, or fails. *)
Class LawfulWrite (W : Type) `{Write W} : Type := {
  written : W → bytes;
  write_all_appends w bs w' : write_all bs w = (Ok tt, w') → written w' = written w ++ bs
}.

(** A reader that serves a byte stream in order: [read_exact n] succeeds exactly
    when [n] bytes are left, and consumes exactly those. *)
Class LawfulRead (R : Type) `{Read R} : Type := {
  unread : R → bytes;
  read_exact_consumes r n bs r' :
    0 <= n → read_exact n r = (Ok bs, r') → unread r = bs ++ unread r' ∧ len bs = n;
  read_exact_available r bs rest :
    unread r = bs ++ rest → ∃ r', read_exact (len bs) r = (Ok bs, r') ∧ unread r' = rest
}.

(** [Vec<u8>] as a writer and [&[u8]] as a reader. *)
#[global] Instance vec_write : Write bytes := λ bs w, (Ok tt, w ++ bs).
#[global] Instance slice_read : Read bytes := λ n r,
  if n <=? len r then (Ok (take (Z.to_nat n) r), drop (Z.to_nat n) r)
  else (Err Io_UnexpectedEof, []).

#[global] Program Instance vec_lawful_write : LawfulWrite bytes := {| written w := w |}.
Next Obligation. intros w bs w' [= <-]. done. Qed.

#[global] Program Instance slice_lawful_read : LawfulRead bytes := {| unread r := r |}.
Next Obligation.
  unfold read_exact, slice_read. intros r n bs r' Hn H. run_case; [|done]. simplify_eq.
  rewrite take_drop. split; [done|]. unfold len in *. rewrite length_take. lia.
Qed.
Next Obligation.
  unfold read_exact, slice_read. intros r bs rest ->. pose proof (len_nonneg rest).
  rewrite len_app. destruct (Z.leb_spec (len bs) (len bs + len rest)); [|lia].
  unfold len. rewrite Nat2Z.id. rewrite take_app_length, drop_app_length. eauto.
Qed.

(** ** The serializer *)

(** The error types of [rmp_serde], and how it wraps an I/O error of the payload
    writer and a contract error of a [Deserialize] implementation. *)
Class Rmp : Type := {
  EncodeError : Type;
  DecodeError : Type;
  write_failed : IoError → EncodeError;
  decode_custom : RuntimeProtocolContractError → DecodeError
}.

(** [write_named] passes buffers to the writer in order, and may then fail on
    its own; [parse_fields] is [from_slice] before the contract checks. *)
Class Codec `{Rmp} (M : Type) : Type := {
  write_named : M → list bytes * option EncodeError;
  parse_fields : bytes → result M DecodeError
}.

(** ** The bounded payload *)

Record BoundedPayload : Type := mkBoundedPayload {
  payload_bytes : bytes;
  payload_maximum : Z;
  limit_exceeded : bool
}.

Definition bounded_payload_new (maximum : Z) : BoundedPayload :=
  mkBoundedPayload [] maximum false.

Inductive FrameWriteError `{Rmp} : Type :=
| Write_InvalidLimits (e : ProtocolLimitError)
| Write_InvalidMessage (e : RuntimeProtocolContractError)
| Write_Encode (e : EncodeError)
| Write_FrameTooLarge (maximum : Z)
| Write_SequenceExhausted
| Write_Io (e : IoError).

Inductive FrameReadError `{Rmp} : Type :=
| Read_InvalidLimits (e : ProtocolLimitError)
| Read_InvalidHeader (e : FrameHeaderError)
| Read_FrameTooLarge (maximum actual : Z)
| Read_UnexpectedVersion (expected_major expected_minor actual_major actual_minor : Z)
| Read_UnexpectedSequence (expected actual : Z)
| Read_UnexpectedMessageKind (expected actual : MessageKind)
| Read_PayloadAllocationFailed
| Read_InvalidMessagePack (e : MessagePackError)
| Read_Decode (e : DecodeError)
| Read_InvalidMessage (e : RuntimeProtocolContractError)
| Read_SequenceExhausted
| Read_Io (e : IoError).

Section Framing.
Context `{Alloc : Allocator} `{R0 : Rmp}.

(** [BoundedPayload::write]. *)
Definition bounded_write (buffer : bytes) : mut BoundedPayload IoError Z := λ self,
  let exceeded := mkBoundedPayload (payload_bytes self) (payload_maximum self) true in
  match checked_add usize_max (len (payload_bytes self)) (len buffer) with
  | None => (Err (Io_Other "protocol payload length overflowed"), exceeded)
  | Some new_length =>
    if payload_maximum self <? new_length
    then (Err (Io_Other "protocol payload exceeds frame limit"), exceeded)
    else if negb (try_reserve (len buffer))
    then (Err (Io_Other "protocol payload allocation failed"), self)
    else (Ok (len buffer),
          mkBoundedPayload (payload_bytes self ++ buffer) (payload_maximum self)
            (limit_exceeded self))
  end.

(** The provided [Write::write_all]: an empty buffer is not written, and [write]
    takes a whole buffer or fails. *)
Definition bounded_write_all (buffer : bytes) : mut BoundedPayload IoError unit :=
  if len buffer =? 0 then mut_ret tt
  else do* bounded_write buffer in mut_ret tt.

Fixpoint write_buffers (buffers : list bytes) : mut BoundedPayload IoError unit :=
  match buffers with
  | [] => mut_ret tt
  | buffer :: buffers => do* bounded_write_all buffer in write_buffers buffers
  end.

(** [rmp_serde::encode::write_named(&mut payload, message)]. *)
Definition encode_into `{Codec M} (message : M) (payload : BoundedPayload) :
    result unit EncodeError * BoundedPayload :=
  let '(buffers, failure) := write_named message in
  match write_buffers buffers payload with
  | (Err e, payload) => (Err (write_failed e), payload)
  | (Ok _, payload) =>
    (match failure with Some e => Err e | None => Ok tt end, payload)
  end.

(** ** The writer *)

Record FramedWriter (W : Type) : Type := mkFramedWriter {
  output : W;
  writer_version : ProtocolVersion;
  writer_limits : ProtocolLimits;
  writer_next_sequence : Z
}.
#[global] Arguments mkFramedWriter {W}.
#[global] Arguments output {W}.
#[global] Arguments writer_version {W}.
#[global] Arguments writer_limits {W}.
#[global] Arguments writer_next_sequence {W}.

Definition framed_writer_new {W} (output : W) (version : ProtocolVersion)
    (limits : ProtocolLimits) : result (FramedWriter W) FrameWriteError :=
  do? map_err Write_InvalidLimits (limits_validate limits) in
  Ok (mkFramedWriter output version limits 1).

(** [self.output.write_all(..)?]. *)
Definition writer_write_all `{Write W} (bs : bytes) :
    mut (FramedWriter W) FrameWriteError unit := λ self,
  let '(r, output') := write_all bs (output self) in
  (map_err Write_Io r,
   mkFramedWriter output' (writer_version self) (writer_limits self)
     (writer_next_sequence self)).

Definition send `{Write W} `{ProtocolMessage M} `{!Codec M} (request_id : Z) (message : M) :
    mut (FramedWriter W) FrameWriteError FrameHeader :=
  let* self := mut_get in
  let limits := writer_limits self in
  do* mut_lift (map_err Write_InvalidMessage (validate_message message limits)) in
  let '(encoded, payload) := encode_into message (bounded_payload_new (max_frame_bytes limits)) in
  do* mut_lift (map_err
    (λ error, if limit_exceeded payload then Write_FrameTooLarge (max_frame_bytes limits)
              else Write_Encode error) encoded) in
  do* mut_lift (reject (u32_max <? len (payload_bytes payload))
    (Write_FrameTooLarge (max_frame_bytes limits))) in
  let frame_length := len (payload_bytes payload) in
  let* next_sequence := mut_lift (ok_or (checked_add u64_max (writer_next_sequence self) 1)
    Write_SequenceExhausted) in
  let header := frame_header_new frame_length (major (writer_version self))
    (minor (writer_version self)) KIND request_id (writer_next_sequence self) in
  do* writer_write_all (frame_header_encode header) in
  do* writer_write_all (payload_bytes payload) in
  let* self := mut_get in
  do* mut_put (mkFramedWriter (output self) (writer_version self) (writer_limits self)
                 next_sequence) in
  mut_ret header.

(** ** The reader *)

Record FramedReader (R : Type) : Type := mkFramedReader {
  input : R;
  reader_version : ProtocolVersion;
  reader_limits : ProtocolLimits;
  reader_next_sequence : Z
}.
#[global] Arguments mkFramedReader {R}.
#[global] Arguments input {R}.
#[global] Arguments reader_version {R}.
#[global] Arguments reader_limits {R}.
#[global] Arguments reader_next_sequence {R}.

Definition framed_reader_new {R} (input : R) (version : ProtocolVersion)
    (limits : ProtocolLimits) : result (FramedReader R) FrameReadError :=
  do? map_err Read_InvalidLimits (limits_validate limits) in
  Ok (mkFramedReader input version limits 1).

Definition reader_read_exact `{Read R} (n : Z) :
    mut (FramedReader R) FrameReadError bytes := λ self,
  let '(r, input') := read_exact n (input self) in
  (map_err Read_Io r,
   mkFramedReader input' (reader_version self) (reader_limits self)
     (reader_next_sequence self)).

Record ReceivedMessage (M : Type) : Type := mkReceivedMessage {
  received_header : FrameHeader;
  received_payload : M
}.
#[global] Arguments mkReceivedMessage {M}.
#[global] Arguments received_header {M}.
#[global] Arguments received_payload {M}.

(** [rmp_serde::from_slice::<M>]. *)
Definition from_slice `{ProtocolMessage M} `{!Codec M} (bs : bytes) : result M DecodeError :=
  let? raw := parse_fields bs in
  map_err decode_custom (deserialize raw).

Definition receive `{Read R} `{ProtocolMessage M} `{!Codec M} :
    mut (FramedReader R) FrameReadError (ReceivedMessage M) :=
  let* self := mut_get in
  let limits := reader_limits self in
  let version := reader_version self in
  let* header_bytes := reader_read_exact FRAME_HEADER_LEN in
  let* header := mut_lift (map_err Read_InvalidHeader (frame_header_decode header_bytes)) in
  do* mut_lift (reject (max_frame_bytes limits <? frame_length header)
    (Read_FrameTooLarge (max_frame_bytes limits) (frame_length header))) in
  do* mut_lift (reject (negb (protocol_major header =? major version) ||
                        negb (protocol_minor header =? minor version))
    (Read_UnexpectedVersion (major version) (minor version)
       (protocol_major header) (protocol_minor header))) in
  do* mut_lift (reject (negb (sequence header =? reader_next_sequence self))
    (Read_UnexpectedSequence (reader_next_sequence self) (sequence header))) in
  do* mut_lift (reject (negb (bool_decide (message_kind header = KIND)))
    (Read_UnexpectedMessageKind KIND (message_kind header))) in
  let payload_length := frame_length header in
  do* mut_lift (reject (negb (try_reserve payload_length)) Read_PayloadAllocationFailed) in
  let* payload_bytes := reader_read_exact payload_length in
  do* mut_lift (map_err Read_InvalidMessagePack (inspect_messagepack payload_bytes limits)) in
  let* payload := mut_lift (map_err Read_Decode (from_slice payload_bytes)) in
  do* mut_lift (map_err Read_InvalidMessage (validate_message payload limits)) in
  let* self := mut_get in
  let* next_sequence := mut_lift (ok_or (checked_add u64_max (reader_next_sequence self) 1)
    Read_SequenceExhausted) in
  do* mut_put (mkFramedReader (input self) (reader_version self) (reader_limits self)
                 next_sequence) in
  mut_ret (mkReceivedMessage header payload).
End Framing.

(** ** Laws of the payload writer *)

Section PayloadLaws.
Context `{Alloc : Allocator} `{R0 : Rmp}.

Lemma bounded_write_all_Ok buffer p u p' :
  len (payload_bytes p) <= payload_maximum p →
  bounded_write_all buffer p = (Ok u, p') →
  payload_bytes p' = payload_bytes p ++ buffer ∧ payload_maximum p' = payload_maximum p ∧
  len (payload_bytes p') <= payload_maximum p.
Proof.
  unfold bounded_write_all. intros Hp. destruct (Z.eqb_spec (len buffer) 0) as [->%len_zero|].
  { intros [= _ <-]. by rewrite app_nil_r. }
  unfold mut_bind, bounded_write. destruct (checked_add _ _ _) as [n'|] eqn:Ha; [|done].
  apply checked_add_Some in Ha as [-> _].
  destruct (Z.ltb_spec (payload_maximum p) (len (payload_bytes p) + len buffer)); [done|].
  destruct (negb _); [done|]. intros [= _ <-]. simpl. rewrite len_app. by split_and!.
Qed.

Lemma write_buffers_Ok buffers p u p' :
  len (payload_bytes p) <= payload_maximum p →
  write_buffers buffers p = (Ok u, p') →
  payload_bytes p' = payload_bytes p ++ concat buffers ∧
  len (payload_bytes p') <= payload_maximum p.
Proof.
  revert p. induction buffers as [|b buffers IH]; intros p Hp; simpl.
  { intros [= _ <-]. by rewrite app_nil_r. }
  intros (u1 & p1 & H1 & H2)%mut_bind_Ok.
  apply bounded_write_all_Ok in H1 as (Hb & Hm & Hl); [|done].
  apply IH in H2 as [Hb' Hl']; [|lia]. rewrite Hm in Hl'. split; [by rewrite Hb', Hb, <-app_assoc|done].
Qed.

(** Buffers that fit are written. *)
Lemma write_buffers_complete buffers p :
  ample Alloc → payload_maximum p <= u32_max →
  len (payload_bytes p ++ concat buffers) <= payload_maximum p →
  ∃ p', write_buffers buffers p = (Ok tt, p') ∧
    payload_bytes p' = payload_bytes p ++ concat buffers.
Proof.
  intros Hample Hmax. revert p Hmax. induction buffers as [|b buffers IH]; intros p Hmax Hfit; simpl.
  { exists p. by rewrite app_nil_r. }
  simpl in Hfit. rewrite app_assoc in Hfit.
  set (p1 := mkBoundedPayload (payload_bytes p ++ b) (payload_maximum p) (limit_exceeded p)).
  assert (bounded_write_all b p = (Ok tt, p1)) as H1.
  { unfold bounded_write_all, mut_bind, bounded_write. pose proof (len_nonneg (concat buffers)).
    rewrite !len_app in Hfit. unfold usize_max, u64_max, u32_max in *.
    destruct (Z.eqb_spec (len b) 0) as [->%len_zero|].
    { unfold p1. rewrite app_nil_r. by destruct p. }
    unfold checked_add.
    destruct (Z.leb_spec (len (payload_bytes p) + len b) 18446744073709551615); [|lia].
    destruct (Z.ltb_spec (payload_maximum p) (len (payload_bytes p) + len b)); [lia|].
    unfold try_reserve. by rewrite Hample. }
  rewrite (mut_bind_step _ _ _ _ _ H1).
  destruct (IH p1) as (p' & Hrun & Hp'); [done..|]. exists p'. split; [done|].
  rewrite Hp'. simpl. by rewrite <-app_assoc.
Qed.
End PayloadLaws.

(** ** Sending and receiving *)

Section Transport.
Context `{Alloc : Allocator} `{R0 : Rmp}.
Context {W R : Type} {HW : Write W} {LW : LawfulWrite W} {HR : Read R} {LR : LawfulRead R}.

Lemma writer_write_all_Ok bs (w : FramedWriter W) u w' :
  writer_write_all bs w = (Ok u, w') →
  written (output w') = written (output w) ++ bs ∧ writer_version w' = writer_version w ∧
  writer_limits w' = writer_limits w ∧ writer_next_sequence w' = writer_next_sequence w.
Proof.
  unfold writer_write_all. destruct (write_all bs (output w)) as [r o] eqn:Hw.
  intros [= Hr <-]. apply map_err_Ok in Hr as ->. destruct u. simpl.
  by apply write_all_appends in Hw.
Qed.

Lemma writer_write_all_keeps bs (w : FramedWriter W) r w' :
  writer_write_all bs w = (r, w') →
  writer_version w' = writer_version w ∧ writer_limits w' = writer_limits w ∧
  writer_next_sequence w' = writer_next_sequence w ∧
  (∀ e, r = Err e → ∃ io, e = Write_Io io).
Proof.
  unfold writer_write_all. destruct (write_all bs (output w)) as [r' o].
  intros [= <- <-]. split_and!; [done..|]. intros e He. destruct r'; naive_solver.
Qed.

Lemma reader_read_exact_Ok n (r : FramedReader R) bs r' :
  0 <= n → reader_read_exact n r = (Ok bs, r') →
  unread (input r) = bs ++ unread (input r') ∧ len bs = n ∧
  reader_version r' = reader_version r ∧ reader_limits r' = reader_limits r ∧
  reader_next_sequence r' = reader_next_sequence r.
Proof.
  unfold reader_read_exact. intros Hn. destruct (read_exact n (input r)) as [x i] eqn:Hr.
  intros [= Hx <-]. apply map_err_Ok in Hx as ->. apply read_exact_consumes in Hr as [? ?]; [|done].
  by split_and!.
Qed.

Lemma reader_read_exact_available (r : FramedReader R) bs rest :
  unread (input r) = bs ++ rest →
  ∃ i, reader_read_exact (len bs) r =
    (Ok bs, mkFramedReader i (reader_version r) (reader_limits r) (reader_next_sequence r)) ∧
    unread i = rest.
Proof.
  intros (i & Hr & Hi)%read_exact_available. exists i. split; [|done].
  unfold reader_read_exact. by rewrite Hr.
Qed.

Section Message.
Context {M : Type} {PM : ProtocolMessage M} {CM : Codec M}.

(** What a successful [send] did. *)
Lemma send_Ok request_id (m : M) (w : FramedWriter W) h w' :
  0 <= max_frame_bytes (writer_limits w) →
  send request_id m w = (Ok h, w') →
  ∃ buffers, write_named m = (buffers, None) ∧
    validate_message m (writer_limits w) = Ok tt ∧
    len (concat buffers) <= max_frame_bytes (writer_limits w) ∧
    len (concat buffers) <= u32_max ∧
    h = frame_header_new (len (concat buffers)) (major (writer_version w))
          (minor (writer_version w)) KIND request_id (writer_next_sequence w) ∧
    written (output w') = written (output w) ++ frame_header_encode h ++ concat buffers ∧
    writer_version w' = writer_version w ∧ writer_limits w' = writer_limits w ∧
    writer_next_sequence w' = writer_next_sequence w + 1 ∧
    writer_next_sequence w + 1 <= u64_max.
Proof.
  intros Hmax H. unfold send, encode_into in H. inv_mut.
  destruct (write_named m) as [buffers failure] eqn:Hnamed. cbn beta iota zeta in H.
  destruct (write_buffers buffers _) as [[u|e] p] eqn:Hbuf; inv_mut.
  destruct failure; [done|].
  apply write_buffers_Ok in Hbuf as [Hp Hl]; [|done]. simpl in Hp, Hl. rewrite Hp in *.
  apply writer_write_all_Ok in H4 as (Hw1 & Hv1 & Hm1 & _).
  apply writer_write_all_Ok in H5 as (Hw2 & Hv2 & Hm2 & _). simpl.
  exists buffers. split_and!; try done; try congruence; [lia|].
  by rewrite Hw2, Hw1, <-app_assoc.
Qed.

(** A failed [send] does not advance the sequence; unless the transport itself
    failed, it writes nothing. *)
Lemma send_Err request_id (m : M) (w : FramedWriter W) e w' :
  send request_id m w = (Err e, w') →
  writer_version w' = writer_version w ∧ writer_limits w' = writer_limits w ∧
  writer_next_sequence w' = writer_next_sequence w ∧ ((∃ io, e = Write_Io io) ∨ w' = w).
Proof.
  unfold send. intros H. apply mut_bind_Err in H as [H|(a & s1 & [= <- <-] & H)]; [done|].
  apply mut_bind_Err in H as [[= _ <-]|(? & s1 & [= _ <-] & H)]; [by auto|].
  destruct (encode_into _ _) as [encoded payload].
  apply mut_bind_Err in H as [[= _ <-]|(? & s1 & [= _ <-] & H)]; [by auto|].
  apply mut_bind_Err in H as [[= _ <-]|(? & s1 & [= _ <-] & H)]; [by auto|].
  apply mut_bind_Err in H as [[= _ <-]|(? & s1 & [= _ <-] & H)]; [by auto|].
  apply mut_bind_Err in H as [H|(? & s1 & H1 & H)].
  { apply writer_write_all_keeps in H as (? & ? & ? & Hio). naive_solver. }
  apply writer_write_all_keeps in H1 as (? & ? & ? & _).
  apply mut_bind_Err in H as [H|(? & s2 & _ & H)]; [|done].
  apply writer_write_all_keeps in H as (? & ? & ? & Hio).
  split_and!; [congruence..|]. left. by apply Hio.
Qed.

(** The input of [r] starts with a frame that carries [msg], then [rest]: an
    encoded header for the reader's version, kind and next sequence number, and
    a payload of the declared length that passes the preflight, parses to a
    message that its own [Deserialize] accepts, and fits the limits. *)
Definition frame_ok (r : FramedReader R) (msg : ReceivedMessage M) (rest : bytes) : Prop :=
  let header := received_header msg in
  ∃ payload b raw,
    unread (input r) = frame_header_encode header ++ payload ++ rest ∧
    frame_header_wf header ∧ frame_length header = len payload ∧
    protocol_major header = major (reader_version r) ∧
    protocol_minor header = minor (reader_version r) ∧
    message_kind header = KIND ∧ sequence header = reader_next_sequence r ∧
    payload_ok (reader_limits r) payload b ∧
    parse_fields payload = Ok raw ∧ deserialize raw = Ok (received_payload msg) ∧
    validate_message (received_payload msg) (reader_limits r) = Ok tt ∧
    reader_next_sequence r + 1 <= u64_max.

Definition reader_advanced (r r' : FramedReader R) : Prop :=
  reader_version r' = reader_version r ∧ reader_limits r' = reader_limits r ∧
  reader_next_sequence r' = reader_next_sequence r + 1.

Lemma receive_sound (r : FramedReader R) (msg : ReceivedMessage M) r' :
  limits_wf (reader_limits r) → receive r = (Ok msg, r') →
  frame_ok r msg (unread (input r')) ∧ reader_advanced r r'.
Proof.
  intros Hwf H. unfold receive, from_slice in H. inv_mut.
  apply reader_read_exact_Ok in H1 as (Hu1 & Hl1 & Hv1 & Hm1 & Hs1); [|done].
  apply frame_header_encode_decode in H2 as [Hhwf Hx1]. rewrite Hx1 in Hu1.
  apply reader_read_exact_Ok in H8 as (Hu2 & Hl2 & Hv2 & Hm2 & Hs2); [|by destruct Hhwf; lia].
  apply inspect_sound in H9; [|done].
  apply negb_false_iff, bool_decide_eq_true in H6.
  unfold frame_ok, reader_advanced; cbn -[frame_header_encode].
  split; [|split_and!; congruence].
  eexists _, _, _. split_and!; try done; try congruence; try lia.
Qed.

Lemma receive_complete (r : FramedReader R) (msg : ReceivedMessage M) rest :
  ample Alloc → limits_wf (reader_limits r) → frame_ok r msg rest →
  ∃ r', receive r = (Ok msg, r') ∧ unread (input r') = rest.
Proof.
  intros Hample Hwf (payload & b & raw & Hu & Hhwf & Hlen & Hmaj & Hmin & Hk & Hseq & Hp &
    Hparse & Hde & Hval & Hnext).
  destruct (reader_read_exact_available r _ _ Hu) as (i1 & Hr1 & Hi1).
  rewrite frame_header_encode_length in Hr1.
  set (r1 := mkFramedReader i1 _ _ _) in Hr1.
  destruct (reader_read_exact_available r1 _ _ Hi1) as (i2 & Hr2 & Hi2).
  pose proof Hp as (_ & Hframe & _).
  exists (mkFramedReader i2 (reader_version r) (reader_limits r) (reader_next_sequence r + 1)).
  split; [|done]. unfold receive.
  erewrite mut_bind_step by done. erewrite mut_bind_step by done.
  erewrite mut_bind_step by (unfold mut_lift; by rewrite frame_header_decode_encode).
  unfold reject. rewrite Hlen, Hmaj, Hmin, Hseq, !Z.eqb_refl.
  destruct (Z.ltb_spec (max_frame_bytes (reader_limits r)) (len payload)); [lia|].
  do 3 erewrite mut_bind_step by done. rewrite bool_decide_eq_true_2 by done.
  erewrite mut_bind_step by done. unfold try_reserve. rewrite Hample.
  erewrite mut_bind_step by done. erewrite mut_bind_step by done.
  erewrite mut_bind_step by (unfold mut_lift; by rewrite (inspect_complete _ _ b)).
  unfold from_slice. rewrite Hparse. cbn [result_bind]. rewrite Hde.
  erewrite mut_bind_step by done. erewrite mut_bind_step by (unfold mut_lift; by rewrite Hval).
  erewrite mut_bind_step by done. simpl. rewrite (proj2 (checked_add_Some u64_max _ _ _)) by done.
  destruct msg. done.
Qed.

(** A frame in order whose payload is not one MessagePack tree within the limits is
    refused before it is decoded. *)
Lemma receive_refuses (r : FramedReader R) header payload rest :
  ample Alloc → limits_wf (reader_limits r) →
  unread (input r) = frame_header_encode header ++ payload ++ rest →
  frame_header_wf header → frame_length header = len payload →
  protocol_major header = major (reader_version r) → protocol_minor header = minor (reader_version r) →
  message_kind header = KIND → sequence header = reader_next_sequence r →
  len payload <= max_frame_bytes (reader_limits r) → (¬ ∃ b, payload_ok (reader_limits r) payload b) →
  ∃ e r', receive (M := M) r = (Err (Read_InvalidMessagePack e), r').
Proof.
  intros Hample Hwf Hu Hhwf Hlen Hmaj Hmin Hk Hseq Hmax Hno.
  destruct (reader_read_exact_available r _ _ Hu) as (i1 & Hr1 & Hi1).
  rewrite frame_header_encode_length in Hr1.
  set (r1 := mkFramedReader i1 _ _ _) in Hr1.
  destruct (reader_read_exact_available r1 _ _ Hi1) as (i2 & Hr2 & Hi2).
  destruct (inspect_messagepack payload (reader_limits r)) as [b|e] eqn:Hins.
  { destruct Hno. exists b. by apply inspect_sound. }
  exists e. eexists. unfold receive.
  erewrite mut_bind_step by done. erewrite mut_bind_step by done.
  erewrite mut_bind_step by (unfold mut_lift; by rewrite frame_header_decode_encode).
  unfold reject. rewrite Hlen, Hmaj, Hmin, Hseq, !Z.eqb_refl.
  destruct (Z.ltb_spec (max_frame_bytes (reader_limits r)) (len payload)); [lia|].
  do 3 erewrite mut_bind_step by done. rewrite bool_decide_eq_true_2 by done.
  erewrite mut_bind_step by done. unfold try_reserve. rewrite Hample.
  erewrite mut_bind_step by done. erewrite mut_bind_step by done.
  unfold mut_bind at 1, mut_lift. by rewrite Hins.
Qed.

(** receiving is exact.  [FramedReader::receive] returns a message and
    leaves [rest] unread exactly when the input starts with one well-formed
    frame of the expected version, kind and sequence number that carries this
    message, followed by [rest]; nothing is accepted out of order, of another
    type, over the frame limit, or that the negotiated limits refuse. *)
Theorem receive_exact (r : FramedReader R) (msg : ReceivedMessage M) rest :
  ample Alloc → limits_wf (reader_limits r) →
  (∃ r', receive r = (Ok msg, r') ∧ unread (input r') = rest) ↔ frame_ok r msg rest.
Proof.
  intros Hample Hwf. split; [|by apply receive_complete].
  intros (r' & Hr & <-). by apply receive_sound.
Qed.

(** C4: a failed send never consumes a sequence number and, unless the transport
    failed, writes nothing; a successful send writes exactly one frame with the
    current sequence number and advances it by one. *)
Theorem send_exactly_one_frame request_id (m : M) (w : FramedWriter W) res w' :
  0 <= max_frame_bytes (writer_limits w) → send request_id m w = (res, w') →
  match res with
  | Err e =>
    writer_next_sequence w' = writer_next_sequence w ∧
    ((∃ io, e = Write_Io io) ∨ written (output w') = written (output w))
  | Ok h =>
    writer_next_sequence w' = writer_next_sequence w + 1 ∧
    sequence h = writer_next_sequence w ∧ message_kind h = KIND ∧
    ∃ payload, frame_length h = len payload ∧ len payload <= max_frame_bytes (writer_limits w) ∧
      written (output w') = written (output w) ++ frame_header_encode h ++ payload
  end.
Proof.
  intros Hmax H. destruct res as [h|e].
  - apply send_Ok in H as (bufs & _ & _ & ? & _ & -> & Hw & _ & _ & -> & _); [|done].
    split_and!; [done..|]. by exists (concat bufs).
  - apply send_Err in H as (_ & _ & ? & [?| ->]); auto.
Qed.
End Message.
End Transport.

(** ** Conversations *)

(** What the framing layer needs from a message type: a value that the type's
    constructors built and that validates within limits no larger than the
    built-in ones deserializes to itself. *)
Class LawfulMessage (M : Type) `{ProtocolMessage M} : Type := {
  constructed : M → Prop;
  constructed_deserializes m limits :
    limits_wf limits → limits_le limits secure_default → constructed m →
    validate_message m limits = Ok tt → deserialize m = Ok m
}.

Section MessageLaws.
Context `{Alloc : Allocator}.

#[global] Program Instance hello_lawful : LawfulMessage RuntimeHello := {|
  constructed m := backend_built (hello_backend m) ∧ version_range_built (hello_protocol_range m) ∧
    runtime_hello_new (hello_runtime m) (hello_app m) (hello_backend m) (hello_protocol_range m)
      (hello_nonce_proof m) (hello_capabilities m) (hello_requested_limits m) = Ok m |}.
Next Obligation. intros m limits _ _ (? & ? & ?) ?. by eapply runtime_hello_deserializes. Qed.

#[global] Program Instance welcome_lawful : LawfulMessage RuntimeWelcome := {|
  constructed m := version_built (welcome_version m) ∧ heartbeat_built (welcome_heartbeat m) |}.
Next Obligation.
  intros m limits _ _ [Hv Hh] H.
  apply (runtime_welcome_deserializes m (welcome_session m) (welcome_version m) (welcome_limits m)
    (welcome_compatibility m) (welcome_heartbeat m) (welcome_features m)); [done..|].
  unfold runtime_welcome_new. simpl in H. rewrite H. by destruct m.
Qed.

#[global] Program Instance reject_lawful : LawfulMessage ProtocolReject := {|
  constructed m := protocol_reject_new (reject_code m) (reject_detail m) = Ok m |}.
Next Obligation. intros m limits _ _ Hm _. exact (protocol_reject_deserializes _ _ _ Hm). Qed.

#[global] Program Instance cancel_lawful : LawfulMessage RuntimeCancel := {|
  constructed m := runtime_cancel_new (cancel_request_id m) = Ok m |}.
Next Obligation. intros m limits _ _ Hm _. exact (runtime_cancel_deserializes _ _ Hm). Qed.

#[global] Program Instance stream_open_lawful : LawfulMessage RuntimeStreamOpen := {|
  constructed m := stream_open_new (open_stream m) (initial_credit m) = Ok m |}.
Next Obligation. intros m limits _ _ Hm _. exact (stream_open_deserializes _ _ _ Hm). Qed.

#[global] Program Instance stream_window_lawful : LawfulMessage RuntimeStreamWindow := {|
  constructed m := stream_window_new (window_stream m) (additional_credit m) = Ok m |}.
Next Obligation. intros m limits _ _ Hm _. exact (stream_window_deserializes _ _ _ Hm). Qed.

#[global] Program Instance stream_data_lawful : LawfulMessage RuntimeStreamData := {|
  constructed _ := True |}.
Next Obligation. intros m limits _ ? _ ?. by eapply stream_data_deserializes. Qed.

#[global] Program Instance shutdown_lawful : LawfulMessage RuntimeShutdown := {|
  constructed _ := True |}.
Next Obligation. done. Qed.

(** The graph-bearing messages need the receiver's traversal stack. *)
Context (Hample : ample Alloc).

Program Definition call_lawful : LawfulMessage RuntimeCall := {| constructed _ := True |}.
Next Obligation. intros m limits ? ? _ ?. by eapply runtime_call_deserializes. Qed.
Program Definition call_result_lawful : LawfulMessage RuntimeCallResult :=
  {| constructed _ := True |}.
Next Obligation. intros m limits ? ? _ ?. by eapply call_result_deserializes. Qed.
Program Definition call_error_lawful : LawfulMessage RuntimeCallError :=
  {| constructed _ := True |}.
Next Obligation. intros m limits ? ? _ ?. by eapply call_error_deserializes. Qed.
Program Definition event_lawful : LawfulMessage RuntimeEvent := {| constructed _ := True |}.
Next Obligation. intros m limits ? ? _ ?. by eapply runtime_event_deserializes. Qed.
End MessageLaws.

Section Conversation.
Context `{Alloc : Allocator} `{R0 : Rmp}.
Context {W R : Type} {HW : Write W} {LW : LawfulWrite W} {HR : Read R} {LR : LawfulRead R}.

(** One message of a conversation, of any type. *)
Record packet : Type := mkPacket {
  packet_type : Type;
  packet_message :: ProtocolMessage packet_type;
  packet_lawful :: LawfulMessage packet_type;
  packet_codec :: Codec packet_type;
  packet_request_id : Z;
  packet_payload : packet_type
}.

(** A sequence of sends that stops at the first failure. *)
Fixpoint send_all (ps : list packet) : mut (FramedWriter W) FrameWriteError (list FrameHeader) :=
  match ps with
  | [] => mut_ret []
  | p :: ps =>
    let* h := send (packet_request_id p) (packet_payload p) in
    let* hs := send_all ps in
    mut_ret (h :: hs)
  end.

(** The reader receives the packets in order, with their types and headers. *)
Inductive delivered : list packet → list FrameHeader → FramedReader R → FramedReader R → Prop :=
| delivered_nil r : delivered [] [] r r
| delivered_cons p ps h hs r r1 r2 :
    receive r = (Ok (mkReceivedMessage h (packet_payload p)), r1) →
    delivered ps hs r1 r2 → delivered (p :: ps) (h :: hs) r r2.

(** A packet of the conversation: a [u64] request identity, a constructed message,
    and a serialization that parses back. *)
Definition packet_ok (p : packet) : Prop :=
  0 <= packet_request_id p <= u64_max ∧ constructed (packet_payload p) ∧
  ∀ buffers, write_named (packet_payload p) = (buffers, None) → parse_fields (concat buffers) = Ok (packet_payload p).

(** What the serializer writes of it is one MessagePack tree within the limits. *)
Definition packet_fits (limits : ProtocolLimits) (p : packet) : Prop :=
  ∃ b, payload_ok limits (concat (write_named (packet_payload p)).1) b.

Lemma packet_fits_dec limits p : ample Alloc → limits_wf limits → packet_fits limits p ∨ ¬ packet_fits limits p.
Proof.
  intros Hample Hwf. unfold packet_fits. destruct (inspect_messagepack (concat (write_named (packet_payload p)).1) limits) as [b|e] eqn:E.
  - left. exists b. by apply inspect_sound.
  - right. intros [b Hb]. pose proof (inspect_complete _ _ b Hample Hwf Hb) as Hi. by rewrite Hi in E.
Qed.

Definition version_wf (v : ProtocolVersion) : Prop :=
  0 <= major v <= u16_max ∧ 0 <= minor v <= u16_max.

(** The two ends of one direction of a connection. *)
Definition paired (w : FramedWriter W) (r : FramedReader R) : Prop :=
  writer_version w = reader_version r ∧ writer_limits w = reader_limits r ∧
  writer_next_sequence w = reader_next_sequence r.

Lemma send_receive p (w : FramedWriter W) (r : FramedReader R) h w' :
  ample Alloc → limits_wf (writer_limits w) → limits_le (writer_limits w) secure_default →
  version_wf (writer_version w) → 0 <= writer_next_sequence w → paired w r → packet_ok p →
  send (packet_request_id p) (packet_payload p) w = (Ok h, w') →
  ∃ frame, written (output w') = written (output w) ++ frame ∧
    writer_version w' = writer_version w ∧ writer_limits w' = writer_limits w ∧
    writer_next_sequence w' = writer_next_sequence w + 1 ∧
    ∀ r rest, paired w r → unread (input r) = frame ++ rest →
      (packet_fits (writer_limits w) p → ∃ r', receive r = (Ok (mkReceivedMessage h (packet_payload p)), r') ∧
        unread (input r') = rest ∧ paired w' r') ∧
      (¬ packet_fits (writer_limits w) p → ∃ e r', receive (M := packet_type p) r = (Err (Read_InvalidMessagePack e), r')).
Proof.
  intros Hample Hwf Hle [Hmaj Hmin] Hseq _ (Hid & Hc & Hcodec) Hsend.
  apply send_Ok in Hsend as (bufs & Hnamed & Hval & Hframe & Hu32 & -> & Hw & Hv' & Hl' & Hs' & Hu64);
    [|by destruct Hwf as [[? _] _]].
  pose proof (Hcodec _ Hnamed) as Hparse. unfold packet_fits. rewrite Hnamed. cbn [fst].
  eexists. split_and!; [exact Hw|done..|]. clear r. intros r rest (Hv & Hl & Hs) Hin.
  pose proof (constructed_deserializes _ _ Hwf Hle Hc Hval) as Hde.
  set (h := frame_header_new _ _ _ _ _ _) in *.
  assert (Hh : frame_header_wf h).
  { unfold frame_header_wf, h, frame_header_new; simpl. pose proof (len_nonneg (concat bufs)). lia. }
  rewrite <-app_assoc in Hin. split.
  - intros [b Hpay]. destruct (receive_complete r (mkReceivedMessage h (packet_payload p)) rest Hample)
      as (r' & Hr & Hrest); [by rewrite <-Hl| |].
    + exists (concat bufs), b, (packet_payload p). cbn [received_header received_payload].
      rewrite <-Hl, <-Hs, <-Hv. by split_and!.
    + exists r'. split_and!; [done..|]. apply receive_sound in Hr as [_ (? & ? & ?)];
        [|by rewrite <-Hl]. unfold paired. split_and!; congruence.
  - intros Hno. rewrite Hl in *. apply (receive_refuses r h (concat bufs) rest); rewrite <-?Hv; done.
Qed.

(** What becomes of the packets of a conversation: they are delivered, in order, up
    to the first that does not fit, which is refused as invalid MessagePack. *)
Definition read_back (limits : ProtocolLimits) (ps : list packet) (hs : list FrameHeader) (r : FramedReader R)
    (rest : bytes) (w' : FramedWriter W) : Prop :=
  ∃ before after hs1 r1, ps = before ++ after ∧ hs1 `prefix_of` hs ∧ Forall (packet_fits limits) before ∧
    delivered before hs1 r r1 ∧
    match after with
    | [] => hs1 = hs ∧ unread (input r1) = rest ∧ paired w' r1
    | p :: _ => ¬ packet_fits limits p ∧
        ∃ e r2, receive (M := packet_type p) r1 = (Err (Read_InvalidMessagePack e), r2)
    end.

(** C5: a conversation is delivered, as far as the reader's own bounds allow.
    Whatever messages of whatever types a writer sends, with limits no larger than
    the built-in ones (which deserialization enforces), a reader paired with it (same
    version, limits and sequence) that is given the bytes written receives the same
    messages, in order, with the same headers.  If the encoding of every message is
    one MessagePack tree within the limits, the whole conversation is delivered,
    exactly the bytes written are consumed and the two stay paired; otherwise this
    holds up to the first message whose encoding is not.  [send] does not check
    that: such a message, a value graph nested so deeply that its encoding exceeds
    the same depth limit, is sent, and [receive] refuses it as invalid MessagePack.
    The serializer is assumed to read back what it wrote, and memory to suffice. *)
Theorem conversation_delivered ps (w : FramedWriter W) (r : FramedReader R) hs w' :
  ample Alloc → limits_wf (writer_limits w) → limits_le (writer_limits w) secure_default →
  version_wf (writer_version w) → 0 <= writer_next_sequence w → paired w r →
  Forall packet_ok ps → send_all ps w = (Ok hs, w') →
  ∃ sent, written (output w') = written (output w) ++ sent ∧
    ∀ rest, unread (input r) = sent ++ rest → read_back (writer_limits w) ps hs r rest w'.
Proof.
  intros Hample Hwf Hle Hv Hseq Hpair Hok Hrun.
  enough (∃ sent, written (output w') = written (output w) ++ sent ∧
    ∀ r rest, paired w r → unread (input r) = sent ++ rest → read_back (writer_limits w) ps hs r rest w') as (sent & ? & ?) by eauto.
  revert w hs r Hwf Hle Hv Hseq Hpair Hrun. induction ps as [|p ps IH]; intros w hs r Hwf Hle Hv Hseq Hpair Hrun.
  { injection Hrun as <- <-. exists []. rewrite app_nil_r. split; [done|].
    intros r0 rest Hp0 Hr. exists [], [], [], r0. split_and!; try done; constructor. }
  simpl in Hrun. inv_mut. apply Forall_cons in Hok as [Hp Hok].
  match goal with H : send _ _ _ = _ |- _ =>
    apply (send_receive p w r) in H as (frame & Hw & Hv1 & Hl1 & Hs1 & Hrecv); [|done..] end.
  match goal with H : send_all ps ?w1 = _ |- _ =>
    apply (IH Hok w1 _ (mkFramedReader (input r) (writer_version w1) (writer_limits w1) (writer_next_sequence w1))) in H
      as (sent & Hsent & Hrest); [|by rewrite ?Hl1, ?Hv1..|lia|by split_and!] end.
  exists (frame ++ sent). split; [by rewrite Hsent, Hw, <-app_assoc|].
  intros r0 rest Hpair0 Hin. rewrite <-app_assoc in Hin. destruct (Hrecv r0 _ Hpair0 Hin) as [Hfits Hrefused].
  destruct (packet_fits_dec (writer_limits w) p Hample Hwf) as [Hf|Hf].
  - destruct (Hfits Hf) as (r1 & Hr1 & Hin1 & Hpair1).
    destruct (Hrest r1 rest Hpair1 Hin1) as (before & after & hs1 & r2 & -> & Hpre & Hall & Hdel & Hcase). rewrite Hl1 in *.
    exists (p :: before), after. eexists (_ :: hs1), r2. split_and!; [done|by apply prefix_cons|by constructor|by econstructor|].
    destruct after; [|done]. destruct Hcase as (-> & ? & ?). done.
  - exists [], (p :: ps), [], r0. split_and!; [done|apply prefix_nil|constructor|constructor|done|]. by apply Hrefused.
Qed.
End Conversation.

(** ** A concrete conversation *)

(** The named-field encoding of a shutdown message, as a concrete codec. *)
Section Example.
Definition sample_rmp : Rmp := {|
  EncodeError := IoError;
  DecodeError := unit;
  write_failed e := e;
  decode_custom _ := tt
|}.

Definition reason_name (r : RuntimeShutdownReason) : str :=
  match r with
  | ApplicationExit => lit "application_exit"
  | HostShutdown => lit "host_shutdown"
  | WorkerShutdown => lit "worker_shutdown"
  | PolicyRevoked => lit "policy_revoked"
  end.

Definition shutdown_bytes (r : RuntimeShutdownReason) : bytes :=
  byte_of 0x81 :: (byte_of 0xa6 :: lit "reason") ++
  (byte_of (0xa0 + len (reason_name r)) :: reason_name r).

#[local] Existing Instance sample_rmp.

#[local] Instance shutdown_codec : Codec RuntimeShutdown := {|
  write_named m :=
    ([[byte_of 0x81]; drop 1 (shutdown_bytes (shutdown_reason m))], None);
  parse_fields bs :=
    match list_find (λ r, shutdown_bytes r = bs)
            [ApplicationExit; HostShutdown; WorkerShutdown; PolicyRevoked] with
    | Some (_, r) => Ok (mkRuntimeShutdown r)
    | None => Err tt
    end
|}.

#[local] Existing Instance ample_allocator.

Definition sample_writer : FramedWriter bytes :=
  mkFramedWriter [] (mkProtocolVersion 1 0) secure_default 1.

Definition sample_packets : list packet :=
  [mkPacket RuntimeShutdown _ _ _ 0 (mkRuntimeShutdown HostShutdown);
   mkPacket RuntimeShutdown _ _ _ 3 (mkRuntimeShutdown PolicyRevoked)].

Definition sample_wire : bytes := output (send_all sample_packets sample_writer).2.
Definition sample_headers : list FrameHeader :=
  match (send_all sample_packets sample_writer).1 with Ok hs => hs | Err _ => [] end.
Definition sample_reader : FramedReader bytes :=
  mkFramedReader sample_wire (mkProtocolVersion 1 0) secure_default 1.

Lemma sample_sent :
  send_all sample_packets sample_writer =
  (Ok sample_headers, mkFramedWriter sample_wire (mkProtocolVersion 1 0) secure_default 3).
Proof. vm_compute. reflexivity. Qed.

Lemma sample_packet_ok r id :
  0 <= id <= u64_max → packet_ok (mkPacket RuntimeShutdown _ _ _ id (mkRuntimeShutdown r)).
Proof. intros Hid. split; [exact Hid|]. split; [done|]. intros buffers [= <-]. by destruct r. Qed.

Lemma sample_packet_fits r id : packet_fits secure_default (mkPacket RuntimeShutdown _ _ _ id (mkRuntimeShutdown r)).
Proof.
  exists (mkMessagePackBudget 3 2). apply (inspect_sound (Alloc := ample_allocator)); [apply secure_default_wf|].
  destruct r; vm_compute; reflexivity.
Qed.

Lemma conversation_delivered_witness :
  ∃ r', delivered sample_packets sample_headers sample_reader r' ∧ unread (input r') = [].
Proof.
  destruct (conversation_delivered sample_packets sample_writer sample_reader sample_headers
    (mkFramedWriter sample_wire (mkProtocolVersion 1 0) secure_default 3))
    as (sent & Hsent & Hdel).
  - exact ample_allocator_ample.
  - exact secure_default_wf.
  - apply limits_le_refl.
  - unfold version_wf, u16_max; simpl; lia.
  - simpl; lia.
  - split_and!; reflexivity.
  - constructor; [|constructor; [|constructor]];
      apply sample_packet_ok; unfold u64_max; lia.
  - exact sample_sent.
  - simpl in Hsent. destruct (Hdel []) as (before & after & hs1 & r1 & Hps & Hpre & _ & Hd & Hcase);
      [simpl; rewrite app_nil_r; exact Hsent|].
    destruct after as [|p after].
    + destruct Hcase as (-> & Hu & _). rewrite app_nil_r in Hps. rewrite <-Hps in Hd. eauto.
    + destruct Hcase as [Hno _]. exfalso. apply Hno.
      assert (Hin : p ∈ sample_packets) by (rewrite Hps; set_solver).
      apply elem_of_cons in Hin as [->|Hin%list_elem_of_singleton]; [apply sample_packet_fits|].
      rewrite Hin. apply sample_packet_fits.
Defined.

(** The first frame of that wire. *)
Lemma receive_exact_witness :
  ∃ rest, frame_ok (M := RuntimeShutdown) sample_reader
    (mkReceivedMessage (frame_header_new 22 1 0 Kind_Shutdown 0 1)
       (mkRuntimeShutdown HostShutdown)) rest.
Proof.
  exists (drop 50 sample_wire).
  apply (receive_exact (M := RuntimeShutdown) (R := bytes) sample_reader
    (mkReceivedMessage (frame_header_new 22 1 0 Kind_Shutdown 0 1)
       (mkRuntimeShutdown HostShutdown)) (drop 50 sample_wire)
    ample_allocator_ample secure_default_wf).
  exists (mkFramedReader (drop 50 sample_wire) (mkProtocolVersion 1 0) secure_default 2).
  vm_compute. auto.
Defined.

Lemma send_exactly_one_frame_witness :
  ∃ h, (send (M := RuntimeShutdown) 0 (mkRuntimeShutdown HostShutdown) sample_writer).1 = Ok h ∧
  sequence h = 1 ∧ message_kind h = Kind_Shutdown.
Proof.
  exists (frame_header_new 22 1 0 Kind_Shutdown 0 1).
  split; [vm_compute; reflexivity|].
  destruct (send_exactly_one_frame (M := RuntimeShutdown) (W := bytes) 0
    (mkRuntimeShutdown HostShutdown) sample_writer
    (Ok (frame_header_new 22 1 0 Kind_Shutdown 0 1))
    (send 0 (mkRuntimeShutdown HostShutdown) sample_writer).2) as (_ & Hseq & Hkind & _).
  - vm_compute. discriminate.
  - vm_compute. reflexivity.
  - split; [exact Hseq|exact Hkind].
Defined.
End Example.
