(* ===== verification/Session.v ===== *)
(** * Session: the authenticated handshake and per-session state machines

    Models [crates/weregopher-runtime-protocol/src/session.rs]: the nonce
    challenge and its possession proof, the host and worker sides of the
    handshake, the table of pending requests and the per-stream byte credit.

    SHA-256 is a parameter (the [sha2] crate); a streaming digest is the hash of
    the concatenation of its updates.  An [Instant] is a number of nanoseconds
    and [instant_max] the largest one the platform represents. *)

From S2P Require Import Prelude Wire Graph Contracts.

(** ** Nonces *)

Inductive NonceChallengeError : Type := Nonce_AllZero.

Record NonceChallenge : Type := mkNonceChallenge { nonce_bytes : bytes }.

Definition nonce_from_bytes (bs : bytes) : result NonceChallenge NonceChallengeError :=
  if bool_decide (bs = zero_32) then Err Nonce_AllZero else Ok (mkNonceChallenge bs).

Definition NONCE_PROOF_DOMAIN : bytes :=
  lit "weregopher.runtime-protocol.nonce-proof.v1" ++ [byte_of 0].

(** The bytes of a UUID, most significant first. *)
Definition uuid_bytes (id : Z) : bytes := be_bytes 16 id.

Definition length_prefixed (value : bytes) : bytes := le_bytes 8 (len value) ++ value.

(** The concatenation of the updates of the proof's digest. *)
Definition nonce_proof_preimage (nonce : NonceChallenge) (runtime : RuntimeId)
    (app : AppInstanceId) (backend : RuntimeBackendIdentity) (peer_pid : Z) : bytes :=
  NONCE_PROOF_DOMAIN ++ nonce_bytes nonce ++ uuid_bytes runtime ++ uuid_bytes app ++
  length_prefixed (backend_id backend) ++ length_prefixed (backend_version backend) ++
  le_bytes 4 peer_pid.

Section Handshake.
Context `{Hash : Sha256}.

Definition nonce_possession_proof (nonce : NonceChallenge) (runtime : RuntimeId)
    (app : AppInstanceId) (backend : RuntimeBackendIdentity) (peer_pid : Z) : bytes :=
  sha256 (nonce_proof_preimage nonce runtime app backend peer_pid).

(** ** The host's side *)

Inductive HandshakeError : Type :=
| ZeroPeerPid
| ObservedPeerPidMismatch (expected actual : Z)
| RuntimeIdentityMismatch
| NoCompatibleVersion
| NonceProofMismatch
| Handshake_InvalidLimits (e : ProtocolLimitError)
| InvalidWelcome (e : RuntimeProtocolContractError).

Record HostHandshake : Type := mkHostHandshake {
  host_nonce : NonceChallenge;
  host_expected_peer_pid : Z;
  host_runtime : RuntimeId;
  host_app : AppInstanceId;
  host_backend : RuntimeBackendIdentity;
  host_versions : ProtocolVersionRange;
  host_features : ProtocolFeatures;
  host_hard_limits : ProtocolLimits;
  host_session : ProtocolSessionId;
  host_compatibility : Sha256Digest;
  host_heartbeat : HeartbeatPolicy
}.

Definition host_handshake_new (nonce : NonceChallenge) (expected_peer_pid : Z)
    (runtime : RuntimeId) (app : AppInstanceId) (backend : RuntimeBackendIdentity)
    (versions : ProtocolVersionRange) (features : ProtocolFeatures)
    (hard_limits : ProtocolLimits) (session : ProtocolSessionId)
    (compatibility : Sha256Digest) (heartbeat : HeartbeatPolicy) :
    result HostHandshake HandshakeError :=
  do? reject (expected_peer_pid =? 0) ZeroPeerPid in
  do? map_err Handshake_InvalidLimits (limits_validate hard_limits) in
  Ok (mkHostHandshake nonce expected_peer_pid runtime app backend versions features
        hard_limits session compatibility heartbeat).

Definition host_negotiate (self : HostHandshake) (hello : RuntimeHello)
    (observed_peer_pid : Z) : result RuntimeWelcome HandshakeError :=
  do? reject (negb (observed_peer_pid =? host_expected_peer_pid self))
    (ObservedPeerPidMismatch (host_expected_peer_pid self) observed_peer_pid) in
  do? reject (negb (bool_decide (hello_runtime hello = host_runtime self)) ||
              negb (bool_decide (hello_app hello = host_app self)) ||
              negb (bool_decide (hello_backend hello = host_backend self)))
    RuntimeIdentityMismatch in
  let expected_proof := nonce_possession_proof (host_nonce self) (host_runtime self)
    (host_app self) (host_backend self) observed_peer_pid in
  do? reject (negb (bool_decide (hello_nonce_proof hello = expected_proof)))
    NonceProofMismatch in
  let? version := ok_or (version_range_negotiate (host_versions self)
    (hello_protocol_range hello)) NoCompatibleVersion in
  let? limits := map_err Handshake_InvalidLimits
    (limits_negotiate (hello_requested_limits hello) (host_hard_limits self)) in
  let features := features_negotiate (hello_capabilities hello) (host_features self) in
  map_err InvalidWelcome
    (runtime_welcome_new (host_session self) version limits (host_compatibility self)
       (host_heartbeat self) features).
End Handshake.

(** ** The worker's side *)

Inductive WorkerHandshakeError : Type :=
| UnsupportedVersion
| FeaturesExpanded
| LimitsExpanded
| Worker_InvalidLimits (e : ProtocolLimitError).

Record WorkerHandshake : Type := mkWorkerHandshake {
  worker_versions : ProtocolVersionRange;
  worker_offered_features : ProtocolFeatures;
  worker_requested_limits : ProtocolLimits
}.

Definition worker_from_hello (hello : RuntimeHello) : WorkerHandshake :=
  mkWorkerHandshake (hello_protocol_range hello) (hello_capabilities hello)
    (hello_requested_limits hello).

Definition features_are_subset (selected offered : ProtocolFeatures) : bool :=
  (negb (calls selected) || calls offered) &&
  (negb (cancellation selected) || cancellation offered) &&
  (negb (events selected) || events offered) &&
  (negb (credit_streams selected) || credit_streams offered) &&
  (negb (sync_lane selected) || sync_lane offered) &&
  (negb (shared_buffers selected) || shared_buffers offered).

Definition worker_accept (self : WorkerHandshake) (welcome : RuntimeWelcome) :
    result unit WorkerHandshakeError :=
  let selected := welcome_version welcome in
  do? reject (negb (major selected =? major (minimum (worker_versions self))) ||
              (minor selected <? minor (minimum (worker_versions self))) ||
              (minor (maximum (worker_versions self)) <? minor selected))
    UnsupportedVersion in
  do? reject (negb (features_are_subset (welcome_features welcome) (worker_offered_features self)))
    FeaturesExpanded in
  let? bounded := map_err Worker_InvalidLimits
    (limits_negotiate (welcome_limits welcome) (worker_requested_limits self)) in
  reject (negb (bool_decide (bounded = welcome_limits welcome))) LimitsExpanded.

(** ** Pending requests *)

Inductive PendingRequestError : Type :=
| Pending_ZeroMaximum
| Pending_ZeroTimeout
| Pending_DeadlineOverflow
| Pending_CapacityExceeded (maximum : Z)
| Pending_RequestIdExhausted
| Pending_UnknownRequest (request_id : Z).

Record PendingRequest : Type := mkPendingRequest {
  deadline : Z;
  cancelled : bool
}.

Inductive RequestCancellation : Type := NewlyCancelled | AlreadyCancelled.
Inductive CallCompletion : Type := Delivered | DiscardedAfterCancellation.

Record PendingRequests : Type := mkPendingRequests {
  pending_maximum : Z;
  next_request_id : Z;
  requests : gmap Z PendingRequest
}.

Definition pending_new (maximum : Z) : result PendingRequests PendingRequestError :=
  do? reject (maximum =? 0) Pending_ZeroMaximum in
  Ok (mkPendingRequests maximum 1 ∅).

Section Pending.
Variable (instant_max : Z).

Definition pending_begin (now timeout : Z) : mut PendingRequests PendingRequestError Z :=
  do* mut_lift (reject (timeout =? 0) Pending_ZeroTimeout) in
  let* self := mut_get in
  do* mut_lift (reject (pending_maximum self <=? Z.of_nat (size (requests self)))
    (Pending_CapacityExceeded (pending_maximum self))) in
  let* deadline := mut_lift (ok_or (checked_add instant_max now timeout)
    Pending_DeadlineOverflow) in
  let* next := mut_lift (ok_or (checked_add u64_max (next_request_id self) 1)
    Pending_RequestIdExhausted) in
  let request_id := next_request_id self in
  do* mut_put (mkPendingRequests (pending_maximum self) next
    (<[request_id := mkPendingRequest deadline false]> (requests self))) in
  mut_ret request_id.
End Pending.

Definition pending_cancel (request_id : Z) :
    mut PendingRequests PendingRequestError RequestCancellation :=
  let* self := mut_get in
  let* request := mut_lift (ok_or (requests self !! request_id)
    (Pending_UnknownRequest request_id)) in
  if cancelled request then mut_ret AlreadyCancelled
  else
    do* mut_put (mkPendingRequests (pending_maximum self) (next_request_id self)
      (<[request_id := mkPendingRequest (deadline request) true]> (requests self))) in
    mut_ret NewlyCancelled.

Definition pending_complete (request_id : Z) :
    mut PendingRequests PendingRequestError CallCompletion :=
  let* self := mut_get in
  let* request := mut_lift (ok_or (requests self !! request_id)
    (Pending_UnknownRequest request_id)) in
  do* mut_put (mkPendingRequests (pending_maximum self) (next_request_id self)
    (delete request_id (requests self))) in
  if cancelled request then mut_ret DiscardedAfterCancellation else mut_ret Delivered.

Definition pending_expire (now : Z) (self : PendingRequests) : list Z * PendingRequests :=
  let expired := (filter (λ p, deadline p.2 <= now) (btree_iter Z.leb (requests self))).*1 in
  (expired,
   mkPendingRequests (pending_maximum self) (next_request_id self)
     (foldl (λ m id, delete id m) (requests self) expired)).

Definition pending_is_empty (self : PendingRequests) : bool := bool_decide (requests self = ∅).
Definition pending_len (self : PendingRequests) : Z := Z.of_nat (size (requests self)).

(** ** Stream credit *)

Inductive StreamCreditError : Type :=
| Stream_ZeroCredit
| Stream_EmptyData
| Stream_UnexpectedSequence (expected actual : Z)
| Stream_CreditExceeded (available requested : Z)
| Stream_CreditOverflow
| Stream_SequenceExhausted.

Record StreamCredit : Type := mkStreamCredit {
  available : Z;
  next_stream_sequence : Z
}.

Definition stream_credit_new (initial_credit : Z) : result StreamCredit StreamCreditError :=
  if initial_credit =? 0 then Err Stream_ZeroCredit else Ok (mkStreamCredit initial_credit 1).

Definition stream_grant (additional : Z) : mut StreamCredit StreamCreditError unit :=
  do* mut_lift (reject (additional =? 0) Stream_ZeroCredit) in
  let* self := mut_get in
  let* available := mut_lift (ok_or (checked_add u64_max (available self) additional)
    Stream_CreditOverflow) in
  mut_put (mkStreamCredit available (next_stream_sequence self)).

Definition stream_consume (sequence bytes : Z) : mut StreamCredit StreamCreditError unit :=
  let* self := mut_get in
  do* mut_lift (reject (negb (sequence =? next_stream_sequence self))
    (Stream_UnexpectedSequence (next_stream_sequence self) sequence)) in
  do* mut_lift (reject (bytes =? 0) Stream_EmptyData) in
  do* mut_lift (reject (available self <? bytes)
    (Stream_CreditExceeded (available self) bytes)) in
  let* next_sequence := mut_lift (ok_or (checked_add u64_max (next_stream_sequence self) 1)
    Stream_SequenceExhausted) in
  mut_put (mkStreamCredit (available self - bytes) next_sequence).

(** ** The possession proof *)

Lemma app_split {A} (l1 l2 k1 k2 : list A) :
  length l1 = length k1 → l1 ++ l2 = k1 ++ k2 → l1 = k1 ∧ l2 = k2.
Proof. intros. by apply app_inj_1. Qed.

Lemma le_bytes_inj n a b :
  0 <= a < 256 ^ Z.of_nat n → 0 <= b < 256 ^ Z.of_nat n → le_bytes n a = le_bytes n b → a = b.
Proof. intros Ha Hb H. rewrite <-(le_val_bytes n a), H, le_val_bytes; done. Qed.

Lemma uuid_bytes_inj a b :
  0 <= a < 2 ^ 128 → 0 <= b < 2 ^ 128 → uuid_bytes a = uuid_bytes b → a = b.
Proof.
  unfold uuid_bytes, be_bytes. intros Ha Hb H.
  apply (le_bytes_inj 16); [done..|]. by rewrite <-(rev_involutive (le_bytes 16 a)), H, rev_involutive.
Qed.

Lemma length_prefixed_inj a b r s :
  len a <= u64_max → len b <= u64_max →
  length_prefixed a ++ r = length_prefixed b ++ s → a = b ∧ r = s.
Proof.
  unfold length_prefixed. rewrite <-!app_assoc. intros Ha Hb H.
  apply app_split in H as [Hl H]; [|by rewrite !le_bytes_length].
  pose proof (len_nonneg a). pose proof (len_nonneg b).
  apply le_bytes_inj in Hl; [|unfold u64_max in *; simpl; lia..].
  apply app_split in H; [done|]. unfold len in Hl. lia.
Qed.

Definition backend_bounded (b : RuntimeBackendIdentity) : Prop :=
  len (backend_id b) <= u64_max ∧ len (backend_version b) <= u64_max.

(** the possession proof binds one identity.  The hashed byte string is an
    unambiguous encoding: two challenges with the same preimage agree on the
    nonce, the runtime, the application, the backend and the process id, so a
    proof for one worker cannot be the proof for another unless SHA-256
    collides. *)
Theorem nonce_proof_preimage_injective n n' rt rt' app app' b b' pid pid' :
  length (nonce_bytes n) = 32%nat → length (nonce_bytes n') = 32%nat →
  0 <= rt < 2 ^ 128 → 0 <= rt' < 2 ^ 128 → 0 <= app < 2 ^ 128 → 0 <= app' < 2 ^ 128 →
  backend_bounded b → backend_bounded b' → 0 <= pid <= u32_max → 0 <= pid' <= u32_max →
  nonce_proof_preimage n rt app b pid = nonce_proof_preimage n' rt' app' b' pid' →
  n = n' ∧ rt = rt' ∧ app = app' ∧ b = b' ∧ pid = pid'.
Proof.
  intros Hn Hn' Hrt Hrt' Happ Happ' [Hb1 Hb2] [Hb1' Hb2'] Hpid Hpid' H.
  unfold nonce_proof_preimage in H. apply app_inv_head in H.
  apply app_split in H as [Hnn H]; [|congruence].
  assert (∀ z, length (uuid_bytes z) = 16%nat) as Hu
    by (intros; unfold uuid_bytes, be_bytes; by rewrite length_rev, le_bytes_length).
  apply app_split in H as [Hr H]; [|by rewrite !Hu].
  apply app_split in H as [Ha H]; [|by rewrite !Hu].
  apply length_prefixed_inj in H as [Hid H]; [|done..].
  apply length_prefixed_inj in H as [Hver H]; [|done..].
  apply uuid_bytes_inj in Hr; [|done..]. apply uuid_bytes_inj in Ha; [|done..].
  apply le_bytes_inj in H; [|unfold u32_max in *; simpl; lia..].
  destruct n, n', b, b'. simpl in *. naive_solver.
Qed.

Lemma nonce_proof_preimage_injective_witness :
  mkNonceChallenge (repeat (byte_of 7) 32) = mkNonceChallenge (repeat (byte_of 7) 32) ∧
  1 = 1 ∧ 2 = 2 ∧
  mkRuntimeBackendIdentity (lit "node") (lit "1") = mkRuntimeBackendIdentity (lit "node") (lit "1") ∧
  44 = 44.
Proof.
  apply (nonce_proof_preimage_injective
    (mkNonceChallenge (repeat (byte_of 7) 32)) (mkNonceChallenge (repeat (byte_of 7) 32)) 1 1 2 2
    (mkRuntimeBackendIdentity (lit "node") (lit "1"))
    (mkRuntimeBackendIdentity (lit "node") (lit "1")) 44 44);
    first [reflexivity | unfold backend_bounded, u64_max, u32_max; vm_compute; split; discriminate
          | unfold u32_max; lia].
Defined.

(** ** Agreement of the two sides *)

Lemma features_negotiate_subset a b :
  features_are_subset (features_negotiate a b) a = true ∧
  features_are_subset (features_negotiate a b) b = true.
Proof.
  unfold features_are_subset; simpl.
  assert (∀ x y, negb (x && y) || x = true) as Hl by (by intros [] []).
  assert (∀ x y, negb (x && y) || y = true) as Hr by (by intros [] []).
  by rewrite !Hl, !Hr.
Qed.

(** The hello comes from the expected process and identity, with the proof that
    only the holder of the challenge can compute. *)
Definition hello_authentic `{Sha256} (host : HostHandshake) (hello : RuntimeHello) (pid : Z) : Prop :=
  pid = host_expected_peer_pid host ∧ hello_runtime hello = host_runtime host ∧
  hello_app hello = host_app host ∧ hello_backend hello = host_backend host ∧
  hello_nonce_proof hello =
    nonce_possession_proof (host_nonce host) (host_runtime host) (host_app host)
      (host_backend host) pid.

(** The welcome that both offers allow. *)
Definition welcome_agreed (host : HostHandshake) (hello : RuntimeHello) (w : RuntimeWelcome) : Prop :=
  welcome_session w = host_session host ∧
  welcome_compatibility w = host_compatibility host ∧ welcome_heartbeat w = host_heartbeat host ∧
  version_in (welcome_version w) (host_versions host) ∧
  version_in (welcome_version w) (hello_protocol_range hello) ∧
  limits_validate (welcome_limits w) = Ok tt ∧
  limits_le (welcome_limits w) (hello_requested_limits hello) ∧
  limits_le (welcome_limits w) (host_hard_limits host) ∧
  features_are_subset (welcome_features w) (hello_capabilities hello) = true ∧
  features_are_subset (welcome_features w) (host_features host) = true.

Lemma worker_accepts host hello w :
  welcome_agreed host hello w → limits_validate (hello_requested_limits hello) = Ok tt →
  worker_accept (worker_from_hello hello) w = Ok tt.
Proof.
  intros (_ & _ & _ & _ & (Hm & Hlo & Hhi) & Hv & Hle & _ & Hf & _) Hreq.
  unfold worker_accept, worker_from_hello, reject. cbn [worker_versions worker_offered_features worker_requested_limits].
  rewrite Hm, Z.eqb_refl. cbn [negb orb].
  destruct (Z.ltb_spec (minor (welcome_version w)) (minor (minimum (hello_protocol_range hello)))); [lia|].
  destruct (Z.ltb_spec (minor (maximum (hello_protocol_range hello))) (minor (welcome_version w))); [lia|].
  cbn [orb result_bind]. rewrite Hf. cbn [negb result_bind].
  rewrite limits_negotiate_le by done. cbn [map_err result_bind].
  by rewrite bool_decide_eq_true_2.
Qed.

Section Agreement.
Context `{Hash : Sha256}.
Variables (host : HostHandshake) (hello : RuntimeHello) (pid : Z).

Lemma host_negotiate_Ok w :
  limits_wf (hello_requested_limits hello) → limits_wf (host_hard_limits host) →
  host_negotiate host hello pid = Ok w →
  hello_authentic host hello pid ∧ welcome_agreed host hello w ∧
  limits_validate (hello_requested_limits hello) = Ok tt.
Proof.
  intros Hw1 Hw2 H. unfold host_negotiate, runtime_welcome_new in H. inv_ok.
  rewrite !orb_false_iff, !negb_false_iff, !bool_decide_eq_true in *.
  match goal with H : version_range_negotiate _ _ = _ |- _ =>
    apply version_range_negotiate_Some in H as (Hmaj & Hv1 & Hv2 & Hv3) end.
  match goal with H : limits_negotiate _ _ = _ |- _ =>
    pose proof (limits_negotiate_valid _ _ _ Hw1 Hw2 H) as [_ ?];
    apply limits_negotiate_Ok in H as (? & _ & ? & ? & _) end.
  destruct (features_negotiate_subset (hello_capabilities hello) (host_features host)).
  split_and!; [|split_and!; unfold version_in; simpl; try done; lia|done].
  unfold hello_authentic. destruct_and!. split_and!; try done. lia.
Qed.

(** C6: the handshake authenticates and agrees.  When the host accepts a hello,
    the hello came from the expected process with the expected runtime,
    application and backend and with the matching possession proof; the welcome
    selects a version in both ranges, limits and features within both offers;
    and the worker's own verifier accepts it. *)
Theorem handshake_agreement w :
  limits_wf (hello_requested_limits hello) → limits_wf (host_hard_limits host) →
  host_negotiate host hello pid = Ok w →
  hello_authentic host hello pid ∧ welcome_agreed host hello w ∧
  worker_accept (worker_from_hello hello) w = Ok tt.
Proof.
  intros Hw1 Hw2 H. apply host_negotiate_Ok in H as (? & ? & ?); [|done..].
  split_and!; [done..|]. by eapply worker_accepts.
Qed.

(** the handshake is live.  An authentic hello whose version range overlaps
    the host's, with nonzero limits on both sides, is always accepted. *)
Theorem handshake_completes :
  limits_wf (hello_requested_limits hello) → limits_wf (host_hard_limits host) →
  hello_authentic host hello pid →
  (∃ v, version_in v (host_versions host) ∧ version_in v (hello_protocol_range hello)) →
  limits_validate (hello_requested_limits hello) = Ok tt →
  limits_validate (host_hard_limits host) = Ok tt →
  ∃ w, host_negotiate host hello pid = Ok w ∧
    worker_accept (worker_from_hello hello) w = Ok tt.
Proof.
  intros Hw1 Hw2 (Hpid & Hr & Ha & Hb & Hproof) (v & (Hm1 & Hv1) & (Hm2 & Hv2)) Hl1 Hl2.
  destruct (limits_negotiate_total _ _ Hl1 Hl2) as [l Hl].
  pose proof (limits_negotiate_valid _ _ _ Hw1 Hw2 Hl) as [_ Hlv].
  assert (∃ w, host_negotiate host hello pid = Ok w) as [w Hw].
  { unfold host_negotiate. rewrite Hproof, Hr, Ha, Hb, !bool_decide_eq_true_2 by done.
    rewrite <-Hpid, Z.eqb_refl. cbn [negb orb reject result_bind].
    erewrite (proj2 (version_range_negotiate_Some _ _ (mkProtocolVersion (major v)
      (Z.min (minor (maximum (host_versions host))) (minor (maximum (hello_protocol_range hello))))))).
    2: { simpl. lia. }
    cbn [ok_or result_bind]. rewrite Hl. cbn [map_err result_bind].
    unfold runtime_welcome_new. rewrite Hlv. simpl. eauto. }
  exists w. split; [done|]. apply host_negotiate_Ok in Hw as (_ & ? & _); [|done..].
  by eapply worker_accepts.
Qed.
End Agreement.

(** ** Pending requests over a whole session *)

Inductive request_op : Type :=
| Op_Begin (now timeout : Z)
| Op_Cancel (id : Z)
| Op_Complete (id : Z)
| Op_Expire (now : Z).

(** What the caller of each operation observes when it succeeds. *)
Inductive request_event : Type :=
| Ev_Begun (id : Z)
| Ev_Cancelled (id : Z)
| Ev_Delivered (id : Z)
| Ev_Discarded (id : Z)
| Ev_Expired (id : Z).

#[global] Instance request_event_eq_dec : EqDecision request_event.
Proof. solve_decision. Defined.

Section History.
Variable (instant_max : Z).

Definition request_step (op : request_op) (st : PendingRequests) :
    list request_event * PendingRequests :=
  match op with
  | Op_Begin now timeout =>
    let '(r, st) := pending_begin instant_max now timeout st in
    (match r with Ok id => [Ev_Begun id] | Err _ => [] end, st)
  | Op_Cancel id =>
    let '(r, st) := pending_cancel id st in
    (match r with Ok _ => [Ev_Cancelled id] | Err _ => [] end, st)
  | Op_Complete id =>
    let '(r, st) := pending_complete id st in
    (match r with
     | Ok Delivered => [Ev_Delivered id]
     | Ok DiscardedAfterCancellation => [Ev_Discarded id]
     | Err _ => []
     end, st)
  | Op_Expire now =>
    let '(ids, st) := pending_expire now st in (map Ev_Expired ids, st)
  end.

Fixpoint request_run (ops : list request_op) (st : PendingRequests) :
    list request_event * PendingRequests :=
  match ops with
  | [] => ([], st)
  | op :: ops =>
    let '(tr, st) := request_step op st in
    let '(tr', st) := request_run ops st in
    (tr ++ tr', st)
  end.

(** The requests begun in a trace, and those that reached their one outcome. *)
Definition begun (tr : list request_event) : list Z :=
  omap (λ e, match e with Ev_Begun id => Some id | _ => None end) tr.
Definition resolved (tr : list request_event) : list Z :=
  omap (λ e, match e with
             | Ev_Delivered id | Ev_Discarded id | Ev_Expired id => Some id
             | _ => None
             end) tr.

Record history_ok (st : PendingRequests) (tr : list request_event) : Prop := {
  h_size : Z.of_nat (size (requests st)) <= pending_maximum st;
  h_next : 1 <= next_request_id st;
  h_begun : ∀ id, id ∈ begun tr → 1 <= id < next_request_id st;
  h_begun_nodup : NoDup (begun tr);
  h_resolved_nodup : NoDup (resolved tr);
  h_resolved : ∀ id, id ∈ resolved tr → id ∈ begun tr;
  h_live : ∀ id, is_Some (requests st !! id) ↔ id ∈ begun tr ∧ id ∉ resolved tr;
  h_cancelled : ∀ id r, requests st !! id = Some r →
    (cancelled r = true ↔ Ev_Cancelled id ∈ tr);
  h_cancelled_begun : ∀ id, Ev_Cancelled id ∈ tr → id ∈ begun tr;
  h_delivered : ∀ id, Ev_Delivered id ∈ tr → Ev_Cancelled id ∉ tr
}.

Lemma begun_app tr tr' : begun (tr ++ tr') = begun tr ++ begun tr'.
Proof. apply omap_app. Qed.
Lemma resolved_app tr tr' : resolved (tr ++ tr') = resolved tr ++ resolved tr'.
Proof. apply omap_app. Qed.
Lemma begun_expired ids : begun (map Ev_Expired ids) = [].
Proof. induction ids; simpl; auto. Qed.
Lemma resolved_expired ids : resolved (map Ev_Expired ids) = ids.
Proof. unfold resolved. induction ids as [|id ids IH]; simpl; [done|]. by f_equal. Qed.

Lemma begin_preserves now timeout id st tr st' :
  history_ok st tr → pending_begin instant_max now timeout st = (Ok id, st') →
  history_ok st' (tr ++ [Ev_Begun id]).
Proof.
  intros Hh H. unfold pending_begin in H. inv_mut.
  match goal with H : history_ok ?s _ |- _ => rename s into st end.
  destruct Hh as [Hs Hn Hb Hbn Hrn Hr Hl Hc Hcb Hd].
  assert (next_request_id st ∉ begun tr) as Hfresh by (intros Hin; apply Hb in Hin; lia).
  assert (requests st !! next_request_id st = None) as Hnone.
  { apply eq_None_not_Some. rewrite Hl. naive_solver. }
  split; simpl; rewrite ?begun_app, ?resolved_app, ?app_nil_r; simpl.
  - rewrite map_size_insert_None by done. lia.
  - lia.
  - intros id [?%Hb| ->%list_elem_of_singleton]%elem_of_app; lia.
  - apply NoDup_app. split_and!; [done| |apply NoDup_singleton].
    intros id Hin ->%list_elem_of_singleton. done.
  - done.
  - intros id Hin%Hr. apply elem_of_app. by left.
  - intros id. rewrite elem_of_app, list_elem_of_singleton.
    destruct (decide (id = next_request_id st)) as [->|Hne].
    + rewrite lookup_insert_eq. split; [|by eauto]. intros _. split; [by right|].
      intros Hin%Hr. done.
    + rewrite lookup_insert_ne by done. rewrite Hl. naive_solver.
  - intros id r. rewrite elem_of_app, list_elem_of_singleton.
    destruct (decide (id = next_request_id st)) as [->|Hne].
    + rewrite lookup_insert_eq. intros [= <-]. simpl. split; [done|].
      intros [?%Hcb|?]; done.
    + rewrite lookup_insert_ne by done. intros Hin. rewrite (Hc _ _ Hin). naive_solver.
  - intros id. rewrite !elem_of_app, list_elem_of_singleton. naive_solver.
  - intros id. rewrite !elem_of_app, !list_elem_of_singleton. naive_solver.
Qed.

Lemma cancel_preserves id c st tr st' :
  history_ok st tr → pending_cancel id st = (Ok c, st') →
  history_ok st' (tr ++ [Ev_Cancelled id]).
Proof.
  intros Hh H. unfold pending_cancel in H.
  apply mut_bind_Ok in H as (? & ? & [= <- <-] & H).
  apply mut_bind_Ok in H as (req & ? & [Hreq%ok_or_Ok ->]%mut_lift_Ok & H).
  destruct Hh as [Hs Hn Hb Hbn Hrn Hr Hl Hc Hcb Hd].
  assert (id ∈ begun tr ∧ id ∉ resolved tr) as [Hin Hnr] by (apply Hl; eauto).
  assert (∃ req', requests st' = <[id := req']> (requests st) ∧ cancelled req' = true ∧
    pending_maximum st' = pending_maximum st ∧ next_request_id st' = next_request_id st)
    as (req' & Heq & Hcanc & Hmax & Hnext).
  { destruct (cancelled req) eqn:E.
    - injection H as _ <-. exists req. by rewrite insert_id.
    - apply mut_bind_Ok in H as (? & ? & [= _ <-] & [= _ <-]). by eexists. }
  assert (Ev_Delivered id ∉ tr) as Hnd.
  { intros Hdel. apply Hnr. apply list_elem_of_omap. eauto. }
  split; rewrite ?Heq, ?Hmax, ?Hnext, ?begun_app, ?resolved_app, ?app_nil_r; try done.
  - rewrite map_size_insert_Some by eauto. done.
  - intros k. rewrite <-Hl. destruct (decide (k = id)) as [->|].
    + rewrite lookup_insert_eq. split; eauto.
    + by rewrite lookup_insert_ne.
  - intros k r. rewrite elem_of_app, list_elem_of_singleton. destruct (decide (k = id)) as [->|Hne].
    + rewrite lookup_insert_eq. intros [= <-]. naive_solver.
    + rewrite lookup_insert_ne by done. intros Hk. rewrite (Hc _ _ Hk). naive_solver.
  - intros k. rewrite elem_of_app, list_elem_of_singleton. naive_solver.
  - intros k. rewrite !elem_of_app, !list_elem_of_singleton. naive_solver.
Qed.

(** Removing resolved requests from the table. *)
Lemma resolve_preserves st tr st' tr' :
  history_ok st tr → begun tr' = [] →
  pending_maximum st' = pending_maximum st → next_request_id st' = next_request_id st →
  NoDup (resolved tr') →
  (∀ id, requests st' !! id = if bool_decide (id ∈ resolved tr') then None else requests st !! id) →
  (∀ id, id ∈ resolved tr' → is_Some (requests st !! id)) →
  (∀ id, Ev_Cancelled id ∉ tr') →
  (∀ id, Ev_Delivered id ∈ tr' → ∃ r, requests st !! id = Some r ∧ cancelled r = false) →
  history_ok st' (tr ++ tr').
Proof.
  intros [Hs Hn Hb Hbn Hrn Hr Hl Hc Hcb Hd] Hb' Hmax Hnext Hnd Hreq Hlive Hnc Hdel.
  assert (requests st' ⊆ requests st) as Hsub.
  { apply map_subseteq_spec. intros id r. rewrite Hreq. by case_bool_decide. }
  apply map_subseteq_size in Hsub.
  split; rewrite ?Hmax, ?Hnext, ?begun_app, ?Hb', ?resolved_app, ?app_nil_r; try done.
  - lia.
  - apply NoDup_app. split_and!; [done| |done]. intros id H1 H2%Hlive.
    apply Hl in H2 as [_ ?]. done.
  - intros id [?|H]%elem_of_app; [auto|]. by apply Hlive, Hl in H as [? _].
  - intros id. rewrite Hreq, not_elem_of_app. case_bool_decide as Hin.
    + split; [by intros []|]. naive_solver.
    + rewrite Hl. naive_solver.
  - intros id r. rewrite Hreq. case_bool_decide; [done|]. intros Hk. rewrite (Hc _ _ Hk), elem_of_app.
    naive_solver.
  - intros id [?|H]%elem_of_app; [auto|]. by apply Hnc in H.
  - intros id [H|H]%elem_of_app; rewrite not_elem_of_app; (split; [|done]); [auto|].
    apply Hdel in H as (r & Hk & Hf). rewrite <-(Hc _ _ Hk). by rewrite Hf.
Qed.

Lemma complete_preserves id c st tr st' :
  history_ok st tr → pending_complete id st = (Ok c, st') →
  history_ok st' (tr ++ [match c with Delivered => Ev_Delivered id | _ => Ev_Discarded id end]).
Proof.
  intros Hh H. unfold pending_complete in H.
  apply mut_bind_Ok in H as (? & ? & [= <- <-] & H).
  apply mut_bind_Ok in H as (req & ? & [Hreq%ok_or_Ok ->]%mut_lift_Ok & H).
  apply mut_bind_Ok in H as (? & ? & [= _ <-] & H).
  assert (c = if cancelled req then DiscardedAfterCancellation else Delivered) as ->
    by (by destruct (cancelled req); injection H as <- _).
  assert (st' = mkPendingRequests (pending_maximum st) (next_request_id st)
    (delete id (requests st))) as -> by (unfold mut_ret in H; by destruct (cancelled req); simplify_eq).
  assert (resolved [match (if cancelled req then DiscardedAfterCancellation else Delivered) with
    Delivered => Ev_Delivered id | _ => Ev_Discarded id end] = [id]) as Hres
    by (by destruct (cancelled req)).
  eapply resolve_preserves; try done; rewrite ?Hres.
  - by destruct (cancelled req).
  - apply NoDup_singleton.
  - intros k. simpl. case_bool_decide as Hk; rewrite list_elem_of_singleton in Hk.
    + subst. by rewrite lookup_delete_eq.
    + by rewrite lookup_delete_ne.
  - intros k ->%list_elem_of_singleton. eauto.
  - intros k ?%list_elem_of_singleton. by destruct (cancelled req).
  - intros k Hk%list_elem_of_singleton. exists req. destruct (cancelled req); naive_solver.
Qed.

Lemma foldl_delete_lookup {A} (m : gmap Z A) ids k :
  foldl (λ m id, delete id m) m ids !! k = if bool_decide (k ∈ ids) then None else m !! k.
Proof.
  revert m. induction ids as [|id ids IH]; intros m; cbn [foldl].
  - case_bool_decide as H; [by apply elem_of_nil in H|done].
  - rewrite IH. repeat case_bool_decide; try done.
    + set_solver.
    + assert (k = id) as -> by set_solver. by rewrite lookup_delete_eq.
    + rewrite lookup_delete_ne; [done|]. set_solver.
Qed.

Lemma elem_of_expired now st id :
  id ∈ (pending_expire now st).1 ↔ ∃ r, requests st !! id = Some r ∧ deadline r <= now.
Proof.
  unfold pending_expire; simpl. rewrite list_elem_of_fmap. split.
  - intros ([k r] & -> & [Hd Hin]%list_elem_of_filter). exists r.
    by rewrite <-(elem_of_btree_iter Z.leb).
  - intros (r & Hr & Hd). exists (id, r). split; [done|]. apply list_elem_of_filter.
    by rewrite elem_of_btree_iter.
Qed.

Lemma expire_preserves now st tr ids st' :
  history_ok st tr → pending_expire now st = (ids, st') →
  history_ok st' (tr ++ map Ev_Expired ids).
Proof.
  intros Hh H. pose proof (elem_of_expired now st) as Hin. rewrite H in Hin; simpl in Hin.
  unfold pending_expire in H. injection H as Hids <-.
  eapply resolve_preserves; try done; rewrite ?resolved_expired; rewrite ?Hids.
  - apply begun_expired.
  - rewrite <-Hids. apply filter_fst_NoDup, btree_iter_NoDup.
  - intros id. simpl. apply foldl_delete_lookup.
  - intros id (r & Hr & _)%Hin. eauto.
  - intros id (k & [=] & _)%list_elem_of_fmap.
  - intros id (k & [=] & _)%list_elem_of_fmap.
Qed.

(** An operation that fails leaves the table as it was. *)
Lemma begin_Err now timeout st e st' :
  pending_begin instant_max now timeout st = (Err e, st') → st' = st.
Proof.
  unfold pending_begin. intros H. run_mut H; done.
Qed.

Lemma cancel_Err id st e st' : pending_cancel id st = (Err e, st') → st' = st.
Proof. unfold pending_cancel. intros H. run_mut H; done. Qed.

Lemma complete_Err id st e st' : pending_complete id st = (Err e, st') → st' = st.
Proof. unfold pending_complete. intros H. run_mut H; done. Qed.

Lemma step_preserves op st tr tr' st' :
  history_ok st tr → request_step op st = (tr', st') → history_ok st' (tr ++ tr').
Proof.
  intros Hh. destruct op as [now timeout|id|id|now]; simpl.
  - destruct (pending_begin _ _ _ _) as [[id|e] s1] eqn:E; intros [= <- <-].
    + by eapply begin_preserves.
    + apply begin_Err in E as ->. by rewrite app_nil_r.
  - destruct (pending_cancel _ _) as [[c|e] s1] eqn:E; intros [= <- <-].
    + by eapply cancel_preserves.
    + apply cancel_Err in E as ->. by rewrite app_nil_r.
  - destruct (pending_complete _ _) as [[c|e] s1] eqn:E.
    + eapply complete_preserves in E; [|done]. by destruct c; intros [= <- <-].
    + intros [= <- <-]. apply complete_Err in E as ->. by rewrite app_nil_r.
  - destruct (pending_expire now st) as [ids s1] eqn:E. intros [= <- <-].
    by eapply expire_preserves.
Qed.

Lemma run_preserves ops st tr tr' st' :
  history_ok st tr → request_run ops st = (tr', st') → history_ok st' (tr ++ tr').
Proof.
  revert st tr tr'. induction ops as [|op ops IH]; intros st tr tr' Hh; simpl.
  { intros [= <- <-]. by rewrite app_nil_r. }
  destruct (request_step op st) as [tr1 s1] eqn:E1.
  destruct (request_run ops s1) as [tr2 s2] eqn:E2. intros [= <- <-].
  rewrite app_assoc. eapply IH; [|done]. by eapply step_preserves.
Qed.

Lemma history_new maximum st :
  0 <= maximum → pending_new maximum = Ok st → history_ok st [].
Proof.
  unfold pending_new. intros Hm H. inv_ok. split; simpl; try (by intros ? ?%elem_of_nil); try lia.
  - rewrite map_size_empty. lia.
  - constructor.
  - constructor.
  - intros id. rewrite lookup_empty. unfold begun. simpl. rewrite elem_of_nil. split; [by intros []|naive_solver].
  - intros id r. by rewrite lookup_empty.
Qed.

(** the life of requests over any session.  However begins, cancellations,
    completions and expiries are interleaved: request identities are nonzero
    and never issued twice; every request is resolved (delivered, discarded or
    expired) at most once, and only after it was begun; the table holds exactly
    the requests begun and not resolved, at most the configured maximum; and a
    request that was cancelled is never delivered. *)
Theorem pending_requests_history maximum st0 ops tr st :
  0 <= maximum → pending_new maximum = Ok st0 → request_run ops st0 = (tr, st) →
  NoDup (begun tr) ∧ (∀ id, id ∈ begun tr → 1 <= id) ∧
  NoDup (resolved tr) ∧ (∀ id, id ∈ resolved tr → id ∈ begun tr) ∧
  (∀ id, is_Some (requests st !! id) ↔ id ∈ begun tr ∧ id ∉ resolved tr) ∧
  pending_len st <= pending_maximum st ∧
  (∀ id, Ev_Delivered id ∈ tr → Ev_Cancelled id ∉ tr).
Proof.
  intros Hm Hnew Hrun. apply history_new in Hnew; [|done].
  apply (run_preserves _ _ [] _ _ Hnew) in Hrun as [? ? Hb ? ? ? ? ? ? ?].
  split_and!; try done. intros id ?%Hb. lia.
Qed.

(** expiry is exact.  [expire now] returns, in increasing order and without
    repetition, exactly the requests whose deadline is at or before [now], and
    removes exactly those. *)
Theorem expire_exact now st ids st' :
  pending_expire now st = (ids, st') →
  StronglySorted Z.lt ids ∧
  (∀ id, id ∈ ids ↔ ∃ r, requests st !! id = Some r ∧ deadline r <= now) ∧
  (∀ id, requests st' !! id =
     (requests st !! id ≫= λ r, if deadline r <=? now then None else Some r)).
Proof.
  intros H. pose proof (elem_of_expired now st) as Hin. rewrite H in Hin; simpl in Hin.
  unfold pending_expire in H. injection H as Hids <-. split_and!; [|done|].
  - rewrite <-Hids.
    pose proof (btree_iter_NoDup Z.leb (requests st)) as Hnd.
    apply (filter_fst_NoDup (λ p, deadline p.2 <= now)) in Hnd.
    pose proof (btree_iter_sorted Z.leb (requests st) ltac:(lia) ltac:(lia)) as Hs.
    apply (StronglySorted_filter _ (λ p, deadline p.2 <= now)) in Hs.
    revert Hnd Hs. generalize (filter (λ p, deadline p.2 <= now) (btree_iter Z.leb (requests st))).
    clear. induction l as [|[k r] l IH]; simpl; [constructor|].
    intros [Hk Hl]%NoDup_cons [Hs Hx]%StronglySorted_inv. constructor; [auto|].
    apply Forall_forall. intros k' (p & -> & Hp)%list_elem_of_fmap.
    eapply Forall_forall in Hx; [|done]. apply Is_true_true in Hx. simpl in Hx.
    assert (k ≠ p.1); [|lia]. intros ->. apply Hk. by apply list_elem_of_fmap_2.
  - intros id. simpl. rewrite Hids, foldl_delete_lookup. case_bool_decide as Hid.
    + apply Hin in Hid as (r & -> & Hd). simpl. by destruct (Z.leb_spec (deadline r) now); [|lia].
    + destruct (requests st !! id) as [r|] eqn:E; [|done]. simpl.
      destruct (Z.leb_spec (deadline r) now); [|done]. exfalso. apply Hid, Hin. eauto.
Qed.
End History.

(** ** Stream credit over a whole stream *)

Inductive credit_op : Type :=
| Credit_Grant (additional : Z)
| Credit_Consume (sequence bytes : Z).

Definition credit_step (op : credit_op) : mut StreamCredit StreamCreditError unit :=
  match op with
  | Credit_Grant additional => stream_grant additional
  | Credit_Consume sequence bytes => stream_consume sequence bytes
  end.

(** Every operation of a session in order; the operations that were accepted. *)
Fixpoint credit_run (ops : list credit_op) (st : StreamCredit) : list credit_op * StreamCredit :=
  match ops with
  | [] => ([], st)
  | op :: ops =>
    match credit_step op st with
    | (Ok _, st) => let '(done, st) := credit_run ops st in (op :: done, st)
    | (Err _, st) => credit_run ops st
    end
  end.

Definition granted (ops : list credit_op) : Z :=
  foldr (λ op acc, match op with Credit_Grant n => n + acc | _ => acc end) 0 ops.
Definition consumed (ops : list credit_op) : Z :=
  foldr (λ op acc, match op with Credit_Consume _ n => n + acc | _ => acc end) 0 ops.
Definition sequences (ops : list credit_op) : list Z :=
  omap (λ op, match op with Credit_Consume s _ => Some s | _ => None end) ops.

(** [u64] arguments. *)
Definition credit_op_wf (op : credit_op) : Prop :=
  match op with Credit_Grant n => 0 <= n | Credit_Consume s n => 0 <= s ∧ 0 <= n end.

Lemma stream_grant_Ok n st u st' :
  stream_grant n st = (Ok u, st') →
  n ≠ 0 ∧ st' = mkStreamCredit (available st + n) (next_stream_sequence st) ∧
  available st + n <= u64_max.
Proof. unfold stream_grant. intros H. inv_mut. split_and!; [lia|done|done]. Qed.

Lemma stream_consume_Ok s n st u st' :
  stream_consume s n st = (Ok u, st') →
  s = next_stream_sequence st ∧ n ≠ 0 ∧ n <= available st ∧
  st' = mkStreamCredit (available st - n) (next_stream_sequence st + 1).
Proof. unfold stream_consume. intros H. inv_mut. split_and!; [lia..|done]. Qed.

Lemma credit_step_Err op st e st' : credit_step op st = (Err e, st') → st' = st.
Proof.
  destruct op; simpl; [unfold stream_grant|unfold stream_consume]; intros H; run_mut H; done.
Qed.

(** stream credit is conserved.  Over any sequence of grants and sends,
    accepted or refused, the remaining credit is the initial credit plus what
    was granted minus what was consumed, it stays a [u64] (so nothing is ever
    sent beyond what the receiver granted), and the accepted data carries the
    consecutive sequence numbers from the first on; refused operations change
    nothing. *)
Theorem stream_credit_conserved ops st done st' :
  Forall credit_op_wf ops → 0 <= available st <= u64_max → credit_run ops st = (done, st') →
  available st' = available st + granted done - consumed done ∧
  0 <= available st' <= u64_max ∧
  sequences done = seqZ (next_stream_sequence st) (next_stream_sequence st' - next_stream_sequence st) ∧
  next_stream_sequence st <= next_stream_sequence st'.
Proof.
  revert st done. induction ops as [|op ops IH]; intros st done Hops Hst Hrun; simpl in Hrun.
  { injection Hrun as <- <-. rewrite Z.sub_diag. unfold granted, consumed; simpl. split_and!; [lia..|done|lia]. }
  apply Forall_cons in Hops as [Hop Hops].
  destruct (credit_step op st) as [[u|e] s1] eqn:Hstep.
  2: { apply credit_step_Err in Hstep as ->. by eapply IH. }
  destruct (credit_run ops s1) as [d s2] eqn:Hrest. injection Hrun as <- <-.
  destruct op as [n|s n]; simpl in Hop, Hstep.
  - apply stream_grant_Ok in Hstep as (_ & -> & ?).
    apply IH in Hrest as (-> & ? & Hseq & ?); [|done|simpl; lia].
    simpl in *. split_and!; [lia..|done|done].
  - apply stream_consume_Ok in Hstep as (-> & _ & ? & ->).
    apply IH in Hrest as (-> & ? & Hseq & ?); [|done|simpl; lia].
    cbn [available next_stream_sequence] in *. split_and!; [simpl; lia|lia|lia| |lia].
    change (next_stream_sequence st :: sequences d =
      seqZ (next_stream_sequence st) (next_stream_sequence s2 - next_stream_sequence st)).
    rewrite Hseq, (seqZ_cons (next_stream_sequence st)) by lia. f_equal. f_equal; lia.
Qed.

(** ** Concrete sessions *)

Section Examples.
Definition sample_hash : Sha256 := λ bs, take 32 (rev bs).
#[local] Existing Instance sample_hash.

Definition sample_backend : RuntimeBackendIdentity :=
  mkRuntimeBackendIdentity (lit "node") (lit "22.1").
Definition sample_range (lo hi : Z) : ProtocolVersionRange :=
  mkProtocolVersionRange (mkProtocolVersion 1 lo) (mkProtocolVersion 1 hi).
Definition sample_host : HostHandshake :=
  mkHostHandshake (mkNonceChallenge (repeat (byte_of 9) 32)) 44 1 2 sample_backend
    (sample_range 0 3) features_g1_control secure_default 5 (repeat (byte_of 1) 32)
    (mkHeartbeatPolicy 1000 5000).
Definition sample_hello : RuntimeHello :=
  mkRuntimeHello 1 2 sample_backend (sample_range 2 7)
    (nonce_possession_proof (host_nonce sample_host) 1 2 sample_backend 44)
    (mkProtocolFeatures true true false true true false) secure_default.
Definition sample_welcome : RuntimeWelcome :=
  mkRuntimeWelcome 5 (mkProtocolVersion 1 3) secure_default (repeat (byte_of 1) 32)
    (mkHeartbeatPolicy 1000 5000) (mkProtocolFeatures true true false true false false).

Lemma handshake_agreement_witness :
  host_negotiate sample_host sample_hello 44 = Ok sample_welcome ∧
  worker_accept (worker_from_hello sample_hello) sample_welcome = Ok tt.
Proof.
  assert (host_negotiate sample_host sample_hello 44 = Ok sample_welcome) as H
    by (vm_compute; reflexivity).
  split; [exact H|].
  exact (proj2 (proj2 (handshake_agreement sample_host sample_hello 44 sample_welcome
    secure_default_wf secure_default_wf H))).
Defined.

Lemma handshake_completes_witness :
  ∃ w, host_negotiate sample_host sample_hello 44 = Ok w ∧
    worker_accept (worker_from_hello sample_hello) w = Ok tt.
Proof.
  apply (handshake_completes sample_host sample_hello 44 secure_default_wf secure_default_wf).
  - split_and!; reflexivity.
  - exists (mkProtocolVersion 1 2). unfold version_in; simpl. lia.
  - reflexivity.
  - reflexivity.
Defined.

Definition sample_ops : list request_op :=
  [Op_Begin 10 5; Op_Begin 11 100; Op_Cancel 2; Op_Complete 2; Op_Expire 20; Op_Begin 21 1].
Definition sample_requests : PendingRequests := mkPendingRequests 4 1 ∅.

Lemma pending_requests_history_witness :
  (request_run 1000 sample_ops sample_requests).1 =
    [Ev_Begun 1; Ev_Begun 2; Ev_Cancelled 2; Ev_Discarded 2; Ev_Expired 1; Ev_Begun 3] ∧
  NoDup (resolved (request_run 1000 sample_ops sample_requests).1).
Proof.
  split; [vm_compute; reflexivity|].
  destruct (pending_requests_history 1000 4 sample_requests sample_ops
    (request_run 1000 sample_ops sample_requests).1
    (request_run 1000 sample_ops sample_requests).2) as (_ & _ & H & _); [lia|reflexivity| |exact H].
  apply surjective_pairing.
Defined.

Lemma expire_exact_witness :
  StronglySorted Z.lt
    (pending_expire 20 (request_run 1000 [Op_Begin 10 5; Op_Begin 11 2] sample_requests).2).1.
Proof.
  eapply (expire_exact 20 (request_run 1000 [Op_Begin 10 5; Op_Begin 11 2] sample_requests).2 _
    (pending_expire 20 (request_run 1000 [Op_Begin 10 5; Op_Begin 11 2] sample_requests).2).2).
  apply surjective_pairing.
Defined.

Lemma stream_credit_conserved_witness :
  available (credit_run [Credit_Consume 1 6; Credit_Consume 2 9; Credit_Grant 7;
                         Credit_Consume 2 9] (mkStreamCredit 10 1)).2 = 10 + 7 - 15.
Proof.
  apply (stream_credit_conserved
    [Credit_Consume 1 6; Credit_Consume 2 9; Credit_Grant 7; Credit_Consume 2 9]
    (mkStreamCredit 10 1) [Credit_Consume 1 6; Credit_Grant 7; Credit_Consume 2 9]).
  - do 4 (constructor; [simpl; lia|]). constructor.
  - unfold u64_max; simpl; lia.
  - reflexivity.
Defined.
End Examples.
