(* ===== verification/Origin.v ===== *)
(** * Origin: immutable package assets behind one private origin

    Models [crates/weregopher-renderer/src/origin.rs]: the limits, the asset
    path rules, the immutable package, the private origin of an application
    launch, request-path decoding and the [GET]/[HEAD] responder.

    The [uuid] and [hex] crates are parameters ([TextFormats]); what the origin
    relies on is that the simple form of a UUID is 32 lowercase hexadecimal
    digits and determines the UUID. *)

From S2P Require Import Prelude Wire.

Inductive PackageOriginError : Type :=
| Origin_InvalidLimits
| Origin_InvalidAssetPath
| Origin_AssetTooLarge (maximum actual : Z)
| Origin_EmptyPackage
| Origin_TooManyAssets (maximum actual : Z)
| Origin_DuplicateAsset (path : str)
| Origin_AggregateBytesOverflow
| Origin_PackageTooLarge (maximum actual : Z)
| Origin_UnsupportedMethod
| Origin_UrlTooLong (maximum actual : Z)
| Origin_OriginMismatch
| Origin_FragmentNotAllowed
| Origin_InvalidPercentEncoding
| Origin_InvalidUtf8Path
| Origin_AllocationFailed.

(** ** Limits *)

Record PackageOriginLimits : Type := mkPackageOriginLimits {
  limit_assets : Z;
  limit_path_bytes : Z;
  limit_asset_bytes : Z;
  limit_total_bytes : Z;
  limit_url_bytes : Z
}.

Definition package_limits_new (max_assets max_path_bytes max_asset_bytes max_total_bytes
    max_url_bytes : Z) : result PackageOriginLimits PackageOriginError :=
  if (max_assets =? 0) || (max_path_bytes =? 0) || (max_asset_bytes =? 0) ||
     (max_total_bytes =? 0) || (max_url_bytes =? 0) ||
     (max_total_bytes <? max_asset_bytes) || (max_url_bytes <? max_path_bytes)
  then Err Origin_InvalidLimits
  else Ok (mkPackageOriginLimits max_assets max_path_bytes max_asset_bytes max_total_bytes
             max_url_bytes).

Definition g1_fixture : PackageOriginLimits :=
  mkPackageOriginLimits 128 1024 (4 * 1024 * 1024) (16 * 1024 * 1024) 4096.

(** ** Asset paths *)

Definition segment_invalid (segment : str) : bool :=
  (len segment =? 0) || bool_decide (segment = lit ".") || bool_decide (segment = lit "..") ||
  existsb (λ b, (byte_val b <? 0x20) || (byte_val b =? 0x7f)) segment.

Definition validate_asset_path (path : str) (maximum : Z) : result unit PackageOriginError :=
  do? reject ((len path =? 0) || (maximum <? len path)) Origin_InvalidAssetPath in
  do? reject (starts_with_byte (chr "/") path || ends_with_byte (chr "/") path ||
              contains_any [chr "\"; chr "%"; chr "?"; chr "#"; chr ":"] path)
    Origin_InvalidAssetPath in
  reject (existsb segment_invalid (split (chr "/") path)) Origin_InvalidAssetPath.

(** [path.rsplit_once('.')]: the text after the last dot. *)
Definition rsplit_once (sep : byte) (s : str) : option (str * str) :=
  match split_once sep (rev s) with
  | Some (r, l) => Some (rev l, rev r)
  | None => None
  end.

Definition media_type_for (path : str) : string :=
  let extension := match rsplit_once (chr ".") path with Some (_, e) => e | None => [] end in
  let ext s := bool_decide (extension = lit s) in
  if ext "html" || ext "htm" then "text/html; charset=utf-8"
  else if ext "js" || ext "mjs" then "text/javascript; charset=utf-8"
  else if ext "css" then "text/css; charset=utf-8"
  else if ext "json" || ext "map" then "application/json; charset=utf-8"
  else if ext "txt" then "text/plain; charset=utf-8"
  else if ext "svg" then "image/svg+xml"
  else if ext "png" then "image/png"
  else if ext "jpg" || ext "jpeg" then "image/jpeg"
  else if ext "gif" then "image/gif"
  else if ext "webp" then "image/webp"
  else if ext "ico" then "image/x-icon"
  else if ext "wasm" then "application/wasm"
  else if ext "woff2" then "font/woff2"
  else "application/octet-stream".

(** ** Assets and packages *)

Record PackageAsset : Type := mkPackageAsset {
  asset_path : str;
  asset_media_type : string;
  asset_content : bytes;
  asset_digest : Sha256Digest
}.

Definition package_asset_new `{Sha256} (path : str) (bs : bytes) (limits : PackageOriginLimits) :
    result PackageAsset PackageOriginError :=
  do? validate_asset_path path (limit_path_bytes limits) in
  do? reject (limit_asset_bytes limits <? len bs)
    (Origin_AssetTooLarge (limit_asset_bytes limits) (len bs)) in
  Ok (mkPackageAsset path (media_type_for path) bs (sha256 bs)).

Record ImmutablePackage : Type := mkImmutablePackage {
  package_assets : gmap str PackageAsset;
  package_limits : PackageOriginLimits
}.

(** The loop of [ImmutablePackage::new]. *)
Fixpoint index_assets (assets : list PackageAsset) (total : Z) (indexed : gmap str PackageAsset)
    (limits : PackageOriginLimits) : result (gmap str PackageAsset) PackageOriginError :=
  match assets with
  | [] => Ok indexed
  | asset :: assets =>
    let? total := ok_or (checked_add usize_max total (len (asset_content asset)))
      Origin_AggregateBytesOverflow in
    do? reject (limit_total_bytes limits <? total)
      (Origin_PackageTooLarge (limit_total_bytes limits) total) in
    let path := asset_path asset in
    do? reject (bool_decide (is_Some (indexed !! path))) (Origin_DuplicateAsset path) in
    index_assets assets total (<[path := asset]> indexed) limits
  end.

Definition immutable_package_new (assets : list PackageAsset) (limits : PackageOriginLimits) :
    result ImmutablePackage PackageOriginError :=
  do? reject (len assets =? 0) Origin_EmptyPackage in
  do? reject (limit_assets limits <? len assets)
    (Origin_TooManyAssets (limit_assets limits) (len assets)) in
  let? indexed := index_assets assets 0 ∅ limits in
  Ok (mkImmutablePackage indexed limits).

Definition package_asset (self : ImmutablePackage) (path : str) : option PackageAsset :=
  package_assets self !! path.

(** ** Request paths *)

Definition decode_hex (b : byte) : result Z PackageOriginError :=
  let v := byte_val b in
  if in_range 48 57 v then Ok (v - 48)
  else if in_range 97 102 v then Ok (v - 97 + 10)
  else if in_range 65 70 v then Ok (v - 65 + 10)
  else Err Origin_InvalidPercentEncoding.

(** The byte that two hexadecimal digits denote, in checked [u8] arithmetic. *)
Definition decode_escape (high low : byte) : result byte PackageOriginError :=
  let? h := decode_hex high in
  let? value := ok_or (checked_mul u8_max h 16 ≫= λ v,
    match decode_hex low with Ok l => checked_add u8_max v l | Err _ => None end)
    Origin_InvalidPercentEncoding in
  Ok (byte_of value).

(** The check on each decoded byte. *)
Definition path_byte_rejected (encoded : bool) (b : byte) : bool :=
  (encoded && bool_decide (b = chr "/")) ||
  bool_decide (b ∈ [chr "\"; chr "?"; chr "#"; chr ":"]) ||
  (byte_val b <=? 0x1f) || (byte_val b =? 0x7f).

(** [while index < bytes.len()]: the bytes from [index] on, and the bytes
    decoded so far in order. *)
Fixpoint decode_loop (maximum : Z) (bs : bytes) (decoded : bytes) :
    result bytes PackageOriginError :=
  match bs with
  | [] => Ok decoded
  | b :: rest =>
    if bool_decide (b = chr "%") then
      match rest with
      | high :: low :: rest =>
        let? b := decode_escape high low in
        do? reject (path_byte_rejected true b) Origin_InvalidAssetPath in
        do? reject (maximum <=? len decoded) Origin_InvalidAssetPath in
        decode_loop maximum rest (decoded ++ [b])
      | _ => Err Origin_InvalidPercentEncoding
      end
    else
      do? reject (path_byte_rejected false b) Origin_InvalidAssetPath in
      do? reject (maximum <=? len decoded) Origin_InvalidAssetPath in
      decode_loop maximum rest (decoded ++ [b])
  end.

Definition decode_request_path `{Allocator} (encoded : str) (maximum : Z) :
    result str PackageOriginError :=
  if len encoded =? 0 then Ok (lit "index.html")
  else
    do? reject (negb (try_reserve (Z.min (len encoded) maximum))) Origin_AllocationFailed in
    let? decoded := decode_loop maximum encoded [] in
    do? reject (negb (utf8_valid decoded)) Origin_InvalidUtf8Path in
    do? validate_asset_path decoded maximum in
    Ok decoded.

(** ** The private origin *)

(** [Uuid::simple()] and [hex::encode]. *)
Class TextFormats : Type := {
  uuid_simple : Z → str;
  hex_encode : bytes → str
}.

Record PrivateOrigin : Type := mkPrivateOrigin {
  origin_host : str;
  base_url : str
}.

Definition origin_for_app `{TextFormats} (app : AppInstanceId) : PrivateOrigin :=
  let host := lit "app-" ++ uuid_simple app ++ lit ".weregopher.invalid" in
  mkPrivateOrigin host (lit "https://" ++ host ++ lit "/").

Definition entry_url (self : PrivateOrigin) (path : str) : result str PackageOriginError :=
  do? validate_asset_path path 4096 in
  Ok (base_url self ++ path).

(** [trim_end_matches('/')]. *)
Fixpoint drop_slashes (s : str) : str :=
  match s with
  | b :: s' => if bool_decide (b = chr "/") then drop_slashes s' else s
  | [] => []
  end.
Definition trim_end_slashes (s : str) : str := rev (drop_slashes (rev s)).

Definition origin_identity (self : PrivateOrigin) : OriginIdentity :=
  mkOriginIdentity (trim_end_slashes (base_url self)) false.

Definition request_path `{Allocator} (self : PrivateOrigin) (uri : str)
    (limits : PackageOriginLimits) : result str PackageOriginError :=
  do? reject (limit_url_bytes limits <? len uri)
    (Origin_UrlTooLong (limit_url_bytes limits) (len uri)) in
  do? reject (contains_byte (chr "#") uri) Origin_FragmentNotAllowed in
  let? remainder := ok_or (strip_prefix (base_url self) uri) Origin_OriginMismatch in
  let encoded_path := match split_once (chr "?") remainder with
                      | Some (path, _) => path
                      | None => remainder
                      end in
  decode_request_path encoded_path (limit_path_bytes limits).

(** ** Serving *)

Record PackageOriginResponse : Type := mkPackageOriginResponse {
  status_code : Z;
  reason : string;
  media_type : string;
  etag : str;
  content_length : Z;
  response_body : bytes
}.

Record PackageOrigin : Type := mkPackageOrigin {
  served_origin : PrivateOrigin;
  served_package : ImmutablePackage
}.

(** [Sha256Digest] as text, and [str::replace]. *)
Definition digest_to_string `{TextFormats} (d : Sha256Digest) : str :=
  lit "sha256:" ++ hex_encode d.
Fixpoint str_replace_from (fuel : nat) (from to s : str) : str :=
  match fuel with
  | O => s
  | S fuel =>
    match s with
    | [] => []
    | b :: s' =>
      match strip_prefix from s with
      | Some rest => to ++ str_replace_from fuel from to rest
      | None => b :: str_replace_from fuel from to s'
      end
    end
  end.
Definition str_replace (from to s : str) : str := str_replace_from (length s) from to s.

(** The double-quote character, and the strong validator of a digest. *)
Definition quote_mark : byte := byte_of 34.
Definition digest_etag `{TextFormats} (d : Sha256Digest) : str :=
  str_replace (lit "sha256:") (lit "sha256-") ([quote_mark] ++ digest_to_string d ++ [quote_mark]).

Definition serve `{Allocator} `{TextFormats} (self : PackageOrigin) (method uri : str) :
    result PackageOriginResponse PackageOriginError :=
  let? head := (if bool_decide (method = lit "GET") then Ok false
                else if bool_decide (method = lit "HEAD") then Ok true
                else Err Origin_UnsupportedMethod) in
  let? path := request_path (served_origin self) uri (package_limits (served_package self)) in
  match package_asset (served_package self) path with
  | None => Ok (mkPackageOriginResponse 404 "Not Found" "application/octet-stream" [] 0 [])
  | Some asset =>
    Ok (mkPackageOriginResponse 200 "OK" (asset_media_type asset)
          (digest_etag (asset_digest asset)) (len (asset_content asset))
          (if head : bool then [] else asset_content asset))
  end.

(** ** Canonical paths *)

(** A nonempty segment that is not a directory reference and has no control
    byte. *)
Definition segment_ok (segment : str) : Prop :=
  segment ≠ [] ∧ segment ≠ lit "." ∧ segment ≠ lit ".." ∧
  ∀ b, b ∈ segment → 0x20 <= byte_val b ∧ byte_val b ≠ 0x7f.

(** A package-relative path: no leading or trailing slash, no byte that a URL or
    a file system interprets, and only plain segments, so no traversal. *)
Definition canonical_path (path : str) : Prop :=
  path ≠ [] ∧ starts_with_byte (chr "/") path = false ∧ ends_with_byte (chr "/") path = false ∧
  (∀ b, b ∈ path → b ∉ [chr "\"; chr "%"; chr "?"; chr "#"; chr ":"]) ∧
  Forall segment_ok (split (chr "/") path).

Lemma segment_invalid_false s : segment_invalid s = false ↔ segment_ok s.
Proof.
  unfold segment_invalid, segment_ok. rewrite !orb_false_iff, !bool_decide_eq_false, Z.eqb_neq, len_zero.
  rewrite <-(not_true_iff_false (existsb _ _)), existsb_exists. split.
  - intros (((H1 & H2) & H3) & Hall). split_and!; try done. intros b Hb.
    destruct (Z.ltb_spec (byte_val b) 0x20), (Z.eqb_spec (byte_val b) 0x7f); try lia;
      (exfalso; apply Hall; exists b; rewrite <-list_elem_of_In; split; [done|lia]).
  - intros (H1 & H2 & H3 & Hall). split_and!; try done.
    intros (b & Hb%list_elem_of_In & Hbad). apply Hall in Hb. lia.
Qed.

Lemma validate_asset_path_Ok path maximum u :
  validate_asset_path path maximum = Ok u ↔ canonical_path path ∧ len path <= maximum.
Proof.
  unfold validate_asset_path, canonical_path. rewrite <-len_zero, <-contains_any_false. split.
  - intros H. inv_ok. rewrite !orb_false_iff in *. destruct_and!. split_and!; try done; try lia.
    apply Forall_forall. intros s Hs. apply segment_invalid_false.
    match goal with H : existsb _ _ = false |- _ => rewrite <-not_true_iff_false, existsb_exists in H;
      apply not_true_iff_false; intros Hbad; apply H end.
    exists s. by rewrite <-list_elem_of_In.
  - intros ((Hne & Hs & He & Hc & Hseg) & Hlen). unfold reject.
    destruct (Z.eqb_spec (len path) 0); [done|].
    destruct (Z.ltb_spec maximum (len path)); [lia|]. rewrite Hs, He, Hc. simpl.
    replace (existsb _ _) with false; [by destruct u|].
    symmetry. rewrite <-not_true_iff_false, existsb_exists. intros (s & Hin%list_elem_of_In & Hbad).
    eapply Forall_forall in Hseg; [|done]. apply segment_invalid_false in Hseg. congruence.
Qed.

(** The bytes of a canonical path pass the decoder unchanged. *)
Lemma canonical_path_bytes path b :
  canonical_path path → b ∈ path → b ≠ chr "%" ∧ b ≠ chr "?" ∧ b ≠ chr "#" ∧
  path_byte_rejected false b = false.
Proof.
  intros (_ & _ & _ & Hc & Hseg) Hb. pose proof (Hc b Hb) as Hn.
  assert (0x20 <= byte_val b ∧ byte_val b ≠ 0x7f) as [? ?].
  { destruct (elem_of_split (chr "/") path b Hb) as [->|(s & Hs & Hbs)]; [by vm_compute|].
    eapply Forall_forall in Hseg; [|done]. by apply Hseg. }
  rewrite !not_elem_of_cons in Hn. destruct Hn as (? & ? & ? & ? & ? & _).
  unfold path_byte_rejected. cbn [andb orb]. rewrite bool_decide_eq_false_2
    by (rewrite !not_elem_of_cons; split_and!; [done..|apply not_elem_of_nil]).
  simpl. split_and!; [done..|lia].
Qed.

(** ** Decoding *)

(** The value of a hexadecimal digit, in either case. *)
Definition hex_denotes (digit : byte) (v : Z) : Prop :=
  0 <= v < 10 ∧ byte_val digit = 48 + v ∨
  10 <= v < 16 ∧ (byte_val digit = 87 + v ∨ byte_val digit = 55 + v).

(** The documented meaning of an escaped path: a percent sign and two
    hexadecimal digits stand for the byte they denote, which is never a
    separator, and any other byte for itself. *)
Inductive percent_decoded : str → str → Prop :=
| decoded_nil : percent_decoded [] []
| decoded_escape h l x y b s t :
    hex_denotes h x → hex_denotes l y → byte_val b = 16 * x + y → b ≠ chr "/" → percent_decoded s t →
    percent_decoded (chr "%" :: h :: l :: s) (b :: t)
| decoded_plain b s t :
    b ≠ chr "%" → percent_decoded s t → percent_decoded (b :: s) (b :: t).

Lemma decode_hex_denotes b v : decode_hex b = Ok v → hex_denotes b v.
Proof.
  unfold decode_hex, hex_denotes, in_range. generalize (byte_val b). intros n. cbv zeta.
  repeat (match goal with |- context [?x <=? ?y] => destruct (Z.leb_spec x y) end; cbn [andb]);
    intros Hv; try discriminate Hv; injection Hv as <-; lia.
Qed.

Lemma decode_escape_denotes h l b :
  decode_escape h l = Ok b → ∃ x y, hex_denotes h x ∧ hex_denotes l y ∧ byte_val b = 16 * x + y.
Proof.
  unfold decode_escape. intros H. inv_ok. destruct (checked_mul u8_max _ 16) as [v|] eqn:Ev; [|done]. cbn in *.
  destruct (decode_hex l) as [y|] eqn:El; [|done]. unfold checked_mul in Ev. run_case; [|done].
  injection Ev as <-.
  repeat match goal with H : decode_hex _ = Ok _ |- _ => apply decode_hex_denotes in H end.
  repeat match goal with H : checked_add _ _ _ = Some _ |- _ => apply checked_add_Some in H as [-> ?] end.
  eexists _, _. split_and!; [done|done|]. unfold hex_denotes, u8_max in *. rewrite byte_val_of, Z.mod_small by lia. lia.
Qed.

Lemma decode_loop_sound maximum bs decoded out :
  decode_loop maximum bs decoded = Ok out → ∃ p, out = decoded ++ p ∧ percent_decoded bs p.
Proof.
  revert decoded. remember (length bs) as n eqn:Hn. revert bs Hn.
  induction n as [n IH] using lt_wf_ind; intros bs -> decoded.
  destruct bs as [|b rest]; simpl.
  { intros [= <-]. exists []. rewrite app_nil_r. split; [done|constructor]. }
  case_bool_decide as Hb; [subst; destruct rest as [|h [|l rest]]; try done|]; intros H; inv_ok.
  - eapply (IH (length rest)) in H as (p & -> & Hp); [|simpl; lia|done].
    rewrite <-app_assoc. eexists. split; [done|].
    match goal with H : decode_escape _ _ = Ok _ |- _ => apply decode_escape_denotes in H as (xh & xl & Hxh & Hxl & Hval) end.
    apply (decoded_escape _ _ xh xl); [done..| |done]. intros ->. done.
  - eapply (IH (length rest)) in H as (p & -> & Hp); [|simpl; lia|done].
    rewrite <-app_assoc. eexists. split; [done|]. by constructor.
Qed.

Lemma decode_loop_plain maximum p decoded :
  (∀ b, b ∈ p → b ≠ chr "%" ∧ path_byte_rejected false b = false) →
  len decoded + len p <= maximum → decode_loop maximum p decoded = Ok (decoded ++ p).
Proof.
  revert decoded. induction p as [|b p IH]; intros decoded Hp Hlen; simpl; [by rewrite app_nil_r|].
  destruct (Hp b) as [Hb Hr]; [set_solver|]. rewrite bool_decide_eq_false_2 by done.
  rewrite Hr. simpl. rewrite len_cons in Hlen. pose proof (len_nonneg p).
  unfold reject. destruct (Z.leb_spec maximum (len decoded)); [lia|]. simpl.
  rewrite IH; [by rewrite <-app_assoc|set_solver|]. rewrite len_app, len_cons, len_nil. lia.
Qed.

(** ** Requests *)

(** [hex::encode] digits, as the simple form of a UUID uses them. *)
Definition is_lower_hex (b : byte) : Prop :=
  48 <= byte_val b <= 57 ∨ 97 <= byte_val b <= 102.

(** What the origin relies on from the [uuid] crate. *)
Class LawfulText `{TextFormats} : Prop := {
  uuid_simple_digits id : 0 <= id < 2 ^ 128 → Forall is_lower_hex (uuid_simple id);
  uuid_simple_length id : 0 <= id < 2 ^ 128 → length (uuid_simple id) = 32%nat;
  uuid_simple_inj id id' :
    0 <= id < 2 ^ 128 → 0 <= id' < 2 ^ 128 → uuid_simple id = uuid_simple id' → id = id'
}.

Section Requests.
Context `{Alloc : Allocator} `{TF : TextFormats}.

Lemma request_path_sound o uri limits p :
  request_path o uri limits = Ok p →
  ∃ encoded rest, uri = base_url o ++ encoded ++ rest ∧ (chr "?" ∉ encoded) ∧
    (rest = [] ∨ (∃ q, rest = chr "?" :: q)) ∧ len uri <= limit_url_bytes limits ∧
    ((encoded = [] ∧ p = lit "index.html") ∨
     (percent_decoded encoded p ∧ len p <= limit_path_bytes limits)) ∧
    canonical_path p ∧ utf8_valid p = true.
Proof.
  unfold request_path, decode_request_path. intros H. inv_ok.
  match goal with H : strip_prefix _ _ = _ |- _ => apply strip_prefix_Some in H as -> end.
  assert (∃ encoded rest, x1 = encoded ++ rest ∧ (chr "?" ∉ encoded) ∧
    (rest = [] ∨ (∃ q, rest = chr "?" :: q)) ∧
    match split_once (chr "?") x1 with Some (path, _) => path | None => x1 end = encoded)
    as (encoded & rest & -> & Hq & Hrest & Henc).
  { destruct (split_once (chr "?") x1) as [[l r]|] eqn:E.
    - apply split_once_Some in E as [-> ?]. exists l, (chr "?" :: r). split_and!; eauto.
    - apply split_once_None in E. exists x1, []. rewrite app_nil_r. split_and!; auto. }
  rewrite Henc in H. exists encoded, rest. split_and!; try done; [lia| | |].
  all: destruct (Z.eqb_spec (len encoded) 0) as [->%len_zero|].
  all: inv_ok; auto.
  all: try (match goal with H : validate_asset_path _ _ = _ |- _ =>
         apply validate_asset_path_Ok in H as [? ?] end).
  - right. match goal with H : decode_loop _ _ _ = _ |- _ =>
      apply decode_loop_sound in H as (p' & -> & ?) end. done.
  - apply (validate_asset_path_Ok (lit "index.html") 10 tt). by vm_compute.
  - done.
  - match goal with H : negb _ = false |- utf8_valid _ = true =>
      by apply negb_false_iff in H end.
Qed.

(** an asset URL round-trips.  The URL that [entry_url] builds for a
    canonical path is accepted by [request_path] and decoded to exactly that
    path, as long as the URL and the path fit the configured ceilings. *)
Theorem entry_url_roundtrip o path url limits :
  ample Alloc → contains_byte (chr "#") (base_url o) = false → utf8_valid path = true →
  entry_url o path = Ok url →
  len url <= limit_url_bytes limits → len path <= limit_path_bytes limits →
  request_path o url limits = Ok path.
Proof.
  intros Hample Hbase Hutf Hurl Hlen Hplen. unfold entry_url in Hurl. inv_ok.
  match goal with H : validate_asset_path _ _ = _ |- _ =>
    apply validate_asset_path_Ok in H as [Hcan _] end.
  pose proof (λ b, canonical_path_bytes path b Hcan) as Hb.
  unfold request_path, reject. destruct (Z.ltb_spec (limit_url_bytes limits) (len (base_url o ++ path))); [lia|].
  cbn [result_bind].
  replace (contains_byte _ _) with false.
  2: { symmetry. apply contains_byte_false. apply contains_byte_false in Hbase.
       intros [?|Hin]%elem_of_app; [done|]. by apply Hb in Hin as (_ & _ & ? & _). }
  cbn [result_bind]. rewrite (proj2 (strip_prefix_Some _ _ path)) by done. cbn [ok_or result_bind].
  rewrite (proj2 (split_once_None _ _)) by (intros Hin; by apply Hb in Hin as (_ & ? & _)).
  unfold decode_request_path. pose proof Hcan as (Hne & _).
  destruct (Z.eqb_spec (len path) 0) as [?%len_zero|]; [done|].
  unfold try_reserve. rewrite Hample. cbn [negb reject result_bind].
  rewrite decode_loop_plain; [|by intros b Hin; apply Hb in Hin as (? & _ & _ & ?)|by rewrite len_nil].
  cbn [result_bind app]. rewrite Hutf. cbn [negb reject result_bind].
  by rewrite (proj2 (validate_asset_path_Ok path (limit_path_bytes limits) tt)).
Qed.

(** C7: only manifest assets are served.  Every accepted request is the origin,
    an escaped path and possibly a query; the path it names is the one the escapes
    denote ([index.html] for none), none of which stands for a separator, and it
    is canonical (no traversal, no control byte); the response is the asset the
    package holds under that path, whole for [GET] and without body for [HEAD],
    or an empty 404 when the package has none. *)
Theorem serve_only_manifest o method uri resp :
  serve o method uri = Ok resp →
  ∃ path encoded query, request_path (served_origin o) uri (package_limits (served_package o)) = Ok path ∧
    uri = base_url (served_origin o) ++ encoded ++ query ∧ (chr "?" ∉ encoded) ∧
    (query = [] ∨ ∃ q, query = chr "?" :: q) ∧
    (encoded = [] ∧ path = lit "index.html" ∨ percent_decoded encoded path) ∧ canonical_path path ∧
    match package_assets (served_package o) !! path with
    | None => status_code resp = 404 ∧ response_body resp = [] ∧ content_length resp = 0
    | Some asset =>
      status_code resp = 200 ∧ media_type resp = asset_media_type asset ∧
      content_length resp = len (asset_content asset) ∧
      (method = lit "GET" ∧ response_body resp = asset_content asset ∨
       method = lit "HEAD" ∧ response_body resp = [])
    end.
Proof.
  unfold serve. intros H. apply result_bind_Ok in H as (hd & Hm & H).
  apply result_bind_Ok in H as (path & Hp & H).
  destruct (request_path_sound _ _ _ _ Hp) as (enc & rest & -> & Hq & Hrest & _ & Hdec & Hcan & _).
  exists path, enc, rest. split_and!; [done..|by destruct Hdec as [|[? _]]; auto|done|]. unfold package_asset in H.
  destruct (package_assets (served_package o) !! path) as [asset|]; inv_ok; [|done].
  split_and!; try done. repeat case_bool_decide; inv_ok; auto.
Qed.

Lemma base_url_for_app_no_fragment {LT : LawfulText} app :
  0 <= app < 2 ^ 128 → contains_byte (chr "#") (base_url (origin_for_app app)) = false.
Proof.
  intros Happ. apply contains_byte_false. unfold origin_for_app. cbn [base_url].
  pose proof (uuid_simple_digits app Happ) as Hd. rewrite Forall_forall in Hd.
  assert (∀ s : str, contains_byte (chr "#") s = false → chr "#" ∉ s) as Hlit
    by (intros; by apply contains_byte_false).
  rewrite !not_elem_of_app. split_and!; try (by apply Hlit).
  intros Hin%Hd. by destruct Hin as [[? ?]|[? ?]].
Qed.

(** origins of different launches are disjoint.  A URL that the origin of
    one application accepts is refused as foreign by the origin of any other
    application. *)
Theorem origins_disjoint {LT : LawfulText} app app' uri limits path :
  0 <= app < 2 ^ 128 → 0 <= app' < 2 ^ 128 → app ≠ app' →
  request_path (origin_for_app app) uri limits = Ok path →
  request_path (origin_for_app app') uri limits = Err Origin_OriginMismatch.
Proof.
  intros Ha Ha' Hne H. unfold request_path in *. inv_ok.
  match goal with H : strip_prefix _ _ = Some ?r |- _ =>
    apply strip_prefix_Some in H; rename r into rest; rename H into Huri end.
  repeat match goal with H : _ = false |- _ => rewrite H; clear H end. cbn [reject result_bind].
  destruct (strip_prefix (base_url (origin_for_app app')) uri) as [rest'|] eqn:E; [|done].
  apply strip_prefix_Some in E. rewrite Huri in E. exfalso. apply Hne.
  unfold origin_for_app in E. cbn [base_url] in E. rewrite <-!app_assoc in E.
  do 2 apply app_inv_head in E.
  apply app_inj_1 in E as [E _]; [by apply uuid_simple_inj|].
  by rewrite !uuid_simple_length.
Qed.
End Requests.

(** ** Packages *)

Definition total_bytes (assets : list PackageAsset) : Z :=
  foldr (λ a acc, len (asset_content a) + acc) 0 assets.
Definition insert_all (m : gmap str PackageAsset) (assets : list PackageAsset) :
    gmap str PackageAsset :=
  foldl (λ m a, <[asset_path a := a]> m) m assets.

Lemma total_bytes_nonneg assets : 0 <= total_bytes assets.
Proof. induction assets as [|a l IH]; simpl; [lia|]. pose proof (len_nonneg (asset_content a)). lia. Qed.

Lemma index_assets_Ok assets total m limits m' :
  0 <= total <= limit_total_bytes limits → limit_total_bytes limits <= usize_max →
  index_assets assets total m limits = Ok m' ↔
  NoDup (map asset_path assets) ∧ (∀ a, a ∈ assets → m !! asset_path a = None) ∧
  total + total_bytes assets <= limit_total_bytes limits ∧ m' = insert_all m assets.
Proof.
  intros Ht Hmax. revert total m Ht. induction assets as [|a assets IH]; intros total m Ht; simpl.
  { split; [|naive_solver]. intros [= <-]. split_and!; [constructor|by intros ? ?%elem_of_nil|lia|done]. }
  pose proof (len_nonneg (asset_content a)). pose proof (total_bytes_nonneg assets).
  unfold checked_add, reject. rewrite NoDup_cons.
  destruct (Z.leb_spec (total + len (asset_content a)) usize_max); simpl; [|naive_solver lia].
  destruct (Z.ltb_spec (limit_total_bytes limits) (total + len (asset_content a))); simpl;
    [naive_solver lia|].
  case_bool_decide as Hdup; simpl.
  { split; [done|]. intros (_ & Hm & _). destruct Hdup as [? Hdup].
    rewrite (Hm a) in Hdup by set_solver. done. }
  rewrite IH by lia. apply eq_None_not_Some in Hdup. split.
  - intros (Hnd & Hm & Hle & ->). split_and!; [|done| |lia|done].
    + intros (b & Heq & Hb)%list_elem_of_fmap. specialize (Hm b Hb). rewrite Heq in Hm.
      by rewrite lookup_insert_eq in Hm.
    + intros b [->|Hb]%elem_of_cons; [done|]. specialize (Hm b Hb).
      by apply lookup_insert_None in Hm as [? _].
  - intros ((Hna & Hnd) & Hm & Hle & ->). split_and!; [done| |lia|done].
    intros b Hb. rewrite lookup_insert_ne; [apply Hm; set_solver|].
    intros Heq. apply Hna. rewrite Heq. by apply list_elem_of_fmap_2.
Qed.

Lemma insert_all_lookup m assets path a :
  NoDup (map asset_path assets) → (∀ b, b ∈ assets → m !! asset_path b = None) →
  insert_all m assets !! path = Some a ↔
  (a ∈ assets ∧ asset_path a = path) ∨ m !! path = Some a.
Proof.
  revert m. induction assets as [|b assets IH]; intros m; simpl.
  { rewrite elem_of_nil. naive_solver. }
  rewrite NoDup_cons. intros [Hb Hnd] Hm. rewrite IH; [|done|].
  - rewrite elem_of_cons. destruct (decide (asset_path b = path)) as [<-|Hne].
    + rewrite lookup_insert_eq, Hm by set_solver. naive_solver.
    + rewrite lookup_insert_ne by done. naive_solver.
  - intros c Hc. rewrite lookup_insert_ne; [apply Hm; set_solver|].
    intros Heq. apply Hb. rewrite Heq. by apply list_elem_of_fmap_2.
Qed.

(** a package is exactly its manifest.  Construction succeeds exactly for a
    nonempty list of at most the allowed number of assets with distinct paths
    whose total size fits, and the package then maps every path to the one
    asset listed under it and to nothing else. *)
Theorem immutable_package_exact assets limits p :
  0 <= limit_total_bytes limits <= usize_max →
  immutable_package_new assets limits = Ok p ↔
  assets ≠ [] ∧ len assets <= limit_assets limits ∧ NoDup (map asset_path assets) ∧
  total_bytes assets <= limit_total_bytes limits ∧ package_limits p = limits ∧
  (∀ path a, package_assets p !! path = Some a ↔ a ∈ assets ∧ asset_path a = path).
Proof.
  intros Hlim. unfold immutable_package_new. rewrite <-len_zero. split.
  - intros H. inv_ok. match goal with H : index_assets _ _ _ _ = _ |- _ =>
      apply index_assets_Ok in H as (Hnd & Hm & ? & ->); [|lia..] end.
    split_and!; try done; try lia. intros path a. simpl.
    rewrite insert_all_lookup, lookup_empty by done. naive_solver.
  - intros (Hne & Hlen & Hnd & Htot & Hl & Hlook). unfold reject.
    destruct (Z.eqb_spec (len assets) 0); [done|].
    destruct (Z.ltb_spec (limit_assets limits) (len assets)); [lia|]. cbn [result_bind].
    rewrite (proj2 (index_assets_Ok assets 0 ∅ limits (insert_all ∅ assets)
      ltac:(lia) ltac:(lia)))
      by (split_and!; [done|intros; apply lookup_empty|lia|done]). cbn [result_bind].
    destruct p as [m l]; simpl in *. subst l. do 2 f_equal. apply map_eq. intros path.
    apply option_eq. intros a. rewrite Hlook, insert_all_lookup by (done || intros; apply lookup_empty).
    rewrite lookup_empty. naive_solver.
Qed.

(** ** Concrete formats and packages *)

Section Examples.
Definition hex_digit (v : Z) : byte := byte_of (if v <? 10 then 48 + v else 87 + v).
Definition hex_of (bs : bytes) : str :=
  flat_map (λ b, [hex_digit (byte_val b / 16); hex_digit (byte_val b mod 16)]) bs.
Definition sample_text : TextFormats := {|
  uuid_simple id := hex_of (be_bytes 16 id);
  hex_encode := hex_of
|}.
#[local] Existing Instance sample_text.
#[local] Existing Instance ample_allocator.

Lemma hex_digit_val v :
  0 <= v < 16 → byte_val (hex_digit v) = if v <? 10 then 48 + v else 87 + v.
Proof.
  intros Hv. unfold hex_digit. rewrite byte_val_of. apply Z.mod_small.
  destruct (Z.ltb_spec v 10); lia.
Qed.

Lemma hex_digit_inj v w : 0 <= v < 16 → 0 <= w < 16 → hex_digit v = hex_digit w → v = w.
Proof.
  intros Hv Hw H%(f_equal byte_val). rewrite !hex_digit_val in H by done.
  destruct (Z.ltb_spec v 10), (Z.ltb_spec w 10); lia.
Qed.

Lemma nibbles b : 0 <= byte_val b / 16 < 16 ∧ 0 <= byte_val b mod 16 < 16 ∧
  byte_val b = 16 * (byte_val b / 16) + byte_val b mod 16.
Proof.
  pose proof (byte_val_range b). pose proof (Z.div_mod (byte_val b) 16 ltac:(lia)).
  pose proof (Z.mod_pos_bound (byte_val b) 16 ltac:(lia)). lia.
Qed.

Lemma hex_of_inj bs cs : hex_of bs = hex_of cs → bs = cs.
Proof.
  revert cs. induction bs as [|b bs IH]; intros [|c cs]; simpl; try done. intros [= H1 H2 H].
  pose proof (nibbles b). pose proof (nibbles c).
  apply hex_digit_inj in H1, H2; [|lia..]. f_equal; [|auto]. apply byte_val_inj. lia.
Qed.

#[local] Instance sample_text_lawful : LawfulText.
Proof.
  split; unfold uuid_simple, sample_text.
  - intros id _. generalize (be_bytes 16 id). induction l as [|b l IH]; simpl; [constructor|].
    destruct (nibbles b) as (? & ? & _).
    constructor; [|constructor; [|done]]; unfold is_lower_hex; rewrite hex_digit_val by done;
      match goal with |- context [?x <? 10] => destruct (Z.ltb_spec x 10) end; lia.
  - intros id _. unfold hex_of. unfold be_bytes. simpl. done.
  - intros id id' Hid Hid' H%hex_of_inj. unfold be_bytes in H.
    apply (f_equal (λ l, le_val (rev l))) in H. rewrite !rev_involutive, !le_val_bytes in H; done.
Qed.

#[local] Instance sample_sha : Sha256 := λ bs, take 32 (rev bs ++ repeat (byte_of 0) 32).

Definition sample_assets : list PackageAsset :=
  [mkPackageAsset (lit "index.html") "text/html; charset=utf-8" (lit "<p>") (sha256 (lit "<p>"));
   mkPackageAsset (lit "js/a b.js") "text/javascript; charset=utf-8" (lit "1") (sha256 (lit "1"))].
Definition sample_package : ImmutablePackage :=
  mkImmutablePackage (insert_all ∅ sample_assets) g1_fixture.
Definition sample_origin : PackageOrigin := mkPackageOrigin (origin_for_app 258) sample_package.
Definition sample_url : str := base_url (origin_for_app 258) ++ lit "js/a b.js".

Example serve_escaped :
  serve sample_origin (lit "GET") (base_url (origin_for_app 258) ++ lit "js/a%20b.js?v=1") =
  Ok (mkPackageOriginResponse 200 "OK" "text/javascript; charset=utf-8"
        (digest_etag (sha256 (lit "1"))) 1 (lit "1")).
Proof. vm_compute. reflexivity. Qed.

Lemma entry_url_roundtrip_witness :
  request_path (origin_for_app 258) sample_url g1_fixture = Ok (lit "js/a b.js").
Proof.
  apply (entry_url_roundtrip (origin_for_app 258) (lit "js/a b.js") sample_url g1_fixture
    ample_allocator_ample); vm_compute; (reflexivity || discriminate).
Defined.

Lemma serve_only_manifest_witness :
  ∃ path, request_path (served_origin sample_origin)
    (base_url (origin_for_app 258) ++ lit "js/a%20b.js?v=1") g1_fixture = Ok path ∧
    canonical_path path.
Proof.
  destruct (serve_only_manifest _ _ _ _ serve_escaped) as (path & _ & _ & Hp & _ & _ & _ & _ & Hc & _).
  exists path. split; [exact Hp|exact Hc].
Defined.

Lemma origins_disjoint_witness :
  request_path (origin_for_app 259) sample_url g1_fixture = Err Origin_OriginMismatch.
Proof.
  apply (origins_disjoint 258 259 sample_url g1_fixture (lit "js/a b.js")); [lia|lia|lia|].
  vm_compute. reflexivity.
Defined.

Lemma immutable_package_exact_witness :
  immutable_package_new sample_assets g1_fixture = Ok sample_package ∧
  (∀ path a, package_assets sample_package !! path = Some a ↔
     a ∈ sample_assets ∧ asset_path a = path).
Proof.
  assert (immutable_package_new sample_assets g1_fixture = Ok sample_package) as H
    by (vm_compute; reflexivity).
  split; [exact H|].
  apply (immutable_package_exact sample_assets g1_fixture sample_package); [|exact H].
  vm_compute. split; discriminate.
Defined.
End Examples.
