(* ===== verification/Lifecycle.v ===== *)
(** * Lifecycle: renderer states and navigation generations

    Models [crates/weregopher-renderer/src/lifecycle.rs]: one renderer's state
    machine, with the generation that numbers its navigations. *)

From S2P Require Import Prelude Wire.

Inductive RendererLifecycleState : Type :=
| Creating | Initialized | Navigating | DomContentLoaded | Loaded | Closing | Closed | Crashed.

#[global] Instance RendererLifecycleState_eq_dec : EqDecision RendererLifecycleState.
Proof. solve_decision. Defined.

Inductive RendererLifecycleError : Type :=
| InvalidTransition (from : RendererLifecycleState) (operation : string)
| StaleNavigation (expected actual : Z)
| NavigationGenerationExhausted.

Record RendererLifecycle : Type := mkRendererLifecycle {
  lifecycle_renderer : RendererId;
  state : RendererLifecycleState;
  generation : Z
}.

Definition lifecycle_new (renderer : RendererId) : RendererLifecycle :=
  mkRendererLifecycle renderer Creating 0.

Abbreviation lifecycle_mut := (mut RendererLifecycle RendererLifecycleError).

Definition set_state (next : RendererLifecycleState) : lifecycle_mut unit :=
  let* self := mut_get in
  mut_put (mkRendererLifecycle (lifecycle_renderer self) next (generation self)).

Definition transition (expected next : RendererLifecycleState) : lifecycle_mut unit :=
  let* self := mut_get in
  do* mut_lift (reject (negb (bool_decide (state self = expected)))
    (InvalidTransition (state self)
       (match next with
        | Initialized => "mark initialized"
        | DomContentLoaded => "mark DOM content loaded"
        | Loaded => "mark loaded"
        | Closed => "mark closed"
        | _ => "transition"
        end))) in
  set_state next.

Definition require_generation (g : Z) : lifecycle_mut unit :=
  let* self := mut_get in
  if g =? generation self then mut_ret tt
  else mut_lift (Err (StaleNavigation (generation self) g)).

Definition mark_initialized : lifecycle_mut unit := transition Creating Initialized.

Definition begin_navigation : lifecycle_mut Z :=
  let* self := mut_get in
  do* mut_lift (reject (match state self with Initialized | Loaded => false | _ => true end)
    (InvalidTransition (state self) "begin navigation")) in
  let* next := mut_lift (ok_or (checked_add u32_max (generation self) 1)
    NavigationGenerationExhausted) in
  do* mut_put (mkRendererLifecycle (lifecycle_renderer self) Navigating next) in
  mut_ret next.

Definition mark_dom_content_loaded (g : Z) : lifecycle_mut unit :=
  do* require_generation g in transition Navigating DomContentLoaded.

Definition mark_loaded (g : Z) : lifecycle_mut unit :=
  do* require_generation g in transition DomContentLoaded Loaded.

Definition mark_crashed : lifecycle_mut unit :=
  let* self := mut_get in
  do* mut_lift (reject (match state self with Closing | Closed => true | _ => false end)
    (InvalidTransition (state self) "mark crashed")) in
  set_state Crashed.

Definition begin_close : lifecycle_mut unit :=
  let* self := mut_get in
  do* mut_lift (reject (match state self with Closing | Closed => true | _ => false end)
    (InvalidTransition (state self) "begin close")) in
  set_state Closing.

Definition mark_closed : lifecycle_mut unit := transition Closing Closed.

(** ** The operations as one transition system *)

Inductive lifecycle_op : Type :=
| Op_MarkInitialized
| Op_BeginNavigation
| Op_MarkDomContentLoaded (g : Z)
| Op_MarkLoaded (g : Z)
| Op_MarkCrashed
| Op_BeginClose
| Op_MarkClosed.

Definition lifecycle_run_op (op : lifecycle_op) : lifecycle_mut unit :=
  match op with
  | Op_MarkInitialized => mark_initialized
  | Op_BeginNavigation => do* begin_navigation in mut_ret tt
  | Op_MarkDomContentLoaded g => mark_dom_content_loaded g
  | Op_MarkLoaded g => mark_loaded g
  | Op_MarkCrashed => mark_crashed
  | Op_BeginClose => begin_close
  | Op_MarkClosed => mark_closed
  end.

(** The diagram of the renderer's lifecycle, with the generation. *)
Inductive lifecycle_edge : RendererLifecycleState * Z → lifecycle_op →
    RendererLifecycleState * Z → Prop :=
| edge_init g : lifecycle_edge (Creating, g) Op_MarkInitialized (Initialized, g)
| edge_nav s g : s = Initialized ∨ s = Loaded → g + 1 <= u32_max →
    lifecycle_edge (s, g) Op_BeginNavigation (Navigating, g + 1)
| edge_dom g : lifecycle_edge (Navigating, g) (Op_MarkDomContentLoaded g) (DomContentLoaded, g)
| edge_load g : lifecycle_edge (DomContentLoaded, g) (Op_MarkLoaded g) (Loaded, g)
| edge_crash s g : s ≠ Closing → s ≠ Closed → lifecycle_edge (s, g) Op_MarkCrashed (Crashed, g)
| edge_close s g : s ≠ Closing → s ≠ Closed → lifecycle_edge (s, g) Op_BeginClose (Closing, g)
| edge_closed g : lifecycle_edge (Closing, g) Op_MarkClosed (Closed, g).

Definition view (l : RendererLifecycle) : RendererLifecycleState * Z := (state l, generation l).

Lemma lifecycle_run_op_spec op l :
  let '(r, l') := lifecycle_run_op op l in
  lifecycle_renderer l' = lifecycle_renderer l ∧
  match r with
  | Ok _ => lifecycle_edge (view l) op (view l')
  | Err _ => l' = l ∧ ∀ v, ¬ lifecycle_edge (view l) op v
  end.
Proof.
  destruct l as [rid s g]. unfold view.
  destruct op as [| |g'|g'| | |]; unfold lifecycle_run_op, mark_initialized, begin_navigation,
    mark_dom_content_loaded, mark_loaded, mark_crashed, begin_close, mark_closed, require_generation,
    transition, set_state, mut_bind, mut_get, mut_put, mut_lift, mut_ret, reject, checked_add, ok_or;
    cbn [state generation lifecycle_renderer].
  all: try (destruct (Z.eqb_spec g' g) as [->|Hg]).
  all: destruct s; simpl; try (destruct (Z.leb_spec (g + 1) u32_max); simpl).
  all: (split; [done|]); try (by constructor); try (constructor; auto; done).
  all: split; [done|]; intros v Hv; inversion Hv; subst; try done; try lia.
  all: match goal with H : _ ∨ _ |- _ => by destruct H end.
Qed.

Lemma lifecycle_edge_fun v op v1 v2 : lifecycle_edge v op v1 → lifecycle_edge v op v2 → v1 = v2.
Proof. intros H1 H2. inversion H1; subst; inversion H2; subst; done. Qed.

(** C8: the operations implement the lifecycle diagram.  An operation succeeds
    and leads to a state exactly when the diagram has that edge for it from the
    current state and generation; in every other case it fails and changes
    nothing.  The renderer identity never changes. *)
Theorem lifecycle_refines_diagram op l :
  (∀ l', lifecycle_run_op op l = (Ok tt, l') ↔
     lifecycle_renderer l' = lifecycle_renderer l ∧ lifecycle_edge (view l) op (view l')) ∧
  (∀ e l', lifecycle_run_op op l = (Err e, l') → l' = l).
Proof.
  pose proof (lifecycle_run_op_spec op l) as Hspec.
  destruct (lifecycle_run_op op l) as [[[]|e] l1]; destruct Hspec as [Hr Hspec].
  - split; [|naive_solver]. intros l'. split; [by intros [= <-]|].
    intros [Hr' He]. pose proof (lifecycle_edge_fun _ _ _ _ Hspec He) as [= ? ?].
    destruct l1, l'; simpl in *. congruence.
  - destruct Hspec as [-> Hno]. split; [|naive_solver]. intros l'. split; [done|].
    intros [_ He]. by apply Hno in He.
Qed.

(** ** Navigation events *)

Inductive nav_event : Type := Ev_Navigating (g : Z) | Ev_Dom (g : Z) | Ev_Loaded (g : Z).

Definition lifecycle_event (op : lifecycle_op) (l' : RendererLifecycle) : list nav_event :=
  match op with
  | Op_BeginNavigation => [Ev_Navigating (generation l')]
  | Op_MarkDomContentLoaded g => [Ev_Dom g]
  | Op_MarkLoaded g => [Ev_Loaded g]
  | _ => []
  end.

(** Run any operations in order, collecting the events of those that succeed. *)
Fixpoint lifecycle_run (ops : list lifecycle_op) (l : RendererLifecycle) :
    list nav_event * RendererLifecycle :=
  match ops with
  | [] => ([], l)
  | op :: ops =>
    match lifecycle_run_op op l with
    | (Ok _, l') => let '(tr, l'') := lifecycle_run ops l' in (lifecycle_event op l' ++ tr, l'')
    | (Err _, l') => lifecycle_run ops l'
    end
  end.

Definition round (g : Z) : list nav_event := [Ev_Navigating g; Ev_Dom g; Ev_Loaded g].
(** The complete navigations [1 .. g]. *)
Definition rounds (g : Z) : list nav_event := flat_map round (seqZ 1 g).

Definition trace_ok (v : RendererLifecycleState * Z) (tr : list nav_event) : Prop :=
  let '(s, g) := v in
  0 <= g ∧
  match s with
  | Creating | Initialized => g = 0 ∧ tr = []
  | Navigating => 1 <= g ∧ tr = rounds (g - 1) ++ [Ev_Navigating g]
  | DomContentLoaded => 1 <= g ∧ tr = rounds (g - 1) ++ [Ev_Navigating g; Ev_Dom g]
  | Loaded => 1 <= g ∧ tr = rounds g
  | Closing | Closed | Crashed => tr `prefix_of` rounds g
  end.

Lemma rounds_succ g : 1 <= g → rounds g = rounds (g - 1) ++ round g.
Proof.
  intros Hg. unfold rounds. replace g with ((g - 1) + 1) at 1 by lia.
  rewrite seqZ_app, flat_map_app by lia. f_equal.
  replace (1 + (g - 1)) with g by lia. by rewrite (seqZ_cons g), seqZ_nil by lia.
Qed.

Lemma trace_ok_prefix v tr : trace_ok v tr → tr `prefix_of` rounds v.2.
Proof.
  destruct v as [s g]. intros [Hg H]. simpl.
  destruct s; destruct_and?; subst; try done; try apply prefix_nil;
    rewrite (rounds_succ g) by done; apply prefix_app; [by exists [Ev_Dom g; Ev_Loaded g]|by exists [Ev_Loaded g]].
Qed.

Lemma trace_ok_edge op l l' tr :
  lifecycle_edge (view l) op (view l') → trace_ok (view l) tr →
  trace_ok (view l') (tr ++ lifecycle_event op l').
Proof.
  intros He Hok. pose proof (trace_ok_prefix _ _ Hok) as Hpre. unfold view in *.
  destruct l as [rid s g], l' as [rid' s' g']. simpl in *.
  inversion He; subst; simpl in *; rewrite ?app_nil_r; destruct_and?.
  - done.
  - split_and!; [lia..|]. replace (g + 1 - 1) with g by lia. f_equal.
    match goal with H : _ ∨ _ |- _ => destruct H as [-> | ->] end; destruct_and?; by subst.
  - subst. split_and!; [lia..|]. by rewrite <-app_assoc.
  - subst. split_and!; [lia..|]. rewrite (rounds_succ g') by done. by rewrite <-app_assoc.
  - split; [lia|done].
  - split; [lia|done].
  - done.
Qed.

Lemma lifecycle_run_trace ops l tr tr' l' :
  trace_ok (view l) tr → lifecycle_run ops l = (tr', l') → trace_ok (view l') (tr ++ tr').
Proof.
  revert l tr tr'. induction ops as [|op ops IH]; intros l tr tr' Hok; simpl.
  { intros [= <- <-]. by rewrite app_nil_r. }
  pose proof (lifecycle_run_op_spec op l) as Hspec.
  destruct (lifecycle_run_op op l) as [[[]|e] l1]; destruct Hspec as [_ Hspec].
  - destruct (lifecycle_run ops l1) as [tr2 l2] eqn:E2. intros [= <- <-].
    rewrite app_assoc. eapply IH; [|done]. by eapply trace_ok_edge.
  - destruct Hspec as [-> _]. by apply IH.
Qed.

(** navigations never interleave.  Whatever operations a backend attempts,
    in whatever order and with whatever stale generations, the accepted events
    are the beginning of the sequence: navigation 1, its DOM event, its load,
    navigation 2, and so on up to the current generation.  In particular no
    event of a superseded navigation is ever accepted, none is accepted twice,
    and no load precedes its DOM event. *)
Theorem navigation_events_ordered renderer ops tr l :
  lifecycle_run ops (lifecycle_new renderer) = (tr, l) → tr `prefix_of` rounds (generation l).
Proof.
  intros H. apply (lifecycle_run_trace ops _ []) in H; [|done].
  by apply trace_ok_prefix in H.
Qed.

Definition sample_lifecycle_ops : list lifecycle_op :=
  [Op_MarkInitialized; Op_BeginNavigation; Op_MarkLoaded 1; Op_MarkDomContentLoaded 1;
   Op_MarkLoaded 1; Op_BeginNavigation; Op_MarkDomContentLoaded 1; Op_MarkDomContentLoaded 2;
   Op_MarkCrashed; Op_MarkLoaded 2; Op_BeginClose; Op_MarkClosed; Op_BeginNavigation].

Lemma navigation_events_ordered_witness :
  (lifecycle_run sample_lifecycle_ops (lifecycle_new 3)).1 =
    [Ev_Navigating 1; Ev_Dom 1; Ev_Loaded 1; Ev_Navigating 2; Ev_Dom 2] ∧
  (lifecycle_run sample_lifecycle_ops (lifecycle_new 3)).1 `prefix_of` rounds 2.
Proof.
  split; [vm_compute; reflexivity|].
  apply (navigation_events_ordered 3 sample_lifecycle_ops _
    (lifecycle_run sample_lifecycle_ops (lifecycle_new 3)).2).
  apply surjective_pairing.
Defined.
