(* ===== verification/Bridge.v ===== *)
(** * Bridge: page messages become host-authorized runtime calls

    Models [crates/weregopher-domain/src/renderer.rs] (the contracts that cross
    the renderer boundary) and [crates/weregopher-renderer/src/bridge.rs] (the
    per-navigation authority that turns an untrusted page invocation into a
    runtime call).  A raw value of a [Raw*] structure is a value of the record it
    deserializes to, as in [Contracts]. *)

From S2P Require Import Prelude Wire Graph Contracts Origin.

(** ** Renderer contracts *)

Definition RENDERER_BRIDGE_NONCE_BYTES : Z := 16.
Definition MAX_RENDERER_BRIDGE_NAME_BYTES : Z := 255.
Definition MAX_RENDERER_BRIDGE_ERROR_BYTES : Z := 512.

Inductive RendererContractError : Type :=
| Renderer_ZeroBridgeNonce
| Renderer_ZeroNavigationGeneration
| Renderer_FrameRendererMismatch
| Renderer_FrameNavigationMismatch
| Renderer_WorldFrameMismatch
| Renderer_WorldNavigationMismatch
| Renderer_ZeroBridgeRequestId
| Renderer_EmptyText (field : string)
| Renderer_TextExceeded (field : string) (maximum actual : Z)
| Renderer_InvalidBridgeReplyShape
| Renderer_Wire (e : RuntimeProtocolContractError).

Record RendererBridgeNonce : Type := mkRendererBridgeNonce { bridge_nonce_bytes : bytes }.

#[global] Instance RendererBridgeNonce_eq_dec : EqDecision RendererBridgeNonce.
Proof. solve_decision. Defined.

(** The scan for a nonzero byte. *)
Fixpoint any_nonzero (bs : bytes) : bool :=
  match bs with
  | [] => false
  | b :: bs => if negb (byte_val b =? 0) then true else any_nonzero bs
  end.

Definition bridge_nonce_new (bs : bytes) : result RendererBridgeNonce RendererContractError :=
  if any_nonzero bs then Ok (mkRendererBridgeNonce bs) else Err Renderer_ZeroBridgeNonce.

Definition bridge_nonce_deserialize (raw : RendererBridgeNonce) :
    result RendererBridgeNonce RendererContractError :=
  bridge_nonce_new (bridge_nonce_bytes raw).

Definition renderer_validate_text (field : string) (value : str) (maximum : Z) :
    result unit RendererContractError :=
  do? reject (len value =? 0) (Renderer_EmptyText field) in
  reject (maximum <? len value) (Renderer_TextExceeded field maximum (len value)).

Definition validate_renderer_authority (renderer : RendererId) (frame : FrameIdentity)
    (world : WorldIdentity) (navigation_generation : Z) (limits : ProtocolLimits) :
    result unit RendererContractError :=
  do? reject (navigation_generation =? 0) Renderer_ZeroNavigationGeneration in
  do? reject (negb (bool_decide (frame_renderer frame = renderer)))
    Renderer_FrameRendererMismatch in
  do? reject (negb (frame_generation frame =? navigation_generation))
    Renderer_FrameNavigationMismatch in
  do? reject (negb (bool_decide (world_frame world = frame))) Renderer_WorldFrameMismatch in
  do? reject (negb (world_generation world =? navigation_generation))
    Renderer_WorldNavigationMismatch in
  renderer_validate_text "renderer origin" (serialized (frame_origin frame))
    (max_string_bytes limits).

Record RendererEnvelope : Type := mkRendererEnvelope {
  envelope_app : AppInstanceId;
  envelope_renderer : RendererId;
  envelope_frame : FrameIdentity;
  envelope_world : WorldIdentity;
  envelope_navigation_generation : Z;
  envelope_nonce : RendererBridgeNonce;
  envelope_payload : WireValue
}.

Record RendererBridgeInvocation : Type := mkRendererBridgeInvocation {
  invocation_nonce : RendererBridgeNonce;
  invocation_request_id : Z;
  invocation_method : str;
  invocation_args : list WireValue
}.

Record RendererBridgeFailure : Type := mkRendererBridgeFailure {
  failure_code : str;
  failure_message : str
}.

Definition bridge_failure_new (code message : str) :
    result RendererBridgeFailure RendererContractError :=
  do? renderer_validate_text "renderer bridge error code" code
        MAX_RENDERER_BRIDGE_NAME_BYTES in
  do? renderer_validate_text "renderer bridge error message" message
        MAX_RENDERER_BRIDGE_ERROR_BYTES in
  Ok (mkRendererBridgeFailure code message).

Definition bridge_failure_deserialize (raw : RendererBridgeFailure) :
    result RendererBridgeFailure RendererContractError :=
  bridge_failure_new (failure_code raw) (failure_message raw).

Record RendererBridgeReply : Type := mkRendererBridgeReply {
  reply_request_id : Z;
  reply_result : option WireValue;
  reply_error : option RendererBridgeFailure
}.

Definition reply_failure (request_id : Z) (code message : str) :
    result RendererBridgeReply RendererContractError :=
  do? reject (request_id =? 0) Renderer_ZeroBridgeRequestId in
  let? error := bridge_failure_new code message in
  Ok (mkRendererBridgeReply request_id None (Some error)).

Section Contracts.
Context `{Alloc : Allocator}.

Definition envelope_new (app : AppInstanceId) (renderer : RendererId) (frame : FrameIdentity)
    (world : WorldIdentity) (navigation_generation : Z) (nonce : RendererBridgeNonce)
    (payload : WireValue) (limits : ProtocolLimits) :
    result RendererEnvelope RendererContractError :=
  do? validate_renderer_authority renderer frame world navigation_generation limits in
  do? map_err Renderer_Wire (validate_wire_value_graph_for_app [payload] limits app) in
  Ok (mkRendererEnvelope app renderer frame world navigation_generation nonce payload).

Definition envelope_deserialize (raw : RendererEnvelope) :
    result RendererEnvelope RendererContractError :=
  let? nonce := bridge_nonce_deserialize (envelope_nonce raw) in
  envelope_new (envelope_app raw) (envelope_renderer raw) (envelope_frame raw)
    (envelope_world raw) (envelope_navigation_generation raw) nonce (envelope_payload raw)
    secure_default.

Definition invocation_new (nonce : RendererBridgeNonce) (request_id : Z) (method : str)
    (args : list WireValue) (limits : ProtocolLimits) :
    result RendererBridgeInvocation RendererContractError :=
  do? reject (request_id =? 0) Renderer_ZeroBridgeRequestId in
  do? renderer_validate_text "renderer bridge method" method MAX_RENDERER_BRIDGE_NAME_BYTES in
  do? map_err Renderer_Wire (validate_wire_value_graph args limits) in
  Ok (mkRendererBridgeInvocation nonce request_id method args).

Definition invocation_deserialize (raw : RendererBridgeInvocation) :
    result RendererBridgeInvocation RendererContractError :=
  let? nonce := bridge_nonce_deserialize (invocation_nonce raw) in
  invocation_new nonce (invocation_request_id raw) (invocation_method raw)
    (invocation_args raw) secure_default.

Definition reply_success (request_id : Z) (value : WireValue) (limits : ProtocolLimits) :
    result RendererBridgeReply RendererContractError :=
  do? reject (request_id =? 0) Renderer_ZeroBridgeRequestId in
  do? map_err Renderer_Wire (validate_wire_value_graph [value] limits) in
  Ok (mkRendererBridgeReply request_id (Some value) None).

Definition reply_deserialize (raw : RendererBridgeReply) :
    result RendererBridgeReply RendererContractError :=
  let? raw_error := (match reply_error raw with
                     | Some e => let? e := bridge_failure_deserialize e in Ok (Some e)
                     | None => Ok None
                     end) in
  match reply_result raw, raw_error with
  | Some value, None => reply_success (reply_request_id raw) value secure_default
  | None, Some error =>
    reply_failure (reply_request_id raw) (failure_code error) (failure_message error)
  | _, _ => Err Renderer_InvalidBridgeReplyShape
  end.
End Contracts.

(** ** The authority of one navigation *)

Definition G1_RENDERER_CALL_DEADLINE_MILLIS : Z := 5000.
Definition G1_MAIN_FRAME_ID : Z := 1.
Definition G1_MAIN_WORLD_ID : Z := 1.

Inductive RendererBridgeError : Type :=
| Bridge_ZeroNavigationGeneration
| Bridge_SourceMismatch
| Bridge_NonceMismatch
| Bridge_RequestReplay (request_id : Z)
| Bridge_RequestBudgetExceeded (maximum : Z)
| Bridge_Origin (e : PackageOriginError)
| Bridge_Renderer (e : RendererContractError)
| Bridge_Runtime (e : RuntimeProtocolContractError)
| Bridge_Limits (e : ProtocolLimitError).

Record AuthorizedRendererCall : Type := mkAuthorizedRendererCall {
  page_request_id : Z;
  authorized_envelope : RendererEnvelope;
  authorized_call : RuntimeCall
}.

Record RendererBridgeAuthority : Type := mkRendererBridgeAuthority {
  bridge_app : AppInstanceId;
  bridge_renderer : RendererId;
  bridge_origin : PrivateOrigin;
  bridge_navigation_generation : Z;
  bridge_nonce : RendererBridgeNonce;
  bridge_service : str;
  bridge_limits : ProtocolLimits;
  accepted_requests : gset Z
}.

Definition bridge_authority_new (app : AppInstanceId) (renderer : RendererId)
    (origin : PrivateOrigin) (navigation_generation : Z) (nonce : RendererBridgeNonce)
    (service : str) (limits : ProtocolLimits) :
    result RendererBridgeAuthority RendererBridgeError :=
  do? reject (navigation_generation =? 0) Bridge_ZeroNavigationGeneration in
  do? map_err Bridge_Limits (limits_validate limits) in
  do? map_err Bridge_Runtime (call_target_service service) in
  Ok (mkRendererBridgeAuthority app renderer origin navigation_generation nonce service
        limits ∅).

(** The identities that the host derives from its own state. *)
Definition bridge_frame (self : RendererBridgeAuthority) : FrameIdentity :=
  mkFrameIdentity (bridge_renderer self) G1_MAIN_FRAME_ID (bridge_navigation_generation self)
    None (origin_identity (bridge_origin self)) true.
Definition bridge_world (self : RendererBridgeAuthority) : WorldIdentity :=
  mkWorldIdentity (bridge_frame self) G1_MAIN_WORLD_ID (bridge_navigation_generation self)
    World_Main.
Definition bridge_context (self : RendererBridgeAuthority) : CallContext :=
  mkCallContext (bridge_app self) (Some (bridge_renderer self)) (Some (bridge_frame self))
    (Some (bridge_world self)) call_authority_default
    (Some G1_RENDERER_CALL_DEADLINE_MILLIS) None.

Section Authority.
Context `{Alloc : Allocator}.

Definition authorize (observed_source : str) (invocation : RendererBridgeInvocation) :
    mut RendererBridgeAuthority RendererBridgeError AuthorizedRendererCall :=
  let* self := mut_get in
  do* mut_lift (map_err (λ _, Bridge_SourceMismatch)
    (request_path (bridge_origin self) observed_source g1_fixture)) in
  do* mut_lift (reject (negb (bool_decide (invocation_nonce invocation = bridge_nonce self)))
    Bridge_NonceMismatch) in
  do* mut_lift (reject (bool_decide (invocation_request_id invocation ∈ accepted_requests self))
    (Bridge_RequestReplay (invocation_request_id invocation))) in
  do* mut_lift (reject (max_pending_requests (bridge_limits self) <=?
                        Z.of_nat (size (accepted_requests self)))
    (Bridge_RequestBudgetExceeded (max_pending_requests (bridge_limits self)))) in
  let* envelope := mut_lift (map_err Bridge_Renderer
    (envelope_new (bridge_app self) (bridge_renderer self) (bridge_frame self)
       (bridge_world self) (bridge_navigation_generation self) (bridge_nonce self)
       (Wire_Array (invocation_args invocation)) (bridge_limits self))) in
  let* target := mut_lift (map_err Bridge_Runtime (call_target_service (bridge_service self))) in
  let* call := mut_lift (map_err Bridge_Runtime
    (runtime_call_new target (invocation_method invocation) (invocation_args invocation)
       (bridge_context self) (bridge_limits self))) in
  do* mut_put (mkRendererBridgeAuthority (bridge_app self) (bridge_renderer self)
    (bridge_origin self) (bridge_navigation_generation self) (bridge_nonce self)
    (bridge_service self) (bridge_limits self)
    ({[invocation_request_id invocation]} ∪ accepted_requests self)) in
  mut_ret (mkAuthorizedRendererCall (invocation_request_id invocation) envelope call).
End Authority.

(** ** Laws of the contracts *)

Lemma renderer_validate_text_Ok f s m u : renderer_validate_text f s m = Ok u ↔ text_ok m s.
Proof.
  unfold renderer_validate_text, reject, text_ok. rewrite <-len_zero.
  destruct u, (Z.eqb_spec (len s) 0); simpl; [naive_solver|].
  destruct (Z.ltb_spec m (len s)); naive_solver lia.
Qed.

Lemma any_nonzero_true bs : any_nonzero bs = true ↔ ∃ b, b ∈ bs ∧ byte_val b ≠ 0.
Proof.
  induction bs as [|b bs IH]; simpl.
  { split; [done|]. by intros (b & ?%elem_of_nil & _). }
  destruct (Z.eqb_spec (byte_val b) 0) as [Hb|Hb]; simpl.
  - rewrite IH. split; intros (c & Hc & ?).
    + exists c. split; [by right|done].
    + apply elem_of_cons in Hc as [->|Hc]; [done|eauto].
  - split; [|done]. intros _. exists b. split; [by left|done].
Qed.

Lemma bridge_failure_new_Ok c msg f :
  bridge_failure_new c msg = Ok f ↔
  f = mkRendererBridgeFailure c msg ∧ text_ok MAX_RENDERER_BRIDGE_NAME_BYTES c ∧
  text_ok MAX_RENDERER_BRIDGE_ERROR_BYTES msg.
Proof.
  unfold bridge_failure_new. split.
  - intros H. inv_ok. rewrite !renderer_validate_text_Ok in *. done.
  - intros (-> & Hc & Hm).
    rewrite (proj2 (renderer_validate_text_Ok _ _ _ tt) Hc). simpl.
    by rewrite (proj2 (renderer_validate_text_Ok _ _ _ tt) Hm).
Qed.

(** What a reply must be: a nonzero request and exactly one outcome. *)
Definition reply_ok (r : RendererBridgeReply) : Prop :=
  reply_request_id r ≠ 0 ∧
  ((∃ v, reply_result r = Some v ∧ reply_error r = None ∧ graph_ok [v] secure_default None) ∨
   (∃ f, reply_result r = None ∧ reply_error r = Some f ∧
      text_ok MAX_RENDERER_BRIDGE_NAME_BYTES (failure_code f) ∧
      text_ok MAX_RENDERER_BRIDGE_ERROR_BYTES (failure_message f))).

Section Replies.
Context `{Alloc : Allocator}.

(** a reply deserializes exactly when it carries one outcome.  With stack
    space available, [RendererBridgeReply] accepts a raw reply exactly when its
    request id is nonzero and it holds either a bounded result or a bounded
    failure, never both and never neither, and it keeps the reply as it is. *)
Theorem reply_deserialize_exact raw r :
  ample Alloc → reply_deserialize raw = Ok r ↔ r = raw ∧ reply_ok raw.
Proof.
  intros Hample. destruct raw as [id res err]. unfold reply_deserialize, reply_ok; simpl. split.
  - intros H. destruct err as [[c m]|]; simpl in H.
    + unfold bridge_failure_deserialize in H. apply result_bind_Ok in H as (oe & He & H).
      apply result_bind_Ok in He as (e & He & [= <-]). pose proof He as He'.
      apply bridge_failure_new_Ok in He as (-> & Hc & Hm).
      destruct res; [done|]. unfold reply_failure in H. inv_ok.
      match goal with H : bridge_failure_new _ _ = _ |- _ =>
        apply bridge_failure_new_Ok in H as (-> & _ & _) end.
      split; [done|]. split; [lia|]. right. by eexists.
    + destruct res as [v|]; [|done]. unfold reply_success in H. inv_ok.
      match goal with H : validate_wire_value_graph _ _ = _ |- _ =>
        apply validate_graph_sound in H as [? _]; [|apply secure_default_wf] end.
      split; [done|]. split; [lia|]. left. by eexists.
  - intros (-> & Hid & [(v & -> & -> & Hg)|(f & -> & -> & Hc & Hm)]); simpl.
    + unfold reply_success, reject. destruct (Z.eqb_spec id 0); [done|]. simpl.
      unfold validate_wire_value_graph.
      by rewrite (validate_graph_complete _ _ _ Hample secure_default_wf Hg).
    + destruct f as [c m]. unfold bridge_failure_deserialize, reply_failure, reject; simpl in *.
      rewrite (proj2 (bridge_failure_new_Ok c m (mkRendererBridgeFailure c m))) by done. simpl.
      destruct (Z.eqb_spec id 0); [done|]. simpl.
      by rewrite (proj2 (bridge_failure_new_Ok c m (mkRendererBridgeFailure c m))) by done.
Qed.
End Replies.

(** ** What authorization grants *)

Section Authorization.
Context `{Alloc : Allocator}.

(** A failed authorization changes nothing. *)
Lemma authorize_Err source inv st e st' : authorize source inv st = (Err e, st') → st' = st.
Proof.
  unfold authorize. intros H.
  apply mut_bind_Err in H as [H|(a & s1 & [= <- <-] & H)]; [done|].
  do 7 (apply mut_bind_Err in H as [[= _ <-]|(? & ? & [= _ <-] & H)]; [done|]). done.
Qed.

(** The one call an accepted invocation becomes. *)
Definition derived_call (st : RendererBridgeAuthority) (inv : RendererBridgeInvocation) : RuntimeCall :=
  mkRuntimeCall (Target_Service (bridge_service st)) (invocation_method inv)
    (invocation_args inv) (bridge_context st).

Lemma authorize_Ok source inv st c st' :
  limits_wf (bridge_limits st) → authorize source inv st = (Ok c, st') →
  (∃ path, request_path (bridge_origin st) source g1_fixture = Ok path) ∧
  invocation_nonce inv = bridge_nonce st ∧
  (invocation_request_id inv ∉ accepted_requests st) ∧
  Z.of_nat (size (accepted_requests st)) < max_pending_requests (bridge_limits st) ∧
  page_request_id c = invocation_request_id inv ∧
  authorized_call c = derived_call st inv ∧
  runtime_call_ok (bridge_limits st) (derived_call st inv) ∧
  graph_ok [Wire_Array (invocation_args inv)] (bridge_limits st) (Some (bridge_app st)) ∧
  st' = mkRendererBridgeAuthority (bridge_app st) (bridge_renderer st) (bridge_origin st)
    (bridge_navigation_generation st) (bridge_nonce st) (bridge_service st) (bridge_limits st)
    ({[invocation_request_id inv]} ∪ accepted_requests st).
Proof.
  intros Hwf H. unfold authorize, envelope_new, call_target_service, runtime_call_new in H. inv_mut.
  rewrite negb_false_iff, bool_decide_eq_true, bool_decide_eq_false in *.
  match goal with H : runtime_call_validate _ _ = _ |- _ =>
    apply runtime_call_validate_sound in H; [|done] end.
  match goal with H : validate_wire_value_graph_for_app _ _ _ = _ |- _ =>
    apply validate_graph_sound in H as [? _]; [|done] end.
  split_and!; eauto. lia.
Qed.

(** a page cannot choose its authority.  An accepted invocation came from a
    document of the bound private origin with the active nonce; the runtime call
    it becomes has the configured service as target, the host's application,
    renderer, main frame and world, the host's deadline, and no capability and
    no user activation; the page only supplies the method and the arguments,
    which carry no handle of another application.  A refused invocation changes
    nothing. *)
Theorem authorize_derives_authority source inv st res st' :
  limits_wf (bridge_limits st) → authorize source inv st = (res, st') →
  match res with
  | Err _ => st' = st
  | Ok c =>
    (∃ path, request_path (bridge_origin st) source g1_fixture = Ok path) ∧
    invocation_nonce inv = bridge_nonce st ∧
    call_target (authorized_call c) = Target_Service (bridge_service st) ∧
    call_context (authorized_call c) = bridge_context st ∧
    ctx_authority (call_context (authorized_call c)) = mkCallAuthority None None ∧
    call_method (authorized_call c) = invocation_method inv ∧
    call_args (authorized_call c) = invocation_args inv ∧
    runtime_call_ok (bridge_limits st) (authorized_call c) ∧
    (∀ root u owner, root ∈ invocation_args inv → occurs_in u root →
       node_handle u = Some owner → owner = bridge_app st)
  end.
Proof.
  intros Hwf H. destruct res as [c|e]; [|by eapply authorize_Err].
  apply authorize_Ok in H as (? & ? & _ & _ & _ & Hc & Hok & _ & _); [|done].
  rewrite Hc. split_and!; try done. intros root u owner Hin Hocc Hown.
  destruct Hok as (_ & _ & _ & _ & Hall & _). simpl in Hall.
  eapply Forall_forall in Hall; [|done].
  destruct (value_ok_occurs _ _ _ _ Hocc Hall) as [Happ _]. by eapply Happ.
Qed.

(** The invocations of one navigation, in order; the requests accepted. *)
Fixpoint authorize_all (invs : list (str * RendererBridgeInvocation))
    (st : RendererBridgeAuthority) : list Z * RendererBridgeAuthority :=
  match invs with
  | [] => ([], st)
  | (source, inv) :: invs =>
    match authorize source inv st with
    | (Ok c, st) =>
      let '(ids, st) := authorize_all invs st in (page_request_id c :: ids, st)
    | (Err _, st) => authorize_all invs st
    end
  end.

(** C9: no page request is accepted twice in a navigation.  Over any sequence
    of messages, from whatever sources, the accepted request ids are pairwise
    distinct and new, and there are never more of them than the negotiated
    number of pending requests. *)
Theorem authorize_never_replays invs st ids st' :
  limits_wf (bridge_limits st) →
  Z.of_nat (size (accepted_requests st)) <= max_pending_requests (bridge_limits st) →
  authorize_all invs st = (ids, st') →
  NoDup ids ∧ (∀ id, id ∈ ids → id ∉ accepted_requests st) ∧
  accepted_requests st' = list_to_set ids ∪ accepted_requests st ∧
  Z.of_nat (size (accepted_requests st')) <= max_pending_requests (bridge_limits st).
Proof.
  revert st ids. induction invs as [|[source inv] invs IH]; intros st ids Hwf Hsize; simpl.
  { intros [= <- <-]. split_and!; [constructor|by intros ? ?%elem_of_nil|set_solver|done]. }
  destruct (authorize source inv st) as [[c|e] s1] eqn:E.
  2: { apply authorize_Err in E as ->. by apply IH. }
  apply authorize_Ok in E as (_ & _ & Hfresh & Hroom & Hid & _ & _ & _ & ->); [|done].
  set (s1 := mkRendererBridgeAuthority _ _ _ _ _ _ _ _).
  destruct (authorize_all invs s1) as [ids' s2] eqn:E2. intros [= <- <-].
  apply (IH s1) in E2 as (Hnd & Hnew & Hacc & Hle); [|done|].
  - unfold s1 in Hnew, Hacc; simpl in Hnew, Hacc. rewrite Hid. split_and!; try done.
    + constructor; [|done]. intros Hin%Hnew. set_solver.
    + intros id [->|Hin%Hnew]%elem_of_cons; set_solver.
    + rewrite Hacc. simpl. set_solver.
  - unfold s1; simpl. rewrite size_union by set_solver. rewrite size_singleton. lia.
Qed.

(** legitimate invocations are accepted.  A message from the bound origin
    with the active nonce, a fresh request id within the budget and a method
    within the limits, whose arguments (as one array) fit the limits and carry
    only the application's handles, is authorized. *)
Theorem authorize_accepts source inv st path :
  ample Alloc → limits_wf (bridge_limits st) →
  request_path (bridge_origin st) source g1_fixture = Ok path →
  invocation_nonce inv = bridge_nonce st →
  invocation_request_id inv ∉ accepted_requests st →
  Z.of_nat (size (accepted_requests st)) < max_pending_requests (bridge_limits st) →
  bridge_navigation_generation st ≠ 0 →
  text_ok (Z.min (max_string_bytes (bridge_limits st)) MAX_PROTOCOL_SERVICE_NAME_BYTES)
    (bridge_service st) →
  text_ok (max_string_bytes (bridge_limits st))
    (serialized (origin_identity (bridge_origin st))) →
  text_ok (max_string_bytes (bridge_limits st)) (invocation_method inv) →
  graph_ok [Wire_Array (invocation_args inv)] (bridge_limits st) (Some (bridge_app st)) →
  ∃ c st', authorize source inv st = (Ok c, st').
Proof.
  intros Hample Hwf Hpath Hnonce Hfresh Hroom Hgen Hservice Horigin Hmethod Hgraph.
  assert (runtime_call_validate (derived_call st inv) (bridge_limits st) = Ok tt) as Hcall.
  { apply runtime_call_validate_complete; [done..|]. split_and!; [done|done| |].
    - unfold call_context_ok; simpl. split_and!.
      + intros d [= <-]. done.
      + intros f [= <-]. done.
      + intros w [= <-]. done.
    - destruct Hgraph as (Hl & Hall & Hn & Hd & Hh).
      apply Forall_cons in Hall as [[_ Hargs]%value_ok_inv _].
      unfold graph_usage, forest_nodes in *; simpl in *.
      split_and!; try done; unfold graph_usage, forest_nodes; simpl; lia. }
  assert (envelope_new (bridge_app st) (bridge_renderer st) (bridge_frame st) (bridge_world st)
    (bridge_navigation_generation st) (bridge_nonce st) (Wire_Array (invocation_args inv))
    (bridge_limits st) = Ok (mkRendererEnvelope (bridge_app st) (bridge_renderer st) (bridge_frame st)
    (bridge_world st) (bridge_navigation_generation st) (bridge_nonce st)
    (Wire_Array (invocation_args inv)))) as Henv.
  { unfold envelope_new, validate_renderer_authority, reject.
    destruct (Z.eqb_spec (bridge_navigation_generation st) 0); [done|]. simpl.
    rewrite !bool_decide_eq_true_2, Z.eqb_refl by done. simpl.
    rewrite (proj2 (renderer_validate_text_Ok _ _ _ tt) Horigin). simpl.
    unfold validate_wire_value_graph_for_app. by rewrite validate_graph_complete. }
  assert (call_target_service (bridge_service st) = Ok (Target_Service (bridge_service st))) as Htarget.
  { unfold call_target_service. destruct Hservice.
    rewrite (proj2 (validate_text_Ok _ _ _ tt)); [done|]. split; [done|lia]. }
  do 2 eexists. unfold authorize. erewrite mut_bind_step by done.
  rewrite Hpath, Hnonce. erewrite mut_bind_step by done.
  rewrite bool_decide_eq_true_2 by done. erewrite mut_bind_step by done.
  rewrite bool_decide_eq_false_2 by done. erewrite mut_bind_step by done.
  destruct (Z.leb_spec (max_pending_requests (bridge_limits st))
    (Z.of_nat (size (accepted_requests st)))); [lia|]. erewrite mut_bind_step by done.
  rewrite Henv. erewrite mut_bind_step by done. rewrite Htarget. erewrite mut_bind_step by done.
  unfold runtime_call_new. unfold derived_call in Hcall. rewrite Hcall.
  erewrite mut_bind_step by done. done.
Qed.
End Authorization.

(** ** A concrete navigation *)

Section Examples.
#[local] Existing Instance ample_allocator.

Definition demo_authority : RendererBridgeAuthority :=
  mkRendererBridgeAuthority 7 5
    (mkPrivateOrigin (lit "app-1.weregopher.invalid") (lit "https://app-1.weregopher.invalid/"))
    1 (mkRendererBridgeNonce (repeat (byte_of 3) 16)) (lit "notes") secure_default ∅.
Definition demo_source : str := lit "https://app-1.weregopher.invalid/index.html".
Definition demo_invocation (id : Z) : RendererBridgeInvocation :=
  mkRendererBridgeInvocation (mkRendererBridgeNonce (repeat (byte_of 3) 16)) id (lit "save")
    [Wire_Handle (mkObjectHandle 7 1 1 Object_App)].
Definition demo_reply : RendererBridgeReply :=
  mkRendererBridgeReply 4 None (Some (mkRendererBridgeFailure (lit "denied") (lit "no access"))).

Lemma reply_deserialize_exact_witness :
  reply_deserialize demo_reply = Ok demo_reply ∧ reply_ok demo_reply.
Proof.
  assert (reply_deserialize demo_reply = Ok demo_reply) as H by (vm_compute; reflexivity).
  split; [exact H|].
  exact (proj2 (proj1 (reply_deserialize_exact demo_reply demo_reply ample_allocator_ample) H)).
Defined.

Lemma authorize_derives_authority_witness :
  ∃ c st', authorize demo_source (demo_invocation 9) demo_authority = (Ok c, st') ∧
    call_context (authorized_call c) = bridge_context demo_authority.
Proof.
  destruct (authorize demo_source (demo_invocation 9) demo_authority) as [[c|e] st'] eqn:E.
  - exists c, st'. split; [reflexivity|].
    exact (proj1 (proj2 (proj2 (proj2 (authorize_derives_authority demo_source (demo_invocation 9)
      demo_authority (Ok c) st' secure_default_wf E))))).
  - exfalso. vm_compute in E. discriminate E.
Defined.

Definition demo_messages : list (str * RendererBridgeInvocation) :=
  [(demo_source, demo_invocation 9); (demo_source, demo_invocation 9);
   (demo_source, demo_invocation 2)].

Lemma authorize_never_replays_witness :
  (authorize_all demo_messages demo_authority).1 = [9; 2] ∧
  NoDup (authorize_all demo_messages demo_authority).1.
Proof.
  split; [vm_compute; reflexivity|].
  apply (authorize_never_replays demo_messages demo_authority
    (authorize_all demo_messages demo_authority).1 (authorize_all demo_messages demo_authority).2
    secure_default_wf).
  - vm_compute. discriminate.
  - apply surjective_pairing.
Defined.

Lemma authorize_accepts_witness :
  ∃ c st', authorize demo_source (demo_invocation 9) demo_authority = (Ok c, st').
Proof.
  apply (authorize_accepts demo_source (demo_invocation 9) demo_authority (lit "index.html")
    ample_allocator_ample secure_default_wf).
  - vm_compute. reflexivity.
  - reflexivity.
  - apply not_elem_of_empty.
  - vm_compute. reflexivity.
  - discriminate.
  - split; vm_compute; discriminate.
  - split; vm_compute; discriminate.
  - split; vm_compute; discriminate.
  - refine (proj1 (validate_graph_sound _ _ _ (mkWireValueBudget 2 2 1) secure_default_wf _)).
    vm_compute. reflexivity.
Defined.
End Examples.
