(* ===== verification/ProxyMessage.v ===== *)
(** * ProxyMessage: one line of the app-server proxy

    Models the first half of
    [crates/weregopher-adapter-openai/src/app_server_proxy.rs]: the resource
    policy, the bounded JSON reading of one line and its structural
    classification.  The session that queues and correlates messages is in
    [Proxy.v].

    [serde_json] is a parameter: [json_stream] gives, for a line, the tree of
    events its deserializer presents to a visitor (with the syntax error at the
    point where it occurs, and duplicate keys kept) and the outcome of
    [Deserializer::end]. *)

From S2P Require Import Prelude Text Graph.

(** ** Limits *)

Definition ABSOLUTE_MAX_LINE_BYTES : Z := 16 * 1024 * 1024.
Definition ABSOLUTE_MAX_QUEUE_MESSAGES : Z := 4096.
Definition ABSOLUTE_MAX_QUEUE_BYTES : Z := 64 * 1024 * 1024.
Definition ABSOLUTE_MAX_JSON_DEPTH : Z := 128.
Definition ABSOLUTE_MAX_JSON_NODES : Z := 1048576.
Definition ABSOLUTE_MAX_ACTIVE_REQUESTS : Z := 4096.
Definition ABSOLUTE_MAX_REQUEST_HISTORY : Z := 1048576.
(** [Duration::from_hours(24)], in nanoseconds. *)
Definition ABSOLUTE_MAX_REQUEST_TIMEOUT : Z := 24 * 3600 * 1000000000.
Definition MAX_METHOD_BYTES : Z := 1024.
Definition MAX_REQUEST_ID_BYTES : Z := 256.
Definition REQUEST_ID_DIGEST_DOMAIN : bytes :=
  lit "weregopher.app-server-request-id.v1" ++ [byte_of 0].

Inductive AppServerProxyDirection : Type := ClientToServer | ServerToClient.
#[global] Instance AppServerProxyDirection_eq_dec : EqDecision AppServerProxyDirection.
Proof. solve_decision. Defined.

Definition opposite (d : AppServerProxyDirection) : AppServerProxyDirection :=
  match d with ClientToServer => ServerToClient | ServerToClient => ClientToServer end.

Inductive AppServerProxyMessageKind : Type :=
| Request | Notification | SuccessResponse | ErrorResponse.

Inductive AppServerRequestId : Type :=
| Id_Unsigned (value : Z)
| Id_Signed (value : Z)
| Id_Text (value : str).

#[global] Instance AppServerRequestId_eq_dec : EqDecision AppServerRequestId.
Proof. solve_decision. Defined.
#[global] Instance AppServerRequestId_countable : Countable AppServerRequestId.
Proof.
  refine (inj_countable'
    (λ i, match i with
          | Id_Unsigned v => inl (inl v) | Id_Signed v => inl (inr v) | Id_Text s => inr s
          end)
    (λ x, match x with
          | inl (inl v) => Id_Unsigned v | inl (inr v) => Id_Signed v | inr s => Id_Text s
          end) _).
  by intros [].
Defined.

(** The derived [Ord]: by variant, then by value. *)
Definition request_id_le (a b : AppServerRequestId) : bool :=
  match a, b with
  | Id_Unsigned x, Id_Unsigned y => x <=? y
  | Id_Unsigned _, _ => true
  | Id_Signed _, Id_Unsigned _ => false
  | Id_Signed x, Id_Signed y => x <=? y
  | Id_Signed _, Id_Text _ => true
  | Id_Text x, Id_Text y => str_le x y
  | Id_Text _, _ => false
  end.

Section Errors.
Context {JsonError : Type}.
Inductive AppServerProxyError : Type :=
| Proxy_InvalidQueueLimits
| Proxy_InvalidLineLimit
| Proxy_InvalidJsonLimits
| Proxy_InvalidActiveRequestLimit
| Proxy_InvalidRequestHistoryLimit
| Proxy_InvalidRequestTimeout
| Proxy_Closed
| Proxy_CandidateLimitsMismatch
| Proxy_EmptyLine
| Proxy_EmbeddedLineBreak
| Proxy_LineTooLarge
| Proxy_InvalidJson (e : JsonError)
| Proxy_TopLevelNotObject
| Proxy_DuplicateObjectKey
| Proxy_JsonDepthLimitExceeded
| Proxy_JsonNodeLimitExceeded
| Proxy_InvalidMethod
| Proxy_InvalidRequestId
| Proxy_AmbiguousMessageShape
| Proxy_QueueMessageLimitExceeded (direction : AppServerProxyDirection)
| Proxy_QueueByteLimitExceeded (direction : AppServerProxyDirection)
| Proxy_DuplicateRequestId (direction : AppServerProxyDirection)
| Proxy_ReusedRequestId (direction : AppServerProxyDirection)
| Proxy_ActiveRequestLimitExceeded
| Proxy_RequestHistoryLimitExceeded
| Proxy_ResponseBeforeRequestForwarded
| Proxy_DeadlineOverflow
| Proxy_NonMonotonicClock
| Proxy_InconsistentCorrelationState
| Proxy_DiagnosticCounterOverflow.
End Errors.
#[global] Arguments AppServerProxyError : clear implicits.

Record AppServerQueueLimits : Type := mkAppServerQueueLimits {
  queue_messages : Z;
  queue_max_bytes : Z
}.

Record AppServerJsonLimits : Type := mkAppServerJsonLimits {
  json_depth : Z;
  json_nodes : Z
}.

Record AppServerProxyLimits : Type := mkAppServerProxyLimits {
  line_bytes : Z;
  to_server_limits : AppServerQueueLimits;
  to_client_limits : AppServerQueueLimits;
  json_limits : AppServerJsonLimits;
  active_requests : Z;
  request_history_limit : Z;
  request_timeout : Z
}.

#[global] Instance AppServerProxyLimits_eq_dec : EqDecision AppServerProxyLimits.
Proof.
  assert (EqDecision AppServerQueueLimits) by solve_decision.
  assert (EqDecision AppServerJsonLimits) by solve_decision. solve_decision.
Defined.

Section Proxy.
Context {JsonError : Type}.
Abbreviation Error := (AppServerProxyError JsonError).

Definition queue_limits_new (messages bytes : Z) : result AppServerQueueLimits Error :=
  if (messages =? 0) || (ABSOLUTE_MAX_QUEUE_MESSAGES <? messages) ||
     (bytes =? 0) || (ABSOLUTE_MAX_QUEUE_BYTES <? bytes)
  then Err Proxy_InvalidQueueLimits
  else Ok (mkAppServerQueueLimits messages bytes).

Definition json_limits_new (depth nodes : Z) : result AppServerJsonLimits Error :=
  if (depth =? 0) || (ABSOLUTE_MAX_JSON_DEPTH <? depth) ||
     (nodes =? 0) || (ABSOLUTE_MAX_JSON_NODES <? nodes)
  then Err Proxy_InvalidJsonLimits
  else Ok (mkAppServerJsonLimits depth nodes).

Definition proxy_limits_new (line_bytes : Z) (to_server to_client : AppServerQueueLimits)
    (json : AppServerJsonLimits) (active_requests request_history request_timeout : Z) :
    result AppServerProxyLimits Error :=
  do? reject ((line_bytes =? 0) || (ABSOLUTE_MAX_LINE_BYTES <? line_bytes))
    Proxy_InvalidLineLimit in
  do? reject ((active_requests =? 0) || (ABSOLUTE_MAX_ACTIVE_REQUESTS <? active_requests))
    Proxy_InvalidActiveRequestLimit in
  do? reject ((request_history <? active_requests) ||
              (ABSOLUTE_MAX_REQUEST_HISTORY <? request_history))
    Proxy_InvalidRequestHistoryLimit in
  do? reject ((request_timeout =? 0) || (ABSOLUTE_MAX_REQUEST_TIMEOUT <? request_timeout))
    Proxy_InvalidRequestTimeout in
  Ok (mkAppServerProxyLimits line_bytes to_server to_client json active_requests
        request_history request_timeout).

(** [AppServerProxyLimits::initial], with [Duration::from_mins(5)]. *)
Definition proxy_limits_initial : AppServerProxyLimits :=
  mkAppServerProxyLimits (1024 * 1024)
    (mkAppServerQueueLimits 256 (8 * 1024 * 1024))
    (mkAppServerQueueLimits 256 (8 * 1024 * 1024))
    (mkAppServerJsonLimits 64 65536) 1024 65536 (5 * 60 * 1000000000).

(** ** Bounded JSON *)

(** What the deserializer presents to the visitor of one value.  A sequence or
    map may end in a syntax error; in a map the error may come after one more
    key was read, before its value. *)
Inductive json_tree : Type :=
| J_Null
| J_Bool (value : bool)
| J_Unsigned (value : Z)
| J_Signed (value : Z)
| J_Float (bits : Z)
| J_String (value : str)
| J_Array (elements : list json_tree) (broken : option JsonError)
| J_Object (members : list (str * json_tree)) (broken : option (option str * JsonError))
| J_Broken (e : JsonError).

(** [serde_json::Value]: a number is a nonnegative integer, a negative integer
    or a finite float; an object is the list of its members. *)
Inductive json_value : Type :=
| V_Null
| V_Bool (value : bool)
| V_Unsigned (value : Z)
| V_Signed (value : Z)
| V_Float (bits : Z)
| V_String (value : str)
| V_Array (elements : list json_value)
| V_Object (members : list (str * json_value)).

Inductive JsonViolation : Type := DuplicateKey | DepthViolation | NodeViolation.

(** How a bounded read stops: with a recorded violation, with an error of the
    deserializer, or with the visitor's own error for a non-finite number. *)
Inductive json_stop : Type :=
| Stop_Violation (v : JsonViolation)
| Stop_Source (e : JsonError)
| Stop_NonFinite.

(** [JsonBudget::claim]; the state is the node count. *)
Definition budget_claim (limits : AppServerJsonLimits) (depth : Z) : mut Z json_stop unit :=
  let* nodes := mut_get in
  do* mut_lift (reject (json_depth limits <? depth) (Stop_Violation DepthViolation)) in
  do* mut_lift (reject (json_nodes limits <=? nodes) (Stop_Violation NodeViolation)) in
  mut_put (nodes + 1).

(** [visit_seq] and [visit_map], over the read of one nested value.  A repeated
    key is refused before its value is read. *)
Section Visit.
Context (read : json_tree → mut Z json_stop json_value).

Fixpoint visit_seq (elements : list json_tree) (broken : option JsonError) :
    mut Z json_stop (list json_value) :=
  match elements with
  | [] => match broken with None => mut_ret [] | Some e => mut_lift (Err (Stop_Source e)) end
  | element :: elements =>
    let* value := read element in
    let* values := visit_seq elements broken in
    mut_ret (value :: values)
  end.

Fixpoint visit_map (members : list (str * json_tree)) (broken : option (option str * JsonError))
    (keys : gset str) : mut Z json_stop (list (str * json_value)) :=
  match members with
  | [] =>
    match broken with
    | None => mut_ret []
    | Some (last_key, e) =>
      do* mut_lift (reject match last_key with
                           | Some key => bool_decide (key ∈ keys)
                           | None => false
                           end (Stop_Violation DuplicateKey)) in
      mut_lift (Err (Stop_Source e))
    end
  | (key, member) :: members =>
    do* mut_lift (reject (bool_decide (key ∈ keys)) (Stop_Violation DuplicateKey)) in
    let* value := read member in
    let* values := visit_map members broken ({[key]} ∪ keys) in
    mut_ret ((key, value) :: values)
  end.
End Visit.

(** [BoundedValueSeed::deserialize] with its visitor: the node is claimed, then
    its elements or members are read one level deeper. *)
Fixpoint bounded_value (limits : AppServerJsonLimits) (t : json_tree) (depth : Z) :
    mut Z json_stop json_value :=
  do* budget_claim limits depth in
  match t with
  | J_Null => mut_ret V_Null
  | J_Bool b => mut_ret (V_Bool b)
  | J_Unsigned n => mut_ret (V_Unsigned n)
  | J_Signed n => mut_ret (if n <? 0 then V_Signed n else V_Unsigned n)
  | J_Float bits =>
    if f64_is_finite bits then mut_ret (V_Float bits) else mut_lift (Err Stop_NonFinite)
  | J_String s => mut_ret (V_String s)
  | J_Array elements broken =>
    let* values := visit_seq (λ e, bounded_value limits e (depth + 1)) elements broken in
    mut_ret (V_Array values)
  | J_Object members broken =>
    let* values := visit_map (λ e, bounded_value limits e (depth + 1)) members broken ∅ in
    mut_ret (V_Object values)
  | J_Broken e => mut_lift (Err (Stop_Source e))
  end.

(** The third-party JSON deserializer, and the error its visitor trait builds
    for a custom message. *)
Context (json_stream : bytes → json_tree * option JsonError) (json_custom : JsonError).

Definition parse_bounded_json (bs : bytes) (limits : AppServerJsonLimits) :
    result json_value Error :=
  let '(tree, trailing) := json_stream bs in
  match (bounded_value limits tree 1 0).1 with
  | Err (Stop_Violation DuplicateKey) => Err Proxy_DuplicateObjectKey
  | Err (Stop_Violation DepthViolation) => Err Proxy_JsonDepthLimitExceeded
  | Err (Stop_Violation NodeViolation) => Err Proxy_JsonNodeLimitExceeded
  | Err (Stop_Source e) => Err (Proxy_InvalidJson e)
  | Err Stop_NonFinite => Err (Proxy_InvalidJson json_custom)
  | Ok value =>
    match trailing with
    | Some e => Err (Proxy_InvalidJson e)
    | None => Ok value
    end
  end.

(** ** Classification *)

Record ClassifiedMessage : Type := mkClassifiedMessage {
  classified_kind : AppServerProxyMessageKind;
  classified_method : option str;
  classified_request_id : option AppServerRequestId
}.

(** [Map::get]. *)
Definition object_get (object : list (str * json_value)) (key : str) : option json_value :=
  match list_find (λ m, m.1 = key) object with Some (_, (_, v)) => Some v | None => None end.
Definition contains_key (object : list (str * json_value)) (key : str) : bool :=
  match object_get object key with Some _ => true | None => false end.

Definition parse_request_id (value : json_value) : result AppServerRequestId Error :=
  match value with
  | V_Unsigned n => Ok (Id_Unsigned n)
  | V_Signed n => Ok (Id_Signed n)
  | V_String s =>
    if negb (len s =? 0) && (len s <=? MAX_REQUEST_ID_BYTES) && negb (has_control s)
    then Ok (Id_Text s) else Err Proxy_InvalidRequestId
  | _ => Err Proxy_InvalidRequestId
  end.

Definition classify_object (object : list (str * json_value)) : result ClassifiedMessage Error :=
  let has_result := contains_key object (lit "result") in
  let has_error := contains_key object (lit "error") in
  let has_id := contains_key object (lit "id") in
  match object_get object (lit "method") with
  | Some method =>
    do? reject (has_result || has_error) Proxy_AmbiguousMessageShape in
    let? method := (match method with
                    | V_String s =>
                      if negb (len s =? 0) && (len s <=? MAX_METHOD_BYTES) && negb (has_control s)
                      then Ok s else Err Proxy_InvalidMethod
                    | _ => Err Proxy_InvalidMethod
                    end) in
    let? request_id := (if has_id then
        let? value := ok_or (object_get object (lit "id")) Proxy_InvalidRequestId in
        let? id := parse_request_id value in Ok (Some id)
      else Ok None) in
    Ok (mkClassifiedMessage
          (match request_id with Some _ => Request | None => Notification end)
          (Some method) request_id)
  | None =>
    do? reject (negb has_id || Bool.eqb has_result has_error) Proxy_AmbiguousMessageShape in
    let? value := ok_or (object_get object (lit "id")) Proxy_InvalidRequestId in
    let? request_id := (match value with
                        | V_Null => Ok None
                        | value => let? id := parse_request_id value in Ok (Some id)
                        end) in
    Ok (mkClassifiedMessage (if has_result then SuccessResponse else ErrorResponse)
          None request_id)
  end.

(** [u8::is_ascii_whitespace]. *)
Definition is_ascii_whitespace (b : byte) : bool :=
  bool_decide (byte_val b ∈ [0x20; 0x09; 0x0A; 0x0C; 0x0D]).

Definition parse_and_classify (json_line : bytes) (limits : AppServerProxyLimits) :
    result ClassifiedMessage Error :=
  do? reject ((len json_line =? 0) || forallb is_ascii_whitespace json_line)
    Proxy_EmptyLine in
  do? reject (existsb (λ b, (byte_val b =? 0x0D) || (byte_val b =? 0x0A)) json_line)
    Proxy_EmbeddedLineBreak in
  do? reject (line_bytes limits <? len json_line) Proxy_LineTooLarge in
  let? value := parse_bounded_json json_line (json_limits limits) in
  match value with
  | V_Object object => classify_object object
  | _ => Err Proxy_TopLevelNotObject
  end.

(** ** The value a line denotes *)

Lemma json_tree_nested_ind (P : json_tree → Prop) :
  P J_Null → (∀ b, P (J_Bool b)) → (∀ n, P (J_Unsigned n)) → (∀ n, P (J_Signed n)) →
  (∀ bits, P (J_Float bits)) → (∀ s, P (J_String s)) →
  (∀ es broken, Forall P es → P (J_Array es broken)) →
  (∀ ms broken, Forall (λ m, P m.2) ms → P (J_Object ms broken)) →
  (∀ e, P (J_Broken e)) → ∀ t, P t.
Proof.
  intros HN HB HU HS HF HT HA HO HX. fix IH 1.
  intros [|b|n|n|bits|s|es broken|ms broken|e];
    [apply HN|apply HB|apply HU|apply HS|apply HF|apply HT| | |apply HX].
  - apply HA. induction es as [|t es IHes]; constructor; [apply IH|exact IHes].
  - apply HO. induction ms as [|[k t] ms IHms]; constructor; [apply IH|exact IHms].
Qed.

(** No syntax error, no repeated key and no non-finite number, at any level. *)
Fixpoint json_clean (t : json_tree) : Prop :=
  match t with
  | J_Float bits => f64_is_finite bits = true
  | J_Array es broken => broken = None ∧ foldr (λ e P, json_clean e ∧ P) True es
  | J_Object ms broken =>
    broken = None ∧ NoDup ms.*1 ∧ foldr (λ m P, json_clean m.2 ∧ P) True ms
  | J_Broken _ => False
  | _ => True
  end.

Fixpoint json_height (t : json_tree) : nat :=
  match t with
  | J_Array es _ => S (max_list_with json_height es)
  | J_Object ms _ => S (max_list_with (λ m, json_height m.2) ms)
  | _ => 1
  end.

Fixpoint json_count (t : json_tree) : nat :=
  match t with
  | J_Array es _ => S (sum_list_with json_count es)
  | J_Object ms _ => S (sum_list_with (λ m, json_count m.2) ms)
  | _ => 1
  end.

Fixpoint json_image (t : json_tree) : json_value :=
  match t with
  | J_Null => V_Null
  | J_Bool b => V_Bool b
  | J_Unsigned n => V_Unsigned n
  | J_Signed n => if n <? 0 then V_Signed n else V_Unsigned n
  | J_Float bits => V_Float bits
  | J_String s => V_String s
  | J_Array es _ => V_Array (map json_image es)
  | J_Object ms _ => V_Object (map (λ m, (m.1, json_image m.2)) ms)
  | J_Broken _ => V_Null
  end.

(** What a successful bounded read at depth [d] with [n] nodes spent means. *)
Definition fits (limits : AppServerJsonLimits) (t : json_tree) (d n : Z) : Prop :=
  json_clean t ∧ d + Z.of_nat (json_height t) - 1 <= json_depth limits ∧
  n + Z.of_nat (json_count t) <= json_nodes limits.

Lemma json_height_pos t : (1 <= json_height t)%nat.
Proof. destruct t; simpl; lia. Qed.
Lemma json_count_pos t : (1 <= json_count t)%nat.
Proof. destruct t; simpl; lia. Qed.

Lemma budget_claim_Ok limits d n u n' :
  budget_claim limits d n = (Ok u, n') ↔
  d <= json_depth limits ∧ n + 1 <= json_nodes limits ∧ n' = n + 1.
Proof.
  unfold budget_claim, mut_bind, mut_get, mut_lift, mut_put, reject.
  destruct (Z.ltb_spec (json_depth limits) d), (Z.leb_spec (json_nodes limits) n), u;
    naive_solver lia.
Qed.

Definition reads (limits : AppServerJsonLimits) (t : json_tree) : Prop :=
  ∀ d n v n', bounded_value limits t d n = (Ok v, n') ↔
    fits limits t d n ∧ v = json_image t ∧ n' = n + Z.of_nat (json_count t).

Lemma visit_seq_Ok limits es broken d n vs n' :
  Forall (reads limits) es →
  visit_seq (λ e, bounded_value limits e d) es broken n = (Ok vs, n') ↔
  broken = None ∧ foldr (λ e P, json_clean e ∧ P) True es ∧
  (es ≠ [] → d + Z.of_nat (max_list_with json_height es) - 1 <= json_depth limits) ∧
  (es ≠ [] → n + Z.of_nat (sum_list_with json_count es) <= json_nodes limits) ∧
  vs = map json_image es ∧ n' = n + Z.of_nat (sum_list_with json_count es).
Proof.
  intros Hes. revert n vs n'. induction Hes as [|e es He Hes IH]; intros n vs n'.
  { cbn. rewrite !Z.add_0_r. destruct broken; unfold mut_lift, mut_ret.
    - split; [intros [=]|intros ([=] & _)].
    - split; [intros [= <- <-]; done|]. by intros (_ & _ & _ & _ & -> & ->). }
  cbn [visit_seq map foldr max_list_with sum_list_with].
  rewrite mut_bind_Ok. setoid_rewrite mut_bind_Ok.
  pose proof (json_count_pos e). pose proof (json_height_pos e).
  split.
  - intros (v & n1 & Hv & vs1 & n2 & Hvs & [= <- <-]).
    apply He in Hv as ((Hc & Hd & Hn) & -> & ->). apply IH in Hvs as (-> & Hcs & Hds & Hns & -> & ->).
    split_and!; try done; intros; destruct es as [|e' es]; cbn in *; try lia;
      specialize (Hds ltac:(done)); specialize (Hns ltac:(done)); lia.
  - intros (-> & (Hc & Hcs) & Hd & Hn & -> & ->).
    specialize (Hd ltac:(done)). specialize (Hn ltac:(done)).
    eexists _, _. split; [apply He; split_and!; [split_and!; [done|lia|lia]|done|done]|].
    eexists _, _. split; [apply IH; split_and!; try done; intros; lia|].
    unfold mut_ret. f_equal. lia.
Qed.

Lemma visit_map_Ok limits ms broken keys d n vs n' :
  Forall (λ m, reads limits m.2) ms →
  visit_map (λ e, bounded_value limits e d) ms broken keys n = (Ok vs, n') ↔
  broken = None ∧ NoDup ms.*1 ∧ (∀ k, k ∈ ms.*1 → k ∉ keys) ∧
  foldr (λ m P, json_clean m.2 ∧ P) True ms ∧
  (ms ≠ [] → d + Z.of_nat (max_list_with (λ m, json_height m.2) ms) - 1 <= json_depth limits) ∧
  (ms ≠ [] → n + Z.of_nat (sum_list_with (λ m, json_count m.2) ms) <= json_nodes limits) ∧
  vs = map (λ m, (m.1, json_image m.2)) ms ∧
  n' = n + Z.of_nat (sum_list_with (λ m, json_count m.2) ms).
Proof.
  intros Hms. revert keys n vs n'.
  induction Hms as [|[k t] ms Ht Hms IH]; intros keys n vs n'.
  { cbn. rewrite !Z.add_0_r. destruct broken as [[last e]|].
    - unfold mut_bind, mut_lift, reject. split; [case_match; intros [=]|intros ([=] & _)].
    - unfold mut_ret. split; [intros [= <- <-]; split_and!; try done; [constructor|set_solver]|].
      by intros (_ & _ & _ & _ & _ & _ & -> & ->). }
  cbn [visit_map map foldr max_list_with sum_list_with fst snd] in *.
  rewrite fmap_cons, NoDup_cons, mut_bind_Ok. cbn [fst]. do 2 setoid_rewrite mut_bind_Ok.
  setoid_rewrite mut_lift_Ok. setoid_rewrite reject_Ok. setoid_rewrite bool_decide_eq_false.
  pose proof (json_count_pos t). pose proof (json_height_pos t).
  split.
  - intros (? & ? & [Hk ->] & v & n1 & Hv & vs1 & n2 & Hvs & [= <-] & ->).
    apply Ht in Hv as ((Hc & Hd & Hn) & -> & ->).
    apply IH in Hvs as (-> & HN & Hfresh & Hcs & Hds & Hns & -> & ->).
    split_and!; try done; try (intros; destruct ms as [|m' ms]; cbn in *; try lia;
      specialize (Hds ltac:(done)); specialize (Hns ltac:(done)); lia); set_solver.
  - intros (-> & (Hk & HN) & Hfresh & (Hc & Hcs) & Hd & Hn & -> & ->).
    specialize (Hd ltac:(done)). specialize (Hn ltac:(done)).
    eexists tt, _. split; [split; [apply Hfresh; set_solver|reflexivity]|].
    eexists _, _. split; [apply Ht; split_and!; [split_and!; [done|lia|lia]|done|done]|].
    eexists _, _. split; [apply IH; split_and!; try done; [set_solver|intros; lia..]|].
    split; [done|lia].
Qed.

Lemma bounded_value_Ok limits t : reads limits t.
Proof.
  induction t as [|b|m|m|bits|s|es broken IH|ms broken IH|e] using json_tree_nested_ind;
    intros d n v n'; cbn [bounded_value];
    rewrite mut_bind_Ok; setoid_rewrite budget_claim_Ok; unfold fits;
    cbn [json_clean json_height json_count json_image].
  all: try (unfold mut_ret, mut_lift; naive_solver lia).
  - destruct (f64_is_finite bits); unfold mut_ret, mut_lift; naive_solver lia.
  - setoid_rewrite mut_bind_Ok. split.
    + intros (? & ? & (? & ? & ->) & vs & n1 & Hvs & [= <- <-]).
      apply visit_seq_Ok in Hvs as (-> & ? & Hd & Hn & -> & ->); [|done].
      destruct es; cbn [max_list_with sum_list_with map] in *; split_and!; try done; try lia;
        specialize (Hd ltac:(done)); specialize (Hn ltac:(done)); lia.
    + intros (((-> & ?) & ? & ?) & -> & ->). eexists tt, _. split; [split_and!; [lia|lia|done]|].
      eexists _, _. split; [apply visit_seq_Ok; [done|]; split_and!; try done; intros; lia|].
      unfold mut_ret. f_equal. lia.
  - setoid_rewrite mut_bind_Ok. split.
    + intros (? & ? & (? & ? & ->) & vs & n1 & Hvs & [= <- <-]).
      apply visit_map_Ok in Hvs as (-> & ? & _ & ? & Hd & Hn & -> & ->); [|done].
      destruct ms; cbn [max_list_with sum_list_with map] in *; split_and!; try done; try lia;
        specialize (Hd ltac:(done)); specialize (Hn ltac:(done)); lia.
    + intros (((-> & ? & ?) & ? & ?) & -> & ->).
      eexists tt, _. split; [split_and!; [lia|lia|done]|].
      eexists _, _. split; [apply visit_map_Ok; [done|]; split_and!; try done; intros; lia|].
      unfold mut_ret. f_equal. lia.
Qed.

(** the bounded reader accepts a line exactly when the deserializer finds
    one complete JSON value in it, no object at any level repeats a key, no
    number is infinite, the nesting is at most the depth limit and the number of
    values at most the node limit; and then it returns precisely the value the
    line denotes. *)
Theorem bounded_json_exact (bs : bytes) (limits : AppServerJsonLimits) (v : json_value) :
  parse_bounded_json bs limits = Ok v ↔
  json_clean (json_stream bs).1 ∧ (json_stream bs).2 = None ∧
  Z.of_nat (json_height (json_stream bs).1) <= json_depth limits ∧
  Z.of_nat (json_count (json_stream bs).1) <= json_nodes limits ∧
  v = json_image (json_stream bs).1.
Proof.
  unfold parse_bounded_json. destruct (json_stream bs) as [t trailing]; cbn [fst snd].
  pose proof (bounded_value_Ok limits t 1 0) as Hr. unfold fits in Hr.
  destruct (bounded_value limits t 1 0) as [[w|stop] n']; cbn [fst].
  - destruct (proj1 (Hr w n') eq_refl) as ((Hc & Hd & Hn) & -> & ->).
    destruct trailing; split; try (intros [=]); try naive_solver lia.
  - split; [destruct stop as [[]| |]; intros [=]|]. intros (Hc & -> & Hd & Hn & ->).
    enough (Hok : (Err stop, n') = (Ok (json_image t), Z.of_nat (json_count t))) by done.
    apply Hr. split_and!; [done|lia|lia|done|lia].
Qed.

(** ** The four message shapes *)

Definition name_ok (max : Z) (s : str) : Prop :=
  s ≠ [] ∧ len s <= max ∧ has_control s = false.

(** The identities a request may carry. *)
Inductive id_value : json_value → AppServerRequestId → Prop :=
| id_unsigned n : id_value (V_Unsigned n) (Id_Unsigned n)
| id_signed n : id_value (V_Signed n) (Id_Signed n)
| id_text s : name_ok MAX_REQUEST_ID_BYTES s → id_value (V_String s) (Id_Text s).

Inductive message_shape (o : list (str * json_value)) : ClassifiedMessage → Prop :=
| shape_request m v i :
    object_get o (lit "method") = Some (V_String m) → name_ok MAX_METHOD_BYTES m →
    object_get o (lit "result") = None → object_get o (lit "error") = None →
    object_get o (lit "id") = Some v → id_value v i →
    message_shape o (mkClassifiedMessage Request (Some m) (Some i))
| shape_notification m :
    object_get o (lit "method") = Some (V_String m) → name_ok MAX_METHOD_BYTES m →
    object_get o (lit "result") = None → object_get o (lit "error") = None →
    object_get o (lit "id") = None →
    message_shape o (mkClassifiedMessage Notification (Some m) None)
| shape_response kind v i :
    object_get o (lit "method") = None →
    (kind = SuccessResponse ∧ is_Some (object_get o (lit "result")) ∧
       object_get o (lit "error") = None ∨
     kind = ErrorResponse ∧ is_Some (object_get o (lit "error")) ∧
       object_get o (lit "result") = None) →
    object_get o (lit "id") = Some v →
    (v = V_Null ∧ i = None ∨ (∃ id, i = Some id ∧ id_value v id)) →
    message_shape o (mkClassifiedMessage kind None i).

Lemma name_ok_spec max s :
  negb (len s =? 0) && (len s <=? max) && negb (has_control s) = true ↔ name_ok max s.
Proof.
  unfold name_ok. rewrite !andb_true_iff, !negb_true_iff, Z.eqb_neq, Z.leb_le.
  pose proof (len_zero s). naive_solver.
Qed.

Lemma parse_request_id_Ok v i : parse_request_id v = Ok i ↔ id_value v i.
Proof.
  unfold parse_request_id. split.
  - destruct v; try (intros [= <-]; constructor); try (intros [=]; fail).
    destruct (_ && _ && _) eqn:E; intros H; simplify_eq. constructor. by apply name_ok_spec.
  - intros []; try done. by rewrite (proj2 (name_ok_spec _ _)).
Qed.

Lemma response_id_Ok v i :
  match v with V_Null => Ok None | _ => let? id := parse_request_id v in Ok (Some id) end = Ok i ↔
  v = V_Null ∧ i = None ∨ ∃ id, i = Some id ∧ id_value v id.
Proof.
  transitivity (v = V_Null ∧ i = None ∨
                v ≠ V_Null ∧ ∃ id, parse_request_id v = Ok id ∧ Some id = i).
  - destruct v; try (split; [intros [= <-]|intros [[_ ->]|[? _]]]; naive_solver).
    all: rewrite result_bind_Ok; naive_solver.
  - setoid_rewrite parse_request_id_Ok. split; [naive_solver|].
    intros [?|(id & -> & Hid)]; [by left|right]. split; [by destruct Hid|by exists id].
Qed.

Lemma classify_sound o c : classify_object o = Ok c → message_shape o c.
Proof.
  unfold classify_object, contains_key.
  destruct (object_get o (lit "method")) as [mv|] eqn:Em.
  - destruct (object_get o (lit "result")) eqn:Er, (object_get o (lit "error")) eqn:Ee;
      try (intros [=]; fail). cbn [orb reject result_bind].
    destruct mv as [| | | | |m| |]; try (intros [=]; fail).
    destruct (_ && _ && _) eqn:Ename; [|intros [=]]. apply name_ok_spec in Ename.
    destruct (object_get o (lit "id")) as [v|] eqn:Ei; cbn; [|intros [= <-]; by econstructor].
    destruct (parse_request_id v) as [i|] eqn:Ep; [|intros [=]]. apply parse_request_id_Ok in Ep.
    intros [= <-]. by econstructor.
  - destruct (object_get o (lit "id")) as [v|] eqn:Ei; [|intros [=]].
    destruct (object_get o (lit "result")) eqn:Er, (object_get o (lit "error")) eqn:Ee;
      try (intros [=]; fail).
    all: cbn; intros (i & Hi & [= <-])%result_bind_Ok.
    all: apply response_id_Ok in Hi; econstructor; [done|naive_solver|done|done].
Qed.

Lemma classify_complete o c : message_shape o c → classify_object o = Ok c.
Proof.
  unfold classify_object, contains_key.
  intros [m v i -> Hm%name_ok_spec -> -> -> Hi%parse_request_id_Ok
           |m -> Hm%name_ok_spec -> -> ->|kind v i -> Hk -> Hi]; cbn [orb result_bind reject ok_or].
  - by rewrite Hm, Hi.
  - by rewrite Hm.
  - apply response_id_Ok in Hi.
      destruct Hk as [(-> & [r ->] & ->)|(-> & [r ->] & ->)]; cbn; by rewrite Hi.
Qed.

(** classification accepts an object exactly when it has one of the four
    message shapes: a bounded, control-free method with neither result nor
    error and with or without a valid identity (request, notification), or an
    identity (possibly null) with exactly one of result and error and no method
    (success, error response); and it reports that shape's kind, method and
    identity. *)
Theorem classify_exact (o : list (str * json_value)) (c : ClassifiedMessage) :
  classify_object o = Ok c ↔ message_shape o c.
Proof. split; [apply classify_sound|apply classify_complete]. Qed.

(** ** Identities at their Rust widths *)

(** The values an [AppServerRequestId] produced by the proxy can have. *)
Definition id_wf (i : AppServerRequestId) : Prop :=
  match i with
  | Id_Unsigned n => 0 <= n <= u64_max
  | Id_Signed n => - 2 ^ 63 <= n < 0
  | Id_Text s => len s <= MAX_REQUEST_ID_BYTES
  end.

(** [visit_u64] and [visit_i64] receive values of their types. *)
Definition stream_typed : Prop :=
  ∀ bs ms broken k t, (json_stream bs).1 = J_Object ms broken → (k, t) ∈ ms →
    match t with
    | J_Unsigned n => 0 <= n <= u64_max
    | J_Signed n => - 2 ^ 63 <= n < 2 ^ 63
    | _ => True
    end.

Lemma parse_bounded_json_image bs limits v :
  parse_bounded_json bs limits = Ok v → v = json_image (json_stream bs).1.
Proof.
  unfold parse_bounded_json. destruct (json_stream bs) as [t trailing]; cbn [fst].
  pose proof (bounded_value_Ok limits t 1 0) as Hr.
  destruct (bounded_value limits t 1 0) as [[w|stop] n']; cbn [fst].
  - destruct (proj1 (Hr w n') eq_refl) as (_ & -> & _). destruct trailing; intros H; by simplify_eq.
  - destruct stop as [[]| |]; intros [=].
Qed.

Lemma object_get_elem o k v : object_get o k = Some v → (k, v) ∈ o.
Proof.
  unfold object_get. destruct (list_find _ o) as [[n [k' v']]|] eqn:E; [|done].
  intros [= ->]. apply list_find_Some in E as (Hl & Hk & _). simpl in Hk. subst.
  by apply list_elem_of_lookup_2 in Hl.
Qed.

(** What a successful classification says of the identity and the method it
    reports. *)
Lemma classified_id line limits c :
  stream_typed → parse_and_classify line limits = Ok c →
  (classified_kind c = Request → is_Some (classified_request_id c)) ∧
  (∀ i, classified_request_id c = Some i → id_wf i) ∧
  ∀ m, classified_method c = Some m → name_ok MAX_METHOD_BYTES m.
Proof.
  intros Hst H. unfold parse_and_classify in H. inv_ok.
  match goal with H : parse_bounded_json _ _ = _ |- _ => apply parse_bounded_json_image in H as Hv end.
  destruct x2 as [| | | | | | |o]; try discriminate. apply classify_sound in H.
  assert (Hid : ∀ v i, object_get o (lit "id") = Some v → id_value v i → id_wf i).
  { intros v i Hg%object_get_elem Hi.
    destruct (json_stream line) as [t ?] eqn:Et. destruct t as [| | |n| | | |ms broken|]; simplify_eq/=;
      [by destruct (n <? 0)|].
    apply list_elem_of_In, in_map_iff in Hg as ([k t] & Hkt & Hin%list_elem_of_In).
    pose proof (Hst line ms broken k t ltac:(by rewrite Et) Hin) as Ht. simplify_eq/=.
    destruct t as [| |n|n| | | | |]; simpl in Hi; try (inversion Hi; simplify_eq; done).
    - destruct (Z.ltb_spec n 0); inversion Hi; simplify_eq; simpl; unfold u64_max in *; lia.
    - inversion Hi as [| |s' [? []]]; simplify_eq. done. }
  split_and!; inversion H; naive_solver.
Qed.
End Proxy.
