(* ===== verification/Proxy.v ===== *)
(** * Proxy: the transparent app-server proxy session

    Models the second half of
    [crates/weregopher-adapter-openai/src/app_server_proxy.rs]: the two bounded
    queues, request correlation with forwarding deadlines and retired
    identities, and the operations of [TransparentAppServerProxy] (prepare,
    ingest, admit, release, expire, close).  Lines are read by the definitions
    of [ProxyMessage.v].

    Parameters: [serde_json] as there, [sha2] as [Sha256]; an [Instant] is a
    number of nanoseconds, at most [instant_max]. *)

From S2P Require Import Prelude ProxyMessage.

Record AppServerMessageObservation : Type := mkObservation {
  observed_direction : AppServerProxyDirection;
  observed_kind : AppServerProxyMessageKind;
  observed_method : option str;
  observed_request_id : option AppServerRequestId;
  byte_length : Z
}.

Record AppServerProxyFrame : Type := mkFrame {
  frame_observation : AppServerMessageObservation;
  frame_json_bytes : bytes
}.

Record AppServerProxyCandidate : Type := mkCandidate {
  prepared_limits : AppServerProxyLimits;
  candidate_observation : AppServerMessageObservation;
  candidate_json_bytes : bytes
}.

Record AppServerExpiredRequest : Type := mkExpiredRequest {
  expired_origin : AppServerProxyDirection;
  expired_request_id : AppServerRequestId
}.
#[global] Instance AppServerExpiredRequest_eq_dec : EqDecision AppServerExpiredRequest.
Proof. solve_decision. Defined.

Inductive AppServerProxyState : Type := Open | Closed.

Definition is_closed (state : AppServerProxyState) : bool :=
  match state with Closed => true | Open => false end.

Record AppServerProxyCloseReport : Type := mkCloseReport {
  abandoned_messages : Z;
  abandoned_bytes : Z;
  abandoned_requests : Z;
  cleared_request_history : Z
}.

Record AppServerProxyDiagnostics : Type := mkDiagnostics {
  diagnostics_state : AppServerProxyState;
  diagnostics_accepted_client_messages : Z;
  diagnostics_accepted_server_messages : Z;
  diagnostics_accepted_client_bytes : Z;
  diagnostics_accepted_server_bytes : Z;
  diagnostics_forwarded_to_server_messages : Z;
  diagnostics_forwarded_to_client_messages : Z;
  queued_to_server_messages : Z;
  queued_to_client_messages : Z;
  queued_to_server_bytes : Z;
  queued_to_client_bytes : Z;
  peak_to_server_messages : Z;
  peak_to_client_messages : Z;
  peak_to_server_bytes : Z;
  peak_to_client_bytes : Z;
  pending_client_requests : Z;
  pending_server_requests : Z;
  client_history_size : Z;
  server_history_size : Z;
  diagnostics_late_responses : Z;
  diagnostics_unmatched_responses : Z;
  diagnostics_expired_requests : Z
}.

Inductive ActiveRequestState : Type := Queued | Pending (deadline : Z).

Definition is_pending (state : ActiveRequestState) : bool :=
  match state with Pending _ => true | Queued => false end.

Inductive ResponseAction : Type := Action_None | Action_Complete | Action_Late | Action_Unmatched.

Record ProxyCounters : Type := mkCounters {
  accepted_client_messages : Z;
  accepted_server_messages : Z;
  accepted_client_bytes : Z;
  accepted_server_bytes : Z;
  forwarded_to_server_messages : Z;
  forwarded_to_client_messages : Z;
  late_responses : Z;
  unmatched_responses : Z;
  expired_requests : Z
}.
Definition counters_default : ProxyCounters := mkCounters 0 0 0 0 0 0 0 0 0.

(** ** The bounded queue *)

Record ProxyQueue : Type := mkQueue {
  queue_direction : AppServerProxyDirection;
  queue_limits : AppServerQueueLimits;
  frames : list AppServerProxyFrame;
  queued_bytes : Z;
  peak_messages : Z;
  peak_bytes : Z
}.

Record TransparentAppServerProxy : Type := mkProxy {
  proxy_limits : AppServerProxyLimits;
  proxy_state : AppServerProxyState;
  to_server : ProxyQueue;
  to_client : ProxyQueue;
  client_requests : gmap AppServerRequestId ActiveRequestState;
  server_requests : gmap AppServerRequestId ActiveRequestState;
  client_request_history : gset bytes;
  server_request_history : gset bytes;
  last_observed_time : option Z;
  counters : ProxyCounters
}.

Definition queue_new (direction : AppServerProxyDirection) (limits : AppServerQueueLimits) :
    ProxyQueue := mkQueue direction limits [] 0 0 0.

Definition push_after_capacity_check (q : ProxyQueue) (frame : AppServerProxyFrame) : ProxyQueue :=
  let bytes := queued_bytes q + len (frame_json_bytes frame) in
  let frames := frames q ++ [frame] in
  mkQueue (queue_direction q) (queue_limits q) frames bytes
    (Z.max (peak_messages q) (len frames)) (Z.max (peak_bytes q) bytes).

Definition front (q : ProxyQueue) : option AppServerProxyFrame := head (frames q).

Definition clear (q : ProxyQueue) : ProxyQueue * (Z * Z) :=
  (mkQueue (queue_direction q) (queue_limits q) [] 0 (peak_messages q) (peak_bytes q),
   (len (frames q), queued_bytes q)).

Definition proxy_new (limits : AppServerProxyLimits) : TransparentAppServerProxy :=
  mkProxy limits Open (queue_new ClientToServer (to_server_limits limits))
    (queue_new ServerToClient (to_client_limits limits)) ∅ ∅ ∅ ∅ None counters_default.

(** ** Access by direction *)

Definition queue (p : TransparentAppServerProxy) (d : AppServerProxyDirection) : ProxyQueue :=
  match d with ClientToServer => to_server p | ServerToClient => to_client p end.
Definition requests (p : TransparentAppServerProxy) (d : AppServerProxyDirection) :
    gmap AppServerRequestId ActiveRequestState :=
  match d with ClientToServer => client_requests p | ServerToClient => server_requests p end.
Definition request_history (p : TransparentAppServerProxy) (d : AppServerProxyDirection) :
    gset bytes :=
  match d with
  | ClientToServer => client_request_history p
  | ServerToClient => server_request_history p
  end.

Definition queue_mut (d : AppServerProxyDirection) (q : ProxyQueue)
    (p : TransparentAppServerProxy) : TransparentAppServerProxy :=
  match p with mkProxy l s ts tc cr sr ch sh t c =>
    match d with
    | ClientToServer => mkProxy l s q tc cr sr ch sh t c
    | ServerToClient => mkProxy l s ts q cr sr ch sh t c
    end
  end.
Definition requests_mut (d : AppServerProxyDirection)
    (r : gmap AppServerRequestId ActiveRequestState) (p : TransparentAppServerProxy) :
    TransparentAppServerProxy :=
  match p with mkProxy l s ts tc cr sr ch sh t c =>
    match d with
    | ClientToServer => mkProxy l s ts tc r sr ch sh t c
    | ServerToClient => mkProxy l s ts tc cr r ch sh t c
    end
  end.
Definition request_history_mut (d : AppServerProxyDirection) (h : gset bytes)
    (p : TransparentAppServerProxy) : TransparentAppServerProxy :=
  match p with mkProxy l s ts tc cr sr ch sh t c =>
    match d with
    | ClientToServer => mkProxy l s ts tc cr sr h sh t c
    | ServerToClient => mkProxy l s ts tc cr sr ch h t c
    end
  end.
Definition set_observed_time (now : Z) (p : TransparentAppServerProxy) :
    TransparentAppServerProxy :=
  match p with mkProxy l s ts tc cr sr ch sh _ c => mkProxy l s ts tc cr sr ch sh (Some now) c end.
Definition set_counters (c : ProxyCounters) (p : TransparentAppServerProxy) :
    TransparentAppServerProxy :=
  match p with mkProxy l s ts tc cr sr ch sh t _ => mkProxy l s ts tc cr sr ch sh t c end.

(** The number of elements of a [BTreeSet]. *)
Definition set_len (s : gset bytes) : Z := Z.of_nat (size s).

(** The identities a session may meet: what the laws below assume of the hash
    is about these only, and [presented] says which they are. *)
Class Identities := known_identity : AppServerRequestId → Prop.

Section Proxy.
Context {JsonError : Type}.
Context (json_stream : bytes → json_tree (JsonError := JsonError) * option JsonError)
        (json_custom : JsonError).
Context `{HS : Sha256} (instant_max : Z).
Abbreviation Error := (AppServerProxyError JsonError).
Abbreviation method := (mut TransparentAppServerProxy Error).

Definition ensure_capacity (q : ProxyQueue) (bytes : Z) : result unit Error :=
  do? reject (queue_messages (queue_limits q) <=? len (frames q))
    (Proxy_QueueMessageLimitExceeded (queue_direction q)) in
  let? next := ok_or (checked_add usize_max (queued_bytes q) bytes)
    (Proxy_QueueByteLimitExceeded (queue_direction q)) in
  reject (queue_max_bytes (queue_limits q) <? next)
    (Proxy_QueueByteLimitExceeded (queue_direction q)).

Definition pop (q : ProxyQueue) : result (option AppServerProxyFrame) Error * ProxyQueue :=
  match frames q with
  | [] => (Ok None, q)
  | frame :: rest =>
    match checked_sub (queued_bytes q) (len (frame_json_bytes frame)) with
    | None => (Err Proxy_InconsistentCorrelationState, q)
    | Some remaining_bytes =>
      (Ok (Some frame),
       mkQueue (queue_direction q) (queue_limits q) rest remaining_bytes
         (peak_messages q) (peak_bytes q))
    end
  end.

Definition increment (value : Z) : result Z Error :=
  ok_or (checked_add u64_max value 1) Proxy_DiagnosticCounterOverflow.
Definition add (value amount : Z) : result Z Error :=
  ok_or (checked_add u64_max value amount) Proxy_DiagnosticCounterOverflow.

(** ** Request identities *)

(** The bytes hashed for an identity; [to_be_bytes] of a negative [i64] is its
    two's complement. *)
Definition request_id_preimage (request_id : AppServerRequestId) : bytes :=
  REQUEST_ID_DIGEST_DOMAIN ++
  match request_id with
  | Id_Unsigned value => [byte_of 0] ++ be_bytes 8 value
  | Id_Signed value => [byte_of 1] ++ be_bytes 8 value
  | Id_Text value => [byte_of 2] ++ be_bytes 8 (Z.min u64_max (len value)) ++ value
  end.
Definition request_id_digest (request_id : AppServerRequestId) : bytes :=
  sha256 (request_id_preimage request_id).

Definition pending_count (requests : gmap AppServerRequestId ActiveRequestState) : Z :=
  len (filter (λ e, is_pending e.2 = true)
         (btree_iter request_id_le requests)).

Definition expired_direction (requests : gmap AppServerRequestId ActiveRequestState)
    (origin : AppServerProxyDirection) (now : Z) : list AppServerExpiredRequest :=
  map (mkExpiredRequest origin)
    (omap (λ e, match e.2 with
                | Pending deadline => if deadline <=? now then Some e.1 else None
                | Queued => None
                end)
       (btree_iter request_id_le requests)).

Definition ensure_monotonic_time (p : TransparentAppServerProxy) (now : Z) : result unit Error :=
  match last_observed_time p with
  | Some previous => reject (now <? previous) Proxy_NonMonotonicClock
  | None => Ok tt
  end.

(** ** Correlation *)

Definition preflight_correlation (p : TransparentAppServerProxy)
    (o : AppServerMessageObservation) : result ResponseAction Error :=
  match observed_kind o with
  | Request =>
    let? request_id := ok_or (observed_request_id o) Proxy_InconsistentCorrelationState in
    do? reject (bool_decide (is_Some (requests p (observed_direction o) !! request_id)))
      (Proxy_DuplicateRequestId (observed_direction o)) in
    do? reject (bool_decide (request_id_digest request_id ∈
                             request_history p (observed_direction o)))
      (Proxy_ReusedRequestId (observed_direction o)) in
    let? active := ok_or (checked_add usize_max (map_len (client_requests p))
                            (map_len (server_requests p))) Proxy_ActiveRequestLimitExceeded in
    do? reject (active_requests (proxy_limits p) <=? active) Proxy_ActiveRequestLimitExceeded in
    let? tracked := ok_or (checked_add usize_max active (set_len (client_request_history p))
                           ≫= λ value, checked_add usize_max value
                                         (set_len (server_request_history p)))
                      Proxy_RequestHistoryLimitExceeded in
    do? reject (request_history_limit (proxy_limits p) <=? tracked)
      Proxy_RequestHistoryLimitExceeded in
    Ok Action_None
  | SuccessResponse | ErrorResponse =>
    match observed_request_id o with
    | None => Ok Action_Unmatched
    | Some request_id =>
      let request_origin := opposite (observed_direction o) in
      let retired := bool_decide (request_id_digest request_id ∈ request_history p request_origin) in
      match requests p request_origin !! request_id with
      | Some (Pending _) =>
        if negb retired then Ok Action_Complete else Err Proxy_InconsistentCorrelationState
      | Some Queued => Err Proxy_ResponseBeforeRequestForwarded
      | None => if retired then Ok Action_Late else Ok Action_Unmatched
      end
    end
  | Notification => Ok Action_None
  end.

(** [BTreeSet::insert] on the history of a direction: whether it was new. *)
Definition retire (d : AppServerProxyDirection) (request_id : AppServerRequestId) : method bool :=
  λ p, let h := request_history p d in
       let digest := request_id_digest request_id in
       (Ok (negb (bool_decide (digest ∈ h))), request_history_mut d ({[digest]} ∪ h) p).

(** [BTreeMap::remove] and [BTreeMap::insert] on the active requests of a
    direction: the binding that was there. *)
Definition remove_request (d : AppServerProxyDirection) (request_id : AppServerRequestId) :
    method (option ActiveRequestState) :=
  λ p, (Ok (requests p d !! request_id), requests_mut d (delete request_id (requests p d)) p).
Definition insert_request (d : AppServerProxyDirection) (request_id : AppServerRequestId)
    (state : ActiveRequestState) : method (option ActiveRequestState) :=
  λ p, (Ok (requests p d !! request_id),
        requests_mut d (<[request_id := state]> (requests p d)) p).

Definition apply_correlation (o : AppServerMessageObservation) (action : ResponseAction) :
    method unit :=
  match observed_kind o, action with
  | Request, _ =>
    let* request_id := mut_lift (ok_or (observed_request_id o)
                                   Proxy_InconsistentCorrelationState) in
    let* previous := insert_request (observed_direction o) request_id Queued in
    mut_lift (reject (bool_decide (is_Some previous)) Proxy_InconsistentCorrelationState)
  | (SuccessResponse | ErrorResponse), Action_Complete =>
    let* request_id := mut_lift (ok_or (observed_request_id o)
                                   Proxy_InconsistentCorrelationState) in
    let* removed := remove_request (opposite (observed_direction o)) request_id in
    do* mut_lift (reject (negb (bool_decide (is_Some removed)))
                    Proxy_InconsistentCorrelationState) in
    let* fresh := retire (opposite (observed_direction o)) request_id in
    mut_lift (reject (negb fresh) Proxy_InconsistentCorrelationState)
  | _, _ => mut_ret tt
  end.

(** ** Operations *)

Definition prepare (p : TransparentAppServerProxy) (direction : AppServerProxyDirection)
    (json_line : bytes) : result AppServerProxyCandidate Error :=
  do? reject (is_closed (proxy_state p)) Proxy_Closed in
  let? classified := parse_and_classify json_stream json_custom json_line (proxy_limits p) in
  Ok (mkCandidate (proxy_limits p)
        (mkObservation direction (classified_kind classified) (classified_method classified)
           (classified_request_id classified) (len json_line))
        json_line).

(** The counters after an accepted message of [direction]. *)
Definition accept_counters (c : ProxyCounters) (direction : AppServerProxyDirection)
    (next_messages next_bytes next_late next_unmatched : Z) : ProxyCounters :=
  match c with mkCounters cm sm cb sb fs fc _ _ ex =>
    match direction with
    | ClientToServer => mkCounters next_messages sm next_bytes sb fs fc next_late next_unmatched ex
    | ServerToClient => mkCounters cm next_messages cb next_bytes fs fc next_late next_unmatched ex
    end
  end.
Definition accepted_messages (c : ProxyCounters) (d : AppServerProxyDirection) : Z :=
  match d with ClientToServer => accepted_client_messages c | ServerToClient => accepted_server_messages c end.
Definition accepted_bytes (c : ProxyCounters) (d : AppServerProxyDirection) : Z :=
  match d with ClientToServer => accepted_client_bytes c | ServerToClient => accepted_server_bytes c end.
Definition forwarded_messages (c : ProxyCounters) (d : AppServerProxyDirection) : Z :=
  match d with
  | ClientToServer => forwarded_to_server_messages c
  | ServerToClient => forwarded_to_client_messages c
  end.

Definition admit_candidate (candidate : AppServerProxyCandidate) :
    method AppServerMessageObservation :=
  let* p := mut_get in
  do* mut_lift (reject (is_closed (proxy_state p)) Proxy_Closed) in
  let observation := candidate_observation candidate in
  let json_bytes := candidate_json_bytes candidate in
  let direction := observed_direction observation in
  do* mut_lift (ensure_capacity (queue p direction) (len json_bytes)) in
  let* response_action := mut_lift (preflight_correlation p observation) in
  let* next_messages := mut_lift (increment (accepted_messages (counters p) direction)) in
  let* next_bytes := mut_lift (add (accepted_bytes (counters p) direction) (len json_bytes)) in
  let* next_unmatched := mut_lift match response_action with
    | Action_Unmatched => increment (unmatched_responses (counters p))
    | _ => Ok (unmatched_responses (counters p))
    end in
  let* next_late := mut_lift match response_action with
    | Action_Late => increment (late_responses (counters p))
    | _ => Ok (late_responses (counters p))
    end in
  do* apply_correlation observation response_action in
  let* p := mut_get in
  do* mut_put (queue_mut direction
                 (push_after_capacity_check (queue p direction) (mkFrame observation json_bytes)) p) in
  let* p := mut_get in
  do* mut_put (set_counters (accept_counters (counters p) direction next_messages next_bytes
                               next_late next_unmatched) p) in
  mut_ret observation.

Definition admit_proxy (candidate : AppServerProxyCandidate) :
    method AppServerMessageObservation :=
  let* p := mut_get in
  do* mut_lift (reject (is_closed (proxy_state p)) Proxy_Closed) in
  do* mut_lift (reject (negb (bool_decide (prepared_limits candidate = proxy_limits p)))
                  Proxy_CandidateLimitsMismatch) in
  admit_candidate candidate.

Definition ingest (direction : AppServerProxyDirection) (json_line : bytes) :
    method AppServerMessageObservation :=
  let* p := mut_get in
  let* candidate := mut_lift (prepare p direction json_line) in
  admit_candidate candidate.

(** [Instant::checked_add]. *)
Definition instant_checked_add (now duration : Z) : option Z := checked_add instant_max now duration.

Definition forward_counters (c : ProxyCounters) (direction : AppServerProxyDirection)
    (next_messages : Z) : ProxyCounters :=
  match c with mkCounters cm sm cb sb fs fc la un ex =>
    match direction with
    | ClientToServer => mkCounters cm sm cb sb next_messages fc la un ex
    | ServerToClient => mkCounters cm sm cb sb fs next_messages la un ex
    end
  end.

Definition release (direction : AppServerProxyDirection) (now : Z) :
    method (option AppServerProxyFrame) :=
  let* p := mut_get in
  do* mut_lift (ensure_monotonic_time p now) in
  match front (queue p direction) with
  | None => do* mut_put (set_observed_time now p) in mut_ret None
  | Some front =>
    let request_id := match observed_kind (frame_observation front) with
                      | Request => observed_request_id (frame_observation front)
                      | _ => None
                      end in
    let* deadline := match request_id with
      | Some _ =>
        let* deadline := mut_lift (ok_or (instant_checked_add now
                                            (request_timeout (proxy_limits p)))
                                     Proxy_DeadlineOverflow) in
        mut_ret (Some deadline)
      | None => mut_ret None
      end in
    let* next_messages := mut_lift (increment (forwarded_messages (counters p) direction)) in
    do* match request_id, deadline with
        | Some request_id, Some deadline =>
          let* state := mut_lift (ok_or (requests p direction !! request_id)
                                    Proxy_InconsistentCorrelationState) in
          do* mut_lift (reject (is_pending state) Proxy_InconsistentCorrelationState) in
          do* insert_request direction request_id (Pending deadline) in
          mut_ret tt
        | _, _ => mut_ret tt
        end in
    let* p := mut_get in
    let (popped, q) := pop (queue p direction) in
    do* mut_put (queue_mut direction q p) in
    let* popped := mut_lift popped in
    let* frame := mut_lift (ok_or popped Proxy_InconsistentCorrelationState) in
    let* p := mut_get in
    do* mut_put (set_observed_time now
                   (set_counters (forward_counters (counters p) direction next_messages) p)) in
    mut_ret (Some frame)
  end.

Fixpoint retire_expired (expired : list AppServerExpiredRequest) : method unit :=
  match expired with
  | [] => mut_ret tt
  | request :: rest =>
    let* removed := remove_request (expired_origin request) (expired_request_id request) in
    (* [||] does not insert when nothing was removed *)
    do* mut_lift (reject (negb (bool_decide (is_Some removed)))
                    Proxy_InconsistentCorrelationState) in
    let* fresh := retire (expired_origin request) (expired_request_id request) in
    do* mut_lift (reject (negb fresh) Proxy_InconsistentCorrelationState) in
    retire_expired rest
  end.

Definition expire_counters (c : ProxyCounters) (next_expired : Z) : ProxyCounters :=
  match c with mkCounters cm sm cb sb fs fc la un _ =>
    mkCounters cm sm cb sb fs fc la un next_expired
  end.

Definition expire_requests (now : Z) : method (list AppServerExpiredRequest) :=
  let* p := mut_get in
  do* mut_lift (ensure_monotonic_time p now) in
  let expired := expired_direction (client_requests p) ClientToServer now ++
                 expired_direction (server_requests p) ServerToClient now in
  let* next_expired := mut_lift (add (expired_requests (counters p)) (len expired)) in
  do* mut_lift (reject (existsb (λ request, bool_decide
                          (request_id_digest (expired_request_id request) ∈
                           request_history p (expired_origin request))) expired)
                  Proxy_InconsistentCorrelationState) in
  do* retire_expired expired in
  let* p := mut_get in
  do* mut_put (set_observed_time now
                 (set_counters (expire_counters (counters p) next_expired) p)) in
  mut_ret expired.

Definition close_proxy (p : TransparentAppServerProxy) :
    TransparentAppServerProxy * AppServerProxyCloseReport :=
  let '(to_server', (to_server_messages, to_server_bytes)) := clear (to_server p) in
  let '(to_client', (to_client_messages, to_client_bytes)) := clear (to_client p) in
  (mkProxy (proxy_limits p) Closed to_server' to_client' ∅ ∅ ∅ ∅
     (last_observed_time p) (counters p),
   mkCloseReport (saturating_add usize_max to_server_messages to_client_messages)
     (saturating_add usize_max to_server_bytes to_client_bytes)
     (saturating_add usize_max (map_len (client_requests p)) (map_len (server_requests p)))
     (saturating_add usize_max (set_len (client_request_history p))
        (set_len (server_request_history p)))).

Definition diagnostics (p : TransparentAppServerProxy) : AppServerProxyDiagnostics :=
  let c := counters p in
  mkDiagnostics (proxy_state p)
    (accepted_client_messages c) (accepted_server_messages c)
    (accepted_client_bytes c) (accepted_server_bytes c)
    (forwarded_to_server_messages c) (forwarded_to_client_messages c)
    (len (frames (to_server p))) (len (frames (to_client p)))
    (queued_bytes (to_server p)) (queued_bytes (to_client p))
    (peak_messages (to_server p)) (peak_messages (to_client p))
    (peak_bytes (to_server p)) (peak_bytes (to_client p))
    (pending_count (client_requests p)) (pending_count (server_requests p))
    (set_len (client_request_history p)) (set_len (server_request_history p))
    (late_responses c) (unmatched_responses c) (expired_requests c).

(** ** Sessions

    The calls an owner may make, what each returns, and the sessions they
    produce.  A candidate can only come from [prepare], of this proxy or of
    another one. *)

Inductive operation : Type :=
| Op_Ingest (direction : AppServerProxyDirection) (json_line : bytes)
| Op_Admit (candidate : AppServerProxyCandidate)
| Op_Release (direction : AppServerProxyDirection) (now : Z)
| Op_Expire (now : Z)
| Op_Close.

Inductive outcome : Type :=
| Out_Rejected (e : Error)
| Out_Admitted (frame : AppServerProxyFrame)
| Out_Released (frame : option AppServerProxyFrame)
| Out_Expired (expired : list AppServerExpiredRequest)
| Out_Closed (report : AppServerProxyCloseReport).

Definition outcome_of {A} (f : A → outcome) (r : result A Error) : outcome :=
  match r with Ok a => f a | Err e => Out_Rejected e end.

Definition perform (op : operation) (p : TransparentAppServerProxy) :
    outcome * TransparentAppServerProxy :=
  match op with
  | Op_Ingest d line =>
    let '(r, p') := ingest d line p in (outcome_of (λ o, Out_Admitted (mkFrame o line)) r, p')
  | Op_Admit c =>
    let '(r, p') := admit_proxy c p in
    (outcome_of (λ o, Out_Admitted (mkFrame o (candidate_json_bytes c))) r, p')
  | Op_Release d now => let '(r, p') := release d now p in (outcome_of Out_Released r, p')
  | Op_Expire now => let '(r, p') := expire_requests now p in (outcome_of Out_Expired r, p')
  | Op_Close => let '(p', report) := close_proxy p in (Out_Closed report, p')
  end.

Definition operation_ok (op : operation) : Prop :=
  match op with
  | Op_Admit c => ∃ p d line, prepare p d line = Ok c
  | _ => True
  end.

(** The reachable sessions, with the log of calls and returns. *)
Inductive session (limits : AppServerProxyLimits) :
    list (operation * outcome) → TransparentAppServerProxy → Prop :=
| session_new : session limits [] (proxy_new limits)
| session_step log p op :
    session limits log p → operation_ok op →
    session limits (log ++ [(op, (perform op p).1)]) (perform op p).2.

(** A policy built by the public constructors from [usize] values. *)
Definition limits_ok (limits : AppServerProxyLimits) : Prop :=
  (∀ q, q = to_server_limits limits ∨ q = to_client_limits limits →
     0 <= queue_messages q ∧ 0 <= queue_max_bytes q ∧
     queue_limits_new (JsonError := JsonError) (queue_messages q) (queue_max_bytes q) = Ok q) ∧
  0 <= active_requests limits ∧
  proxy_limits_new (JsonError := JsonError) (line_bytes limits) (to_server_limits limits)
    (to_client_limits limits) (json_limits limits) (active_requests limits)
    (request_history_limit limits) (request_timeout limits) = Ok limits.

(** ** The session invariant *)

Definition frame_request_id (f : AppServerProxyFrame) : option AppServerRequestId :=
  match observed_kind (frame_observation f) with
  | Request => observed_request_id (frame_observation f)
  | _ => None
  end.
Definition request_ids (fs : list AppServerProxyFrame) : list AppServerRequestId :=
  omap frame_request_id fs.
Definition frames_bytes (fs : list AppServerProxyFrame) : Z :=
  foldr (λ f n, len (frame_json_bytes f) + n) 0 fs.

Context `{Known : Identities}.

(** An identity of the session, at its Rust width. *)
Definition session_id (i : AppServerRequestId) : Prop := id_wf i ∧ known_identity i.

(** Every line that is read carries such an identity, if any. *)
Definition session_stream : Prop :=
  stream_typed json_stream ∧
  ∀ line limits c i, parse_and_classify json_stream json_custom line limits = Ok c →
    classified_request_id c = Some i → known_identity i.

(** What preparation guarantees of an observation and its bytes. *)
Definition message_ok (o : AppServerMessageObservation) (bs : bytes) : Prop :=
  byte_length o = len bs ∧
  (observed_kind o = Request → is_Some (observed_request_id o)) ∧
  (∀ i, observed_request_id o = Some i → session_id i) ∧
  (∀ m, observed_method o = Some m → name_ok MAX_METHOD_BYTES m).

(** One direction: its queue, active requests and retired digests.  The bytes
    counted are those of the queued frames, within the limits and below the
    peaks; the requests marked queued are exactly those waiting in the queue,
    each once; no active identity has a retired digest. *)
Record direction_ok (limits : AppServerQueueLimits) (d : AppServerProxyDirection) (q : ProxyQueue)
    (r : gmap AppServerRequestId ActiveRequestState) (h : gset bytes) : Prop := {
  direction_tag : queue_direction q = d;
  direction_limits : queue_limits q = limits;
  direction_bytes : queued_bytes q = frames_bytes (frames q);
  direction_peak_messages : len (frames q) <= peak_messages q <= queue_messages limits;
  direction_peak_bytes : queued_bytes q <= peak_bytes q <= queue_max_bytes limits;
  direction_frames : Forall (λ f, observed_direction (frame_observation f) = d ∧
                       message_ok (frame_observation f) (frame_json_bytes f)) (frames q);
  direction_queued : ∀ i, r !! i = Some Queued ↔ i ∈ request_ids (frames q);
  direction_once : NoDup (request_ids (frames q));
  direction_ids : ∀ i, is_Some (r !! i) → session_id i ∧ request_id_digest i ∉ h
}.

Definition limits_of (limits : AppServerProxyLimits) (d : AppServerProxyDirection) :
    AppServerQueueLimits :=
  match d with ClientToServer => to_server_limits limits | ServerToClient => to_client_limits limits end.

Record proxy_ok (p : TransparentAppServerProxy) : Prop := {
  proxy_directions : ∀ d,
    direction_ok (limits_of (proxy_limits p) d) d (queue p d) (requests p d) (request_history p d);
  proxy_active : map_len (client_requests p) + map_len (server_requests p) <=
                 active_requests (proxy_limits p);
  proxy_tracked : map_len (client_requests p) + map_len (server_requests p) +
                  set_len (client_request_history p) + set_len (server_request_history p) <=
                  request_history_limit (proxy_limits p);
  proxy_closed_empty : proxy_state p = Closed →
    ∀ d, frames (queue p d) = [] ∧ requests p d = ∅ ∧ request_history p d = ∅
}.

(** The hash does not confuse the identities of the session. *)
Definition digests_distinct : Prop :=
  ∀ i j, session_id i → session_id j →
    sha256 (request_id_preimage i) = sha256 (request_id_preimage j) →
    request_id_preimage i = request_id_preimage j.

(** ** Identity digests *)

Lemma request_id_preimage_inj i j :
  id_wf i → id_wf j → request_id_preimage i = request_id_preimage j → i = j.
Proof.
  unfold request_id_preimage. intros Hi Hj H%app_inv_head.
  destruct i as [n|n|s], j as [m|m|t]; apply app_inj_1 in H as [Htag H]; try reflexivity;
    try (vm_compute in Htag; discriminate Htag).
  - apply be_bytes_mod in H. simpl in Hi, Hj. unfold u64_max in *.
    change (256 ^ Z.of_nat 8) with 18446744073709551616 in H.
    rewrite !Z.mod_small in H by lia. by subst.
  - apply be_bytes_mod in H. simpl in Hi, Hj.
    change (256 ^ Z.of_nat 8) with 18446744073709551616 in H.
    change (2 ^ 63) with 9223372036854775808 in *.
    rewrite <-(Z.mod_add n 1), <-(Z.mod_add m 1), !Z.mod_small in H by lia. f_equal. lia.
  - apply app_inj_1 in H as [_ ->]; [done|]. by rewrite !be_bytes_length.
Qed.

Lemma request_id_digest_inj i j :
  digests_distinct → session_id i → session_id j → request_id_digest i = request_id_digest j → i = j.
Proof. intros Hcf Hi Hj H. apply request_id_preimage_inj; [apply Hi|apply Hj|auto]. Qed.

(** ** One direction, step by step *)

Lemma request_ids_app fs gs : request_ids (fs ++ gs) = request_ids fs ++ request_ids gs.
Proof. apply omap_app. Qed.

Lemma request_ids_singleton f : request_ids [f] = option_list (frame_request_id f).
Proof. unfold request_ids. cbn. by destruct (frame_request_id f). Qed.

Lemma request_ids_cons f fs :
  request_ids (f :: fs) = option_list (frame_request_id f) ++ request_ids fs.
Proof. change (f :: fs) with ([f] ++ fs). by rewrite request_ids_app, request_ids_singleton. Qed.

Lemma frames_bytes_app fs gs : frames_bytes (fs ++ gs) = frames_bytes fs + frames_bytes gs.
Proof. induction fs as [|f fs IH]; cbn in *; [done|]. unfold frames_bytes in *. cbn. lia. Qed.

Lemma frames_bytes_nonneg fs : 0 <= frames_bytes fs.
Proof.
  induction fs as [|f fs IH]; cbn; [done|]. pose proof (len_nonneg (frame_json_bytes f)).
  unfold frames_bytes in IH. lia.
Qed.

Lemma ensure_capacity_Ok q n u :
  ensure_capacity q n = Ok u ↔
  len (frames q) < queue_messages (queue_limits q) ∧ queued_bytes q + n <= usize_max ∧
  queued_bytes q + n <= queue_max_bytes (queue_limits q).
Proof.
  unfold ensure_capacity. rewrite result_bind_Ok. setoid_rewrite result_bind_Ok.
  setoid_rewrite reject_Ok. setoid_rewrite ok_or_Ok. setoid_rewrite checked_add_Some.
  split; [naive_solver lia|]. intros (? & ? & ?). exists tt. split; [lia|]. eexists. split; [done|lia].
Qed.

Section Direction.
Context (limits : AppServerQueueLimits) (d : AppServerProxyDirection).
Abbreviation ok := (direction_ok limits d).

(** Queueing a frame for which there is room; a request becomes active. *)
Lemma direction_push q r h f u :
  ok q r h → ensure_capacity q (len (frame_json_bytes f)) = Ok u →
  observed_direction (frame_observation f) = d →
  message_ok (frame_observation f) (frame_json_bytes f) →
  (∀ i, frame_request_id f = Some i → r !! i = None ∧ request_id_digest i ∉ h) →
  ok (push_after_capacity_check q f)
     (match frame_request_id f with Some i => <[i := Queued]> r | None => r end) h.
Proof.
  intros [] (Hm & _ & Hb)%ensure_capacity_Ok Hd Hok Hfresh. subst limits.
  set (r' := match frame_request_id f with _ => _ end).
  assert (Hids : ∀ i, frame_request_id f = Some i → session_id i).
  { intros i Hi. apply (proj1 (proj2 (proj2 Hok))). unfold frame_request_id in Hi. by case_match. }
  split; cbn [push_after_capacity_check queue_direction queue_limits frames queued_bytes
              peak_messages peak_bytes]; try done.
  - rewrite frames_bytes_app. unfold frames_bytes at 2. cbn [foldr]. lia.
  - rewrite len_app, len_cons, len_nil. lia.
  - lia.
  - apply Forall_app. split; [done|]. by apply Forall_singleton.
  - intros i. rewrite request_ids_app, elem_of_app, <-direction_queued0, request_ids_singleton.
    unfold r'. destruct (frame_request_id f) as [j|] eqn:Ej; cbn; [|set_solver].
    rewrite list_elem_of_singleton. destruct (decide (i = j)) as [->|].
    + rewrite lookup_insert_eq. naive_solver.
    + rewrite lookup_insert_ne by done. naive_solver.
  - rewrite request_ids_app, request_ids_singleton. apply NoDup_app. split_and!; [done| |].
    + intros i Hi Hin. destruct (frame_request_id f) as [j|] eqn:Ej; cbn in Hin; [|set_solver].
      apply list_elem_of_singleton in Hin as ->. apply direction_queued0 in Hi.
      by rewrite (proj1 (Hfresh j eq_refl)) in Hi.
    + destruct (frame_request_id f); [apply NoDup_singleton|constructor].
  - intros i. unfold r'. destruct (frame_request_id f) as [j|] eqn:Ej; [|apply direction_ids0].
    destruct (decide (i = j)) as [->|]; [|rewrite lookup_insert_ne by done; apply direction_ids0].
    intros _. split; [by apply Hids|by apply Hfresh].
Qed.

(** Completing or expiring a forwarded request. *)
Lemma direction_retire q r h i dl :
  digests_distinct → ok q r h → r !! i = Some (Pending dl) →
  ok q (delete i r) ({[request_id_digest i]} ∪ h).
Proof.
  intros Hcf [] Hi. split; try done.
  - intros j. rewrite <-direction_queued0. destruct (decide (j = i)) as [->|].
    + rewrite lookup_delete_eq. naive_solver.
    + by rewrite lookup_delete_ne.
  - intros j Hj. destruct (decide (j = i)) as [->|Hne]; [rewrite lookup_delete_eq in Hj; by destruct Hj|].
    rewrite lookup_delete_ne in Hj by done. destruct (direction_ids0 j Hj) as [Hwf Hh].
    split; [done|]. intros [Heq%elem_of_singleton|]%elem_of_union; [|done].
    apply Hne, request_id_digest_inj; try done. apply direction_ids0. by eexists.
Qed.

(** Releasing the front frame: a request starts its deadline. *)
Lemma direction_pop q r h f fs dl :
  ok q r h → frames q = f :: fs →
  ∃ q', pop q = (Ok (Some f), q') ∧ frames q' = fs ∧
        (∀ i, frame_request_id f = Some i → r !! i = Some Queued) ∧
        ok q' (match frame_request_id f with Some i => <[i := Pending dl]> r | None => r end) h.
Proof.
  intros [] Hf. unfold pop. rewrite Hf in *. subst limits.
  rewrite request_ids_cons in *. cbn [frames_bytes foldr] in direction_bytes0.
  rewrite len_cons in direction_peak_messages0.
  pose proof (frames_bytes_nonneg fs) as Hnn. unfold frames_bytes in Hnn.
  pose proof (len_nonneg (frame_json_bytes f)).
  rewrite (proj2 (checked_sub_Some (queued_bytes q) (len (frame_json_bytes f)) _))
    by (split; [reflexivity|lia]).
  assert (Hq : ∀ i, frame_request_id f = Some i → r !! i = Some Queued).
  { intros i Hi. apply direction_queued0. rewrite Hi. set_solver. }
  eexists. split; [reflexivity|]. split; [done|]. split; [done|].
  apply Forall_cons in direction_frames0 as [_ Hfs]. apply NoDup_app in direction_once0 as (_ & Hdisj & Hnd).
  split; cbn [queue_direction queue_limits frames queued_bytes peak_messages peak_bytes];
    try done; try (unfold frames_bytes; lia).
  - intros i. specialize (direction_queued0 i).
    destruct (frame_request_id f) as [j|] eqn:Ej; cbn in *; [|done].
    destruct (decide (i = j)) as [->|].
    + rewrite lookup_insert_eq. split; [done|]. intros Hin. destruct (Hdisj j); set_solver.
    + rewrite lookup_insert_ne by done. set_solver.
  - intros i. destruct (frame_request_id f) as [j|] eqn:Ej; [|apply direction_ids0].
    destruct (decide (i = j)) as [->|]; [|rewrite lookup_insert_ne by done; apply direction_ids0].
    intros _. apply direction_ids0. eexists. by apply Hq.
Qed.

(** An empty queue with no request. *)
Lemma direction_empty q :
  queue_direction q = d → queue_limits q = limits → frames q = [] → queued_bytes q = 0 →
  0 <= peak_messages q <= queue_messages limits → 0 <= peak_bytes q <= queue_max_bytes limits →
  ok q ∅ ∅.
Proof.
  intros Hd Hl Hf Hb Hm Hp. split; rewrite ?Hf, ?Hb; try done.
  - intros i. rewrite lookup_empty. split; [done|]. by intros ?%elem_of_nil.
  - constructor.
  - intros i [x Hx]. by rewrite lookup_empty in Hx.
Qed.

Lemma direction_clear q r h : ok q r h → ok (clear q).1 ∅ ∅.
Proof.
  intros []. pose proof (len_nonneg (frames q)). pose proof (frames_bytes_nonneg (frames q)).
  apply direction_empty; cbn; try done; lia.
Qed.
End Direction.

(** ** Abstract transitions

    What a call may do to the session, with the monadic plumbing gone. *)

Definition benign (e : Error) : Prop :=
  match e with Proxy_InconsistentCorrelationState => False | _ => True end.

(** The counters [cs] are [c] with the given amounts added in direction [d]. *)
Definition counted (c cs : ProxyCounters) (d : AppServerProxyDirection)
    (messages bytes forwarded : Z) : Prop :=
  ∀ d', let amount (n : Z) := if decide (d' = d) then n else 0 in
    accepted_messages cs d' = accepted_messages c d' + amount messages ∧
    accepted_bytes cs d' = accepted_bytes c d' + amount bytes ∧
    forwarded_messages cs d' = forwarded_messages c d' + amount forwarded.

(** A forwarded request leaves the active set and its digest is retired. *)
Definition retire_step (d : AppServerProxyDirection) (i : AppServerRequestId)
    (p : TransparentAppServerProxy) : TransparentAppServerProxy :=
  request_history_mut d ({[request_id_digest i]} ∪ request_history p d)
    (requests_mut d (delete i (requests p d)) p).

Inductive correlated (p : TransparentAppServerProxy) (o : AppServerMessageObservation) :
    TransparentAppServerProxy → Prop :=
| correlated_request i :
    observed_kind o = Request → observed_request_id o = Some i →
    requests p (observed_direction o) !! i = None →
    (request_id_digest i ∉ request_history p (observed_direction o)) →
    map_len (client_requests p) + map_len (server_requests p) < active_requests (proxy_limits p) →
    map_len (client_requests p) + map_len (server_requests p) +
      set_len (client_request_history p) + set_len (server_request_history p) <
      request_history_limit (proxy_limits p) →
    correlated p o (requests_mut (observed_direction o)
                      (<[i := Queued]> (requests p (observed_direction o))) p)
| correlated_completes i dl :
    observed_kind o = SuccessResponse ∨ observed_kind o = ErrorResponse →
    observed_request_id o = Some i →
    requests p (opposite (observed_direction o)) !! i = Some (Pending dl) →
    correlated p o (retire_step (opposite (observed_direction o)) i p)
| correlated_nothing :
    observed_kind o ≠ Request →
    (∀ i, observed_kind o ≠ Notification → observed_request_id o = Some i →
       requests p (opposite (observed_direction o)) !! i = None) →
    correlated p o p.

Inductive retires : TransparentAppServerProxy → list AppServerExpiredRequest →
    TransparentAppServerProxy → Prop :=
| retires_nil p : retires p [] p
| retires_cons p d i dl rest p' :
    requests p d !! i = Some (Pending dl) →
    retires (retire_step d i p) rest p' →
    retires p (mkExpiredRequest d i :: rest) p'.

Inductive transition (p : TransparentAppServerProxy) :
    operation → outcome → TransparentAppServerProxy → Prop :=
| transition_rejected op e : benign e → transition p op (Out_Rejected e) p
| transition_admitted op f d u p1 cs :
    match op with
    | Op_Ingest _ _ | Op_Admit _ => True
    | _ => False
    end →
    proxy_state p = Open → observed_direction (frame_observation f) = d →
    message_ok (frame_observation f) (frame_json_bytes f) →
    ensure_capacity (queue p d) (len (frame_json_bytes f)) = Ok u →
    correlated p (frame_observation f) p1 →
    counted (counters p) cs d 1 (len (frame_json_bytes f)) 0 →
    transition p op (Out_Admitted f)
      (set_counters cs (queue_mut d (push_after_capacity_check (queue p d) f) p1))
| transition_idle d now :
    frames (queue p d) = [] →
    transition p (Op_Release d now) (Out_Released None) (set_observed_time now p)
| transition_released d now dl f fs q cs :
    frames (queue p d) = f :: fs → pop (queue p d) = (Ok (Some f), q) →
    counted (counters p) cs d 0 0 1 →
    transition p (Op_Release d now) (Out_Released (Some f))
      (set_observed_time now (set_counters cs (queue_mut d q
        match frame_request_id f with
        | Some i => requests_mut d (<[i := Pending dl]> (requests p d)) p
        | None => p
        end)))
| transition_expired now expired p1 cs :
    retires p expired p1 →
    counted (counters p) cs ClientToServer 0 0 0 →
    transition p (Op_Expire now) (Out_Expired expired) (set_observed_time now (set_counters cs p1))
| transition_closed :
    transition p Op_Close (Out_Closed (close_proxy p).2) (close_proxy p).1.

(** ** The invariant is preserved *)

Lemma map_len_delete {V} (m : gmap AppServerRequestId V) i v :
  m !! i = Some v → map_len (delete i m) = map_len m - 1.
Proof.
  intros H. unfold map_len. rewrite map_size_delete_Some by eauto.
  assert (size m ≠ 0%nat); [|lia]. rewrite map_size_non_empty_iff. intros ->. by rewrite lookup_empty in H.
Qed.

Lemma set_len_insert (x : bytes) (h : gset bytes) : (x ∉ h) → set_len ({[x]} ∪ h) = set_len h + 1.
Proof.
  intros H. unfold set_len. rewrite size_union by set_solver. rewrite size_singleton. lia.
Qed.

Lemma map_len_update {V} (m : gmap AppServerRequestId V) i v w :
  m !! i = Some v → map_len (<[i := w]> m) = map_len m.
Proof. intros H. unfold map_len. by rewrite map_size_insert_Some by eauto. Qed.

Lemma proxy_ok_retire p d i dl :
  digests_distinct → proxy_ok p → requests p d !! i = Some (Pending dl) →
  proxy_ok (retire_step d i p).
Proof.
  intros Hcf [Hd Ha Ht Hc] Hi.
  pose proof (Hd d) as Hdd. pose proof (direction_ids _ _ _ _ _ Hdd i ltac:(eauto)) as [_ Hfresh].
  pose proof (direction_retire _ _ _ _ _ _ _ Hcf Hdd Hi) as Hdd'.
  pose proof (map_len_delete _ _ _ Hi) as Hsz. pose proof (set_len_insert _ _ Hfresh) as Hsh.
  pose proof (Hd (opposite d)) as Ho.
  destruct p; destruct d; cbn in *; split; cbn; try lia.
  all: try (intros []; cbn; done).
  all: intros Hcl; destruct (Hc Hcl ClientToServer) as (_ & ? & _), (Hc Hcl ServerToClient) as (_ & ? & _);
    cbn in *; subst; by rewrite lookup_empty in Hi.
Qed.

Lemma proxy_ok_retires p l p' : digests_distinct → proxy_ok p → retires p l p' → proxy_ok p'.
Proof.
  intros Hcf Hp H. revert Hp. induction H; [done|]. intros Hp.
  apply IHretires. by eapply proxy_ok_retire.
Qed.

Lemma proxy_ok_observe p now cs : proxy_ok p → proxy_ok (set_observed_time now (set_counters cs p)).
Proof. by intros []; destruct p; split. Qed.

Lemma proxy_ok_counters p cs : proxy_ok p → proxy_ok (set_counters cs p).
Proof. by intros []; destruct p; split. Qed.

Lemma proxy_ok_time p now : proxy_ok p → proxy_ok (set_observed_time now p).
Proof. by intros []; destruct p; split. Qed.

(** Pushing a frame that is not a request. *)
Lemma proxy_ok_push p d f u :
  proxy_ok p → proxy_state p = Open → frame_request_id f = None →
  observed_direction (frame_observation f) = d →
  message_ok (frame_observation f) (frame_json_bytes f) →
  ensure_capacity (queue p d) (len (frame_json_bytes f)) = Ok u →
  proxy_ok (queue_mut d (push_after_capacity_check (queue p d) f) p).
Proof.
  intros [Hd Ha Ht Hc] Hopen Hn Hdir Hm Hcap.
  pose proof (direction_push _ _ _ _ _ _ _ (Hd d) Hcap Hdir Hm ltac:(by rewrite Hn)) as Hp.
  rewrite Hn in Hp. pose proof (Hd (opposite d)) as Ho.
  destruct p; destruct d; cbn in *; split; cbn; try done; try lia; try (intros []; done).
  all: by rewrite Hopen.
Qed.

(** Pushing a request, which becomes active. *)
Lemma proxy_ok_push_request p d f i u :
  proxy_ok p → proxy_state p = Open → frame_request_id f = Some i →
  observed_direction (frame_observation f) = d →
  message_ok (frame_observation f) (frame_json_bytes f) →
  ensure_capacity (queue p d) (len (frame_json_bytes f)) = Ok u →
  requests p d !! i = None → (request_id_digest i ∉ request_history p d) →
  map_len (client_requests p) + map_len (server_requests p) < active_requests (proxy_limits p) →
  map_len (client_requests p) + map_len (server_requests p) +
    set_len (client_request_history p) + set_len (server_request_history p) <
    request_history_limit (proxy_limits p) →
  proxy_ok (queue_mut d (push_after_capacity_check (queue p d) f)
              (requests_mut d (<[i := Queued]> (requests p d)) p)).
Proof.
  intros [Hd Ha Ht Hc] Hopen Hn Hdir Hm Hcap Hnew Hfresh Hact Htr.
  pose proof (direction_push _ _ _ _ _ _ _ (Hd d) Hcap Hdir Hm
                ltac:(rewrite Hn; by intros ? [= <-])) as Hp.
  rewrite Hn in Hp. pose proof (Hd (opposite d)) as Ho. pose proof (map_len_insert _ _ Queued Hnew).
  destruct p; destruct d; cbn in *; split; cbn; try done; try lia; try (intros []; done).
  all: by rewrite Hopen.
Qed.

(** Releasing the front frame. *)
Lemma proxy_ok_pop p d f fs q dl :
  proxy_ok p → frames (queue p d) = f :: fs → pop (queue p d) = (Ok (Some f), q) →
  frames q = fs ∧
  proxy_ok (queue_mut d q match frame_request_id f with
                          | Some i => requests_mut d (<[i := Pending dl]> (requests p d)) p
                          | None => p
                          end).
Proof.
  intros [Hd Ha Ht Hc] Hf Hpop.
  destruct (direction_pop _ _ _ _ _ _ _ dl (Hd d) Hf) as (q' & Hpop' & Hfs & Hq & Hok).
  rewrite Hpop in Hpop'. injection Hpop' as <-. split; [done|].
  assert (Hopen : proxy_state p ≠ Closed).
  { intros Hcl. destruct (Hc Hcl d) as (Hnil & _). by rewrite Hnil in Hf. }
  pose proof (Hd (opposite d)) as Ho.
  destruct (frame_request_id f) as [i|].
  - pose proof (map_len_update _ _ _ (Pending dl) (Hq i eq_refl)) as Hsz.
    destruct p; destruct d; cbn in *; split; cbn; try done; try lia; try (intros []; done).
  - destruct p; destruct d; cbn in *; split; cbn; try done; try lia; try (intros []; done).
Qed.

Lemma retire_step_queue d i p d' : queue (retire_step d i p) d' = queue p d'.
Proof. by destruct p, d, d'. Qed.
Lemma retire_step_state d i p : proxy_state (retire_step d i p) = proxy_state p.
Proof. by destruct p, d. Qed.

Lemma frame_request_id_None f :
  observed_kind (frame_observation f) ≠ Request → frame_request_id f = None.
Proof. unfold frame_request_id. by case_match. Qed.

Lemma proxy_ok_close p : proxy_ok p → proxy_ok (close_proxy p).1.
Proof.
  intros [Hd Ha Ht Hc].
  pose proof (direction_clear _ _ _ _ _ (Hd ClientToServer)) as HC.
  pose proof (direction_clear _ _ _ _ _ (Hd ServerToClient)) as HS'.
  assert (0 <= map_len (client_requests p) ∧ 0 <= map_len (server_requests p) ∧
          0 <= set_len (client_request_history p) ∧ 0 <= set_len (server_request_history p))
    by (unfold map_len, set_len; lia).
  destruct p as [l st ts tc cr sr ch sh t c]. cbn in *. split; cbn.
  - intros []; [exact HC|exact HS'].
  - change (map_len ∅) with 0. lia.
  - change (map_len ∅) with 0. change (set_len ∅) with 0. lia.
  - by intros _ [].
Qed.

Lemma transition_ok p op out p' :
  digests_distinct → proxy_ok p → transition p op out p' → proxy_ok p'.
Proof.
  intros Hcf Hp [ | ? f d u p1 cs _ Hopen Hdir Hm Hcap Hcor _ | | | | ].
  - done.
  - apply proxy_ok_counters. destruct Hcor as [i Hk Hi ? ? ? ?|i dl Hk Hi Hpend|Hk].
    + rewrite Hdir in *. eapply proxy_ok_push_request; try done. unfold frame_request_id. by rewrite Hk.
    + rewrite <-(retire_step_queue (opposite (observed_direction (frame_observation f))) i p d).
      eapply proxy_ok_push; try done.
      * by eapply proxy_ok_retire.
      * by rewrite retire_step_state.
      * apply frame_request_id_None. intros Hr. rewrite Hr in Hk. by destruct Hk.
      * by rewrite retire_step_queue.
    + eapply proxy_ok_push; try done. by apply frame_request_id_None.
  - by apply proxy_ok_time.
  - apply proxy_ok_observe. by eapply proxy_ok_pop.
  - apply proxy_ok_observe. by eapply proxy_ok_retires.
  - by apply proxy_ok_close.
Qed.

(** ** The operations are transitions *)

(** A call that either fails, benignly and without a trace, or succeeds with
    [Q]. *)
Definition atomic {A} (Q : A → TransparentAppServerProxy → Prop) (p : TransparentAppServerProxy)
    (x : result A Error * TransparentAppServerProxy) : Prop :=
  match x with
  | (Ok a, p') => Q a p'
  | (Err e, p') => benign e ∧ p' = p
  end.

Definition benign_result {A} (r : result A Error) : Prop :=
  match r with Ok _ => True | Err e => benign e end.

Lemma atomic_get {A} Q p (k : TransparentAppServerProxy → method A) :
  atomic Q p (k p p) → atomic Q p (mut_bind mut_get k p).
Proof. done. Qed.

Lemma atomic_lift {A B} Q p (r : result A Error) (k : A → method B) :
  benign_result r → (∀ a, r = Ok a → atomic Q p (k a p)) →
  atomic Q p (mut_bind (mut_lift r) k p).
Proof. destruct r; cbn; auto. Qed.

Lemma atomic_run {A B} Q p p1 (m : method A) a (k : A → method B) :
  m p = (Ok a, p1) → atomic Q p (k a p1) → atomic Q p (mut_bind m k p).
Proof. unfold mut_bind. by intros ->. Qed.

Lemma benign_reject b (e : Error) : benign e → benign_result (reject b e).
Proof. by destruct b. Qed.
Lemma benign_ok_or {A} (o : option A) (e : Error) : benign e → benign_result (ok_or o e).
Proof. by destruct o. Qed.
Lemma benign_bind {A B} (r : result A Error) (k : A → result B Error) :
  benign_result r → (∀ a, r = Ok a → benign_result (k a)) → benign_result (result_bind r k).
Proof. destruct r; cbn; auto. Qed.

Lemma benign_ensure_capacity q n : benign_result (ensure_capacity q n).
Proof.
  repeat first [apply benign_bind; [|intros]|apply benign_reject|apply benign_ok_or]; done.
Qed.

Lemma benign_monotonic p now : benign_result (ensure_monotonic_time p now).
Proof. unfold ensure_monotonic_time. case_match; [by apply benign_reject|done]. Qed.

(** Reading a line fails only with errors about the line. *)
Lemma benign_parse line limits : benign_result (parse_and_classify json_stream json_custom line limits).
Proof.
  unfold parse_and_classify, parse_bounded_json, classify_object, parse_request_id.
  repeat first [apply benign_bind; [|intros]|apply benign_reject|apply benign_ok_or|case_match]; done.
Qed.

Lemma benign_prepare p d line : benign_result (prepare p d line).
Proof.
  unfold prepare. apply benign_bind; [by apply benign_reject|intros].
  apply benign_bind; [apply benign_parse|done].
Qed.

Lemma prepare_Ok p d line c :
  session_stream → prepare p d line = Ok c →
  candidate_json_bytes c = line ∧ observed_direction (candidate_observation c) = d ∧
  message_ok (candidate_observation c) line.
Proof.
  intros [Hty Hk] H. unfold prepare in H. inv_ok.
  match goal with H : parse_and_classify _ _ _ _ = _ |- _ =>
    destruct (classified_id _ _ _ _ _ Hty H) as (Hr & Hi & Hm); pose proof (λ i, Hk _ _ _ i H) as Hknown end.
  split_and!; [done|done|]. split_and!; [done|done| |done]. intros i Hid. split; [by apply Hi|by apply Hknown].
Qed.

Lemma correlate_response p o :
  proxy_ok p → observed_kind o = SuccessResponse ∨ observed_kind o = ErrorResponse →
  benign_result (preflight_correlation p o) ∧
  ∀ a, preflight_correlation p o = Ok a →
    ∃ p1, apply_correlation o a p = (Ok tt, p1) ∧ correlated p o p1.
Proof.
  intros Hp Hk. assert (Hnothing :
    (∀ i, observed_request_id o = Some i → requests p (opposite (observed_direction o)) !! i = None) →
    correlated p o p).
  { intros Hn. apply correlated_nothing; [|auto]. intros Hr. rewrite Hr in Hk. by destruct Hk. }
  unfold preflight_correlation, apply_correlation.
  destruct (observed_request_id o) as [i|] eqn:Ei.
  2: { split; [by destruct Hk as [-> | ->]|]. intros a Ha. exists p.
       split; [by destruct Hk as [Hk|Hk]; rewrite Hk in *; simplify_eq|by apply Hnothing]. }
  destruct (requests p (opposite (observed_direction o)) !! i) as [[|dl]|] eqn:Er.
  - split; [by destruct Hk as [-> | ->]|]. by destruct Hk as [-> | ->].
  - pose proof (proxy_directions _ Hp (opposite (observed_direction o))) as Hd.
    destruct (direction_ids _ _ _ _ _ Hd i ltac:(by eexists)) as [_ Hfresh].
    rewrite (bool_decide_eq_false_2 _ Hfresh). cbn [negb].
    split; [by destruct Hk as [-> | ->]|]. intros a Ha.
    exists (retire_step (opposite (observed_direction o)) i p).
    split; [|by eapply correlated_completes].
    assert (a = Action_Complete) as -> by (by destruct Hk as [Hk|Hk]; rewrite Hk in *; simplify_eq).
    unfold remove_request, retire, mut_bind, mut_lift, ok_or.
    assert (Hh : request_history (requests_mut (opposite (observed_direction o))
        (delete i (requests p (opposite (observed_direction o)))) p) (opposite (observed_direction o)) =
      request_history p (opposite (observed_direction o))) by (by destruct p, (observed_direction o)).
    destruct Hk as [-> | ->]; rewrite Er; cbn [reject negb]; rewrite bool_decide_eq_true_2 by eauto;
      cbn [reject negb]; by rewrite Hh, (bool_decide_eq_false_2 _ Hfresh).
  - case_bool_decide; (split; [by destruct Hk as [-> | ->]|]); intros a Ha; exists p;
      (split; [by destruct Hk as [Hk|Hk]; rewrite Hk in *; simplify_eq|]);
      apply Hnothing; intros j [= <-]; exact Er.
Qed.

Lemma correlate_spec p o :
  proxy_ok p → (observed_kind o = Request → is_Some (observed_request_id o)) →
  benign_result (preflight_correlation p o) ∧
  ∀ a, preflight_correlation p o = Ok a →
    ∃ p1, apply_correlation o a p = (Ok tt, p1) ∧ correlated p o p1.
Proof.
  intros Hp Hid. destruct (observed_kind o) eqn:Ek; [| |by apply correlate_response; auto..];
    unfold preflight_correlation, apply_correlation; rewrite Ek.
  - destruct (Hid eq_refl) as [i Ei]. rewrite Ei. cbn [ok_or result_bind]. split.
    + repeat first [apply benign_bind; [|intros]|apply benign_reject|apply benign_ok_or]; done.
    + intros a Ha. inv_ok. cbn [mut_bind mut_lift]. unfold insert_request.
      repeat match goal with
      | H : bool_decide _ = false |- _ => apply bool_decide_eq_false in H
      | H : _ ≫= _ = Some _ |- _ => apply bind_Some in H as (? & ? & H)
      end. inv_ok.
      unfold mut_bind, mut_lift.
      match goal with H : ¬ is_Some _ |- _ => apply eq_None_not_Some in H; rewrite H end.
      eexists. split; [reflexivity|]. eapply correlated_request; try done; lia.
  - split; [done|]. intros a [= <-]. exists p. split; [done|].
    apply correlated_nothing; by rewrite Ek.
Qed.

Lemma counted_accept c d m b l u n :
  increment (accepted_messages c d) = Ok m → add (accepted_bytes c d) n = Ok b →
  counted c (accept_counters c d m b l u) d 1 n 0.
Proof.
  unfold increment, add. intros Hm Hb. inv_ok. intros d'. cbv zeta.
  destruct (decide (d' = d)) as [->|], c; [destruct d|destruct d, d']; cbn in *; split_and!; done || lia.
Qed.
Lemma counted_forward c d m :
  increment (forwarded_messages c d) = Ok m → counted c (forward_counters c d m) d 0 0 1.
Proof.
  unfold increment. intros Hm. inv_ok. intros d'. cbv zeta.
  destruct (decide (d' = d)) as [->|], c; [destruct d|destruct d, d']; cbn in *; split_and!; done || lia.
Qed.
Lemma counted_expire c n : counted c (expire_counters c n) ClientToServer 0 0 0.
Proof. intros d'. cbv zeta. destruct (decide (d' = ClientToServer)), c, d'; cbn; split_and!; lia. Qed.

Lemma correlated_counters p o p1 : correlated p o p1 → counters p1 = counters p.
Proof. intros []; by destruct p, (observed_direction o). Qed.
Lemma retires_counters p l p1 : retires p l p1 → counters p1 = counters p.
Proof. induction 1 as [|p d i dl l p' _ _ ->]; [done|]. by destruct p, d. Qed.
Lemma queue_mut_counters d q p : counters (queue_mut d q p) = counters p.
Proof. by destruct p, d. Qed.
Lemma requests_mut_counters d r p : counters (requests_mut d r p) = counters p.
Proof. by destruct p, d. Qed.

Lemma admit_candidate_spec p c :
  proxy_ok p → message_ok (candidate_observation c) (candidate_json_bytes c) →
  atomic (λ o p', o = candidate_observation c ∧ proxy_state p = Open ∧
            ∃ u p1 cs, let d := observed_direction o in
              ensure_capacity (queue p d) (len (candidate_json_bytes c)) = Ok u ∧
              correlated p o p1 ∧
              counted (counters p) cs d 1 (len (candidate_json_bytes c)) 0 ∧
              p' = set_counters cs (queue_mut d
                     (push_after_capacity_check (queue p d) (mkFrame o (candidate_json_bytes c))) p1))
    p (admit_candidate c p).
Proof.
  intros Hp (Hlen & Hreq & Hid & _). unfold admit_candidate. apply atomic_get.
  apply atomic_lift; [by apply benign_reject|intros [] Hopen%reject_Ok].
  apply atomic_lift; [apply benign_ensure_capacity|intros u Hcap].
  destruct (correlate_spec p (candidate_observation c) Hp Hreq) as [Hb Hcor].
  apply atomic_lift; [done|intros a Ha]. destruct (Hcor a Ha) as (p1 & Happly & Hc).
  apply atomic_lift; [by apply benign_ok_or|intros messages Hmessages].
  apply atomic_lift; [by apply benign_ok_or|intros bytes Hbytes].
  do 2 (apply atomic_lift; [destruct a; try done; by apply benign_ok_or|intros ? _]).
  eapply atomic_run; [exact Happly|].
  split; [done|]. split; [by destruct (proxy_state p)|]. eexists u, p1, _. split; [done|]. split; [done|].
  split; [by apply counted_accept|]. cbn [mut_bind mut_get mut_put mut_ret snd].
  rewrite queue_mut_counters, (correlated_counters _ _ _ Hc).
  replace (queue p1 (observed_direction (candidate_observation c)))
    with (queue p (observed_direction (candidate_observation c))); [reflexivity|].
  destruct Hc; destruct p, (observed_direction (candidate_observation c)); done.
Qed.

Lemma release_spec p d now :
  proxy_ok p →
  atomic (λ r p', transition p (Op_Release d now) (Out_Released r) p') p (release d now p).
Proof.
  intros Hp. unfold release. apply atomic_get.
  apply atomic_lift; [apply benign_monotonic|intros _ _].
  unfold front. destruct (frames (queue p d)) as [|f fs] eqn:Ef; cbn [head].
  { by apply (transition_idle p d now). }
  pose proof (proxy_directions _ Hp d) as Hd. fold (frame_request_id f).
  destruct (direction_pop _ _ _ _ _ _ _ 0 Hd Ef) as (q & Hq & _ & Hqueued & _).
  destruct (frame_request_id f) as [i|] eqn:Ei.
  - unfold instant_checked_add.
    destruct (checked_add instant_max now _) as [dl|]; [|done].
    eapply atomic_run; [reflexivity|]. apply atomic_lift; [by apply benign_ok_or|intros next Hnext].
    specialize (Hqueued i eq_refl).
    eapply atomic_run.
    { rewrite Hqueued. reflexivity. }
    unfold mut_bind at 1. cbn [mut_get].
    replace (queue (requests_mut d (<[i:=Pending dl]> (requests p d)) p) d) with (queue p d)
      by (by destruct p, d).
    rewrite Hq. cbn. rewrite queue_mut_counters, requests_mut_counters.
    pose proof (transition_released p d now dl f fs q) as Ht. rewrite Ei in Ht.
    by apply Ht, counted_forward.
  - eapply atomic_run; [reflexivity|]. apply atomic_lift; [by apply benign_ok_or|intros next Hnext].
    eapply atomic_run; [reflexivity|].
    unfold mut_bind at 1. cbn [mut_get]. rewrite Hq. cbn. rewrite queue_mut_counters.
    pose proof (transition_released p d now 0 f fs q) as Ht. rewrite Ei in Ht.
    by apply Ht, counted_forward.
Qed.

(** The requests an expiry selects: pending, due, in identity order. *)
Lemma elem_of_expired_direction r d now e :
  e ∈ expired_direction r d now ↔
  expired_origin e = d ∧ ∃ dl, r !! expired_request_id e = Some (Pending dl) ∧ dl <= now.
Proof.
  unfold expired_direction. rewrite list_elem_of_In, in_map_iff. setoid_rewrite <-list_elem_of_In.
  setoid_rewrite list_elem_of_omap. split.
  - intros (i & <- & [j st] & Hin%elem_of_btree_iter & Hst). cbn in *.
    destruct st as [|dl]; [done|]. destruct (Z.leb_spec dl now); [|done]. injection Hst as <-. eauto.
  - destruct e as [o i]; cbn. intros (-> & dl & Hi & Hdl). exists i. split; [done|].
    exists (i, Pending dl). rewrite elem_of_btree_iter. split; [done|]. cbn.
    by rewrite (proj2 (Z.leb_le _ _) Hdl).
Qed.

Lemma NoDup_omap_fst {K V} (f : K * V → option K) (l : list (K * V)) :
  (∀ x k, f x = Some k → k = x.1) → NoDup l.*1 → NoDup (omap f l).
Proof.
  intros Hf. induction l as [|x l IH]; cbn; [constructor|]. intros [Hx Hl]%NoDup_cons.
  destruct (f x) as [k|] eqn:Ek; [|auto]. apply NoDup_cons. split; [|auto].
  apply Hf in Ek as ->. intros (y & Hy & Hk)%list_elem_of_omap. apply Hf in Hk.
  apply Hx. rewrite Hk. by apply list_elem_of_fmap_2.
Qed.

#[local] Instance mkExpiredRequest_inj d : Inj (=) (=) (mkExpiredRequest d).
Proof. by intros i j [= ->]. Qed.

Lemma NoDup_expired_direction r d now : NoDup (expired_direction r d now).
Proof.
  unfold expired_direction. apply (NoDup_fmap_2 (mkExpiredRequest d)).
  apply NoDup_omap_fst; [|apply btree_iter_NoDup].
  intros [i []] k; cbn; [done|]. case_match; [|done]. by intros [= <-].
Qed.

(** Retiring requests that are pending and distinct cannot fail. *)
Lemma retire_expired_spec p l :
  digests_distinct → proxy_ok p → NoDup l →
  (∀ e, e ∈ l → ∃ dl, requests p (expired_origin e) !! expired_request_id e = Some (Pending dl)) →
  ∃ p1, retire_expired l p = (Ok tt, p1) ∧ retires p l p1.
Proof.
  intros Hcf. revert p. induction l as [|[d i] l IH]; intros p Hp Hnd Hpend.
  { exists p. split; [done|constructor]. }
  apply NoDup_cons in Hnd as [Hnew Hnd]. destruct (Hpend (mkExpiredRequest d i)) as [dl Hi]; [set_solver|].
  cbn [expired_origin expired_request_id] in *.
  destruct (direction_ids _ _ _ _ _ (proxy_directions _ Hp d) i ltac:(by eexists)) as [_ Hfresh].
  destruct (IH (retire_step d i p)) as (p1 & Hrun & Hret); try done.
  - by eapply proxy_ok_retire.
  - intros [d' j] Hin. destruct (Hpend (mkExpiredRequest d' j)) as [dl' Hj]; [set_solver|].
    exists dl'. cbn in *.
    assert (Hne : d' = d → j ≠ i) by (intros -> ->; by apply Hnew).
    destruct p, d, d'; cbn in *; try done; by rewrite lookup_delete_ne by (by apply not_eq_sym, Hne).
  - exists p1. split; [|by econstructor]. cbn [retire_expired].
    rewrite (mut_bind_step _ _ _ (Some (Pending dl))
               (requests_mut d (delete i (requests p d)) p)) 
      by (unfold remove_request; cbn [expired_origin expired_request_id]; by rewrite Hi).
    rewrite (mut_bind_step _ _ _ tt (requests_mut d (delete i (requests p d)) p)) by done.
    rewrite (mut_bind_step _ _ _ true (retire_step d i p)); [done|].
    unfold retire. cbn [expired_origin expired_request_id].
    replace (request_history (requests_mut d (delete i (requests p d)) p) d)
      with (request_history p d) by (by destruct p, d).
    by rewrite (bool_decide_eq_false_2 _ Hfresh).
Qed.

Definition due (p : TransparentAppServerProxy) (now : Z) : list AppServerExpiredRequest :=
  expired_direction (client_requests p) ClientToServer now ++
  expired_direction (server_requests p) ServerToClient now.

Lemma elem_of_due p now e :
  e ∈ due p now ↔
  ∃ dl, requests p (expired_origin e) !! expired_request_id e = Some (Pending dl) ∧ dl <= now.
Proof.
  unfold due. rewrite elem_of_app, !elem_of_expired_direction.
  destruct e as [[] i]; cbn; naive_solver.
Qed.

Lemma NoDup_due p now : NoDup (due p now).
Proof.
  apply NoDup_app. split_and!; [apply NoDup_expired_direction| |apply NoDup_expired_direction].
  intros e [H1 _]%elem_of_expired_direction [H2 _]%elem_of_expired_direction. congruence.
Qed.

Lemma due_not_retired p now :
  proxy_ok p →
  existsb (λ request, bool_decide (request_id_digest (expired_request_id request) ∈
    request_history p (expired_origin request))) (due p now) = false.
Proof.
  intros Hp. apply not_true_iff_false. rewrite existsb_exists.
  intros (e & Hin & Hx%bool_decide_eq_true). apply list_elem_of_In, elem_of_due in Hin as (dl & He & _).
  by apply (direction_ids _ _ _ _ _ (proxy_directions _ Hp (expired_origin e)) (expired_request_id e));
    [eexists|].
Qed.

Lemma expire_spec p now :
  digests_distinct → proxy_ok p →
  atomic (λ l p', l = due p now ∧ ∃ p1 cs, retires p l p1 ∧
            counted (counters p) cs ClientToServer 0 0 0 ∧
            p' = set_observed_time now (set_counters cs p1)) p (expire_requests now p).
Proof.
  intros Hcf Hp. unfold expire_requests. apply atomic_get. fold (due p now).
  apply atomic_lift; [apply benign_monotonic|intros _ _].
  apply atomic_lift; [by apply benign_ok_or|intros next _].
  rewrite (due_not_retired p now Hp). apply atomic_lift; [done|intros _ _].
  destruct (retire_expired_spec p (due p now) Hcf Hp (NoDup_due p now)) as (p1 & Hrun & Hret).
  { intros e (dl & He & _)%elem_of_due. eauto. }
  eapply atomic_run; [exact Hrun|]. split; [done|]. eexists p1, _. split; [done|].
  split; [|reflexivity]. rewrite (retires_counters _ _ _ Hret). apply counted_expire.
Qed.

Lemma perform_spec p op :
  session_stream → digests_distinct → proxy_ok p → operation_ok op →
  transition p op (perform op p).1 (perform op p).2.
Proof.
  intros Hst Hcf Hp Hop.
  assert (Hadmit : ∀ op c, match op with Op_Ingest _ _ | Op_Admit _ => True | _ => False end →
      message_ok (candidate_observation c) (candidate_json_bytes c) →
      transition p op (outcome_of (λ o, Out_Admitted (mkFrame o (candidate_json_bytes c)))
                         (admit_candidate c p).1) (admit_candidate c p).2).
  { intros op' c Hkind Hm. pose proof (admit_candidate_spec p c Hp Hm) as H.
    destruct (admit_candidate c p) as [[o|e] p']; cbn in *.
    - destruct H as (-> & Hopen & u & p1 & cs & Hcap & Hcor & Hcnt & ->).
      by eapply (transition_admitted p op' (mkFrame _ _)).
    - destruct H as [? ->]. by constructor. }
  destruct op as [d line|c|d now|now|]; cbn [perform].
  - change (ingest d line p) with
      (match prepare p d line with Ok c => admit_candidate c p | Err e => (Err e, p) end).
    pose proof (benign_prepare p d line) as Hb. destruct (prepare p d line) as [c|e] eqn:Ec; [|by constructor].
    destruct (prepare_Ok _ _ _ _ Hst Ec) as (Hbs & _ & Hm). subst line.
    specialize (Hadmit (Op_Ingest d (candidate_json_bytes c)) c I Hm).
    by destruct (admit_candidate c p).
  - destruct Hop as (p0 & d & line & Hc). destruct (prepare_Ok _ _ _ _ Hst Hc) as (<- & _ & Hm).
    specialize (Hadmit (Op_Admit c) c I Hm). unfold admit_proxy, mut_bind, mut_get, mut_lift, reject.
    destruct (is_closed (proxy_state p)); [by constructor|].
    destruct (negb _); [by constructor|]. by destruct (admit_candidate c p).
  - pose proof (release_spec p d now Hp) as H. destruct (release d now p) as [[r|e] p']; cbn in *; [done|].
    destruct H as [? ->]. by constructor.
  - pose proof (expire_spec p now Hcf Hp) as H.
    destruct (expire_requests now p) as [[r|e] p']; cbn in *; [|destruct H as [? ->]; by constructor].
    destruct H as (_ & p1 & cs & Hret & Hcnt & ->). by constructor.
  - pose proof (transition_closed p) as H. by destruct (close_proxy p).
Qed.

(** ** Whole sessions *)

Lemma proxy_ok_new limits : limits_ok limits → proxy_ok (proxy_new limits).
Proof.
  intros (Hq & Ha & Hl). unfold proxy_limits_new in Hl. inv_ok. split.
  - intros d. assert (Hqs : 0 <= queue_messages (limits_of limits d) ∧
                            0 <= queue_max_bytes (limits_of limits d)).
    { destruct (Hq (limits_of limits d)) as (? & ? & _); [destruct d; auto|done]. }
    destruct d; apply direction_empty; cbn in *; try done; lia.
  - cbn. change (map_len ∅) with 0. lia.
  - cbn. change (map_len ∅) with 0. change (set_len ∅) with 0. lia.
  - done.
Qed.

Lemma session_ok limits log p :
  limits_ok limits → session_stream → digests_distinct → session limits log p → proxy_ok p.
Proof.
  intros Hl Hst Hcf. induction 1 as [|log p op _ IH Hop]; [by apply proxy_ok_new|].
  eapply transition_ok; [done|exact IH|]. by apply perform_spec.
Qed.

(** The frames a log shows admitted to and released from one direction. *)
Definition admitted_frames (d : AppServerProxyDirection) (log : list (operation * outcome)) :
    list AppServerProxyFrame :=
  omap (λ e, match e.2 with
             | Out_Admitted f =>
               if decide (observed_direction (frame_observation f) = d) then Some f else None
             | _ => None
             end) log.
Definition released_frames (d : AppServerProxyDirection) (log : list (operation * outcome)) :
    list AppServerProxyFrame :=
  omap (λ e, match e with
             | (Op_Release d' _, Out_Released (Some f)) => if decide (d' = d) then Some f else None
             | _ => None
             end) log.

(** An identity the session has seen as a request: still active, or retired. *)
Definition known (p : TransparentAppServerProxy) (d : AppServerProxyDirection)
    (i : AppServerRequestId) : Prop :=
  is_Some (requests p d !! i) ∨ request_id_digest i ∈ request_history p d.

Lemma known_retire_step p d i d' j : known p d' j → known (retire_step d i p) d' j.
Proof.
  unfold known. intros H. destruct (decide (j = i)) as [->|Hne].
  - destruct p, d, d'; cbn in *; try done; right; set_solver.
  - destruct p, d, d'; cbn in *; try done;
      (destruct H; [left; by rewrite lookup_delete_ne by done|right; set_solver]).
Qed.

Lemma known_retires p l p' d i : retires p l p' → known p d i → known p' d i.
Proof. induction 1; [done|]. intros. by apply IHretires, known_retire_step. Qed.

Lemma known_insert p d i st d' j :
  known p d' j → known (requests_mut d (<[i := st]> (requests p d)) p) d' j.
Proof.
  unfold known. rewrite <-!not_eq_None_Some.
  destruct p, d, d'; cbn; try done; (intros [?|?]; [left|by right]); rewrite lookup_insert_None; naive_solver.
Qed.

Lemma known_inserted p d i st : known (requests_mut d (<[i := st]> (requests p d)) p) d i.
Proof. left. destruct p, d; cbn; rewrite lookup_insert_eq; eauto. Qed.

Lemma known_correlated p o p1 d i : correlated p o p1 → known p d i → known p1 d i.
Proof. intros []; auto using known_insert, known_retire_step. Qed.

(** The operations that only touch queues, counters and clock. *)
Lemma known_set_counters p cs d i : known (set_counters cs p) d i ↔ known p d i.
Proof. by destruct p, d. Qed.
Lemma known_set_time p now d i : known (set_observed_time now p) d i ↔ known p d i.
Proof. by destruct p, d. Qed.
Lemma known_queue_mut p d q d' i : known (queue_mut d q p) d' i ↔ known p d' i.
Proof. by destruct p, d, d'. Qed.

Lemma correlated_same p o p1 d :
  correlated p o p1 → queue p1 d = queue p d ∧ proxy_state p1 = proxy_state p.
Proof. intros []; by destruct p, d, (observed_direction o). Qed.

Lemma retires_same p l p1 d : retires p l p1 → queue p1 d = queue p d ∧ proxy_state p1 = proxy_state p.
Proof.
  induction 1 as [|p d' i dl l p' _ _ [-> ->]]; [done|].
  by rewrite retire_step_queue, retire_step_state.
Qed.

(** What the log of one direction says of the session: the admitted frames are
    the released ones followed by those still queued, no request identity was
    admitted twice, and every admitted one is still known. *)
Definition trace_ok (d : AppServerProxyDirection) (log : list (operation * outcome))
    (p : TransparentAppServerProxy) : Prop :=
  NoDup (request_ids (admitted_frames d log)) ∧
  ∃ rest, admitted_frames d log = released_frames d log ++ rest ∧
    (proxy_state p = Open →
       rest = frames (queue p d) ∧ ∀ i, i ∈ request_ids (admitted_frames d log) → known p d i).

Lemma admitted_frames_snoc d log e :
  admitted_frames d (log ++ [e]) = admitted_frames d log ++ admitted_frames d [e].
Proof. apply omap_app. Qed.
Lemma released_frames_snoc d log e :
  released_frames d (log ++ [e]) = released_frames d log ++ released_frames d [e].
Proof. apply omap_app. Qed.

(** A step that neither admits nor releases anything in direction [d]. *)
Lemma trace_ok_silent d log p e p' :
  trace_ok d log p → admitted_frames d [e] = [] → released_frames d [e] = [] →
  (proxy_state p' = Open → proxy_state p = Open ∧ frames (queue p' d) = frames (queue p d) ∧
     ∀ i, known p d i → known p' d i) →
  trace_ok d (log ++ [e]) p'.
Proof.
  unfold trace_ok. rewrite admitted_frames_snoc, released_frames_snoc.
  intros (Hnd & rest & Heq & Hopen) -> -> Hstep. rewrite !app_nil_r. split; [done|].
  exists rest. split; [done|]. intros Ho. destruct (Hstep Ho) as (Ho' & Hf & Hk).
  destruct (Hopen Ho') as [-> Hin]. split; [done|]. auto.
Qed.

Lemma queue_mut_queue d q p d' : queue (queue_mut d q p) d' = if decide (d = d') then q else queue p d'.
Proof. by destruct p, d, d'. Qed.
Lemma set_counters_queue cs p d : queue (set_counters cs p) d = queue p d.
Proof. by destruct p, d. Qed.
Lemma set_time_queue now p d : queue (set_observed_time now p) d = queue p d.
Proof. by destruct p, d. Qed.
Lemma requests_mut_queue d r p d' : queue (requests_mut d r p) d' = queue p d'.
Proof. by destruct p, d, d'. Qed.
Lemma admin_state p now cs d q r :
  proxy_state (set_counters cs p) = proxy_state p ∧
  proxy_state (set_observed_time now p) = proxy_state p ∧
  proxy_state (queue_mut d q p) = proxy_state p ∧
  proxy_state (requests_mut d r p) = proxy_state p.
Proof. by destruct p, d. Qed.

Lemma trace_ok_admitted d log p op f u p1 cs :
  trace_ok d log p → proxy_state p = Open → observed_direction (frame_observation f) = d →
  ensure_capacity (queue p d) (len (frame_json_bytes f)) = Ok u →
  correlated p (frame_observation f) p1 →
  trace_ok d (log ++ [(op, Out_Admitted f)])
    (set_counters cs (queue_mut d (push_after_capacity_check (queue p d) f) p1)).
Proof.
  unfold trace_ok. rewrite admitted_frames_snoc, released_frames_snoc.
  intros (Hnd & rest & Heq & Hopen) Ho Hd Hcap Hcor. destruct (Hopen Ho) as [-> Hin].
  assert (Hadm : admitted_frames d [(op, Out_Admitted f)] = [f]).
  { unfold admitted_frames. cbn. by rewrite decide_True. }
  assert (Hrel : released_frames d [(op, Out_Admitted f)] = []) by (by destruct op).
  rewrite Hadm, Hrel, app_nil_r, request_ids_app, request_ids_singleton.
  assert (Hnew : ∀ i, frame_request_id f = Some i → ¬ known p d i ∧ known p1 d i).
  { intros i Hi. unfold frame_request_id in Hi.
    destruct Hcor as [j Hk Hj Hnone Hfresh| |]; case_match; try naive_solver.
    rewrite Hj in Hi. injection Hi as <-. rewrite Hd in *. split.
    - intros [[? Hs]|?]; [|done]. by rewrite Hnone in Hs.
    - apply known_inserted. }
  split; [|exists (frames (queue p d) ++ [f]); split; [by rewrite Heq, app_assoc|intros _; split]].
  - apply NoDup_app. split_and!; [done| |destruct (frame_request_id f); [apply NoDup_singleton|constructor]].
    intros i Hi Hf. destruct (frame_request_id f) as [j|]; cbn in Hf; [|by apply elem_of_nil in Hf].
    apply list_elem_of_singleton in Hf as ->. by apply (Hnew j eq_refl), Hin.
  - by rewrite set_counters_queue, queue_mut_queue, decide_True by done.
  - intros i Hi. rewrite known_set_counters, known_queue_mut. apply elem_of_app in Hi as [Hi|Hi].
    + eapply known_correlated; eauto.
    + destruct (frame_request_id f) as [j|]; cbn in Hi; [|by apply elem_of_nil in Hi].
      apply list_elem_of_singleton in Hi as ->. by apply Hnew.
Qed.

Lemma trace_ok_released d log p now dl f fs q cs :
  proxy_ok p → trace_ok d log p → frames (queue p d) = f :: fs → pop (queue p d) = (Ok (Some f), q) →
  trace_ok d (log ++ [(Op_Release d now, Out_Released (Some f))])
    (set_observed_time now (set_counters cs (queue_mut d q
      match frame_request_id f with
      | Some i => requests_mut d (<[i := Pending dl]> (requests p d)) p
      | None => p
      end))).
Proof.
  intros Hp (Hnd & rest & Heq & Hopen) Hf Hpop. unfold trace_ok.
  rewrite admitted_frames_snoc, released_frames_snoc.
  destruct (proxy_ok_pop p d f fs q dl Hp Hf Hpop) as [Hq _].
  assert (Ho : proxy_state p = Open).
  { destruct (proxy_state p) eqn:E; [done|]. destruct (proxy_closed_empty _ Hp E d) as [Hn _]. congruence. }
  destruct (Hopen Ho) as [-> Hin].
  assert (Hadm : admitted_frames d [(Op_Release d now, Out_Released (Some f))] = []) by done.
  assert (Hrel : released_frames d [(Op_Release d now, Out_Released (Some f))] = [f]).
  { unfold released_frames. cbn. by rewrite decide_True. }
  rewrite Hadm, Hrel, app_nil_r. split; [done|]. exists fs. split.
  { by rewrite Heq, Hf, <-app_assoc. }
  intros _. split.
  - by rewrite set_time_queue, set_counters_queue, queue_mut_queue, decide_True by done.
  - intros i Hi%Hin. rewrite known_set_time, known_set_counters, known_queue_mut.
    destruct (frame_request_id f); [by apply known_insert|done].
Qed.

Lemma trace_ok_step d log p op out p' :
  proxy_ok p → trace_ok d log p → transition p op out p' → trace_ok d (log ++ [(op, out)]) p'.
Proof.
  intros Hp Ht Htr. destruct Htr as [op e _|op f d' u p1 cs Hop Ho Hd Hm Hcap Hcor _|d' now Hnil
    |d' now dl f fs q cs Hf Hpop _|now expired p1 cs Hret _|].
  - apply (trace_ok_silent _ _ _ _ _ Ht); [done|by destruct op|done].
  - destruct (decide (d' = d)) as [->|Hne]; [by eapply trace_ok_admitted|].
    destruct (correlated_same _ _ _ d Hcor) as [Hq Hs].
    apply (trace_ok_silent _ _ _ _ _ Ht); [|by destruct op|intros _; split_and!; [done| |]].
    + unfold admitted_frames. cbn. by rewrite decide_False by congruence.
    + by rewrite set_counters_queue, queue_mut_queue, decide_False, Hq.
    + intros i Hi. rewrite known_set_counters, known_queue_mut. by eapply known_correlated.
  - apply (trace_ok_silent _ _ _ _ _ Ht); [done|done|].
    rewrite set_time_queue. destruct (admin_state p now (counters p) d (queue p d) ∅) as (_ & -> & _).
    intros Ho. split_and!; [done|done|]. intros i. by rewrite known_set_time.
  - destruct (decide (d' = d)) as [->|Hne]; [by eapply trace_ok_released|].
    apply (trace_ok_silent _ _ _ _ _ Ht); [done| |].
    + unfold released_frames. cbn. by rewrite decide_False.
    + rewrite set_time_queue, set_counters_queue, queue_mut_queue, decide_False by done.
      intros Ho. split_and!.
      * by destruct (frame_request_id f), p, d'.
      * destruct (frame_request_id f); by rewrite ?requests_mut_queue.
      * intros i Hi. rewrite known_set_time, known_set_counters, known_queue_mut.
        destruct (frame_request_id f); [by apply known_insert|done].
  - destruct (retires_same _ _ _ d Hret) as [Hq Hs].
    apply (trace_ok_silent _ _ _ _ _ Ht); [done|done|].
    rewrite set_time_queue, set_counters_queue, Hq. intros Ho. split_and!; [|done|].
    + rewrite <-Hs. by destruct p1.
    + intros i Hi. rewrite known_set_time, known_set_counters. by eapply known_retires.
  - apply (trace_ok_silent _ _ _ _ _ Ht); [done|done|]. by destruct p.
Qed.

Lemma session_trace limits log p d :
  limits_ok limits → session_stream → digests_distinct → session limits log p →
  trace_ok d log p.
Proof.
  intros Hl Hst Hcf H. induction H as [|log p op Hs IH Hop].
  - split; [constructor|]. exists []. split; [done|]. intros _. split; [by destruct d|].
    by intros i ?%elem_of_nil.
  - pose proof (session_ok _ _ _ Hl Hst Hcf Hs) as Hp.
    eapply trace_ok_step; [exact Hp|exact IH|]. by apply perform_spec.
Qed.

Lemma retires_limits p l p' : retires p l p' → proxy_limits p' = proxy_limits p.
Proof. induction 1 as [|p d i dl l p' _ _ ->]; [done|]. by destruct p, d. Qed.

Lemma transition_limits p op out p' : transition p op out p' → proxy_limits p' = proxy_limits p.
Proof.
  intros [ |? ? ? ? ? ? ? ? ? ? ? Hcor _| |? ? ? f| ? ? ? ? Hret _| ]; try done.
  - assert (proxy_limits p1 = proxy_limits p) as <-.
    { destruct Hcor; by destruct p, (observed_direction _). }
    by destruct p1, d.
  - by destruct p.
  - by destruct (frame_request_id f), p, d.
  - rewrite <-(retires_limits _ _ _ Hret). by destruct p1.
Qed.

Lemma session_limits limits log p :
  limits_ok limits → session_stream → digests_distinct → session limits log p →
  proxy_limits p = limits.
Proof.
  intros Hl Hst Hcf. induction 1 as [|log p op Hs IH Hop]; [done|]. rewrite <-IH.
  eapply transition_limits, perform_spec; try done. by eapply session_ok.
Qed.

(** What retiring a list of requests leaves active and in the history. *)
Lemma retires_effect p l p' d i :
  retires p l p' → NoDup l →
  requests p' d !! i = (if decide (mkExpiredRequest d i ∈ l) then None else requests p d !! i) ∧
  (mkExpiredRequest d i ∈ l → request_id_digest i ∈ request_history p' d).
Proof.
  induction 1 as [p|p d' j dl l p' Hj Hret IH]; intros Hnd.
  { rewrite decide_False by apply not_elem_of_nil. split; [done|]. by intros ?%elem_of_nil. }
  apply NoDup_cons in Hnd as [Hnew Hnd]. destruct (IH Hnd) as [Hr Hh]. clear IH. rewrite Hr.
  destruct (decide (mkExpiredRequest d i = mkExpiredRequest d' j)) as [[= -> ->]|Hne].
  - rewrite decide_False by done. rewrite decide_True by set_solver. split.
    + destruct p, d'; cbn; by rewrite lookup_delete_eq.
    + intros _. assert (Hk : known (retire_step d' j p) d' j).
      { right. destruct p, d'; cbn; set_solver. }
      apply (known_retires _ _ _ _ _ Hret) in Hk as [[x Hx]|]; [|done].
      rewrite Hr, decide_False in Hx by done. destruct p, d'; cbn in Hx; by rewrite lookup_delete_eq in Hx.
  - split; [|intros [Heq|Hin]%elem_of_cons; [by destruct Hne|auto]].
    destruct (decide (mkExpiredRequest d i ∈ l)); [by rewrite decide_True by set_solver|].
    rewrite decide_False by set_solver.
    destruct p, d, d'; cbn; try done; rewrite lookup_delete_ne; congruence.
Qed.

(** The counters of a session count its log. *)
Definition accounted (d : AppServerProxyDirection) (log : list (operation * outcome))
    (c : ProxyCounters) : Prop :=
  accepted_messages c d = len (admitted_frames d log) ∧
  accepted_bytes c d = frames_bytes (admitted_frames d log) ∧
  forwarded_messages c d = len (released_frames d log).

Lemma accounted_step d log p op out p' :
  transition p op out p' → accounted d log (counters p) →
  accounted d (log ++ [(op, out)]) (counters p').
Proof.
  unfold accounted. rewrite admitted_frames_snoc, released_frames_snoc, !len_app, frames_bytes_app.
  intros Ht (Hm & Hb & Hf). destruct Ht as [op e _|op f d' u p1 cs Hop Ho Hd Hmsg Hcap Hcor Hcnt|d' now Hnil
    |d' now dl f fs q cs Hfr Hpop Hcnt|now expired p1 cs Hret Hcnt|].
  - replace (released_frames d [(op, Out_Rejected e)]) with (@nil AppServerProxyFrame) by (by destruct op).
    cbn. unfold frames_bytes in *. cbn. rewrite !Z.add_0_r. done.
  - replace (released_frames d [(op, Out_Admitted f)]) with (@nil AppServerProxyFrame) by (by destruct op).
    replace (counters (set_counters cs _)) with cs by (by destruct p1, d').
    destruct (Hcnt d) as (-> & -> & ->). unfold admitted_frames at 2 4. cbn. rewrite Hd.
    destruct (decide (d = d')) as [->|Hne].
    + rewrite decide_True by done. cbn. unfold len in *. cbn. lia.
    + rewrite decide_False by congruence. cbn. unfold len in *. cbn. lia.
  - replace (counters (set_observed_time now p)) with (counters p) by (by destruct p).
    cbn. unfold frames_bytes in *. cbn. rewrite !Z.add_0_r. done.
  - replace (counters _) with cs by (by destruct (frame_request_id f), p, d').
    destruct (Hcnt d) as (-> & -> & ->). unfold released_frames at 2. cbn.
    destruct (decide (d = d')) as [->|Hne].
    + rewrite decide_True by done. unfold frames_bytes in *. cbn. unfold len in *. cbn. lia.
    + rewrite decide_False by congruence. unfold frames_bytes in *. cbn. unfold len in *. cbn. lia.
  - replace (counters _) with cs by (by destruct p1).
    destruct (Hcnt d) as (-> & -> & ->). unfold frames_bytes in *. cbn.
    unfold len in *. cbn. destruct (decide (d = ClientToServer)); lia.
  - replace (counters (close_proxy p).1) with (counters p) by (by destruct p).
    cbn. unfold frames_bytes in *. cbn. rewrite !Z.add_0_r. done.
Qed.

Lemma session_accounted limits log p d :
  limits_ok limits → session_stream → digests_distinct → session limits log p →
  accounted d log (counters p).
Proof.
  intros Hl Hst Hcf. induction 1 as [|log p op Hs IH Hop]; [by destruct d|].
  eapply accounted_step; [|exact IH]. apply perform_spec; try done. by eapply session_ok.
Qed.

(** The run of an expiry whose clock and counter checks pass. *)
Lemma expire_progress p now :
  digests_distinct → proxy_ok p → ensure_monotonic_time p now = Ok tt →
  expired_requests (counters p) + len (due p now) <= u64_max →
  ∃ p1 cs, retires p (due p now) p1 ∧
    expire_requests now p = (Ok (due p now), set_observed_time now (set_counters cs p1)).
Proof.
  intros Hcf Hp Hclock Hcount. pose proof (expire_spec p now Hcf Hp) as H.
  destruct (expire_requests now p) as [[l|e] p'] eqn:E.
  - destruct H as (-> & p1 & cs & Hret & _ & ->). by exists p1, cs.
  - exfalso. unfold expire_requests in E. fold (due p now) in E.
    destruct (retire_expired_spec p (due p now) Hcf Hp (NoDup_due p now)) as (p1 & Hrun & Hret).
    { intros x (dl & Hx & _)%elem_of_due. eauto. }
    assert (Hnone : existsb (λ request, bool_decide
        (request_id_digest (expired_request_id request) ∈
         request_history p (expired_origin request))) (due p now) = false) by (by apply due_not_retired).
    rewrite (mut_bind_step mut_get _ _ p p) in E by done. fold (due p now) in E.
    rewrite Hclock, (mut_bind_step (mut_lift (Ok tt)) _ _ tt p) in E by done.
    unfold add in E. rewrite (proj2 (checked_add_Some _ _ _ _) (conj eq_refl Hcount)) in E.
    rewrite (mut_bind_step (mut_lift (ok_or (Some _) _)) _ _ _ p) in E by done.
    rewrite Hnone, (mut_bind_step (mut_lift (reject false _)) _ _ tt p) in E by done.
    by rewrite (mut_bind_step _ _ _ _ _ Hrun) in E.
Qed.

Lemma close_report p :
  proxy_ok p → limits_ok (proxy_limits p) →
  (close_proxy p).2 = mkCloseReport (len (frames (to_server p)) + len (frames (to_client p)))
             (frames_bytes (frames (to_server p)) + frames_bytes (frames (to_client p)))
             (map_len (client_requests p) + map_len (server_requests p))
             (set_len (client_request_history p) + set_len (server_request_history p)).
Proof.
  intros [Hd Ha Ht _] (Hq & Hact & Hl). unfold proxy_limits_new in Hl. inv_ok.
  assert (Hb : ∀ d, 0 <= queue_messages (limits_of (proxy_limits p) d) <= 4096 ∧
                    0 <= queue_max_bytes (limits_of (proxy_limits p) d) <= 64 * 1024 * 1024).
  { intros d. destruct (Hq (limits_of (proxy_limits p) d)) as (? & ? & Hn); [destruct d; auto|].
    unfold queue_limits_new in Hn. destruct (_ || _ || _ || _) eqn:E; [done|].
    unfold ABSOLUTE_MAX_QUEUE_MESSAGES, ABSOLUTE_MAX_QUEUE_BYTES in E. lia. }
  pose proof (Hb ClientToServer). pose proof (Hb ServerToClient).
  destruct (Hd ClientToServer), (Hd ServerToClient).
  cbn [queue requests request_history] in *.
  unfold ABSOLUTE_MAX_REQUEST_HISTORY, ABSOLUTE_MAX_ACTIVE_REQUESTS in *.
  assert (0 <= map_len (client_requests p) ∧ 0 <= map_len (server_requests p) ∧
          0 <= set_len (client_request_history p) ∧ 0 <= set_len (server_request_history p))
    by (unfold map_len, set_len; lia).
  unfold close_proxy, clear, saturating_add. cbn [snd].
  rewrite !Z.min_r by (unfold usize_max, u64_max; lia).
  by rewrite direction_bytes0, direction_bytes1.
Qed.

End Proxy.

(** ** What a session reads

    A session reads finitely many lines, so it meets finitely many identities:
    those are the only ones the hash has to tell apart. *)

Section Presented.
Context {JsonError : Type}.
Context (json_stream : bytes → json_tree (JsonError := JsonError) * option JsonError)
        (json_custom : JsonError).

(** The identity [i] is on one of the lines [L]. *)
Definition presented (L : list bytes) : Identities := λ i,
  ∃ line limits c, line ∈ L ∧ parse_and_classify json_stream json_custom line limits = Ok c ∧
    classified_request_id c = Some i.

(** No two identities on the lines [L] have colliding digests. *)
Definition no_digest_collision `{HS : Sha256} (L : list bytes) : Prop :=
  ∀ i k, presented L i → presented L k →
    sha256 (request_id_preimage i) = sha256 (request_id_preimage k) →
    request_id_preimage i = request_id_preimage k.

(** The deserializer of a session that reads only the lines [L]. *)
Definition restricted (L : list bytes) : bytes → json_tree (JsonError := JsonError) * option JsonError :=
  λ bs, if bool_decide (bs ∈ L) then json_stream bs else (J_Broken json_custom, None).

Lemma parse_restricted L line limits :
  line ∈ L → parse_and_classify (restricted L) json_custom line limits =
             parse_and_classify json_stream json_custom line limits.
Proof.
  intros Hin. unfold parse_and_classify, parse_bounded_json, restricted.
  by rewrite bool_decide_eq_true_2 by done.
Qed.

Lemma prepare_restricted L p d line :
  line ∈ L → prepare (restricted L) json_custom p d line = prepare json_stream json_custom p d line.
Proof. intros Hin. unfold prepare. by rewrite parse_restricted. Qed.

Lemma parse_not_restricted L line limits c :
  parse_and_classify (restricted L) json_custom line limits = Ok c → line ∈ L.
Proof.
  intros H. destruct (decide (line ∈ L)) as [|Hn]; [done|]. exfalso. unfold parse_and_classify in H. inv_ok.
  match goal with H : parse_bounded_json _ _ _ _ = _ |- _ => apply bounded_json_exact in H as [Hc _] end.
  unfold restricted in Hc. by rewrite bool_decide_eq_false_2 in Hc by done.
Qed.

Lemma restricted_stream L :
  stream_typed json_stream → session_stream (Known := presented L) (restricted L) json_custom.
Proof.
  intros Hst. split.
  - intros bs ms broken k t. unfold restricted. case_bool_decide; [apply Hst|done].
  - intros line limits c i H Hi. pose proof (parse_not_restricted _ _ _ _ H) as Hin.
    rewrite parse_restricted in H by done. by exists line, limits, c.
Qed.

Lemma digests_of_presented `{HS : Sha256} L : no_digest_collision L → digests_distinct (Known := presented L).
Proof. intros H i k [_ Hi] [_ Hk]. by apply H. Qed.

(** What a line carries, whatever the limits it is read with. *)
Definition line_identity (line : bytes) : option AppServerRequestId :=
  match json_image (json_stream line).1 with
  | V_Object o => match classify_object (JsonError := JsonError) o with
                  | Ok c => classified_request_id c
                  | Err _ => None
                  end
  | _ => None
  end.

Lemma presented_line_identity L i : presented L i → i ∈ omap line_identity L.
Proof.
  intros (line & limits & c & Hin & H & Hi). apply list_elem_of_omap. exists line. split; [done|].
  unfold parse_and_classify in H. inv_ok.
  match goal with H : parse_bounded_json _ _ _ _ = _ |- _ => apply parse_bounded_json_image in H as Hv end.
  unfold line_identity. rewrite <-Hv. destruct x2; try discriminate. by rewrite H.
Qed.

(** The lines an operation presents, and those of a session. *)
Definition operation_lines (op : operation) : list bytes :=
  match op with
  | Op_Ingest _ line => [line]
  | Op_Admit c => [candidate_json_bytes c]
  | Op_Release _ _ | Op_Expire _ | Op_Close => []
  end.
Definition session_lines (log : list (operation * outcome (JsonError := JsonError))) : list bytes :=
  concat (map (λ e, operation_lines e.1) log).

Lemma session_lines_snoc log e : session_lines (log ++ [e]) = session_lines log ++ operation_lines e.1.
Proof. unfold session_lines. rewrite map_app, concat_app. cbn. by rewrite app_nil_r. Qed.

Lemma operation_ok_restricted L op :
  operation_lines op ⊆ L → operation_ok json_stream json_custom op → operation_ok (restricted L) json_custom op.
Proof.
  intros HL. destruct op as [| c | | | ]; try done. intros (p & d & line & Hc). exists p, d, line.
  rewrite prepare_restricted; [done|]. apply HL. cbn.
  unfold prepare in Hc. inv_ok. by apply list_elem_of_singleton.
Qed.

Lemma perform_restricted `{HS : Sha256} instant_max L op p :
  operation_lines op ⊆ L → perform (restricted L) json_custom instant_max op p =
                           perform json_stream json_custom instant_max op p.
Proof.
  intros HL. destruct op as [d line| | | |]; try done. cbn [perform].
  unfold ingest, mut_bind, mut_get, mut_lift. rewrite prepare_restricted; [done|]. apply HL. by apply list_elem_of_singleton.
Qed.

(** A session is also one of the deserializer restricted to its lines. *)
Lemma session_restricted `{HS : Sha256} instant_max limits L log p :
  session json_stream json_custom instant_max limits log p → session_lines log ⊆ L →
  session (restricted L) json_custom instant_max limits log p.
Proof.
  induction 1 as [|log p op Hs IH Hop]; intros HL; [constructor|]. rewrite session_lines_snoc in HL.
  assert (Hl : operation_lines op ⊆ L) by set_solver.
  rewrite <-(perform_restricted instant_max L op p Hl). apply session_step; [apply IH; set_solver|].
  by apply operation_ok_restricted.
Qed.
End Presented.

(** ** The guarantees of a session *)

Section Session.
Context {JsonError : Type}.
Context (json_stream : bytes → json_tree (JsonError := JsonError) * option JsonError)
        (json_custom : JsonError).
Context `{HS : Sha256} (instant_max : Z).
Context (limits : AppServerProxyLimits) (Hl : limits_ok (JsonError := JsonError) limits)
        (Hst : stream_typed json_stream).
Abbreviation session := (session json_stream json_custom instant_max limits).
Abbreviation perform := (perform json_stream json_custom instant_max).
Abbreviation no_digest_collision := (no_digest_collision json_stream json_custom).
Abbreviation presented := (presented json_stream json_custom).
Abbreviation restricted := (restricted json_stream json_custom).

(** What the laws need, for a session and lines that include its own. *)
Lemma session_laws L log p :
  session log p → session_lines log ⊆ L → no_digest_collision L →
  Proxy.session (restricted L) json_custom instant_max limits log p ∧
  session_stream (Known := presented L) (restricted L) json_custom ∧
  digests_distinct (Known := presented L) ∧ proxy_ok (Known := presented L) p.
Proof.
  intros Hs HL Hnc. pose proof (session_restricted _ _ _ _ _ _ _ Hs HL) as Hs'.
  pose proof (restricted_stream json_stream json_custom L Hst) as Hst'.
  pose proof (digests_of_presented _ _ _ Hnc) as Hcf.
  split_and!; [done|done|done|]. exact (session_ok _ _ _ _ _ _ Hl Hst' Hcf Hs').
Qed.

(** C10: in every session in which no two different request identities on the
    lines presented to it have the same SHA-256 digest, whatever calls were made
    and whatever they returned, the proxy is consistent: each queue's byte count
    is the sum of its frames' lengths and stays with the message count within its
    limits and peaks; the requests marked queued are exactly those waiting in the
    queue; every active identity was on a line of the session and has no retired
    digest; active and tracked identities stay within the policy; and a closed
    proxy retains nothing. *)
Theorem proxy_session_invariant (log : list (operation * outcome)) (p : TransparentAppServerProxy) :
  session log p → no_digest_collision (session_lines log) →
  proxy_ok (Known := presented (session_lines log)) p.
Proof. intros Hs Hnc. by destruct (session_laws _ log p Hs (reflexivity _) Hnc) as (_ & _ & _ & Hp). Qed.

(** a rejected call, of any kind, leaves the proxy exactly as it was, and
    the internal-inconsistency error is never reported, as long as no two
    different identities presented so far have the same digest. *)
Theorem proxy_rejection_noop (log : list (operation * outcome)) (p : TransparentAppServerProxy)
    (op : operation) (e : AppServerProxyError JsonError) :
  session log p → operation_ok json_stream json_custom op → (perform op p).1 = Out_Rejected e →
  no_digest_collision (session_lines log ++ operation_lines op) →
  e ≠ Proxy_InconsistentCorrelationState ∧ (perform op p).2 = p.
Proof.
  intros Hs Hop He Hnc. set (L := session_lines log ++ operation_lines op) in *.
  destruct (session_laws L log p Hs ltac:(set_solver) Hnc) as (_ & Hst' & Hcf & Hp).
  assert (HL : operation_lines op ⊆ L) by set_solver.
  pose proof (perform_spec (restricted L) json_custom instant_max p op Hst' Hcf Hp
                (operation_ok_restricted _ _ _ _ HL Hop)) as Ht.
  rewrite perform_restricted, He in Ht by done.
  generalize dependent (perform op p).2. intros p' Ht.
  inversion Ht as [? ? Hb| | | | |]; subst. split; [by intros ->|done].
Qed.

(** C11: in every session in which no two different request identities on the
    lines presented to it have the same SHA-256 digest: in each direction the frames admitted are, in order and with their
    exact bytes, the frames released followed by a remainder; while the proxy
    is open the remainder is the queue, so nothing is lost, duplicated,
    reordered or altered. *)
Theorem proxy_forwards_exactly (log : list (operation * outcome)) (p : TransparentAppServerProxy)
    (d : AppServerProxyDirection) :
  session log p → no_digest_collision (session_lines log) →
  ∃ rest, admitted_frames d log = released_frames d log ++ rest ∧
    (proxy_state p = Open → rest = frames (queue p d)).
Proof.
  intros Hs Hnc. destruct (session_laws _ log p Hs (reflexivity _) Hnc) as (Hs' & Hst' & Hcf & _).
  destruct (session_trace _ _ _ _ _ _ d Hl Hst' Hcf Hs') as (_ & rest & Heq & Ho).
  exists rest. split; [done|]. intros H. by apply Ho.
Qed.

(** C12: over a whole session in which no two different request identities on
    the lines presented to it have the same SHA-256 digest, no request identity
    is admitted twice in the same direction, whether the first request is queued,
    forwarded, answered or expired. *)
Theorem proxy_identities_once (log : list (operation * outcome)) (p : TransparentAppServerProxy)
    (d : AppServerProxyDirection) :
  session log p → no_digest_collision (session_lines log) → NoDup (request_ids (admitted_frames d log)).
Proof.
  intros Hs Hnc. destruct (session_laws _ log p Hs (reflexivity _) Hnc) as (Hs' & Hst' & Hcf & _).
  by destruct (session_trace _ _ _ _ _ _ d Hl Hst' Hcf Hs').
Qed.

(** with a clock that has not moved backward and an expiry counter that
    does not overflow, expiry succeeds; it returns, once each, precisely the
    forwarded requests whose deadline is at or before [now], removes exactly
    those from the active requests and retires their digests. *)
Theorem proxy_expire_exact (log : list (operation * outcome)) (p : TransparentAppServerProxy)
    (now : Z) :
  session log p → no_digest_collision (session_lines log) →
  (∀ previous, last_observed_time p = Some previous → previous <= now) →
  expired_requests (counters p) + len (due p now) <= u64_max →
  ∃ expired p', expire_requests (JsonError := JsonError) now p = (Ok expired, p') ∧ NoDup expired ∧
    (∀ e, e ∈ expired ↔
       ∃ dl, requests p (expired_origin e) !! expired_request_id e = Some (Pending dl) ∧ dl <= now) ∧
    ∀ d i, requests p' d !! i =
             (if decide (mkExpiredRequest d i ∈ expired) then None else requests p d !! i) ∧
           (mkExpiredRequest d i ∈ expired → request_id_digest i ∈ request_history p' d).
Proof.
  intros Hs Hnc Hmono Hcount. destruct (session_laws _ log p Hs (reflexivity _) Hnc) as (_ & _ & Hcf & Hp).
  assert (Hclock : ensure_monotonic_time (JsonError := JsonError) p now = Ok tt).
  { unfold ensure_monotonic_time. destruct (last_observed_time p) as [t|]; [|done].
    apply reject_Ok. specialize (Hmono t eq_refl). lia. }
  destruct (expire_progress p now Hcf Hp Hclock Hcount) as (p1 & cs & Hret & Hrun).
  exists (due p now), (set_observed_time now (set_counters cs p1)).
  split; [done|]. split; [apply NoDup_due|]. split; [intros e; apply elem_of_due|].
  intros d i. pose proof (retires_effect _ _ _ d i Hret (NoDup_due p now)) as He.
  by destruct p1, d.
Qed.

(** closing clears every queue, active request and retired digest, reports
    the exact totals abandoned (nothing saturates), refuses every later message,
    and closing again reports nothing and changes nothing. *)
Theorem proxy_close_exact (log : list (operation * outcome)) (p : TransparentAppServerProxy) :
  session log p → no_digest_collision (session_lines log) →
  let '(p', report) := close_proxy p in
  proxy_state p' = Closed ∧
  (∀ d, frames (queue p' d) = [] ∧ requests p' d = ∅ ∧ request_history p' d = ∅) ∧
  report = mkCloseReport (len (frames (to_server p)) + len (frames (to_client p)))
             (frames_bytes (frames (to_server p)) + frames_bytes (frames (to_client p)))
             (map_len (client_requests p) + map_len (server_requests p))
             (set_len (client_request_history p) + set_len (server_request_history p)) ∧
  close_proxy p' = (p', mkCloseReport 0 0 0 0) ∧
  (∀ d line, ingest json_stream json_custom d line p' = (Err Proxy_Closed, p')) ∧
  (∀ c, admit_proxy (JsonError := JsonError) c p' = (Err Proxy_Closed, p')).
Proof.
  intros Hs Hnc. destruct (session_laws _ log p Hs (reflexivity _) Hnc) as (Hs' & Hst' & Hcf & Hp).
  pose proof (session_limits _ _ _ _ _ _ Hl Hst' Hcf Hs') as Hlim.
  pose proof (close_report (JsonError := JsonError) p Hp ltac:(by rewrite Hlim)) as Hr.
  destruct (close_proxy p) as [p' report] eqn:E. cbn in Hr.
  assert (p' = (close_proxy p).1) as -> by (by rewrite E).
  destruct p; cbn in *. split_and!; try done. by intros [].
Qed.

(** the diagnostics of a session are truthful: the accepted and forwarded
    counters are the numbers of frames (and bytes) the session admitted and
    released in each direction, and while the proxy is open every accepted
    message is either forwarded or queued. *)
Theorem proxy_diagnostics_truthful (log : list (operation * outcome)) (p : TransparentAppServerProxy) :
  session log p → no_digest_collision (session_lines log) →
  let g := diagnostics p in
  diagnostics_accepted_client_messages g = len (admitted_frames ClientToServer log) ∧
  diagnostics_accepted_server_messages g = len (admitted_frames ServerToClient log) ∧
  diagnostics_accepted_client_bytes g = frames_bytes (admitted_frames ClientToServer log) ∧
  diagnostics_accepted_server_bytes g = frames_bytes (admitted_frames ServerToClient log) ∧
  diagnostics_forwarded_to_server_messages g = len (released_frames ClientToServer log) ∧
  diagnostics_forwarded_to_client_messages g = len (released_frames ServerToClient log) ∧
  (diagnostics_state g = Open →
     diagnostics_accepted_client_messages g =
       diagnostics_forwarded_to_server_messages g + queued_to_server_messages g ∧
     diagnostics_accepted_server_messages g =
       diagnostics_forwarded_to_client_messages g + queued_to_client_messages g).
Proof.
  intros Hs Hnc g. destruct (session_laws _ log p Hs (reflexivity _) Hnc) as (Hs' & Hst' & Hcf & _).
  destruct (session_accounted _ _ _ _ _ _ ClientToServer Hl Hst' Hcf Hs') as (Hcm & Hcb & Hcf').
  destruct (session_accounted _ _ _ _ _ _ ServerToClient Hl Hst' Hcf Hs') as (Hsm & Hsb & Hsf).
  destruct (session_trace _ _ _ _ _ _ ClientToServer Hl Hst' Hcf Hs') as (_ & rc & Hc & Hco).
  destruct (session_trace _ _ _ _ _ _ ServerToClient Hl Hst' Hcf Hs') as (_ & rs & Hsv & Hso).
  split_and!; try done. intros Ho. subst g. cbn in *.
  rewrite Hcm, Hcf', Hsm, Hsf, Hc, Hsv, !len_app. destruct (Hco Ho) as [-> _], (Hso Ho) as [-> _]. done.
Qed.
End Session.

(** ** A concrete session

    A stand-in deserializer for two lines, a hash of thirty-two bytes, and the
    initial policy: the client sends a request, it is forwarded at time 5 and
    still unanswered when a second request waits. *)

Definition demo_stream (bs : bytes) : json_tree (JsonError := unit) * option unit :=
  if bool_decide (bs = lit "request 7") then
    (J_Object [(lit "method", J_String (lit "ping")); (lit "id", J_Unsigned 7)] None, None)
  else if bool_decide (bs = lit "request 8") then
    (J_Object [(lit "id", J_Unsigned 8); (lit "method", J_String (lit "ping"))] None, None)
  else (J_Broken tt, None).
(** A checksum written as thirty-two bytes. *)
Definition demo_hash : Sha256 := λ bs,
  be_bytes 32 (foldl (λ n b, (n * 257 + byte_val b) mod 2 ^ 64) 0 bs).
Definition demo_instant_max : Z := 2 ^ 63.

Abbreviation demo_perform := (perform (HS := demo_hash) demo_stream tt demo_instant_max).
Abbreviation demo_session := (session (HS := demo_hash) demo_stream tt demo_instant_max).

(** Run a list of calls from a new proxy, keeping the log. *)
Definition demo_run (ops : list operation) :
    list (operation * outcome) * TransparentAppServerProxy :=
  fold_left (λ s op, (s.1 ++ [(op, (demo_perform op s.2).1)], (demo_perform op s.2).2))
    ops ([], proxy_new proxy_limits_initial).

Definition demo_ops : list operation :=
  [Op_Ingest ClientToServer (lit "request 7"); Op_Release ClientToServer 5;
   Op_Ingest ClientToServer (lit "request 8")].

Lemma demo_run_session : demo_session proxy_limits_initial (demo_run demo_ops).1 (demo_run demo_ops).2.
Proof.
  unfold demo_run, demo_ops. cbn [fold_left fst snd].
  repeat (eapply session_step; [|exact I]). apply session_new.
Qed.

Lemma demo_limits_ok : limits_ok (JsonError := unit) proxy_limits_initial.
Proof. split; [by intros q [-> | ->]|done]. Qed.

Lemma demo_stream_typed : stream_typed demo_stream.
Proof.
  intros bs ms broken k t. unfold demo_stream.
  repeat case_bool_decide; cbn; intros [= <- <-] Hin.
  all: repeat (apply elem_of_cons in Hin as [[= -> ->]|Hin]; [unfold u64_max; lia || done|]).
  all: by apply elem_of_nil in Hin.
Qed.

(** Finitely many identities are checked one by one. *)
Definition hashes_apart {HS : Sha256} (preimage : AppServerRequestId → bytes) (ids : list AppServerRequestId) : bool :=
  forallb (λ i, forallb (λ k, bool_decide (preimage i = preimage k) ||
                              negb (bool_decide (sha256 (preimage i) = sha256 (preimage k)))) ids) ids.

Lemma hashes_apart_spec {HS : Sha256} preimage ids i k :
  hashes_apart preimage ids = true → i ∈ ids → k ∈ ids →
  sha256 (preimage i) = sha256 (preimage k) → preimage i = preimage k.
Proof.
  unfold hashes_apart. rewrite forallb_forall. setoid_rewrite forallb_forall.
  setoid_rewrite <-list_elem_of_In. intros H Hi Hk Heq. specialize (H i Hi k Hk).
  rewrite (bool_decide_eq_true_2 _ Heq), orb_false_r in H. by apply bool_decide_eq_true in H.
Qed.

Lemma no_digest_collision_checked {JsonError} {HS : Sha256} json_stream (json_custom : JsonError) L :
  hashes_apart request_id_preimage (omap (line_identity json_stream) L) = true →
  no_digest_collision json_stream json_custom L.
Proof.
  intros H i k Hi%presented_line_identity Hk%presented_line_identity. by apply (hashes_apart_spec _ _ _ _ H).
Qed.

Lemma demo_no_collision : no_digest_collision (HS := demo_hash) demo_stream tt (session_lines (demo_run demo_ops).1).
Proof. apply no_digest_collision_checked. by vm_compute. Qed.

Lemma proxy_session_invariant_witness :
  proxy_ok (HS := demo_hash) (Known := presented demo_stream tt (session_lines (demo_run demo_ops).1))
    (demo_run demo_ops).2.
Proof.
  exact (proxy_session_invariant demo_stream tt demo_instant_max proxy_limits_initial demo_limits_ok
           demo_stream_typed (demo_run demo_ops).1 _ demo_run_session demo_no_collision).
Defined.

Lemma proxy_rejection_noop_witness :
  let again := Op_Ingest ClientToServer (lit "request 7") in
  (demo_perform again (demo_run demo_ops).2).1 =
    Out_Rejected (Proxy_DuplicateRequestId ClientToServer) ∧
  (demo_perform again (demo_run demo_ops).2).2 = (demo_run demo_ops).2.
Proof.
  split; [by vm_compute|].
  eapply (proxy_rejection_noop demo_stream tt demo_instant_max proxy_limits_initial demo_limits_ok
            demo_stream_typed (demo_run demo_ops).1 _
            (Op_Ingest ClientToServer (lit "request 7"))
            (Proxy_DuplicateRequestId ClientToServer) demo_run_session I); [by vm_compute|].
  apply no_digest_collision_checked. by vm_compute.
Defined.

Lemma proxy_forwards_exactly_witness :
  ∃ rest, admitted_frames ClientToServer (demo_run demo_ops).1 =
          released_frames ClientToServer (demo_run demo_ops).1 ++ rest ∧
    (proxy_state (demo_run demo_ops).2 = Open →
     rest = frames (queue (demo_run demo_ops).2 ClientToServer)).
Proof.
  apply (proxy_forwards_exactly demo_stream tt demo_instant_max proxy_limits_initial demo_limits_ok
           demo_stream_typed _ _ ClientToServer demo_run_session demo_no_collision).
Defined.

Lemma proxy_identities_once_witness :
  request_ids (admitted_frames ClientToServer (demo_run demo_ops).1) = [Id_Unsigned 7; Id_Unsigned 8] ∧
  NoDup (request_ids (admitted_frames ClientToServer (demo_run demo_ops).1)).
Proof.
  split; [by vm_compute|].
  apply (proxy_identities_once demo_stream tt demo_instant_max proxy_limits_initial demo_limits_ok
           demo_stream_typed _ _ ClientToServer demo_run_session demo_no_collision).
Defined.

Lemma proxy_expire_exact_witness :
  let now := 5 + 5 * 60 * 1000000000 in
  due (demo_run demo_ops).2 now = [mkExpiredRequest ClientToServer (Id_Unsigned 7)] ∧
  ∃ expired p', expire_requests (HS := demo_hash) (JsonError := unit) now (demo_run demo_ops).2 =
    (Ok expired, p') ∧ NoDup expired.
Proof.
  split; [by vm_compute|].
  destruct (proxy_expire_exact demo_stream tt demo_instant_max proxy_limits_initial demo_limits_ok
              demo_stream_typed _ _ (5 + 5 * 60 * 1000000000) demo_run_session demo_no_collision)
    as (expired & p' & Hrun & Hnd & _).
  - assert (last_observed_time (demo_run demo_ops).2 = Some 5) as -> by (by vm_compute).
    intros t [= <-]. lia.
  - by vm_compute.
  - exists expired, p'. exact (conj Hrun Hnd).
Defined.

Lemma proxy_close_exact_witness :
  let '(p', report) := close_proxy (demo_run demo_ops).2 in
  proxy_state p' = Closed ∧ close_proxy p' = (p', mkCloseReport 0 0 0 0).
Proof.
  pose proof (proxy_close_exact demo_stream tt demo_instant_max proxy_limits_initial demo_limits_ok
                demo_stream_typed _ _ demo_run_session demo_no_collision) as H.
  destruct (close_proxy (demo_run demo_ops).2) as [p' report]. by destruct H as (? & _ & _ & ? & _).
Defined.

Lemma proxy_diagnostics_truthful_witness :
  let g := diagnostics (demo_run demo_ops).2 in
  diagnostics_accepted_client_messages g = 2 ∧ diagnostics_forwarded_to_server_messages g = 1 ∧
  diagnostics_accepted_client_messages g = len (admitted_frames ClientToServer (demo_run demo_ops).1).
Proof.
  split; [by vm_compute|]. split; [by vm_compute|].
  exact (proj1 (proxy_diagnostics_truthful demo_stream tt demo_instant_max proxy_limits_initial demo_limits_ok
           demo_stream_typed _ _ demo_run_session demo_no_collision)).
Defined.
