(* ===== verification/Controls.v ===== *)
(** * Controls: observation and interception of app-server traffic

    Models [crates/weregopher-adapter-openai/src/app_server_controls.rs]: the
    bounded pull journal of redacted events with its request correlations, and
    the block policy evaluated before admission.

    The identity of a journal ([Arc<JournalIdentity>], compared by address) is a
    number given when the journal is created; [sha2] is [Sha256]. *)

From S2P Require Import Prelude Text ProxyMessage Proxy.

Definition ABSOLUTE_MAX_EVENTS : Z := 65536.
Definition ABSOLUTE_MAX_RULES : Z := 256.
Definition ABSOLUTE_MAX_RULE_METHOD_BYTES : Z := 64 * 1024.
Definition MAX_METHOD_BYTES : Z := 1024.
Definition METHOD_FINGERPRINT_DOMAIN : bytes :=
  lit "weregopher.app-server-observed-method.v1" ++ [byte_of 0].
Definition REQUEST_CORRELATION_DOMAIN : bytes :=
  lit "weregopher.app-server-observed-request.v1" ++ [byte_of 0].

Inductive AppServerControlError : Type :=
| Control_InvalidEventLimits
| Control_InvalidMethod
| Control_InvalidRuleId
| Control_InvalidRuleMessageKind
| Control_TooManyRules
| Control_RuleMethodBytesExceeded
| Control_DuplicateRuleId
| Control_DuplicateRuleSelector
| Control_EventSequenceOverflow
| Control_CorrelationSequenceOverflow
| Control_EventEvictionOverflow
| Control_InconsistentCorrelationState
| Control_InconsistentEventState.

#[global] Instance AppServerProxyMessageKind_eq_dec : EqDecision AppServerProxyMessageKind.
Proof. solve_decision. Defined.
#[global] Instance AppServerProxyDirection_countable : Countable AppServerProxyDirection.
Proof.
  refine (inj_countable' (λ d, match d with ClientToServer => true | ServerToClient => false end)
            (λ b, if b then ClientToServer else ServerToClient) _).
  by intros [].
Defined.

(** [AppServerEventLimits]: the number of retained events. *)
Definition event_limits_new (events : Z) : result Z AppServerControlError :=
  do? reject ((events =? 0) || (ABSOLUTE_MAX_EVENTS <? events)) Control_InvalidEventLimits in
  Ok events.
Definition event_limits_initial : Z := 2048.

Definition validate_method (method : str) : result unit AppServerControlError :=
  reject ((len method =? 0) || (MAX_METHOD_BYTES <? len method) || has_control method)
    Control_InvalidMethod.

Record AppServerMethodFingerprint : Type := mkMethodFingerprint {
  fingerprint_digest : bytes;
  fingerprint_byte_length : Z
}.

Definition JournalIdentity : Type := Z.

(** A token; equality compares the journal by address and the sequence. *)
Record AppServerCorrelationToken : Type := mkCorrelationToken {
  token_journal : JournalIdentity;
  token_sequence : Z
}.
#[global] Instance AppServerCorrelationToken_eq_dec : EqDecision AppServerCorrelationToken.
Proof. solve_decision. Defined.
#[global] Instance AppServerCorrelationToken_countable : Countable AppServerCorrelationToken.
Proof.
  refine (inj_countable' (λ t, (token_journal t, token_sequence t))
            (λ x, mkCorrelationToken x.1 x.2) _).
  by intros [].
Defined.

Definition belongs_to_same_journal (self other : AppServerCorrelationToken) : bool :=
  token_journal self =? token_journal other.

(** [Ord]: by the address of the journal, then by sequence. *)
Definition token_le (a b : AppServerCorrelationToken) : bool :=
  (token_journal a <? token_journal b) ||
  ((token_journal a =? token_journal b) && (token_sequence a <=? token_sequence b)).

Inductive AppServerEventStage : Type := Stage_Accepted | Stage_Forwarded | Stage_Blocked.

(** A rule identity is its nonzero number. *)
Definition AppServerInterceptRuleId : Type := Z.
Definition rule_id_new (value : Z) : result AppServerInterceptRuleId AppServerControlError :=
  do? reject (value =? 0) Control_InvalidRuleId in Ok value.

Record AppServerRedactedMessage : Type := mkRedactedMessage {
  redacted_stage : AppServerEventStage;
  redacted_direction : AppServerProxyDirection;
  redacted_kind : AppServerProxyMessageKind;
  redacted_method : option AppServerMethodFingerprint;
  redacted_correlation : option AppServerCorrelationToken;
  redacted_byte_length : Z;
  redacted_block_rule : option AppServerInterceptRuleId
}.

Record AppServerRequestExpiredEvent : Type := mkRequestExpiredEvent {
  expired_event_origin : AppServerProxyDirection;
  expired_event_correlation : AppServerCorrelationToken
}.

Inductive AppServerEventDetail : Type :=
| Detail_Message (message : AppServerRedactedMessage)
| Detail_RequestExpired (event : AppServerRequestExpiredEvent).

Record AppServerSessionEvent : Type := mkSessionEvent {
  event_sequence : Z;
  event_detail : AppServerEventDetail
}.

Record AppServerEventDiagnostics : Type := mkEventDiagnostics {
  queued_events : Z;
  max_events : Z;
  diagnostics_evicted_events : Z;
  diagnostics_active_correlations : Z;
  pending_response_correlations : Z
}.

Record RequestCorrelationKey : Type := mkCorrelationKey {
  key_origin : AppServerProxyDirection;
  key_digest : bytes
}.
#[global] Instance RequestCorrelationKey_eq_dec : EqDecision RequestCorrelationKey.
Proof. solve_decision. Defined.
#[global] Instance RequestCorrelationKey_countable : Countable RequestCorrelationKey.
Proof.
  refine (inj_countable' (λ k, (key_origin k, key_digest k)) (λ x, mkCorrelationKey x.1 x.2) _).
  by intros [].
Defined.

Record AppServerSessionEventJournal : Type := mkJournal {
  event_limit : Z;
  journal_identity : JournalIdentity;
  events : list AppServerSessionEvent;
  evicted_events : Z;
  last_sequence : Z;
  last_correlation : Z;
  active_correlations : gmap RequestCorrelationKey AppServerCorrelationToken;
  pending_responses : gmap RequestCorrelationKey AppServerCorrelationToken
}.

Definition journal_new (limits : Z) (identity : JournalIdentity) : AppServerSessionEventJournal :=
  mkJournal limits identity [] 0 0 0 ∅ ∅.

Abbreviation journal_method := (mut AppServerSessionEventJournal AppServerControlError).

(** The updates of the private fields. *)
Definition set_active (m : gmap RequestCorrelationKey AppServerCorrelationToken) (last : Z)
    (j : AppServerSessionEventJournal) : AppServerSessionEventJournal :=
  mkJournal (event_limit j) (journal_identity j) (events j) (evicted_events j) (last_sequence j) last m
    (pending_responses j).
Definition set_pending (m : gmap RequestCorrelationKey AppServerCorrelationToken)
    (j : AppServerSessionEventJournal) : AppServerSessionEventJournal :=
  mkJournal (event_limit j) (journal_identity j) (events j) (evicted_events j) (last_sequence j)
    (last_correlation j) (active_correlations j) m.
Definition set_events (es : list AppServerSessionEvent) (evicted sequence : Z)
    (j : AppServerSessionEventJournal) : AppServerSessionEventJournal :=
  mkJournal (event_limit j) (journal_identity j) es evicted sequence (last_correlation j)
    (active_correlations j) (pending_responses j).

Definition preflight_event_sequence (j : AppServerSessionEventJournal) :
    result Z AppServerControlError :=
  let? sequence := ok_or (checked_add u64_max (last_sequence j) 1) Control_EventSequenceOverflow in
  do? (if len (events j) =? event_limit j
       then do? ok_or (checked_add u64_max (evicted_events j) 1) Control_EventEvictionOverflow in Ok tt
       else Ok tt) in
  Ok sequence.

Definition push_event (sequence : Z) (detail : AppServerEventDetail) : journal_method unit :=
  let* j := mut_get in
  do* (if len (events j) =? event_limit j
       then
         do* mut_put (set_events (tail (events j)) (evicted_events j) (last_sequence j) j) in
         do* mut_lift (reject (bool_decide (events j = [])) Control_InconsistentEventState) in
         let* evicted := mut_lift (ok_or (checked_add u64_max (evicted_events j) 1)
                                     Control_EventEvictionOverflow) in
         mut_put (set_events (tail (events j)) evicted (last_sequence j) j)
       else mut_ret tt) in
  let* j := mut_get in
  mut_put (set_events (events j ++ [mkSessionEvent sequence detail]) (evicted_events j) sequence j).

Definition push_message (sequence : Z) (stage : AppServerEventStage) (o : AppServerMessageObservation)
    (method : option AppServerMethodFingerprint) (correlation : option AppServerCorrelationToken)
    (block_rule : option AppServerInterceptRuleId) : journal_method unit :=
  push_event sequence
    (Detail_Message (mkRedactedMessage stage (observed_direction o) (observed_kind o) method correlation
                       (byte_length o) block_rule)).

Definition direction_code (d : AppServerProxyDirection) : Z :=
  match d with ClientToServer => 0 | ServerToClient => 1 end.

Definition message_kind_code (kind : AppServerProxyMessageKind) : Z :=
  match kind with Request => 0 | Notification => 1 | SuccessResponse => 2 | ErrorResponse => 3 end.

Section Journal.
Context `{HS : Sha256}.

Definition for_method (method : str) : result AppServerMethodFingerprint AppServerControlError :=
  do? validate_method method in
  Ok (mkMethodFingerprint (sha256 (METHOD_FINGERPRINT_DOMAIN ++ method)) (len method)).

(** [map] then [transpose]. *)
Definition fingerprint_observed_method (o : AppServerMessageObservation) :
    result (option AppServerMethodFingerprint) AppServerControlError :=
  match observed_method o with
  | Some method => let? fingerprint := for_method method in Ok (Some fingerprint)
  | None => Ok None
  end.

(** The bytes hashed by [request_key_from_parts]. *)
Definition request_key_preimage (origin : AppServerProxyDirection) (request_id : AppServerRequestId) :
    bytes :=
  REQUEST_CORRELATION_DOMAIN ++ [byte_of (direction_code origin)] ++
  match request_id with
  | Id_Unsigned value => [byte_of 0] ++ be_bytes 8 value
  | Id_Signed value => [byte_of 1] ++ be_bytes 8 value
  | Id_Text value => [byte_of 2] ++ be_bytes 8 (len value) ++ value
  end.
Definition request_key_from_parts (origin : AppServerProxyDirection) (request_id : AppServerRequestId) :
    RequestCorrelationKey :=
  mkCorrelationKey origin (sha256 (request_key_preimage origin request_id)).

Definition request_key (o : AppServerMessageObservation) : option RequestCorrelationKey :=
  request_id ← observed_request_id o;
  match observed_kind o with
  | Request => Some (request_key_from_parts (observed_direction o) request_id)
  | SuccessResponse | ErrorResponse =>
    Some (request_key_from_parts (opposite (observed_direction o)) request_id)
  | Notification => None
  end.

Definition record_accepted (o : AppServerMessageObservation) : journal_method unit :=
  let* method := mut_lift (fingerprint_observed_method o) in
  let* j := mut_get in
  let* sequence := mut_lift (preflight_event_sequence j) in
  match observed_kind o with
  | Request =>
    let* key := mut_lift (ok_or (request_key o) Control_InconsistentCorrelationState) in
    do* mut_lift (reject (bool_decide (is_Some (active_correlations j !! key)) ||
                          bool_decide (is_Some (pending_responses j !! key)))
                    Control_InconsistentCorrelationState) in
    let* next := mut_lift (ok_or (checked_add u64_max (last_correlation j) 1)
                             Control_CorrelationSequenceOverflow) in
    let token := mkCorrelationToken (journal_identity j) next in
    do* mut_put (set_active (<[key := token]> (active_correlations j)) next j) in
    push_message sequence Stage_Accepted o method (Some token) None
  | SuccessResponse | ErrorResponse =>
    match request_key o with
    | None => push_message sequence Stage_Accepted o method None None
    | Some key =>
      match active_correlations j !! key with
      | None => push_message sequence Stage_Accepted o method None None
      | Some token =>
        do* mut_put (set_active (delete key (active_correlations j)) (last_correlation j) j) in
        let* j := mut_get in
        do* mut_put (set_pending (<[key := token]> (pending_responses j)) j) in
        do* mut_lift (reject (bool_decide (is_Some (pending_responses j !! key)))
                        Control_InconsistentCorrelationState) in
        push_message sequence Stage_Accepted o method (Some token) None
      end
    end
  | Notification => push_message sequence Stage_Accepted o method None None
  end.

Definition record_forwarded (o : AppServerMessageObservation) : journal_method unit :=
  let* method := mut_lift (fingerprint_observed_method o) in
  let* j := mut_get in
  let* sequence := mut_lift (preflight_event_sequence j) in
  let* correlation := match observed_kind o with
    | Request =>
      let* key := mut_lift (ok_or (request_key o) Control_InconsistentCorrelationState) in
      let* token := mut_lift (ok_or (active_correlations j !! key)
                                Control_InconsistentCorrelationState) in
      mut_ret (Some token)
    | SuccessResponse | ErrorResponse =>
      match request_key o with
      | None => mut_ret None
      | Some key =>
        do* mut_put (set_pending (delete key (pending_responses j)) j) in
        mut_ret (pending_responses j !! key)
      end
    | Notification => mut_ret None
    end in
  push_message sequence Stage_Forwarded o method correlation None.

Definition record_blocked (o : AppServerMessageObservation) (rule : AppServerInterceptRuleId) :
    journal_method unit :=
  let* method := mut_lift (fingerprint_observed_method o) in
  let* j := mut_get in
  let* sequence := mut_lift (preflight_event_sequence j) in
  push_message sequence Stage_Blocked o method None (Some rule).

Definition record_expired (expired : AppServerExpiredRequest) : journal_method unit :=
  let* j := mut_get in
  let* sequence := mut_lift (preflight_event_sequence j) in
  let key := request_key_from_parts (expired_origin expired) (expired_request_id expired) in
  let* correlation := mut_lift (ok_or (active_correlations j !! key)
                                  Control_InconsistentCorrelationState) in
  do* mut_put (set_active (delete key (active_correlations j)) (last_correlation j) j) in
  push_event sequence (Detail_RequestExpired (mkRequestExpiredEvent (expired_origin expired) correlation)).
End Journal.

Definition next_event (j : AppServerSessionEventJournal) :
    option AppServerSessionEvent * AppServerSessionEventJournal :=
  (head (events j), set_events (tail (events j)) (evicted_events j) (last_sequence j) j).

Definition clear_correlations (j : AppServerSessionEventJournal) : AppServerSessionEventJournal :=
  set_pending ∅ (set_active ∅ (last_correlation j) j).

Definition event_diagnostics (j : AppServerSessionEventJournal) : AppServerEventDiagnostics :=
  mkEventDiagnostics (len (events j)) (event_limit j) (evicted_events j)
    (Z.of_nat (size (active_correlations j))) (Z.of_nat (size (pending_responses j))).

(** ** Interception *)

Record AppServerBlockRule : Type := mkBlockRule {
  block_id : AppServerInterceptRuleId;
  block_direction : AppServerProxyDirection;
  block_kind : AppServerProxyMessageKind;
  block_method : str
}.

Definition block_rule_new (id : AppServerInterceptRuleId) (direction : AppServerProxyDirection)
    (kind : AppServerProxyMessageKind) (method : str) : result AppServerBlockRule AppServerControlError :=
  do? reject (match kind with Request | Notification => false | _ => true end)
    Control_InvalidRuleMessageKind in
  do? validate_method method in
  Ok (mkBlockRule id direction kind method).

Inductive AppServerInterceptionDecision : Type :=
| Decision_Forward
| Decision_Block (rule : AppServerInterceptRuleId).

Record AppServerInterceptionPolicy : Type := mkInterceptionPolicy {
  policy_rules : list AppServerBlockRule;
  policy_method_bytes : Z
}.

Definition rule_selector (rule : AppServerBlockRule) : AppServerProxyDirection * Z * str :=
  (block_direction rule, message_kind_code (block_kind rule), block_method rule).

(** The loop of [AppServerInterceptionPolicy::new]. *)
Fixpoint check_rules (rules : list AppServerBlockRule) (ids : gset Z)
    (selectors : gset (AppServerProxyDirection * Z * str)) (method_bytes : Z) :
    result Z AppServerControlError :=
  match rules with
  | [] => Ok method_bytes
  | rule :: rules =>
    do? reject (bool_decide (block_id rule ∈ ids)) Control_DuplicateRuleId in
    let? method_bytes := ok_or (checked_add usize_max method_bytes (len (block_method rule)))
      Control_RuleMethodBytesExceeded in
    do? reject (ABSOLUTE_MAX_RULE_METHOD_BYTES <? method_bytes) Control_RuleMethodBytesExceeded in
    do? reject (bool_decide (rule_selector rule ∈ selectors)) Control_DuplicateRuleSelector in
    check_rules rules ({[block_id rule]} ∪ ids) ({[rule_selector rule]} ∪ selectors) method_bytes
  end.

Definition policy_new (rules : list AppServerBlockRule) :
    result AppServerInterceptionPolicy AppServerControlError :=
  do? reject (ABSOLUTE_MAX_RULES <? len rules) Control_TooManyRules in
  let? method_bytes := check_rules rules ∅ ∅ 0 in
  Ok (mkInterceptionPolicy rules method_bytes).

Definition policy_empty : AppServerInterceptionPolicy := mkInterceptionPolicy [] 0.

Definition evaluate (self : AppServerInterceptionPolicy) (o : AppServerMessageObservation) :
    AppServerInterceptionDecision :=
  match observed_method o with
  | None => Decision_Forward
  | Some method =>
    match list_find (λ rule, block_direction rule = observed_direction o ∧
                             block_kind rule = observed_kind o ∧ block_method rule = method)
            (policy_rules self) with
    | Some (_, rule) => Decision_Block (block_id rule)
    | None => Decision_Forward
    end
  end.
