(* ===== verification/ControlsLaws.v ===== *)
(** * ControlsLaws: the observer follows the proxy

    The journal as an exactly accounted bounded queue, the journal beside the
    sessions of [Proxy.v], and the exact meaning of a block policy. *)

From S2P Require Import Prelude Text ProxyMessage Proxy Controls.

(** ** The event queue *)

(** The retained events are the most recent ones, numbered without gaps. *)
Record journal_ok (j : AppServerSessionEventJournal) : Prop := {
  journal_limit : 0 < event_limit j;
  journal_bounded : len (events j) <= event_limit j;
  journal_evicted : 0 <= evicted_events j ∧ evicted_events j + len (events j) <= last_sequence j;
  journal_correlations : 0 <= last_correlation j <= last_sequence j;
  journal_numbered : ∀ i e, events j !! i = Some e →
    event_sequence e = last_sequence j - len (events j) + 1 + Z.of_nat i
}.

Lemma journal_ok_new limits identity : 0 < limits → journal_ok (journal_new limits identity).
Proof. intros H. split; cbn; [done|unfold len; cbn; lia|unfold len; cbn; lia|lia|by intros [] e]. Qed.

(** What a push does: at capacity the oldest event makes room. *)
Definition pushed (detail : AppServerEventDetail) (j : AppServerSessionEventJournal) :
    AppServerSessionEventJournal :=
  let full := len (events j) =? event_limit j in
  set_events ((if full then tail (events j) else events j) ++ [mkSessionEvent (last_sequence j + 1) detail])
    (evicted_events j + if full then 1 else 0) (last_sequence j + 1) j.

Lemma preflight_run j :
  journal_ok j → last_sequence j < u64_max → preflight_event_sequence j = Ok (last_sequence j + 1).
Proof.
  intros [] Hlt. unfold preflight_event_sequence. pose proof (len_nonneg (events j)).
  rewrite (proj2 (checked_add_Some u64_max (last_sequence j) 1 _)) by (split; [reflexivity|lia]). cbn [ok_or result_bind].
  destruct (len (events j) =? event_limit j); [|done].
  rewrite (proj2 (checked_add_Some u64_max (evicted_events j) 1 _)) by (split; [reflexivity|lia]). done.
Qed.

Lemma push_event_run j detail :
  journal_ok j → last_sequence j < u64_max →
  push_event (last_sequence j + 1) detail j = (Ok tt, pushed detail j).
Proof.
  intros [] Hlt. unfold push_event, pushed, mut_bind, mut_get, mut_put, mut_lift, mut_ret.
  destruct (Z.eqb_spec (len (events j)) (event_limit j)) as [Hfull|Hroom].
  - rewrite bool_decide_eq_false_2 by (intros Hnil; rewrite Hnil in Hfull; change (len []) with 0 in Hfull; lia).
    cbn [reject]. pose proof (len_nonneg (events j)).
    rewrite (proj2 (checked_add_Some u64_max (evicted_events j) 1 _)) by (split; [reflexivity|lia]). done.
  - by rewrite Z.add_0_r.
Qed.

Lemma len_tail {A} (l : list A) : l ≠ [] → len (tail l) = len l - 1.
Proof. destruct l; [done|]. rewrite len_cons. cbn. lia. Qed.

Lemma pushed_ok detail j : journal_ok j → journal_ok (pushed detail j).
Proof.
  intros [H1 H2 H3 H4 H5]. unfold pushed. cbv zeta.
  set (kept := if len (events j) =? event_limit j then tail (events j) else events j).
  assert (Hk : len kept = len (events j) - (if len (events j) =? event_limit j then 1 else 0)).
  { unfold kept. destruct (Z.eqb_spec (len (events j)) (event_limit j)) as [Hf|]; [|lia]. apply len_tail.
    intros Hn. rewrite Hn in Hf. change (len []) with 0 in Hf. lia. }
  assert (Hle : len kept + 1 <= event_limit j).
  { rewrite Hk. destruct (Z.eqb_spec (len (events j)) (event_limit j)); lia. }
  split; cbn [set_events event_limit events evicted_events last_sequence last_correlation];
    rewrite ?len_app, ?Hk; change (len [mkSessionEvent (last_sequence j + 1) detail]) with 1; try lia.
  - destruct (len (events j) =? event_limit j); lia.
  - intros i e [Hi|[Hge Hi]]%lookup_app_Some.
    + destruct (Z.eqb_spec (len (events j)) (event_limit j)); unfold kept in Hi.
      * rewrite lookup_tail in Hi. apply H5 in Hi. lia.
      * apply H5 in Hi. lia.
    + apply list_lookup_singleton_Some in Hi as [Hi <-]. cbn. unfold len in *. lia.
Qed.

Lemma next_event_ok j : journal_ok j → journal_ok (next_event j).2.
Proof.
  intros [H1 H2 H3 H4 H5]. unfold next_event. destruct (events j) as [|e es] eqn:He.
  { split; cbn [snd set_events event_limit events evicted_events last_sequence last_correlation tail]; rewrite ?He; try done; lia. }
  rewrite len_cons in *. split; cbn [snd set_events event_limit events evicted_events last_sequence last_correlation tail]; try lia.
  intros i e' Hi. specialize (H5 (S i) e' Hi). rewrite H5. lia.
Qed.

Lemma journal_ok_correlations j m last n :
  journal_ok j → 0 <= last <= last_sequence j → journal_ok (set_pending n (set_active m last j)).
Proof. by intros [] ?; split. Qed.
Lemma journal_ok_active j m last : journal_ok j → 0 <= last <= last_sequence j → journal_ok (set_active m last j).
Proof. by intros [] ?; split. Qed.
Lemma journal_ok_pending j n : journal_ok j → journal_ok (set_pending n j).
Proof. by intros []; split. Qed.

(** Journals with the same queue; correlations may differ. *)
Definition same_queue (j j' : AppServerSessionEventJournal) : Prop :=
  event_limit j' = event_limit j ∧ events j' = events j ∧ evicted_events j' = evicted_events j ∧
  last_sequence j' = last_sequence j.

#[local] Instance same_queue_trans : Transitive same_queue.
Proof. intros j1 j2 j3 (H1 & H2 & H3 & H4) (H5 & H6 & H7 & H8). split_and!; congruence. Qed.

(** What the events handed out so far and those retained account for. *)
Record accounted_for (pulled : list AppServerSessionEvent) (j : AppServerSessionEventJournal) : Prop := {
  accounted_total : last_sequence j = len pulled + evicted_events j + len (events j);
  accounted_order : StronglySorted (λ a b, event_sequence a < event_sequence b) (pulled ++ events j);
  accounted_seen : Forall (λ e, event_sequence e <= last_sequence j) (pulled ++ events j)
}.

Lemma accounted_same pulled j j' : same_queue j j' → accounted_for pulled j → accounted_for pulled j'.
Proof. intros (_ & H1 & H2 & H3) []. split; by rewrite ?H1, ?H2, ?H3. Qed.

Lemma accounted_pushed pulled detail j : journal_ok j → accounted_for pulled j → accounted_for pulled (pushed detail j).
Proof.
  intros Hok [Ht Ho Hs]. unfold pushed. cbv zeta.
  set (kept := if len (events j) =? event_limit j then tail (events j) else events j).
  assert (Hk : len kept = len (events j) - (if len (events j) =? event_limit j then 1 else 0) ∧
    ∃ dropped, events j = dropped ++ kept).
  { unfold kept. destruct (Z.eqb_spec (len (events j)) (event_limit j)) as [Hf|]; [|split; [lia|by exists []]].
    assert (Hne : events j ≠ []) by (intros Hn; pose proof (journal_limit _ Hok); rewrite Hn in Hf; change (len []) with 0 in Hf; lia).
    split; [by apply len_tail|]. destruct (events j) as [|e es]; [done|]. by exists [e]. }
  destruct Hk as [Hk [dropped Hdrop]].
  assert (Hsub : ∀ P : list AppServerSessionEvent → Prop, P (pulled ++ events j) → P (pulled ++ dropped ++ kept))
    by (intros P; by rewrite Hdrop).
  apply Hsub in Ho, Hs. rewrite Forall_app, Forall_app in Hs. destruct Hs as (Hs1 & Hs2 & Hs3).
  apply StronglySorted_app in Ho as (Ho1 & Ho2 & Ho3). apply StronglySorted_app in Ho3 as (_ & _ & Ho3).
  split; cbn [set_events last_sequence events evicted_events].
  - rewrite len_app, Hk. change (len [mkSessionEvent (last_sequence j + 1) detail]) with 1.
    destruct (len (events j) =? event_limit j); lia.
  - rewrite app_assoc. apply StronglySorted_app. split_and!; [| |by apply SSorted_cons; [apply SSorted_nil|]].
    + intros a b Ha Hb%list_elem_of_singleton. subst b. cbn.
      assert (Hall : Forall (λ e, event_sequence e <= last_sequence j) (pulled ++ kept)) by (by apply Forall_app).
      rewrite Forall_forall in Hall. specialize (Hall a Ha). lia.
    + apply StronglySorted_app. split_and!; [|done|done]. intros a b Ha Hb. apply Ho1; [done|]. apply elem_of_app. by right.
  - rewrite !Forall_app. split_and!; [eapply Forall_impl; [exact Hs1|cbn; lia]|eapply Forall_impl; [exact Hs3|cbn; lia]|].
    apply Forall_singleton. cbn. lia.
Qed.

Lemma accounted_next pulled j :
  accounted_for pulled j → accounted_for (pulled ++ option_list (next_event j).1) (next_event j).2.
Proof.
  intros [Ht Ho Hs]. unfold next_event. destruct (events j) as [|e es] eqn:He; cbn [fst snd head tail option_list].
  { rewrite app_nil_r. split; cbn; rewrite ?He in *; done. }
  split; cbn [set_events last_sequence events evicted_events]; rewrite <-?app_assoc; [|done|done].
  rewrite len_cons in Ht. rewrite len_app. change (len (option_list (Some e))) with 1. lia.
Qed.

(** ** Beside a proxy session *)

Section Observer.
Context `{HS : Sha256}.
Abbreviation key := request_key_from_parts.

Context `{Known : Identities}.

(** The hash does not confuse the session's identities in one direction. *)
Definition keys_distinct : Prop :=
  ∀ d i k, session_id i → session_id k →
    sha256 (request_key_preimage d i) = sha256 (request_key_preimage d k) →
    request_key_preimage d i = request_key_preimage d k.

Lemma request_key_preimage_inj d i k :
  id_wf i → id_wf k → request_key_preimage d i = request_key_preimage d k → i = k.
Proof.
  unfold request_key_preimage. intros Hi Hk H%app_inv_head%app_inv_head.
  destruct i as [n|n|s], k as [m|m|t]; apply app_inj_1 in H as [Htag H]; try reflexivity;
    try (vm_compute in Htag; discriminate Htag).
  - apply be_bytes_mod in H. simpl in Hi, Hk. unfold u64_max in *.
    change (256 ^ Z.of_nat 8) with 18446744073709551616 in H. rewrite !Z.mod_small in H by lia. by subst.
  - apply be_bytes_mod in H. simpl in Hi, Hk.
    change (256 ^ Z.of_nat 8) with 18446744073709551616 in H. change (2 ^ 63) with 9223372036854775808 in *.
    rewrite <-(Z.mod_add n 1), <-(Z.mod_add m 1), !Z.mod_small in H by lia. f_equal. lia.
  - apply app_inj_1 in H as [_ ->]; [done|]. by rewrite !be_bytes_length.
Qed.

Lemma key_inj d i d' k :
  keys_distinct → session_id i → session_id k → key d i = key d' k → d = d' ∧ i = k.
Proof.
  intros Hcf Hi Hk [= -> H]. split; [done|]. eapply request_key_preimage_inj; [apply Hi|apply Hk|by apply Hcf].
Qed.

(** The journal knows the active requests of the proxy, and the responses it
    still waits to see forwarded answer retired requests. *)
Record follows (p : TransparentAppServerProxy) (j : AppServerSessionEventJournal) : Prop := {
  follows_ok : journal_ok j;
  follows_active : ∀ k t, active_correlations j !! k = Some t →
    ∃ d i, session_id i ∧ k = key d i ∧ is_Some (requests p d !! i);
  follows_requests : ∀ d i, is_Some (requests p d !! i) → is_Some (active_correlations j !! key d i);
  follows_pending : ∀ k t, pending_responses j !! k = Some t →
    ∃ d i, session_id i ∧ k = key d i ∧ request_id_digest i ∈ request_history p d
}.

(** Two proxies with the same active and retired requests. *)
Definition same_requests (p p' : TransparentAppServerProxy) : Prop :=
  ∀ d, dom (requests p' d) = dom (requests p d) ∧ request_history p' d = request_history p d.

Lemma same_requests_is_Some p p' d i : same_requests p p' → is_Some (requests p' d !! i) ↔ is_Some (requests p d !! i).
Proof. intros H. rewrite <-!elem_of_dom. by rewrite (proj1 (H d)). Qed.

Lemma follows_same p p' j : same_requests p p' → follows p j → follows p' j.
Proof.
  intros Hs [H1 H2 H3 H4]. split; [done| | |].
  - intros k t (d & i & Hi & -> & Hr)%H2. exists d, i. split_and!; [done|done|by apply (same_requests_is_Some p p' d i Hs)].
  - intros d i Hr. apply H3. by rewrite (same_requests_is_Some p p' d i Hs) in Hr.
  - intros k t (d & i & Hi & -> & Hr)%H4. exists d, i. split_and!; [done|done|by rewrite (proj2 (Hs d))].
Qed.

Lemma follows_pushed p j detail : follows p j → follows p (pushed detail j).
Proof. intros [H1 H2 H3 H4]. split; [by apply pushed_ok|done..]. Qed.

Lemma fingerprint_run o bs : message_ok o bs → ∃ m, fingerprint_observed_method o = Ok m.
Proof.
  intros (_ & _ & _ & Hm). unfold fingerprint_observed_method, for_method, validate_method.
  destruct (observed_method o) as [m|]; [|eauto]. destruct (Hm m eq_refl) as (H1 & H2 & H3).
  rewrite H3, (proj2 (Z.ltb_ge MAX_METHOD_BYTES _)) by exact H2.
  rewrite (proj2 (Z.eqb_neq (len m) 0)) by (by rewrite len_zero). cbn. eauto.
Qed.

(** A recorded call: it succeeds, advances the sequence by one, and the journal
    follows the proxy. *)
Definition recorded (p : TransparentAppServerProxy) (j : AppServerSessionEventJournal)
    (r : result unit AppServerControlError * AppServerSessionEventJournal) : Prop :=
  r.1 = Ok tt ∧ follows p r.2 ∧ ∃ detail, same_queue (pushed detail j) r.2.

Lemma recorded_push p j j1 detail :
  follows p j1 → same_queue j j1 → last_sequence j < u64_max →
  recorded p j (push_event (last_sequence j + 1) detail j1).
Proof.
  intros Hf (H1 & H2 & H3 & H4) Hlt. rewrite <-H4, push_event_run by (apply Hf || lia).
  split_and!; [done|by apply follows_pushed|]. exists detail. unfold pushed. cbv zeta.
  split_and!; cbn [set_events event_limit events evicted_events last_sequence]; by rewrite ?H1, ?H2, ?H3, ?H4.
Qed.

Lemma follows_forward_response p j k : follows p j → follows p (set_pending (delete k (pending_responses j)) j).
Proof.
  intros [H1 H2 H3 H4]. split; [by apply journal_ok_pending|done|done|].
  intros k' t Hk. cbn in Hk. apply lookup_delete_Some in Hk as [_ Hk]. eauto.
Qed.

Lemma record_forwarded_run p j o bs :
  follows p j → last_sequence j < u64_max → message_ok o bs →
  (∀ i, observed_kind o = Request → observed_request_id o = Some i →
     is_Some (requests p (observed_direction o) !! i)) →
  recorded p j (record_forwarded o j).
Proof.
  intros Hf Hlt Hm Hreq. destruct (fingerprint_run o bs Hm) as [m Em]. destruct Hm as (_ & Hid & _ & _).
  unfold record_forwarded, push_message, mut_bind, mut_lift, mut_get. rewrite Em, preflight_run by (apply Hf || done).
  unfold request_key. destruct (observed_kind o) eqn:Ek.
  { destruct (Hid eq_refl) as [i Ei]. rewrite Ei. cbn [mbind option_bind ok_or].
    destruct (follows_requests _ _ Hf _ _ (Hreq i eq_refl Ei)) as [t Et]. rewrite Et. cbn [ok_or mut_ret].
    by apply recorded_push. }
  { by apply recorded_push. }
  all: destruct (observed_request_id o) as [i|]; cbn [mbind option_bind mut_ret mut_put]; [|by apply recorded_push];
    apply recorded_push; [by apply follows_forward_response|done|done].
Qed.

Lemma record_blocked_run p j o bs rule :
  follows p j → last_sequence j < u64_max → message_ok o bs → recorded p j (record_blocked o rule j).
Proof.
  intros Hf Hlt Hm. destruct (fingerprint_run o bs Hm) as [m Em].
  unfold record_blocked, push_message, mut_bind, mut_lift, mut_get. rewrite Em, preflight_run by (apply Hf || done).
  by apply recorded_push.
Qed.

(** A retired request leaves the active correlations. *)
Lemma retire_step_requests d i p d' k :
  is_Some (requests (retire_step d i p) d' !! k) ↔ is_Some (requests p d' !! k) ∧ ¬ (d' = d ∧ k = i).
Proof.
  assert (H : requests (retire_step d i p) d' = if decide (d' = d) then delete i (requests p d) else requests p d')
    by (by destruct p, d, d'). rewrite H. destruct (decide (d' = d)) as [->|]; [|naive_solver].
  rewrite lookup_delete_is_Some. naive_solver.
Qed.
Lemma retire_step_history d i p d' :
  request_history (retire_step d i p) d' =
  if decide (d' = d) then {[request_id_digest i]} ∪ request_history p d else request_history p d'.
Proof. by destruct p, d, d'. Qed.

Lemma follows_retire p j d i n :
  keys_distinct → (∀ d i, is_Some (requests p d !! i) → session_id i) → follows p j → session_id i →
  (∀ k t, n !! k = Some t → pending_responses j !! k = Some t ∨ k = key d i) →
  follows (retire_step d i p) (set_pending n (set_active (delete (key d i) (active_correlations j)) (last_correlation j) j)).
Proof.
  intros Hcf Hwf [H1 H2 H3 H4] Hi Hn. split.
  - apply journal_ok_correlations; [done|apply H1].
  - intros k t Hk. cbn in Hk. apply lookup_delete_Some in Hk as [Hne Hk].
    destruct (H2 k t Hk) as (d' & i' & Hi' & -> & Hr). exists d', i'. split_and!; [done|done|].
    apply retire_step_requests. split; [done|]. intros [-> ->]. done.
  - intros d' i' [Hr Hne]%retire_step_requests. cbn. destruct (H3 d' i' Hr) as [t Ht]. exists t.
    rewrite lookup_delete_ne; [done|]. intros Hk. apply Hne.
    apply key_inj in Hk as [-> ->]; [done|done|done|by eapply Hwf].
  - intros k t Hk. cbn in Hk. destruct (Hn k t Hk) as [Hp| ->].
    + destruct (H4 k t Hp) as (d' & i' & Hi' & -> & Hr). exists d', i'. split_and!; [done|done|].
      rewrite retire_step_history. destruct (decide (d' = d)) as [->|]; set_solver.
    + exists d, i. split_and!; [done|done|]. rewrite retire_step_history, decide_True by done. set_solver.
Qed.

(** Pushing an event does not look at the correlations. *)
Lemma recorded_push_active p j m l detail :
  journal_ok j → last_sequence j < u64_max → 
  follows p (set_active m l (pushed detail j)) →
  recorded p j (push_event (last_sequence j + 1) detail (set_active m l j)).
Proof.
  intros Hok Hlt Hf.
  assert (Hrun : push_event (last_sequence j + 1) detail (set_active m l j) = (Ok tt, set_active m l (pushed detail j))).
  { pose proof (push_event_run (set_active m (last_correlation j) j) detail
      ltac:(apply journal_ok_active; [done|apply Hok]) Hlt) as Hr.
    unfold push_event, pushed, mut_bind, mut_get, mut_put, mut_lift, mut_ret in *.
    cbn [set_active set_events events event_limit evicted_events last_sequence last_correlation
      active_correlations pending_responses journal_identity] in *.
    destruct (len (events j) =? event_limit j); [|by rewrite Z.add_0_r].
    destruct (reject _ _); [|done]. destruct (ok_or _ _); [|done]. by injection Hr as ->. }
  rewrite Hrun. split_and!; [done|done|]. by exists detail.
Qed.

Lemma follows_request p j d i t :
  keys_distinct → (∀ d i, is_Some (requests p d !! i) → session_id i) → follows p j → session_id i → 
  last_correlation j < last_sequence j →
  follows (requests_mut d (<[i := Queued]> (requests p d)) p)
    (set_active (<[key d i := t]> (active_correlations j)) (last_correlation j + 1) j).
Proof.
  intros Hcf Hwf [H1 H2 H3 H4] Hi Hlt.
  assert (Hreq : ∀ d' i', is_Some (requests (requests_mut d (<[i := Queued]> (requests p d)) p) d' !! i') ↔
    (d' = d ∧ i' = i) ∨ is_Some (requests p d' !! i')).
  { intros d' i'. assert (H : requests (requests_mut d (<[i := Queued]> (requests p d)) p) d' =
      if decide (d' = d) then <[i := Queued]> (requests p d) else requests p d') by (by destruct p, d, d').
    rewrite H. destruct (decide (d' = d)) as [->|]; [|naive_solver].
    rewrite lookup_insert_is_Some. destruct (decide (i = i')); naive_solver. }
  split.
  - apply journal_ok_active; [done|]. pose proof (journal_correlations _ H1). lia.
  - intros k t' Hk. cbn in Hk. apply lookup_insert_Some in Hk as [[<- _]|[_ Hk]].
    + exists d, i. split_and!; [done|done|]. apply Hreq. by left.
    + destruct (H2 _ _ Hk) as (d' & i' & Hi' & -> & Hr). exists d', i'. split_and!; [done|done|]. apply Hreq. by right.
  - intros d' i' [[-> ->]|Hr]%Hreq; cbn; [rewrite lookup_insert_eq; eauto|].
    rewrite lookup_insert_is_Some'. right. by apply H3.
  - intros k t' Hk. destruct (H4 _ _ Hk) as (d' & i' & Hi' & -> & Hr). exists d', i'.
    split_and!; [done|done|]. by destruct p, d, d'.
Qed.

Lemma record_accepted_run p j o bs p1 :
  digests_distinct → keys_distinct → proxy_ok p → follows p j → last_sequence j < u64_max → message_ok o bs →
  correlated p o p1 → recorded p1 j (record_accepted o j).
Proof.
  intros Hcf Hkf Hp Hf Hlt Hm Hcor. destruct (fingerprint_run o bs Hm) as [m Em].
  assert (Hwf : ∀ d i, is_Some (requests p d !! i) → session_id i).
  { intros d i Hi. apply (direction_ids _ _ _ _ _ (proxy_directions _ Hp d) i Hi). }
  pose proof (follows_ok _ _ Hf) as Hok. pose proof (journal_correlations _ Hok) as Hlc.
  unfold record_accepted, push_message, mut_bind, mut_lift, mut_get. rewrite Em, preflight_run by (apply Hf || done).
  unfold request_key. destruct Hcor as [i Hk Ei Hnew Hfresh _ _|i dl Hk Ei Hpend|Hk Hnone].
  - rewrite Hk, Ei. cbn [mbind option_bind ok_or]. pose proof (proj1 (proj2 (proj2 Hm)) i Ei) as Hi.
    rewrite (bool_decide_eq_false_2 (is_Some (active_correlations j !! _))).
    2: { intros [t Ht]. apply (follows_active _ _ Hf) in Ht as (d' & i' & Hi' & Heq & Hr).
         apply key_inj in Heq as [<- <-]; [|done..]. rewrite Hnew in Hr. by destruct Hr. }
    rewrite (bool_decide_eq_false_2 (is_Some (pending_responses j !! _))).
    2: { intros [t Ht]. apply (follows_pending _ _ Hf) in Ht as (d' & i' & Hi' & Heq & Hr).
         apply key_inj in Heq as [<- <-]; done. }
    cbn [orb reject]. rewrite (proj2 (checked_add_Some u64_max (last_correlation j) 1 _)) by (split; [reflexivity|lia]).
    cbn [ok_or mut_put]. apply recorded_push_active; [done|done|].
    apply (follows_request p (pushed _ j) _ i); [done|done|by apply follows_pushed|done|]. cbn. lia.
  - rewrite Ei. cbn [mbind option_bind]. pose proof (proj1 (proj2 (proj2 Hm)) i Ei) as Hi.
    destruct (follows_requests _ _ Hf _ _ ltac:(by eexists)) as [t Ht].
    assert (Hnp : ¬ is_Some (pending_responses j !! key (opposite (observed_direction o)) i)).
    { intros [t' Ht']. apply (follows_pending _ _ Hf) in Ht' as (d' & i' & Hi' & Heq & Hr).
      apply key_inj in Heq as [<- <-]; [|done..].
      by apply (direction_ids _ _ _ _ _ (proxy_directions _ Hp _) i ltac:(by eexists)). }
    destruct Hk as [Hk|Hk]; rewrite Hk, Ht; cbn [mut_put]; rewrite bool_decide_eq_false_2 by exact Hnp;
      cbn [reject]; (apply recorded_push; [|done|done]); apply follows_retire; try done;
      intros k t' [[<- _]|[_ ?]]%lookup_insert_Some; auto.
  - destruct (observed_kind o) eqn:Ek; [done|by apply recorded_push|..].
    all: destruct (observed_request_id o) as [i|] eqn:Ei; cbn [mbind option_bind]; [|by apply recorded_push].
    all: destruct (active_correlations j !! _) as [t|] eqn:Et; [|by apply recorded_push].
    all: apply (follows_active _ _ Hf) in Et as (d' & i' & Hi' & Heq & Hr);
      apply key_inj in Heq as [<- <-]; [|done|by apply (proj1 (proj2 (proj2 Hm)))|done];
      rewrite (Hnone i ltac:(done) eq_refl) in Hr; by destruct Hr.
Qed.

Lemma record_expired_run p j d i dl :
  keys_distinct → proxy_ok p → follows p j → last_sequence j < u64_max →
  requests p d !! i = Some (Pending dl) →
  recorded (retire_step d i p) j (record_expired (mkExpiredRequest d i) j).
Proof.
  intros Hkf Hp Hf Hlt Hi. assert (Hwf : ∀ d i, is_Some (requests p d !! i) → session_id i).
  { intros d' i' Hi'. apply (direction_ids _ _ _ _ _ (proxy_directions _ Hp d') i' Hi'). }
  unfold record_expired, mut_bind, mut_lift, mut_get. rewrite preflight_run by (apply Hf || done).
  cbn [expired_origin expired_request_id].
  destruct (follows_requests _ _ Hf d i ltac:(by eexists)) as [t Ht]. rewrite Ht. cbn [ok_or mut_put].
  apply recorded_push; [|done|done].
  apply (follows_retire p j d i (pending_responses j)); [done|done|done|by eapply Hwf; eexists|auto].
Qed.

(** The loop over the expired requests of one poll. *)
Fixpoint record_all_expired (expired : list AppServerExpiredRequest) : journal_method unit :=
  match expired with
  | [] => mut_ret tt
  | request :: expired => do* record_expired request in record_all_expired expired
  end.

(** Recording any number of events one after the other. *)
Inductive records (j : AppServerSessionEventJournal) : Z → AppServerSessionEventJournal → Prop :=
| records_none j' : same_queue j j' → records j 0 j'
| records_one n j1 detail j' : records j n j1 → journal_ok j1 → same_queue (pushed detail j1) j' → records j (n + 1) j'.

Lemma records_last j n j' : records j n j' → last_sequence j' = last_sequence j + n.
Proof.
  induction 1 as [j' H|n j1 detail j' _ IH _ H]; destruct H as (_ & _ & _ & ->); [lia|].
  unfold pushed. cbn [set_events last_sequence]. lia.
Qed.

Lemma records_accounted pulled j n j' : records j n j' → accounted_for pulled j → accounted_for pulled j'.
Proof.
  induction 1 as [j' H|n j1 detail j' _ IH Hok H]; intros Ha; eapply accounted_same; [done|done|done|].
  apply accounted_pushed; auto.
Qed.

Lemma records_app j n j1 m j' : records j n j1 → records j1 m j' → records j (n + m) j'.
Proof.
  intros H. induction 1 as [j' Hs|m j2 detail j' _ IH Hok Hs].
  - rewrite Z.add_0_r. inversion H as [j0 H0|n' j0 detail j0' H0 Hok0 Hs0]; subst.
    + apply records_none. by etransitivity.
    + eapply records_one; [done|done|]. by etransitivity.
  - rewrite Z.add_assoc. by eapply records_one.
Qed.

Lemma recorded_records p j r : journal_ok j → recorded p j r → r.1 = Ok tt ∧ follows p r.2 ∧ records j 1 r.2.
Proof.
  intros Hok (H1 & H2 & detail & H3). split_and!; [done|done|].
  apply (records_one j 0 j detail); [by apply records_none|done|done].
Qed.

Lemma record_all_expired_run p l p1 :
  digests_distinct → keys_distinct → retires p l p1 → ∀ j,
  proxy_ok p → follows p j → last_sequence j + len l <= u64_max →
  (record_all_expired l j).1 = Ok tt ∧ follows p1 (record_all_expired l j).2 ∧
  records j (len l) (record_all_expired l j).2.
Proof.
  intros Hcf Hkf. induction 1 as [p|p d i dl l p1 Hi _ IH]; intros j Hp Hf Hle.
  { split_and!; [done|done|]. by apply records_none. }
  rewrite len_cons in *. pose proof (len_nonneg l). cbn [record_all_expired]. unfold mut_bind.
  destruct (recorded_records _ _ _ (follows_ok _ _ Hf) (record_expired_run p j d i dl Hkf Hp Hf ltac:(lia) Hi)) as (H1 & H2 & H3).
  destruct (record_expired _ j) as [r j1]. cbn [fst snd] in *. subst r. pose proof (records_last _ _ _ H3).
  destruct (IH j1) as (H4 & H5 & H6); [by eapply proxy_ok_retire|done|lia|]. split_and!; [done|done|].
  by eapply records_app.
Qed.

Section Session.
Context {JsonError : Type}.
Context (json_stream : bytes → json_tree (JsonError := JsonError) * option JsonError)
        (json_custom : JsonError) (instant_max : Z).
Abbreviation perform := (perform json_stream json_custom instant_max).
Abbreviation outcome := (outcome (JsonError := JsonError)).

(** What the owner of the session records for the outcome of a call. *)
Definition observe (out : outcome) : journal_method unit :=
  match out with
  | Out_Rejected _ | Out_Released None => mut_ret tt
  | Out_Admitted frame => record_accepted (frame_observation frame)
  | Out_Released (Some frame) => record_forwarded (frame_observation frame)
  | Out_Expired expired => record_all_expired expired
  | Out_Closed _ => λ j, (Ok tt, clear_correlations j)
  end.
Definition events_of (out : outcome) : Z :=
  match out with
  | Out_Rejected _ | Out_Released None | Out_Closed _ => 0
  | Out_Admitted _ | Out_Released (Some _) => 1
  | Out_Expired expired => len expired
  end.

Lemma same_requests_admin p q d cs now :
  same_requests p (set_counters cs (queue_mut d q p)) ∧ same_requests p (set_observed_time now p) ∧
  same_requests p (set_observed_time now (set_counters cs p)).
Proof. split_and!; intros d'; by destruct p, d, d'. Qed.

Lemma same_requests_update p d i st st' q cs now :
  requests p d !! i = Some st →
  same_requests p (set_observed_time now (set_counters cs (queue_mut d q
    (requests_mut d (<[i := st']> (requests p d)) p)))).
Proof.
  intros Hi d'. assert (Hd : dom (<[i := st']> (requests p d)) = dom (requests p d)).
  { rewrite dom_insert_L. apply elem_of_dom_2 in Hi. set_solver. }
  by destruct p, d, d'; cbn in *.
Qed.

Lemma observe_run p op j :
  session_stream json_stream json_custom → digests_distinct → keys_distinct → proxy_ok p →
  operation_ok json_stream json_custom op → follows p j →
  last_sequence j + events_of (perform op p).1 <= u64_max →
  (observe (perform op p).1 j).1 = Ok tt ∧ follows (perform op p).2 (observe (perform op p).1 j).2 ∧
  records j (events_of (perform op p).1) (observe (perform op p).1 j).2.
Proof.
  intros Hst Hcf Hkf Hp Hop Hf. pose proof (perform_spec json_stream json_custom instant_max p op Hst Hcf Hp Hop) as Ht.
  destruct (perform op p) as [out p']. cbn [fst snd] in *.
  destruct Ht as [op' e _|op' f d u p1 cs _ _ Hd Hm _ Hcor _|d now Hnil|d now dl f fs q cs Hfr Hpop _|now l p1 cs Hret _|];
    cbn [observe events_of]; intros Hle.
  - split_and!; [done|done|by apply records_none].
  - destruct (recorded_records _ _ _ (follows_ok _ _ Hf) (record_accepted_run p j _ _ p1 Hcf Hkf Hp Hf ltac:(lia) Hm Hcor))
      as (H1 & H2 & H3). split_and!; [done| |done].
    eapply follows_same; [|exact H2]. apply (same_requests_admin p1 _ d cs 0).
  - split_and!; [done| |by apply records_none]. eapply follows_same; [|exact Hf]. apply (same_requests_admin p (to_server p) d (counters p) now).
  - pose proof (proxy_directions _ Hp d) as Hdir. pose proof (direction_frames _ _ _ _ _ Hdir) as Hfs. rewrite Hfr in Hfs.
    apply Forall_cons in Hfs as [[Hfd Hm] _].
    assert (Hq : ∀ i, frame_request_id f = Some i → requests p d !! i = Some Queued).
    { intros i Hi. apply (direction_queued _ _ _ _ _ Hdir). rewrite Hfr, request_ids_cons, Hi. cbn. left. }
    assert (Hactive : ∀ i, observed_kind (frame_observation f) = Request → observed_request_id (frame_observation f) = Some i →
      is_Some (requests p (observed_direction (frame_observation f)) !! i)).
    { intros i Hk Hi. rewrite Hfd. exists Queued. apply Hq. unfold frame_request_id. by rewrite Hk. }
    destruct (recorded_records _ _ _ (follows_ok _ _ Hf) (record_forwarded_run p j _ _ Hf ltac:(lia) Hm Hactive)) as (H1 & H2 & H3).
    split_and!; [done| |done]. eapply follows_same; [|exact H2].
    destruct (frame_request_id f) as [i|]; [by eapply same_requests_update, Hq|].
    intros d'. by destruct p, d, d'.
  - destruct (record_all_expired_run p l p1 Hcf Hkf Hret j Hp Hf Hle) as (H1 & H2 & H3). split_and!; [done| |done].
    eapply follows_same; [|exact H2]. apply (same_requests_admin p1 (to_server p1) ClientToServer cs now).
  - split_and!; [done| |by apply records_none]. split.
    + apply journal_ok_correlations; [apply Hf|apply (journal_correlations _ (follows_ok _ _ Hf))].
    + intros k t Hk. cbn in Hk. by rewrite lookup_empty in Hk.
    + intros d i [st Hr]. by destruct p, d; cbn in Hr; rewrite lookup_empty in Hr.
    + intros k t Hk. cbn in Hk. by rewrite lookup_empty in Hk.
Qed.

(** Sessions with an observer: every outcome is recorded, prepared candidates may
    be recorded as blocked instead of admitted, and the owner pulls events when it
    likes.  [lines] are the lines presented, [pulled] the events handed out. *)
Inductive observed (limits : AppServerProxyLimits) (event_limit : Z) (identity : JournalIdentity) :
    list bytes → TransparentAppServerProxy → AppServerSessionEventJournal → list AppServerSessionEvent → Prop :=
| observed_new : observed limits event_limit identity [] (proxy_new limits) (journal_new event_limit identity) []
| observed_call lines p j pulled op :
    observed limits event_limit identity lines p j pulled → operation_ok json_stream json_custom op →
    last_sequence j + events_of (perform op p).1 <= u64_max →
    observed limits event_limit identity (lines ++ operation_lines op)
      (perform op p).2 (observe (perform op p).1 j).2 pulled
| observed_blocked lines p j pulled d line c rule :
    observed limits event_limit identity lines p j pulled → prepare json_stream json_custom p d line = Ok c →
    last_sequence j < u64_max →
    observed limits event_limit identity (lines ++ [line]) p (record_blocked (candidate_observation c) rule j).2 pulled
| observed_pull lines p j pulled :
    observed limits event_limit identity lines p j pulled →
    observed limits event_limit identity lines p (next_event j).2 (pulled ++ option_list (next_event j).1).

Lemma observed_invariant limits events_max identity lines p j pulled :
  limits_ok (JsonError := JsonError) limits → session_stream json_stream json_custom → digests_distinct → keys_distinct →
  0 < events_max → observed limits events_max identity lines p j pulled →
  proxy_ok p ∧ follows p j ∧ accounted_for pulled j.
Proof.
  intros Hl Hst Hcf Hkf Hpos.
  induction 1 as [|lines p j pulled op _ (Hp & Hf & Ha) Hop Hle|lines p j pulled d line c rule _ (Hp & Hf & Ha) Hc Hlt
    |lines p j pulled _ (Hp & Hf & Ha)].
  - split_and!; [by eapply proxy_ok_new| |].
    + split; [by apply journal_ok_new|..].
      * intros k t Hk. cbn in Hk. by rewrite lookup_empty in Hk.
      * intros d i [st Hr]. by destruct d; cbn in Hr; rewrite lookup_empty in Hr.
      * intros k t Hk. cbn in Hk. by rewrite lookup_empty in Hk.
    + split; [done|apply SSorted_nil|constructor].
  - destruct (observe_run p op j Hst Hcf Hkf Hp Hop Hf Hle) as (_ & H2 & H3).
    split_and!; [|done|by eapply records_accounted].
    eapply transition_ok; [done|exact Hp|by apply perform_spec].
  - destruct (prepare_Ok _ _ _ _ _ _ Hst Hc) as (_ & _ & Hm).
    destruct (recorded_records _ _ _ (follows_ok _ _ Hf) (record_blocked_run p j _ _ rule Hf Hlt Hm)) as (_ & H2 & H3).
    split_and!; [done|done|by eapply records_accounted].
  - split_and!; [done| |by apply accounted_next]. destruct Hf as [H1 H2 H3 H4]. split; [by apply next_event_ok|done..].
Qed.

End Session.
End Observer.

(** ** The guarantees of the observer *)

Section Watching.
Context {JsonError : Type}.
Context (json_stream : bytes → json_tree (JsonError := JsonError) * option JsonError)
        (json_custom : JsonError).
Context `{HS : Sha256} (instant_max : Z).
Context (limits : AppServerProxyLimits) (Hl : limits_ok (JsonError := JsonError) limits)
        (Hst : stream_typed json_stream).
Abbreviation perform := (perform json_stream json_custom instant_max).
Abbreviation observed := (observed json_stream json_custom instant_max limits).
Abbreviation presented := (presented json_stream json_custom).
Abbreviation restricted := (restricted json_stream json_custom).

(** No two identities on the lines [L] have colliding correlation keys. *)
Definition no_key_collision (L : list bytes) : Prop :=
  ∀ d i k, presented L i → presented L k →
    sha256 (request_key_preimage d i) = sha256 (request_key_preimage d k) →
    request_key_preimage d i = request_key_preimage d k.

(** The hash tells apart the identities on the lines [L]. *)
Definition no_collision (L : list bytes) : Prop :=
  no_digest_collision json_stream json_custom L ∧ no_key_collision L.

Lemma keys_of_presented L : no_key_collision L → keys_distinct (Known := presented L).
Proof. intros H d i k [_ Hi] [_ Hk]. by apply H. Qed.

Lemma presented_incl L L' i : L ⊆ L' → presented L i → presented L' i.
Proof. intros HL (line & lim & c & Hin & H). exists line, lim, c. split; [by apply HL|done]. Qed.

Lemma no_collision_incl L L' : L ⊆ L' → no_collision L' → no_collision L.
Proof.
  intros HL [Hd Hk]. split.
  - intros i k Hi Hj. apply Hd; by eapply presented_incl.
  - intros d i k Hi Hj. apply Hk; by eapply presented_incl.
Qed.

Lemma observed_restricted L events_max identity lines p j pulled :
  observed events_max identity lines p j pulled → lines ⊆ L →
  ControlsLaws.observed (restricted L) json_custom instant_max limits events_max identity lines p j pulled.
Proof.
  induction 1 as [|lines p j pulled op _ IH Hop Hle|lines p j pulled d line c rule _ IH Hc Hlt|lines p j pulled _ IH];
    intros HL; [constructor|..].
  - assert (Ho : operation_lines op ⊆ L) by set_solver.
    rewrite <-(perform_restricted json_stream json_custom instant_max L op p Ho) in Hle |- *.
    apply observed_call; [apply IH; set_solver|by apply operation_ok_restricted|done].
  - apply (observed_blocked _ _ _ _ _ _ _ _ _ _ d); [apply IH; set_solver| |done].
    by rewrite prepare_restricted by set_solver.
  - by apply observed_pull, IH.
Qed.

(** What the laws need, for lines that include those of the session. *)
Lemma observed_laws L events_max identity lines p j pulled :
  0 < events_max → observed events_max identity lines p j pulled → lines ⊆ L → no_collision L →
  session_stream (Known := presented L) (restricted L) json_custom ∧
  digests_distinct (Known := presented L) ∧ keys_distinct (Known := presented L) ∧
  proxy_ok (Known := presented L) p ∧ follows (Known := presented L) p j ∧ accounted_for pulled j.
Proof.
  intros Hpos Ho HL [Hd%digests_of_presented Hk%keys_of_presented].
  pose proof (restricted_stream json_stream json_custom L Hst) as Hst'.
  split_and!; [done|done|done|..];
    by destruct (observed_invariant _ _ _ _ _ _ _ _ _ _ Hl Hst' Hd Hk Hpos (observed_restricted L _ _ _ _ _ _ Ho HL)) as (? & ? & ?).
Qed.

(** C13: the observer never contradicts the proxy.  In a session where every
    outcome was recorded, and where no two different request identities on the
    lines presented so far, those of the next call included, have the same
    SHA-256 digest or the same correlation key, the record of that call, whatever
    it is, succeeds as long as the event counter has room: no lifecycle
    inconsistency is ever reported.  The journal's active correlations are at
    every moment exactly the keys of the active requests of the proxy, and an
    identity that was presented is correlated exactly when its request is active. *)
Theorem observer_never_inconsistent events_max identity lines p j pulled op :
  0 < events_max → observed events_max identity lines p j pulled →
  operation_ok json_stream json_custom op → last_sequence j + events_of (perform op p).1 <= u64_max →
  no_collision (lines ++ operation_lines op) →
  (observe (perform op p).1 j).1 = Ok tt ∧
  (∀ k, is_Some (active_correlations j !! k) ↔
     ∃ d i, k = request_key_from_parts d i ∧ is_Some (requests p d !! i)) ∧
  ∀ d i, presented lines i →
    is_Some (requests p d !! i) ↔ is_Some (active_correlations j !! request_key_from_parts d i).
Proof.
  intros Hpos Ho Hop Hle Hnc. set (L := lines ++ operation_lines op) in *.
  destruct (observed_laws L _ _ _ _ _ _ Hpos Ho ltac:(set_solver) Hnc) as (Hst' & Hcf & Hkf & Hp & Hf & _).
  assert (HL : operation_lines op ⊆ L) by set_solver. split_and!.
  - rewrite <-(perform_restricted json_stream json_custom instant_max L op p HL) in Hle |- *.
    by apply (observe_run (restricted L) json_custom instant_max p op j Hst' Hcf Hkf Hp
                (operation_ok_restricted _ _ _ _ HL Hop) Hf).
  - intros k. split; [|intros (d & i & -> & Hr); by apply Hf].
    intros [t (d & i & _ & -> & Hr)%(follows_active _ _ Hf)]. by exists d, i.
  - intros d i Hi. split; [apply Hf|]. intros [t (d' & i' & Hi' & Heq & Hr)%(follows_active _ _ Hf)].
    apply (key_inj (Known := presented L)) in Heq as [-> ->]; [done|done| |done]. destruct Hi as (line & lim & c & Hin & Hpar & Hid). split.
    + by apply (classified_id _ _ _ _ _ Hst Hpar).
    + exists line, lim, c. split; [set_solver|done].
Qed.

(** the journal accounts for every event.  Whatever was recorded and pulled,
    at most the configured number of events is retained, each recorded event was
    handed out, evicted or is retained, and what is handed out and retained is in
    strictly increasing order of its sequence numbers, the retained ones being
    the latest without a gap. *)
Theorem journal_accounts_for_events events_max identity lines p j pulled :
  0 < events_max → observed events_max identity lines p j pulled → no_collision lines →
  len (events j) <= event_limit j ∧ last_sequence j = len pulled + evicted_events j + len (events j) ∧
  StronglySorted (λ a b, event_sequence a < event_sequence b) (pulled ++ events j) ∧
  ∀ i e, events j !! i = Some e → event_sequence e = last_sequence j - len (events j) + 1 + Z.of_nat i.
Proof.
  intros Hpos Ho Hnc.
  destruct (observed_laws lines _ _ _ _ _ _ Hpos Ho ltac:(done) Hnc) as (_ & _ & _ & _ & Hf & Ha).
  split_and!; [apply (follows_ok _ _ Hf)|apply Ha|apply Ha|apply (follows_ok _ _ Hf)].
Qed.
End Watching.

(** ** Interception *)

Definition rule_matches (rule : AppServerBlockRule) (o : AppServerMessageObservation) : Prop :=
  block_direction rule = observed_direction o ∧ block_kind rule = observed_kind o ∧
  observed_method o = Some (block_method rule).

Lemma check_rules_Ok rules ids selectors n m :
  check_rules rules ids selectors n = Ok m →
  NoDup (map block_id rules) ∧ NoDup (map rule_selector rules) ∧
  Forall (λ r, (block_id r ∉ ids) ∧ (rule_selector r ∉ selectors)) rules.
Proof.
  revert ids selectors n. induction rules as [|r rules IH]; intros ids selectors n H; cbn [check_rules map] in *.
  { split_and!; constructor. }
  apply result_bind_Ok in H as (_ & H1%reject_Ok%bool_decide_eq_false & H).
  apply result_bind_Ok in H as (n' & _ & H). apply result_bind_Ok in H as (_ & _ & H).
  apply result_bind_Ok in H as (_ & H2%reject_Ok%bool_decide_eq_false & H).
  apply IH in H as (H3 & H4 & H5).
  assert (Hf : ∀ r', r' ∈ rules → block_id r' ≠ block_id r ∧ rule_selector r' ≠ rule_selector r).
  { intros r' Hr'. rewrite Forall_forall in H5. destruct (H5 r' Hr') as [Ha Hb].
    apply not_elem_of_union in Ha as [Ha%not_elem_of_singleton _], Hb as [Hb%not_elem_of_singleton _]. done. }
  split_and!.
  - constructor; [|done]. intros Hin. apply list_elem_of_In, in_map_iff in Hin as (r' & Heq & Hr'%list_elem_of_In).
    by apply Hf in Hr' as [? _].
  - constructor; [|done]. intros Hin. apply list_elem_of_In, in_map_iff in Hin as (r' & Heq & Hr'%list_elem_of_In).
    by apply Hf in Hr' as [_ ?].
  - constructor; [done|]. eapply Forall_impl; [exact H5|]. cbn. intros r' [Ha Hb].
    apply not_elem_of_union in Ha as [_ Ha], Hb as [_ Hb]. done.
Qed.

Lemma map_lookup_Some {A B} (f : A → B) (l : list A) i x : l !! i = Some x → map f l !! i = Some (f x).
Proof. intros H. rewrite list_lookup_fmap, H. reflexivity. Qed.

Lemma rule_matches_selector r r' o : rule_matches r o → rule_matches r' o → rule_selector r = rule_selector r'.
Proof.
  intros (H1 & H2 & H3) (H4 & H5 & H6). unfold rule_selector. rewrite H1, H2, H4, H5.
  rewrite H3 in H6. injection H6 as ->. reflexivity.
Qed.

Lemma rule_matches_unique rules r r' o :
  NoDup (map rule_selector rules) → r ∈ rules → r' ∈ rules → rule_matches r o → rule_matches r' o → r = r'.
Proof.
  intros Hsel Hr Hr' Hm Hm'. apply list_elem_of_lookup in Hr as [a Ha], Hr' as [b Hb].
  assert (Hab : a = b).
  { eapply NoDup_lookup; [exact Hsel|exact (map_lookup_Some _ _ _ _ Ha)|].
    rewrite (rule_matches_selector r r' o Hm Hm'). exact (map_lookup_Some _ _ _ _ Hb). }
  subst b. rewrite Ha in Hb. by injection Hb.
Qed.

(** a policy only ever reduces authority, and exactly as declared.  A
    message is blocked under a rule exactly when that rule of the policy has its
    direction, kind and method; at most one rule does; everything else is
    forwarded. *)
Theorem evaluate_exact rules policy o :
  policy_new rules = Ok policy →
  (∀ id, evaluate policy o = Decision_Block id ↔ ∃ rule, rule ∈ rules ∧ rule_matches rule o ∧ block_id rule = id) ∧
  (evaluate policy o = Decision_Forward ↔ ∀ rule, rule ∈ rules → ¬ rule_matches rule o).
Proof.
  unfold policy_new. intros H. apply result_bind_Ok in H as (_ & _ & H). apply result_bind_Ok in H as (n & Hc & [= <-]).
  apply check_rules_Ok in Hc as (_ & Hsel & _). unfold evaluate. cbn [policy_rules].
  destruct (observed_method o) as [m|] eqn:Em.
  2: { assert (Hno : ∀ r, ¬ rule_matches r o) by (intros r (_ & _ & Hm); by rewrite Em in Hm).
       split; [|by split; [intros _ r _; apply Hno|]]. intros id. split; [done|].
       intros (r & _ & Hm & _). by apply Hno in Hm. }
  destruct (list_find _ rules) as [[i r]|] eqn:Ef.
  - apply list_find_Some in Ef as (Hi & (H1 & H2 & H3) & _). apply list_elem_of_lookup_2 in Hi.
    assert (Hm : rule_matches r o) by (split_and!; [done|done|by rewrite Em, H3]). split.
    + intros id. split; [intros [= <-]; eauto|]. intros (r' & Hr' & Hm' & <-).
      by rewrite (rule_matches_unique rules r r' o).
    + split; [done|]. intros Hn. by apply Hn in Hm.
  - apply list_find_None in Ef. rewrite Forall_forall in Ef.
    assert (Hno : ∀ r, r ∈ rules → ¬ rule_matches r o).
    { intros r Hr (H1 & H2 & H3). apply (Ef r Hr). rewrite Em in H3. injection H3 as ->. done. }
    split; [|by split]. intros id. split; [done|]. intros (r & Hr & Hm & _). by apply Hno in Hm.
Qed.

(** ** A concrete observed session

    The session of [Proxy.v] with a journal that retains two events: three are
    recorded, the first is evicted. *)

Abbreviation demo_observed :=
  (observed (HS := demo_hash) demo_stream tt demo_instant_max proxy_limits_initial 2 1).

(** The lines a list of calls presents. *)
Definition calls_lines (ops : list operation) : list bytes := concat (map operation_lines ops).

Definition demo_watch (ops : list operation) : TransparentAppServerProxy * AppServerSessionEventJournal :=
  fold_left (λ s op, ((demo_perform op s.1).2, (observe (HS := demo_hash) (demo_perform op s.1).1 s.2).2))
    ops (proxy_new proxy_limits_initial, journal_new 2 1).

Lemma demo_watch_snoc ops op :
  demo_watch (ops ++ [op]) =
    ((demo_perform op (demo_watch ops).1).2,
     (observe (HS := demo_hash) (demo_perform op (demo_watch ops).1).1 (demo_watch ops).2).2).
Proof. unfold demo_watch. by rewrite fold_left_app. Qed.

Lemma demo_watch_step ops op :
  demo_observed (calls_lines ops) (demo_watch ops).1 (demo_watch ops).2 [] → operation_ok demo_stream tt op →
  (last_sequence (demo_watch ops).2 + events_of (demo_perform op (demo_watch ops).1).1 <=? u64_max) = true →
  demo_observed (calls_lines (ops ++ [op])) (demo_watch (ops ++ [op])).1 (demo_watch (ops ++ [op])).2 [].
Proof.
  intros H Hop Hle%Z.leb_le. rewrite demo_watch_snoc. unfold calls_lines. rewrite map_app, concat_app. cbn [map concat].
  rewrite app_nil_r. by apply observed_call.
Qed.

Lemma demo_watch_observed : demo_observed (calls_lines demo_ops) (demo_watch demo_ops).1 (demo_watch demo_ops).2 [].
Proof.
  apply (demo_watch_step (take 2 demo_ops)); [|exact I|by vm_compute].
  apply (demo_watch_step (take 1 demo_ops)); [|exact I|by vm_compute].
  apply (demo_watch_step []); [apply observed_new|exact I|by vm_compute].
Qed.

Definition directions : list AppServerProxyDirection := [ClientToServer; ServerToClient].

Lemma no_collision_checked {JsonError} {HS : Sha256} json_stream (json_custom : JsonError) L :
  (let ids := omap (line_identity json_stream) L in
   hashes_apart request_id_preimage ids && forallb (λ d, hashes_apart (request_key_preimage d) ids) directions) = true →
  no_collision json_stream json_custom L.
Proof.
  cbv zeta. rewrite andb_true_iff, forallb_forall. intros [Hd Hk]. split; [by apply no_digest_collision_checked|].
  intros d i k Hi%presented_line_identity Hj%presented_line_identity.
  apply (hashes_apart_spec (request_key_preimage d) _ _ _ (Hk d ltac:(destruct d; cbn; auto)) Hi Hj).
Qed.

Lemma demo_watch_no_collision : no_collision (HS := demo_hash) demo_stream tt (calls_lines demo_ops ++ []).
Proof. apply no_collision_checked. by vm_compute. Qed.

Lemma observer_never_inconsistent_witness :
  let op := Op_Release ClientToServer 6 in
  (observe (HS := demo_hash) (demo_perform op (demo_watch demo_ops).1).1 (demo_watch demo_ops).2).1 = Ok tt.
Proof.
  refine (proj1 (observer_never_inconsistent demo_stream tt demo_instant_max proxy_limits_initial demo_limits_ok
    demo_stream_typed 2 1 _ _ _ [] (Op_Release ClientToServer 6)
    _ demo_watch_observed I _ demo_watch_no_collision)); by vm_compute.
Defined.

Lemma journal_accounts_for_events_witness :
  last_sequence (demo_watch demo_ops).2 = 3 ∧ evicted_events (demo_watch demo_ops).2 = 1 ∧
  len (events (demo_watch demo_ops).2) <= event_limit (demo_watch demo_ops).2.
Proof.
  split; [by vm_compute|]. split; [by vm_compute|].
  refine (proj1 (journal_accounts_for_events demo_stream tt demo_instant_max proxy_limits_initial demo_limits_ok
    demo_stream_typed 2 1 _ _ _ [] _ demo_watch_observed _)); [by vm_compute|].
  apply no_collision_checked. by vm_compute.
Defined.

Definition demo_rules : list AppServerBlockRule :=
  [mkBlockRule 1 ClientToServer Request (lit "exec"); mkBlockRule 2 ServerToClient Notification (lit "exec")].

Lemma evaluate_exact_witness :
  ∃ policy, policy_new demo_rules = Ok policy ∧
    ∀ o, evaluate policy o = Decision_Block 2 ↔
      ∃ rule, rule ∈ demo_rules ∧ rule_matches rule o ∧ block_id rule = 2.
Proof.
  destruct (policy_new demo_rules) as [policy|] eqn:E; [|by vm_compute in E].
  exists policy. split; [done|]. intros o. exact (proj1 (evaluate_exact demo_rules policy o E) 2).
Defined.
