(* ===== verification/Ownership.v ===== *)
(** * Ownership: execution identities and owned resources

    Models [crates/weregopher-adapter-openai/src/app_server_ownership.rs]: the
    bounded thread, turn and item identity of an execution, and the registry that
    binds the correlation tokens of one event journal ([Controls.v]) to identities
    and labels externally owned resources with them.

    The registry is proved to stay within its limits and pinned to one journal,
    completion of a scope to release exactly what lies inside it, and every label
    to be either live or handed back for cleanup, once. *)

From S2P Require Import Prelude Text ProxyMessage Proxy Controls.

Definition ABSOLUTE_MAX_CORRELATIONS : Z := 65536.
Definition ABSOLUTE_MAX_RESOURCES : Z := 65536.
Definition MAX_EXECUTION_ID_BYTES : Z := 256.

Inductive AppServerOwnershipError : Type :=
| Ownership_InvalidLimits
| Ownership_InvalidExecutionId
| Ownership_InvalidIdentityHierarchy
| Ownership_InvalidResourceId
| Ownership_DuplicateCorrelation
| Ownership_ForeignJournal
| Ownership_CorrelationLimitExceeded
| Ownership_DuplicateResource
| Ownership_ResourceLimitExceeded
| Ownership_UnknownCorrelation
| Ownership_AppScopeRequiresSessionClose.

(** ** Execution identities *)

Record CodexExecutionIdentity : Type := mkExecutionIdentity {
  identity_thread : option str;
  identity_turn : option str;
  identity_item : option str
}.

Definition validate_execution_id (value : str) : result unit AppServerOwnershipError :=
  reject (bool_decide (value = []) || (MAX_EXECUTION_ID_BYTES <? len value) || has_control value)
    Ownership_InvalidExecutionId.

(** The loop over the identifiers that are present. *)
Fixpoint validate_execution_ids (values : list str) : result unit AppServerOwnershipError :=
  match values with
  | [] => Ok tt
  | value :: values => do? validate_execution_id value in validate_execution_ids values
  end.

Definition execution_identity_new (thread_id turn_id item_id : option str) :
    result CodexExecutionIdentity AppServerOwnershipError :=
  do? validate_execution_ids (omap id [thread_id; turn_id; item_id]) in
  do? reject ((bool_decide (is_Some turn_id) && bool_decide (thread_id = None)) ||
              (bool_decide (is_Some item_id) &&
               (bool_decide (thread_id = None) || bool_decide (turn_id = None))))
    Ownership_InvalidIdentityHierarchy in
  Ok (mkExecutionIdentity thread_id turn_id item_id).

Definition is_app_scoped (self : CodexExecutionIdentity) : bool :=
  bool_decide (identity_thread self = None).

Definition is_within (identity scope : CodexExecutionIdentity) : bool :=
  if bool_decide (identity_thread identity ≠ identity_thread scope) then false
  else if match identity_turn scope with
          | Some scope_turn => bool_decide (identity_turn identity ≠ Some scope_turn)
          | None => false
          end then false
  else if match identity_item scope with
          | Some scope_item => bool_decide (identity_item identity ≠ Some scope_item)
          | None => false
          end then false
  else true.

(** ** Limits, resources and the registry *)

Record AppServerOwnershipLimits : Type := mkOwnershipLimits {
  limit_correlations : Z;
  limit_resources : Z
}.

Definition ownership_limits_new (correlations resources : Z) :
    result AppServerOwnershipLimits AppServerOwnershipError :=
  do? reject ((correlations =? 0) || (ABSOLUTE_MAX_CORRELATIONS <? correlations) ||
              (resources =? 0) || (ABSOLUTE_MAX_RESOURCES <? resources)) Ownership_InvalidLimits in
  Ok (mkOwnershipLimits correlations resources).

Definition ownership_limits_initial : AppServerOwnershipLimits := mkOwnershipLimits 4096 4096.

Definition AppServerOwnedResourceId : Type := Z.
Definition resource_id_new (value : Z) : result AppServerOwnedResourceId AppServerOwnershipError :=
  do? reject (value =? 0) Ownership_InvalidResourceId in Ok value.

Inductive AppServerOwnedResourceKind : Type :=
| HelperProcess | McpProcess | CommandProcess | Worktree | BrowserSession | RemoteMcpConnection.

Record AppServerOwnedResource : Type := mkOwnedResource {
  resource_id : AppServerOwnedResourceId;
  resource_kind : AppServerOwnedResourceKind;
  resource_identity : CodexExecutionIdentity
}.

Record AppServerOwnershipRelease : Type := mkOwnershipRelease {
  release_resources : list AppServerOwnedResource;
  released_correlations : Z
}.

Record AppServerOwnershipDiagnostics : Type := mkOwnershipDiagnostics {
  live_correlations : Z;
  live_resources : Z;
  diagnostics_max_correlations : Z;
  diagnostics_max_resources : Z
}.

Record AppServerOwnershipRegistry : Type := mkOwnershipRegistry {
  registry_limits : AppServerOwnershipLimits;
  journal_anchor : option AppServerCorrelationToken;
  correlations : gmap AppServerCorrelationToken CodexExecutionIdentity;
  resources : gmap AppServerOwnedResourceId AppServerOwnedResource
}.

Definition registry_new (limits : AppServerOwnershipLimits) : AppServerOwnershipRegistry :=
  mkOwnershipRegistry limits None ∅ ∅.

Abbreviation registry_method := (mut AppServerOwnershipRegistry AppServerOwnershipError).

(** The three guards of a binding, then the pin and the insertion. *)
Definition bind_correlation (token : AppServerCorrelationToken) (identity : CodexExecutionIdentity) :
    registry_method unit :=
  let* self := mut_get in
  do* mut_lift (reject (bool_decide (is_Some (correlations self !! token))) Ownership_DuplicateCorrelation) in
  do* mut_lift (reject (match journal_anchor self with
                        | Some anchor => negb (belongs_to_same_journal anchor token)
                        | None => false
                        end) Ownership_ForeignJournal) in
  do* mut_lift (reject (limit_correlations (registry_limits self) <=? map_len (correlations self))
                  Ownership_CorrelationLimitExceeded) in
  let anchor := match journal_anchor self with Some anchor => anchor | None => token end in
  mut_put (mkOwnershipRegistry (registry_limits self) (Some anchor)
             (<[token := identity]> (correlations self)) (resources self)).

Definition register (id : AppServerOwnedResourceId) (kind : AppServerOwnedResourceKind)
    (identity : CodexExecutionIdentity) : registry_method unit :=
  let* self := mut_get in
  do* mut_lift (reject (bool_decide (is_Some (resources self !! id))) Ownership_DuplicateResource) in
  do* mut_lift (reject (limit_resources (registry_limits self) <=? map_len (resources self))
                  Ownership_ResourceLimitExceeded) in
  mut_put (mkOwnershipRegistry (registry_limits self) (journal_anchor self) (correlations self)
             (<[id := mkOwnedResource id kind identity]> (resources self))).

Definition correlation (self : AppServerOwnershipRegistry) (token : AppServerCorrelationToken) :
    option CodexExecutionIdentity := correlations self !! token.

Definition register_from_correlation (id : AppServerOwnedResourceId) (kind : AppServerOwnedResourceKind)
    (token : AppServerCorrelationToken) : registry_method unit :=
  let* self := mut_get in
  let* identity := mut_lift (ok_or (correlations self !! token) Ownership_UnknownCorrelation) in
  register id kind identity.

(** Removal of the listed keys; a resource that was found is handed out. *)
Definition remove_keys {K V} `{Countable K} (keys : list K) (m : gmap K V) : gmap K V :=
  foldl (λ m k, delete k m) m keys.

Fixpoint take_resources (ids : list AppServerOwnedResourceId)
    (m : gmap AppServerOwnedResourceId AppServerOwnedResource) :
    list AppServerOwnedResource * gmap AppServerOwnedResourceId AppServerOwnedResource :=
  match ids with
  | [] => ([], m)
  | id :: ids =>
    let '(taken, m') := take_resources ids (delete id m) in
    (option_list (m !! id) ++ taken, m')
  end.

Definition release_scope (scope : CodexExecutionIdentity) : registry_method AppServerOwnershipRelease :=
  let* self := mut_get in
  do* mut_lift (reject (is_app_scoped scope) Ownership_AppScopeRequiresSessionClose) in
  let correlation_keys :=
    (filter (λ p, Is_true (is_within p.2 scope)) (btree_iter token_le (correlations self))).*1 in
  let resource_ids :=
    (filter (λ p, Is_true (is_within (resource_identity p.2) scope)) (btree_iter Z.leb (resources self))).*1 in
  let '(taken, kept) := take_resources resource_ids (resources self) in
  do* mut_put (mkOwnershipRegistry (registry_limits self) (journal_anchor self)
                 (remove_keys correlation_keys (correlations self)) kept) in
  mut_ret (mkOwnershipRelease taken (len correlation_keys)).

Definition close_session (self : AppServerOwnershipRegistry) :
    AppServerOwnershipRelease * AppServerOwnershipRegistry :=
  (mkOwnershipRelease (btree_iter Z.leb (resources self)).*2 (map_len (correlations self)),
   mkOwnershipRegistry (registry_limits self) (journal_anchor self) ∅ ∅).

Definition ownership_diagnostics (self : AppServerOwnershipRegistry) : AppServerOwnershipDiagnostics :=
  mkOwnershipDiagnostics (map_len (correlations self)) (map_len (resources self))
    (limit_correlations (registry_limits self)) (limit_resources (registry_limits self)).

(** ** Scopes are prefixes *)

(** The identifiers of an identity from the thread inwards. *)
Definition identity_path (self : CodexExecutionIdentity) : list str :=
  omap id [identity_thread self; identity_turn self; identity_item self].

Definition constructed (self : CodexExecutionIdentity) : Prop :=
  execution_identity_new (identity_thread self) (identity_turn self) (identity_item self) = Ok self.

Lemma execution_identity_new_Ok a b c i : execution_identity_new a b c = Ok i → i = mkExecutionIdentity a b c.
Proof. unfold execution_identity_new. intros H. by inv_ok. Qed.

Lemma constructed_hierarchy self :
  constructed self → ∃ t u i, self =
    mkExecutionIdentity t u i ∧ (t = None → u = None) ∧ (u = None → i = None).
Proof.
  destruct self as [t u i]. unfold constructed, execution_identity_new. cbn [identity_thread identity_turn identity_item].
  intros H. exists t, u, i. apply result_bind_Ok in H as (_ & _ & H).
  apply result_bind_Ok in H as (_ & H%reject_Ok & _). by destruct t, u, i.
Qed.

Lemma is_within_true identity scope :
  is_within identity scope = true ↔
    identity_thread identity = identity_thread scope ∧
    (∀ x, identity_turn scope = Some x → identity_turn identity = Some x) ∧
    (∀ x, identity_item scope = Some x → identity_item identity = Some x).
Proof.
  unfold is_within. destruct identity as [t u i], scope as [t' u' i']. cbn [identity_thread identity_turn identity_item].
  case_bool_decide as Ht; [by split; [|intros [? _]]|].
  destruct u' as [u'|]; [case_bool_decide as Hu; [split; [done|]; intros (_ & H & _); by specialize (H _ eq_refl)|]|];
    (destruct i' as [i'|];
      [case_bool_decide as Hi; [split; [done|]; intros (_ & _ & H); by specialize (H _ eq_refl)|]|]);
    (split; [intros _|done]); (split; [exact Ht|]); split; intros x Hx; (discriminate Hx || injection Hx as <-; assumption).
Qed.

Lemma prefix_cons_iff {A} (x y : A) xs ys : x :: xs `prefix_of` y :: ys ↔ x = y ∧ xs `prefix_of` ys.
Proof.
  split; [by intros Hp; split; [eapply prefix_cons_inv_1|eapply prefix_cons_inv_2]|].
  intros [-> Hp]. by apply prefix_cons.
Qed.

Lemma prefix_cons_nil {A} (x : A) xs : x :: xs `prefix_of` [] ↔ False.
Proof. split; [|done]. by intros Hp%prefix_nil_inv. Qed.

Lemma prefix_nil_iff {A} (xs : list A) : [] `prefix_of` xs ↔ True.
Proof. split; [done|]. intros _. apply prefix_nil. Qed.

Lemma some_implies {A} (o : option A) x : (∀ y, Some x = Some y → o = Some y) ↔ o = Some x.
Proof. split; [by intros H; apply H|by intros -> y]. Qed.

Lemma none_implies {A} (o : option A) : (∀ y, None = Some y → o = Some y) ↔ True.
Proof. by split. Qed.

(** the scope of a completed thread, turn or item contains exactly the
    identities nested in it: for constructed identities, [is_within] holds exactly
    when the path of the scope is a prefix of the path of the identity. *)
Theorem is_within_prefix identity scope :
  constructed identity → constructed scope → is_app_scoped scope = false →
  is_within identity scope = true ↔ identity_path scope `prefix_of` identity_path identity.
Proof.
  intros (t & u & i & -> & Hu & Hi)%constructed_hierarchy (t' & u' & i' & -> & Hu' & Hi')%constructed_hierarchy.
  unfold is_app_scoped, identity_path. rewrite is_within_true. cbn [identity_thread identity_turn identity_item].
  rewrite bool_decide_eq_false. intros Hs. destruct t' as [t'|]; [|done]. clear Hs Hu'.
  destruct u' as [u'|]; [|rewrite (Hi' eq_refl)]; clear Hi'; [destruct i' as [i'|]|];
  (destruct t as [t|]; [|rewrite (Hi (Hu eq_refl)), (Hu eq_refl)]); clear Hu;
  try (destruct u as [u|]; [|rewrite (Hi eq_refl)]); try clear Hi; try destruct i as [i|];
  cbn [omap list_omap id];
  rewrite ?some_implies, ?none_implies, ?prefix_cons_iff, ?prefix_cons_nil, ?prefix_nil_iff; clear;
  intuition congruence.
Qed.

(** ** Releasing a scope *)

Lemma lookup_remove_keys {K V} `{Countable K} (keys : list K) (m : gmap K V) k :
  remove_keys keys m !! k = if bool_decide (k ∈ keys) then None else m !! k.
Proof.
  revert m. induction keys as [|x keys IH]; intros m; cbn [remove_keys foldl]; [done|].
  change (foldl _ ?m keys) with (remove_keys keys m). rewrite IH.
  destruct (decide (k = x)) as [->|Hne].
  - rewrite lookup_delete_eq. rewrite (bool_decide_eq_true_2 (x ∈ x :: keys)) by (apply elem_of_cons; by left).
    by case_bool_decide.
  - rewrite lookup_delete_ne by done. rewrite (bool_decide_ext (k ∈ x :: keys) (k ∈ keys)); [done|].
    rewrite elem_of_cons. naive_solver.
Qed.

Section Filtered.
Context {K V : Type} `{Countable K} (le : K → K → bool) (P : K * V → Prop) `{∀ x, Decision (P x)}.

Lemma elem_of_filtered_keys (m : gmap K V) k :
  k ∈ (filter P (btree_iter le m)).*1 ↔ ∃ v, m !! k = Some v ∧ P (k, v).
Proof.
  rewrite list_elem_of_fmap. split.
  - intros ([k' v] & -> & [HP Hin]%list_elem_of_filter). apply elem_of_btree_iter in Hin. by exists v.
  - intros (v & Hk & HP). exists (k, v). split; [done|]. apply list_elem_of_filter. by rewrite elem_of_btree_iter.
Qed.

(** Removing the keys selected by the iteration is filtering the map. *)
Lemma remove_filtered (m : gmap K V) :
  remove_keys (filter P (btree_iter le m)).*1 m = filter (λ p, ¬ P p) m.
Proof.
  apply map_eq. intros k. rewrite lookup_remove_keys.
  destruct (m !! k) as [v|] eqn:Hk.
  - case_bool_decide as Hin.
    + symmetry. apply map_lookup_filter_None. right. intros v' Hv' HP. apply elem_of_filtered_keys in Hin as (w & Hw & HPw).
      rewrite Hk in Hv', Hw. injection Hv' as <-. injection Hw as <-. done.
    + symmetry. apply map_lookup_filter_Some. split; [done|]. intros HP. apply Hin, elem_of_filtered_keys. eauto.
  - rewrite (proj2 (map_lookup_filter_None _ _ _)) by (by left). by case_bool_decide.
Qed.

Lemma filtered_perm (m : gmap K V) : filter P (btree_iter le m) ≡ₚ map_to_list (filter P m).
Proof.
  apply NoDup_Permutation.
  - apply NoDup_filter. eapply NoDup_fmap_1, btree_iter_NoDup.
  - apply NoDup_map_to_list.
  - intros [k v]. rewrite list_elem_of_filter, elem_of_btree_iter, elem_of_map_to_list, map_lookup_filter_Some. tauto.
Qed.

Lemma filtered_len (m : gmap K V) : len (filter P (btree_iter le m)).*1 = map_len (filter P m).
Proof. unfold len, map_len. by rewrite length_fmap, filtered_perm, length_map_to_list. Qed.
End Filtered.

(** Removing bindings one at a time, in any order without repetition. *)
Lemma take_resources_spec (l : list (AppServerOwnedResourceId * AppServerOwnedResource)) m :
  NoDup l.*1 → (∀ id r, (id, r) ∈ l → m !! id = Some r) →
  take_resources l.*1 m = (l.*2, remove_keys l.*1 m).
Proof.
  revert m. induction l as [|[id r] l IH]; intros m Hnd Hin; [done|]. cbn [fmap list_fmap fst snd] in *.
  apply NoDup_cons in Hnd as [Hid Hnd]. cbn [take_resources remove_keys foldl].
  rewrite (IH (delete id m)); [|done|].
  - by rewrite (Hin id r (list_elem_of_here _ _)).
  - intros id' r' Hr'. rewrite lookup_delete_ne; [by apply Hin; right|]. intros ->.
    apply Hid. apply list_elem_of_fmap. by exists (id', r').
Qed.

Definition in_scope (scope : CodexExecutionIdentity) (p : AppServerOwnedResourceId * AppServerOwnedResource) : Prop :=
  Is_true (is_within (resource_identity p.2) scope).
Definition bound_in_scope (scope : CodexExecutionIdentity) (p : AppServerCorrelationToken * CodexExecutionIdentity) : Prop :=
  Is_true (is_within p.2 scope).
#[global] Instance in_scope_dec scope p : Decision (in_scope scope p).
Proof. unfold in_scope. apply _. Defined.
#[global] Instance bound_in_scope_dec scope p : Decision (bound_in_scope scope p).
Proof. unfold bound_in_scope. apply _. Defined.

Lemma release_scope_run scope self :
  release_scope scope self =
    if is_app_scoped scope then (Err Ownership_AppScopeRequiresSessionClose, self)
    else (Ok (mkOwnershipRelease (filter (in_scope scope) (btree_iter Z.leb (resources self))).*2
                (map_len (filter (bound_in_scope scope) (correlations self)))),
          mkOwnershipRegistry (registry_limits self) (journal_anchor self)
            (filter (λ p, ¬ bound_in_scope scope p) (correlations self))
            (filter (λ p, ¬ in_scope scope p) (resources self))).
Proof.
  unfold release_scope, mut_bind, mut_get, mut_lift, mut_put, mut_ret, reject.
  destruct (is_app_scoped scope); [done|].
  change (filter (λ p, Is_true (is_within (resource_identity p.2) scope)) (btree_iter Z.leb (resources self)))
    with (filter (in_scope scope) (btree_iter Z.leb (resources self))).
  change (filter (λ p, Is_true (is_within p.2 scope)) (btree_iter token_le (correlations self)))
    with (filter (bound_in_scope scope) (btree_iter token_le (correlations self))).
  rewrite take_resources_spec.
  - by rewrite !remove_filtered, filtered_len.
  - apply filter_fst_NoDup, btree_iter_NoDup.
  - intros id r [_ Hr]%list_elem_of_filter. by apply elem_of_btree_iter in Hr.
Qed.

(** ** Histories of a registry *)

Inductive ownership_operation : Type :=
| Own_Bind (token : AppServerCorrelationToken) (identity : CodexExecutionIdentity)
| Own_Register (id : AppServerOwnedResourceId) (kind : AppServerOwnedResourceKind) (identity : CodexExecutionIdentity)
| Own_RegisterFrom (id : AppServerOwnedResourceId) (kind : AppServerOwnedResourceKind)
    (token : AppServerCorrelationToken)
| Own_Release (scope : CodexExecutionIdentity)
| Own_Close.

(** The outcome of a call and the registry after it. *)
Definition own (op : ownership_operation) (self : AppServerOwnershipRegistry) :
    result AppServerOwnershipRelease AppServerOwnershipError * AppServerOwnershipRegistry :=
  let quiet (m : registry_method unit) :=
    let '(r, self') := m self in (result_bind r (λ _, Ok (mkOwnershipRelease [] 0)), self') in
  match op with
  | Own_Bind token identity => quiet (bind_correlation token identity)
  | Own_Register id kind identity => quiet (register id kind identity)
  | Own_RegisterFrom id kind token => quiet (register_from_correlation id kind token)
  | Own_Release scope => release_scope scope self
  | Own_Close => let '(rel, self') := close_session self in (Ok rel, self')
  end.

(** What a caller may conclude from its own calls alone: the label a successful
    registration makes, with the kind it asked for and the identity it named, the
    one it had bound to the token if it named a token; and what is bound after a
    call, a completed scope ending every binding inside it. *)
Definition label_made (op : ownership_operation) (ok : bool)
    (bound : gmap AppServerCorrelationToken CodexExecutionIdentity) : list AppServerOwnedResource :=
  match op with
  | Own_Register id kind identity => if ok then [mkOwnedResource id kind identity] else []
  | Own_RegisterFrom id kind token =>
    match bound !! token with
    | Some identity => if ok then [mkOwnedResource id kind identity] else []
    | None => []
    end
  | _ => []
  end.
Definition bound_after (op : ownership_operation) (ok : bool)
    (bound : gmap AppServerCorrelationToken CodexExecutionIdentity) :
    gmap AppServerCorrelationToken CodexExecutionIdentity :=
  if ok then
    match op with
    | Own_Bind token identity => <[token := identity]> bound
    | Own_Release scope => filter (λ p, is_within p.2 scope = false) bound
    | Own_Close => ∅
    | _ => bound
    end
  else bound.

(** Every call is made in turn; [bound] is what is bound, and [added] and [given]
    are the labels registered and handed back so far. *)
Inductive owning (limits : AppServerOwnershipLimits) :
    AppServerOwnershipRegistry → gmap AppServerCorrelationToken CodexExecutionIdentity →
    list AppServerOwnedResource → list AppServerOwnedResource → Prop :=
| owning_new : owning limits (registry_new limits) ∅ [] []
| owning_call self bound added given op rel self' :
    owning limits self bound added given → own op self = (rel, self') →
    owning limits self' (bound_after op (is_ok rel) bound) (added ++ label_made op (is_ok rel) bound)
      (given ++ match rel with Ok r => release_resources r | Err _ => [] end).

Record registry_ok (limits : AppServerOwnershipLimits) (self : AppServerOwnershipRegistry) : Prop := {
  registry_same_limits : registry_limits self = limits;
  registry_correlations : map_len (correlations self) <= limit_correlations limits;
  registry_resources : map_len (resources self) <= limit_resources limits;
  registry_pinned : ∀ t i, correlations self !! t = Some i →
    ∃ anchor, journal_anchor self = Some anchor ∧ token_journal t = token_journal anchor;
  registry_labels : ∀ id r, resources self !! id = Some r → resource_id r = id
}.

Lemma map_len_filter {K V} `{Countable K} (P : K * V → Prop) `{∀ x, Decision (P x)} (m : gmap K V) :
  map_len (filter P m) <= map_len m.
Proof. unfold map_len. apply Nat2Z.inj_le, map_subseteq_size, map_filter_subseteq. Qed.

(** What a call does: nothing, one more binding or label, or a split. *)
Inductive registry_step (self : AppServerOwnershipRegistry) : ownership_operation →
    result AppServerOwnershipRelease AppServerOwnershipError → AppServerOwnershipRegistry → Prop :=
| step_rejected op e : registry_step self op (Err e) self
| step_bound token identity anchor :
    correlations self !! token = None →
    map_len (correlations self) < limit_correlations (registry_limits self) →
    token_journal token = token_journal anchor → (∀ a, journal_anchor self = Some a → a = anchor) →
    registry_step self (Own_Bind token identity) (Ok (mkOwnershipRelease [] 0))
      (mkOwnershipRegistry (registry_limits self) (Some anchor) (<[token := identity]> (correlations self))
         (resources self))
| step_registered op id kind identity :
    op = Own_Register id kind identity ∨
      (∃ token, op = Own_RegisterFrom id kind token ∧ correlations self !! token = Some identity) →
    resources self !! id = None → map_len (resources self) < limit_resources (registry_limits self) →
    registry_step self op (Ok (mkOwnershipRelease [] 0))
      (mkOwnershipRegistry (registry_limits self) (journal_anchor self) (correlations self)
         (<[id := mkOwnedResource id kind identity]> (resources self)))
| step_released scope :
    registry_step self (Own_Release scope)
      (Ok (mkOwnershipRelease (filter (in_scope scope) (btree_iter Z.leb (resources self))).*2
             (map_len (filter (bound_in_scope scope) (correlations self)))))
      (mkOwnershipRegistry (registry_limits self) (journal_anchor self)
         (filter (λ p, ¬ bound_in_scope scope p) (correlations self))
         (filter (λ p, ¬ in_scope scope p) (resources self)))
| step_closed :
    registry_step self Own_Close
      (Ok (mkOwnershipRelease (btree_iter Z.leb (resources self)).*2 (map_len (correlations self))))
      (mkOwnershipRegistry (registry_limits self) (journal_anchor self) ∅ ∅).

(** A registration under a known identity, whichever call it is part of. *)
Lemma register_step op id kind identity self rel self' :
  op = Own_Register id kind identity ∨
    (∃ token, op = Own_RegisterFrom id kind token ∧ correlations self !! token = Some identity) →
  own (Own_Register id kind identity) self = (rel, self') → registry_step self op rel self'.
Proof.
  intros Hop. unfold own, register, mut_bind, mut_get, mut_lift, mut_put, reject.
  case_bool_decide as Hid; [intros [= <- <-]; constructor|].
  destruct (Z.leb_spec (limit_resources (registry_limits self)) (map_len (resources self))); intros [= <- <-]; [constructor|].
  by apply step_registered; [|apply eq_None_not_Some|].
Qed.

Lemma own_step op self rel self' : own op self = (rel, self') → registry_step self op rel self'.
Proof.
  destruct op as [token identity|id kind identity|id kind token|scope|].
  - unfold own, bind_correlation, mut_bind, mut_get, mut_lift, mut_put, reject.
    case_bool_decide as Hid; [intros [= <- <-]; constructor|].
    destruct (journal_anchor self) as [a|] eqn:Ha.
    + destruct (belongs_to_same_journal a token) eqn:Hj; cbn [negb]; [|intros [= <- <-]; constructor].
      destruct (Z.leb_spec (limit_correlations (registry_limits self)) (map_len (correlations self)));
        intros [= <- <-]; [constructor|]. unfold belongs_to_same_journal in Hj. apply Z.eqb_eq in Hj.
      apply step_bound; [by apply eq_None_not_Some|done|done|]. intros a'. rewrite Ha. by intros [= ->].
    + destruct (Z.leb_spec (limit_correlations (registry_limits self)) (map_len (correlations self)));
        intros [= <- <-]; [constructor|].
      apply step_bound; [by apply eq_None_not_Some|done|done|]. intros a'. by rewrite Ha.
  - apply register_step. by left.
  - unfold own, register_from_correlation, mut_bind, mut_get, mut_lift.
    destruct (correlations self !! token) as [identity|] eqn:Ht.
    + apply (register_step (Own_RegisterFrom id kind token) id kind identity self rel self'). right. by exists token.
    + intros [= <- <-]. constructor.
  - unfold own. rewrite release_scope_run. destruct (is_app_scoped scope); intros [= <- <-]; constructor.
  - intros [= <- <-]. apply step_closed.
Qed.

Lemma registry_step_ok limits self op rel self' :
  0 < limit_correlations limits → 0 < limit_resources limits →
  registry_step self op rel self' → registry_ok limits self → registry_ok limits self'.
Proof.
  intros Hc Hr Hs [H1 H2 H3 H4 H5]. destruct Hs as [op e|token identity anchor Hn Hlt Hj Ha|op id kind identity Hop Hn Hlt|scope|].
  - done.
  - rewrite H1 in Hlt. split; cbn [registry_limits correlations resources journal_anchor]; try done.
    + rewrite map_len_insert by done. lia.
    + intros t i [[<- <-]|[Hne Ht]]%lookup_insert_Some; [by exists anchor|].
      apply H4 in Ht as (a & Haa & Hta). rewrite <-(Ha a Haa). by exists a.
  - rewrite H1 in Hlt. split; cbn [registry_limits correlations resources journal_anchor]; try done.
    + rewrite map_len_insert by done. lia.
    + intros id' r [[<- <-]|[Hne Ht]]%lookup_insert_Some; [done|by apply H5].
  - split; cbn [registry_limits correlations resources journal_anchor]; try done.
    + etransitivity; [apply map_len_filter|done].
    + etransitivity; [apply map_len_filter|done].
    + intros t i [Ht _]%map_lookup_filter_Some. by eapply H4.
    + intros id r [Hi _]%map_lookup_filter_Some. by apply H5.
  - split; cbn [registry_limits correlations resources journal_anchor]; try done; unfold map_len; rewrite ?map_size_empty; try lia.
Qed.

Lemma owning_ok limits self bound added given :
  0 < limit_correlations limits → 0 < limit_resources limits →
  owning limits self bound added given → registry_ok limits self.
Proof.
  intros Hc Hr. induction 1 as [|self bound added given op rel self' _ IH Hown].
  - split; cbn; [done|unfold map_len; rewrite map_size_empty; lia..| |]; intros ? ?; by rewrite lookup_empty.
  - eapply registry_step_ok; [done|done|by eapply own_step|done].
Qed.

Definition live (self : AppServerOwnershipRegistry) : list AppServerOwnedResource := (map_to_list (resources self)).*2.

(** The bindings are those the calls made. *)
Lemma owning_bound limits self bound added given :
  owning limits self bound added given → correlations self = bound.
Proof.
  induction 1 as [|self bound added given op rel self' _ IH Hown]; [done|]. subst bound. apply own_step in Hown.
  destruct Hown as [op e|token identity anchor Hn Hlt Hj Ha|op id kind identity [->|(token & -> & _)] Hn Hlt|scope|];
    cbn; try done.
  apply map_filter_ext. intros t i _. unfold bound_in_scope. cbn. destruct (is_within i scope); cbn; intuition congruence.
Qed.

(** A call conserves labels: what was live or is made is live or handed back. *)
Lemma registry_step_conserves self op rel self' :
  registry_step self op rel self' →
  live self ++ label_made op (is_ok rel) (correlations self) ≡ₚ
    live self' ++ match rel with Ok r => release_resources r | Err _ => [] end.
Proof.
  unfold live. intros Hs.
  destruct Hs as [op e|token identity anchor Hn Hlt Hj Ha|op id kind identity Hop Hn Hlt|scope|]; cbn [resources release_resources is_ok].
  - destruct op as [| |id kind token| |]; cbn; try done. by destruct (correlations self !! token).
  - done.
  - assert (Hlabel : label_made op true (correlations self) = [mkOwnedResource id kind identity]).
    { destruct Hop as [->|(token & -> & Ht)]; cbn; [done|by rewrite Ht]. }
    rewrite Hlabel, map_to_list_insert by done. cbn. rewrite app_nil_r. symmetry. apply Permutation_cons_append.
  - cbn [label_made]. rewrite app_nil_r, (filtered_perm Z.leb (in_scope scope)), <-fmap_app.
    apply fmap_Permutation, NoDup_Permutation; [apply NoDup_map_to_list| |].
    + apply NoDup_app. split_and!; [apply NoDup_map_to_list| |apply NoDup_map_to_list].
      intros [k r]. rewrite !elem_of_map_to_list, !map_lookup_filter_Some. naive_solver.
    + intros [k r]. rewrite elem_of_app, !elem_of_map_to_list, !map_lookup_filter_Some.
      destruct (decide (in_scope scope (k, r))); naive_solver.
  - cbn [label_made]. rewrite app_nil_r, map_to_list_empty. cbn. by rewrite btree_iter_perm.
Qed.

Lemma owning_conserves limits self bound added given :
  owning limits self bound added given → added ≡ₚ given ++ live self.
Proof.
  induction 1 as [|self bound added given op rel self' Ho IH Hown].
  - unfold live. cbn. by rewrite map_to_list_empty.
  - apply own_step, registry_step_conserves in Hown. rewrite (owning_bound _ _ _ _ _ Ho) in Hown.
    rewrite IH, <-!app_assoc. f_equiv. rewrite Hown. apply Permutation_app_comm.
Qed.

(** C21: the registry keeps its promises whatever is called: bindings and labels
    stay within the configured ceilings, every bound token comes from the one
    journal the registry is pinned to, and a label is found under its own
    identity. *)
Theorem ownership_registry_invariant limits correlations_max resources_max self bound added given :
  ownership_limits_new correlations_max resources_max = Ok limits → 0 <= correlations_max → 0 <= resources_max →
  owning limits self bound added given →
  (let d := ownership_diagnostics self in
   live_correlations d <= correlations_max ∧ live_resources d <= resources_max) ∧
  (∀ t t', is_Some (correlations self !! t) → is_Some (correlations self !! t') → belongs_to_same_journal t t' = true) ∧
  (∀ id r, resources self !! id = Some r → resource_id r = id).
Proof.
  unfold ownership_limits_new. intros Hnew Hc Hr Ho. apply result_bind_Ok in Hnew as (_ & Hl%reject_Ok & [= <-]).
  apply orb_false_iff in Hl as [[[Hl1%Z.eqb_neq _]%orb_false_iff Hl2%Z.eqb_neq]%orb_false_iff _].
  destruct (owning_ok (mkOwnershipLimits correlations_max resources_max) self bound added given ltac:(cbn; lia) ltac:(cbn; lia) Ho) as [H1 H2 H3 H4 H5].
  split_and!; cbn [ownership_diagnostics live_correlations live_resources]; [done|done| |done].
  intros t t' [i Hi] [i' Hi']. apply H4 in Hi as (a & Ha & Hta), Hi' as (a' & Ha' & Hta').
  rewrite Ha in Ha'. injection Ha' as <-. unfold belongs_to_same_journal. apply Z.eqb_eq. congruence.
Qed.

(** C22: no label is lost, duplicated or invented.  Over any sequence of calls,
    the labels made, each with the kind its caller asked for and the identity it
    named or had bound to the token it named, are exactly the labels handed back
    by completed scopes and closed sessions together with the live ones; the
    bindings are those that were made and not ended; and a completed scope leaves
    no label or binding inside it and none outside it touched. *)
Theorem ownership_conserves_resources limits self bound added given scope rel self' :
  owning limits self bound added given → own (Own_Release scope) self = (Ok rel, self') →
  added ≡ₚ given ++ live self ∧ correlations self = bound ∧
  (∀ r, r ∈ release_resources rel → is_within (resource_identity r) scope = true) ∧
  (∀ id r, resources self' !! id = Some r ↔
     resources self !! id = Some r ∧ is_within (resource_identity r) scope = false) ∧
  (∀ t i, correlations self' !! t = Some i ↔ correlations self !! t = Some i ∧ is_within i scope = false).
Proof.
  intros Ho Hrel. split; [by eapply owning_conserves|]. split; [by eapply owning_bound|]. unfold own in Hrel. rewrite release_scope_run in Hrel.
  destruct (is_app_scoped scope); [discriminate Hrel|]. injection Hrel as <- <-. cbn [release_resources resources correlations].
  assert (Hneg : ∀ b, ¬ Is_true b ↔ b = false) by (intros []; cbn; intuition congruence).
  split_and!.
  - intros r ([id r'] & -> & [Hin _]%list_elem_of_filter)%list_elem_of_fmap. by apply Is_true_eq_true.
  - intros id r. rewrite map_lookup_filter_Some. unfold in_scope. by rewrite Hneg.
  - intros t i. rewrite map_lookup_filter_Some. unfold bound_in_scope. by rewrite Hneg.
Qed.

(** ** A concrete registry *)

Definition sample_thread : CodexExecutionIdentity := mkExecutionIdentity (Some (lit "t1")) None None.
Definition sample_turn : CodexExecutionIdentity := mkExecutionIdentity (Some (lit "t1")) (Some (lit "u1")) None.
Definition sample_token : AppServerCorrelationToken := mkCorrelationToken 1 7.

Definition sample_calls : list ownership_operation :=
  [Own_Bind sample_token sample_turn; Own_RegisterFrom 4 CommandProcess sample_token;
   Own_Register 5 Worktree (mkExecutionIdentity (Some (lit "t2")) None None)].

Record sample_history : Type := mkHistory {
  history_self : AppServerOwnershipRegistry;
  history_bound : gmap AppServerCorrelationToken CodexExecutionIdentity;
  history_added : list AppServerOwnedResource;
  history_given : list AppServerOwnedResource
}.
Definition sample_call (h : sample_history) (op : ownership_operation) : sample_history :=
  let '(rel, self') := own op (history_self h) in
  mkHistory self' (bound_after op (is_ok rel) (history_bound h))
    (history_added h ++ label_made op (is_ok rel) (history_bound h))
    (history_given h ++ match rel with Ok r => release_resources r | Err _ => [] end).
Definition sample_run (ops : list ownership_operation) : sample_history :=
  foldl sample_call (mkHistory (registry_new ownership_limits_initial) ∅ [] []) ops.

Lemma sample_run_owning ops :
  let h := sample_run ops in owning ownership_limits_initial (history_self h) (history_bound h) (history_added h) (history_given h).
Proof.
  induction ops as [|op ops IH] using rev_ind; [apply owning_new|]. cbv zeta in *.
  unfold sample_run in *. rewrite foldl_app. cbn [foldl]. destruct (foldl _ _ ops) as [self bound added given].
  unfold sample_call. cbn [history_self history_bound history_added history_given] in *.
  destruct (own op self) as [rel self'] eqn:Hown. by eapply owning_call.
Qed.

Lemma is_within_prefix_witness :
  is_within sample_turn sample_thread = true ∧ identity_path sample_thread `prefix_of` identity_path sample_turn.
Proof.
  split; [by vm_compute|]. apply (is_within_prefix sample_turn sample_thread); by vm_compute.
Defined.

Lemma ownership_registry_invariant_witness :
  let self := history_self (sample_run sample_calls) in
  live_correlations (ownership_diagnostics self) = 1 ∧ live_resources (ownership_diagnostics self) <= 4096.
Proof.
  split; [by vm_compute|].
  refine (proj2 (proj1 (ownership_registry_invariant ownership_limits_initial 4096 4096 _ _ _ _ eq_refl _ _
    (sample_run_owning sample_calls)))); lia.
Defined.

Lemma ownership_conserves_resources_witness :
  let h := sample_run sample_calls in
  ∃ rel self', own (Own_Release sample_thread) (history_self h) = (Ok rel, self') ∧
    map resource_id (release_resources rel) = [4] ∧
    history_added h = [mkOwnedResource 4 CommandProcess sample_turn;
                       mkOwnedResource 5 Worktree (mkExecutionIdentity (Some (lit "t2")) None None)] ∧
    history_added h ≡ₚ history_given h ++ live (history_self h).
Proof.
  cbv zeta. destruct (own (Own_Release sample_thread) (history_self (sample_run sample_calls))) as [[rel|e] self'] eqn:E; [|by vm_compute in E].
  exists rel, self'. split; [done|].
  destruct (ownership_conserves_resources _ _ _ _ _ sample_thread rel self' (sample_run_owning sample_calls) E) as [H _].
  split; [|split; [by vm_compute|exact H]]. clear H. vm_compute in E. by injection E as <- _.
Defined.
