(* ===== verification/ProcessWorkers.v ===== *)
(** * ProcessWorkers: the threads around an attached app-server process

    Models the workers of [crates/weregopher-adapter-openai/src/app_server_process.rs]:
    the four threads that own the child's standard streams and its reaping, and
    the bounded channels ([std::sync::mpsc::sync_channel]) between them and the
    session.  Each thread is a state machine whose step is what it does between
    two interactions; what the operating system answers (bytes read, a write
    that fails after some bytes, an exit status) is an argument of the step.  A
    step that would block leaves the state unchanged.

    The history of a channel ([ch_accepted]) and the bytes that went through a
    pipe ([stdin_pipe], [stdout_read]) are kept to state what was transported. *)

From S2P Require Import Prelude ProxyMessage Proxy.

(** ** Bounded channels *)

Record Channel (A : Type) : Type := mkChannel {
  ch_capacity : Z;
  ch_pending : list A;
  ch_sender : bool;
  ch_receiver : bool;
  ch_accepted : list A
}.
#[global] Arguments mkChannel {A}.
#[global] Arguments ch_capacity {A}.
#[global] Arguments ch_pending {A}.
#[global] Arguments ch_sender {A}.
#[global] Arguments ch_receiver {A}.
#[global] Arguments ch_accepted {A}.

Inductive TryRecvError : Type := Recv_Empty | Recv_Disconnected.
Inductive TrySendError : Type := Send_Full | Send_Disconnected.

Section Channels.
Context {A : Type}.
Implicit Type ch : Channel A.

Definition sync_channel (capacity : Z) : Channel A := mkChannel capacity [] true true [].

(** What is pending is still received after the sender is gone. *)
Definition try_recv ch : result A TryRecvError * Channel A :=
  match ch_pending ch with
  | a :: rest => (Ok a, mkChannel (ch_capacity ch) rest (ch_sender ch) (ch_receiver ch) (ch_accepted ch))
  | [] => (Err (if ch_sender ch then Recv_Empty else Recv_Disconnected), ch)
  end.

Definition try_send ch (a : A) : result unit TrySendError * Channel A :=
  if negb (ch_receiver ch) then (Err Send_Disconnected, ch)
  else if ch_capacity ch <=? len (ch_pending ch) then (Err Send_Full, ch)
  else (Ok tt, mkChannel (ch_capacity ch) (ch_pending ch ++ [a]) (ch_sender ch) (ch_receiver ch)
                 (ch_accepted ch ++ [a])).

(** The blocking operations: [None] while the caller waits. *)
Definition recv ch : option (result A unit * Channel A) :=
  match try_recv ch with
  | (Ok a, ch) => Some (Ok a, ch)
  | (Err Recv_Disconnected, ch) => Some (Err tt, ch)
  | (Err Recv_Empty, _) => None
  end.
Definition send ch (a : A) : option (result unit unit * Channel A) :=
  match try_send ch a with
  | (Ok tt, ch) => Some (Ok tt, ch)
  | (Err Send_Disconnected, ch) => Some (Err tt, ch)
  | (Err Send_Full, _) => None
  end.

Definition drop_sender ch : Channel A :=
  mkChannel (ch_capacity ch) (ch_pending ch) false (ch_receiver ch) (ch_accepted ch).
(** Dropping the receiver discards what is pending. *)
Definition drop_receiver ch : Channel A :=
  mkChannel (ch_capacity ch) [] (ch_sender ch) false (ch_accepted ch).
End Channels.

(** ** Messages *)

(** [io::ErrorKind]: the kinds the code looks at, and the others by number. *)
Inductive ErrorKind : Type := Kind_NotFound | Kind_InvalidInput | Kind_Other (code : Z).
#[global] Instance ErrorKind_eq_dec : EqDecision ErrorKind.
Proof. solve_decision. Defined.

Inductive WriterCommand : Type := Command_Frame (frame : AppServerProxyFrame) | Command_Close.
Inductive WriterEvent : Type :=
| Writer_Written (bytes : Z)
| Writer_Closed
| Writer_Failed (kind : ErrorKind).
Inductive ReaderEvent : Type :=
| Reader_Line (line : bytes)
| Reader_Eof
| Reader_LineTooLarge
| Reader_UnterminatedLine
| Reader_AllocationFailed
| Reader_Failed (kind : ErrorKind).
Inductive StderrEvent : Type := Stderr_Eof | Stderr_Failed (kind : ErrorKind).
Inductive ProcessCommand : Type := Command_Terminate.
Record ProcessExit : Type := mkProcessExit { exit_success : bool; exit_status_code : option Z }.
Inductive ProcessEvent : Type :=
| Process_Exited (exit : ProcessExit)
| Process_Failed (kind : ErrorKind).

Definition newline : byte := byte_of 10.

Definition jsonl (line : bytes) : bytes := line ++ [newline].
(** The bytes of lines, each with its delimiter. *)
Definition jsonl_stream (lines : list bytes) : bytes := concat (map jsonl lines).

(** ** The stdin worker *)

Inductive WriterWorker : Type :=
| WriterWorker_Receiving
| WriterWorker_Sending (event : WriterEvent)
| WriterWorker_Done.

Record WriterLink : Type := mkWriterLink {
  writer_commands : Channel WriterCommand;
  writer_events : Channel WriterEvent;
  writer_state : WriterWorker;
  stdin_pipe : bytes
}.

(** The thread returns: its ends of both channels and the pipe are dropped. *)
Definition writer_return (l : WriterLink) : WriterLink :=
  mkWriterLink (drop_receiver (writer_commands l)) (drop_sender (writer_events l)) WriterWorker_Done
    (stdin_pipe l).

(** [writer_worker]; [io] is the outcome of the two writes and the flush of a
    frame, a failure telling how many bytes had reached the pipe. *)
Definition writer_worker (io : option (ErrorKind * Z)) (l : WriterLink) : WriterLink :=
  match writer_state l with
  | WriterWorker_Receiving =>
    match recv (writer_commands l) with
    | None => l
    | Some (Err _, _) => writer_return l
    | Some (Ok (Command_Frame frame), commands) =>
      let line := jsonl (frame_json_bytes frame) in
      match io with
      | None =>
        mkWriterLink commands (writer_events l)
          (WriterWorker_Sending (Writer_Written (len (frame_json_bytes frame)))) (stdin_pipe l ++ line)
      | Some (kind, reached) =>
        mkWriterLink commands (writer_events l) (WriterWorker_Sending (Writer_Failed kind))
          (stdin_pipe l ++ take (Z.to_nat reached) line)
      end
    | Some (Ok Command_Close, commands) =>
      mkWriterLink commands (writer_events l) (WriterWorker_Sending Writer_Closed) (stdin_pipe l)
    end
  | WriterWorker_Sending event =>
    match send (writer_events l) event with
    | None => l
    | Some (sent, events) =>
      let l := mkWriterLink (writer_commands l) events (writer_state l) (stdin_pipe l) in
      match sent, event with
      | Ok _, Writer_Written _ =>
        mkWriterLink (writer_commands l) (writer_events l) WriterWorker_Receiving (stdin_pipe l)
      | _, _ => writer_return l
      end
    end
  | WriterWorker_Done => l
  end.

(** ** The stdout worker *)

Definition READER_BUFFER_BYTES : Z := 8 * 1024.

(** [AtomicU64] counters saturate. *)
Definition add_atomic (counter value : Z) : Z := saturating_add u64_max counter (Z.min u64_max value).

(** [line] is the record being read, [buffered] what the [BufReader] holds. *)
Inductive ReaderWorker : Type :=
| ReaderWorker_Reading (line buffered : bytes)
| ReaderWorker_Sending (event : ReaderEvent) (line buffered : bytes)
| ReaderWorker_Done.

Record ReaderLink : Type := mkReaderLink {
  reader_events : Channel ReaderEvent;
  reader_state : ReaderWorker;
  stdout_bytes : Z;
  stdout_read : bytes
}.

Fixpoint position (b : byte) (bs : bytes) : option Z :=
  match bs with
  | [] => None
  | c :: bs => if bool_decide (c = b) then Some 0 else option_map (Z.add 1) (position b bs)
  end.

Section Reader.
Context `{Allocator} (max_line_bytes : Z).

(** One iteration of the loop once [available] was returned by [fill_buf]: the
    number of bytes observed, and the state after it. *)
Definition reader_iteration (line available : bytes) : Z * ReaderWorker :=
  match available with
  | [] => (0, ReaderWorker_Sending (if bool_decide (line = []) then Reader_Eof else Reader_UnterminatedLine)
                line [])
  | _ =>
    let delimiter := position newline available in
    let consumed := match delimiter with Some position => position + 1 | None => len available end in
    let content := default (len available) delimiter in
    (consumed,
     match checked_add usize_max (len line) content with
     | None => ReaderWorker_Sending Reader_LineTooLarge line available
     | Some next_length =>
       if max_line_bytes <? next_length then ReaderWorker_Sending Reader_LineTooLarge line available
       else if negb (try_reserve content) then ReaderWorker_Sending Reader_AllocationFailed line available
       else
         let line := line ++ take (Z.to_nat content) available in
         let buffered := drop (Z.to_nat consumed) available in
         match delimiter with
         | Some _ => ReaderWorker_Sending (Reader_Line line) [] buffered
         | None => ReaderWorker_Reading line buffered
         end
     end)
  end.

(** [reader_worker]; [io] is what a read of the pipe returns, no byte at its end. *)
Definition reader_worker (io : result bytes ErrorKind) (l : ReaderLink) : ReaderLink :=
  match reader_state l with
  | ReaderWorker_Reading line buffered =>
    let filled := match buffered, io with
                  | [], Ok chunk => Ok (take (Z.to_nat READER_BUFFER_BYTES) chunk, take (Z.to_nat READER_BUFFER_BYTES) chunk)
                  | [], Err kind => Err kind
                  | _, _ => Ok (buffered, [])
                  end in
    match filled with
    | Err kind =>
      mkReaderLink (reader_events l) (ReaderWorker_Sending (Reader_Failed kind) line buffered)
        (stdout_bytes l) (stdout_read l)
    | Ok (available, read) =>
      let (observed, state) := reader_iteration line available in
      mkReaderLink (reader_events l) state (add_atomic (stdout_bytes l) observed) (stdout_read l ++ read)
    end
  | ReaderWorker_Sending event line buffered =>
    match send (reader_events l) event with
    | None => l
    | Some (Ok _, events) =>
      match event with
      | Reader_Line _ =>
        mkReaderLink events (ReaderWorker_Reading line buffered) (stdout_bytes l) (stdout_read l)
      | _ => mkReaderLink (drop_sender events) ReaderWorker_Done (stdout_bytes l) (stdout_read l)
      end
    | Some (Err _, events) =>
      mkReaderLink (drop_sender events) ReaderWorker_Done (stdout_bytes l) (stdout_read l)
    end
  | ReaderWorker_Done => l
  end.
End Reader.

(** ** The stderr worker *)

Inductive StderrWorker : Type :=
| StderrWorker_Reading
| StderrWorker_Sending (event : StderrEvent)
| StderrWorker_Done.

Record StderrLink : Type := mkStderrLink {
  stderr_events : Channel StderrEvent;
  stderr_state : StderrWorker;
  stderr_bytes : Z
}.

(** [io] is the number of bytes a read of the pipe returned. *)
Definition stderr_worker (io : result Z ErrorKind) (l : StderrLink) : StderrLink :=
  match stderr_state l with
  | StderrWorker_Reading =>
    match io with
    | Ok read =>
      if read =? 0 then mkStderrLink (stderr_events l) (StderrWorker_Sending Stderr_Eof) (stderr_bytes l)
      else mkStderrLink (stderr_events l) StderrWorker_Reading (add_atomic (stderr_bytes l) read)
    | Err kind => mkStderrLink (stderr_events l) (StderrWorker_Sending (Stderr_Failed kind)) (stderr_bytes l)
    end
  | StderrWorker_Sending event =>
    match send (stderr_events l) event with
    | None => l
    | Some (_, events) => mkStderrLink (drop_sender events) StderrWorker_Done (stderr_bytes l)
    end
  | StderrWorker_Done => l
  end.

(** ** The process worker *)

Inductive ProcessWorker : Type :=
| ProcessWorker_Waiting
| ProcessWorker_Checking
| ProcessWorker_Terminating
| ProcessWorker_Sending (event : ProcessEvent)
| ProcessWorker_Done.

(** [shared_child] tells whether the child is still owned (it is taken when it
    is reaped), [kill_requested] whether [kill] was called on it. *)
Record ProcessLink : Type := mkProcessLink {
  process_commands : Channel ProcessCommand;
  process_events : Channel ProcessEvent;
  process_state : ProcessWorker;
  shared_child : bool;
  kill_requested : bool
}.

(** What the operating system answers about the child. *)
Record ChildAnswers : Type := mkChildAnswers {
  answer_try_wait : result (option ProcessExit) ErrorKind;
  answer_kill : result unit ErrorKind;
  answer_wait : result ProcessExit ErrorKind
}.

Definition set_process_state (state : ProcessWorker) (l : ProcessLink) : ProcessLink :=
  mkProcessLink (process_commands l) (process_events l) state (shared_child l) (kill_requested l).

Definition try_wait_shared (os : ChildAnswers) (l : ProcessLink) :
    result (option ProcessExit) ErrorKind * ProcessLink :=
  if shared_child l then
    match answer_try_wait os with
    | Ok (Some status) =>
      (Ok (Some status), mkProcessLink (process_commands l) (process_events l) (process_state l) false (kill_requested l))
    | other => (other, l)
    end
  else (Ok None, l).

Definition terminate_and_wait_shared (os : ChildAnswers) (l : ProcessLink) :
    result ProcessExit ErrorKind * ProcessLink :=
  if shared_child l then
    let l := mkProcessLink (process_commands l) (process_events l) (process_state l) false true in
    match answer_kill os with
    | Err source => if bool_decide (source = Kind_InvalidInput) then (answer_wait os, l) else (Err source, l)
    | Ok _ => (answer_wait os, l)
    end
  else (Err Kind_NotFound, l).

(** [send_process_result]. *)
Definition process_result_event (r : result ProcessExit ErrorKind) : ProcessEvent :=
  match r with Ok exit => Process_Exited exit | Err kind => Process_Failed kind end.

(** [process_worker]; a step of the waiting state is the return of
    [recv_timeout]. *)
Definition process_worker (os : ChildAnswers) (l : ProcessLink) : ProcessLink :=
  match process_state l with
  | ProcessWorker_Waiting =>
    match try_recv (process_commands l) with
    | (Ok Command_Terminate, commands) =>
      mkProcessLink commands (process_events l) ProcessWorker_Terminating (shared_child l) (kill_requested l)
    | (Err Recv_Disconnected, _) => set_process_state ProcessWorker_Terminating l
    | (Err Recv_Empty, _) => set_process_state ProcessWorker_Checking l
    end
  | ProcessWorker_Checking =>
    match try_wait_shared os l with
    | (Ok (Some status), l) => set_process_state (ProcessWorker_Sending (Process_Exited status)) l
    | (Ok None, l) => set_process_state ProcessWorker_Waiting l
    | (Err source, l) => set_process_state (ProcessWorker_Sending (Process_Failed source)) l
    end
  | ProcessWorker_Terminating =>
    let (r, l) := terminate_and_wait_shared os l in
    set_process_state (ProcessWorker_Sending (process_result_event r)) l
  | ProcessWorker_Sending event =>
    match send (process_events l) event with
    | None => l
    | Some (_, events) =>
      mkProcessLink (drop_receiver (process_commands l)) (drop_sender events) ProcessWorker_Done
        (shared_child l) (kill_requested l)
    end
  | ProcessWorker_Done => l
  end.

(** [request_process_termination]. *)
Definition request_process_termination (l : ProcessLink) : ProcessLink :=
  mkProcessLink (try_send (process_commands l) Command_Terminate).2 (process_events l) (process_state l)
    (shared_child l) (kill_requested l).

(** ** All workers *)

Record Workers : Type := mkWorkers {
  writer_link : WriterLink;
  reader_link : ReaderLink;
  stderr_link : StderrLink;
  process_link : ProcessLink
}.

Inductive WorkerAction : Type :=
| Act_Writer (io : option (ErrorKind * Z))
| Act_Reader (io : result bytes ErrorKind)
| Act_Stderr (io : result Z ErrorKind)
| Act_Process (os : ChildAnswers).

Definition worker_step `{Allocator} (max_line_bytes : Z) (action : WorkerAction) (w : Workers) : Workers :=
  match action with
  | Act_Writer io => mkWorkers (writer_worker io (writer_link w)) (reader_link w) (stderr_link w) (process_link w)
  | Act_Reader io =>
    mkWorkers (writer_link w) (reader_worker max_line_bytes io (reader_link w)) (stderr_link w) (process_link w)
  | Act_Stderr io => mkWorkers (writer_link w) (reader_link w) (stderr_worker io (stderr_link w)) (process_link w)
  | Act_Process os => mkWorkers (writer_link w) (reader_link w) (stderr_link w) (process_worker os (process_link w))
  end.

Definition workers_new (io_queue_messages : Z) : Workers :=
  mkWorkers (mkWriterLink (sync_channel io_queue_messages) (sync_channel io_queue_messages) WriterWorker_Receiving [])
    (mkReaderLink (sync_channel io_queue_messages) (ReaderWorker_Reading [] []) 0 [])
    (mkStderrLink (sync_channel 1) StderrWorker_Reading 0)
    (mkProcessLink (sync_channel 1) (sync_channel 1) ProcessWorker_Waiting true false).

(** ** What the stdin worker carries *)

Definition frame_lines (commands : list WriterCommand) : list bytes :=
  omap (λ c, match c with Command_Frame f => Some (frame_json_bytes f) | Command_Close => None end) commands.
Definition command_frames (commands : list WriterCommand) : list AppServerProxyFrame :=
  omap (λ c, match c with Command_Frame f => Some f | Command_Close => None end) commands.
Definition written_events (events : list WriterEvent) : list Z :=
  omap (λ e, match e with Writer_Written n => Some n | _ => None end) events.

(** Frames released to the worker and not acknowledged to the session. *)
Definition in_flight (l : WriterLink) : Z :=
  len (command_frames (ch_pending (writer_commands l))) +
  match writer_state l with WriterWorker_Sending (Writer_Written _) => 1 | _ => 0 end +
  len (written_events (ch_pending (writer_events l))).

Lemma frame_lines_frames cs : frame_lines cs = map frame_json_bytes (command_frames cs).
Proof. unfold frame_lines, command_frames. induction cs as [|[] cs IH]; cbn; [done| |done]. by f_equal. Qed.
Lemma command_frames_cons c cs :
  command_frames (c :: cs) = match c with Command_Frame f => f :: command_frames cs | Command_Close => command_frames cs end.
Proof. by destruct c. Qed.
Lemma frame_lines_cons c cs :
  frame_lines (c :: cs) = match c with Command_Frame f => frame_json_bytes f :: frame_lines cs | Command_Close => frame_lines cs end.
Proof. by destruct c. Qed.
Lemma command_frames_app cs ds : command_frames (cs ++ ds) = command_frames cs ++ command_frames ds.
Proof. apply omap_app. Qed.
Lemma written_events_app cs ds : written_events (cs ++ ds) = written_events cs ++ written_events ds.
Proof. apply omap_app. Qed.
Lemma frame_lines_app cs ds : frame_lines (cs ++ ds) = frame_lines cs ++ frame_lines ds.
Proof. apply omap_app. Qed.
Lemma jsonl_stream_app ls ms : jsonl_stream (ls ++ ms) = jsonl_stream ls ++ jsonl_stream ms.
Proof. unfold jsonl_stream. by rewrite map_app, concat_app. Qed.

(** The pipe got the lines of the frames taken so far, in order; no close
    command is pending while the session can still send. *)
Record writer_ok (outstanding : Z) (l : WriterLink) : Prop := {
  writer_pipe : match writer_state l with
    | WriterWorker_Done | WriterWorker_Sending (Writer_Failed _) =>
      ∃ rest, jsonl_stream (frame_lines (ch_accepted (writer_commands l))) = stdin_pipe l ++ rest
    | _ => jsonl_stream (frame_lines (ch_accepted (writer_commands l))) =
           stdin_pipe l ++ jsonl_stream (frame_lines (ch_pending (writer_commands l)))
    end;
  writer_alive : ch_receiver (writer_commands l) = false → ch_pending (writer_commands l) = [];
  writer_done : writer_state l = WriterWorker_Done ↔ ch_receiver (writer_commands l) = false;
  writer_in_flight : in_flight l <= outstanding;
  writer_open : ch_sender (writer_commands l) = true → Command_Close ∉ ch_pending (writer_commands l)
}.

Lemma try_recv_cases {A} (ch : Channel A) :
  match try_recv ch with
  | (Ok a, ch') => ∃ rest, ch_pending ch = a :: rest ∧
      ch' = mkChannel (ch_capacity ch) rest (ch_sender ch) (ch_receiver ch) (ch_accepted ch)
  | (Err e, ch') => ch_pending ch = [] ∧ ch' = ch ∧ (e = Recv_Disconnected ↔ ch_sender ch = false)
  end.
Proof.
  unfold try_recv. destruct (ch_pending ch) as [|a rest]; [|by exists rest].
  split_and!; [done|done|]. by destruct (ch_sender ch).
Qed.

Lemma recv_cases {A} (ch : Channel A) :
  match recv ch with
  | Some (Ok a, ch') => ∃ rest, ch_pending ch = a :: rest ∧
      ch' = mkChannel (ch_capacity ch) rest (ch_sender ch) (ch_receiver ch) (ch_accepted ch)
  | Some (Err _, ch') => ch_pending ch = [] ∧ ch' = ch ∧ ch_sender ch = false
  | None => True
  end.
Proof.
  unfold recv. pose proof (try_recv_cases ch) as H. destruct (try_recv ch) as [[a|[]] ch']; [done|done|naive_solver].
Qed.

Lemma try_send_cases {A} (ch : Channel A) (a : A) :
  match try_send ch a with
  | (Ok _, ch') => ch_receiver ch = true ∧ len (ch_pending ch) < ch_capacity ch ∧
      ch' = mkChannel (ch_capacity ch) (ch_pending ch ++ [a]) (ch_sender ch) (ch_receiver ch) (ch_accepted ch ++ [a])
  | (Err Send_Full, ch') => ch_receiver ch = true ∧ ch_capacity ch <= len (ch_pending ch) ∧ ch' = ch
  | (Err Send_Disconnected, ch') => ch_receiver ch = false ∧ ch' = ch
  end.
Proof.
  unfold try_send. destruct (ch_receiver ch); cbn [negb]; [|done].
  destruct (Z.leb_spec (ch_capacity ch) (len (ch_pending ch))); split_and!; done || lia.
Qed.

Lemma send_cases {A} (ch : Channel A) (a : A) :
  match send ch a with
  | Some (Ok _, ch') => ch_receiver ch = true ∧ len (ch_pending ch) < ch_capacity ch ∧
      ch' = mkChannel (ch_capacity ch) (ch_pending ch ++ [a]) (ch_sender ch) (ch_receiver ch) (ch_accepted ch ++ [a])
  | Some (Err _, ch') => ch_receiver ch = false ∧ ch' = ch
  | None => True
  end.
Proof.
  unfold send. pose proof (try_send_cases ch a) as H. destruct (try_send ch a) as [[[]|[]] ch']; done.
Qed.

Lemma in_flight_nonneg l : 0 <= in_flight l.
Proof.
  unfold in_flight. pose proof (len_nonneg (command_frames (ch_pending (writer_commands l)))).
  pose proof (len_nonneg (written_events (ch_pending (writer_events l)))).
  destruct (writer_state l) as [|[]|]; lia.
Qed.

Lemma writer_ok_prefix outstanding l :
  writer_ok outstanding l → ∃ rest, jsonl_stream (frame_lines (ch_accepted (writer_commands l))) = stdin_pipe l ++ rest.
Proof. intros []. destruct (writer_state l) as [|[]|]; eauto. Qed.

Lemma writer_return_ok outstanding l :
  writer_ok outstanding l →
  writer_ok outstanding (writer_return l).
Proof.
  intros Hok. pose proof (writer_ok_prefix _ _ Hok) as Hpre. destruct Hok as [_ _ _ Hf _].
  split; cbn [writer_return writer_state writer_commands stdin_pipe drop_receiver ch_accepted ch_receiver ch_sender ch_pending];
    try done; [|by intros _ ?%elem_of_nil].
  unfold in_flight in *. cbn [writer_return writer_state writer_commands writer_events drop_receiver drop_sender ch_pending] in *.
  pose proof (len_nonneg (command_frames (ch_pending (writer_commands l)))).
  change (len (command_frames [])) with 0. destruct (writer_state l) as [|[]|]; lia.
Qed.

Lemma jsonl_stream_cons l ls : jsonl_stream (l :: ls) = jsonl l ++ jsonl_stream ls.
Proof. done. Qed.

Lemma writer_worker_ok io outstanding l : writer_ok outstanding l → writer_ok outstanding (writer_worker io l).
Proof.
  intros Hok. pose proof (writer_ok_prefix _ _ Hok) as Hpre.
  unfold writer_worker. destruct (writer_state l) as [|event|] eqn:Es; [| |done].
  - pose proof (recv_cases (writer_commands l)) as Hr.
    destruct (recv (writer_commands l)) as [[[c|] ch']|]; [| |done]; [|by apply writer_return_ok].
    destruct Hr as (rest & Hp & ->). destruct Hok as [Hpipe Ha Hd Hf Ho]. rewrite Es in Hpipe, Hd.
    rewrite Hp in *. unfold in_flight in Hf. rewrite Es, Hp in Hf.
    assert (Hrc : ch_receiver (writer_commands l) = true) by (destruct (ch_receiver (writer_commands l)); [done|by specialize (Ha eq_refl)]).
    assert (Hdone : ∀ event, WriterWorker_Sending event = WriterWorker_Done ↔ ch_receiver (writer_commands l) = false)
      by (intros event; by rewrite Hrc; split).
    destruct c as [frame|]; [destruct io as [[kind reached]|]|]; split;
      cbn [writer_state writer_commands writer_events stdin_pipe ch_accepted ch_receiver ch_sender ch_pending];
      try (by rewrite Hrc); try apply Hdone; try (by intros Hs Hin; apply (Ho Hs); right);
      unfold in_flight in *; cbn [writer_state writer_commands writer_events ch_pending];
      rewrite ?command_frames_cons, ?frame_lines_cons, ?len_cons in *; try lia.
    + eexists. rewrite Hpipe, jsonl_stream_cons, <-app_assoc. f_equal.
      rewrite <-(take_drop (Z.to_nat reached) (jsonl (frame_json_bytes frame))) at 1. by rewrite <-app_assoc.
    + by rewrite Hpipe, jsonl_stream_cons, <-app_assoc.
    + exact Hpipe.
  - pose proof (send_cases (writer_events l) event) as Hs.
    destruct (send (writer_events l) event) as [[sent events]|]; [|done].
    set (l1 := mkWriterLink (writer_commands l) events (writer_state l) (stdin_pipe l)).
    assert (Hret : writer_ok outstanding (writer_return l1)).
    { pose proof (writer_return_ok _ _ Hok) as [H1 H2 H3 H4 H5]. split; try done.
      destruct Hok as [_ _ _ Hf _]. unfold in_flight in *. unfold l1.
      cbn [writer_return writer_state writer_commands writer_events drop_receiver drop_sender ch_pending] in *.
      change (len (command_frames [])) with 0. rewrite Es in Hf.
      pose proof (len_nonneg (command_frames (ch_pending (writer_commands l)))).
      destruct sent as [u|u]; [destruct Hs as (_ & _ & ->)|destruct Hs as [_ ->]]; cbn [ch_pending].
      - rewrite written_events_app, len_app. destruct event; cbn [written_events omap list_omap];
          rewrite ?len_cons; change (len []) with 0; lia.
      - destruct event; lia. }
    destruct sent as [u|u]; [|by destruct event].
    destruct event as [n| |]; [|exact Hret..]. destruct Hs as (_ & _ & ->).
    destruct Hok as [Hpipe Ha Hd Hf Ho]. rewrite Es in Hpipe, Hd. split; subst l1;
      cbn [writer_state writer_commands writer_events stdin_pipe]; try done.
    + by destruct (ch_receiver (writer_commands l)); naive_solver.
    + unfold in_flight in *. cbn [writer_state writer_commands writer_events ch_pending]. rewrite Es in Hf.
      rewrite written_events_app, len_app. cbn [written_events omap list_omap]. change (len [n]) with 1. lia.
Qed.

(** The operations of the session on the stdin link. *)
Definition with_writer_commands (ch : Channel WriterCommand) (l : WriterLink) : WriterLink :=
  mkWriterLink ch (writer_events l) (writer_state l) (stdin_pipe l).
Definition with_writer_events (ch : Channel WriterEvent) (l : WriterLink) : WriterLink :=
  mkWriterLink (writer_commands l) ch (writer_state l) (stdin_pipe l).

Lemma writer_ok_recv outstanding l e events :
  writer_ok outstanding l → try_recv (writer_events l) = (Ok e, events) →
  0 <= outstanding - (match e with Writer_Written _ => 1 | _ => 0 end) ∧
  writer_ok (outstanding - match e with Writer_Written _ => 1 | _ => 0 end) (with_writer_events events l).
Proof.
  intros [Hpipe Ha Hd Hf Ho] Hr. pose proof (try_recv_cases (writer_events l)) as H. rewrite Hr in H.
  destruct H as (rest & Hp & ->).
  assert (Hle : in_flight (with_writer_events (mkChannel (ch_capacity (writer_events l)) rest (ch_sender (writer_events l))
    (ch_receiver (writer_events l)) (ch_accepted (writer_events l))) l) <=
      outstanding - match e with Writer_Written _ => 1 | _ => 0 end).
  { unfold in_flight in *. cbn [with_writer_events writer_state writer_commands writer_events ch_pending]. rewrite Hp in Hf.
    destruct e; cbn [written_events omap list_omap] in Hf; rewrite ?len_cons in Hf; unfold written_events at 1; lia. }
  split; [|by split]. pose proof (in_flight_nonneg (with_writer_events (mkChannel (ch_capacity (writer_events l)) rest
    (ch_sender (writer_events l)) (ch_receiver (writer_events l)) (ch_accepted (writer_events l))) l)). lia.
Qed.

Lemma writer_ok_push outstanding l c :
  writer_ok outstanding l → ch_receiver (writer_commands l) = true →
  (c = Command_Close → ch_sender (writer_commands l) = false) →
  writer_ok (outstanding + match c with Command_Frame _ => 1 | Command_Close => 0 end)
    (with_writer_commands (mkChannel (ch_capacity (writer_commands l)) (ch_pending (writer_commands l) ++ [c])
      (ch_sender (writer_commands l)) (ch_receiver (writer_commands l)) (ch_accepted (writer_commands l) ++ [c])) l).
Proof.
  intros Hok Hrc Hc. pose proof (writer_ok_prefix _ _ Hok) as [more Hpre]. destruct Hok as [Hpipe Ha Hd Hf Ho].
  split; cbn [with_writer_commands writer_state writer_commands writer_events stdin_pipe ch_accepted ch_receiver ch_sender ch_pending].
  - destruct (writer_state l) as [|[]|]; rewrite !frame_lines_app, !jsonl_stream_app;
      first [exists (more ++ jsonl_stream (frame_lines [c])); rewrite Hpre|rewrite Hpipe]; by rewrite <-app_assoc.
  - by rewrite Hrc.
  - done.
  - unfold in_flight in *. cbn [with_writer_commands writer_state writer_commands writer_events ch_pending].
    rewrite command_frames_app, len_app.
    destruct c; cbn [command_frames omap list_omap]; [change (len [frame]) with 1|change (len []) with 0]; lia.
  - intros Hs [Hin|Hin%list_elem_of_singleton]%elem_of_app; [by apply (Ho Hs)|].
    specialize (Hc (eq_sym Hin)). congruence.
Qed.

Lemma writer_ok_drop outstanding l :
  writer_ok outstanding l → writer_ok outstanding (with_writer_commands (drop_sender (writer_commands l)) l).
Proof. intros [Hpipe Ha Hd Hf Ho]. by split. Qed.

Lemma frames_pending_in_flight l : len (command_frames (ch_pending (writer_commands l))) <= in_flight l.
Proof.
  unfold in_flight. pose proof (len_nonneg (written_events (ch_pending (writer_events l)))).
  destruct (writer_state l) as [|[]|]; lia.
Qed.

(** With no close command pending, the pending commands are all frames. *)
Lemma command_frames_len cs : Command_Close ∉ cs → len (command_frames cs) = len cs.
Proof.
  induction cs as [|[f|] cs IH]; [done| |intros H; exfalso; apply H; left].
  intros H. change (len (command_frames (Command_Frame f :: cs))) with (len (f :: command_frames cs)).
  rewrite !len_cons, IH; [done|]. intros Hin. apply H. by right.
Qed.

(** ** What the stdout worker carries *)

Definition reader_lines (events : list ReaderEvent) : list bytes :=
  omap (λ e, match e with Reader_Line l => Some l | _ => None end) events.
Lemma reader_lines_app es fs : reader_lines (es ++ fs) = reader_lines es ++ reader_lines fs.
Proof. apply omap_app. Qed.

Lemma position_Some b bs i :
  position b bs = Some i → ∃ before after, bs = before ++ b :: after ∧ len before = i ∧ b ∉ before.
Proof.
  revert i. induction bs as [|c bs IH]; intros i H; cbn in H; [done|].
  destruct (decide (c = b)) as [->|Hne].
  - rewrite bool_decide_eq_true_2 in H by done. injection H as <-. exists [], bs. split_and!; [done|done|by intros ?%elem_of_nil].
  - rewrite bool_decide_eq_false_2 in H by done. destruct (position b bs) as [j|]; [|done]. injection H as <-.
    destruct (IH j eq_refl) as (before & after & -> & <- & Hn). exists (c :: before), after.
    split_and!; [done|rewrite len_cons; lia|]. intros [Heq|Hin]%elem_of_cons; [by subst|done].
Qed.
Lemma position_None b bs : position b bs = None → b ∉ bs.
Proof.
  induction bs as [|c bs IH]; cbn; intros H; [by intros ?%elem_of_nil|].
  destruct (decide (c = b)) as [->|Hne]; [by rewrite bool_decide_eq_true_2 in H|].
  rewrite bool_decide_eq_false_2 in H by done. destruct (position b bs); [done|].
  intros [Heq|Hin]%elem_of_cons; [by subst|by apply IH].
Qed.

Section ReaderLaws.
Context `{Allocator} (max_line_bytes : Z).

Definition line_ok (line : bytes) : Prop := (newline ∉ line) ∧ len line <= max_line_bytes.

(** The state of the worker after [lines] were sent and [read] was read. *)
Definition reader_state_ok (lines : list bytes) (read : bytes) (observed : Z) (state : ReaderWorker) : Prop :=
  match state with
  | ReaderWorker_Reading line buffered =>
    jsonl_stream lines ++ line ++ buffered = read ∧ line_ok line ∧ observed + len buffered <= len read
  | ReaderWorker_Sending (Reader_Line l) line buffered =>
    jsonl_stream lines ++ jsonl l ++ buffered = read ∧ line = [] ∧ line_ok l ∧ observed + len buffered <= len read
  | ReaderWorker_Sending Reader_Eof line buffered => jsonl_stream lines = read ∧ observed <= len read
  | ReaderWorker_Sending Reader_UnterminatedLine line buffered =>
    jsonl_stream lines ++ line = read ∧ line_ok line ∧ line ≠ [] ∧ observed <= len read
  | ReaderWorker_Sending _ _ _ | ReaderWorker_Done =>
    (∃ rest, jsonl_stream lines ++ rest = read) ∧ observed <= len read
  end.

Record reader_ok (l : ReaderLink) : Prop := {
  reader_stream : reader_state_ok (reader_lines (ch_accepted (reader_events l))) (stdout_read l) (stdout_bytes l)
                    (reader_state l);
  reader_lines_ok : Forall line_ok (reader_lines (ch_accepted (reader_events l)));
  reader_counted : 0 <= stdout_bytes l;
  reader_eof : Reader_Eof ∈ ch_accepted (reader_events l) →
    jsonl_stream (reader_lines (ch_accepted (reader_events l))) = stdout_read l ∧ reader_state l = ReaderWorker_Done
}.

Lemma reader_iteration_ok lines line available read observed :
  jsonl_stream lines ++ line ++ available = read → line_ok line → observed + len available <= len read → 0 <= observed →
  let (n, state) := reader_iteration max_line_bytes line available in
  0 <= n ∧ reader_state_ok lines read (add_atomic observed n) state.
Proof.
  intros Hread [Hnl Hlen] Hobs Hpos.
  assert (Hadd : ∀ n, 0 <= n → add_atomic observed n <= observed + n) by (intros n Hn; unfold add_atomic, saturating_add; lia).
  destruct available as [|b rest] eqn:Hav.
  { cbn [reader_iteration]. split; [done|]. specialize (Hadd 0 ltac:(done)). rewrite app_nil_r in Hread.
    change (len []) with 0 in Hobs. destruct (decide (line = [])) as [->|Hne].
    - rewrite bool_decide_eq_true_2 by done. cbn [reader_state_ok]. rewrite app_nil_r in Hread. split; [done|lia].
    - rewrite bool_decide_eq_false_2 by done. cbn [reader_state_ok]. split_and!; try done; lia. }
  unfold reader_iteration. rewrite <-Hav in *. clear b rest Hav. cbv zeta.
  set (consumed := match position newline available with Some position => position + 1 | None => len available end).
  assert (Hc : 0 <= consumed <= len available).
  { unfold consumed. destruct (position newline available) as [i|] eqn:Ep; [|pose proof (len_nonneg available); lia].
    apply position_Some in Ep as (before & after & -> & <- & _). rewrite len_app, len_cons.
    pose proof (len_nonneg before). pose proof (len_nonneg after). lia. }
  split; [lia|]. specialize (Hadd consumed ltac:(lia)).
  assert (Hover : (∃ more, jsonl_stream lines ++ more = read) ∧ add_atomic observed consumed <= len read)
    by (split; [by exists (line ++ available)|lia]).
  destruct (checked_add _ _ _) as [next|] eqn:En; [|exact Hover].
  destruct (Z.ltb_spec max_line_bytes next) as [|Hmax]; [exact Hover|].
  destruct (try_reserve _); cbn [negb]; [|exact Hover].
  apply checked_add_Some in En as [Hnext _].
  assert (Hrest : len (drop (Z.to_nat consumed) available) = len available - consumed).
  { unfold len in *. rewrite length_drop. lia. }
  unfold consumed in *. destruct (position newline available) as [i|] eqn:Ep; cbn [from_option id] in *.
  - apply position_Some in Ep as (before & after & -> & <- & Hn). cbn [reader_state_ok].
    assert (Ht : take (Z.to_nat (len before)) (before ++ newline :: after) = before)
      by (unfold len; rewrite Nat2Z.id; apply take_app_length).
    assert (Hd : drop (Z.to_nat (len before + 1)) (before ++ newline :: after) = after).
    { unfold len. replace (Z.to_nat (Z.of_nat (length before) + 1)) with (length (before ++ [newline])) by (rewrite length_app; cbn; lia).
      change (newline :: after) with ([newline] ++ after). rewrite app_assoc. apply drop_app_length. }
    rewrite Ht, Hd in *. split_and!; [|done|split|].
    + unfold jsonl. rewrite <-Hread, <-!app_assoc. done.
    + by intros [?|?]%elem_of_app.
    + rewrite len_app. lia.
    + lia.
  - cbn [reader_state_ok].
    assert (Ht : take (Z.to_nat (len available)) available = available) by (unfold len; rewrite Nat2Z.id; apply firstn_all).
    assert (Hd : drop (Z.to_nat (len available)) available = []) by (unfold len; rewrite Nat2Z.id; apply drop_all).
    rewrite Ht, Hd. split_and!; [by rewrite app_nil_r|split|].
    + intros [?|Hin]%elem_of_app; [done|by apply position_None in Ep].
    + rewrite len_app. lia.
    + change (len []) with 0. lia.
Qed.

Lemma reader_ok_prefix l :
  reader_ok l → (∃ rest, jsonl_stream (reader_lines (ch_accepted (reader_events l))) ++ rest = stdout_read l) ∧
  stdout_bytes l <= len (stdout_read l).
Proof.
  intros [Hs _ Hc _]. destruct (reader_state l) as [line buffered|[] line buffered|]; cbn [reader_state_ok] in Hs;
    try exact Hs; try pose proof (len_nonneg buffered); naive_solver (try rewrite app_nil_r; eauto; lia).
Qed.

Lemma reader_worker_ok io l : reader_ok l → reader_ok (reader_worker max_line_bytes io l).
Proof.
  intros Hok. pose proof (reader_ok_prefix _ Hok) as [[more Hpre] Hle]. pose proof Hok as [Hs Hl Hc He]. unfold reader_worker.
  destruct (reader_state l) as [line buffered|event line buffered|] eqn:Es; [| |exact Hok].
  - assert (Hne : Reader_Eof ∉ ch_accepted (reader_events l)) by (intros Hin; by destruct (He Hin)).
    set (filled := match buffered, io with [], Ok chunk => _ | [], Err kind => _ | _, _ => _ end).
    destruct Hs as (Hread & Hline & Hobs).
    assert (Hfill : match filled with
      | Ok (available, new) => jsonl_stream (reader_lines (ch_accepted (reader_events l))) ++ line ++ available = stdout_read l ++ new ∧
          stdout_bytes l + len available <= len (stdout_read l ++ new)
      | Err _ => True end).
    { subst filled. destruct buffered as [|b buffered]; [destruct io as [chunk|]; [|done]|].
      - rewrite <-Hread, app_nil_r, <-app_assoc, !len_app. change (len []) with 0 in Hobs. split; [done|].
        rewrite <-Hread, app_nil_r, len_app in Hobs. lia.
      - rewrite app_nil_r. done. }
    destruct filled as [[available new]|kind].
    + destruct Hfill as [H1 H2]. pose proof (reader_iteration_ok _ _ _ _ _ H1 Hline H2 Hc) as Hi.
      destruct (reader_iteration max_line_bytes line available) as [n state]. destruct Hi as [Hn Hi].
      split; cbn [reader_events reader_state stdout_bytes stdout_read]; [exact Hi|exact Hl| |done].
      unfold add_atomic, saturating_add, u64_max. lia.
    + split; cbn [reader_events reader_state stdout_bytes stdout_read]; [|exact Hl|exact Hc|done].
      split; [by exists more|done].
  - assert (Hne : Reader_Eof ∉ ch_accepted (reader_events l)) by (intros Hin; by destruct (He Hin)).
    pose proof (send_cases (reader_events l) event) as Hsend.
    destruct (send (reader_events l) event) as [[[u|u] events]|]; [| |exact Hok].
    2: { destruct Hsend as [_ ->]. split; cbn [reader_events reader_state stdout_bytes stdout_read drop_sender ch_accepted];
      [split; [by exists more|done]|exact Hl|exact Hc|done]. }
    destruct Hsend as (_ & _ & ->).
    destruct event as [sent| | | | |kind]; split; cbn [reader_events reader_state stdout_bytes stdout_read drop_sender ch_accepted];
      rewrite ?reader_lines_app; try exact Hc; try (rewrite app_nil_r; done);
      try (by intros [Hin|Hin%list_elem_of_singleton]%elem_of_app);
      try (cbn [reader_state_ok reader_lines omap list_omap]; rewrite app_nil_r; split; [by exists more|done]).
    + destruct Hs as (H1 & -> & H2 & H3). cbn [reader_state_ok reader_lines omap list_omap].
      rewrite jsonl_stream_app, <-app_assoc. unfold jsonl_stream at 2. cbn [map concat]. rewrite app_nil_r.
      split_and!; [exact H1|split; [by intros ?%elem_of_nil|destruct H2; pose proof (len_nonneg sent); change (len []) with 0; lia]|exact H3].
    + destruct Hs as (_ & _ & H2 & _). apply Forall_app. split; [exact Hl|]. by apply Forall_singleton.
    + intros _. destruct Hs as [Hs _]. cbn [reader_lines omap list_omap]. rewrite app_nil_r. done.
Qed.

(** The session takes events from the link, or drops it. *)
Definition with_reader_events (ch : Channel ReaderEvent) (l : ReaderLink) : ReaderLink :=
  mkReaderLink ch (reader_state l) (stdout_bytes l) (stdout_read l).
Lemma reader_ok_recv l ch :
  ch_accepted ch = ch_accepted (reader_events l) → reader_ok l → reader_ok (with_reader_events ch l).
Proof. intros Ha [H1 H2 H3 H4]. split; cbn [with_reader_events reader_events reader_state stdout_bytes stdout_read]; by rewrite ?Ha. Qed.
End ReaderLaws.

(** ** What the process worker guarantees *)

Record process_ok (l : ProcessLink) : Prop := {
  process_capacity : ch_capacity (process_commands l) = 1;
  process_done : process_state l = ProcessWorker_Done ↔ ch_receiver (process_commands l) = false
}.

(** Termination of the child was asked for and cannot be missed any more: the
    worker will find the command (or the closed channel), or is past looking. *)
Definition termination_asked (l : ProcessLink) : Prop :=
  match process_state l with
  | ProcessWorker_Waiting | ProcessWorker_Checking =>
    ch_pending (process_commands l) ≠ [] ∨ ch_sender (process_commands l) = false
  | _ => True
  end.

Lemma terminate_and_wait_commands os l :
  let l' := (terminate_and_wait_shared os l).2 in
  process_commands l' = process_commands l ∧ process_state l' = process_state l.
Proof. unfold terminate_and_wait_shared. destruct (shared_child l); [|done]. destruct (answer_kill os); [done|]. by destruct (bool_decide _). Qed.
Lemma try_wait_commands os l :
  let l' := (try_wait_shared os l).2 in process_commands l' = process_commands l ∧ process_state l' = process_state l.
Proof. unfold try_wait_shared. destruct (shared_child l); [|done]. by destruct (answer_try_wait os) as [[]|]. Qed.

Lemma process_worker_ok os l :
  process_ok l → process_ok (process_worker os l) ∧ (termination_asked l → termination_asked (process_worker os l)).
Proof.
  intros [Hc Hd]. unfold process_worker, termination_asked. destruct (process_state l) as [| | |event|] eqn:Es; cbn [negb].
  - pose proof (try_recv_cases (process_commands l)) as Hr. destruct (try_recv (process_commands l)) as [[[]|[]] ch].
    + destruct Hr as (rest & Hp & ->). split; [|done]. split; [exact Hc|]. cbn. rewrite <-Hd. done.
    + destruct Hr as (Hp & -> & He). split; [split; [exact Hc|cbn; rewrite <-Hd; done]|]. cbn. exact id.
    + split; [split; [exact Hc|cbn; rewrite <-Hd; done]|done].
  - pose proof (try_wait_commands os l) as [H1 H2]. destruct (try_wait_shared os l) as [[[status|]|source] l1];
      cbn [snd] in *; cbn [set_process_state process_state process_commands]; rewrite ?H1;
      (split; [split; cbn [set_process_state process_state process_commands]; rewrite ?H1; [done|rewrite <-Hd; done]|done]).
  - pose proof (terminate_and_wait_commands os l) as [H1 H2]. destruct (terminate_and_wait_shared os l) as [r l1]. cbn [snd] in *.
    split; [|done]. split; cbn [set_process_state process_state process_commands]; rewrite ?H1; [done|rewrite <-Hd; done].
  - destruct (send (process_events l) event) as [[[] ch]|]; cbn [process_state]; [..|rewrite Es]; (split; [|done]);
      split; cbn [process_commands process_state drop_receiver ch_capacity ch_receiver]; rewrite ?Es; first [exact Hc|exact Hd|done|by split].
  - rewrite Es. split; [by split; [|rewrite Es]|done].
Qed.

Lemma request_process_termination_asks l :
  process_ok l → process_ok (request_process_termination l) ∧ termination_asked (request_process_termination l).
Proof.
  intros [Hc Hd]. unfold request_process_termination, termination_asked.
  pose proof (try_send_cases (process_commands l) Command_Terminate) as Hs.
  destruct (try_send (process_commands l) Command_Terminate) as [[[]|[]] ch]; cbn [snd process_state process_commands].
  - destruct Hs as (Hr & _ & ->). split; [split; [exact Hc|exact Hd]|]. cbn [ch_pending ch_sender].
    destruct (process_state l); try done; left; by destruct (ch_pending (process_commands l)).
  - destruct Hs as (Hr & Hlen & ->). split; [split; [exact Hc|exact Hd]|]. rewrite Hc in Hlen.
    destruct (process_state l); try done; left; by destruct (ch_pending (process_commands l)).
  - destruct Hs as [Hr ->]. split; [split; [exact Hc|exact Hd]|]. apply Hd in Hr. by rewrite Hr.
Qed.

(** The worker still looks after the child. *)
Definition attends (l : ProcessLink) : Prop :=
  match process_state l with
  | ProcessWorker_Waiting | ProcessWorker_Checking | ProcessWorker_Terminating => True
  | ProcessWorker_Sending _ | ProcessWorker_Done => False
  end.

Lemma terminate_takes_child os l : shared_child (terminate_and_wait_shared os l).2 = false.
Proof.
  unfold terminate_and_wait_shared. destruct (shared_child l) eqn:E; [|exact E].
  destruct (answer_kill os); [done|]. by destruct (bool_decide _).
Qed.

Lemma reaped_stays os l : shared_child l = false → shared_child (process_worker os l) = false.
Proof.
  intros H. unfold process_worker. destruct (process_state l) as [| | |event|].
  - destruct (try_recv _) as [[[]|[]] ch]; exact H.
  - unfold try_wait_shared. rewrite H. exact H.
  - pose proof (terminate_takes_child os l). by destruct (terminate_and_wait_shared os l).
  - destruct (send _ _) as [[r ch]|]; exact H.
  - exact H.
Qed.

Lemma terminating_reaps os l : process_state l = ProcessWorker_Terminating → shared_child (process_worker os l) = false.
Proof.
  intros H. unfold process_worker. rewrite H. pose proof (terminate_takes_child os l). by destruct (terminate_and_wait_shared os l).
Qed.

Lemma waiting_terminates os l :
  process_state l = ProcessWorker_Waiting → termination_asked l →
  process_state (process_worker os l) = ProcessWorker_Terminating.
Proof.
  intros H Ha. unfold termination_asked in Ha. rewrite H in Ha. unfold process_worker. rewrite H.
  pose proof (try_recv_cases (process_commands l)) as Hr. destruct (try_recv (process_commands l)) as [[[]|[]] ch]; try done.
  destruct Hr as (Hp & _ & He). destruct Ha as [Ha|Ha]; [done|]. by apply He in Ha.
Qed.

(** Three steps after termination was asked for, the child is killed or reaped,
    as long as waiting for it does not fail. *)
Lemma asked_reaps os1 os2 os3 l :
  termination_asked l → attends l → (∀ e, answer_try_wait os1 ≠ Err e) →
  shared_child (process_worker os3 (process_worker os2 (process_worker os1 l))) = false.
Proof.
  intros Ha Hl Hw. unfold attends in Hl. destruct (process_state l) eqn:Es; try done.
  - by apply reaped_stays, terminating_reaps, waiting_terminates.
  - destruct (shared_child l) eqn:Ec; [|by do 3 apply reaped_stays].
    destruct (answer_try_wait os1) as [[status|]|e] eqn:Ew; [| |by destruct (Hw e)].
    + do 2 apply reaped_stays. unfold process_worker, try_wait_shared. by rewrite Es, Ec, Ew.
    + assert (Hone : process_worker os1 l = set_process_state ProcessWorker_Waiting l)
        by (unfold process_worker, try_wait_shared; by rewrite Es, Ec, Ew).
      rewrite Hone. apply terminating_reaps, waiting_terminates; [done|].
      unfold termination_asked in *. rewrite Es in Ha. exact Ha.
  - by do 2 apply reaped_stays; apply terminating_reaps.
Qed.

Lemma unattended_stays os l :
  ¬ attends l →
  let l' := process_worker os (request_process_termination l) in
  ¬ attends l' ∧ shared_child l' = shared_child l ∧ kill_requested l' = kill_requested l.
Proof.
  intros H. cbv zeta. set (l1 := request_process_termination l).
  assert (H1 : process_state l1 = process_state l ∧ shared_child l1 = shared_child l ∧ kill_requested l1 = kill_requested l) by done.
  destruct H1 as (E1 & <- & <-). unfold attends in H. rewrite <-E1 in H. clearbody l1. unfold process_worker, attends.
  destruct (process_state l1) as [| | |event|] eqn:E; try (by destruct H); [|by rewrite E].
  destruct (send _ event) as [[r ch]|]; [done|by rewrite E].
Qed.

(** When waiting fails, the worker gives the child up as it is: whatever happens
    afterwards, it is neither killed nor reaped. *)
Theorem failed_wait_abandons_child os l kind later_answers :
  process_state l = ProcessWorker_Checking → shared_child l = true → kill_requested l = false →
  answer_try_wait os = Err kind →
  let l' := fold_left (λ l os, process_worker os (request_process_termination l)) later_answers (process_worker os l) in
  shared_child l' = true ∧ kill_requested l' = false.
Proof.
  intros Hs Hc Hk Hw. cbv zeta.
  assert (Hstart : let l1 := process_worker os l in shared_child l1 = true ∧ kill_requested l1 = false ∧ ¬ attends l1).
  { unfold process_worker, try_wait_shared. rewrite Hs, Hc, Hw. cbn. split_and!; [done|done|by intros []]. }
  destruct Hstart as (H1 & H2 & H3). revert H1 H2 H3. generalize (process_worker os l). clear.
  induction later_answers as [|a answers IH]; intros l H1 H2 H3; cbn [fold_left]; [done|].
  destruct (unattended_stays a l H3) as (U1 & U2 & U3). apply IH; [by rewrite U2|by rewrite U3|exact U1].
Qed.
