(* ===== verification/ProcessSession.v ===== *)
(** * ProcessSession: the session around an attached app-server process

    Models [crates/weregopher-adapter-openai/src/app_server_process.rs]: the
    single-owner nonblocking session ([AppServerProcessSession]) that composes
    the transparent proxy of [Proxy], the observer and the block policy of
    [Controls], the initialization order, the deadlines, and the four worker
    threads of [ProcessWorkers].

    The workers run concurrently with every method.  The [schedule] of a session
    says what they do meanwhile: before each receive, each send of a command to
    the stdin worker and the final closure, a method lets the actions of the next
    entry happen.  [run_workers] is also what happens between two calls.  So every
    interleaving of the threads is some schedule, and the theorems hold for all.

    Parameters: those of [Proxy]; [spawn] says which threads the operating
    system refuses to start; the responses of the operating system to the workers
    are in the actions.  An [Instant] is a number of nanoseconds. *)

From S2P Require Import Prelude ProxyMessage Proxy Controls ProcessWorkers.

Definition SECOND : Z := 1000000000.
Definition ABSOLUTE_MAX_IO_QUEUE_MESSAGES : Z := 4.
Definition ABSOLUTE_MAX_POLL_EVENTS : Z := 1024.
Definition ABSOLUTE_MAX_INITIALIZATION_TIMEOUT : Z := 5 * 60 * SECOND.
Definition ABSOLUTE_MAX_RUNTIME_TIMEOUT : Z := 24 * 3600 * SECOND.
Definition ABSOLUTE_MAX_SHUTDOWN_TIMEOUT : Z := 30 * SECOND.
Definition ABSOLUTE_MAX_EXIT_DRAIN_TIMEOUT : Z := 30 * SECOND.

Record AppServerProcessLimits : Type := mkProcessLimits {
  io_queue_messages : Z;
  poll_events : Z;
  initialization_timeout : Z;
  runtime_timeout : Z;
  shutdown_timeout : Z;
  exit_drain_timeout : Z
}.

Record AppServerProcessControls : Type := mkProcessControls {
  controls_event_limits : Z;
  controls_interception : AppServerInterceptionPolicy
}.
Definition controls_initial : AppServerProcessControls :=
  mkProcessControls event_limits_initial policy_empty.

Inductive AppServerInitializationPhase : Type :=
| Phase_AwaitingInitialize
| Phase_InitializeQueued
| Phase_AwaitingInitializeResponse
| Phase_InitializeResponseQueued
| Phase_AwaitingInitialized
| Phase_InitializedQueued.

Inductive AppServerProcessState : Type :=
| State_Initializing (phase : AppServerInitializationPhase)
| State_Ready
| State_ShuttingDown
| State_Exited.

Inductive AppServerShutdownMode : Type := Mode_Graceful | Mode_Immediate.

Inductive AppServerProcessOutcome : Type :=
| CleanShutdown
| ForcedShutdown
| UnexpectedExit
| Crash
| InitializationTimeout
| RuntimeTimeout
| ProtocolFailure
| TransportFailure
| RequestTimeout
| InterceptionBlocked
| ObservationFailure.
#[global] Instance AppServerProcessOutcome_eq_dec : EqDecision AppServerProcessOutcome.
Proof. solve_decision. Defined.

Record AppServerProcessExitReport : Type := mkExitReport {
  report_outcome : AppServerProcessOutcome;
  report_exit_code : option Z;
  was_initialized : bool;
  report_stdout_bytes : Z;
  report_stderr_bytes : Z;
  streams_drained : bool;
  abandoned_writer_frames : Z;
  proxy_close : AppServerProxyCloseReport
}.

Record AppServerProcessDiagnostics : Type := mkProcessDiagnostics {
  process_diagnostics_state : AppServerProcessState;
  process_diagnostics_proxy : AppServerProxyDiagnostics;
  process_diagnostics_events : AppServerEventDiagnostics;
  process_diagnostics_dispatched : Z;
  process_diagnostics_written : Z;
  process_diagnostics_written_bytes : Z;
  process_diagnostics_outstanding : Z;
  process_diagnostics_stdout : Z;
  process_diagnostics_stderr : Z
}.

Record AppServerProcessPoll : Type := mkPoll {
  poll_server_messages : Z;
  poll_dispatched_client_frames : Z;
  poll_written_client_frames : Z;
  poll_expired_requests : Z
}.
Definition poll_default : AppServerProcessPoll := mkPoll 0 0 0 0.

Inductive InitializationState : Type :=
| AwaitingInitialize
| InitializeQueued (request_id : AppServerRequestId)
| AwaitingInitializeResponse (request_id : AppServerRequestId)
| InitializeResponseQueued (request_id : AppServerRequestId)
| AwaitingInitialized
| InitializedQueued
| Ready.

Definition is_ready (i : InitializationState) : bool := match i with Ready => true | _ => false end.

Inductive LifecycleState : Type :=
| Running
| GracefulShutdown (deadline : Z)
| Terminating
| Exited.

Definition is_running (l : LifecycleState) : bool := match l with Running => true | _ => false end.
Definition is_graceful (l : LifecycleState) : bool := match l with GracefulShutdown _ => true | _ => false end.
Definition is_terminating (l : LifecycleState) : bool := match l with Terminating => true | _ => false end.
Definition is_exited (l : LifecycleState) : bool := match l with Exited => true | _ => false end.

(** The [JoinHandle]s that are not joined yet. *)
Record WorkerHandles : Type := mkWorkerHandles {
  writer_handle : bool;
  reader_handle : bool;
  stderr_handle : bool;
  process_handle : bool
}.

Section Errors.
Context {JsonError : Type}.
Inductive AppServerProcessError : Type :=
| Process_InvalidLimits
| Process_DeadlineOverflow
| Process_MissingPipedStdio
| Process_WorkerSpawn (worker : str) (kind : ErrorKind)
| Process_InitializationSequenceViolation
| Process_InitializeRejected
| Process_UnexpectedServerInitializationMessage
| Process_StdoutLineTooLarge
| Process_UnterminatedStdoutLine
| Process_StdoutClosedBeforeExit
| Process_StdoutAllocationFailed
| Process_WorkerIo (worker : str) (kind : ErrorKind)
| Process_WorkerDisconnected (worker : str)
| Process_NotRunning
| Process_NonMonotonicClock
| Process_DiagnosticCounterOverflow
| Process_InterceptionBlocked (rule : AppServerInterceptRuleId)
| Process_Control (source : AppServerControlError)
| Process_Proxy (source : AppServerProxyError JsonError).
End Errors.
#[global] Arguments AppServerProcessError : clear implicits.

Definition process_limits_new {JsonError} (io_queue_messages poll_events initialization_timeout
    runtime_timeout shutdown_timeout exit_drain_timeout : Z) :
    result AppServerProcessLimits (AppServerProcessError JsonError) :=
  do? reject ((io_queue_messages =? 0) || (ABSOLUTE_MAX_IO_QUEUE_MESSAGES <? io_queue_messages) ||
              (poll_events =? 0) || (ABSOLUTE_MAX_POLL_EVENTS <? poll_events) ||
              (initialization_timeout =? 0) || (ABSOLUTE_MAX_INITIALIZATION_TIMEOUT <? initialization_timeout) ||
              (runtime_timeout =? 0) || (ABSOLUTE_MAX_RUNTIME_TIMEOUT <? runtime_timeout) ||
              (shutdown_timeout =? 0) || (ABSOLUTE_MAX_SHUTDOWN_TIMEOUT <? shutdown_timeout) ||
              (exit_drain_timeout =? 0) || (ABSOLUTE_MAX_EXIT_DRAIN_TIMEOUT <? exit_drain_timeout))
    Process_InvalidLimits in
  Ok (mkProcessLimits io_queue_messages poll_events initialization_timeout runtime_timeout
        shutdown_timeout exit_drain_timeout).

Definition process_limits_initial : AppServerProcessLimits :=
  mkProcessLimits 4 64 (30 * SECOND) (24 * 3600 * SECOND) (2 * SECOND) (2 * SECOND).

Record AppServerProcessSession : Type := mkProcessSession {
  process_limits : AppServerProcessLimits;
  session_proxy : TransparentAppServerProxy;
  interception : AppServerInterceptionPolicy;
  session_events : AppServerSessionEventJournal;
  initialization : InitializationState;
  lifecycle : LifecycleState;
  initialization_deadline : Z;
  runtime_deadline : Z;
  session_observed_time : Z;
  writer_tx : bool;
  process_tx : bool;
  handles : WorkerHandles;
  writer_outstanding : Z;
  writer_close_requested : bool;
  stdout_finished : bool;
  stdout_without_exit_deadline : option Z;
  stderr_finished : bool;
  process_exit : option ProcessExit;
  process_exit_deadline : option Z;
  requested_outcome : option AppServerProcessOutcome;
  dispatched_client_frames : Z;
  written_client_frames : Z;
  written_client_bytes : Z;
  exit_report : option AppServerProcessExitReport;
  workers : Workers;
  schedule : list (list WorkerAction)
}.

(** The updates of the fields. *)
Section Updates.
Implicit Type s : AppServerProcessSession.
Abbreviation Session := AppServerProcessSession.
Definition set_proxy (new : TransparentAppServerProxy) s : Session :=
  mkProcessSession (process_limits s) new (interception s) (session_events s) (initialization s)
    (lifecycle s) (initialization_deadline s) (runtime_deadline s) (session_observed_time s) (writer_tx s)
    (process_tx s) (handles s) (writer_outstanding s) (writer_close_requested s) (stdout_finished s)
    (stdout_without_exit_deadline s) (stderr_finished s) (process_exit s) (process_exit_deadline s)
    (requested_outcome s) (dispatched_client_frames s) (written_client_frames s) (written_client_bytes s)
    (exit_report s) (workers s) (schedule s).
Definition set_journal (new : AppServerSessionEventJournal) s : Session :=
  mkProcessSession (process_limits s) (session_proxy s) (interception s) new (initialization s)
    (lifecycle s) (initialization_deadline s) (runtime_deadline s) (session_observed_time s) (writer_tx s)
    (process_tx s) (handles s) (writer_outstanding s) (writer_close_requested s) (stdout_finished s)
    (stdout_without_exit_deadline s) (stderr_finished s) (process_exit s) (process_exit_deadline s)
    (requested_outcome s) (dispatched_client_frames s) (written_client_frames s) (written_client_bytes s)
    (exit_report s) (workers s) (schedule s).
Definition set_initialization (new : InitializationState) s : Session :=
  mkProcessSession (process_limits s) (session_proxy s) (interception s) (session_events s) new
    (lifecycle s) (initialization_deadline s) (runtime_deadline s) (session_observed_time s) (writer_tx s)
    (process_tx s) (handles s) (writer_outstanding s) (writer_close_requested s) (stdout_finished s)
    (stdout_without_exit_deadline s) (stderr_finished s) (process_exit s) (process_exit_deadline s)
    (requested_outcome s) (dispatched_client_frames s) (written_client_frames s) (written_client_bytes s)
    (exit_report s) (workers s) (schedule s).
Definition set_lifecycle (new : LifecycleState) s : Session :=
  mkProcessSession (process_limits s) (session_proxy s) (interception s) (session_events s)
    (initialization s) new (initialization_deadline s) (runtime_deadline s) (session_observed_time s)
    (writer_tx s) (process_tx s) (handles s) (writer_outstanding s) (writer_close_requested s)
    (stdout_finished s) (stdout_without_exit_deadline s) (stderr_finished s) (process_exit s)
    (process_exit_deadline s) (requested_outcome s) (dispatched_client_frames s) (written_client_frames s)
    (written_client_bytes s) (exit_report s) (workers s) (schedule s).
Definition set_session_time (new : Z) s : Session :=
  mkProcessSession (process_limits s) (session_proxy s) (interception s) (session_events s)
    (initialization s) (lifecycle s) (initialization_deadline s) (runtime_deadline s) new (writer_tx s)
    (process_tx s) (handles s) (writer_outstanding s) (writer_close_requested s) (stdout_finished s)
    (stdout_without_exit_deadline s) (stderr_finished s) (process_exit s) (process_exit_deadline s)
    (requested_outcome s) (dispatched_client_frames s) (written_client_frames s) (written_client_bytes s)
    (exit_report s) (workers s) (schedule s).
Definition set_writer_tx (new : bool) s : Session :=
  mkProcessSession (process_limits s) (session_proxy s) (interception s) (session_events s)
    (initialization s) (lifecycle s) (initialization_deadline s) (runtime_deadline s)
    (session_observed_time s) new (process_tx s) (handles s) (writer_outstanding s)
    (writer_close_requested s) (stdout_finished s) (stdout_without_exit_deadline s) (stderr_finished s)
    (process_exit s) (process_exit_deadline s) (requested_outcome s) (dispatched_client_frames s)
    (written_client_frames s) (written_client_bytes s) (exit_report s) (workers s) (schedule s).
Definition set_process_tx (new : bool) s : Session :=
  mkProcessSession (process_limits s) (session_proxy s) (interception s) (session_events s)
    (initialization s) (lifecycle s) (initialization_deadline s) (runtime_deadline s)
    (session_observed_time s) (writer_tx s) new (handles s) (writer_outstanding s)
    (writer_close_requested s) (stdout_finished s) (stdout_without_exit_deadline s) (stderr_finished s)
    (process_exit s) (process_exit_deadline s) (requested_outcome s) (dispatched_client_frames s)
    (written_client_frames s) (written_client_bytes s) (exit_report s) (workers s) (schedule s).
Definition set_handles (new : WorkerHandles) s : Session :=
  mkProcessSession (process_limits s) (session_proxy s) (interception s) (session_events s)
    (initialization s) (lifecycle s) (initialization_deadline s) (runtime_deadline s)
    (session_observed_time s) (writer_tx s) (process_tx s) new (writer_outstanding s)
    (writer_close_requested s) (stdout_finished s) (stdout_without_exit_deadline s) (stderr_finished s)
    (process_exit s) (process_exit_deadline s) (requested_outcome s) (dispatched_client_frames s)
    (written_client_frames s) (written_client_bytes s) (exit_report s) (workers s) (schedule s).
Definition set_outstanding (new : Z) s : Session :=
  mkProcessSession (process_limits s) (session_proxy s) (interception s) (session_events s)
    (initialization s) (lifecycle s) (initialization_deadline s) (runtime_deadline s)
    (session_observed_time s) (writer_tx s) (process_tx s) (handles s) new (writer_close_requested s)
    (stdout_finished s) (stdout_without_exit_deadline s) (stderr_finished s) (process_exit s)
    (process_exit_deadline s) (requested_outcome s) (dispatched_client_frames s) (written_client_frames s)
    (written_client_bytes s) (exit_report s) (workers s) (schedule s).
Definition set_close_requested (new : bool) s : Session :=
  mkProcessSession (process_limits s) (session_proxy s) (interception s) (session_events s)
    (initialization s) (lifecycle s) (initialization_deadline s) (runtime_deadline s)
    (session_observed_time s) (writer_tx s) (process_tx s) (handles s) (writer_outstanding s) new
    (stdout_finished s) (stdout_without_exit_deadline s) (stderr_finished s) (process_exit s)
    (process_exit_deadline s) (requested_outcome s) (dispatched_client_frames s) (written_client_frames s)
    (written_client_bytes s) (exit_report s) (workers s) (schedule s).
Definition set_stdout_finished (new : bool) s : Session :=
  mkProcessSession (process_limits s) (session_proxy s) (interception s) (session_events s)
    (initialization s) (lifecycle s) (initialization_deadline s) (runtime_deadline s)
    (session_observed_time s) (writer_tx s) (process_tx s) (handles s) (writer_outstanding s)
    (writer_close_requested s) new (stdout_without_exit_deadline s) (stderr_finished s) (process_exit s)
    (process_exit_deadline s) (requested_outcome s) (dispatched_client_frames s) (written_client_frames s)
    (written_client_bytes s) (exit_report s) (workers s) (schedule s).
Definition set_stdout_deadline (new : option Z) s : Session :=
  mkProcessSession (process_limits s) (session_proxy s) (interception s) (session_events s)
    (initialization s) (lifecycle s) (initialization_deadline s) (runtime_deadline s)
    (session_observed_time s) (writer_tx s) (process_tx s) (handles s) (writer_outstanding s)
    (writer_close_requested s) (stdout_finished s) new (stderr_finished s) (process_exit s)
    (process_exit_deadline s) (requested_outcome s) (dispatched_client_frames s) (written_client_frames s)
    (written_client_bytes s) (exit_report s) (workers s) (schedule s).
Definition set_stderr_finished (new : bool) s : Session :=
  mkProcessSession (process_limits s) (session_proxy s) (interception s) (session_events s)
    (initialization s) (lifecycle s) (initialization_deadline s) (runtime_deadline s)
    (session_observed_time s) (writer_tx s) (process_tx s) (handles s) (writer_outstanding s)
    (writer_close_requested s) (stdout_finished s) (stdout_without_exit_deadline s) new (process_exit s)
    (process_exit_deadline s) (requested_outcome s) (dispatched_client_frames s) (written_client_frames s)
    (written_client_bytes s) (exit_report s) (workers s) (schedule s).
Definition set_exit (new : option ProcessExit) s : Session :=
  mkProcessSession (process_limits s) (session_proxy s) (interception s) (session_events s)
    (initialization s) (lifecycle s) (initialization_deadline s) (runtime_deadline s)
    (session_observed_time s) (writer_tx s) (process_tx s) (handles s) (writer_outstanding s)
    (writer_close_requested s) (stdout_finished s) (stdout_without_exit_deadline s) (stderr_finished s) new
    (process_exit_deadline s) (requested_outcome s) (dispatched_client_frames s) (written_client_frames s)
    (written_client_bytes s) (exit_report s) (workers s) (schedule s).
Definition set_exit_deadline (new : option Z) s : Session :=
  mkProcessSession (process_limits s) (session_proxy s) (interception s) (session_events s)
    (initialization s) (lifecycle s) (initialization_deadline s) (runtime_deadline s)
    (session_observed_time s) (writer_tx s) (process_tx s) (handles s) (writer_outstanding s)
    (writer_close_requested s) (stdout_finished s) (stdout_without_exit_deadline s) (stderr_finished s)
    (process_exit s) new (requested_outcome s) (dispatched_client_frames s) (written_client_frames s)
    (written_client_bytes s) (exit_report s) (workers s) (schedule s).
Definition set_requested (new : option AppServerProcessOutcome) s : Session :=
  mkProcessSession (process_limits s) (session_proxy s) (interception s) (session_events s)
    (initialization s) (lifecycle s) (initialization_deadline s) (runtime_deadline s)
    (session_observed_time s) (writer_tx s) (process_tx s) (handles s) (writer_outstanding s)
    (writer_close_requested s) (stdout_finished s) (stdout_without_exit_deadline s) (stderr_finished s)
    (process_exit s) (process_exit_deadline s) new (dispatched_client_frames s) (written_client_frames s)
    (written_client_bytes s) (exit_report s) (workers s) (schedule s).
Definition set_dispatched (new : Z) s : Session :=
  mkProcessSession (process_limits s) (session_proxy s) (interception s) (session_events s)
    (initialization s) (lifecycle s) (initialization_deadline s) (runtime_deadline s)
    (session_observed_time s) (writer_tx s) (process_tx s) (handles s) (writer_outstanding s)
    (writer_close_requested s) (stdout_finished s) (stdout_without_exit_deadline s) (stderr_finished s)
    (process_exit s) (process_exit_deadline s) (requested_outcome s) new (written_client_frames s)
    (written_client_bytes s) (exit_report s) (workers s) (schedule s).
Definition set_written_frames (new : Z) s : Session :=
  mkProcessSession (process_limits s) (session_proxy s) (interception s) (session_events s)
    (initialization s) (lifecycle s) (initialization_deadline s) (runtime_deadline s)
    (session_observed_time s) (writer_tx s) (process_tx s) (handles s) (writer_outstanding s)
    (writer_close_requested s) (stdout_finished s) (stdout_without_exit_deadline s) (stderr_finished s)
    (process_exit s) (process_exit_deadline s) (requested_outcome s) (dispatched_client_frames s) new
    (written_client_bytes s) (exit_report s) (workers s) (schedule s).
Definition set_written_bytes (new : Z) s : Session :=
  mkProcessSession (process_limits s) (session_proxy s) (interception s) (session_events s)
    (initialization s) (lifecycle s) (initialization_deadline s) (runtime_deadline s)
    (session_observed_time s) (writer_tx s) (process_tx s) (handles s) (writer_outstanding s)
    (writer_close_requested s) (stdout_finished s) (stdout_without_exit_deadline s) (stderr_finished s)
    (process_exit s) (process_exit_deadline s) (requested_outcome s) (dispatched_client_frames s)
    (written_client_frames s) new (exit_report s) (workers s) (schedule s).
Definition set_report (new : option AppServerProcessExitReport) s : Session :=
  mkProcessSession (process_limits s) (session_proxy s) (interception s) (session_events s)
    (initialization s) (lifecycle s) (initialization_deadline s) (runtime_deadline s)
    (session_observed_time s) (writer_tx s) (process_tx s) (handles s) (writer_outstanding s)
    (writer_close_requested s) (stdout_finished s) (stdout_without_exit_deadline s) (stderr_finished s)
    (process_exit s) (process_exit_deadline s) (requested_outcome s) (dispatched_client_frames s)
    (written_client_frames s) (written_client_bytes s) new (workers s) (schedule s).
Definition set_workers (new : Workers) s : Session :=
  mkProcessSession (process_limits s) (session_proxy s) (interception s) (session_events s)
    (initialization s) (lifecycle s) (initialization_deadline s) (runtime_deadline s)
    (session_observed_time s) (writer_tx s) (process_tx s) (handles s) (writer_outstanding s)
    (writer_close_requested s) (stdout_finished s) (stdout_without_exit_deadline s) (stderr_finished s)
    (process_exit s) (process_exit_deadline s) (requested_outcome s) (dispatched_client_frames s)
    (written_client_frames s) (written_client_bytes s) (exit_report s) new (schedule s).
Definition set_schedule (new : list (list WorkerAction)) s : Session :=
  mkProcessSession (process_limits s) (session_proxy s) (interception s) (session_events s)
    (initialization s) (lifecycle s) (initialization_deadline s) (runtime_deadline s)
    (session_observed_time s) (writer_tx s) (process_tx s) (handles s) (writer_outstanding s)
    (writer_close_requested s) (stdout_finished s) (stdout_without_exit_deadline s) (stderr_finished s)
    (process_exit s) (process_exit_deadline s) (requested_outcome s) (dispatched_client_frames s)
    (written_client_frames s) (written_client_bytes s) (exit_report s) (workers s) new.
End Updates.


(** ** Channels and workers *)

Section Session.
Context {JsonError : Type}.
Context (json_stream : bytes → json_tree (JsonError := JsonError) * option JsonError)
        (json_custom : JsonError).
Context `{HS : Sha256} `{Alloc : Allocator} (instant_max : Z).
Abbreviation Error := (AppServerProcessError JsonError).
Abbreviation method := (mut AppServerProcessSession Error).
Implicit Type s : AppServerProcessSession.

Definition max_line s : Z := line_bytes (proxy_limits (session_proxy s)).

(** What the workers do for a while. *)
Definition run_workers (actions : list WorkerAction) s : AppServerProcessSession :=
  set_workers (fold_left (λ w action, worker_step (max_line s) action w) actions (workers s)) s.

(** The workers advance before the session uses a channel. *)
Definition interleave : method unit := λ s,
  match schedule s with
  | [] => (Ok tt, s)
  | actions :: rest => (Ok tt, run_workers actions (set_schedule rest s))
  end.

Definition set_writer_link (l : WriterLink) s : AppServerProcessSession :=
  set_workers (mkWorkers l (reader_link (workers s)) (stderr_link (workers s)) (process_link (workers s))) s.
Definition set_reader_link (l : ReaderLink) s : AppServerProcessSession :=
  set_workers (mkWorkers (writer_link (workers s)) l (stderr_link (workers s)) (process_link (workers s))) s.
Definition set_stderr_link (l : StderrLink) s : AppServerProcessSession :=
  set_workers (mkWorkers (writer_link (workers s)) (reader_link (workers s)) l (process_link (workers s))) s.
Definition set_process_link (l : ProcessLink) s : AppServerProcessSession :=
  set_workers (mkWorkers (writer_link (workers s)) (reader_link (workers s)) (stderr_link (workers s)) l) s.

Definition writer_recv : method (result WriterEvent TryRecvError) :=
  do* interleave in
  λ s, let l := writer_link (workers s) in
       let (r, events) := try_recv (writer_events l) in
       (Ok r, set_writer_link (with_writer_events events l) s).
Definition reader_recv : method (result ReaderEvent TryRecvError) :=
  do* interleave in
  λ s, let l := reader_link (workers s) in
       let (r, events) := try_recv (reader_events l) in
       (Ok r, set_reader_link (with_reader_events events l) s).
Definition stderr_recv : method (result StderrEvent TryRecvError) :=
  do* interleave in
  λ s, let l := stderr_link (workers s) in
       let (r, events) := try_recv (stderr_events l) in
       (Ok r, set_stderr_link (mkStderrLink events (stderr_state l) (stderr_bytes l)) s).
Definition process_recv : method (result ProcessEvent TryRecvError) :=
  do* interleave in
  λ s, let l := process_link (workers s) in
       let (r, events) := try_recv (process_events l) in
       (Ok r, set_process_link (mkProcessLink (process_commands l) events (process_state l) (shared_child l)
                                  (kill_requested l)) s).
Definition writer_try_send (command : WriterCommand) : method (result unit TrySendError) :=
  do* interleave in
  λ s, let l := writer_link (workers s) in
       let (r, commands) := try_send (writer_commands l) command in
       (Ok r, set_writer_link (with_writer_commands commands l) s).

(** Dropping the senders the session holds. *)
Definition drop_writer_tx s : AppServerProcessSession :=
  let l := writer_link (workers s) in
  if writer_tx s then
    set_writer_tx false (set_writer_link (with_writer_commands (drop_sender (writer_commands l)) l) s)
  else s.
Definition drop_process_tx s : AppServerProcessSession :=
  let l := process_link (workers s) in
  if process_tx s then
    set_process_tx false
      (set_process_link (mkProcessLink (drop_sender (process_commands l)) (process_events l) (process_state l)
                           (shared_child l) (kill_requested l)) s)
  else s.

Definition process_counter_increment (value : Z) : result Z Error :=
  ok_or (checked_add u64_max value 1) Process_DiagnosticCounterOverflow.
Definition process_counter_add (value increment : Z) : result Z Error :=
  ok_or (checked_add u64_max value increment) Process_DiagnosticCounterOverflow.
Definition usize_increment (value : Z) : result Z Error :=
  ok_or (checked_add usize_max value 1) Process_DiagnosticCounterOverflow.

(** ** Shutting down *)

Definition begin_termination (outcome : AppServerProcessOutcome) s : AppServerProcessSession :=
  if is_exited (lifecycle s) then s
  else
    let s := match requested_outcome s with
             | None => set_requested (Some outcome) s
             | Some _ => s
             end in
    let s := drop_writer_tx (set_close_requested true (set_lifecycle Terminating s)) in
    if process_tx s then
      set_process_link (request_process_termination (process_link (workers s))) s
    else s.

Definition update (f : AppServerProcessSession → AppServerProcessSession) : method unit := λ s, (Ok tt, f s).

Definition terminate_with {A} (outcome : AppServerProcessOutcome) (error : Error) : method A :=
  do* update (begin_termination outcome) in mut_lift (Err error).

(** A method of the proxy; a method of the journal whose failure ends the session. *)
Definition on_proxy {A} (m : mut TransparentAppServerProxy (AppServerProxyError JsonError) A) : method A := λ s,
  let (r, p) := m (session_proxy s) in (map_err Process_Proxy r, set_proxy p s).
Definition record (m : mut AppServerSessionEventJournal AppServerControlError unit) : method unit := λ s,
  let (r, j) := m (session_events s) in
  match r with
  | Ok _ => (Ok tt, set_journal j s)
  | Err error => terminate_with ObservationFailure (Process_Control error) (set_journal j s)
  end.

Definition ensure_monotonic (now : Z) s : result unit Error :=
  reject (now <? session_observed_time s) Process_NonMonotonicClock.

(** ** The caller's traffic *)

Definition method_is (o : AppServerMessageObservation) (name : string) : bool :=
  bool_decide (observed_method o = Some (lit name)).

(** The state after a client message, when the order of initialization permits it. *)
Definition client_initialization_after (initialization : InitializationState)
    (o : AppServerMessageObservation) : option InitializationState :=
  match initialization with
  | AwaitingInitialize =>
    if bool_decide (observed_kind o = Request) && method_is o "initialize"
    then InitializeQueued <$> observed_request_id o else None
  | AwaitingInitialized =>
    if bool_decide (observed_kind o = Notification) && method_is o "initialized"
    then Some InitializedQueued else None
  | Ready => if negb (method_is o "initialize" || method_is o "initialized") then Some Ready else None
  | _ => None
  end.

(** Blocked, recorded and ended. *)
Definition block (o : AppServerMessageObservation) (rule : AppServerInterceptRuleId) {A} : method A :=
  do* record (record_blocked o rule) in
  terminate_with InterceptionBlocked (Process_InterceptionBlocked rule).

Definition send_client (json_line : bytes) : method AppServerMessageObservation := λ s,
  if negb (is_running (lifecycle s)) then (Err Process_NotRunning, s)
  else
    match prepare json_stream json_custom (session_proxy s) ClientToServer json_line with
    | Err error => (Err (Process_Proxy error), s)
    | Ok candidate =>
      let o := candidate_observation candidate in
      match client_initialization_after (initialization s) o with
      | None => terminate_with ProtocolFailure Process_InitializationSequenceViolation s
      | Some next =>
        match evaluate (interception s) o with
        | Decision_Block rule => block o rule s
        | Decision_Forward =>
          (let* observation := on_proxy (admit_proxy candidate) in
           do* record (record_accepted observation) in
           do* update (set_initialization next) in
           mut_ret observation) s
        end
      end
    end.

Definition observe_client_delivery (frame : AppServerProxyFrame) : method unit := λ s,
  match initialization s with
  | InitializeResponseQueued expected_id =>
    let o := frame_observation frame in
    if bool_decide (observed_kind o = SuccessResponse) && bool_decide (observed_request_id o = Some expected_id)
    then (Ok tt, set_initialization AwaitingInitialized s)
    else if bool_decide (observed_kind o = Notification) then (Ok tt, s)
    else terminate_with ProtocolFailure Process_UnexpectedServerInitializationMessage s
  | _ => (Ok tt, s)
  end.

Definition next_for_client (now : Z) : method (option AppServerProxyFrame) :=
  let* s := mut_get in
  do* mut_lift (ensure_monotonic now s) in
  if is_exited (lifecycle s) then
    do* update (set_session_time now) in mut_ret None
  else
    let* frame := on_proxy (release instant_max ServerToClient now) in
    do* match frame with
        | Some frame =>
          do* record (record_forwarded (frame_observation frame)) in
          observe_client_delivery frame
        | None => mut_ret tt
        end in
    do* update (set_session_time now) in
    mut_ret frame.

Definition shutdown (mode : AppServerShutdownMode) (now : Z) : method unit :=
  let* s := mut_get in
  do* mut_lift (ensure_monotonic now s) in
  if is_exited (lifecycle s) then update (set_session_time now)
  else
    do* match mode with
        | Mode_Graceful =>
          if is_running (lifecycle s) then
            let* deadline := mut_lift (ok_or (instant_checked_add instant_max now
                                                (shutdown_timeout (process_limits s)))
                                         Process_DeadlineOverflow) in
            update (set_lifecycle (GracefulShutdown deadline))
          else mut_ret tt
        | Mode_Immediate => update (begin_termination ForcedShutdown)
        end in
    update (set_session_time now).

Definition state s : AppServerProcessState :=
  match lifecycle s with
  | GracefulShutdown _ | Terminating => State_ShuttingDown
  | Exited => State_Exited
  | Running =>
    match initialization s with
    | AwaitingInitialize => State_Initializing Phase_AwaitingInitialize
    | InitializeQueued _ => State_Initializing Phase_InitializeQueued
    | AwaitingInitializeResponse _ => State_Initializing Phase_AwaitingInitializeResponse
    | InitializeResponseQueued _ => State_Initializing Phase_InitializeResponseQueued
    | AwaitingInitialized => State_Initializing Phase_AwaitingInitialized
    | InitializedQueued => State_Initializing Phase_InitializedQueued
    | Ready => State_Ready
    end
  end.

Definition process_diagnostics s : AppServerProcessDiagnostics :=
  mkProcessDiagnostics (state s) (diagnostics (session_proxy s)) (event_diagnostics (session_events s))
    (dispatched_client_frames s) (written_client_frames s) (written_client_bytes s) (writer_outstanding s)
    (stdout_bytes (reader_link (workers s))) (stderr_bytes (stderr_link (workers s))).

Definition next_session_event s : option AppServerSessionEvent * AppServerProcessSession :=
  let (event, j) := next_event (session_events s) in (event, set_journal j s).

(** ** One poll *)

Definition set_poll_written (n : Z) (p : AppServerProcessPoll) : AppServerProcessPoll :=
  mkPoll (poll_server_messages p) (poll_dispatched_client_frames p) n (poll_expired_requests p).
Definition set_poll_server (n : Z) (p : AppServerProcessPoll) : AppServerProcessPoll :=
  mkPoll n (poll_dispatched_client_frames p) (poll_written_client_frames p) (poll_expired_requests p).
Definition set_poll_dispatched (n : Z) (p : AppServerProcessPoll) : AppServerProcessPoll :=
  mkPoll (poll_server_messages p) n (poll_written_client_frames p) (poll_expired_requests p).
Definition set_poll_expired (n : Z) (p : AppServerProcessPoll) : AppServerProcessPoll :=
  mkPoll (poll_server_messages p) (poll_dispatched_client_frames p) (poll_written_client_frames p) n.

Definition consume_process_event (now : Z) : method unit :=
  let* s := mut_get in
  match process_exit s with
  | Some _ => mut_ret tt
  | None =>
    let* event := process_recv in
    match event with
    | Ok (Process_Exited exit) =>
      do* update (set_exit (Some exit)) in
      do* update (set_stdout_deadline None) in
      match instant_checked_add instant_max now (exit_drain_timeout (process_limits s)) with
      | Some deadline => update (set_exit_deadline (Some deadline))
      | None =>
        do* update (set_exit_deadline (Some now)) in mut_lift (Err Process_DeadlineOverflow)
      end
    | Ok (Process_Failed kind) => terminate_with TransportFailure (Process_WorkerIo (lit "process") kind)
    | Err Recv_Empty => mut_ret tt
    | Err Recv_Disconnected => terminate_with TransportFailure (Process_WorkerDisconnected (lit "process"))
    end
  end.

(** The acknowledgement of one frame. *)
Definition acknowledge (bytes : Z) (progress : AppServerProcessPoll) : method AppServerProcessPoll :=
  let* s := mut_get in
  let* outstanding := mut_lift (ok_or (checked_sub (writer_outstanding s) 1) Process_DiagnosticCounterOverflow) in
  do* update (set_outstanding outstanding) in
  let* frames := mut_lift (process_counter_increment (written_client_frames s)) in
  do* update (set_written_frames frames) in
  let* total := mut_lift (process_counter_add (written_client_bytes s) bytes) in
  do* update (set_written_bytes total) in
  let* written := mut_lift (usize_increment (poll_written_client_frames progress)) in
  mut_ret (set_poll_written written progress).

(** The loops run at most [poll_events] times. *)
Fixpoint consume_writer_events (n : nat) (progress : AppServerProcessPoll) : method AppServerProcessPoll :=
  match n with
  | O => mut_ret progress
  | S n =>
    let* event := writer_recv in
    match event with
    | Ok (Writer_Written bytes) =>
      let* progress := acknowledge bytes progress in consume_writer_events n progress
    | Ok Writer_Closed => do* update (set_close_requested true) in mut_ret progress
    | Ok (Writer_Failed kind) =>
      do* update (set_close_requested true) in
      let* s := mut_get in
      match process_exit s with
      | Some _ => mut_ret progress
      | None => terminate_with TransportFailure (Process_WorkerIo (lit "stdin") kind)
      end
    | Err Recv_Empty => mut_ret progress
    | Err Recv_Disconnected =>
      let* s := mut_get in
      if writer_close_requested s then mut_ret progress
      else terminate_with TransportFailure (Process_WorkerDisconnected (lit "stdin"))
    end
  end.

Definition consume_stderr_event : method unit :=
  let* s := mut_get in
  if stderr_finished s then mut_ret tt
  else
    let* event := stderr_recv in
    match event with
    | Ok Stderr_Eof => update (set_stderr_finished true)
    | Ok (Stderr_Failed kind) =>
      do* update (set_stderr_finished true) in
      terminate_with TransportFailure (Process_WorkerIo (lit "stderr") kind)
    | Err Recv_Empty => mut_ret tt
    | Err Recv_Disconnected =>
      do* update (set_stderr_finished true) in
      terminate_with TransportFailure (Process_WorkerDisconnected (lit "stderr"))
    end.

Definition server_initialization_after (o : AppServerMessageObservation) s : result InitializationState Error :=
  if is_ready (initialization s) || is_terminating (lifecycle s) then Ok (initialization s)
  else
    match observed_kind o with
    | Notification => Ok (initialization s)
    | kind =>
      match initialization s with
      | AwaitingInitializeResponse expected_id =>
        if bool_decide (observed_request_id o = Some expected_id) then
          match kind with
          | SuccessResponse => Ok (InitializeResponseQueued expected_id)
          | ErrorResponse => Err Process_InitializeRejected
          | Request | Notification => Err Process_UnexpectedServerInitializationMessage
          end
        else Err Process_UnexpectedServerInitializationMessage
      | _ => Err Process_UnexpectedServerInitializationMessage
      end
    end.

(** One complete stdout line. *)
Definition receive_line (line : bytes) : method unit := λ s,
  match prepare json_stream json_custom (session_proxy s) ServerToClient line with
  | Err error => terminate_with ProtocolFailure (Process_Proxy error) s
  | Ok candidate =>
    let o := candidate_observation candidate in
    match server_initialization_after o s with
    | Err error => terminate_with ProtocolFailure error s
    | Ok next_initialization =>
      match evaluate (interception s) o with
      | Decision_Block rule => block o rule s
      | Decision_Forward =>
        match on_proxy (admit_proxy candidate) s with
        | (Err error, s) => terminate_with ProtocolFailure error s
        | (Ok observation, s) =>
          (do* record (record_accepted observation) in
           update (set_initialization next_initialization)) s
        end
      end
    end
  end.

(** Stdout is over, abnormally. *)
Definition stdout_failed {A} (error : Error) : method A :=
  do* update (set_stdout_finished true) in terminate_with TransportFailure error.

Fixpoint consume_reader_loop (now : Z) (n : nat) (progress : AppServerProcessPoll) : method AppServerProcessPoll :=
  match n with
  | O => mut_ret progress
  | S n =>
    let* event := reader_recv in
    match event with
    | Ok (Reader_Line line) =>
      do* receive_line line in
      let* messages := mut_lift (usize_increment (poll_server_messages progress)) in
      consume_reader_loop now n (set_poll_server messages progress)
    | Ok Reader_Eof =>
      do* update (set_stdout_finished true) in
      let* s := mut_get in
      match instant_checked_add instant_max now (exit_drain_timeout (process_limits s)) with
      | None => terminate_with TransportFailure Process_DeadlineOverflow
      | Some deadline => do* update (set_stdout_deadline (Some deadline)) in mut_ret progress
      end
    | Ok Reader_LineTooLarge => stdout_failed Process_StdoutLineTooLarge
    | Ok Reader_UnterminatedLine => stdout_failed Process_UnterminatedStdoutLine
    | Ok Reader_AllocationFailed => stdout_failed Process_StdoutAllocationFailed
    | Ok (Reader_Failed kind) => stdout_failed (Process_WorkerIo (lit "stdout") kind)
    | Err Recv_Empty => mut_ret progress
    | Err Recv_Disconnected =>
      let* s := mut_get in
      if stdout_finished s then mut_ret progress
      else stdout_failed (Process_WorkerDisconnected (lit "stdout"))
    end
  end.

Definition consume_reader_events (now : Z) (progress : AppServerProcessPoll) : method AppServerProcessPoll :=
  let* s := mut_get in
  if stdout_finished s then mut_ret progress
  else consume_reader_loop now (Z.to_nat (poll_events (process_limits s))) progress.

Definition advance_stream_closure (now : Z) : method unit :=
  let* s := mut_get in
  if bool_decide (process_exit s = None) && (is_running (lifecycle s) || is_graceful (lifecycle s)) &&
     match stdout_without_exit_deadline s with Some deadline => deadline <=? now | None => false end
  then terminate_with TransportFailure Process_StdoutClosedBeforeExit
  else mut_ret tt.

Fixpoint record_expired_requests (expired : list AppServerExpiredRequest) : method unit :=
  match expired with
  | [] => mut_ret tt
  | request :: expired => do* record (record_expired request) in record_expired_requests expired
  end.

(** The expiry of a poll. *)
Definition expire (now : Z) (progress : AppServerProcessPoll) : method AppServerProcessPoll :=
  let* s := mut_get in
  let* expired := if bool_decide (process_exit s = None) && negb (is_terminating (lifecycle s))
                  then on_proxy (expire_requests now) else mut_ret [] in
  do* record_expired_requests expired in
  do* match expired with
      | [] => mut_ret tt
      | _ => update (begin_termination RequestTimeout)
      end in
  mut_ret (set_poll_expired (len expired) progress).

Definition observe_dispatched_frame (frame : AppServerProxyFrame) : method unit := λ s,
  let o := frame_observation frame in
  match initialization s with
  | InitializeQueued request_id =>
    if bool_decide (observed_kind o = Request) && method_is o "initialize" &&
       bool_decide (observed_request_id o = Some request_id)
    then (Ok tt, set_initialization (AwaitingInitializeResponse request_id) s)
    else terminate_with ProtocolFailure Process_InitializationSequenceViolation s
  | InitializedQueued =>
    if bool_decide (observed_kind o = Notification) && method_is o "initialized"
    then (Ok tt, set_initialization Ready s)
    else terminate_with ProtocolFailure Process_InitializationSequenceViolation s
  | Ready => (Ok tt, s)
  | _ => terminate_with ProtocolFailure Process_InitializationSequenceViolation s
  end.

(** A released frame goes to the stdin worker. *)
Definition hand_to_writer (frame : AppServerProxyFrame) : method unit :=
  let* s := mut_get in
  if negb (writer_tx s) then terminate_with TransportFailure (Process_WorkerDisconnected (lit "stdin"))
  else
    let* sent := writer_try_send (Command_Frame frame) in
    match sent with
    | Ok _ => mut_ret tt
    | Err Send_Full => terminate_with TransportFailure (Process_WorkerDisconnected (lit "stdin-capacity"))
    | Err Send_Disconnected => terminate_with TransportFailure (Process_WorkerDisconnected (lit "stdin"))
    end.

Definition dispatch_frame (frame : AppServerProxyFrame) (progress : AppServerProcessPoll) :
    method AppServerProcessPoll :=
  do* record (record_forwarded (frame_observation frame)) in
  do* observe_dispatched_frame frame in
  do* hand_to_writer frame in
  let* s := mut_get in
  let* outstanding := mut_lift (usize_increment (writer_outstanding s)) in
  do* update (set_outstanding outstanding) in
  let* dispatched := mut_lift (process_counter_increment (dispatched_client_frames s)) in
  do* update (set_dispatched dispatched) in
  let* count := mut_lift (usize_increment (poll_dispatched_client_frames progress)) in
  mut_ret (set_poll_dispatched count progress).

(** The [while] loop: each turn dispatches one more frame of this poll, so
    [poll_events] turns reach the bound it tests. *)
Fixpoint dispatch_loop (now : Z) (n : nat) (progress : AppServerProcessPoll) : method AppServerProcessPoll :=
  match n with
  | O => mut_ret progress
  | S n =>
    let* s := mut_get in
    if (writer_outstanding s <? io_queue_messages (process_limits s)) &&
       (poll_dispatched_client_frames progress <? poll_events (process_limits s))
    then
      let* frame := on_proxy (release instant_max ClientToServer now) in
      match frame with
      | None => mut_ret progress
      | Some frame => let* progress := dispatch_frame frame progress in dispatch_loop now n progress
      end
    else mut_ret progress
  end.

Definition dispatch_client_frames (now : Z) (progress : AppServerProcessPoll) : method AppServerProcessPoll :=
  let* s := mut_get in
  if is_terminating (lifecycle s) || is_exited (lifecycle s) || writer_close_requested s then mut_ret progress
  else dispatch_loop now (Z.to_nat (poll_events (process_limits s))) progress.

Definition advance_shutdown (now : Z) : method unit :=
  let* s := mut_get in
  match lifecycle s with
  | GracefulShutdown deadline =>
    if bool_decide (is_Some (process_exit s)) then mut_ret tt
    else if deadline <=? now then update (begin_termination ForcedShutdown)
    else if (queued_to_server_messages (diagnostics (session_proxy s)) =? 0) &&
            (writer_outstanding s =? 0) && negb (writer_close_requested s) then
      if negb (writer_tx s) then terminate_with TransportFailure (Process_WorkerDisconnected (lit "stdin"))
      else
        (* [take]n, and put back when the channel is full; otherwise dropped *)
        let* sent := writer_try_send Command_Close in
        match sent with
        | Ok _ => do* update (set_close_requested true) in update drop_writer_tx
        | Err Send_Full => mut_ret tt
        | Err Send_Disconnected =>
          do* update drop_writer_tx in
          terminate_with TransportFailure (Process_WorkerDisconnected (lit "stdin"))
        end
    else mut_ret tt
  | _ => mut_ret tt
  end.

Definition advance_deadlines (now : Z) s : AppServerProcessSession :=
  if negb (is_running (lifecycle s)) || bool_decide (is_Some (process_exit s)) then s
  else if negb (is_ready (initialization s)) && (initialization_deadline s <=? now)
  then begin_termination InitializationTimeout s
  else if runtime_deadline s <=? now then begin_termination RuntimeTimeout s
  else s.

(** The terminal classification of an exit. *)
Definition exit_outcome (exit : ProcessExit) (drained : bool) s : AppServerProcessOutcome :=
  let outcome :=
    match requested_outcome s with
    | Some outcome => outcome
    | None =>
      if is_graceful (lifecycle s) && exit_success exit then CleanShutdown
      else if exit_success exit then UnexpectedExit else Crash
    end in
  if negb drained && bool_decide (outcome = CleanShutdown ∨ outcome = UnexpectedExit)
  then TransportFailure else outcome.

Definition close_session (exit : ProcessExit) (drained : bool) s : AppServerProcessSession :=
  let outcome := exit_outcome exit drained s in
  let initialized := is_ready (initialization s) in
  let (proxy, close) := close_proxy (session_proxy s) in
  let s := set_journal (clear_correlations (session_events s)) (set_proxy proxy s) in
  let s := set_initialization AwaitingInitialize s in
  let s := set_reader_link (with_reader_events (drop_receiver (reader_events (reader_link (workers s))))
                              (reader_link (workers s))) s in
  let s := set_report (Some (mkExitReport outcome (exit_status_code exit) initialized
             (stdout_bytes (reader_link (workers s))) (stderr_bytes (stderr_link (workers s)))
             drained (writer_outstanding s) close)) s in
  drop_process_tx (drop_writer_tx (set_lifecycle Exited s)).

Definition finish_process_exit (now : Z) : method unit :=
  let* s := mut_get in
  match process_exit s with
  | None => mut_ret tt
  | Some exit =>
    let drain_expired := match process_exit_deadline s with Some deadline => deadline <=? now | None => false end in
    let drained := stdout_finished s && stderr_finished s in
    if negb drained && negb drain_expired then mut_ret tt
    else do* interleave in update (close_session exit drained)
  end.

(** Joins happen only when the thread is over, so they do not wait. *)
Definition join_finished_workers s : AppServerProcessSession :=
  let w := workers s in
  let h := handles s in
  set_handles (mkWorkerHandles
    (writer_handle h && match writer_state (writer_link w) with WriterWorker_Done => false | _ => true end)
    (reader_handle h && match reader_state (reader_link w) with ReaderWorker_Done => false | _ => true end)
    (stderr_handle h && match stderr_state (stderr_link w) with StderrWorker_Done => false | _ => true end)
    (process_handle h && match process_state (process_link w) with ProcessWorker_Done => false | _ => true end)) s.

Definition poll (now : Z) : method AppServerProcessPoll :=
  let* s := mut_get in
  do* mut_lift (ensure_monotonic now s) in
  do* update (set_session_time now) in
  if is_exited (lifecycle s) then mut_ret poll_default
  else
    do* consume_process_event now in
    let* progress := consume_writer_events (Z.to_nat (poll_events (process_limits s))) poll_default in
    do* consume_stderr_event in
    let* progress := consume_reader_events now progress in
    do* advance_stream_closure now in
    let* progress := expire now progress in
    let* progress := dispatch_client_frames now progress in
    do* advance_shutdown now in
    do* update (advance_deadlines now) in
    do* finish_process_exit now in
    do* update join_finished_workers in
    mut_ret progress.

(** ** Construction and destruction *)

(** The streams of a [Child] that are piped. *)
Record Child : Type := mkChild { child_stdin : bool; child_stdout : bool; child_stderr : bool }.

(** What became of a child that was handed over: killed and waited for at once,
    or owned by a process worker. *)
Inductive ChildFate : Type := Fate_Terminated | Fate_Owned (l : ProcessLink).

Definition process_deadlines (limits : AppServerProcessLimits) (now : Z) : result (Z * Z) Error :=
  let? initialization := ok_or (instant_checked_add instant_max now (initialization_timeout limits))
                           Process_DeadlineOverflow in
  let? runtime := ok_or (instant_checked_add instant_max now (runtime_timeout limits)) Process_DeadlineOverflow in
  Ok (initialization, runtime).

Definition take_piped_stdio (child : Child) : result unit Error :=
  reject (negb (child_stdin child && child_stdout child && child_stderr child)) Process_MissingPipedStdio.

Definition process_link_new : ProcessLink :=
  mkProcessLink (sync_channel 1) (sync_channel 1) ProcessWorker_Waiting true false.

(** An early return after the process worker started: termination is requested
    and the command sender dropped. *)
Definition abandoned_process_link : ProcessLink :=
  let l := request_process_termination process_link_new in
  mkProcessLink (drop_sender (process_commands l)) (process_events l) (process_state l) (shared_child l)
    (kill_requested l).

(** [thread::Builder::spawn] by the name of the thread. *)
Definition spawn_worker (spawn : str → option ErrorKind) (name : str) : result unit Error :=
  match spawn name with None => Ok tt | Some kind => Err (Process_WorkerSpawn name kind) end.

Definition attach_unverified_child_with_controls (spawn : str → option ErrorKind) (child : Child)
    (proxy_limits : AppServerProxyLimits) (limits : AppServerProcessLimits) (controls : AppServerProcessControls)
    (identity : JournalIdentity) (now : Z) (plan : list (list WorkerAction)) :
    result AppServerProcessSession Error * ChildFate :=
  match process_deadlines limits now with
  | Err error => (Err error, Fate_Terminated)
  | Ok (initialization, runtime) =>
    match take_piped_stdio child with
    | Err error => (Err error, Fate_Terminated)
    | Ok _ =>
      match spawn (lit "weregopher-app-server-process") with
      | Some kind => (Err (Process_WorkerSpawn (lit "process") kind), Fate_Terminated)
      | None =>
        match (do? spawn_worker spawn (lit "weregopher-app-server-stdin") in
               do? spawn_worker spawn (lit "weregopher-app-server-stdout") in
               spawn_worker spawn (lit "weregopher-app-server-stderr")) with
        | Err error => (Err error, Fate_Owned abandoned_process_link)
        | Ok _ =>
          (Ok (mkProcessSession limits (proxy_new proxy_limits) (controls_interception controls)
                 (journal_new (controls_event_limits controls) identity) AwaitingInitialize Running
                 initialization runtime now true true (mkWorkerHandles true true true true)
                 0 false false None false None None None 0 0 0 None
                 (workers_new (io_queue_messages limits)) plan),
           Fate_Owned process_link_new)
        end
      end
    end
  end.

Definition attach_unverified_child (spawn : str → option ErrorKind) (child : Child)
    (proxy_limits : AppServerProxyLimits) (limits : AppServerProcessLimits) (identity : JournalIdentity)
    (now : Z) (plan : list (list WorkerAction)) : result AppServerProcessSession Error * ChildFate :=
  attach_unverified_child_with_controls spawn child proxy_limits limits controls_initial identity now plan.

(** [Drop]. *)
Definition drop_session s : AppServerProcessSession :=
  let s := set_proxy (close_proxy (session_proxy s)).1 s in
  let s := drop_writer_tx (set_journal (clear_correlations (session_events s)) s) in
  let s := if process_tx s
           then drop_process_tx (set_process_link (request_process_termination (process_link (workers s))) s)
           else s in
  join_finished_workers s.
End Session.
