(* ===== verification/ProcessSessionLaws.v ===== *)
(** * ProcessSessionLaws: the session as its workers and callers see it

    The invariant of an attached app-server process session under every
    interleaving with its workers: the initialization order and the exact bytes
    that reach the child, the accounting of the stdin worker, the observer beside
    the proxy, and termination. *)

From S2P Require Import Prelude ProxyMessage Proxy Controls ControlsLaws ProcessWorkers ProcessSession.

(** ** What the session needs of the proxy and of the journal *)

Section Pieces.
Context {JsonError : Type}.
Context (json_stream : bytes → json_tree (JsonError := JsonError) * option JsonError)
        (json_custom : JsonError).
Context `{HS : Sha256} (instant_max : Z).
Context `{Known : Identities} (Hst : session_stream json_stream json_custom) (Hcf : digests_distinct) (Hkf : keys_distinct).
Abbreviation prepare := (prepare json_stream json_custom).
Abbreviation perform := (perform json_stream json_custom instant_max).
Abbreviation release := (release (JsonError := JsonError) instant_max).
Abbreviation admit_proxy := (admit_proxy (JsonError := JsonError)).
Abbreviation expire_requests := (expire_requests (JsonError := JsonError)).

(** The journal beside a proxy, until its sequence numbers are exhausted. *)
Definition observer_ok (p : TransparentAppServerProxy) (j : AppServerSessionEventJournal) : Prop :=
  journal_ok j ∧ last_sequence j <= u64_max ∧ (last_sequence j < u64_max → follows p j).

(** A record call on the journal of a proxy that becomes [p']: it succeeds, or
    there is no sequence number left. *)
Definition noted (p' : TransparentAppServerProxy)
    (r : result unit AppServerControlError * AppServerSessionEventJournal) : Prop :=
  observer_ok p' r.2 ∧ (r.1 = Ok tt ∨ r.1 = Err Control_EventSequenceOverflow ∧ last_sequence r.2 = u64_max).

Lemma observer_ok_same p p' j : same_requests p p' → observer_ok p j → observer_ok p' j.
Proof. intros Hs (H1 & H2 & H3). split_and!; [done|done|]. intros H. eapply follows_same; [done|auto]. Qed.

Lemma observer_exhausted p p' j : observer_ok p j → last_sequence j = u64_max → observer_ok p' j.
Proof. intros (H1 & H2 & H3) Heq. split_and!; [done|done|lia]. Qed.

Lemma preflight_exhausted j : last_sequence j = u64_max → preflight_event_sequence j = Err Control_EventSequenceOverflow.
Proof.
  intros H. unfold preflight_event_sequence.
  destruct (checked_add u64_max (last_sequence j) 1) eqn:E; [|done]. apply checked_add_Some in E as [_ E]. lia.
Qed.

Lemma recorded_noted p p' j r :
  observer_ok p j → recorded p' j r → last_sequence j < u64_max → noted p' r.
Proof.
  intros (Hok & _ & _) Hr Hlt. destruct (recorded_records _ _ _ Hok Hr) as (H1 & H2 & H3%records_last).
  split; [|by left]. split_and!; [apply H2|lia|done].
Qed.

(** One record call of the proxy's outcomes. *)
Lemma observe_noted p op j :
  proxy_ok p → operation_ok json_stream json_custom op → observer_ok p j → events_of (perform op p).1 = 1 →
  last_sequence j < u64_max →
  noted (perform op p).2 (observe (perform op p).1 j).
Proof.
  intros Hp Hop (Hok & Hle & Hf) Hone Hlt.
  destruct (observe_run json_stream json_custom instant_max p op j Hst Hcf Hkf Hp Hop (Hf Hlt)) as (H1 & H2 & H3); [lia|].
  apply records_last in H3. split; [|by left]. split_and!; [apply H2|lia|done].
Qed.

Lemma exhausted_noted p p' j o :
  observer_ok p j → last_sequence j = u64_max → (∃ bs, message_ok o bs) →
  noted p' (record_accepted o j) ∧ noted p' (record_forwarded o j) ∧ ∀ rule, noted p' (record_blocked o rule j).
Proof.
  intros Ho Hl [bs Hm]. destruct (fingerprint_run o bs Hm) as [m Em].
  assert (Hx : ∀ k : Z → journal_method unit, noted p' ((let* sequence := mut_lift (preflight_event_sequence j) in k sequence) j)).
  { intros k. unfold mut_bind, mut_lift. rewrite (preflight_exhausted _ Hl). split; [by eapply observer_exhausted|by right]. }
  unfold record_accepted, record_forwarded, record_blocked.
  split_and!; [| |intros rule]; unfold mut_bind at 1, mut_lift at 1; rewrite Em; unfold mut_bind at 1, mut_get; apply Hx.
Qed.

Lemma blocked_noted p j o bs rule :
  observer_ok p j → message_ok o bs → noted p (record_blocked o rule j).
Proof.
  intros Ho Hm. pose proof Ho as (Hok & Hle & Hf). destruct (Z.eq_dec (last_sequence j) u64_max) as [He|Hne].
  - by apply (exhausted_noted p p j o Ho He (ex_intro _ bs Hm)).
  - assert (Hlt : last_sequence j < u64_max) by lia. eapply recorded_noted; [done| |done].
    eapply record_blocked_run; [by apply Hf|done|done].
Qed.

(** What an operation of the proxy leaves alone. *)
Record same_session (p p' : TransparentAppServerProxy) : Prop := {
  same_limits : proxy_limits p' = proxy_limits p;
  same_state : proxy_state p' = proxy_state p
}.

Lemma retires_session p l p1 : retires p l p1 → proxy_limits p1 = proxy_limits p ∧ proxy_state p1 = proxy_state p.
Proof. induction 1 as [|p d i dl l p' _ _ [-> ->]]; [done|]. by destruct p, d. Qed.

Lemma correlated_limits p o p1 : correlated p o p1 → proxy_limits p1 = proxy_limits p ∧ proxy_state p1 = proxy_state p.
Proof. intros []; by destruct p, (observed_direction o). Qed.

Lemma admit_returns c p o p' : admit_proxy c p = (Ok o, p') → o = candidate_observation c.
Proof. intros H. unfold Proxy.admit_proxy, admit_candidate in H. inv_mut. done. Qed.

Lemma admit_step p d line c :
  proxy_ok p → prepare p d line = Ok c →
  match admit_proxy c p with
  | (Ok o, p') =>
    o = candidate_observation c ∧ message_ok o line ∧ observed_direction o = d ∧
    proxy_ok p' ∧ same_session p p' ∧ proxy_state p = Open ∧
    frames (queue p' d) = frames (queue p d) ++ [mkFrame o line] ∧
    frames (queue p' (opposite d)) = frames (queue p (opposite d)) ∧
    ∀ j, observer_ok p j → noted p' (record_accepted o j)
  | (Err e, p') => benign e ∧ p' = p
  end.
Proof.
  intros Hp Hc. assert (Hop : operation_ok json_stream json_custom (Op_Admit c)) by (by exists p, d, line).
  pose proof (prepare_Ok _ _ _ _ _ _ Hst Hc) as (Hline & Hd & Hm).
  pose proof (perform_spec json_stream json_custom instant_max p (Op_Admit c) Hst Hcf Hp Hop) as Ht.
  pose proof (transition_ok _ _ _ _ Hcf Hp Ht) as Hp'.
  assert (Hobs : ∀ j, observer_ok p j → events_of (perform (Op_Admit c) p).1 = 1 → last_sequence j < u64_max →
    noted (perform (Op_Admit c) p).2 (observe (perform (Op_Admit c) p).1 j)) by (intros; by apply observe_noted).
  cbn [Proxy.perform] in *. destruct (admit_proxy c p) as [[o|e] p'] eqn:E; cbn [fst snd outcome_of] in *.
  2: { inversion Ht; subst. done. }
  apply admit_returns in E as ->. rewrite Hline in *. clear Hline.
  assert (Hd' : Some (observed_direction (candidate_observation c)) = Some d) by (by rewrite Hd). clear Hd.
  inversion Ht as [|op' f d' u p1 cs _ Hopen Hdir Hmf Hcap Hcor Hcnt| | | |]; subst.
  cbn [frame_observation frame_json_bytes] in *. injection Hd' as Hd. rewrite Hd in *.
  pose proof (correlated_limits _ _ _ Hcor) as [Hl1 Hs1].
  split_and!; [done|done|done|done| |done| | |].
  - destruct (admin_state p1 0 cs d (push_after_capacity_check (queue p d) (mkFrame (candidate_observation c) line)) ∅) as (E1 & _ & E2 & _).
    split; [destruct p1, d; cbn in *; congruence|]. by destruct p1, d; cbn in *.
  - rewrite set_counters_queue, queue_mut_queue, decide_True by done. done.
  - rewrite set_counters_queue, queue_mut_queue, decide_False by (by destruct d). by rewrite (proj1 (correlated_same _ _ _ _ Hcor)).
  - intros j Hj. destruct (Z.eq_dec (last_sequence j) u64_max) as [He|Hne].
    + by apply (exhausted_noted p _ j _ Hj He (ex_intro _ line Hm)).
    + apply (Hobs j Hj eq_refl). destruct Hj as (_ & ? & _). lia.
Qed.

Lemma release_step p d now :
  proxy_ok p →
  match release d now p with
  | (Ok None, p') =>
    frames (queue p d) = [] ∧ proxy_ok p' ∧ same_session p p' ∧ (∀ d', queue p' d' = queue p d') ∧
    ∀ j, observer_ok p j → observer_ok p' j
  | (Ok (Some f), p') =>
    (∃ fs, frames (queue p d) = f :: fs ∧ frames (queue p' d) = fs) ∧
    frames (queue p' (opposite d)) = frames (queue p (opposite d)) ∧
    observed_direction (frame_observation f) = d ∧ message_ok (frame_observation f) (frame_json_bytes f) ∧
    proxy_ok p' ∧ same_session p p' ∧
    ∀ j, observer_ok p j → noted p' (record_forwarded (frame_observation f) j)
  | (Err e, p') => benign e ∧ p' = p
  end.
Proof.
  intros Hp. set (op := Op_Release d now). assert (Hop : operation_ok json_stream json_custom op) by done.
  pose proof (perform_spec json_stream json_custom instant_max p op Hst Hcf Hp Hop) as Ht.
  pose proof (transition_ok _ _ _ _ Hcf Hp Ht) as Hp'.
  assert (Hobs : ∀ j, observer_ok p j → events_of (perform op p).1 = 1 → last_sequence j < u64_max →
    noted (perform op p).2 (observe (perform op p).1 j)) by (intros; by apply observe_noted).
  subst op. cbn [Proxy.perform] in *. destruct (release d now p) as [[[f|]|e] p'] eqn:E; cbn [fst snd outcome_of] in *.
  - inversion Ht as [| | |d' now' dl f' fs q cs Hfr Hpop Hcnt| |]; subst.
    pose proof (proxy_directions _ Hp d) as Hdir. pose proof (direction_frames _ _ _ _ _ Hdir) as Hfs. rewrite Hfr in Hfs.
    apply Forall_cons in Hfs as [[Hfd Hm] _].
    destruct (direction_pop (JsonError := JsonError) _ _ _ _ _ _ _ dl Hdir Hfr) as (q' & Hq & Hfq & _). rewrite Hpop in Hq. injection Hq as <-.
    split_and!; [exists fs; split; [done|]| |done|done|done| |].
    + rewrite set_time_queue, set_counters_queue, queue_mut_queue, decide_True by done. done.
    + rewrite set_time_queue, set_counters_queue, queue_mut_queue, decide_False by (by destruct d).
      destruct (frame_request_id f); [by rewrite requests_mut_queue|done].
    + split; by destruct (frame_request_id f), p, d.
    + intros j Hj. destruct (Z.eq_dec (last_sequence j) u64_max) as [He|Hne].
      * by apply (exhausted_noted p _ j _ Hj He (ex_intro _ _ Hm)).
      * apply (Hobs j Hj eq_refl). destruct Hj as (_ & ? & _). lia.
  - inversion Ht as [| |d' now' Hnil| | |]; subst. split_and!; [done|done|by destruct p; split|by intros d'; rewrite set_time_queue|].
    intros j. apply observer_ok_same. apply (same_requests_admin p (to_server p) d (counters p) now).
  - inversion Ht; subst. done.
Qed.

Lemma expire_step p now :
  proxy_ok p →
  match expire_requests now p with
  | (Ok l, p') =>
    proxy_ok p' ∧ same_session p p' ∧ (∀ d, queue p' d = queue p d) ∧
    ∃ p1, retires p l p1 ∧ same_requests p1 p'
  | (Err e, p') => benign e ∧ p' = p
  end.
Proof.
  intros Hp. set (op := Op_Expire now). assert (Hop : operation_ok json_stream json_custom op) by done.
  pose proof (perform_spec json_stream json_custom instant_max p op Hst Hcf Hp Hop) as Ht.
  pose proof (transition_ok _ _ _ _ Hcf Hp Ht) as Hp'.
  subst op. cbn [Proxy.perform] in *. destruct (expire_requests now p) as [[l|e] p'] eqn:E; cbn [fst snd outcome_of] in *.
  - inversion Ht as [| | | |now' l' p1 cs Hret Hcnt|]; subst. pose proof (retires_session _ _ _ Hret) as [H1 H2].
    split_and!; [done|split; by destruct p1| |].
    + intros d. rewrite set_time_queue, set_counters_queue. by apply (retires_same _ _ _ d) in Hret as [-> _].
    + exists p1. split; [done|]. apply (same_requests_admin p1 (to_server p1) ClientToServer cs now).
  - inversion Ht; subst. done.
Qed.

Lemma expired_noted p d i dl j :
  proxy_ok p → observer_ok p j → requests p d !! i = Some (Pending dl) →
  noted (retire_step d i p) (record_expired (mkExpiredRequest d i) j).
Proof.
  intros Hp Ho Hi. pose proof Ho as (Hok & Hle & Hf). destruct (Z.eq_dec (last_sequence j) u64_max) as [He|Hne].
  - unfold record_expired, mut_bind, mut_get, mut_lift. rewrite (preflight_exhausted _ He).
    split; [by eapply observer_exhausted|by right].
  - assert (Hlt : last_sequence j < u64_max) by lia. eapply recorded_noted; [done| |done].
    eapply record_expired_run; [done|done|by apply Hf|done|done].
Qed.
End Pieces.

(** ** Initialization order *)

Definition initialize_frame (i : AppServerRequestId) (f : AppServerProxyFrame) : Prop :=
  observed_kind (frame_observation f) = Request ∧ observed_method (frame_observation f) = Some (lit "initialize") ∧
  observed_request_id (frame_observation f) = Some i.
Definition initialized_frame (f : AppServerProxyFrame) : Prop :=
  observed_kind (frame_observation f) = Notification ∧
  observed_method (frame_observation f) = Some (lit "initialized").
Definition plain_frame (f : AppServerProxyFrame) : Prop :=
  observed_method (frame_observation f) ≠ Some (lit "initialize") ∧
  observed_method (frame_observation f) ≠ Some (lit "initialized").

(** The client got the successful response to [i]. *)
Definition answered (i : AppServerRequestId) (delivered : list AppServerProxyFrame) : Prop :=
  ∃ r, r ∈ delivered ∧ observed_kind (frame_observation r) = SuccessResponse ∧
       observed_request_id (frame_observation r) = Some i.

(** What may have been handed to the stdin worker: nothing; the [initialize]
    request; or that, then [initialized] once the client got the successful
    response, then anything but these two. *)
Inductive handshake_order (delivered : list AppServerProxyFrame) : list AppServerProxyFrame → Prop :=
| order_nothing : handshake_order delivered []
| order_initialize i f : initialize_frame i f → handshake_order delivered [f]
| order_initialized i f g rest :
    initialize_frame i f → answered i delivered → initialized_frame g → Forall plain_frame rest →
    handshake_order delivered (f :: g :: rest).

(** The phase of initialization, the frames handed over and those queued. *)
Definition handshake (initialization : InitializationState) (delivered sent queued : list AppServerProxyFrame) : Prop :=
  match initialization with
  | AwaitingInitialize => sent = [] ∧ queued = []
  | InitializeQueued i => sent = [] ∧ ∃ f, queued = [f] ∧ initialize_frame i f
  | AwaitingInitializeResponse i | InitializeResponseQueued i =>
    queued = [] ∧ ∃ f, sent = [f] ∧ initialize_frame i f
  | AwaitingInitialized => queued = [] ∧ ∃ i f, sent = [f] ∧ initialize_frame i f ∧ answered i delivered
  | InitializedQueued =>
    (∃ g, queued = [g] ∧ initialized_frame g) ∧
    ∃ i f, sent = [f] ∧ initialize_frame i f ∧ answered i delivered
  | Ready =>
    Forall plain_frame queued ∧
    ∃ i f g rest, sent = f :: g :: rest ∧ initialize_frame i f ∧ answered i delivered ∧ initialized_frame g ∧
      Forall plain_frame rest
  end.

Lemma handshake_ordered initialization delivered sent queued :
  handshake initialization delivered sent queued → handshake_order delivered sent.
Proof.
  destruct initialization as [|i|i|i| | |]; cbn.
  - intros [-> _]. constructor.
  - intros [-> _]. constructor.
  - intros (_ & f & -> & Hf). by econstructor.
  - intros (_ & f & -> & Hf). by econstructor.
  - intros (_ & i & f & -> & Hf & _). by econstructor.
  - intros (_ & i & f & -> & Hf & _). by econstructor.
  - intros (_ & i & f & g & rest & -> & Hf & Ha & Hg & Hr). by econstructor.
Qed.

Lemma answered_snoc i delivered f : answered i delivered → answered i (delivered ++ [f]).
Proof. intros (r & Hr & H). exists r. split; [|done]. apply elem_of_app. by left. Qed.

Lemma handshake_order_snoc delivered f sent : handshake_order delivered sent → handshake_order (delivered ++ [f]) sent.
Proof. intros []; econstructor; eauto using answered_snoc. Qed.

Lemma handshake_snoc initialization delivered f sent queued :
  handshake initialization delivered sent queued → handshake initialization (delivered ++ [f]) sent queued.
Proof. destruct initialization; cbn; naive_solver eauto using answered_snoc. Qed.

(** Handing over the front of the queue. *)
Definition after_dispatch (initialization : InitializationState) : InitializationState :=
  match initialization with
  | InitializeQueued i => AwaitingInitializeResponse i
  | InitializedQueued => Ready
  | other => other
  end.

Lemma handshake_dispatch initialization delivered sent f queued :
  handshake initialization delivered sent (f :: queued) →
  handshake (after_dispatch initialization) delivered (sent ++ [f]) queued ∧
  match initialization with
  | InitializeQueued i => initialize_frame i f
  | InitializedQueued => initialized_frame f
  | Ready => True
  | _ => False
  end.
Proof.
  destruct initialization as [|i|i|i| | |]; cbn; try (intros []; discriminate).
  - intros (-> & g & [= <- ->] & Hg). eauto 10.
  - intros ((g & [= <- ->] & Hg) & i & h & -> & Hh & Ha). split; [|done]. split; [done|]. exists i, h, f, []. done.
  - intros (Hq & i & h & g & rest & -> & Hh & Ha & Hg & Hr). apply Forall_cons in Hq as [Hf Hq].
    split; [|done]. split; [done|]. exists i, h, g, (rest ++ [f]). split_and!; try done. apply Forall_app. split; [done|].
    by apply Forall_singleton.
Qed.

(** Queueing an accepted client message. *)
Lemma handshake_accept initialization o line next delivered sent queued :
  handshake initialization delivered sent queued →
  client_initialization_after initialization o = Some next →
  handshake next delivered sent (queued ++ [mkFrame o line]).
Proof.
  destruct initialization as [|i|i|i| | |]; cbn; try done; unfold method_is.
  - intros [-> ->]. case_bool_decide; [|done]. case_bool_decide; [|done]. cbn [andb].
    destruct (observed_request_id o) as [i|] eqn:Ei; [|done]. intros [= <-]. cbn. split; [done|].
    eexists. split; [done|]. by split_and!.
  - intros (-> & i & f & -> & Hf & Ha). case_bool_decide; [|done]. case_bool_decide; [|done]. cbn [andb].
    intros [= <-]. cbn. split; [|eauto 10]. eexists. split; [done|]. done.
  - intros (Hq & Hs). case_bool_decide; [done|]. case_bool_decide; [done|]. cbn [negb orb]. intros [= <-]. cbn.
    split; [|done]. apply Forall_app. split; [done|]. by apply Forall_singleton.
Qed.

(** A server message never moves what the order says of the client's frames. *)
Lemma handshake_server initialization next delivered sent queued :
  handshake initialization delivered sent queued →
  (next = initialization ∨ ∃ i, initialization = AwaitingInitializeResponse i ∧ next = InitializeResponseQueued i) →
  handshake next delivered sent queued.
Proof. by intros H [->|(i & -> & ->)]. Qed.

(** ** The invariant *)

Section Laws.
Context {JsonError : Type}.
Context (json_stream : bytes → json_tree (JsonError := JsonError) * option JsonError)
        (json_custom : JsonError).
Context `{HS : Sha256} `{Alloc : Allocator} (instant_max : Z).
Context `{Known : Identities} (Hst : session_stream json_stream json_custom) (Hcf : digests_distinct) (Hkf : keys_distinct).
Abbreviation Error := (AppServerProcessError JsonError).
Abbreviation method := (mut AppServerProcessSession Error).
Implicit Type s : AppServerProcessSession.

Definition commands_of s : Channel WriterCommand := writer_commands (writer_link (workers s)).
(** The frames handed to the stdin worker so far. *)
Definition handed s : list AppServerProxyFrame := command_frames (ch_accepted (commands_of s)).
Definition queued_for_server s : list AppServerProxyFrame := frames (queue (session_proxy s) ClientToServer).

(** The causes that termination can be asked for. *)
Definition cause (o : AppServerProcessOutcome) : Prop :=
  o ≠ CleanShutdown ∧ o ≠ UnexpectedExit ∧ o ≠ Crash.

(** The stdin worker: what it carries, within the bound, and the counters. *)
Record writer_accounts s : Prop := {
  accounts_link : writer_ok (writer_outstanding s) (writer_link (workers s));
  accounts_capacity : ch_capacity (commands_of s) = io_queue_messages (process_limits s);
  accounts_sender : ch_sender (commands_of s) = writer_tx s;
  accounts_bound : 0 <= writer_outstanding s <= io_queue_messages (process_limits s);
  accounts_limit : 1 <= io_queue_messages (process_limits s) <= ABSOLUTE_MAX_IO_QUEUE_MESSAGES;
  accounts_dispatched : dispatched_client_frames s = Z.min u64_max (len (handed s));
  accounts_written : written_client_frames s = Z.min u64_max (len (handed s) - writer_outstanding s)
}.

(** What holds of every session, whatever its phase. *)
Record base s : Prop := {
  base_proxy : proxy_ok (session_proxy s);
  base_observer : observer_ok (session_proxy s) (session_events s);
  base_writer : writer_accounts s;
  base_reader : reader_ok (max_line s) (reader_link (workers s));
  base_process : process_ok (process_link (workers s))
}.

Section History.
(** The client lines accepted and the frames delivered to the client so far. *)
Context (accepted : list bytes) (delivered : list AppServerProxyFrame).

(** The order of what was handed over, which begins the accepted lines. *)
Definition ordered s : Prop :=
  handshake_order delivered (handed s) ∧ ∃ rest, accepted = map frame_json_bytes (handed s) ++ rest.

(** A session that has not exited, in the middle of a method. *)
Definition loose s : Prop :=
  base s ∧ ordered s ∧ is_exited (lifecycle s) = false ∧ process_tx s = true ∧ exit_report s = None ∧
  (∀ o, requested_outcome s = Some o → cause o).

Definition phase s : Prop :=
  match lifecycle s with
  | Running | GracefulShutdown _ =>
    handshake (initialization s) delivered (handed s) (queued_for_server s) ∧
    accepted = map frame_json_bytes (handed s ++ queued_for_server s) ∧
    (writer_close_requested s = false → writer_tx s = true) ∧
    process_tx s = true ∧ exit_report s = None ∧ requested_outcome s = None
  | Terminating =>
    ordered s ∧ writer_tx s = false ∧ writer_close_requested s = true ∧
    process_tx s = true ∧ exit_report s = None ∧ termination_asked (process_link (workers s)) ∧
    ∃ o, requested_outcome s = Some o ∧ cause o
  | Exited =>
    ordered s ∧ writer_tx s = false ∧ process_tx s = false ∧ is_Some (exit_report s) ∧
    ∀ o, requested_outcome s = Some o → cause o
  end.

Definition invariant s : Prop := base s ∧ phase s.

(** The errors a call can return: the internal inconsistencies and the overflow
    of the stdin channel are not among them. *)
Definition expected (e : Error) : Prop :=
  match e with
  | Process_Control c => c = Control_EventSequenceOverflow
  | Process_Proxy p => benign p
  | Process_WorkerDisconnected w => w ≠ lit "stdin-capacity"
  | _ => True
  end.

(** ** Reasoning about methods *)

Definition triple {A} (P : AppServerProcessSession → Prop) (m : method A)
    (Q : A → AppServerProcessSession → Prop) : Prop :=
  ∀ s, P s → match m s with
             | (Ok a, s') => Q a s'
             | (Err e, s') => expected e ∧ invariant s'
             end.

Lemma triple_ret {A} (a : A) P (Q : A → AppServerProcessSession → Prop) :
  (∀ s, P s → Q a s) → triple P (mut_ret a) Q.
Proof. intros H s Hs. by apply H. Qed.
Lemma triple_bind {A B} P Q R (m : method A) (k : A → method B) :
  triple P m Q → (∀ a, triple (Q a) (k a) R) → triple P (mut_bind m k) R.
Proof. intros Hm Hk s Hs. specialize (Hm s Hs). unfold mut_bind. destruct (m s) as [[a|e] s']; [by apply Hk|done]. Qed.
Lemma triple_get {B} P R (k : AppServerProcessSession → method B) :
  (∀ s, triple (λ s', s' = s ∧ P s) (k s) R) → triple P (mut_bind mut_get k) R.
Proof. intros H s Hs. by apply (H s). Qed.
Lemma triple_update {B} P R f (k : unit → method B) :
  triple (λ s', ∃ s, P s ∧ s' = f s) (k tt) R → triple P (mut_bind (update f) k) R.
Proof. intros H s Hs. apply (H (f s)). by exists s. Qed.
Lemma triple_updated P f (Q : unit → AppServerProcessSession → Prop) :
  (∀ s, P s → Q tt (f s)) → triple P (update f) Q.
Proof. intros H s Hs. by apply H. Qed.
Lemma triple_lift {A B} P R (r : result A Error) (k : A → method B) :
  (∀ e, r = Err e → expected e ∧ ∀ s, P s → invariant s) →
  (∀ a, r = Ok a → triple P (k a) R) → triple P (mut_bind (mut_lift r) k) R.
Proof.
  intros He Hk s Hs. unfold mut_bind, mut_lift. destruct r as [a|e]; [by apply Hk|].
  destruct (He e eq_refl) as [H1 H2]. auto.
Qed.
Lemma triple_weaken {A} (P P' : AppServerProcessSession → Prop) (m : method A) (Q Q' : A → AppServerProcessSession → Prop) :
  triple P m Q → (∀ s, P' s → P s) → (∀ a s, Q a s → Q' a s) → triple P' m Q'.
Proof. intros H HP HQ s Hs. specialize (H s (HP s Hs)). destruct (m s) as [[a|e] s']; auto. Qed.
(** ** What the updates keep *)

(** The fields the invariant speaks of. *)
Definition core s :=
  (process_limits s, session_proxy s, session_events s, initialization s, lifecycle s, writer_tx s, process_tx s,
   writer_outstanding s, writer_close_requested s, requested_outcome s,
   (dispatched_client_frames s, written_client_frames s, exit_report s, workers s)).

Lemma writer_accounts_same s s' : core s' = core s → writer_accounts s → writer_accounts s'.
Proof.
  intros [= El _ _ _ _ Et _ Eo _ _ Ed Ew _ Ek] [].
  split; unfold handed, commands_of in *; by rewrite ?El, ?Et, ?Eo, ?Ed, ?Ew, ?Ek.
Qed.
Lemma base_same s s' : core s' = core s → base s → base s'.
Proof.
  intros E []. pose proof (writer_accounts_same _ _ E). injection E as El Ep Ej _ _ _ _ _ _ _ _ _ _ Ek.
  split; unfold max_line in *; rewrite ?El, ?Ep, ?Ej, ?Ek; auto.
Qed.
Lemma ordered_same s s' : core s' = core s → ordered s → ordered s'.
Proof. intros [= El Ep Ej Ei Elc Et Ept Eo Ecr Er Ed Ew Erp Ek]. unfold ordered, handed, commands_of. by rewrite Ek. Qed.
Lemma phase_same s s' : core s' = core s → phase s → phase s'.
Proof.
  intros E. pose proof (ordered_same _ _ E). injection E as El Ep Ej Ei Elc Et Ept Eo Ecr Er Ed Ew Erp Ek.
  unfold phase, handed, commands_of, queued_for_server. rewrite Elc, Ep, Ei, Et, Ept, Ecr, Er, Erp, Ek.
  destruct (lifecycle s); naive_solver.
Qed.
Lemma invariant_same s s' : core s' = core s → invariant s → invariant s'.
Proof. intros E [H1 H2]. split; [by eapply base_same|by eapply phase_same]. Qed.

Lemma loose_of_invariant s : invariant s → is_exited (lifecycle s) = false → loose s.
Proof.
  intros [Hb Hp] He. unfold phase in Hp. unfold loose.
  assert (Hactive : handshake (initialization s) delivered (handed s) (queued_for_server s) →
    accepted = map frame_json_bytes (handed s ++ queued_for_server s) → ordered s).
  { intros Hh Ha. split; [by eapply handshake_ordered|]. rewrite map_app in Ha. by eexists. }
  destruct (lifecycle s); [..|discriminate].
  1,2: destruct Hp as (H1 & H2 & _ & H4 & H5 & H6); split_and!; auto; by rewrite H6.
  destruct Hp as (H1 & _ & _ & H4 & H5 & _ & o & H6 & H7). split_and!; auto. intros o'. rewrite H6. by intros [= <-].
Qed.

(** A step of the workers. *)
Lemma writer_worker_channel io l :
  ch_capacity (writer_commands (writer_worker io l)) = ch_capacity (writer_commands l) ∧
  ch_sender (writer_commands (writer_worker io l)) = ch_sender (writer_commands l) ∧
  ch_accepted (writer_commands (writer_worker io l)) = ch_accepted (writer_commands l).
Proof.
  unfold writer_worker. destruct (writer_state l) as [|e|]; [|by destruct (send _ _) as [[[] ?]|]; [destruct e|..]|done].
  pose proof (recv_cases (writer_commands l)) as Hr. destruct (recv (writer_commands l)) as [[[c|] ch]|]; [|done|done].
  destruct Hr as (rest & _ & ->). destruct c; [by destruct io as [[]|]|done].
Qed.

Lemma worker_step_keeps action s :
  let s' := set_workers (worker_step (max_line s) action (workers s)) s in
  (base s → base s') ∧ handed s' = handed s ∧
  (process_ok (process_link (workers s)) → termination_asked (process_link (workers s)) →
   termination_asked (process_link (workers s'))).
Proof.
  destruct action as [io|io|io|os]; cbn [worker_step].
  - destruct (writer_worker_channel io (writer_link (workers s))) as (Hc & Hs & Ha).
    set (l := writer_worker io (writer_link (workers s))) in *.
    split_and!; [|unfold handed, commands_of; cbn [workers set_workers writer_link]; by rewrite Ha|done].
    intros [H1 H2 [L1 L2 L3 L4 L5 L6 L7] H4 H5]. split; [exact H1|exact H2| |exact H4|exact H5].
    unfold handed, commands_of in *. split; unfold handed, commands_of; cbn [workers set_workers writer_link
      writer_outstanding process_limits writer_tx dispatched_client_frames written_client_frames];
      rewrite ?Hc, ?Hs, ?Ha; try done. by apply writer_worker_ok.
  - split_and!; [|done|done]. intros [H1 H2 [] H4 H5]. split; [exact H1|exact H2|by split| |exact H5].
    by apply reader_worker_ok.
  - split_and!; [|done|done]. intros [H1 H2 [] H4 H5]. split; [exact H1|exact H2|by split|exact H4|exact H5].
  - split_and!; [|done|].
    + intros [H1 H2 [] H4 H5]. split; [exact H1|exact H2|by split|exact H4|]. by apply process_worker_ok.
    + intros Hok. by apply process_worker_ok.
Qed.

Lemma worker_step_phase action s :
  let s' := set_workers (worker_step (max_line s) action (workers s)) s in
  base s → (ordered s → ordered s') ∧ (phase s → phase s').
Proof.
  cbv zeta. intros Hb. destruct (worker_step_keeps action s) as (_ & Hh & Ht). cbv zeta in *.
  assert (Ho : ordered s → ordered (set_workers (worker_step (max_line s) action (workers s)) s))
    by (unfold ordered; by rewrite Hh).
  split; [done|]. unfold phase. 
  change (lifecycle (set_workers (worker_step (max_line s) action (workers s)) s)) with (lifecycle s).
  destruct (lifecycle s); rewrite ?Hh.
  - exact id.
  - exact id.
  - intros (H1 & H2 & H3 & H4 & H5 & H6 & H7). split_and!; auto. apply Ht; [apply Hb|done].
  - intros (H1 & H2). split_and!; [auto|apply H2..].
Qed.

Lemma run_workers_keeps actions s :
  base s → base (run_workers actions s) ∧ (ordered s → ordered (run_workers actions s)) ∧
  (phase s → phase (run_workers actions s)).
Proof.
  unfold run_workers. revert s. induction actions as [|a actions IH]; intros s Hb.
  { cbn [fold_left]. split_and!; [by apply (base_same s)|by apply (ordered_same s)|by apply (phase_same s)]. }
  cbn [fold_left]. set (s1 := set_workers (worker_step (max_line s) a (workers s)) s).
  destruct (worker_step_keeps a s) as (Hb1 & _ & _). destruct (worker_step_phase a s Hb) as [Ho1 Hp1].
  destruct (IH s1 (Hb1 Hb)) as (H1 & H2 & H3). split_and!; [exact H1|auto..].
Qed.

(** Ending the session. *)
Lemma drop_writer_tx_keeps s :
  (base s → base (drop_writer_tx s)) ∧ writer_tx (drop_writer_tx s) = false ∧ handed (drop_writer_tx s) = handed s ∧
  lifecycle (drop_writer_tx s) = lifecycle s ∧ process_tx (drop_writer_tx s) = process_tx s ∧
  process_link (workers (drop_writer_tx s)) = process_link (workers s) ∧
  exit_report (drop_writer_tx s) = exit_report s ∧ requested_outcome (drop_writer_tx s) = requested_outcome s ∧
  writer_close_requested (drop_writer_tx s) = writer_close_requested s ∧
  initialization (drop_writer_tx s) = initialization s ∧ session_proxy (drop_writer_tx s) = session_proxy s.
Proof.
  unfold drop_writer_tx. destruct (writer_tx s) eqn:Et; [|done].
  split_and!; try done. intros [H1 H2 [L1 L2 L3 L4 L5 L6 L7] H4 H5]. split; [exact H1|exact H2| |exact H4|exact H5].
  split; [by apply writer_ok_drop|done..].
Qed.

Lemma begin_termination_ends o s : loose s → cause o → invariant (begin_termination o s).
Proof.
  intros (Hb & Ho & He & Hp & Hr & Hq) Hc. unfold begin_termination. rewrite He.
  set (s1 := match requested_outcome s with None => set_requested (Some o) s | Some _ => s end).
  assert (H1 : base s1 ∧ ordered s1 ∧ process_tx s1 = true ∧ exit_report s1 = None ∧
    ∃ o', requested_outcome s1 = Some o' ∧ cause o').
  { subst s1. destruct (requested_outcome s) as [o'|] eqn:Eo; split_and!; try done; eauto.
    - destruct Hb as [B1 B2 [] B4 B5]. split; [exact B1|exact B2|by split|exact B4|exact B5]. }
  clearbody s1. clear s Hb Ho He Hp Hr Hq Hc o. destruct H1 as (Hb & Ho & Hp & Hr & o & Hq & Hc).
  set (s2 := set_close_requested true (set_lifecycle Terminating s1)).
  assert (Hb2 : base s2).
  { destruct Hb as [B1 B2 [] B4 B5]. split; [exact B1|exact B2|by split|exact B4|exact B5]. }
  destruct (drop_writer_tx_keeps s2) as (D1 & D2 & D3 & D4 & D5 & D6 & D7 & D8 & D9 & _ & _).
  set (s3 := drop_writer_tx s2) in *. rewrite D5. change (process_tx s2) with (process_tx s1). rewrite Hp.
  destruct (request_process_termination_asks (process_link (workers s3)) (base_process _ (D1 Hb2))) as [P1 P2].
  split.
  - destruct (D1 Hb2) as [B1 B2 [] B4 B5]. split; [exact B1|exact B2|by split|exact B4|exact P1].
  - unfold phase. change (lifecycle (set_process_link (request_process_termination (process_link (workers s3))) s3)) with (lifecycle s3).
    rewrite D4. change (lifecycle s2) with Terminating. cbv match.
    assert (Hh : handed (set_process_link (request_process_termination (process_link (workers s3))) s3) = handed s1) by exact D3.
    split_and!; [unfold ordered; rewrite Hh; exact Ho|exact D2|exact D9|by rewrite <-Hp; exact D5|by rewrite <-Hr; exact D7|exact P2|].
    exists o. split; [|done]. rewrite <-Hq. exact D8.
Qed.

Lemma triple_terminate {A} o e (Q : A → AppServerProcessSession → Prop) P :
  cause o → expected e → (∀ s, P s → loose s) → triple P (terminate_with o e) Q.
Proof. intros Hc He HP s Hs. split; [done|]. apply begin_termination_ends; auto. Qed.

Lemma invariant_begin o s : invariant s → cause o → invariant (begin_termination o s).
Proof.
  intros Hi Hc. destruct (is_exited (lifecycle s)) eqn:E.
  - unfold begin_termination. by rewrite E.
  - apply begin_termination_ends; [by apply loose_of_invariant|done].
Qed.

(** The workers advance: what holds for every stage. *)
Definition steady (P : AppServerProcessSession → Prop) : Prop :=
  (∀ s actions, P s → P (run_workers actions s)) ∧ ∀ s s', core s' = core s → P s → P s'.

Lemma triple_interleave P (Q : unit → AppServerProcessSession → Prop) :
  steady P → (∀ s, P s → Q tt s) → triple P interleave Q.
Proof.
  intros [Hw Hc] HQ s Hs. unfold interleave. destruct (schedule s) as [|a rest]; [by apply HQ|].
  apply HQ, Hw. by apply (Hc s).
Qed.

Lemma invariant_run s actions : invariant s → invariant (run_workers actions s).
Proof. intros [Hb Hp]. destruct (run_workers_keeps actions s Hb) as (H1 & _ & H3). split; auto. Qed.

(** A record call the journal can note beside [p']. *)
Lemma triple_record m P (Q : unit → AppServerProcessSession → Prop) :
  (∀ s, P s → ∃ p', noted p' (m (session_events s)) ∧ (∀ j, observer_ok p' j → Q tt (set_journal j s)) ∧
     ∀ j, observer_ok (session_proxy s) j → loose (set_journal j s)) →
  triple P (record m) Q.
Proof.
  intros H s Hs. destruct (H s Hs) as (p' & [Ho Hr] & HQ & Hl). unfold record.
  destruct (m (session_events s)) as [[[]|e] j]; cbn [fst snd] in *.
  - by apply HQ.
  - destruct Hr as [|[[= ->] Hlast]]; [done|]. split; [done|]. apply begin_termination_ends; [|done].
    apply Hl. by eapply observer_exhausted.
Qed.

(** A call of the proxy, which changes nothing when it is rejected. *)
Lemma triple_on_proxy {A} (m : mut TransparentAppServerProxy (AppServerProxyError JsonError) A) P
    (Q : A → AppServerProcessSession → Prop) :
  (∀ s, P s → invariant s ∧ match m (session_proxy s) with
                            | (Ok a, p) => Q a (set_proxy p s)
                            | (Err e, p) => benign e ∧ p = session_proxy s
                            end) →
  triple P (on_proxy m) Q.
Proof.
  intros H s Hs. destruct (H s Hs) as [Hi Hm]. unfold on_proxy. destruct (m (session_proxy s)) as [[a|e] p]; [done|].
  destruct Hm as [He ->]. split; [done|]. by apply (invariant_same s).
Qed.

(** A session that is not over. *)
Definition alive s : Prop := invariant s ∧ is_exited (lifecycle s) = false.

Lemma alive_same s s' : core s' = core s → alive s → alive s'.
Proof. intros E [H1 H2]. split; [by apply (invariant_same s)|]. injection E as _ _ _ _ El _ _ _ _ _ _ _ _ _. by rewrite El. Qed.

Lemma steady_alive : steady alive.
Proof. split; [|exact alive_same]. intros s actions [H1 H2]. split; [by apply invariant_run|exact H2]. Qed.

Lemma alive_loose s : alive s → loose s.
Proof. intros [H1 H2]. by apply loose_of_invariant. Qed.

Lemma begin_not_exited o s : is_exited (lifecycle s) = false → is_exited (lifecycle (begin_termination o s)) = false.
Proof.
  intros H. unfold begin_termination. rewrite H. set (s2 := set_close_requested true _).
  destruct (drop_writer_tx_keeps s2) as (_ & _ & _ & D4 & _). destruct (process_tx _); [|by rewrite D4].
  change (is_exited (lifecycle (drop_writer_tx s2)) = false). by rewrite D4.
Qed.

Lemma alive_begin o s : alive s → cause o → alive (begin_termination o s).
Proof. intros [H1 H2] Hc. split; [by apply invariant_begin|by apply begin_not_exited]. Qed.

Lemma triple_update_alive f : (∀ s, core (f s) = core s) → triple alive (update f) (λ _, alive).
Proof. intros Hf s Hs. by apply (alive_same s). Qed.

(** The proxy moved without touching the frames for the server, and the journal
    is about to follow. *)
Lemma alive_proxy s p j :
  alive s → proxy_ok p → same_session (session_proxy s) p → observer_ok p j →
  frames (queue p ClientToServer) = queued_for_server s → alive (set_journal j (set_proxy p s)).
Proof.
  intros [[[B1 B2 B3 B4 B5] Hp] He] Hok [Hl Hs] Hobs Hq. split; [|exact He]. split.
  - split; [exact Hok|exact Hobs|by destruct B3; split| |exact B5].
    unfold max_line. change (session_proxy (set_journal j (set_proxy p s))) with p. rewrite Hl. exact B4.
  - unfold phase in *. change (lifecycle (set_journal j (set_proxy p s))) with (lifecycle s).
    destruct (lifecycle s); [..|discriminate]; [| |exact Hp];
      change (queued_for_server (set_journal j (set_proxy p s))) with (frames (queue p ClientToServer));
      rewrite Hq; exact Hp.
Qed.

Lemma alive_initialization s next :
  alive s → (next = initialization s ∨ ∃ i, initialization s = AwaitingInitializeResponse i ∧ next = InitializeResponseQueued i) →
  alive (set_initialization next s).
Proof.
  intros [[[B1 B2 [] B4 B5] Hp] He] Hn. split; [|exact He]. split; [split; [exact B1|exact B2|by split|exact B4|exact B5]|].
  unfold phase in *. change (lifecycle (set_initialization next s)) with (lifecycle s).
  destruct (lifecycle s); [..|discriminate]; [| |exact Hp]; destruct Hp as (H1 & H2);
    (split; [eapply handshake_server; [exact H1|exact Hn]|exact H2]).
Qed.

(** ** The stages of a poll *)

Lemma alive_link_recv s : alive s →
  (∀ l, process_commands l = process_commands (process_link (workers s)) → process_state l = process_state (process_link (workers s)) →
     alive (set_process_link l s)) ∧
  (∀ l, alive (set_stderr_link l s)) ∧
  (∀ ch, ch_accepted ch = ch_accepted (reader_events (reader_link (workers s))) →
     alive (set_reader_link (with_reader_events ch (reader_link (workers s))) s)).
Proof.
  intros [[[B1 B2 [] B4 [C1 C2]] Hp] He]. split_and!.
  - intros l Hc Hs. split; [|exact He]. split.
    + split; [exact B1|exact B2|by split|exact B4|]. split; cbn [process_link workers set_process_link set_workers]; by rewrite ?Hc, ?Hs.
    + unfold phase, termination_asked in *. change (lifecycle (set_process_link l s)) with (lifecycle s).
      destruct (lifecycle s); [exact Hp..| |discriminate].
      cbn [process_link workers set_process_link set_workers]. rewrite Hc, Hs. exact Hp.
  - intros l. split; [|exact He]. split; [split; [exact B1|exact B2|by split|exact B4|by split]|exact Hp].
  - intros ch Hch. split; [|exact He]. split; [split; [exact B1|exact B2|by split| |by split]|exact Hp].
    by apply reader_ok_recv.
Qed.

Lemma triple_recv {A} (m : method A) (Q : A → AppServerProcessSession → Prop) :
  triple alive m Q → triple alive (do* interleave in m) Q.
Proof. intros H. apply (triple_bind _ (λ _, alive)); [apply triple_interleave; [apply steady_alive|done]|done]. Qed.

Lemma process_recv_alive : triple alive process_recv (λ _, alive).
Proof.
  apply triple_recv. intros s Hs. cbv zeta beta.
  pose proof (alive_link_recv s Hs) as (H & _ & _). destruct (try_recv _) as [r ch]. by apply H.
Qed.
Lemma stderr_recv_alive : triple alive stderr_recv (λ _, alive).
Proof.
  apply triple_recv. intros s Hs. cbv zeta beta.
  pose proof (alive_link_recv s Hs) as (_ & H & _). destruct (try_recv _) as [r ch]. by apply H.
Qed.
Lemma reader_recv_alive : triple alive reader_recv (λ _, alive).
Proof.
  apply triple_recv. intros s Hs. cbv zeta beta.
  pose proof (alive_link_recv s Hs) as (_ & _ & H). pose proof (try_recv_cases (reader_events (reader_link (workers s)))) as Hr.
  destruct (try_recv _) as [[e|e] ch]; apply H; [by destruct Hr as (rest & _ & ->)|by destruct Hr as (_ & -> & _)].
Qed.

(** The end of a stage: an error after ending the session, or nothing. *)
Lemma triple_alive_ret {A} (a : A) : triple alive (mut_ret a) (λ _, alive).
Proof. by apply triple_ret. Qed.
Lemma triple_alive_terminate {A} o e (Q : A → AppServerProcessSession → Prop) :
  cause o → expected e → triple alive (terminate_with o e) Q.
Proof. intros Ho He. apply triple_terminate; [done|done|exact alive_loose]. Qed.
Lemma triple_alive_bind {A B} Q (m : method A) (k : A → method B) :
  triple alive m (λ _, alive) → (∀ a, triple alive (k a) Q) → triple alive (mut_bind m k) Q.
Proof. apply triple_bind. Qed.
Lemma triple_alive_get {B} Q (k : AppServerProcessSession → method B) :
  (∀ s, triple alive (k s) Q) → triple alive (mut_bind mut_get k) Q.
Proof. intros H s Hs. by apply H. Qed.
Lemma triple_alive_lift {A B} Q (r : result A Error) (k : A → method B) :
  (∀ e, r = Err e → expected e) → (∀ a, r = Ok a → triple alive (k a) Q) → triple alive (mut_bind (mut_lift r) k) Q.
Proof. intros He Hk. apply triple_lift; [|exact Hk]. intros e H. split; [auto|by intros s []]. Qed.
Lemma triple_alive_fail {A} e (Q : A → AppServerProcessSession → Prop) : expected e → triple alive (mut_lift (Err e)) Q.
Proof. by intros He s []. Qed.
Lemma expected_ok_or {A} (o : option A) (e e' : Error) : expected e → ok_or o e = Err e' → expected e'.
Proof. destruct o; [done|]. by intros He [= <-]. Qed.

Lemma expected_stdin : expected (Process_WorkerDisconnected (lit "stdin")).
Proof. intros H. vm_compute in H. discriminate H. Qed.

(** The stages made of these pieces only. *)
Ltac stage :=
  lazymatch goal with
  | |- triple alive (mut_bind mut_get _) _ => apply triple_alive_get; intros ?; stage
  | |- triple alive (mut_bind (mut_lift (ok_or _ _)) _) _ =>
    apply triple_alive_lift; [intros ?; by apply expected_ok_or|intros ? _; stage]
  | |- triple alive (mut_bind _ _) _ => apply triple_alive_bind; [stage|intros ?; stage]
  | |- triple alive (mut_ret _) _ => apply triple_alive_ret
  | |- triple alive (mut_lift (Err _)) _ => apply triple_alive_fail; done
  | |- triple alive (terminate_with _ _) _ => apply triple_alive_terminate; [done|first [exact expected_stdin|done|idtac]]
  | |- triple alive (update (λ _, _)) _ => idtac
  | |- triple alive (update _) _ => first [apply triple_update_alive; by intros|idtac]
  | |- triple alive (match ?x with _ => _ end) _ => destruct x; stage
  | |- _ => eauto with stages
  end.
Create HintDb stages.
#[local] Hint Resolve process_recv_alive stderr_recv_alive reader_recv_alive : stages.

Lemma consume_process_event_alive now : triple alive (consume_process_event instant_max now) (λ _, alive).
Proof. unfold consume_process_event. stage. Qed.

Lemma consume_stderr_event_alive : triple alive consume_stderr_event (λ _, alive).
Proof. unfold consume_stderr_event. stage. Qed.

Lemma advance_stream_closure_alive now : triple alive (advance_stream_closure now) (λ _, alive).
Proof. unfold advance_stream_closure. stage. Qed.

Lemma stdout_failed_alive {A} e (Q : A → AppServerProcessSession → Prop) : expected e → triple alive (stdout_failed e) Q.
Proof. intros He. unfold stdout_failed. stage. Qed.

(** *** Acknowledgements of the stdin worker *)

(** A frame was acknowledged and the counters are about to follow. *)
Definition acknowledged s : Prop :=
  0 <= writer_outstanding s - 1 ∧ written_client_frames s = Z.min u64_max (len (handed s) - writer_outstanding s) ∧
  alive (set_written_frames (Z.min u64_max (len (handed s) - (writer_outstanding s - 1)))
           (set_outstanding (writer_outstanding s - 1) s)).

Lemma writer_recv_alive :
  triple alive writer_recv (λ r s, match r with Ok (Writer_Written _) => acknowledged s | _ => alive s end).
Proof.
  apply triple_recv. intros s [[[B1 B2 [L1 L2 L3 L4 L5 L6 L7] B4 B5] Hp] He]. cbv zeta beta.
  pose proof (try_recv_cases (writer_events (writer_link (workers s)))) as Hr.
  pose proof (λ e ch, writer_ok_recv (writer_outstanding s) (writer_link (workers s)) e ch L1) as Hw.
  destruct (try_recv (writer_events (writer_link (workers s)))) as [[e|e] ch].
  - destruct (Hw e ch eq_refl) as [Hn Hok].
    assert (Hall : ∀ n w, 0 <= n <= writer_outstanding s → writer_ok n (with_writer_events ch (writer_link (workers s))) →
      w = Z.min u64_max (len (handed s) - n) →
      alive (set_written_frames w (set_outstanding n (set_writer_link (with_writer_events ch (writer_link (workers s))) s)))).
    { intros n w Hnn Hwn ->. split; [|exact He]. split; [|exact Hp].
      split; [exact B1|exact B2| |exact B4|exact B5]. split; try done. change (0 <= n <= io_queue_messages (process_limits s)). lia. }
    destruct e as [n| |]; [|apply (alive_same (set_written_frames (written_client_frames s) (set_outstanding (writer_outstanding s)
      (set_writer_link (with_writer_events ch (writer_link (workers s))) s)))); [done|];
      apply Hall; [lia|by rewrite Z.sub_0_r in Hok|done]..].
    assert (Hn1 : 0 <= writer_outstanding s - 1) by exact Hn. split; [exact Hn1|]. split; [exact L7|].
    apply Hall; [change (0 <= writer_outstanding s - 1 <= writer_outstanding s); lia|exact Hok|done].
  - destruct Hr as (_ & -> & _). split; [|exact He]. split; [|exact Hp].
    split; [exact B1|exact B2| |exact B4|exact B5]. split; try done. by destruct L1; split.
Qed.

Lemma acknowledge_alive n progress : triple acknowledged (acknowledge n progress) (λ _, alive).
Proof.
  intros s (Hn & Hw & Ha). unfold acknowledge, mut_bind at 1, mut_get.
  rewrite (proj2 (checked_sub_Some (writer_outstanding s) 1 _)) by (split; [reflexivity|lia]).
  unfold mut_bind at 1, mut_lift at 1. cbn [ok_or]. unfold mut_bind at 1, update at 1.
  set (s1 := set_outstanding (writer_outstanding s - 1) s) in *.
  unfold process_counter_increment. destruct (checked_add u64_max (written_client_frames s) 1) as [w|] eqn:E; cbn [ok_or].
  - apply checked_add_Some in E as [-> E].
    assert (Ha1 : alive (set_written_frames (written_client_frames s + 1) s1)).
    { replace (written_client_frames s + 1) with (Z.min u64_max (len (handed s) - (writer_outstanding s - 1))); [exact Ha|].
      rewrite Hw in *. lia. }
    revert Ha1. unfold mut_bind at 1, mut_lift at 1. unfold mut_bind at 1, update at 1.
    apply (triple_alive_lift (λ _, alive)); [intros e; by apply expected_ok_or|intros total _].
    apply triple_alive_bind; [by apply triple_update_alive|intros _]. unfold usize_increment. stage.
  - cbn. split; [done|].
    assert (written_client_frames s = u64_max).
    { destruct (Z.leb_spec (written_client_frames s + 1) u64_max) as [H|H]; [|rewrite Hw in *; lia].
      unfold checked_add in E. rewrite (proj2 (Z.leb_le _ _) H) in E. done. }
    apply (invariant_same (set_written_frames (Z.min u64_max (len (handed s) - (writer_outstanding s - 1))) s1)); [|apply Ha].
    replace (Z.min u64_max (len (handed s) - (writer_outstanding s - 1))) with (written_client_frames s) by (rewrite Hw in *; lia).
    done.
Qed.

Lemma set_close_requested_alive : triple alive (update (set_close_requested true)) (λ _, alive).
Proof.
  intros s [[[B1 B2 [] B4 B5] Hp] He]. split; [|exact He]. split; [split; [exact B1|exact B2|by split|exact B4|exact B5]|].
  unfold phase in *. change (lifecycle (set_close_requested true s)) with (lifecycle s).
  destruct (lifecycle s); [..|discriminate]; naive_solver.
Qed.
#[local] Hint Resolve set_close_requested_alive : stages.

Lemma consume_writer_events_alive n progress : triple alive (consume_writer_events n progress) (λ _, alive).
Proof.
  revert progress. induction n as [|n IH]; intros progress; cbn [consume_writer_events]; [apply triple_alive_ret|].
  eapply triple_bind; [apply writer_recv_alive|]. intros [[written| |kind]|[]].
  - eapply triple_bind; [apply acknowledge_alive|intros; apply IH].
  - apply triple_alive_bind; [apply set_close_requested_alive|]. intros _. stage.
  - apply triple_alive_bind; [apply set_close_requested_alive|]. intros _. stage.
  - apply triple_alive_ret.
  - change (λ s, alive s) with alive. stage.
Qed.

(** *** Lines from the server *)

Lemma alive_journal s j : alive s → observer_ok (session_proxy s) j → alive (set_journal j s).
Proof.
  intros Ha Hj. apply (alive_same (set_journal j (set_proxy (session_proxy s) s))); [done|].
  destruct Ha as [[Hb Hp] He]. apply alive_proxy; [done|apply Hb|done|done|done].
Qed.

Lemma block_alive {A} s o bs rule (Q : A → AppServerProcessSession → Prop) :
  alive s → message_ok o bs →
  match block o rule s with (Ok a, s') => Q a s' | (Err e, s') => expected e ∧ invariant s' end.
Proof.
  intros Ha Hm. revert s Ha. change (triple alive (block (A := A) o rule) Q). unfold block.
  apply triple_alive_bind.
  - apply triple_record. intros s Ha. exists (session_proxy s). pose proof Ha as [[[B1 B2 _ _ _] _] _]. split_and!.
    + by eapply blocked_noted.
    + intros j Hj. by apply alive_journal.
    + intros j Hj. by apply alive_loose, alive_journal.
  - intros _. stage.
Qed.

Lemma server_initialization_next o s next :
  server_initialization_after (JsonError := JsonError) o s = Ok next →
  next = initialization s ∨ ∃ i, initialization s = AwaitingInitializeResponse i ∧ next = InitializeResponseQueued i.
Proof.
  unfold server_initialization_after. destruct (_ || _); [intros [= <-]; by left|].
  destruct (observed_kind o), (initialization s) as [|i|i|i| | |]; try done; try (intros [= <-]; by left);
    (case_bool_decide; [|done]); try done; intros [= <-]; right; eauto.
Qed.

Lemma server_initialization_expected o s e :
  server_initialization_after (JsonError := JsonError) o s = Err e → expected e.
Proof.
  unfold server_initialization_after. destruct (_ || _); [done|].
  destruct (observed_kind o), (initialization s) as [|i|i|i| | |]; try done; try (by intros [= <-]);
    (case_bool_decide; by intros [= <-]).
Qed.

Lemma receive_line_alive line : triple alive (receive_line json_stream json_custom line) (λ _, alive).
Proof.
  intros s Ha. unfold receive_line. pose proof Ha as [[[B1 B2 _ _ _] _] _].
  destruct (prepare json_stream json_custom (session_proxy s) ServerToClient line) as [c|e] eqn:Ec.
  2: { apply (triple_alive_terminate ProtocolFailure (Process_Proxy e) (λ _, alive)); [done| |done].
       pose proof (benign_prepare json_stream json_custom (session_proxy s) ServerToClient line) as Hb. by rewrite Ec in Hb. }
  destruct (prepare_Ok _ _ _ _ _ _ Hst Ec) as (_ & _ & Hm).
  destruct (server_initialization_after _ s) as [next|e] eqn:En.
  2: { apply (triple_alive_terminate ProtocolFailure e (λ _, alive)); [done|by eapply server_initialization_expected|done]. }
  apply server_initialization_next in En.
  destruct (evaluate (interception s) _) as [|rule]; [|by eapply (block_alive s _ line rule (λ _, alive))].
  pose proof (admit_step json_stream json_custom instant_max Hst Hcf Hkf (session_proxy s) ServerToClient line c B1 Ec) as Hs.
  unfold on_proxy. destruct (admit_proxy c (session_proxy s)) as [[o|e] p]; cbn [map_err].
  - destruct Hs as (-> & _ & _ & Hp & Hsame & _ & _ & Hq & Hj). specialize (Hj _ B2).
    set (s1 := set_proxy p s).
    assert (Halive : ∀ j, observer_ok p j → alive (set_journal j s1)) by (intros j Hobs; by apply alive_proxy).
    apply (triple_bind (λ s', s' = s1) (λ _ s', alive s' ∧ initialization s' = initialization s) (λ _, alive)); [| |done].
    + apply triple_record. intros s' ->. exists p. split_and!; [exact Hj|intros j Hobs; split; [auto|done]|].
      intros j Hobs. by apply alive_loose, Halive.
    + intros _ s' [Ha' Hi]. apply alive_initialization; [done|]. by rewrite Hi.
  - destruct Hs as [He ->]. apply (triple_alive_terminate ProtocolFailure (Process_Proxy e) (λ _, alive)); [done|done|].
    by apply (alive_same s).
Qed.

Lemma consume_reader_loop_alive now n progress :
  triple alive (consume_reader_loop json_stream json_custom instant_max now n progress) (λ _, alive).
Proof.
  revert progress. induction n as [|n IH]; intros progress; cbn [consume_reader_loop]; [apply triple_alive_ret|].
  apply triple_alive_bind; [apply reader_recv_alive|]. intros [[line| | | | |kind]|[]]; try (by apply stdout_failed_alive).
  - apply triple_alive_bind; [apply receive_line_alive|intros _]. unfold usize_increment.
    apply triple_alive_lift; [intros e; by apply expected_ok_or|intros; apply IH].
  - stage.
  - apply triple_alive_ret.
  - apply triple_alive_get. intros s. destruct (stdout_finished s); [apply triple_alive_ret|by apply stdout_failed_alive].
Qed.

Lemma consume_reader_events_alive now progress :
  triple alive (consume_reader_events json_stream json_custom instant_max now progress) (λ _, alive).
Proof.
  unfold consume_reader_events. apply triple_alive_get. intros s.
  destruct (stdout_finished s); [apply triple_alive_ret|apply consume_reader_loop_alive].
Qed.

(** *** Expired requests *)

(** The proxy retired the requests [l] and the journal has them still to note. *)
Definition expiring (l : list AppServerExpiredRequest) s : Prop :=
  (∃ p0 p1, proxy_ok p0 ∧ observer_ok p0 (session_events s) ∧ retires p0 l p1 ∧ same_requests p1 (session_proxy s)) ∧
  ∀ j, observer_ok (session_proxy s) j → alive (set_journal j s).

Lemma record_expired_requests_alive l : triple (expiring l) (record_expired_requests l) (λ _, alive).
Proof.
  induction l as [|[d i] l IH]; cbn [record_expired_requests].
  - intros s ((p0 & p1 & _ & Ho & Hr & Hs) & Ha). inversion Hr; subst.
    apply (alive_same (set_journal (session_events s) s)); [done|]. apply Ha. by eapply observer_ok_same.
  - apply (triple_bind _ (λ _, expiring l)); [|intros _; exact IH]. apply triple_record.
    intros s ((p0 & p1 & Hp & Ho & Hr & Hs) & Ha). inversion Hr as [|? ? ? dl ? ? Hi Hrest]; subst.
    exists (retire_step d i p0). split_and!.
    + by eapply expired_noted.
    + intros j Hj. split; [|exact Ha]. exists (retire_step d i p0), p1. split_and!; [by eapply proxy_ok_retire|done|done|done].
    + intros j Hj. by apply alive_loose, Ha.
Qed.

Lemma expire_alive now progress : triple alive (expire now progress) (λ _, alive).
Proof.
  unfold expire. apply triple_alive_get. intros s0. apply (triple_bind _ expiring).
  - destruct (_ && _).
    + apply triple_on_proxy. intros s Ha. split; [apply Ha|]. pose proof Ha as [[[B1 B2 _ _ _] _] _].
      pose proof (expire_step json_stream json_custom instant_max Hst Hcf (session_proxy s) now B1) as He.
      destruct (expire_requests now (session_proxy s)) as [[l|e] p]; [|done].
      destruct He as (Hp & Hsame & Hq & p1 & Hret & Hreq). split.
      * exists (session_proxy s), p1. done.
      * intros j Hj. apply alive_proxy; try done. by rewrite Hq.
    + apply triple_ret. intros s Ha. pose proof Ha as [[[B1 B2 _ _ _] _] _]. split.
      * exists (session_proxy s), (session_proxy s). split_and!; [done|done|constructor|done].
      * intros j Hj. by apply alive_journal.
  - intros l. apply (triple_bind _ (λ _, alive)); [apply record_expired_requests_alive|intros _].
    apply triple_alive_bind; [|intros _; apply triple_alive_ret].
    destruct l; [apply triple_alive_ret|]. intros s Ha. by apply alive_begin.
Qed.

(** *** Frames to the stdin worker *)

Definition dispatching s : Prop := alive s ∧ is_terminating (lifecycle s) = false ∧ writer_close_requested s = false.

(** A frame was taken from the proxy and not handed over yet: [sent] is what
    the order of initialization counts as sent. *)
Definition holding (f : AppServerProxyFrame) (sent queued : AppServerProcessSession → list AppServerProxyFrame) s : Prop :=
  base s ∧ (is_running (lifecycle s) || is_graceful (lifecycle s)) = true ∧ writer_close_requested s = false ∧
  writer_tx s = true ∧ process_tx s = true ∧ exit_report s = None ∧ requested_outcome s = None ∧
  writer_outstanding s < io_queue_messages (process_limits s) ∧
  handshake (initialization s) delivered (sent s) (queued s) ∧
  accepted = map frame_json_bytes (handed s ++ f :: queued_for_server s).

Definition taken f : AppServerProcessSession → Prop := holding f handed (λ s, f :: queued_for_server s).
Definition ready f : AppServerProcessSession → Prop := holding f (λ s, handed s ++ [f]) queued_for_server.

Lemma holding_loose f sent queued s :
  (handshake_order delivered (sent s) → handshake_order delivered (handed s)) → holding f sent queued s → loose s.
Proof.
  intros Hsent (Hb & Hl & _ & _ & Hp & Hr & Hq & _ & Hh & Ha). split_and!; auto.
  - split; [by eapply Hsent, handshake_ordered|]. rewrite map_app in Ha. by eexists.
  - by destruct (lifecycle s).
  - by rewrite Hq.
Qed.

Lemma handshake_order_prefix sent f : handshake_order delivered (sent ++ [f]) → handshake_order delivered sent.
Proof.
  intros H. inversion H as [Hn|i g Hg Heq|i g h rest Hg Ha Hh Hr Heq].
  - by destruct sent.
  - destruct sent as [|x [|]]; [constructor|discriminate..].
  - destruct sent as [|x sent]; [constructor|]. injection Heq as -> Heq. destruct sent as [|y sent]; [by econstructor|].
    injection Heq as -> ->. econstructor; [done|done|done|]. by apply Forall_app in Hr as [Hr _].
Qed.

Lemma taken_loose f s : taken f s → loose s.
Proof. by apply holding_loose. Qed.
Lemma ready_loose f s : ready f s → loose s.
Proof. apply holding_loose, handshake_order_prefix. Qed.

Lemma dispatching_taken s p f j :
  dispatching s → writer_outstanding s < io_queue_messages (process_limits s) →
  proxy_ok p → same_session (session_proxy s) p → observer_ok p j →
  queued_for_server s = f :: frames (queue p ClientToServer) →
  taken f (set_journal j (set_proxy p s)).
Proof.
  intros ([[[B1 B2 B3 B4 B5] Hp] He] & Ht & Hc) Hlt Hok [Hl Hs] Hobs Hq.
  assert (Hact : (is_running (lifecycle s) || is_graceful (lifecycle s)) = true) by (by destruct (lifecycle s)).
  assert (Hph : handshake (initialization s) delivered (handed s) (queued_for_server s) ∧
    accepted = map frame_json_bytes (handed s ++ queued_for_server s) ∧
    (writer_close_requested s = false → writer_tx s = true) ∧
    process_tx s = true ∧ exit_report s = None ∧ requested_outcome s = None).
  { unfold phase in Hp. by destruct (lifecycle s). }
  destruct Hph as (P1 & P2 & P3 & P4 & P5 & P6). rewrite Hq in *. unfold taken, holding.
  split_and!; [|exact Hact|exact Hc|by apply P3|exact P4|exact P5|exact P6|exact Hlt|exact P1|exact P2].
  split; [exact Hok|exact Hobs|by destruct B3; split| |exact B5].
  unfold max_line. change (session_proxy (set_journal j (set_proxy p s))) with p. rewrite Hl. exact B4.
Qed.

Lemma observe_dispatched_ready f : triple (taken f) (observe_dispatched_frame f) (λ _, ready f).
Proof.
  intros s Hs. pose proof (taken_loose f s Hs) as Hloose.
  destruct Hs as (Hb & Hl & Hc & Ht & Hp & Hr & Hq & Hlt & Hh & Ha).
  destruct (handshake_dispatch _ _ _ _ _ Hh) as [Hd Hi]. unfold observe_dispatched_frame, method_is.
  assert (Hready : ∀ next, next = after_dispatch (initialization s) → ready f (set_initialization next s)).
  { intros next ->. unfold ready, holding. split_and!; try done.
    destruct Hb as [B1 B2 [] B4 B5]. split; [exact B1|exact B2|by split|exact B4|exact B5]. }
  destruct (initialization s) as [|i|i|i| | |] eqn:Ei; try done.
  - destruct Hi as (H1 & H2 & H3). rewrite !bool_decide_eq_true_2 by done. cbn [andb]. by apply Hready.
  - destruct Hi as (H1 & H2). rewrite !bool_decide_eq_true_2 by done. cbn [andb]. by apply Hready.
  - unfold ready, holding. rewrite Ei. done.
Qed.

Lemma holding_same f sent queued s s' :
  core s' = core s → (sent s' = sent s) → (queued s' = queued s) → holding f sent queued s → holding f sent queued s'.
Proof.
  intros E E1 E2 (Hb & H). split; [by apply (base_same s)|]. unfold handed, commands_of, queued_for_server in *.
  injection E as El Ep Ej Ei Elc Et Ept Eo Ecr Er Ed Ew Erp Ek. rewrite El, Ep, Ei, Elc, Et, Ept, Eo, Ecr, Er, Erp, Ek, E1, E2. exact H.
Qed.

Lemma run_workers_handed actions s : handed (run_workers actions s) = handed s.
Proof.
  unfold run_workers. revert s. induction actions as [|a actions IH]; intros s; [done|]. cbn [fold_left].
  destruct (worker_step_keeps a s) as (_ & Hh & _). cbv zeta in Hh. rewrite <-Hh.
  exact (IH (set_workers (worker_step (max_line s) a (workers s)) s)).
Qed.

Lemma steady_ready f : steady (ready f).
Proof.
  split.
  - intros s actions (Hb & Hl & Hc & Ht & Hp & Hr & Hq & Hlt & Hh & Ha). destruct (run_workers_keeps actions s Hb) as (Hb' & _ & _).
    unfold ready, holding. rewrite run_workers_handed. done.
  - intros s s' E. assert (Ek : workers s' = workers s ∧ session_proxy s' = session_proxy s)
      by (by injection E as El Ep Ej Ei Elc Et Ept Eo Ecr Er Ed Ew Erp Ek).
    destruct Ek as [Ek Ep]. apply (holding_same f _ _ s s' E); unfold handed, commands_of, queued_for_server; by rewrite ?Ek, ?Ep.
Qed.

(** The frame was handed over and the counters are about to follow. *)
Definition handed_over s : Prop :=
  writer_outstanding s + 1 <= ABSOLUTE_MAX_IO_QUEUE_MESSAGES ∧
  dispatched_client_frames s = Z.min u64_max (len (handed s) - 1) ∧
  dispatching (set_dispatched (Z.min u64_max (len (handed s))) (set_outstanding (writer_outstanding s + 1) s)).

Lemma writer_send_frame f :
  triple (ready f) (writer_try_send (Command_Frame f))
    (λ r s, match r with Ok _ => handed_over s | Err Send_Full => False | Err Send_Disconnected => ready f s end).
Proof.
  apply (triple_bind _ (λ _, ready f)); [apply triple_interleave; [apply steady_ready|done]|intros []].
  intros s Hs. pose proof Hs as ([B1 B2 [L1 L2 L3 L4 L5 L6 L7] B4 B5] & Hl & Hc & Ht & Hp & Hr & Hq & Hlt & Hh & Ha).
  cbv zeta beta. set (l := writer_link (workers s)) in *. unfold commands_of in *. fold l in L2, L3.
  pose proof (try_send_cases (writer_commands l) (Command_Frame f)) as Hsend.
  destruct (try_send (writer_commands l) (Command_Frame f)) as [[u|[]] ch].
  - destruct Hsend as (Hrc & _ & ->).
    set (ch' := mkChannel (ch_capacity (writer_commands l)) _ _ _ _).
    set (s' := set_writer_link (with_writer_commands ch' l) s).
    assert (Hhanded : handed s' = handed s ++ [f]) by (unfold handed; cbn; by rewrite command_frames_app).
    assert (Hlen : len (handed s') = len (handed s) + 1) by (rewrite Hhanded, len_app; done).
    unfold handed_over. split_and!; [change (writer_outstanding s') with (writer_outstanding s); lia| |].
    { change (dispatched_client_frames s') with (dispatched_client_frames s). rewrite Hlen, L6. f_equal. lia. }
    split; [|split; [|exact Hc]].
    2: { change (is_terminating (lifecycle s) = false). by destruct (lifecycle s). }
    split; [|change (is_exited (lifecycle s) = false); by destruct (lifecycle s)].
    split.
    + split; [exact B1|exact B2| |exact B4|exact B5].
      split; [exact (writer_ok_push _ _ (Command_Frame f) L1 Hrc ltac:(done))|exact L2|exact L3| |exact L5|done|].
      * change (0 <= writer_outstanding s + 1 <= io_queue_messages (process_limits s)). lia.
      * change (written_client_frames s = Z.min u64_max (len (handed s') - (writer_outstanding s + 1))).
        rewrite Hlen, L7. f_equal. lia.
    + unfold phase. set (s2 := set_dispatched _ _). change (lifecycle s2) with (lifecycle s).
      assert (Hall : handshake (initialization s) delivered (handed s') (queued_for_server s) ∧
        accepted = map frame_json_bytes (handed s' ++ queued_for_server s)).
      { rewrite Hhanded. split; [exact Hh|]. by rewrite Ha, <-app_assoc. }
      destruct Hall as [Hh' Ha']. destruct (lifecycle s); [..|discriminate|discriminate];
        (split_and!; [exact Hh'|exact Ha'|done|done|done|done]).
  - exfalso. destruct Hsend as (_ & Hfull & _). pose proof (frames_pending_in_flight l) as Hf.
    rewrite command_frames_len in Hf by (apply (writer_open _ _ L1); by rewrite L3).
    pose proof (writer_in_flight _ _ L1). lia.
  - destruct Hsend as [_ ->]. apply (proj2 (steady_ready f) s); [|done]. unfold core. destruct s as [? ? ? ? ? ? ? ? ? ? ? ? ? ? ? ? ? ? ? ? ? ? ? ? w ?].
    by destruct w as [[] ? ? ?].
Qed.

Lemma hand_to_writer_over f : triple (ready f) (hand_to_writer f) (λ _, handed_over).
Proof.
  unfold hand_to_writer. apply triple_get. intros s0. intros s [-> Hs]. pose proof Hs as (_ & _ & _ & Ht & _).
  rewrite Ht. cbn [negb]. revert s0 Hs Ht. intros s Hs _. revert s Hs.
  change (triple (ready f) (let* sent := writer_try_send (Command_Frame f) in match sent with
    | Ok _ => mut_ret tt
    | Err Send_Full => terminate_with TransportFailure (Process_WorkerDisconnected (lit "stdin-capacity"))
    | Err Send_Disconnected => terminate_with TransportFailure (Process_WorkerDisconnected (lit "stdin"))
    end) (λ _, handed_over)).
  eapply triple_bind; [apply writer_send_frame|]. intros [u|[]].
  - by apply triple_ret.
  - by intros s [].
  - apply triple_terminate; [done|exact expected_stdin|apply ready_loose].
Qed.

Lemma dispatch_frame_dispatching f progress :
  triple (λ s, noted (session_proxy s) (record_forwarded (frame_observation f) (session_events s)) ∧
      ∀ j, observer_ok (session_proxy s) j → taken f (set_journal j s))
    (dispatch_frame f progress) (λ _, dispatching).
Proof.
  unfold dispatch_frame. apply (triple_bind _ (λ _, taken f)).
  { apply triple_record. intros s (Hn & Hall). exists (session_proxy s). split_and!; [done|done|].
    intros j' Hj'. by eapply taken_loose, Hall. }
  intros []. apply (triple_bind _ (λ _, ready f)); [apply observe_dispatched_ready|intros []].
  apply (triple_bind _ (λ _, handed_over)); [apply hand_to_writer_over|intros []].
  intros s (Hn & Hd & Ha). unfold mut_bind at 1, mut_get. unfold usize_increment at 1.
  unfold ABSOLUTE_MAX_IO_QUEUE_MESSAGES in Hn.
  rewrite (proj2 (checked_add_Some usize_max (writer_outstanding s) 1 _)) by (split; [reflexivity|unfold usize_max, u64_max; lia]).
  unfold mut_bind at 1, mut_lift at 1. cbn [ok_or]. unfold mut_bind at 1, update at 1.
  set (s1 := set_outstanding (writer_outstanding s + 1) s) in *.
  change (dispatched_client_frames s1) with (dispatched_client_frames s).
  unfold process_counter_increment. destruct (checked_add u64_max (dispatched_client_frames s) 1) as [d|] eqn:E; cbn [ok_or].
  - apply checked_add_Some in E as [-> E]. unfold mut_bind at 1, mut_lift at 1. unfold mut_bind at 1, update at 1.
    replace (dispatched_client_frames s + 1) with (Z.min u64_max (len (handed s))) by (rewrite Hd in *; lia).
    unfold mut_bind at 1, mut_lift at 1, usize_increment.
    destruct (ok_or _ _) as [count|e] eqn:Eo; [exact Ha|]. apply (expected_ok_or _ Process_DiagnosticCounterOverflow) in Eo; [|done].
    split; [done|]. apply Ha.
  - split; [done|]. apply (invariant_same (set_dispatched (Z.min u64_max (len (handed s))) s1)); [|apply Ha].
    assert (dispatched_client_frames s = u64_max).
    { unfold checked_add in E. destruct (Z.leb_spec (dispatched_client_frames s + 1) u64_max) as [|H]; [done|rewrite Hd in *; lia]. }
    replace (Z.min u64_max (len (handed s))) with (dispatched_client_frames s) by (rewrite Hd in *; lia). done.
Qed.

Lemma dispatch_loop_alive now n progress : triple dispatching (dispatch_loop instant_max now n progress) (λ _, alive).
Proof.
  revert progress. induction n as [|n IH]; intros progress; cbn [dispatch_loop]; [by (apply triple_ret; intros s (?&?))|].
  apply triple_get. intros s0. destruct ((writer_outstanding s0 <? _) && _) eqn:Eb; [|by (apply triple_ret; intros s (->&?&?))].
  apply andb_prop in Eb as [Hlt%Z.ltb_lt _].
  apply (triple_bind _ (λ r s, match r with
    | None => alive s
    | Some f => noted (session_proxy s) (record_forwarded (frame_observation f) (session_events s)) ∧
                ∀ j, observer_ok (session_proxy s) j → taken f (set_journal j s)
    end)).
  - apply triple_on_proxy. intros s [-> Hd]. split; [apply Hd|]. pose proof Hd as ([[[B1 B2 _ _ _] _] _] & _).
    pose proof (release_step json_stream json_custom instant_max Hst Hcf Hkf (session_proxy s0) ClientToServer now B1) as Hr.
    destruct (release instant_max ClientToServer now (session_proxy s0)) as [[[f|]|e] p]; [| |done].
    + destruct Hr as ((fs & Hfr & Hfs) & _ & _ & _ & Hp & Hsame & Hj). split; [by apply Hj|].
      intros j Hobs. apply dispatching_taken; try done. unfold queued_for_server. by rewrite Hfr, Hfs.
    + destruct Hr as (Hnil & Hp & Hsame & Hq & Hj). apply (alive_same (set_journal (session_events s0) (set_proxy p s0))); [done|].
      apply alive_proxy; [apply Hd|done|done|by apply Hj|by rewrite Hq].
  - intros [f|]; [|by apply triple_ret]. eapply triple_bind; [apply dispatch_frame_dispatching|]. intros progress'. apply IH.
Qed.

Lemma dispatch_client_frames_alive now progress :
  triple alive (dispatch_client_frames instant_max now progress) (λ _, alive).
Proof.
  unfold dispatch_client_frames. apply triple_get. intros s0.
  destruct (_ || _) eqn:Eb; [by (apply triple_ret; intros s (->&Ha))|].
  apply orb_false_elim in Eb as [Eb Hc]. apply orb_false_elim in Eb as [Ht _].
  eapply triple_weaken; [apply dispatch_loop_alive| |done]. intros s [-> Ha]. by split_and!.
Qed.

(** *** Shutdown and exit *)

Definition closing s : Prop := alive (drop_writer_tx (set_close_requested true s)).

Lemma writer_send_close :
  triple (λ s, alive s ∧ writer_tx s = true) (writer_try_send Command_Close)
    (λ r s, match r with Ok _ => closing s | Err _ => alive s end).
Proof.
  apply (triple_bind _ (λ _ s, alive s ∧ writer_tx s = true)).
  { apply triple_interleave; [|done]. split; [by intros s actions [Ha Ht]; split; [apply steady_alive|]|].
    intros s s' E [Ha Ht]. split; [by apply (alive_same s)|]. injection E as _ _ _ _ _ Et _ _ _ _ _ _ _ _. by rewrite Et. }
  intros [] s [Ha Ht]. pose proof Ha as [[[B1 B2 [L1 L2 L3 L4 L5 L6 L7] B4 B5] Hp] He].
  cbv zeta beta. set (l := writer_link (workers s)) in *. unfold commands_of in *. fold l in L2, L3.
  pose proof (try_send_cases (writer_commands l) Command_Close) as Hsend.
  assert (Hsame : alive (set_writer_link (with_writer_commands (writer_commands l) l) s)).
  { apply (alive_same s); [|done]. unfold core. destruct s as [? ? ? ? ? ? ? ? ? ? ? ? ? ? ? ? ? ? ? ? ? ? ? ? w ?].
    by destruct w as [[] ? ? ?]. }
  destruct (try_send (writer_commands l) Command_Close) as [[u|[]] ch].
  - destruct Hsend as (Hrc & _ & ->). unfold closing, drop_writer_tx.
    change (writer_tx (set_close_requested true _)) with (writer_tx s). rewrite Ht.
    set (s' := set_writer_tx false _).
    assert (Hhanded : handed s' = handed s) by (unfold handed; cbn; by rewrite command_frames_app, app_nil_r).
    split; [|exact He]. split.
    + split; [exact B1|exact B2| |exact B4|exact B5].
      split; [|exact L2|done|exact L4|exact L5|by rewrite Hhanded|by rewrite Hhanded].
      pose proof (writer_ok_push _ _ Command_Close (writer_ok_drop _ _ L1) Hrc ltac:(done)) as Hpush.
      rewrite Z.add_0_r in Hpush. exact Hpush.
    + unfold phase, ordered in *. change (lifecycle s') with (lifecycle s). rewrite Hhanded.
      destruct (lifecycle s); [..|discriminate]; naive_solver.
  - destruct Hsend as (_ & _ & ->). exact Hsame.
  - destruct Hsend as (_ & ->). exact Hsame.
Qed.

Lemma drop_terminated s o : alive s → cause o → alive (begin_termination o (drop_writer_tx s)).
Proof.
  intros Ha Hc. pose proof (alive_loose s Ha) as (Hb & Ho & He & Hp & Hr & Hq).
  destruct (drop_writer_tx_keeps s) as (D1 & D2 & D3 & D4 & D5 & D6 & D7 & D8 & D9 & D10 & D11).
  assert (Hl : loose (drop_writer_tx s)).
  { unfold loose, ordered. rewrite D3, D4, D5, D7, D8. unfold ordered in Ho. split; [by apply D1|done]. }
  split; [by apply begin_termination_ends|]. apply begin_not_exited. by rewrite D4.
Qed.

Lemma advance_shutdown_alive now : triple alive (advance_shutdown now) (λ _, alive).
Proof.
  unfold advance_shutdown. apply triple_get. intros s0.
  destruct (lifecycle s0) eqn:El; try (by (apply triple_ret; intros s (->&Ha))).
  destruct (bool_decide _); [by (apply triple_ret; intros s (->&Ha))|].
  destruct (deadline <=? now).
  { apply triple_updated. intros s [-> Ha]. by apply alive_begin. }
  destruct (_ && _); [|by (apply triple_ret; intros s (->&Ha))].
  destruct (writer_tx s0) eqn:Et; cbn [negb].
  2: { apply triple_terminate; [done|exact expected_stdin|]. intros s [-> Ha]. by apply alive_loose. }
  eapply triple_bind.
  { eapply triple_weaken; [apply writer_send_close| |intros r s H; exact H]. by intros s [-> Ha]. }
  intros [u|[]].
  - apply triple_update. apply triple_updated. by intros s (s1 & Hs & ->).
  - by apply triple_ret.
  - intros s Ha. split; [exact expected_stdin|]. by apply drop_terminated.
Qed.

Lemma advance_deadlines_alive now s : alive s → alive (advance_deadlines now s).
Proof.
  intros Ha. unfold advance_deadlines. destruct (_ || _); [done|]. destruct (_ && _); [by apply alive_begin|].
  destruct (_ <=? _); [by apply alive_begin|done].
Qed.

Lemma closed_ok p j :
  proxy_ok p → observer_ok p j →
  proxy_ok (close_proxy p).1 ∧ observer_ok (close_proxy p).1 (clear_correlations j) ∧
  proxy_limits (close_proxy p).1 = proxy_limits p.
Proof.
  intros Hp (Hok & Hle & Hf). set (op := Op_Close). assert (Hop : operation_ok json_stream json_custom op) by done.
  pose proof (perform_spec json_stream json_custom instant_max p op Hst Hcf Hp Hop) as Ht.
  pose proof (transition_ok _ _ _ _ Hcf Hp Ht) as Hp'.
  assert (Hrun : last_sequence j < u64_max → follows (close_proxy p).1 (clear_correlations j)).
  { intros Hlt. destruct (observe_run json_stream json_custom instant_max p op j Hst Hcf Hkf Hp Hop (Hf Hlt)) as (_ & H & _);
      [cbn; lia|]. by cbn [Proxy.perform op] in H; destruct (close_proxy p). }
  cbn [Proxy.perform op snd] in Hp'. split_and!; [by destruct (close_proxy p)| |by destruct p].
  split_and!; [|done|exact Hrun]. apply journal_ok_correlations; [done|]. apply (journal_correlations _ Hok).
Qed.

Lemma close_session_over exit drained s : alive s → invariant (close_session exit drained s).
Proof.
  intros Ha. pose proof (alive_loose s Ha) as ([B1 B2 B3 B4 B5] & Ho & He & Hp & _ & Hcause).
  destruct (closed_ok _ _ B1 B2) as (C1 & C2 & C3). unfold close_session.
  destruct (close_proxy (session_proxy s)) as [p report]. cbn [fst] in *.
  set (s1 := set_lifecycle Exited _).
  assert (Hb1 : base s1).
  { split; [exact C1|exact C2|by destruct B3; split| |exact B5]. apply reader_ok_recv; [done|].
    unfold max_line. change (session_proxy s1) with p. rewrite C3. exact B4. }
  destruct (drop_writer_tx_keeps s1) as (D1 & D2 & D3 & D4 & D5 & D6 & D7 & D8 & D9 & D10 & D11).
  set (s2 := drop_writer_tx s1) in *. unfold drop_process_tx. rewrite D5. change (process_tx s1) with (process_tx s). rewrite Hp.
  set (s3 := set_process_tx false _). split.
  - destruct (D1 Hb1) as [E1 E2 E3 E4 E5]. split; [exact E1|exact E2|by destruct E3; split|exact E4|].
    destruct E5 as [F1 F2]. split; [exact F1|exact F2].
  - unfold phase. change (lifecycle s3) with (lifecycle s2). rewrite D4. change (lifecycle s1) with Exited. cbv match.
    assert (Hh : handed s3 = handed s) by exact D3.
    split_and!; [unfold ordered; rewrite Hh; exact Ho|exact D2|done| |].
    + change (exit_report s3) with (exit_report s2). rewrite D7. done.
    + change (requested_outcome s3) with (requested_outcome s2). rewrite D8. exact Hcause.
Qed.

Lemma finish_process_exit_over now : triple alive (finish_process_exit now) (λ _, invariant).
Proof.
  unfold finish_process_exit. apply triple_alive_get. intros s0.
  destruct (process_exit s0) as [exit|]; [|by (apply triple_ret; intros s (?&?))].
  destruct (_ && _); [by (apply triple_ret; intros s (?&?))|].
  apply (triple_bind _ (λ _, alive)); [apply triple_interleave; [apply steady_alive|done]|intros _].
  apply triple_updated. intros s Ha. by apply close_session_over.
Qed.

Lemma triple_monotonic {B} now s0 Q (k : unit → method B) :
  triple (λ s, s = s0 ∧ invariant s0) (k tt) Q →
  triple (λ s, s = s0 ∧ invariant s0) (mut_bind (mut_lift (ensure_monotonic now s0)) k) Q.
Proof.
  intros Hk. apply triple_lift; [|by intros []]. intros e. unfold ensure_monotonic. destruct (_ <? _); [|done].
  intros [= <-]. split; [done|]. by intros s [-> Hi].
Qed.

(** Every poll, whatever the workers do, keeps the invariant. *)
Lemma poll_keeps now : triple invariant (poll json_stream json_custom instant_max now) (λ _, invariant).
Proof.
  unfold poll. apply triple_get. intros s0.
  apply triple_monotonic. apply triple_update. destruct (is_exited (lifecycle s0)) eqn:He.
  { apply triple_ret. intros s (s1 & [-> Hi] & ->). by apply (invariant_same s0). }
  apply (triple_weaken alive _ _ (λ _, invariant)); [| |done].
  2: { intros s (s1 & [-> Hi] & ->). apply (alive_same s0); [done|]. by split. }
  apply triple_alive_bind; [apply consume_process_event_alive|intros _].
  apply triple_alive_bind; [apply consume_writer_events_alive|intros progress].
  apply triple_alive_bind; [apply consume_stderr_event_alive|intros _].
  apply triple_alive_bind; [apply consume_reader_events_alive|intros progress'].
  apply triple_alive_bind; [apply advance_stream_closure_alive|intros _].
  apply triple_alive_bind; [apply expire_alive|intros progress''].
  apply triple_alive_bind; [apply dispatch_client_frames_alive|intros progress'''].
  apply triple_alive_bind; [apply advance_shutdown_alive|intros _].
  apply triple_alive_bind; [apply triple_updated; intros s; apply advance_deadlines_alive|intros _].
  apply (triple_bind _ (λ _, invariant)); [apply finish_process_exit_over|intros _].
  apply triple_update. apply triple_ret. intros s (s1 & Hi & ->). by apply (invariant_same s1).
Qed.
End History.

(** ** The caller's operations *)

Section Calls.
Context (accepted : list bytes) (delivered : list AppServerProxyFrame).
Abbreviation inv := (invariant accepted delivered).
Abbreviation hoare := (triple accepted delivered).

Lemma send_accepted s p o line next j :
  alive accepted delivered s → is_running (lifecycle s) = true →
  client_initialization_after (initialization s) o = Some next →
  proxy_ok p → same_session (session_proxy s) p → observer_ok p j →
  frames (queue p ClientToServer) = queued_for_server s ++ [mkFrame o line] →
  invariant (accepted ++ [line]) delivered (set_initialization next (set_journal j (set_proxy p s))).
Proof.
  intros [[[B1 B2 B3 B4 B5] Hp] He] Hl Hn Hok [Hsl Hss] Hobs Hq. unfold phase in Hp.
  destruct (lifecycle s) eqn:El; try discriminate. destruct Hp as (P1 & P2 & P3 & P4 & P5 & P6).
  set (s' := set_initialization _ _). split.
  - split; [exact Hok|exact Hobs|by destruct B3; split| |exact B5].
    unfold max_line. change (session_proxy s') with p. rewrite Hsl. exact B4.
  - unfold phase. change (lifecycle s') with (lifecycle s). rewrite El.
    change (queued_for_server s') with (frames (queue p ClientToServer)). rewrite Hq.
    split_and!; [by eapply handshake_accept| |exact P3|exact P4|exact P5|exact P6].
    rewrite P2. change (handed s') with (handed s). by rewrite app_assoc, (map_app _ (_ ++ _)).
Qed.

Lemma send_client_keeps line :
  hoare inv (send_client json_stream json_custom line) (λ _, invariant (accepted ++ [line]) delivered).
Proof.
  intros s Hi. unfold send_client. destruct (is_running (lifecycle s)) eqn:Er; cbn [negb]; [|done].
  assert (Ha : alive accepted delivered s) by (split; [done|by destruct (lifecycle s)]).
  pose proof Hi as [[B1 B2 _ _ _] _].
  destruct (prepare json_stream json_custom (session_proxy s) ClientToServer line) as [c|e] eqn:Ec.
  2: { split; [|done]. pose proof (benign_prepare json_stream json_custom (session_proxy s) ClientToServer line) as Hb. by rewrite Ec in Hb. }
  destruct (prepare_Ok _ _ _ _ _ _ Hst Ec) as (_ & _ & Hm).
  destruct (client_initialization_after _ _) as [next|] eqn:En.
  2: { by apply (triple_alive_terminate accepted delivered ProtocolFailure Process_InitializationSequenceViolation). }
  destruct (evaluate (interception s) _) as [|rule]; [|by apply (block_alive accepted delivered s _ line rule)].
  pose proof (admit_step json_stream json_custom instant_max Hst Hcf Hkf (session_proxy s) ClientToServer line c B1 Ec) as Hs.
  unfold on_proxy, mut_bind at 1. destruct (admit_proxy c (session_proxy s)) as [[o|e] p]; cbn [map_err].
  2: { destruct Hs as [He ->]. split; [exact He|]. by apply (invariant_same _ _ s). }
  destruct Hs as (-> & _ & _ & Hp & Hsame & _ & Hq & _ & Hj). specialize (Hj _ B2). set (s1 := set_proxy p s).
  apply (triple_bind accepted delivered (λ s', s' = s1) (λ _ s', ∃ j, observer_ok p j ∧ s' = set_journal j s1)); [| |done].
  - apply triple_record. intros s' ->. exists p. split_and!; [exact Hj|intros j Hobs; by exists j|].
    intros j Hobs. pose proof (alive_loose _ _ s Ha) as ([C1 C2 C3 C4 C5] & L2 & L3).
    split; [|split; [exact L2|exact L3]]. split; [exact Hp|exact Hobs|by destruct C3; split| |exact C5].
    unfold max_line. change (session_proxy (set_journal j s1)) with p. rewrite (same_limits _ _ Hsame). exact C4.
  - intros [] s' (j & Hobs & ->). by eapply (send_accepted s).
Qed.

(** A frame delivered to the client. *)
Lemma invariant_delivered f s : inv s → invariant accepted (delivered ++ [f]) s.
Proof.
  intros [Hb Hp]. split; [done|]. unfold phase, ordered in *.
  destruct (lifecycle s).
  1,2: destruct Hp as [H1 H2]; split; [by apply handshake_snoc|exact H2].
  all: destruct Hp as [[H1 H2] H3]; split; [split; [by apply handshake_order_snoc|exact H2]|exact H3].
Qed.

Lemma observe_delivery_keeps f :
  hoare (alive accepted delivered) (observe_client_delivery f) (λ _, invariant accepted (delivered ++ [f])).
Proof.
  intros s Ha. unfold observe_client_delivery.
  assert (Hd : invariant accepted (delivered ++ [f]) s) by apply invariant_delivered, Ha.
  destruct (initialization s) as [|i|i|i| | |] eqn:Ei; try exact Hd.
  case_bool_decide as Hk; cbn [andb].
  1: case_bool_decide as Hid.
  2,3: case_bool_decide; [exact Hd|];
    by apply (triple_alive_terminate accepted delivered ProtocolFailure Process_UnexpectedServerInitializationMessage
                (λ _, invariant accepted (delivered ++ [f]))).
  destruct Hd as [[B1 B2 [] B4 B5] Hp]. split; [split; [exact B1|exact B2|by split|exact B4|exact B5]|].
  unfold phase in *. change (lifecycle (set_initialization AwaitingInitialized s)) with (lifecycle s).
  assert (Hans : handshake (initialization s) (delivered ++ [f]) (handed s) (queued_for_server s) →
    handshake AwaitingInitialized (delivered ++ [f]) (handed s) (queued_for_server s)).
  { rewrite Ei. intros (H1 & g & H2 & H3). split; [done|]. exists i, g. split_and!; [done|done|].
    exists f. split; [|done]. apply elem_of_app. right. by apply list_elem_of_singleton. }
  destruct (lifecycle s); [..|exact Hp|exact Hp]; (destruct Hp as [H1 H2]; split; [exact (Hans H1)|exact H2]).
Qed.

Lemma next_for_client_keeps now :
  hoare inv (next_for_client instant_max now) (λ r, invariant accepted (delivered ++ option_list r)).
Proof.
  unfold next_for_client. apply triple_get. intros s0. apply triple_monotonic.
  destruct (is_exited (lifecycle s0)) eqn:He.
  { apply triple_update, triple_ret. cbn [option_list]. rewrite app_nil_r. intros s (s1 & [-> Hi] & ->). by apply (invariant_same _ _ s0). }
  apply (triple_bind _ _ _ (λ r s, match r with
    | None => inv s
    | Some f => noted (session_proxy s) (record_forwarded (frame_observation f) (session_events s)) ∧
                ∀ j, observer_ok (session_proxy s) j → alive accepted delivered (set_journal j s)
    end)).
  - apply triple_on_proxy. intros s [-> Hi]. split; [done|]. pose proof Hi as [[B1 B2 _ _ _] _].
    assert (Ha : alive accepted delivered s0) by done.
    pose proof (release_step json_stream json_custom instant_max Hst Hcf Hkf (session_proxy s0) ServerToClient now B1) as Hr.
    destruct (release instant_max ServerToClient now (session_proxy s0)) as [[[f|]|e] p]; [| |done].
    + destruct Hr as (_ & Hq & _ & _ & Hp & Hsame & Hj). split; [by apply Hj|]. intros j Hobs. by apply alive_proxy.
    + destruct Hr as (Hnil & Hp & Hsame & Hq & Hj).
      apply (invariant_same _ _ (set_journal (session_events s0) (set_proxy p s0))); [done|].
      apply alive_proxy; [done|done|done|by apply Hj|by rewrite Hq].
  - intros r. apply (triple_bind _ _ _ (λ _, invariant accepted (delivered ++ option_list r))).
    + destruct r as [f|]; [|apply triple_ret; cbn; by rewrite app_nil_r].
      apply (triple_bind _ _ _ (λ _, alive accepted delivered)); [|intros []; apply observe_delivery_keeps].
      apply triple_record. intros s [Hn Hall]. exists (session_proxy s). split_and!; [done|exact Hall|].
      intros j Hobs. by apply alive_loose, Hall.
    + intros []. apply triple_update, triple_ret. intros s (s1 & Hi & ->). by apply (invariant_same _ _ s1).
Qed.

Lemma shutdown_keeps mode now : hoare inv (shutdown instant_max mode now) (λ _, inv).
Proof.
  unfold shutdown. apply triple_get. intros s0. apply triple_monotonic.
  assert (Htime : ∀ P, (∀ s, P s → inv s) → hoare P (update (set_session_time now)) (λ _, inv)).
  { intros P HP. apply triple_updated. intros s Hs. by apply (invariant_same _ _ s); [|apply HP]. }
  destruct (is_exited (lifecycle s0)) eqn:He; [apply Htime; by intros s [-> Hi]|].
  apply (triple_bind _ _ _ (λ _, inv)); [|intros []; by apply Htime].
  destruct mode.
  - destruct (is_running (lifecycle s0)) eqn:Er; [|by apply triple_ret; intros s [-> Hi]].
    apply triple_lift; [intros e Hx; split; [by eapply (expected_ok_or _ Process_DeadlineOverflow)|by intros s [-> Hi]]|].
    intros deadline _. apply triple_updated. intros s [-> [[B1 B2 [] B4 B5] Hp]].
    split; [split; [exact B1|exact B2|by split|exact B4|exact B5]|].
    unfold phase in *. destruct (lifecycle s0) eqn:El; try discriminate. exact Hp.
  - apply triple_updated. intros s [-> Hi]. by apply invariant_begin.
Qed.

Lemma next_session_event_keeps s : inv s → inv (next_session_event s).2.
Proof.
  intros [[B1 B2 [] B4 B5] Hp]. unfold next_session_event.
  assert (Hobs : observer_ok (session_proxy s) (next_event (session_events s)).2).
  { destruct B2 as (H1 & H2 & H3). split_and!; [by apply next_event_ok|exact H2|].
    intros Hlt. destruct (H3 Hlt) as [F1 F2 F3 F4]. split; [by apply next_event_ok|done..]. }
  destruct (next_event (session_events s)) as [event j]. cbn [snd] in *.
  split; [split; [exact B1|exact Hobs|by split|exact B4|exact B5]|exact Hp].
Qed.
End Calls.
End Laws.
