(* ===== verification/ProcessSessionSpec.v ===== *)
(** * ProcessSessionSpec: what an attached app-server session promises

    The sessions a caller and the workers can produce, and what holds of all of
    them: the order and the bytes of what the child is given, the errors a call
    returns, the bounds, the end of the session and its deadlines. *)

From S2P Require Import Prelude ProxyMessage Proxy Controls ControlsLaws ProcessWorkers ProcessSession ProcessSessionLaws.

(** ** A channel only takes in more *)

(** What was accepted stays accepted, and so does what is pending. *)
Record fed {A} (ch ch' : Channel A) : Prop := {
  fed_accepted : ∀ a, a ∈ ch_accepted ch → a ∈ ch_accepted ch';
  fed_pending : (∀ a, a ∈ ch_pending ch → a ∈ ch_accepted ch) → ∀ a, a ∈ ch_pending ch' → a ∈ ch_accepted ch'
}.

#[local] Instance fed_refl {A} : Reflexive (fed (A := A)).
Proof. by intros ch; split. Qed.
#[local] Instance fed_trans {A} : Transitive (fed (A := A)).
Proof. intros ch1 ch2 ch3 [A1 A2] [B1 B2]. split; auto. Qed.

Lemma fed_same {A} (ch ch' : Channel A) :
  ch_accepted ch' = ch_accepted ch → ch_pending ch' ⊆ ch_pending ch → fed ch ch'.
Proof. intros E Hp. split; rewrite E; auto. Qed.

Lemma fed_recv {A} (ch : Channel A) : fed ch (try_recv ch).2.
Proof.
  unfold try_recv. destruct (ch_pending ch) as [|a rest] eqn:E; [reflexivity|].
  apply fed_same; [done|]. rewrite E. cbn. set_solver.
Qed.

Lemma fed_send {A} (ch ch' : Channel A) a r : send ch a = Some (r, ch') → fed ch ch'.
Proof.
  unfold send, try_send. destruct (negb _); [by intros [= _ <-]|]. destruct (_ <=? _); [done|]. intros [= _ <-].
  split; cbn; [|intros H]; intros b; rewrite !elem_of_app; naive_solver.
Qed.

Lemma fed_drop_sender {A} (ch : Channel A) : fed ch (drop_sender ch).
Proof. by apply fed_same. Qed.
Lemma fed_drop_receiver {A} (ch : Channel A) : fed ch (drop_receiver ch).
Proof. apply fed_same; [done|]. cbn. set_solver. Qed.

Lemma fed_reader_worker `{Alloc : Allocator} limit io l : fed (reader_events l) (reader_events (reader_worker limit io l)).
Proof.
  unfold reader_worker. destruct (reader_state l) as [line buffered|event line buffered|]; [| |reflexivity].
  - destruct (match buffered, io with [], Ok _ => _ | [], Err _ => _ | _, _ => _ end) as [[available read]|kind]; [|reflexivity].
    by destruct (reader_iteration _ _ _).
  - destruct (send (reader_events l) event) as [[r ch]|] eqn:E; [|reflexivity]. pose proof (fed_send _ _ _ _ E) as Hf.
    destruct r; [destruct event|]; cbn [reader_events]; (exact Hf || (etransitivity; [exact Hf|apply fed_drop_sender])).
Qed.

(** What the session is told of stdout. *)
Definition stdout_channel (s : AppServerProcessSession) : Channel ReaderEvent := reader_events (reader_link (workers s)).

Section Spec.
Context {JsonError : Type}.
Context (json_stream : bytes → json_tree (JsonError := JsonError) * option JsonError)
        (json_custom : JsonError).
Context `{HS : Sha256} `{Alloc : Allocator} (instant_max : Z).
Abbreviation Error := (AppServerProcessError JsonError).
Abbreviation method := (mut AppServerProcessSession Error).
Implicit Type s : AppServerProcessSession.

(** ** What only moves forward *)

(** The lifecycle never comes back. *)
Definition onward (l l' : LifecycleState) : Prop :=
  l' = l ∨ l' = Terminating ∧ is_exited l = false ∨ l' = Exited.

#[local] Instance onward_refl : Reflexive onward.
Proof. intros l. by left. Qed.
#[local] Instance onward_trans : Transitive onward.
Proof. intros l1 l2 l3 [->|[[-> H1]| ->]] [->|[[-> H2]| ->]]; unfold onward; auto; discriminate. Qed.

(** The terminal classification, from the cause that was requested. *)
Definition classify (requested : option AppServerProcessOutcome) (graceful success drained : bool) : AppServerProcessOutcome :=
  let outcome := match requested with
                 | Some outcome => outcome
                 | None => if graceful && success then CleanShutdown else if success then UnexpectedExit else Crash
                 end in
  if negb drained && bool_decide (outcome = CleanShutdown ∨ outcome = UnexpectedExit) then TransportFailure else outcome.

(** A report tells of an exit that was observed, of what had been requested by
    then and of a shutdown that was graceful. *)
Definition reported (graceful : bool) (r : AppServerProcessExitReport) s : Prop :=
  lifecycle s = Exited ∧ ∃ exit, process_exit s = Some exit ∧ report_exit_code r = exit_status_code exit ∧
    report_outcome r = classify (requested_outcome s) graceful (exit_success exit) (streams_drained r).

Record later s s' : Prop := {
  later_lifecycle : onward (lifecycle s) (lifecycle s');
  later_cause : ∀ o, requested_outcome s = Some o → requested_outcome s' = Some o;
  later_final : lifecycle s = Exited → requested_outcome s' = requested_outcome s;
  later_exit : ∀ e, process_exit s = Some e → process_exit s' = Some e;
  later_deadlines : initialization_deadline s' = initialization_deadline s ∧ runtime_deadline s' = runtime_deadline s ∧
    process_limits s' = process_limits s;
  later_handed : handed s `prefix_of` handed s';
  later_report : ∀ r, exit_report s' = Some r → exit_report s = Some r ∨
    ∃ graceful, reported graceful r s' ∧ (graceful = true → is_graceful (lifecycle s) = true);
  later_fed : fed (stdout_channel s) (stdout_channel s')
}.

(** What the relation watches. *)
Definition watched s :=
  (lifecycle s, requested_outcome s, process_exit s, initialization_deadline s, runtime_deadline s, process_limits s,
   handed s, exit_report s, stdout_channel s).

Lemma later_quiet s s' : watched s' = watched s → later s s'.
Proof.
  intros [= E1 E2 E3 E4 E5 E6 E7 E8 E9]. split; rewrite ?E1, ?E2, ?E3, ?E4, ?E5, ?E6, ?E7, ?E8, ?E9; try done. by left.
Qed.

Lemma reported_later graceful r s s' : reported graceful r s → later s s' → reported graceful r s'.
Proof.
  intros (Hl & exit & He & Hr) [A1 A2 A3 A4 _ _ _ _]. split.
  - rewrite Hl in A1. by destruct A1 as [|[[_ ?]|]].
  - exists exit. rewrite (A3 Hl). auto.
Qed.

#[local] Instance later_refl : Reflexive later.
Proof. intros s. by apply later_quiet. Qed.
#[local] Instance later_trans : Transitive later.
Proof.
  intros s1 s2 s3 H12 H23. pose proof (reported_later) as Hrep.
  destruct H12 as [A1 A2 A3 A4 (A5 & A6 & A7) A8 A9 A10]. pose proof H23 as [B1 B2 B3 B4 (B5 & B6 & B7) B8 B9 B10]. split; auto.
  - by etransitivity.
  - intros Hl. rewrite B3, A3; [done|done|]. rewrite Hl in A1. by destruct A1 as [|[[_ ?]|]].
  - split_and!; congruence.
  - by etransitivity.
  - intros r Hr. destruct (B9 r Hr) as [H2|(g & Hg & Hgr)].
    + destruct (A9 r H2) as [|(g & Hg & Hgr)]; [by left|]. right. exists g. split; [by eapply Hrep|done].
    + right. exists g. split; [done|]. intros Hgt. specialize (Hgr Hgt).
      destruct A1 as [<-|[[El _]|El]]; [done|rewrite El in Hgr; discriminate..].
  - by etransitivity.
Qed.

Definition moves {A} (m : method A) : Prop := ∀ s, later s (m s).2.
Definition moves_state (f : AppServerProcessSession → AppServerProcessSession) : Prop := ∀ s, later s (f s).

Lemma moves_ret {A} (a : A) : moves (mut_ret a).
Proof. intros s. cbn. reflexivity. Qed.
Lemma moves_lift {A} (r : result A Error) : moves (mut_lift r).
Proof. intros s. cbn. reflexivity. Qed.
Lemma moves_get : moves mut_get.
Proof. intros s. cbn. reflexivity. Qed.
Lemma moves_bind {A B} (m : method A) (k : A → method B) : moves m → (∀ a, moves (k a)) → moves (mut_bind m k).
Proof.
  intros Hm Hk s. specialize (Hm s). unfold mut_bind. destruct (m s) as [[a|e] s']; cbn in *; [|done].
  etransitivity; [exact Hm|apply Hk].
Qed.
Lemma moves_update f : moves_state f → moves (update f).
Proof. intros H s. apply H. Qed.

(** An update of fields that are not watched. *)
Lemma moves_quiet f : (∀ s, watched (f s) = watched s) → moves_state f.
Proof. intros H s. by apply later_quiet. Qed.

Lemma run_workers_fed actions s : fed (stdout_channel s) (stdout_channel (run_workers actions s)).
Proof.
  unfold stdout_channel, run_workers. cbn [workers set_workers]. generalize (workers s). generalize (max_line s). intros m.
  induction actions as [|a actions IH]; intros w; cbn [fold_left]; [reflexivity|]. etransitivity; [|apply IH].
  destruct a; cbn [worker_step reader_link]; [reflexivity|apply fed_reader_worker|reflexivity..].
Qed.

Lemma run_workers_moves actions : moves_state (run_workers actions).
Proof.
  intros s. split; try done; [by rewrite (run_workers_handed (Known := λ _, True))|by left|apply run_workers_fed].
Qed.

Lemma drop_writer_tx_moves : moves_state drop_writer_tx.
Proof. intros s. unfold drop_writer_tx. by destruct (writer_tx s); apply later_quiet. Qed.

Lemma begin_termination_moves o : moves_state (begin_termination o).
Proof.
  intros s. unfold begin_termination. destruct (is_exited (lifecycle s)) eqn:E; [reflexivity|].
  set (s1 := match requested_outcome s with None => set_requested (Some o) s | Some _ => s end).
  assert (H1 : later s (set_close_requested true (set_lifecycle Terminating s1))).
  { subst s1. destruct (requested_outcome s) as [o'|] eqn:Eo; split; try done; try (by right; left);
      try (by intros r Hr; left); try (intros Hl; by rewrite Hl in E). intros o'. by rewrite Eo. }
  etransitivity; [exact H1|]. set (s2 := set_close_requested true _). etransitivity; [apply (drop_writer_tx_moves s2)|].
  destruct (process_tx _); [|reflexivity]. by apply later_quiet.
Qed.

Lemma terminate_with_moves {A} o e : moves (terminate_with (A := A) o e).
Proof. intros s. apply begin_termination_moves. Qed.

Lemma interleave_moves : moves interleave.
Proof.
  intros s. unfold interleave. destruct (schedule s) as [|a rest]; [reflexivity|].
  etransitivity; [|apply (run_workers_moves a (set_schedule rest s))]. by apply later_quiet.
Qed.

Lemma on_proxy_moves {A} (m : mut TransparentAppServerProxy (AppServerProxyError JsonError) A) : moves (on_proxy m).
Proof. intros s. unfold on_proxy. destruct (m (session_proxy s)). by apply later_quiet. Qed.

Lemma record_moves m : moves (record m).
Proof.
  intros s. unfold record. destruct (m (session_events s)) as [[u|e] j]; [by apply later_quiet|].
  transitivity (set_journal j s); [by apply later_quiet|]. apply (terminate_with_moves (A := unit)).
Qed.

(** Receiving does not change what was handed over. *)
Lemma writer_recv_moves : moves writer_recv.
Proof. apply moves_bind; [apply interleave_moves|intros _ s; cbv zeta beta; destruct (try_recv _); by apply later_quiet]. Qed.
Lemma reader_recv_moves : moves reader_recv.
Proof.
  apply moves_bind; [apply interleave_moves|intros _ s; cbv zeta beta].
  pose proof (fed_recv (reader_events (reader_link (workers s)))) as Hf. destruct (try_recv _) as [r ch].
  split; try done. by left.
Qed.
Lemma stderr_recv_moves : moves stderr_recv.
Proof. apply moves_bind; [apply interleave_moves|intros _ s; cbv zeta beta; destruct (try_recv _); by apply later_quiet]. Qed.
Lemma process_recv_moves : moves process_recv.
Proof. apply moves_bind; [apply interleave_moves|intros _ s; cbv zeta beta; destruct (try_recv _); by apply later_quiet]. Qed.

Lemma try_send_moves c : moves (writer_try_send c).
Proof.
  apply moves_bind; [apply interleave_moves|intros _ s; cbv zeta beta].
  pose proof (try_send_cases (writer_commands (writer_link (workers s))) c) as H.
  destruct (try_send _ c) as [[u|[]] ch]; [destruct H as (_ & _ & ->)|destruct H as (_ & _ & ->)|destruct H as [_ ->]];
    [|by apply later_quiet..]. split; try done; [|by left].
  unfold handed. cbn. rewrite command_frames_app. by eexists.
Qed.

Create HintDb moves.
#[local] Hint Resolve moves_ret moves_lift moves_get interleave_moves on_proxy_moves record_moves try_send_moves
  writer_recv_moves reader_recv_moves stderr_recv_moves process_recv_moves begin_termination_moves drop_writer_tx_moves : moves.
Ltac onwards :=
  lazymatch goal with
  | |- moves (mut_bind _ _) => apply moves_bind; [onwards|intros ?; onwards]
  | |- moves (terminate_with _ _) => apply terminate_with_moves
  | |- moves (update (set_stdout_finished _)) => apply moves_update; intros ?; by apply later_quiet
  | |- moves (update _) => apply moves_update; first [solve [eauto with moves]|intros ?; by apply later_quiet|idtac]
  | |- moves (match ?x with _ => _ end) => destruct x; onwards
  | |- moves ?m => first [solve [eauto with moves]|idtac]
  end.

Lemma process_recv_exit s : process_exit (process_recv (JsonError := JsonError) s).2 = process_exit s.
Proof.
  unfold process_recv, interleave, mut_bind. destruct (schedule s) as [|a rest]; cbv zeta beta;
    by destruct (try_recv (process_events _)).
Qed.

Lemma consume_process_event_moves now : moves (consume_process_event (JsonError := JsonError) instant_max now).
Proof.
  intros s. unfold consume_process_event, mut_bind at 1, mut_get. destruct (process_exit s) as [e|] eqn:E; [reflexivity|].
  pose proof (process_recv_moves s) as Hm. pose proof (process_recv_exit s) as Hx. rewrite E in Hx.
  unfold mut_bind at 1. destruct (process_recv s) as [[event|e] s1]; cbn [snd] in Hm, Hx; [|exact Hm].
  etransitivity; [exact Hm|]. destruct event as [[exit|kind]|[]]; try apply terminate_with_moves; [|reflexivity].
  unfold mut_bind at 1, update at 1. unfold mut_bind at 1, update at 1.
  destruct (instant_checked_add _ _ _); split; try done; try (by left); intros e' He'; rewrite Hx in He'; discriminate.
Qed.

Lemma acknowledge_moves n progress : moves (acknowledge (JsonError := JsonError) n progress).
Proof. unfold acknowledge. onwards. Qed.

Lemma consume_writer_events_moves n progress : moves (consume_writer_events (JsonError := JsonError) n progress).
Proof.
  revert progress. induction n as [|n IH]; intros progress; cbn [consume_writer_events]; [onwards|].
  apply moves_bind; [apply writer_recv_moves|]. intros [[written| |kind]|[]]; try (onwards; fail).
  apply moves_bind; [apply acknowledge_moves|intros; apply IH].
Qed.

Lemma consume_stderr_event_moves : moves (consume_stderr_event (JsonError := JsonError)).
Proof. unfold consume_stderr_event. onwards. Qed.

Lemma block_moves {A} o rule : moves (block (A := A) (JsonError := JsonError) o rule).
Proof. unfold block. onwards. Qed.

Lemma receive_line_moves line : moves (receive_line json_stream json_custom line).
Proof.
  intros s. unfold receive_line. destruct (prepare _ _ _ _ _) as [c|e]; [|apply terminate_with_moves].
  destruct (server_initialization_after _ s) as [next|e]; [|apply terminate_with_moves].
  destruct (evaluate _ _) as [|rule]; [|apply block_moves].
  pose proof (on_proxy_moves (admit_proxy c) s) as Hm. destruct (on_proxy (admit_proxy c) s) as [[o|e] s1]; cbn [snd] in Hm.
  - etransitivity; [exact Hm|]. revert s1 Hm. intros s1 _. revert s1. change (moves (do* record (record_accepted o) in
      update (set_initialization next))). onwards.
  - etransitivity; [exact Hm|]. apply terminate_with_moves.
Qed.

Lemma stdout_failed_moves {A} e : moves (stdout_failed (A := A) (JsonError := JsonError) e).
Proof. unfold stdout_failed. onwards. Qed.

(** The end of stdout, and of its thread. *)
Lemma reader_eof_moves now progress :
  moves (do* update (set_stdout_finished true) in
         let* s := mut_get in
         match instant_checked_add instant_max now (exit_drain_timeout (process_limits s)) with
         | None => terminate_with TransportFailure Process_DeadlineOverflow
         | Some deadline => do* update (set_stdout_deadline (Some deadline)) in mut_ret progress
         end : method AppServerProcessPoll).
Proof. onwards. Qed.
Lemma reader_gone_moves progress :
  moves (let* s := mut_get in
         if stdout_finished s then mut_ret progress
         else stdout_failed (Process_WorkerDisconnected (lit "stdout")) : method AppServerProcessPoll).
Proof. apply moves_bind; [apply moves_get|]. intros s1. destruct (stdout_finished s1); [onwards|apply stdout_failed_moves]. Qed.

Lemma consume_reader_loop_moves now n progress :
  moves (consume_reader_loop json_stream json_custom instant_max now n progress).
Proof.
  revert progress. induction n as [|n IH]; intros progress; cbn [consume_reader_loop]; [onwards|].
  apply moves_bind; [apply reader_recv_moves|]. intros [[line| | | | |kind]|[]]; try apply stdout_failed_moves; try apply moves_ret.
  - apply moves_bind; [apply receive_line_moves|]. intros _. apply moves_bind; [apply moves_lift|]. intros; apply IH.
  - apply reader_eof_moves.
  - apply reader_gone_moves.
Qed.

Lemma consume_reader_events_moves now progress :
  moves (consume_reader_events json_stream json_custom instant_max now progress).
Proof.
  unfold consume_reader_events. apply moves_bind; [apply moves_get|]. intros s0.
  destruct (stdout_finished s0); [onwards|apply consume_reader_loop_moves].
Qed.

Lemma expire_moves now progress : moves (expire (JsonError := JsonError) now progress).
Proof.
  unfold expire. apply moves_bind; [apply moves_get|]. intros s0. apply moves_bind; [onwards|]. intros expired.
  apply moves_bind; [|intros _; onwards].
  induction expired as [|r l IH]; cbn [record_expired_requests]; [onwards|]. apply moves_bind; [onwards|intros _; exact IH].
Qed.

Lemma observe_dispatched_moves f : moves (observe_dispatched_frame (JsonError := JsonError) f).
Proof.
  intros s. unfold observe_dispatched_frame.
  destruct (initialization s); try apply terminate_with_moves; try reflexivity;
    (destruct (_ && _); [by apply later_quiet|apply terminate_with_moves]).
Qed.

Lemma dispatch_frame_moves frame progress : moves (dispatch_frame (JsonError := JsonError) frame progress).
Proof.
  unfold dispatch_frame, hand_to_writer.
  apply moves_bind; [onwards|intros _]. apply moves_bind; [apply observe_dispatched_moves|intros _]. onwards.
Qed.

Lemma dispatch_client_frames_moves now progress :
  moves (dispatch_client_frames (JsonError := JsonError) instant_max now progress).
Proof.
  unfold dispatch_client_frames. apply moves_bind; [apply moves_get|]. intros s0. destruct (_ || _); [onwards|].
  generalize (Z.to_nat (poll_events (process_limits s0))). intros n. revert progress.
  induction n as [|n IH]; intros progress; cbn [dispatch_loop]; [onwards|].
  apply moves_bind; [apply moves_get|]. intros s1. destruct (_ && _); [|onwards].
  apply moves_bind; [apply on_proxy_moves|]. intros [f|]; [|onwards].
  apply moves_bind; [apply dispatch_frame_moves|intros; apply IH].
Qed.

(** A turn of the dispatch loop counts its frame, and the limits stay. *)
Lemma dispatch_frame_count frame progress s p s' :
  dispatch_frame (JsonError := JsonError) frame progress s = (Ok p, s') →
  poll_dispatched_client_frames p = poll_dispatched_client_frames progress + 1 ∧ process_limits s' = process_limits s.
Proof.
  intros H. split.
  - unfold dispatch_frame in H. do 3 (apply mut_bind_Ok in H as (? & ? & _ & H)).
    apply mut_bind_Ok in H as (? & ? & _ & H). do 4 (apply mut_bind_Ok in H as (? & ? & _ & H)).
    apply mut_bind_Ok in H as (count & ? & Hc & H). injection H as <- _. cbn.
    apply mut_lift_Ok in Hc as [Hc _]. unfold usize_increment in Hc.
    destruct (checked_add usize_max _ 1) as [n|] eqn:E; [|done]. injection Hc as <-. by apply checked_add_Some in E as [-> _].
  - pose proof (dispatch_frame_moves frame progress s) as Hl. rewrite H in Hl. by destruct Hl as [_ _ _ _ (_ & _ & Hl) _ _ _].
Qed.

Lemma dispatch_loop_S now n progress s :
  dispatch_loop (JsonError := JsonError) instant_max now (S n) progress s =
  if (writer_outstanding s <? io_queue_messages (process_limits s)) &&
     (poll_dispatched_client_frames progress <? poll_events (process_limits s))
  then
    match on_proxy (release (JsonError := JsonError) instant_max ClientToServer now) s with
    | (Ok (Some frame), s1) =>
      match dispatch_frame frame progress s1 with
      | (Ok p, s2) => dispatch_loop instant_max now n p s2
      | (Err e, s2) => (Err e, s2)
      end
    | (Ok None, s1) => (Ok progress, s1)
    | (Err e, s1) => (Err e, s1)
    end
  else (Ok progress, s).
Proof.
  cbn [dispatch_loop]. unfold mut_bind at 1, mut_get. destruct (_ && _); [|done]. unfold mut_bind at 1.
  by destruct (on_proxy _ s) as [[[frame|]|e] s1].
Qed.

(** [poll_events] turns are enough for the dispatch loop: further ones do nothing. *)
Lemma dispatch_loop_fuel now n k progress s :
  poll_events (process_limits s) <= poll_dispatched_client_frames progress + Z.of_nat n →
  dispatch_loop (JsonError := JsonError) instant_max now (n + k) progress s =
  dispatch_loop (JsonError := JsonError) instant_max now n progress s.
Proof.
  revert progress s. induction n as [|n IH]; intros progress s Hn.
  - destruct k as [|k]; [done|]. cbn [Nat.add]. rewrite dispatch_loop_S.
    rewrite (proj2 (Z.ltb_ge (poll_dispatched_client_frames progress) _)) by lia. by rewrite andb_false_r.
  - cbn [Nat.add]. rewrite !dispatch_loop_S. destruct (_ && _); [|done].
    pose proof (on_proxy_moves (release (JsonError := JsonError) instant_max ClientToServer now) s) as Hl.
    destruct (on_proxy _ s) as [[[frame|]|e] s1]; [|done..]. destruct Hl as [_ _ _ _ (_ & _ & Hl) _ _ _]. cbn [snd] in Hl.
    destruct (dispatch_frame frame progress s1) as [[p|e] s2] eqn:E; [|done].
    apply dispatch_frame_count in E as [E1 E2]. apply IH. rewrite E1, E2, Hl. lia.
Qed.

Lemma advance_shutdown_moves now : moves (advance_shutdown (JsonError := JsonError) now).
Proof. unfold advance_shutdown. onwards. Qed.

Lemma advance_deadlines_moves now : moves_state (advance_deadlines now).
Proof.
  intros s. unfold advance_deadlines. destruct (_ || _); [reflexivity|]. destruct (_ && _); [apply begin_termination_moves|].
  destruct (_ <=? _); [apply begin_termination_moves|reflexivity].
Qed.

Lemma close_session_moves exit drained s : process_exit s = Some exit → later s (close_session exit drained s).
Proof.
  intros He. unfold close_session. destruct (close_proxy _) as [p report]. set (s1 := set_lifecycle Exited _).
  transitivity s1.
  { split; try done; [by right; right| |by apply fed_drop_receiver]. intros r [= <-]. right. exists (is_graceful (lifecycle s)). split; [|done].
    split; [done|]. exists exit. done. }
  transitivity (drop_writer_tx s1); [apply drop_writer_tx_moves|].
  unfold drop_process_tx. destruct (process_tx _); [by apply later_quiet|reflexivity].
Qed.

Lemma interleave_exit s : process_exit (interleave (JsonError := JsonError) s).2 = process_exit s.
Proof. unfold interleave. by destruct (schedule s). Qed.

Lemma finish_process_exit_moves now : moves (finish_process_exit (JsonError := JsonError) now).
Proof.
  intros s. unfold finish_process_exit, mut_bind at 1, mut_get. destruct (process_exit s) as [exit|] eqn:E; [|reflexivity].
  destruct (_ && _); [reflexivity|]. pose proof (interleave_moves s) as Hm. pose proof (interleave_exit s) as Hx. rewrite E in Hx.
  unfold mut_bind. destruct (interleave s) as [[u|e] s1]; [|exact Hm]. etransitivity; [exact Hm|]. by apply close_session_moves.
Qed.

(** What a poll does once stdout was read. *)
Lemma poll_rest_moves now progress :
  moves (do* advance_stream_closure (JsonError := JsonError) now in
         let* progress := expire now progress in
         let* progress := dispatch_client_frames instant_max now progress in
         do* advance_shutdown now in
         do* update (advance_deadlines now) in
         do* finish_process_exit now in
         do* update join_finished_workers in
         mut_ret progress).
Proof.
  apply moves_bind; [unfold advance_stream_closure; onwards|intros _].
  apply moves_bind; [apply expire_moves|intros p3].
  apply moves_bind; [apply dispatch_client_frames_moves|intros p4].
  apply moves_bind; [apply advance_shutdown_moves|intros _].
  apply moves_bind; [apply moves_update, advance_deadlines_moves|intros _].
  apply moves_bind; [apply finish_process_exit_moves|intros _]. onwards.
Qed.

Lemma poll_moves now : moves (poll json_stream json_custom instant_max now).
Proof.
  unfold poll. apply moves_bind; [apply moves_get|]. intros s0. apply moves_bind; [apply moves_lift|intros _].
  apply moves_bind; [apply moves_update; intros ?; by apply later_quiet|intros _]. destruct (is_exited _); [onwards|].
  apply moves_bind; [apply consume_process_event_moves|intros _].
  apply moves_bind; [apply consume_writer_events_moves|intros p1].
  apply moves_bind; [apply consume_stderr_event_moves|intros _].
  apply moves_bind; [apply consume_reader_events_moves|intros p2]. apply poll_rest_moves.
Qed.

Lemma send_client_moves line : moves (send_client json_stream json_custom line).
Proof.
  intros s. unfold send_client. destruct (negb _); [reflexivity|]. destruct (prepare _ _ _ _ _) as [c|e]; [|reflexivity].
  destruct (client_initialization_after _ _) as [next|]; [|apply terminate_with_moves].
  destruct (evaluate _ _) as [|rule]; [|apply block_moves]. revert s. change (moves (let* observation := on_proxy (admit_proxy c) in
    do* record (record_accepted observation) in do* update (set_initialization next) in mut_ret observation)). onwards.
Qed.

Lemma next_for_client_moves now : moves (next_for_client (JsonError := JsonError) instant_max now).
Proof.
  unfold next_for_client. apply moves_bind; [apply moves_get|]. intros s0. apply moves_bind; [apply moves_lift|intros _].
  destruct (is_exited _); [onwards|]. apply moves_bind; [apply on_proxy_moves|]. intros frame.
  apply moves_bind; [|intros _; onwards]. destruct frame as [f|]; [|onwards]. apply moves_bind; [onwards|intros _].
  intros s. unfold observe_client_delivery. destruct (initialization s); try reflexivity.
  destruct (_ && _); [by apply later_quiet|]. case_bool_decide; [reflexivity|apply terminate_with_moves].
Qed.

(** ** Sessions *)

Inductive Call : Type :=
| Call_Send (json_line : bytes)
| Call_Poll (now : Z)
| Call_Next (now : Z)
| Call_Shutdown (mode : AppServerShutdownMode) (now : Z)
| Call_Event.

Inductive Reply : Type :=
| Reply_Sent (r : result AppServerMessageObservation Error)
| Reply_Polled (r : result AppServerProcessPoll Error)
| Reply_Next (r : result (option AppServerProxyFrame) Error)
| Reply_Shutdown (r : result unit Error)
| Reply_Event (event : option AppServerSessionEvent).

Definition reply_error (reply : Reply) : option Error :=
  match reply with
  | Reply_Sent (Err e) | Reply_Polled (Err e) | Reply_Next (Err e) | Reply_Shutdown (Err e) => Some e
  | _ => None
  end.

Definition perform_call (c : Call) s : Reply * AppServerProcessSession :=
  match c with
  | Call_Send line => let (r, s) := send_client json_stream json_custom line s in (Reply_Sent r, s)
  | Call_Poll now => let (r, s) := poll json_stream json_custom instant_max now s in (Reply_Polled r, s)
  | Call_Next now => let (r, s) := next_for_client instant_max now s in (Reply_Next r, s)
  | Call_Shutdown mode now => let (r, s) := shutdown instant_max mode now s in (Reply_Shutdown r, s)
  | Call_Event => let (e, s) := next_session_event s in (Reply_Event e, s)
  end.

(** The lines [send_client] acknowledged, the frames [next_for_client] returned,
    and whether a graceful shutdown was asked for. *)
Definition accepted_lines (log : list (Call * Reply)) : list bytes :=
  omap (λ e, match e with (Call_Send line, Reply_Sent (Ok _)) => Some line | _ => None end) log.
Definition delivered_frames (log : list (Call * Reply)) : list AppServerProxyFrame :=
  omap (λ e, match e with (_, Reply_Next (Ok (Some f))) => Some f | _ => None end) log.
Definition graceful_asked (log : list (Call * Reply)) : Prop :=
  ∃ now, (Call_Shutdown Mode_Graceful now, Reply_Shutdown (Ok tt)) ∈ log.

Section Attached.
Context (spawn : str → option ErrorKind) (child : Child) (proxy_limits : AppServerProxyLimits)
        (limits : AppServerProcessLimits) (controls : AppServerProcessControls) (identity : JournalIdentity) (start : Z).

(** A session after the calls of [log], with any steps of the workers during
    and between the calls. *)
Inductive attached : list (Call * Reply) → AppServerProcessSession → Prop :=
| attached_new plan s fate :
    attach_unverified_child_with_controls (JsonError := JsonError) instant_max spawn child proxy_limits limits controls
      identity start plan = (Ok s, fate) → attached [] s
| attached_call log s c : attached log s → attached (log ++ [(c, (perform_call c s).1)]) (perform_call c s).2
| attached_workers log s actions plan : attached log s → attached log (set_schedule plan (run_workers actions s)).

(** Limits made by the public constructors from [usize] values. *)
Record setup_ok : Prop := {
  setup_proxy : limits_ok (JsonError := JsonError) proxy_limits;
  setup_line : 0 <= line_bytes proxy_limits;
  setup_queue : 0 <= io_queue_messages limits;
  setup_process : process_limits_new (JsonError := JsonError) (io_queue_messages limits) (poll_events limits)
    (initialization_timeout limits) (runtime_timeout limits) (shutdown_timeout limits) (exit_drain_timeout limits)
    = Ok limits;
  setup_events : 0 < controls_event_limits controls
}.

Context (Hsetup : setup_ok).
Context `{Known : Identities} (Hst : session_stream json_stream json_custom) (Hcf : digests_distinct) (Hkf : keys_distinct).

Lemma attach_session plan s fate :
  attach_unverified_child_with_controls (JsonError := JsonError) instant_max spawn child proxy_limits limits controls identity start plan
    = (Ok s, fate) →
  ∃ i r, s = mkProcessSession limits (proxy_new proxy_limits) (controls_interception controls)
      (journal_new (controls_event_limits controls) identity) AwaitingInitialize Running i r start true true
      (mkWorkerHandles true true true true) 0 false false None false None None None 0 0 0 None
      (workers_new (io_queue_messages limits)) plan.
Proof.
  unfold attach_unverified_child_with_controls. destruct (process_deadlines _ _ _) as [[i r]|]; [|done].
  destruct (take_piped_stdio child); [|done]. destruct (spawn _); [done|].
  destruct (result_bind _ _); [|done]. intros [= <- _]. by exists i, r.
Qed.

Lemma setup_io : 1 <= io_queue_messages limits <= ABSOLUTE_MAX_IO_QUEUE_MESSAGES.
Proof.
  destruct Hsetup as [_ _ Hq Hp _]. unfold process_limits_new in Hp. apply result_bind_Ok in Hp as (_ & Hp%reject_Ok & _).
  rewrite !orb_false_iff, !Z.eqb_neq, !Z.ltb_ge in Hp. lia.
Qed.

Lemma attached_start plan s fate :
  attach_unverified_child_with_controls (JsonError := JsonError) instant_max spawn child proxy_limits limits controls identity start plan
    = (Ok s, fate) → invariant [] [] s.
Proof.
  intros (i & r & ->)%attach_session. destruct Hsetup as [H1 H2 H3 H4 H5]. pose proof setup_io as Hio. split.
  - split.
    + by apply (proxy_ok_new (JsonError := JsonError)).
    + split_and!; [by apply journal_ok_new|done|]. intros _. split; [by apply journal_ok_new|..].
      * intros k t Hk. cbn in Hk. by rewrite lookup_empty in Hk.
      * intros d j [st Hr]. by destruct d; cbn in Hr; rewrite lookup_empty in Hr.
      * intros k t Hk. cbn in Hk. by rewrite lookup_empty in Hk.
    + split; try done; try (cbn [writer_outstanding process_limits]; lia).
      split; try done. by intros _ ?%elem_of_nil.
    + split; [|constructor|done|by intros ?%elem_of_nil]. split_and!; [done|split; [by intros ?%elem_of_nil|done]|done].
    + by split.
  - cbn. by split_and!.
Qed.

Lemma accepted_lines_snoc log e : accepted_lines (log ++ [e]) = accepted_lines log ++ accepted_lines [e].
Proof. apply omap_app. Qed.
Lemma delivered_frames_snoc log e : delivered_frames (log ++ [e]) = delivered_frames log ++ delivered_frames [e].
Proof. apply omap_app. Qed.

(** One call keeps the invariant and returns only expected errors. *)
Lemma call_keeps log s c :
  invariant (accepted_lines log) (delivered_frames log) s →
  (∀ e, reply_error (perform_call c s).1 = Some e → expected e) ∧
  invariant (accepted_lines (log ++ [(c, (perform_call c s).1)]))
    (delivered_frames (log ++ [(c, (perform_call c s).1)])) (perform_call c s).2.
Proof.
  intros Hi. rewrite accepted_lines_snoc, delivered_frames_snoc. destruct c as [line|now|now|mode now|]; cbn [perform_call].
  - pose proof (send_client_keeps json_stream json_custom instant_max Hst Hcf Hkf _ _ line s Hi) as H.
    destruct (send_client _ _ line s) as [[o|e] s']; cbn; rewrite ?app_nil_r; [by split|]. destruct H as [H1 H2].
    split; [by intros e' [= <-]|done].
  - pose proof (poll_keeps json_stream json_custom instant_max Hst Hcf Hkf _ _ now s Hi) as H.
    destruct (poll _ _ _ now s) as [[o|e] s']; cbn; rewrite ?app_nil_r; [by split|]. destruct H as [H1 H2].
    split; [by intros e' [= <-]|done].
  - pose proof (next_for_client_keeps json_stream json_custom instant_max Hst Hcf Hkf _ _ now s Hi) as H.
    destruct (next_for_client _ now s) as [[[f|]|e] s']; cbn in *; rewrite ?app_nil_r in *; [by split|by split|].
    destruct H as [H1 H2]. split; [by intros e' [= <-]|done].
  - pose proof (shutdown_keeps (JsonError := JsonError) instant_max _ _ mode now s Hi) as H.
    destruct (shutdown _ mode now s) as [[o|e] s']; cbn; rewrite ?app_nil_r; [by split|]. destruct H as [H1 H2].
    split; [by intros e' [= <-]|done].
  - pose proof (next_session_event_keeps _ _ s Hi) as H. destruct (next_session_event s) as [e s']. cbn in *.
    rewrite ?app_nil_r. by split.
Qed.

Lemma attached_invariant log s :
  attached log s → invariant (accepted_lines log) (delivered_frames log) s.
Proof.
  induction 1 as [plan s fate H|log s c _ IH|log s actions plan _ IH].
  - by eapply attached_start.
  - by apply call_keeps.
  - apply (invariant_same _ _ (run_workers actions s)); [done|]. by apply invariant_run.
Qed.

End Attached.
End Spec.

(** ** Only the lines that were heard matter

    A session meets the identities of the lines the caller sent and of those the
    child wrote, so it is also a session of the deserializer restricted to
    them. *)

Section Promises.
Context {JsonError : Type}.
Context (json_stream : bytes → json_tree (JsonError := JsonError) * option JsonError)
        (json_custom : JsonError).
Context `{HS : Sha256} `{Alloc : Allocator} (instant_max : Z).
Abbreviation Error := (AppServerProcessError JsonError).
Abbreviation method := (mut AppServerProcessSession Error).
Abbreviation perform_call := (perform_call json_stream json_custom instant_max).
Abbreviation moves := (moves (JsonError := JsonError)).
Implicit Type s : AppServerProcessSession.

(** What is pending was accepted. *)
Definition told s : Prop := ∀ e, e ∈ ch_pending (stdout_channel s) → e ∈ ch_accepted (stdout_channel s).
(** The lines that the session was told of are among [L]. *)
Definition hears (L : list bytes) s : Prop := ∀ line, Reader_Line line ∈ ch_accepted (stdout_channel s) → line ∈ L.

Lemma hears_fed L s s' : fed (stdout_channel s) (stdout_channel s') → hears L s' → hears L s.
Proof. intros [H _] Hl line Hin. by apply Hl, H. Qed.

Lemma reader_recv_told s :
  told s → ∃ r s', reader_recv (JsonError := JsonError) s = (Ok r, s') ∧ told s' ∧
    ∀ line, r = Ok (Reader_Line line) → Reader_Line line ∈ ch_accepted (stdout_channel s').
Proof.
  intros Ht. unfold reader_recv, mut_bind.
  assert (Hi : ∃ s1, interleave (JsonError := JsonError) s = (Ok tt, s1) ∧ told s1).
  { pose proof (interleave_moves (JsonError := JsonError) s) as Hf%later_fed. revert Hf. unfold interleave.
    destruct (schedule s) as [|a rest]; eexists; (split; [reflexivity|]); [done|]. intros e. by apply Hf. }
  destruct Hi as (s1 & -> & Hi). cbv zeta beta.
  pose proof (try_recv_cases (reader_events (reader_link (workers s1)))) as Hc.
  pose proof (fed_recv (reader_events (reader_link (workers s1)))) as Hf.
  destruct (try_recv _) as [r ch]. cbn [snd] in Hf. eexists r, _. split; [reflexivity|]. split; [exact (fed_pending _ _ Hf Hi)|].
  intros line ->. destruct Hc as (rest & Hp & _). change (Reader_Line line ∈ ch_accepted ch). apply (fed_accepted _ _ Hf), Hi.
  unfold stdout_channel. rewrite Hp. left.
Qed.

Section Agreement.
Context (L : list bytes).
Abbreviation restricted := (restricted json_stream json_custom L).

(** As long as the lines are among [L], [m'] does what [m] does. *)
Definition agrees {A} (m m' : method A) : Prop :=
  moves m ∧ ∀ s, told s → hears L (m s).2 → m' s = m s.

Lemma agrees_same {A} (m : method A) : moves m → agrees m m.
Proof. by split. Qed.

Lemma agrees_bind {A B} (m m' : method A) (k k' : A → method B) :
  agrees m m' → (∀ a, agrees (k a) (k' a)) → agrees (mut_bind m k) (mut_bind m' k').
Proof.
  intros [Hm Hmm] Hk. split; [apply moves_bind; [done|intros a; apply Hk]|]. intros s Ht Hh. unfold mut_bind in *.
  specialize (Hm s). specialize (Hmm s Ht). destruct (m s) as [[a|e] s1]; cbn [snd] in *; [|by rewrite (Hmm Hh)].
  pose proof (proj1 (Hk a) s1) as Hka. rewrite Hmm by (by eapply hears_fed, Hh; apply Hka).
  apply (proj2 (Hk a)); [|done]. intros e. by apply (later_fed _ _ Hm).
Qed.

Lemma agrees_get {B} (k k' : AppServerProcessSession → method B) :
  (∀ s, agrees (k s) (k' s)) → agrees (mut_bind mut_get k) (mut_bind mut_get k').
Proof. intros H. by apply agrees_bind; [apply agrees_same, moves_get|]. Qed.

Lemma agrees_reader_recv {B} (k k' : result ReaderEvent TryRecvError → method B) :
  (∀ r, moves (k r)) → (∀ r, (∀ line, r = Ok (Reader_Line line) → line ∈ L) → agrees (k r) (k' r)) →
  agrees (mut_bind reader_recv k) (mut_bind reader_recv k').
Proof.
  intros Hm Hk. split; [apply moves_bind; [apply reader_recv_moves|done]|]. intros s Ht Hh.
  destruct (reader_recv_told s Ht) as (r & s2 & E & Ht2 & Hl). unfold mut_bind in *. rewrite E in *.
  apply (proj2 (Hk r ltac:(intros line Hr; by apply (hears_fed L s2 _ (later_fed _ _ (Hm r s2)) Hh), Hl))); done.
Qed.

Lemma send_client_restricted line s :
  line ∈ L → send_client restricted json_custom line s = send_client json_stream json_custom line s.
Proof. intros H. unfold send_client. by rewrite prepare_restricted. Qed.

Lemma receive_line_agrees line :
  line ∈ L → agrees (receive_line json_stream json_custom line) (receive_line restricted json_custom line).
Proof.
  intros H. split; [apply receive_line_moves|]. intros s _ _. unfold receive_line. by rewrite prepare_restricted.
Qed.

Lemma consume_reader_loop_agrees now n progress :
  agrees (consume_reader_loop json_stream json_custom instant_max now n progress)
    (consume_reader_loop restricted json_custom instant_max now n progress).
Proof.
  revert progress. induction n as [|n IH]; intros progress; cbn [consume_reader_loop]; [apply agrees_same, moves_ret|].
  apply agrees_reader_recv.
  - intros r. pose proof (consume_reader_loop_moves json_stream json_custom instant_max now (S n) progress) as H.
    cbn [consume_reader_loop] in H. destruct r as [[line| | | | |kind]|[]]; try apply stdout_failed_moves; try apply moves_ret.
    + apply moves_bind; [apply receive_line_moves|]. intros _. apply moves_bind; [apply moves_lift|].
      intros; apply consume_reader_loop_moves.
    + apply reader_eof_moves.
    + apply reader_gone_moves.
  - intros [[line| | | | |kind]|[]] Hin; try apply agrees_same; try apply stdout_failed_moves; try apply moves_ret.
    + apply agrees_bind; [by apply receive_line_agrees, Hin|intros _].
      apply agrees_bind; [apply agrees_same, moves_lift|intros; apply IH].
    + apply reader_eof_moves.
    + apply reader_gone_moves.
Qed.

Lemma poll_agrees now :
  agrees (poll json_stream json_custom instant_max now) (poll restricted json_custom instant_max now).
Proof.
  unfold poll. apply agrees_get. intros s0. apply agrees_bind; [apply agrees_same, moves_lift|intros _].
  apply agrees_bind; [apply agrees_same, moves_update; intros ?; by apply later_quiet|intros _].
  destruct (is_exited _); [apply agrees_same, moves_ret|].
  apply agrees_bind; [apply agrees_same, consume_process_event_moves|intros _].
  apply agrees_bind; [apply agrees_same, consume_writer_events_moves|intros p1].
  apply agrees_bind; [apply agrees_same, consume_stderr_event_moves|intros _].
  apply agrees_bind; [|intros p2; apply agrees_same, poll_rest_moves].
  unfold consume_reader_events. apply agrees_get. intros s1.
  destruct (stdout_finished s1); [apply agrees_same, moves_ret|apply consume_reader_loop_agrees].
Qed.

(** Calls. *)
Lemma perform_call_restricted c s :
  told s → (∀ line, c = Call_Send line → line ∈ L) → hears L (perform_call c s).2 →
  ProcessSessionSpec.perform_call restricted json_custom instant_max c s = perform_call c s.
Proof.
  intros Ht Hc. destruct c as [line|now| | |]; cbn [ProcessSessionSpec.perform_call]; try done; intros Hh.
  - by rewrite send_client_restricted by by apply Hc.
  - rewrite (proj2 (poll_agrees now) s Ht); [done|]. by destruct (poll _ _ _ now s).
Qed.
End Agreement.

(** Every other call moves forward. *)
Lemma call_later c s :
  (∀ mode now, c ≠ Call_Shutdown mode now) → later s (perform_call c s).2.
Proof.
  intros Hc. destruct c as [line|now|now|mode now|]; cbn [ProcessSessionSpec.perform_call].
  - pose proof (send_client_moves json_stream json_custom line s) as H. by destruct (send_client _ _ line s).
  - pose proof (poll_moves json_stream json_custom instant_max now s) as H. by destruct (poll _ _ _ now s).
  - pose proof (next_for_client_moves (JsonError := JsonError) instant_max now s) as H. by destruct (next_for_client _ now s).
  - by destruct (Hc mode now).
  - unfold next_session_event. destruct (next_event (session_events s)). by apply later_quiet.
Qed.

Lemma shutdown_fed mode now s :
  fed (stdout_channel s) (stdout_channel (shutdown (JsonError := JsonError) instant_max mode now s).2).
Proof.
  unfold shutdown, mut_bind at 1, mut_get, mut_bind at 1, mut_lift at 1, ensure_monotonic.
  destruct (reject _ _); [|reflexivity]. destruct (is_exited (lifecycle s)); [reflexivity|]. destruct mode.
  - destruct (is_running (lifecycle s)); [|reflexivity]. by destruct (instant_checked_add _ _ _).
  - exact (later_fed _ _ (begin_termination_moves ForcedShutdown s)).
Qed.

Lemma call_fed c s : fed (stdout_channel s) (stdout_channel (perform_call c s).2).
Proof.
  assert (Hd : (∀ mode now, c ≠ Call_Shutdown mode now) ∨ ∃ mode now, c = Call_Shutdown mode now) by (destruct c; naive_solver).
  destruct Hd as [Hd|(mode & now & ->)]; [by apply later_fed, call_later|].
  cbn [ProcessSessionSpec.perform_call]. pose proof (shutdown_fed mode now s) as H. by destruct (shutdown _ mode now s).
Qed.

(** The lines a session heard: those the caller sent, whatever became of them,
    and those the stdout worker sent. *)
Definition call_lines (c : Call) : list bytes := match c with Call_Send line => [line] | _ => [] end.
Definition lines_heard (log : list (Call * Reply (JsonError := JsonError))) s : list bytes :=
  concat (map (λ e, call_lines e.1) log) ++ reader_lines (ch_accepted (stdout_channel s)).

Lemma reader_lines_elem line es : line ∈ reader_lines es ↔ Reader_Line line ∈ es.
Proof.
  unfold reader_lines. rewrite list_elem_of_omap. split; [intros ([] & Hin & [= <-]); done|]. intros H. by exists (Reader_Line line).
Qed.

Lemma lines_heard_hears L log s : lines_heard log s ⊆ L → hears L s.
Proof. intros H line Hin. apply H. apply elem_of_app. right. by apply reader_lines_elem. Qed.

Lemma lines_heard_snoc log s c r s' :
  fed (stdout_channel s) (stdout_channel s') →
  lines_heard log s ⊆ lines_heard (log ++ [(c, r)]) s' ∧ call_lines c ⊆ lines_heard (log ++ [(c, r)]) s'.
Proof.
  intros [Hf _]. unfold lines_heard. rewrite map_app, concat_app. cbn [map concat fst].
  split; intros line; rewrite !elem_of_app, ?reader_lines_elem; naive_solver.
Qed.

Section Attached.
Context (spawn : str → option ErrorKind) (child : Child) (proxy_limits : AppServerProxyLimits)
        (limits : AppServerProcessLimits) (controls : AppServerProcessControls) (identity : JournalIdentity) (start : Z).
Context (Hsetup : setup_ok (JsonError := JsonError) proxy_limits limits controls) (Hst : stream_typed json_stream).
Abbreviation attached :=
  (attached json_stream json_custom instant_max spawn child proxy_limits limits controls identity start).
Abbreviation no_collision := (no_collision json_stream json_custom).
Abbreviation presented := (presented json_stream json_custom).

Lemma attached_restricted L log s :
  attached log s → told s ∧ (lines_heard log s ⊆ L →
    ProcessSessionSpec.attached (restricted json_stream json_custom L) json_custom instant_max spawn child proxy_limits limits
      controls identity start log s).
Proof.
  induction 1 as [plan s fate H|log s c _ [Ht IH]|log s actions plan _ [Ht IH]].
  - split; [|intros _; by eapply attached_new]. apply attach_session in H as (i & r & ->). by intros e ?%elem_of_nil.
  - pose proof (call_fed c s) as Hf. split; [intros e; by apply Hf|]. intros HL.
    destruct (lines_heard_snoc log s c (perform_call c s).1 _ Hf) as [H1 H2].
    rewrite <-(perform_call_restricted L c s Ht); [apply attached_call, IH; set_solver| |by eapply lines_heard_hears].
    intros line ->. apply HL, H2. by apply list_elem_of_singleton.
  - pose proof (run_workers_fed actions s) as Hf. split; [intros e; by apply (fed_pending _ _ Hf)|].
    intros HL. apply attached_workers, IH. etransitivity; [|exact HL]. intros line. unfold lines_heard.
    rewrite !elem_of_app, !reader_lines_elem. intros [|Hin]; [by left|]. right. by apply (fed_accepted _ _ Hf).
Qed.

(** What the laws need, for lines that include those of the session. *)
Lemma attached_laws L log s :
  attached log s → lines_heard log s ⊆ L → no_collision L →
  session_stream (Known := presented L) (restricted json_stream json_custom L) json_custom ∧
  digests_distinct (Known := presented L) ∧ keys_distinct (Known := presented L) ∧
  invariant (Known := presented L) (accepted_lines log) (delivered_frames log) s.
Proof.
  intros Ha HL [Hd%digests_of_presented Hk%keys_of_presented].
  pose proof (restricted_stream json_stream json_custom L Hst) as Hst'.
  destruct (attached_restricted L _ _ Ha) as [_ Ha'].
  split_and!; [done|done|done|].
  exact (attached_invariant _ _ _ _ _ _ _ _ _ _ Hsetup Hst' Hd Hk _ _ (Ha' HL)).
Qed.

Lemma heard_invariant log s :
  attached log s → no_collision (lines_heard log s) →
  invariant (Known := presented (lines_heard log s)) (accepted_lines log) (delivered_frames log) s.
Proof. intros Ha Hn. by destruct (attached_laws _ _ _ Ha (reflexivity _) Hn) as (_ & _ & _ & H). Qed.

(** C14: the child is initialized in order.  In every session in which no two
    different request identities, on the lines the caller sent or the child wrote,
    have the same SHA-256 digest or correlation key: whatever the caller sends, the
    server answers and the threads do, the frames handed to the stdin worker
    are nothing, or one [initialize] request, or that request, then one
    [initialized] notification once the successful response to that very
    request was delivered to the client, then messages that are neither. *)
Theorem child_initialized_in_order log s :
  attached log s → no_collision (lines_heard log s) → handshake_order (delivered_frames log) (handed s).
Proof.
  intros Ha Hn. destruct (heard_invariant _ _ Ha Hn) as [_ Hp]. unfold phase, ordered in Hp.
  destruct (lifecycle s); try apply Hp; by eapply handshake_ordered, Hp.
Qed.

(** C15: what reaches the child's stdin is exactly what was accepted.  In every
    session in which no two different request identities, on the lines the caller
    sent or the child wrote, have the same SHA-256 digest or correlation key: the bytes
    written to the pipe are a prefix of the lines [send_client] acknowledged, in
    that order, each with its delimiter, under every interleaving and even when
    a write fails half-way; while the session runs, the acknowledged lines are
    those handed to the stdin worker followed by those still queued. *)
Theorem stdin_carries_accepted_lines log s :
  attached log s → no_collision (lines_heard log s) →
  (∃ rest, jsonl_stream (accepted_lines log) = stdin_pipe (writer_link (workers s)) ++ rest) ∧
  (lifecycle s = Running → accepted_lines log = map frame_json_bytes (handed s ++ queued_for_server s)).
Proof.
  intros Ha Hn. destruct (heard_invariant _ _ Ha Hn) as [Hb Hp]. split.
  - destruct (writer_ok_prefix _ _ (accounts_link _ (base_writer _ Hb))) as [rest Hr].
    assert (Hx : ∃ more, accepted_lines log = map frame_json_bytes (handed s) ++ more).
    { unfold phase, ordered in Hp. destruct (lifecycle s); try apply Hp; destruct Hp as (_ & -> & _); rewrite map_app; by eexists. }
    destruct Hx as [more ->]. rewrite jsonl_stream_app. unfold handed, commands_of. rewrite <-frame_lines_frames, Hr.
    eexists. by rewrite <-app_assoc.
  - intros Hl. unfold phase in Hp. rewrite Hl in Hp. apply Hp.
Qed.


(** At most the configured number of frames is on its way to the child, and the
    counters tell how many were handed over and acknowledged. *)
Theorem stdin_backpressure log s :
  attached log s → no_collision (lines_heard log s) →
  0 <= in_flight (writer_link (workers s)) <= writer_outstanding s ∧
  writer_outstanding s <= io_queue_messages (process_limits s) <= ABSOLUTE_MAX_IO_QUEUE_MESSAGES ∧
  process_diagnostics_dispatched (process_diagnostics s) = Z.min u64_max (len (handed s)) ∧
  process_diagnostics_written (process_diagnostics s) = Z.min u64_max (len (handed s) - writer_outstanding s).
Proof.
  intros Ha Hn. destruct (heard_invariant _ _ Ha Hn) as [[_ _ [[_ _ _ L _] _ _ Hb Hl Hd Hw] _ _] _].
  pose proof (in_flight_nonneg (writer_link (workers s))). split_and!; try lia; [exact Hd|exact Hw].
Qed.

(** C16: In every session in which no two different request identities, on the
    lines the caller sent or the child wrote, have the same SHA-256 digest or
    correlation key: the stdout bytes read so far are the lines sent to the session, each with
    its delimiter, and what is still being read; no line holds a delimiter or
    exceeds the limit of the proxy, and the end of the stream is reported only
    when everything was sent. *)
Theorem stdout_lines_exact log s :
  attached log s → no_collision (lines_heard log s) →
  let l := reader_link (workers s) in
  (∃ rest, jsonl_stream (reader_lines (ch_accepted (reader_events l))) ++ rest = stdout_read l ∧
     (Reader_Eof ∈ ch_accepted (reader_events l) → rest = [])) ∧
  Forall (line_ok (max_line s)) (reader_lines (ch_accepted (reader_events l))) ∧
  0 <= stdout_bytes l <= len (stdout_read l).
Proof.
  intros Ha Hn. destruct (heard_invariant _ _ Ha Hn) as [[_ _ _ Hr _] _]. cbv zeta.
  destruct (reader_ok_prefix _ _ Hr) as [[rest Hrest] Hle]. destruct Hr as [_ Hl Hc He]. split_and!; [|done|done|done].
  exists rest. split; [done|]. intros Heof. destruct (He Heof) as [Heq _]. rewrite <-Heq in Hrest.
  rewrite <-(app_nil_r (jsonl_stream _)) in Hrest at 2. by apply app_inv_head in Hrest.
Qed.

(** ** The end of a session *)

Definition rank (l : LifecycleState) : Z :=
  match l with Running => 0 | GracefulShutdown _ => 1 | Terminating => 2 | Exited => 3 end.

Lemma onward_rank l l' : onward l l' → rank l <= rank l'.
Proof. intros [->|[[-> H]| ->]]; [done|by destruct l|by destruct l]. Qed.

(** Asking for a shutdown moves forward too. *)
Lemma shutdown_moves mode now s :
  let '(r, s') := shutdown (JsonError := JsonError) instant_max mode now s in
  rank (lifecycle s) <= rank (lifecycle s') ∧
  (∀ o, requested_outcome s = Some o → requested_outcome s' = Some o) ∧ process_exit s' = process_exit s ∧
  exit_report s' = exit_report s ∧ handed s' = handed s ∧
  (lifecycle s = Exited → lifecycle s' = Exited ∧ requested_outcome s' = requested_outcome s) ∧
  (is_graceful (lifecycle s') = true → lifecycle s' = lifecycle s ∨ mode = Mode_Graceful ∧ r = Ok tt).
Proof.
  unfold shutdown, mut_bind at 1, mut_get, mut_bind at 1, mut_lift at 1, ensure_monotonic.
  destruct (reject _ _); [|by split_and!; [..|by left]].
  destruct (is_exited (lifecycle s)) eqn:He; [cbn; split_and!; try done; by left|].
  assert (Hne : lifecycle s ≠ Exited) by (intros Hl; by rewrite Hl in He).
  destruct mode.
  - destruct (is_running (lifecycle s)) eqn:Hr; [|cbn; split_and!; try done; by left].
    destruct (instant_checked_add _ _ _) as [d|]; [|by split_and!; [..|by left]].
    cbn. destruct (lifecycle s); try discriminate. split_and!; try done. by right.
  - unfold mut_bind, update.
    destruct (begin_termination_moves ForcedShutdown s) as [B1 B2 B3 _ _ _ _ _].
    assert (Hx : process_exit (begin_termination ForcedShutdown s) = process_exit s ∧
      exit_report (begin_termination ForcedShutdown s) = exit_report s ∧ handed (begin_termination ForcedShutdown s) = handed s ∧
      lifecycle (begin_termination ForcedShutdown s) = Terminating).
    { unfold begin_termination. rewrite He.
      set (s1 := match requested_outcome s with None => set_requested (Some ForcedShutdown) s | Some _ => s end).
      assert (H1 : process_exit s1 = process_exit s ∧ exit_report s1 = exit_report s ∧ handed s1 = handed s)
        by (subst s1; by destruct (requested_outcome s)).
      set (s2 := set_close_requested true (set_lifecycle Terminating s1)).
      assert (H2 : process_exit (drop_writer_tx s2) = process_exit s1 ∧ exit_report (drop_writer_tx s2) = exit_report s1 ∧
        handed (drop_writer_tx s2) = handed s1 ∧ lifecycle (drop_writer_tx s2) = Terminating)
        by (unfold drop_writer_tx; by destruct (writer_tx s2)).
      destruct H1 as (<- & <- & <-). by destruct (process_tx (drop_writer_tx s2)). }
    destruct Hx as (X1 & X2 & X3 & X4).
    split_and!; cbn [lifecycle requested_outcome process_exit exit_report set_session_time]; try done.
    + rewrite X4. by destruct (lifecycle s).
    + change (is_graceful (lifecycle (begin_termination ForcedShutdown s)) = true →
        lifecycle (begin_termination ForcedShutdown s) = lifecycle s ∨ Mode_Immediate = Mode_Graceful ∧ Ok tt = (Ok tt : result unit Error)).
      by rewrite X4.
Qed.

(** An exited session answers without changing its report. *)
Lemma exited_call c s :
  lifecycle s = Exited → exit_report (perform_call c s).2 = exit_report s ∧ lifecycle (perform_call c s).2 = Exited.
Proof.
  intros Hl. destruct c as [line|now|now|mode now|]; cbn [ProcessSessionSpec.perform_call].
  - unfold send_client. by rewrite Hl.
  - unfold poll, mut_bind, mut_get, mut_lift, ensure_monotonic, update. destruct (reject _ _); [|done]. by rewrite Hl.
  - unfold next_for_client, mut_bind, mut_get, mut_lift, ensure_monotonic, update. destruct (reject _ _); [|done]. by rewrite Hl.
  - unfold shutdown, mut_bind, mut_get, mut_lift, ensure_monotonic, update. destruct (reject _ _); [|done]. by rewrite Hl.
  - unfold next_session_event. by destruct (next_event (session_events s)).
Qed.

Lemma attached_reported_exited log s r :
  attached log s → no_collision (lines_heard log s) → exit_report s = Some r → lifecycle s = Exited.
Proof.
  intros Ha Hn Hr. destruct (heard_invariant _ _ Ha Hn) as [_ Hp]. unfold phase in Hp.
  destruct (lifecycle s); [..|done]; exfalso; [destruct Hp as (_ & _ & _ & _ & Hnone & _)..|destruct Hp as (_ & _ & _ & _ & Hnone & _)];
    congruence.
Qed.

(** a session ends once, for its first cause.  No call brings the lifecycle
    back; the first cause of termination is kept whatever happens later; once
    there is an exit report the session is over and the report is final; and
    what was handed to the child is never taken back. *)
Theorem session_ends_once log s c :
  attached log s → no_collision (lines_heard log s) →
  let s' := (perform_call c s).2 in
  rank (lifecycle s) <= rank (lifecycle s') ∧
  (∀ o, requested_outcome s = Some o → requested_outcome s' = Some o) ∧
  (∀ r, exit_report s = Some r → exit_report s' = Some r ∧ state s' = State_Exited) ∧
  handed s `prefix_of` handed s'.
Proof.
  intros Ha Hn. cbv zeta.
  assert (Hfinal : ∀ r, exit_report s = Some r → exit_report (perform_call c s).2 = Some r ∧ state (perform_call c s).2 = State_Exited).
  { intros r Hr. destruct (exited_call c s (attached_reported_exited _ _ _ Ha Hn Hr)) as [H1 H2]. unfold state. by rewrite H1, H2. }
  assert (Hd : (∀ mode now, c ≠ Call_Shutdown mode now) ∨ ∃ mode now, c = Call_Shutdown mode now) by (destruct c; naive_solver).
  destruct Hd as [Hd|(mode & now & ->)].
  - destruct (call_later c s Hd) as [L1 L2 _ _ _ L6 _ _]. split_and!; [by apply onward_rank|exact L2|exact Hfinal|exact L6].
  - pose proof (shutdown_moves mode now s) as H. cbn [ProcessSessionSpec.perform_call] in *. destruct (shutdown _ mode now s) as [r s'].
    destruct H as (H1 & H2 & _ & _ & H3 & _). cbn [snd] in *. split_and!; [exact H1|exact H2|exact Hfinal|by rewrite H3].
Qed.

(** What the log says of a graceful lifecycle and of the report. *)
Definition history_ok (log : list (Call * Reply (JsonError := JsonError))) s : Prop :=
  (is_graceful (lifecycle s) = true → graceful_asked log) ∧
  ∀ r, exit_report s = Some r → ∃ graceful, reported graceful r s ∧ (graceful = true → graceful_asked log).

Lemma graceful_asked_app (log : list (Call * Reply (JsonError := JsonError))) e : graceful_asked log → graceful_asked (log ++ [e]).
Proof. intros [now H]. exists now. apply elem_of_app. by left. Qed.

Lemma attached_history log s : attached log s → history_ok log s.
Proof.
  induction 1 as [plan s fate H|log s c Ha [IH1 IH2]|log s actions plan _ IH].
  - apply attach_session in H as (i & r & ->). by split.
  - assert (Hd : (∀ mode now, c ≠ Call_Shutdown mode now) ∨ ∃ mode now, c = Call_Shutdown mode now) by (destruct c; naive_solver).
    destruct Hd as [Hd|(mode & now & ->)].
    + pose proof (call_later c s Hd) as Hl. pose proof Hl as [L1 _ _ _ _ _ L7 _]. split.
      * intros Hg. apply graceful_asked_app, IH1. by destruct L1 as [<-|[[L _]|L]]; [|rewrite L in Hg..].
      * intros r Hr. destruct (L7 r Hr) as [Hold|(g & Hg & Hgr)].
        -- destruct (IH2 r Hold) as (g & Hg & Hgr). exists g. split; [by eapply reported_later|].
           intros Ht. by apply graceful_asked_app, Hgr.
        -- exists g. split; [done|]. intros Ht. by apply graceful_asked_app, IH1, Hgr.
    + pose proof (shutdown_moves mode now s) as H. pose proof (exited_call (Call_Shutdown mode now) s) as Hx.
      cbn [ProcessSessionSpec.perform_call] in *. destruct (shutdown _ mode now s) as [r s'] eqn:Es. cbn [fst snd] in *.
      destruct H as (_ & _ & H3 & H4 & _ & H6 & H7). split.
      * intros Hg. destruct (H7 Hg) as [Heq|[-> ->]]; [rewrite Heq in Hg; by apply graceful_asked_app, IH1|].
        exists now. apply elem_of_app. right. by apply list_elem_of_singleton.
      * rewrite H4. intros rep Hr. destruct (IH2 rep Hr) as (g & Hg & Hgr). exists g.
        split; [|intros Ht; by apply graceful_asked_app, Hgr].
        destruct Hg as (Hl & exit & E1 & E2 & E3). destruct (H6 Hl) as [F1 F2]. split; [done|]. exists exit. by rewrite H3, F2.
  - destruct IH as [IH1 IH2]. split; [exact IH1|]. intros r Hr. destruct (IH2 r Hr) as (g & Hg & Hgr). exists g. done.
Qed.



End Attached.

(** An attachment that fails never leaves a child behind: it was killed at once,
    or its worker has been told to terminate it. *)
Theorem failed_attachment_ends_child spawn child proxy_limits limits controls identity now plan e fate :
  attach_unverified_child_with_controls (JsonError := JsonError) instant_max spawn child proxy_limits limits controls identity now plan
    = (Err e, fate) →
  match fate with Fate_Terminated => True | Fate_Owned l => termination_asked l ∧ attends l end.
Proof.
  unfold attach_unverified_child_with_controls. destruct (process_deadlines _ _ _) as [[i r]|]; [|by intros [= _ <-]].
  destruct (take_piped_stdio child); [|by intros [= _ <-]]. destruct (spawn _); [by intros [= _ <-]|].
  destruct (result_bind _ _); [done|]. intros [= _ <-]. split; [|exact I]. by left.
Qed.

(** ** Deadlines *)

Lemma writer_try_send_keeps c s :
  ∃ r s', writer_try_send (JsonError := JsonError) c s = (Ok r, s') ∧ lifecycle s' = lifecycle s ∧ process_exit s' = process_exit s.
Proof.
  unfold writer_try_send, interleave, mut_bind. destruct (schedule s) as [|a rest]; cbv zeta beta;
    destruct (try_send _ c) as [r ch]; by eexists r, _.
Qed.

Lemma advance_shutdown_deadline now s u s' :
  advance_shutdown (JsonError := JsonError) now s = (Ok u, s') →
  ∀ d, lifecycle s' = GracefulShutdown d → process_exit s' = None → now < d.
Proof.
  unfold advance_shutdown, mut_bind at 1, mut_get. destruct (lifecycle s) as [|d| |] eqn:El; try (intros [= _ <-] d' Hd; congruence).
  case_bool_decide as Hx; [intros [= _ <-] d' _ Hn; rewrite Hn in Hx; by destruct Hx|].
  destruct (Z.leb_spec d now) as [Hle|Hlt].
  { intros [= _ <-] d' Hd. destruct (begin_termination_moves ForcedShutdown s) as [_ _ _ _ _ _ _ _].
    exfalso. unfold begin_termination in Hd. rewrite El in Hd. cbn [is_exited] in Hd.
    set (s2 := set_close_requested true _) in Hd. destruct (drop_writer_tx_keeps (Known := λ _, True) s2) as (_ & _ & _ & D4 & _).
    destruct (process_tx _); [change (lifecycle (drop_writer_tx s2) = GracefulShutdown d') in Hd|]; by rewrite D4 in Hd. }
  destruct (_ && _); [|intros [= _ <-] d' Hd _; rewrite El in Hd; by injection Hd as <-].
  destruct (writer_tx s); cbn [negb]; [|done].
  destruct (writer_try_send_keeps Command_Close s) as (r & s1 & Hs & H1 & H2).
  unfold mut_bind at 1. rewrite Hs. destruct r as [[]|[]]; [| |done].
  - intros [= _ <-] d' Hd _. change (lifecycle (drop_writer_tx (set_close_requested true s1)) = GracefulShutdown d') in Hd.
    destruct (drop_writer_tx_keeps (Known := λ _, True) (set_close_requested true s1)) as (_ & _ & _ & D4 & _). rewrite D4 in Hd.
    change (lifecycle s1 = GracefulShutdown d') in Hd. rewrite H1, El in Hd. by injection Hd as <-.
  - intros [= _ <-] d' Hd _. rewrite H1, El in Hd. by injection Hd as <-.
Qed.

Lemma begin_terminating o s : is_exited (lifecycle s) = false → lifecycle (begin_termination o s) = Terminating.
Proof.
  intros H. unfold begin_termination. rewrite H. set (s2 := set_close_requested true _).
  destruct (drop_writer_tx_keeps (Known := λ _, True) s2) as (_ & _ & _ & D4 & _).
  destruct (process_tx _); [change (lifecycle (drop_writer_tx s2) = Terminating)|]; by rewrite D4.
Qed.

(** Within its deadlines, as far as [now] can tell. *)
Definition timely (now : Z) s : Prop :=
  match lifecycle s with
  | Running => now < runtime_deadline s ∧ (is_ready (initialization s) = false → now < initialization_deadline s)
  | GracefulShutdown d => now < d
  | Terminating | Exited => True
  end.

Lemma advance_deadlines_timely now s :
  (∀ d, lifecycle s = GracefulShutdown d → process_exit s = None → now < d) →
  process_exit (advance_deadlines now s) = None → timely now (advance_deadlines now s).
Proof.
  intros Hg. unfold advance_deadlines.
  destruct (is_running (lifecycle s)) eqn:Er; cbn [negb orb].
  2: { intros Hn. unfold timely. destruct (lifecycle s) eqn:El; try done. by apply Hg. }
  case_bool_decide as Hx; [intros Hn; rewrite Hn in Hx; by destruct Hx|].
  assert (He : is_exited (lifecycle s) = false) by (by destruct (lifecycle s)).
  destruct (negb (is_ready (initialization s)) && (initialization_deadline s <=? now)) eqn:Ei;
    [intros _; unfold timely; by rewrite begin_terminating|].
  destruct (Z.leb_spec (runtime_deadline s) now); [intros _; unfold timely; by rewrite begin_terminating|].
  intros _. unfold timely. destruct (lifecycle s); try discriminate. split; [done|]. intros Hr. rewrite Hr in Ei.
  apply Z.leb_gt. by destruct (initialization_deadline s <=? now).
Qed.

Lemma update_Ok f s (u : unit) s' : update (JsonError := JsonError) f s = (Ok u, s') → s' = f s.
Proof. unfold update. by intros [= _ <-]. Qed.

Lemma mut_ret_Ok {A} (a b : A) s s' : mut_ret (E := Error) a s = (Ok b, s') → b = a ∧ s' = s.
Proof. unfold mut_ret. by intros [= <- <-]. Qed.

Lemma join_keeps s :
  lifecycle (join_finished_workers s) = lifecycle s ∧ process_exit (join_finished_workers s) = process_exit s ∧
  runtime_deadline (join_finished_workers s) = runtime_deadline s ∧
  initialization (join_finished_workers s) = initialization s ∧
  initialization_deadline (join_finished_workers s) = initialization_deadline s ∧
  stdout_finished (join_finished_workers s) = stdout_finished s ∧
  stderr_finished (join_finished_workers s) = stderr_finished s ∧
  process_exit_deadline (join_finished_workers s) = process_exit_deadline s.
Proof. done. Qed.

Lemma close_session_exited exit drained s : lifecycle (close_session exit drained s) = Exited.
Proof.
  unfold close_session. destruct (close_proxy _) as [p r]. set (s1 := set_lifecycle Exited _).
  destruct (drop_writer_tx_keeps (Known := λ _, True) s1) as (_ & _ & _ & D4 & _). unfold drop_process_tx.
  destruct (process_tx _); [change (lifecycle (drop_writer_tx s1) = Exited)|]; by rewrite D4.
Qed.

Lemma finish_process_exit_Ok now s (u : unit) s' :
  finish_process_exit (JsonError := JsonError) now s = (Ok u, s') →
  lifecycle s' = Exited ∨ s' = s ∧ ∀ exit, process_exit s = Some exit →
    (stdout_finished s && stderr_finished s) = false ∧ ∀ d, process_exit_deadline s = Some d → now < d.
Proof.
  unfold finish_process_exit, mut_bind at 1, mut_get. destruct (process_exit s) as [exit|] eqn:Ex.
  2: { intros [= _ <-]. by right. }
  assert (Hclose : ∀ drained, (do* interleave (JsonError := JsonError) in update (close_session exit drained)) s = (Ok u, s') → lifecycle s' = Exited).
  { intros drained H. apply mut_bind_Ok in H as (u3 & s4 & _ & H). apply update_Ok in H as ->. apply close_session_exited. }
  destruct (stdout_finished s && stderr_finished s) eqn:Ed; cbn [negb andb]; [intros H; left; by eapply Hclose|].
  destruct (process_exit_deadline s) as [d|]; cbn [negb].
  - destruct (Z.leb_spec d now) as [Hle|Hlt]; cbn [negb]; [intros H; left; by eapply Hclose|].
    intros [= _ <-]. right. split; [done|]. intros exit' _. split; [done|]. by intros d' [= <-].
  - intros [= _ <-]. by right.
Qed.

(** The last stages of a poll. *)
Definition poll_end (now : Z) (progress : AppServerProcessPoll) : method AppServerProcessPoll :=
  do* advance_shutdown now in
  do* update (advance_deadlines now) in
  do* finish_process_exit now in
  do* update join_finished_workers in
  mut_ret progress.

Lemma poll_end_timely now progress s p s' :
  poll_end now progress s = (Ok p, s') →
  lifecycle s' = Exited ∨
  match process_exit s' with
  | None => timely now s'
  | Some _ => (stdout_finished s' && stderr_finished s') = false ∧ ∀ d, process_exit_deadline s' = Some d → now < d
  end.
Proof.
  unfold poll_end. intros H. apply mut_bind_Ok in H as (u1 & s1 & Hshut & H).
  apply mut_bind_Ok in H as (u2 & s2 & Hupd & H). apply update_Ok in Hupd.
  apply mut_bind_Ok in H as (u3 & s3 & Hfin & H). apply mut_bind_Ok in H as (u4 & s4 & Hjoin & H). apply update_Ok in Hjoin.
  apply mut_ret_Ok in H as [_ ->].
  pose proof (advance_deadlines_timely now s1 (advance_shutdown_deadline _ _ _ _ Hshut)) as Ht. rewrite <-Hupd in Ht.
  destruct (join_keeps s3) as (J1 & J2 & J3 & J4 & J5 & J6 & J7 & J8). rewrite <-Hjoin in *. unfold timely in *.
  rewrite J1, J2, J3, J4, J5, J6, J7, J8.
  apply finish_process_exit_Ok in Hfin as [Hl|[-> Hx]]; [by left|right].
  destruct (process_exit s2) as [exit|]; [by apply (Hx exit)|by apply Ht].
Qed.

(** C19: deadlines are enforced.  After every poll that succeeds, a session that
    still runs is strictly within its lifetime and, until it is initialized,
    within the initialization deadline; one that shuts down gracefully is
    within its grace period; and one whose child has exited still waits only
    for output, before the drain deadline: past any of them it is terminating
    or exited. *)
Theorem poll_enforces_deadlines now s p s' :
  poll json_stream json_custom instant_max now s = (Ok p, s') →
  session_observed_time s <= now ∧
  (lifecycle s' = Exited ∨
   match process_exit s' with
   | None => timely now s'
   | Some _ => (stdout_finished s' && stderr_finished s') = false ∧
               ∀ d, process_exit_deadline s' = Some d → now < d
   end).
Proof.
  unfold poll, mut_bind at 1, mut_get. intros H. apply mut_bind_Ok in H as (u & s0 & Hm & H).
  apply mut_lift_Ok in Hm as [Hm ->]. unfold ensure_monotonic in Hm. apply reject_Ok, Z.ltb_ge in Hm. split; [done|].
  apply mut_bind_Ok in H as (u1 & s1 & Hupd & H). apply update_Ok in Hupd.
  destruct (is_exited (lifecycle s)) eqn:He.
  { left. apply mut_ret_Ok in H as [_ ->]. rewrite Hupd. change (lifecycle s = Exited). by destruct (lifecycle s). }
  do 6 (apply mut_bind_Ok in H as (? & ? & _ & H)).
  apply mut_bind_Ok in H as (progress & s2 & _ & H). exact (poll_end_timely now progress s2 p s' H).
Qed.
End Promises.

(** ** A concrete session

    A child is initialized, answers, gets a request, and is shut down. *)

Definition attached_stream (bs : bytes) : json_tree (JsonError := unit) * option unit :=
  if bool_decide (bs = lit "initialize 1") then
    (J_Object [(lit "id", J_Unsigned 1); (lit "method", J_String (lit "initialize"))] None, None)
  else if bool_decide (bs = lit "result 1") then
    (J_Object [(lit "id", J_Unsigned 1); (lit "result", J_Null)] None, None)
  else if bool_decide (bs = lit "initialized") then
    (J_Object [(lit "method", J_String (lit "initialized"))] None, None)
  else if bool_decide (bs = lit "ping 2") then
    (J_Object [(lit "id", J_Unsigned 2); (lit "method", J_String (lit "ping"))] None, None)
  else (J_Broken tt, None).

Lemma attached_stream_typed : stream_typed attached_stream.
Proof.
  intros bs ms broken k t. unfold attached_stream.
  repeat case_bool_decide; cbn; intros [= <- <-] Hin.
  all: repeat (apply elem_of_cons in Hin as [[= -> ->]|Hin]; [unfold u64_max; lia || done|]).
  all: by apply elem_of_nil in Hin.
Qed.

Abbreviation SampleSession := (attached (HS := demo_hash) (Alloc := ample_allocator) attached_stream tt demo_instant_max
  (λ _, None) (mkChild true true true) proxy_limits_initial process_limits_initial controls_initial 1 0).
Abbreviation sample_call := (perform_call (HS := demo_hash) (Alloc := ample_allocator) attached_stream tt demo_instant_max).

Lemma sample_setup : setup_ok (JsonError := unit) proxy_limits_initial process_limits_initial controls_initial.
Proof. split; [exact demo_limits_ok|done..]. Qed.

(** What happens: calls, and steps of the workers in between. *)
Inductive Event : Type :=
| Event_Call (c : Call)
| Event_Workers (actions : list WorkerAction).

Definition sample_start : AppServerProcessSession :=
  mkProcessSession process_limits_initial (proxy_new proxy_limits_initial) policy_empty
    (journal_new event_limits_initial 1) AwaitingInitialize Running (30 * SECOND) (24 * 3600 * SECOND) 0 true true
    (mkWorkerHandles true true true true) 0 false false None false None None None 0 0 0 None (workers_new 4) [].

Definition sample_event (s : list (Call * Reply) * AppServerProcessSession) (e : Event) :
    list (Call * Reply) * AppServerProcessSession :=
  match e with
  | Event_Call c => (s.1 ++ [(c, (sample_call c s.2).1)], (sample_call c s.2).2)
  | Event_Workers actions => (s.1, set_schedule [] (run_workers (Alloc := ample_allocator) actions s.2))
  end.
Definition sample_run (events : list Event) : list (Call * Reply) * AppServerProcessSession :=
  fold_left sample_event events ([], sample_start).

Lemma sample_attached_from events s : SampleSession s.1 s.2 →
  SampleSession (fold_left sample_event events s).1 (fold_left sample_event events s).2.
Proof.
  revert s. induction events as [|[c|actions] events IH]; intros s Hs; cbn [fold_left]; [exact Hs|apply IH..].
  - by apply attached_call.
  - by apply attached_workers.
Qed.

Lemma sample_run_attached events : SampleSession (sample_run events).1 (sample_run events).2.
Proof. apply sample_attached_from. apply (attached_new _ _ _ _ _ _ _ _ _ _ [] _ (Fate_Owned process_link_new)). reflexivity. Qed.

(** The stdin worker writes a frame and acknowledges it. *)
Definition writes : Event := Event_Workers [Act_Writer None; Act_Writer None].
Definition sample_ready : list Event :=
  [Event_Call (Call_Send (lit "initialize 1")); Event_Call (Call_Poll 1); writes;
   Event_Workers [Act_Reader (Ok (jsonl (lit "result 1"))); Act_Reader (Ok [])];
   Event_Call (Call_Poll 2); Event_Call (Call_Next 3); Event_Call (Call_Send (lit "initialized"));
   Event_Call (Call_Poll 4); writes; Event_Call (Call_Send (lit "ping 2")); Event_Call (Call_Poll 5)].

Example sample_is_ready :
  state (sample_run sample_ready).2 = State_Ready ∧
  accepted_lines (sample_run sample_ready).1 = [lit "initialize 1"; lit "initialized"; lit "ping 2"] ∧
  map frame_json_bytes (handed (sample_run sample_ready).2) = [lit "initialize 1"; lit "initialized"; lit "ping 2"] ∧
  stdin_pipe (writer_link (workers (sample_run sample_ready).2)) = jsonl_stream [lit "initialize 1"; lit "initialized"].
Proof. by vm_compute. Qed.

(** The child exits after a graceful shutdown, its output drained. *)
Definition sample_answers : ChildAnswers :=
  mkChildAnswers (Ok (Some (mkProcessExit true (Some 0)))) (Ok tt) (Ok (mkProcessExit true (Some 0))).
Definition sample_over : list Event :=
  sample_ready ++
  [writes; Event_Call (Call_Poll 6); Event_Call (Call_Shutdown Mode_Graceful 7); Event_Call (Call_Poll 8);
   Event_Workers [Act_Writer None; Act_Writer None; Act_Reader (Ok []); Act_Reader (Ok []); Act_Stderr (Ok 0); Act_Stderr (Ok 0);
                  Act_Process sample_answers; Act_Process sample_answers; Act_Process sample_answers];
   Event_Call (Call_Poll 9)].

Example sample_is_over :
  state (sample_run sample_over).2 = State_Exited ∧
  (report_outcome <$> exit_report (sample_run sample_over).2) = Some CleanShutdown.
Proof. by vm_compute. Qed.

(** The identities of the sample's lines have different digests and keys. *)
Lemma sample_no_collision log s :
  forallb (λ line, bool_decide (line ∈ [lit "initialize 1"; lit "initialized"; lit "ping 2"; lit "result 1"]))
    (lines_heard (JsonError := unit) log s) = true →
  no_collision (HS := demo_hash) attached_stream tt (lines_heard (JsonError := unit) log s).
Proof.
  rewrite forallb_forall. intros H.
  apply (no_collision_incl _ _ _ [lit "initialize 1"; lit "initialized"; lit "ping 2"; lit "result 1"]).
  - intros line Hin%list_elem_of_In. by apply H, bool_decide_eq_true in Hin.
  - apply no_collision_checked. by vm_compute.
Qed.

Definition sample_lines (events : list Event) : list bytes :=
  lines_heard (JsonError := unit) (sample_run events).1 (sample_run events).2.
Abbreviation sample_apart events := (no_collision (HS := demo_hash) attached_stream tt (sample_lines events)).

Lemma sample_ready_apart : sample_apart sample_ready.
Proof. apply sample_no_collision. by vm_compute. Qed.
Lemma sample_over_apart : sample_apart sample_over.
Proof. apply sample_no_collision. by vm_compute. Qed.

Lemma child_initialized_in_order_witness :
  len (handed (sample_run sample_ready).2) = 3 ∧
  handshake_order (delivered_frames (sample_run sample_ready).1) (handed (sample_run sample_ready).2).
Proof.
  split; [by vm_compute|].
  exact (child_initialized_in_order attached_stream tt demo_instant_max _ _ _ _ _ _ _ sample_setup
    attached_stream_typed _ _ (sample_run_attached sample_ready) sample_ready_apart).
Defined.

Lemma stdin_carries_accepted_lines_witness :
  ∃ rest, jsonl_stream [lit "initialize 1"; lit "initialized"; lit "ping 2"] =
    stdin_pipe (writer_link (workers (sample_run sample_ready).2)) ++ rest.
Proof.
  pose proof (proj1 (stdin_carries_accepted_lines attached_stream tt demo_instant_max _ _ _ _ _ _ _ sample_setup
    attached_stream_typed _ _ (sample_run_attached sample_ready) sample_ready_apart)) as H.
  replace (accepted_lines (sample_run sample_ready).1) with [lit "initialize 1"; lit "initialized"; lit "ping 2"] in H
    by (by vm_compute). exact H.
Defined.

Lemma stdout_lines_exact_witness :
  reader_lines (ch_accepted (reader_events (reader_link (workers (sample_run sample_ready).2)))) = [lit "result 1"] ∧
  Forall (line_ok (max_line (sample_run sample_ready).2))
    (reader_lines (ch_accepted (reader_events (reader_link (workers (sample_run sample_ready).2))))).
Proof.
  split; [by vm_compute|].
  exact (proj1 (proj2 (stdout_lines_exact attached_stream tt demo_instant_max _ _ _ _ _ _ _ sample_setup
    attached_stream_typed _ _ (sample_run_attached sample_ready) sample_ready_apart))).
Defined.

(** A second [initialize]. *)
Abbreviation again := (Call_Send (lit "initialize 1")).
Lemma sample_again_apart :
  no_collision (HS := demo_hash) attached_stream tt
    (lines_heard ((sample_run sample_ready).1 ++ [(again, (sample_call again (sample_run sample_ready).2).1)])
       (sample_call again (sample_run sample_ready).2).2).
Proof. apply sample_no_collision. by vm_compute. Qed.


Lemma session_ends_once_witness :
  let s' := (sample_call (Call_Shutdown Mode_Immediate 10) (sample_run sample_over).2).2 in
  rank (lifecycle (sample_run sample_over).2) <= rank (lifecycle s').
Proof.
  exact (proj1 (session_ends_once attached_stream tt demo_instant_max _ _ _ _ _ _ _ sample_setup
    attached_stream_typed _ _ (Call_Shutdown Mode_Immediate 10)
    (sample_run_attached sample_over) sample_over_apart)).
Defined.


Abbreviation sample_poll := (poll (HS := demo_hash) (Alloc := ample_allocator) attached_stream tt demo_instant_max).

Lemma sample_poll_succeeds : is_ok (sample_poll 6 (sample_run sample_ready).2).1 = true.
Proof. by vm_compute. Qed.

Lemma poll_enforces_deadlines_witness :
  ∃ p s', sample_poll 6 (sample_run sample_ready).2 = (Ok p, s') ∧
    session_observed_time (sample_run sample_ready).2 <= 6.
Proof.
  pose proof (poll_enforces_deadlines (HS := demo_hash) (Alloc := ample_allocator) attached_stream tt demo_instant_max 6 (sample_run sample_ready).2) as H.
  pose proof sample_poll_succeeds as Hok. revert H Hok. generalize (sample_run sample_ready). intros s H Hok.
  destruct (sample_poll 6 s.2) as [[p|e] s']; [|discriminate Hok].
  exists p, s'. split; [reflexivity|]. exact (proj1 (H p s' eq_refl)).
Defined.

Definition sample_stopped : list Event := sample_ready ++ [Event_Call (Call_Shutdown Mode_Immediate 6)].

Lemma sample_stopped_apart : sample_apart sample_stopped.
Proof. apply sample_no_collision. by vm_compute. Qed.


(** Waiting for a drained output is not bounded by the polls that fail: past the
    drain deadline, a line the proxy refuses ends the poll before the exit. *)
Definition sample_late : list Event :=
  sample_ready ++
  [Event_Workers [Act_Process sample_answers; Act_Process sample_answers; Act_Process sample_answers];
   Event_Call (Call_Poll 6);
   Event_Workers [Act_Reader (Ok (jsonl (lit "noise"))); Act_Reader (Ok [])]].

Theorem refused_line_delays_exit :
  let s := (sample_run sample_late).2 in
  let s' := (sample_call (Call_Poll (3600 * SECOND)) s).2 in
  process_exit s ≠ None ∧ process_exit_deadline s = Some (6 + 2 * SECOND) ∧ state s' = State_ShuttingDown ∧
  exit_report s' = None.
Proof. by vm_compute. Qed.
