(* ===== verification/Evidence.v ===== *)
(** * Evidence: certification profiles and exact-target evidence

    Models [crates/weregopher-domain/src/certification.rs] and
    [certification_evidence.rs]: assessments of single checks, the thirteen fixed
    checks and the application workflows of a profile, evidence for one exact
    target, its fail-closed disposition, and the structural validation of evidence
    against the profile whose digest it names.

    A digest of any role is its 32 bytes.  [serde_json] is a parameter: the
    [*_to_vec] functions are its canonical encodings and the [*_from_slice]
    functions deliver what the derived readers offer to the code, a sequence or a
    map with the size it announces and its entries in document order; the error
    it makes of a message is [json_custom]. *)

From S2P Require Import Prelude Text Wire.

(** ** Vocabulary *)

Inductive CertificationClass : Type :=
| Class_Blocked | Class_Provisional | Class_StructuralVerified | Class_SmokeVerified
| Class_ContractVerified | Class_ExactCertified.

Inductive PublicationStatus : Type :=
| Publication_LocalOnly | Publication_Draft | Publication_Published | Publication_Withdrawn.

Inductive TrustMode : Type :=
| Trust_RegistryTrusted | Trust_LocallyTrusted | Trust_Developer | Trust_ForensicOverride.

Definition CERTIFICATION_FIXED_CHECK_COUNT : Z := 13.
Definition MAX_CERTIFICATION_EVIDENCE_REFS : Z := 64.
Definition MAX_CERTIFICATION_WORKFLOWS : Z := 128.
Definition MAX_CERTIFICATION_DOCUMENT_BYTES : Z := 4 * 1024 * 1024.
Definition MAX_CERTIFICATION_PROFILE_DOCUMENT_BYTES : Z := 128 * 1024.

Definition CertificationProfileDigest : Type := Sha256Digest.
Definition CertificationEvidenceDigest : Type := Sha256Digest.
Definition CertificationArtifactDigest : Type := Sha256Digest.
Definition FeatureId : Type := str.

Inductive CertificationEvidenceFormatVersion : Type := EvidenceFormat_V1.
Inductive CertificationProfileFormatVersion : Type := ProfileFormat_V1.

Inductive CertificationEvidenceDisposition : Type :=
| Disposition_Incomplete | Disposition_Blocked | Disposition_Complete.

Inductive CertificationProfileClass : Type :=
| Profile_StructuralVerified | Profile_SmokeVerified | Profile_ContractVerified | Profile_ExactCertified.

Inductive CertificationExpectedStatus : Type := Expected_Passed | Expected_NotApplicable.

Inductive CertificationCheckDimension : Type :=
| Dim_PackageIdentity | Dim_EntryPointResolution | Dim_TransformMatches | Dim_ModuleGraph
| Dim_NativeDependencies | Dim_RuntimeBootstrap | Dim_RendererBootstrap | Dim_PreloadHandshake
| Dim_StateSafety | Dim_HelperLifecycle | Dim_SecurityContract | Dim_ResourceScenario
| Dim_DeclaredExceptions.

Inductive CertificationCheckStatus : Type :=
| Check_NotRun | Check_Passed | Check_Failed | Check_NotApplicable.

Inductive CertificationArtifactKind : Type :=
| Kind_PackageIdentity | Kind_StaticAnalysis | Kind_RuntimeProbe | Kind_RendererProbe | Kind_StateProbe
| Kind_SecurityProbe | Kind_WorkflowProbe | Kind_ResourceProbe | Kind_HelperProbe
| Kind_ExceptionVerification.

Record CertificationArtifactRef : Type := mkArtifactRef {
  ref_kind : CertificationArtifactKind;
  ref_digest : CertificationArtifactDigest
}.

#[global] Instance CertificationClass_eq_dec : EqDecision CertificationClass.
Proof. solve_decision. Defined.
#[global] Instance PublicationStatus_eq_dec : EqDecision PublicationStatus.
Proof. solve_decision. Defined.
#[global] Instance CertificationEvidenceDisposition_eq_dec : EqDecision CertificationEvidenceDisposition.
Proof. solve_decision. Defined.
#[global] Instance CertificationCheckStatus_eq_dec : EqDecision CertificationCheckStatus.
Proof. solve_decision. Defined.
#[global] Instance CertificationArtifactKind_eq_dec : EqDecision CertificationArtifactKind.
Proof. solve_decision. Defined.

(** The declared order of the kinds, which the derived [Ord] follows. *)
Definition artifact_kind_index (k : CertificationArtifactKind) : Z :=
  match k with
  | Kind_PackageIdentity => 0 | Kind_StaticAnalysis => 1 | Kind_RuntimeProbe => 2 | Kind_RendererProbe => 3
  | Kind_StateProbe => 4 | Kind_SecurityProbe => 5 | Kind_WorkflowProbe => 6 | Kind_ResourceProbe => 7
  | Kind_HelperProbe => 8 | Kind_ExceptionVerification => 9
  end.

Definition artifact_kind_of_index (z : Z) : CertificationArtifactKind :=
  match z with
  | 0 => Kind_PackageIdentity | 1 => Kind_StaticAnalysis | 2 => Kind_RuntimeProbe | 3 => Kind_RendererProbe
  | 4 => Kind_StateProbe | 5 => Kind_SecurityProbe | 6 => Kind_WorkflowProbe | 7 => Kind_ResourceProbe
  | 8 => Kind_HelperProbe | _ => Kind_ExceptionVerification
  end.

Lemma artifact_kind_of_index_of k : artifact_kind_of_index (artifact_kind_index k) = k.
Proof. by destruct k. Qed.

#[global] Instance CertificationArtifactKind_countable : Countable CertificationArtifactKind.
Proof. refine (inj_countable' artifact_kind_index artifact_kind_of_index _). apply artifact_kind_of_index_of. Defined.
#[global] Instance CertificationArtifactRef_eq_dec : EqDecision CertificationArtifactRef.
Proof. solve_decision. Defined.
#[global] Instance CertificationArtifactRef_countable : Countable CertificationArtifactRef.
Proof.
  refine (inj_countable' (λ r, (ref_kind r, ref_digest r)) (λ x, mkArtifactRef x.1 x.2) _). by intros [].
Defined.

(** The derived [Ord] of a reference: by kind, then by digest. *)
Definition artifact_ref_le (a b : CertificationArtifactRef) : bool :=
  (artifact_kind_index (ref_kind a) <? artifact_kind_index (ref_kind b)) ||
  ((artifact_kind_index (ref_kind a) =? artifact_kind_index (ref_kind b)) && str_le (ref_digest a) (ref_digest b)).

Definition expected_matches (self : CertificationExpectedStatus) (actual : CertificationCheckStatus) : bool :=
  match self, actual with
  | Expected_Passed, Check_Passed | Expected_NotApplicable, Check_NotApplicable => true
  | _, _ => false
  end.

Inductive CertificationContractError : Type :=
| Contract_MissingEvidence
| Contract_UnexpectedEvidence
| Contract_TooManyEvidenceReferences
| Contract_DuplicateEvidenceReference
| Contract_TooManyWorkflowAssessments
| Contract_TooManyProfileWorkflows.

(** ** Assessments *)

Record CertificationCheckAssessment : Type := mkAssessment {
  assessment_status : CertificationCheckStatus;
  assessment_evidence : gset CertificationArtifactRef
}.

(** The collecting loop: the sixty-fifth reference is refused. *)
Fixpoint collect_references (evidence values : list CertificationArtifactRef) :
    result (list CertificationArtifactRef) CertificationContractError :=
  match evidence with
  | [] => Ok values
  | reference :: evidence =>
    do? reject (len values =? MAX_CERTIFICATION_EVIDENCE_REFS) Contract_TooManyEvidenceReferences in
    collect_references evidence (values ++ [reference])
  end.

Definition assessment_new (status : CertificationCheckStatus) (evidence : list CertificationArtifactRef) :
    result CertificationCheckAssessment CertificationContractError :=
  let? values := collect_references evidence [] in
  let set : gset CertificationArtifactRef := list_to_set values in
  do? reject (negb (Z.of_nat (size set) =? len values)) Contract_DuplicateEvidenceReference in
  do? match status with
      | Check_NotRun => reject (negb (bool_decide (set = ∅))) Contract_UnexpectedEvidence
      | Check_Passed | Check_Failed | Check_NotApplicable => reject (bool_decide (set = ∅)) Contract_MissingEvidence
      end in
  Ok (mkAssessment status set).

Definition assessment_not_run : CertificationCheckAssessment := mkAssessment Check_NotRun ∅.

(** What [serde] offers of an assessment: its status, the announced number of
    references and the references. *)
Record AssessmentTransport : Type := mkAssessmentTransport {
  transport_status : CertificationCheckStatus;
  transport_evidence_hint : option Z;
  transport_evidence : list CertificationArtifactRef
}.

Definition announces_more (hint : option Z) (max : Z) : bool :=
  match hint with Some length => max <? length | None => false end.

Section Deserialize.
Context {JsonError : Type} (json_custom : JsonError).

(** The bounded visitor of [deserialize_certification_artifacts]: while there is
    room, take; then one more element is too many. *)
Fixpoint visit_references (elements values : list CertificationArtifactRef) :
    result (list CertificationArtifactRef) JsonError :=
  match elements with
  | [] => Ok values
  | reference :: elements =>
    do? reject (MAX_CERTIFICATION_EVIDENCE_REFS <=? len values) json_custom in
    visit_references elements (values ++ [reference])
  end.
Definition deserialize_certification_artifacts (hint : option Z) (elements : list CertificationArtifactRef) :
    result (list CertificationArtifactRef) JsonError :=
  do? reject (announces_more hint MAX_CERTIFICATION_EVIDENCE_REFS) json_custom in
  visit_references elements [].

Definition assessment_deserialize (t : AssessmentTransport) : result CertificationCheckAssessment JsonError :=
  let? evidence := deserialize_certification_artifacts (transport_evidence_hint t) (transport_evidence t) in
  map_err (λ _, json_custom) (assessment_new (transport_status t) evidence).
End Deserialize.

(** ** The fixed checks *)

Record fixed_checks (A : Type) : Type := mkFixedChecks {
  package_identity : A;
  entry_point_resolution : A;
  transform_matches : A;
  module_graph : A;
  native_dependencies : A;
  runtime_bootstrap : A;
  renderer_bootstrap : A;
  preload_handshake : A;
  state_safety : A;
  helper_lifecycle : A;
  security_contract : A;
  resource_scenario : A;
  declared_exceptions : A
}.
Arguments mkFixedChecks {_}.
Arguments package_identity {_}. Arguments entry_point_resolution {_}. Arguments transform_matches {_}.
Arguments module_graph {_}. Arguments native_dependencies {_}. Arguments runtime_bootstrap {_}.
Arguments renderer_bootstrap {_}. Arguments preload_handshake {_}. Arguments state_safety {_}.
Arguments helper_lifecycle {_}. Arguments security_contract {_}. Arguments resource_scenario {_}.
Arguments declared_exceptions {_}.

Definition CertificationChecks : Type := fixed_checks CertificationCheckAssessment.
Definition CertificationProfileChecks : Type := fixed_checks CertificationExpectedStatus.

Definition fields {A} (c : fixed_checks A) : list A :=
  [package_identity c; entry_point_resolution c; transform_matches c; module_graph c; native_dependencies c;
   runtime_bootstrap c; renderer_bootstrap c; preload_handshake c; state_safety c; helper_lifecycle c;
   security_contract c; resource_scenario c; declared_exceptions c].

Definition assessments (self : CertificationChecks) : list CertificationCheckAssessment := fields self.

Definition expectations (self : CertificationProfileChecks) :
    list (CertificationCheckDimension * CertificationExpectedStatus) :=
  [(Dim_PackageIdentity, package_identity self); (Dim_EntryPointResolution, entry_point_resolution self);
   (Dim_TransformMatches, transform_matches self); (Dim_ModuleGraph, module_graph self);
   (Dim_NativeDependencies, native_dependencies self); (Dim_RuntimeBootstrap, runtime_bootstrap self);
   (Dim_RendererBootstrap, renderer_bootstrap self); (Dim_PreloadHandshake, preload_handshake self);
   (Dim_StateSafety, state_safety self); (Dim_HelperLifecycle, helper_lifecycle self);
   (Dim_SecurityContract, security_contract self); (Dim_ResourceScenario, resource_scenario self);
   (Dim_DeclaredExceptions, declared_exceptions self)].

(** ** Profiles, targets and evidence *)

Record CertificationProfile : Type := mkProfile {
  profile_format_version : CertificationProfileFormatVersion;
  profile_class : CertificationProfileClass;
  profile_checks : CertificationProfileChecks;
  profile_workflows : gset FeatureId
}.

Definition profile_new (class : CertificationProfileClass) (checks : CertificationProfileChecks)
    (workflows : gset FeatureId) : result CertificationProfile CertificationContractError :=
  do? reject (MAX_CERTIFICATION_WORKFLOWS <? Z.of_nat (size workflows)) Contract_TooManyProfileWorkflows in
  Ok (mkProfile ProfileFormat_V1 class checks workflows).

Record CertificationTarget : Type := mkTarget {
  target_compatibility_analysis_digest : Sha256Digest;
  target_execution_contract_digest : Sha256Digest;
  target_execution_resolution_evidence_digest : Sha256Digest;
  target_artifact_source_digest : Sha256Digest;
  target_executable_digest : Sha256Digest
}.
#[global] Instance CertificationTarget_eq_dec : EqDecision CertificationTarget.
Proof. solve_decision. Defined.

Record CertificationEvidence : Type := mkEvidence {
  evidence_format_version : CertificationEvidenceFormatVersion;
  evidence_target : CertificationTarget;
  evidence_profile_digest : CertificationProfileDigest;
  evidence_checks : CertificationChecks;
  evidence_workflows : gmap FeatureId CertificationCheckAssessment
}.

Definition evidence_new (target : CertificationTarget) (profile_digest : CertificationProfileDigest)
    (checks : CertificationChecks) (workflows : gmap FeatureId CertificationCheckAssessment) :
    result CertificationEvidence CertificationContractError :=
  do? reject (MAX_CERTIFICATION_WORKFLOWS <? Z.of_nat (size workflows)) Contract_TooManyWorkflowAssessments in
  Ok (mkEvidence EvidenceFormat_V1 target profile_digest checks workflows).

(** [BTreeMap::values], in key order. *)
Definition workflow_assessments (workflows : gmap FeatureId CertificationCheckAssessment) :
    list CertificationCheckAssessment := (btree_iter str_le workflows).*2.

(** The fixed checks, then the workflows. *)
Definition all_assessments (self : CertificationEvidence) : list CertificationCheckAssessment :=
  assessments (evidence_checks self) ++ workflow_assessments (evidence_workflows self).

(** [BTreeSet::iter], in order. *)
Definition set_iter (s : gset CertificationArtifactRef) : list CertificationArtifactRef :=
  merge_sort (λ a b, Is_true (artifact_ref_le a b)) (elements s).

Definition artifact_references (self : CertificationEvidence) : list CertificationArtifactRef :=
  concat (map (λ a, set_iter (assessment_evidence a)) (all_assessments self)).

(** The loop of [disposition] over the assessments. *)
Fixpoint survey (l : list CertificationCheckAssessment) (has_failure has_gap : bool) : bool * bool :=
  match l with
  | [] => (has_failure, has_gap)
  | a :: l =>
    match assessment_status a with
    | Check_Failed => survey l true has_gap
    | Check_NotRun => survey l has_failure true
    | Check_Passed | Check_NotApplicable => survey l has_failure has_gap
    end
  end.

Definition disposition (self : CertificationEvidence) : CertificationEvidenceDisposition :=
  let '(has_failure, has_gap) := survey (all_assessments self) false false in
  if has_failure then Disposition_Blocked
  else if has_gap then Disposition_Incomplete
  else Disposition_Complete.

(** ** Documents *)

Inductive CertificationDocumentError (JsonError : Type) : Type :=
| Document_TooLarge
| Document_InvalidJson (source : JsonError).
Arguments Document_TooLarge {_}. Arguments Document_InvalidJson {_}.

Record ProfileTransport : Type := mkProfileTransport {
  transport_class : CertificationProfileClass;
  transport_profile_checks : CertificationProfileChecks;
  transport_profile_workflows_hint : option Z;
  transport_profile_workflows : list FeatureId
}.

Record EvidenceTransport : Type := mkEvidenceTransport {
  transport_target : CertificationTarget;
  transport_profile_digest : CertificationProfileDigest;
  transport_checks : fixed_checks AssessmentTransport;
  transport_workflows_hint : option Z;
  transport_workflows : list (FeatureId * AssessmentTransport)
}.

Section Documents.
Context {JsonError : Type} (json_custom : JsonError).
Context (profile_from_slice : bytes → result ProfileTransport JsonError)
        (evidence_from_slice : bytes → result EvidenceTransport JsonError).
Context (profile_to_vec : CertificationProfile → result bytes JsonError)
        (evidence_to_vec : CertificationEvidence → result bytes JsonError).
Context `{HS : Sha256}.

(** The visitor of [deserialize_certification_profile_workflows]. *)
Fixpoint visit_features (fuel : nat) (elements : list FeatureId) (workflows : gset FeatureId) :
    result (gset FeatureId) JsonError :=
  match fuel, elements with
  | _, [] => Ok workflows
  | O, _ :: _ => Err json_custom
  | S fuel, feature :: elements =>
    do? reject (bool_decide (feature ∈ workflows)) json_custom in
    visit_features fuel elements ({[feature]} ∪ workflows)
  end.
Definition deserialize_certification_profile_workflows (hint : option Z) (elements : list FeatureId) :
    result (gset FeatureId) JsonError :=
  do? reject (announces_more hint MAX_CERTIFICATION_WORKFLOWS) json_custom in
  visit_features (Z.to_nat MAX_CERTIFICATION_WORKFLOWS) elements ∅.

Definition profile_from_json_slice (bs : bytes) :
    result CertificationProfile (CertificationDocumentError JsonError) :=
  do? reject (MAX_CERTIFICATION_PROFILE_DOCUMENT_BYTES <? len bs) Document_TooLarge in
  let? t := map_err Document_InvalidJson (profile_from_slice bs) in
  let? workflows := map_err Document_InvalidJson
    (deserialize_certification_profile_workflows (transport_profile_workflows_hint t) (transport_profile_workflows t)) in
  map_err (λ _, Document_InvalidJson json_custom)
    (profile_new (transport_class t) (transport_profile_checks t) workflows).

(** The visitor of [deserialize_certification_workflows]: a repeated feature is
    refused before its value is read. *)
Fixpoint visit_workflows (entries : list (FeatureId * AssessmentTransport))
    (values : gmap FeatureId CertificationCheckAssessment) :
    result (gmap FeatureId CertificationCheckAssessment) JsonError :=
  match entries with
  | [] => Ok values
  | (feature, t) :: entries =>
    do? reject (MAX_CERTIFICATION_WORKFLOWS <=? Z.of_nat (size values)) json_custom in
    do? reject (bool_decide (is_Some (values !! feature))) json_custom in
    let? assessment := assessment_deserialize json_custom t in
    visit_workflows entries (<[feature := assessment]> values)
  end.
Definition deserialize_certification_workflows (hint : option Z)
    (entries : list (FeatureId * AssessmentTransport)) :
    result (gmap FeatureId CertificationCheckAssessment) JsonError :=
  do? reject (announces_more hint MAX_CERTIFICATION_WORKFLOWS) json_custom in
  visit_workflows entries ∅.

(** The derived reader of the thirteen fields. *)
Definition checks_deserialize (t : fixed_checks AssessmentTransport) : result CertificationChecks JsonError :=
  let de := assessment_deserialize json_custom in
  let? c1 := de (package_identity t) in let? c2 := de (entry_point_resolution t) in
  let? c3 := de (transform_matches t) in let? c4 := de (module_graph t) in
  let? c5 := de (native_dependencies t) in let? c6 := de (runtime_bootstrap t) in
  let? c7 := de (renderer_bootstrap t) in let? c8 := de (preload_handshake t) in
  let? c9 := de (state_safety t) in let? c10 := de (helper_lifecycle t) in
  let? c11 := de (security_contract t) in let? c12 := de (resource_scenario t) in
  let? c13 := de (declared_exceptions t) in
  Ok (mkFixedChecks c1 c2 c3 c4 c5 c6 c7 c8 c9 c10 c11 c12 c13).

Definition evidence_from_json_slice (bs : bytes) :
    result CertificationEvidence (CertificationDocumentError JsonError) :=
  do? reject (MAX_CERTIFICATION_DOCUMENT_BYTES <? len bs) Document_TooLarge in
  let? t := map_err Document_InvalidJson (evidence_from_slice bs) in
  let? checks := map_err Document_InvalidJson (checks_deserialize (transport_checks t)) in
  let? workflows := map_err Document_InvalidJson
    (deserialize_certification_workflows (transport_workflows_hint t) (transport_workflows t)) in
  map_err (λ _, Document_InvalidJson json_custom)
    (evidence_new (transport_target t) (transport_profile_digest t) checks workflows).

Definition profile_canonical_document_digest (self : CertificationProfile) :
    result CertificationProfileDigest JsonError :=
  let? bs := profile_to_vec self in Ok (sha256 bs).
Definition evidence_canonical_document_digest (self : CertificationEvidence) :
    result CertificationEvidenceDigest JsonError :=
  let? bs := evidence_to_vec self in Ok (sha256 bs).

(** ** Validation against a profile *)

Inductive CertificationProfileValidationError : Type :=
| Validation_ProfileDigestUnavailable (source : JsonError)
| Validation_ProfileDigestMismatch
| Validation_CheckStatusMismatch (dimension : CertificationCheckDimension)
    (expected : CertificationExpectedStatus) (actual : CertificationCheckStatus)
| Validation_WorkflowScopeMismatch
| Validation_WorkflowStatusMismatch (feature : FeatureId) (actual : CertificationCheckStatus).

Record StructurallyValidatedCertificationEvidence : Type := mkStructurallyValidated {
  validated_profile : CertificationProfile;
  validated_evidence : CertificationEvidence
}.

Fixpoint check_expectations
    (l : list ((CertificationCheckDimension * CertificationExpectedStatus) * CertificationCheckAssessment)) :
    result unit CertificationProfileValidationError :=
  match l with
  | [] => Ok tt
  | ((dimension, expected), actual) :: l =>
    do? reject (negb (expected_matches expected (assessment_status actual)))
      (Validation_CheckStatusMismatch dimension expected (assessment_status actual)) in
    check_expectations l
  end.

Fixpoint check_workflows (l : list (FeatureId * CertificationCheckAssessment)) :
    result unit CertificationProfileValidationError :=
  match l with
  | [] => Ok tt
  | (feature, assessment) :: l =>
    do? reject (bool_decide (assessment_status assessment ≠ Check_Passed))
      (Validation_WorkflowStatusMismatch feature (assessment_status assessment)) in
    check_workflows l
  end.

(** [BTreeSet::iter] of features. *)
Definition feature_iter (s : gset FeatureId) : list FeatureId :=
  merge_sort (λ a b, Is_true (str_le a b)) (elements s).

Definition validate_against_profile (self : CertificationEvidence) (profile : CertificationProfile) :
    result StructurallyValidatedCertificationEvidence CertificationProfileValidationError :=
  let? profile_digest := map_err Validation_ProfileDigestUnavailable (profile_canonical_document_digest profile) in
  do? reject (bool_decide (evidence_profile_digest self ≠ profile_digest)) Validation_ProfileDigestMismatch in
  do? check_expectations (zip (expectations (profile_checks profile)) (assessments (evidence_checks self))) in
  do? reject (negb (Z.of_nat (size (evidence_workflows self)) =? Z.of_nat (size (profile_workflows profile))) ||
              bool_decide (btree_keys str_le (evidence_workflows self) ≠ feature_iter (profile_workflows profile)))
    Validation_WorkflowScopeMismatch in
  do? check_workflows (btree_iter str_le (evidence_workflows self)) in
  Ok (mkStructurallyValidated profile self).
End Documents.
Arguments CertificationProfileValidationError : clear implicits.

(** ** Assessments are bounded, unique and coherent with their status *)

(** What an assessment promises. *)
Definition assessment_ok (a : CertificationCheckAssessment) : Prop :=
  Z.of_nat (size (assessment_evidence a)) <= MAX_CERTIFICATION_EVIDENCE_REFS ∧
  (assessment_status a = Check_NotRun ↔ assessment_evidence a = ∅).

Lemma collect_references_exact evidence values :
  len values <= MAX_CERTIFICATION_EVIDENCE_REFS →
  collect_references evidence values =
    if MAX_CERTIFICATION_EVIDENCE_REFS <? len values + len evidence then Err Contract_TooManyEvidenceReferences
    else Ok (values ++ evidence).
Proof.
  revert values. induction evidence as [|r evidence IH]; intros values Hle; cbn [collect_references].
  - rewrite len_nil, Z.add_0_r, app_nil_r. by destruct (Z.ltb_spec MAX_CERTIFICATION_EVIDENCE_REFS (len values)); [lia|].
  - pose proof (len_nonneg evidence). rewrite len_cons.
    destruct (Z.eqb_spec (len values) MAX_CERTIFICATION_EVIDENCE_REFS) as [He|Hne]; cbn [reject result_bind].
    + by destruct (Z.ltb_spec MAX_CERTIFICATION_EVIDENCE_REFS (len values + (1 + len evidence))); [|lia].
    + rewrite IH by (rewrite len_app, len_cons, len_nil; lia). rewrite len_app, len_cons, len_nil, <-app_assoc.
      by replace (len values + (1 + 0) + len evidence) with (len values + (1 + len evidence)) by lia.
Qed.

Lemma visit_references_collect {JsonError} (custom : JsonError) elements values :
  visit_references custom elements values =
    if (MAX_CERTIFICATION_EVIDENCE_REFS <? len values + len elements) && negb (bool_decide (elements = []))
    then Err custom else Ok (values ++ elements).
Proof.
  revert values. induction elements as [|r elements IH]; intros values; cbn [visit_references].
  - by rewrite bool_decide_eq_true_2, andb_false_r, app_nil_r.
  - rewrite bool_decide_eq_false_2, andb_true_r by done. pose proof (len_nonneg elements). rewrite len_cons.
    destruct (Z.leb_spec MAX_CERTIFICATION_EVIDENCE_REFS (len values)) as [He|Hne]; cbn [reject result_bind].
    + by destruct (Z.ltb_spec MAX_CERTIFICATION_EVIDENCE_REFS (len values + (1 + len elements))); [|lia].
    + rewrite IH, len_app, len_cons, len_nil, <-app_assoc.
      replace (len values + (1 + 0) + len elements) with (len values + (1 + len elements)) by lia.
      case_bool_decide as He; [|by rewrite andb_true_r]. subst elements. rewrite andb_false_r, len_nil.
      by destruct (Z.ltb_spec MAX_CERTIFICATION_EVIDENCE_REFS (len values + (1 + 0))); [lia|].
Qed.

(** An assessment is built exactly from at most 64 references without repetition,
    none for a check that did not run and some for any other. *)
Lemma assessment_new_Ok status evidence a :
  assessment_new status evidence = Ok a ↔
    len evidence <= MAX_CERTIFICATION_EVIDENCE_REFS ∧ NoDup evidence ∧
    (status = Check_NotRun ↔ evidence = []) ∧ a = mkAssessment status (list_to_set evidence).
Proof.
  unfold assessment_new. rewrite collect_references_exact by done. rewrite len_nil, Z.add_0_l. cbn [app].
  destruct (Z.ltb_spec MAX_CERTIFICATION_EVIDENCE_REFS (len evidence)) as [Hlt|Hle]; cbn [result_bind].
  { split; [done|]. intros [H _]. lia. }
  destruct (Z.eqb_spec (Z.of_nat (size (list_to_set evidence : gset CertificationArtifactRef))) (len evidence)) as [He|Hne];
    cbn [negb reject result_bind].
  2: { split; [done|]. intros (_ & H & _). by apply size_list_to_set_NoDup in H. }
  apply size_list_to_set_NoDup in He.
  assert (Hemp : bool_decide ((list_to_set evidence : gset CertificationArtifactRef) = ∅) = bool_decide (evidence = [])).
  { apply bool_decide_ext, list_to_set_empty_iff. }
  rewrite Hemp. clear Hemp. destruct evidence as [|r evidence].
  - rewrite bool_decide_eq_true_2 by done. destruct status; cbn [negb reject result_bind];
      (split; [|by intros (_ & _ & [??] & ->); naive_solver]); intros [= <-]; split_and!; done.
  - rewrite bool_decide_eq_false_2 by done. destruct status; cbn [negb reject result_bind];
      (split; [|by intros (_ & _ & [??] & ->); naive_solver]); intros [= <-]; split_and!; done.
Qed.

Lemma assessment_new_ok status evidence a : assessment_new status evidence = Ok a → assessment_ok a.
Proof.
  intros (Hlen & Hnd & Hs & ->)%assessment_new_Ok. split; cbn [assessment_evidence assessment_status].
  - apply size_list_to_set_NoDup in Hnd. lia.
  - by rewrite list_to_set_empty_iff.
Qed.

(** the reader of an assessment accepts exactly what the constructor accepts:
    the hard-coded bounds of the visitor and of the constructor agree, and an
    announced size can only refuse. *)
Theorem assessment_deserialize_exact {JsonError} (custom : JsonError) t a :
  assessment_deserialize custom t = Ok a ↔
    assessment_new (transport_status t) (transport_evidence t) = Ok a ∧
    announces_more (transport_evidence_hint t) MAX_CERTIFICATION_EVIDENCE_REFS = false.
Proof.
  unfold assessment_deserialize, deserialize_certification_artifacts. rewrite visit_references_collect, len_nil, Z.add_0_l.
  cbn [app]. destruct (announces_more _ _); cbn [reject result_bind]; [by split; [|intros [_ ?]]|].
  destruct (Z.ltb_spec MAX_CERTIFICATION_EVIDENCE_REFS (len (transport_evidence t))) as [Hlt|Hle].
  - rewrite bool_decide_eq_false_2 by (intros Hn; rewrite Hn in Hlt; by vm_compute in Hlt).
    cbn [andb negb result_bind]. split; [done|]. intros [(H & _)%assessment_new_Ok _]. lia.
  - cbn [andb result_bind]. split.
    + intros Ha. apply map_err_Ok in Ha. by split.
    + intros [Ha _]. by apply map_err_Ok.
Qed.

(** ** Dispositions fail closed *)

Definition has_status (s : CertificationCheckStatus) (a : CertificationCheckAssessment) : bool :=
  bool_decide (assessment_status a = s).

Lemma survey_spec l f g :
  survey l f g = (f || existsb (has_status Check_Failed) l, g || existsb (has_status Check_NotRun) l).
Proof.
  revert f g. induction l as [|a l IH]; intros f g; cbn [survey existsb]; [by rewrite !orb_false_r|].
  unfold has_status at 1 3. destruct (assessment_status a) eqn:E; rewrite IH;
    repeat (case_bool_decide; try done); by rewrite ?orb_true_r, ?orb_false_l.
Qed.

Lemma existsb_status s l : existsb (has_status s) l = true ↔ ∃ a, a ∈ l ∧ assessment_status a = s.
Proof.
  rewrite existsb_exists. split; intros (a & Ha & Hs); exists a; rewrite ?list_elem_of_In in *;
    (split; [done|]); unfold has_status in *; by rewrite bool_decide_eq_true in *.
Qed.

Lemma disposition_spec self :
  (disposition self = Disposition_Complete ↔
     ∀ a, a ∈ all_assessments self → assessment_status a = Check_Passed ∨ assessment_status a = Check_NotApplicable) ∧
  (disposition self = Disposition_Blocked ↔
     ∃ a, a ∈ all_assessments self ∧ assessment_status a = Check_Failed).
Proof.
  unfold disposition. rewrite survey_spec. cbn [orb].
  pose proof (existsb_status Check_Failed (all_assessments self)) as Hf.
  pose proof (existsb_status Check_NotRun (all_assessments self)) as Hn.
  destruct (existsb (has_status Check_Failed) (all_assessments self)).
  { destruct (proj1 Hf eq_refl) as (b & Hb & Hs). split; [|by split; [exists b|]].
    split; [done|]. intros H. destruct (H b Hb); congruence. }
  assert (Hnf : ∀ a, a ∈ all_assessments self → assessment_status a ≠ Check_Failed).
  { intros a Ha Hs. discriminate (proj2 Hf (ex_intro _ a (conj Ha Hs))). }
  destruct (existsb (has_status Check_NotRun) (all_assessments self)).
  - destruct (proj1 Hn eq_refl) as (b & Hb & Hs). split; (split; [done|]).
    + intros H. destruct (H b Hb); congruence.
    + intros (a & Ha & Hs'). by apply Hnf in Ha.
  - split; (split; [|try done]).
    + intros _ a Ha. destruct (assessment_status a) eqn:E; [|by left| |by right]; exfalso.
      * discriminate (proj2 Hn (ex_intro _ a (conj Ha E))).
      * by apply (Hnf a).
    + done.
    + intros (a & Ha & Hs'). by apply Hnf in Ha.
Qed.

(** evidence is complete exactly when every check and workflow passed or was
    proved not applicable, and blocked exactly when one failed, whatever else is
    missing. *)
Theorem disposition_exact self :
  (disposition self = Disposition_Complete ↔
     ∀ a, a ∈ all_assessments self → assessment_status a = Check_Passed ∨ assessment_status a = Check_NotApplicable) ∧
  (disposition self = Disposition_Blocked ↔
     ∃ a, a ∈ all_assessments self ∧ assessment_status a = Check_Failed).
Proof. exact (disposition_spec self). Qed.

(** ** Validation is exact *)

Lemma feature_iter_keys {V} (m : gmap FeatureId V) (s : gset FeatureId) :
  btree_keys str_le m = feature_iter s ↔ dom m = s.
Proof.
  assert (Hkeys : ∀ k, k ∈ btree_keys str_le m ↔ k ∈ dom m).
  { intros k. unfold btree_keys. rewrite btree_iter_perm, list_elem_of_fmap, elem_of_dom. split.
    - intros ([k' v] & -> & Hin%elem_of_map_to_list). by exists v.
    - intros [v Hv]. exists (k, v). by rewrite elem_of_map_to_list. }
  assert (Hset : ∀ k, k ∈ feature_iter s ↔ k ∈ s).
  { intros k. unfold feature_iter. by rewrite merge_sort_Permutation, elem_of_elements. }
  split.
  - intros Heq. apply set_eq. intros k. by rewrite <-Hkeys, Heq.
  - intros <-. apply (StronglySorted_unique_strong (λ a b, Is_true (str_le a b))).
    + intros a b _ _. rewrite !Is_true_true. apply str_le_antisymm.
    + unfold btree_keys. eapply StronglySorted_fmap; [|apply btree_iter_sorted; [apply str_le_total|apply str_le_trans]].
      done.
    + apply Sorted_StronglySorted; [intros a b c; rewrite !Is_true_true; apply str_le_trans|].
      apply Sorted_merge_sort. intros a b. rewrite !Is_true_true. apply str_le_total.
    + apply NoDup_Permutation; [apply btree_iter_NoDup|unfold feature_iter; rewrite merge_sort_Permutation; apply NoDup_elements|].
      intros k. by rewrite Hkeys, Hset.
Qed.

Lemma check_expectations_Ok {JsonError} l :
  check_expectations (JsonError := JsonError) l = Ok tt ↔
    Forall (λ x, expected_matches x.1.2 (assessment_status x.2) = true) l.
Proof.
  induction l as [|[[d e] a] l IH]; cbn [check_expectations]; [by rewrite Forall_nil|].
  rewrite Forall_cons, <-IH. cbn. destruct (expected_matches e (assessment_status a)); cbn; intuition congruence.
Qed.

Lemma check_workflows_Ok {JsonError} l :
  check_workflows (JsonError := JsonError) l = Ok tt ↔ Forall (λ x, assessment_status x.2 = Check_Passed) l.
Proof.
  induction l as [|[f a] l IH]; cbn [check_workflows]; [by rewrite Forall_nil|].
  rewrite Forall_cons, <-IH. cbn. case_bool_decide; cbn; intuition congruence.
Qed.

(** The expectation of every fixed check is met by the assessment of the same
    field. *)
Definition checks_meet (expected : CertificationProfileChecks) (actual : CertificationChecks) : Prop :=
  Forall2 (λ e a, expected_matches e (assessment_status a) = true) (fields expected) (fields actual).

Lemma check_expectations_meet {JsonError} expected actual :
  check_expectations (JsonError := JsonError) (zip (expectations expected) (assessments actual)) = Ok tt ↔
    checks_meet expected actual.
Proof.
  rewrite check_expectations_Ok. unfold checks_meet, assessments, fields, expectations. cbn [zip_with zip].
  rewrite !Forall_cons, !Forall2_cons. cbn. rewrite Forall_nil, Forall2_nil. tauto.
Qed.

Lemma reject_result_Ok {E} b (e : E) : reject b e = Ok tt ↔ b = false.
Proof. apply reject_Ok. Qed.

Section Laws.
Context {JsonError : Type} (json_custom : JsonError).
Context (profile_to_vec : CertificationProfile → result bytes JsonError) `{HS : Sha256}.
Abbreviation validate_against_profile := (validate_against_profile profile_to_vec).

Lemma validate_against_profile_Ok self profile v :
  validate_against_profile self profile = Ok v ↔
    (∃ bs, profile_to_vec profile = Ok bs ∧ evidence_profile_digest self = sha256 bs) ∧
    checks_meet (profile_checks profile) (evidence_checks self) ∧
    dom (evidence_workflows self) = profile_workflows profile ∧
    map_Forall (λ _ a, assessment_status a = Check_Passed) (evidence_workflows self) ∧
    v = mkStructurallyValidated profile self.
Proof.
  unfold Evidence.validate_against_profile, profile_canonical_document_digest.
  destruct (profile_to_vec profile) as [bs|e]; cbn [result_bind map_err]; [|by split; [|intros ((? & ? & _) & _)]].
  case_bool_decide as Hd; cbn [reject result_bind].
  { split; [done|]. intros ((bs' & [= <-] & H) & _). done. }
  rewrite <-(check_expectations_meet (JsonError := JsonError)).
  destruct (check_expectations _) as [[]|e]; cbn [result_bind]; [|by split; [|intros (_ & ? & _)]].
  rewrite <-(feature_iter_keys (evidence_workflows self)).
  destruct (decide (btree_keys str_le (evidence_workflows self) = feature_iter (profile_workflows profile))) as [Hk|Hk].
  2: { rewrite (bool_decide_eq_true_2 (_ ≠ _)), orb_true_r by done. cbn. by split; [|intros (_ & _ & ? & _)]. }
  rewrite (bool_decide_eq_false_2 (_ ≠ _)), orb_false_r by auto.
  assert (Hsize : (Z.of_nat (size (evidence_workflows self)) =? Z.of_nat (size (profile_workflows profile))) = true).
  { apply Z.eqb_eq. f_equal. apply feature_iter_keys in Hk. by rewrite <-Hk, size_dom. }
  rewrite Hsize. cbn [negb reject result_bind].
  rewrite map_Forall_to_list, <-(btree_iter_perm str_le).
  assert (Hw : Forall (uncurry (λ (_ : FeatureId) a, assessment_status a = Check_Passed)) (btree_iter str_le (evidence_workflows self)) ↔
    Forall (λ x, assessment_status x.2 = Check_Passed) (btree_iter str_le (evidence_workflows self))).
  { split; intros Hf; (eapply Forall_impl; [exact Hf|]); by intros [f a]. }
  rewrite Hw, <-(check_workflows_Ok (JsonError := JsonError)).
  destruct (check_workflows _) as [[]|e]; cbn [result_bind]; [|by split; [|intros (_ & _ & _ & ? & _)]].
  split; [intros [= <-]; split_and!; eauto|by intros (_ & _ & _ & _ & ->)].
Qed.

Lemma checks_meet_complete expected actual a :
  checks_meet expected actual → a ∈ assessments actual →
  assessment_status a = Check_Passed ∨ assessment_status a = Check_NotApplicable.
Proof.
  intros Hm Ha. apply list_elem_of_lookup in Ha as [i Hi].
  destruct (Forall2_lookup_r _ _ _ _ _ Hm Hi) as (e & _ & He). destruct e, (assessment_status a); cbn in He; auto; done.
Qed.

(** structural validation is exact.  Evidence is bound to a profile exactly
    when it names the SHA-256 of the canonical profile bytes, every one of the
    thirteen fixed checks has the expected status, the workflows assessed are
    exactly the mandatory ones and all of them passed; the proof then carries the
    very profile and evidence, and that evidence is complete. *)
Theorem validate_against_profile_exact self profile :
  (∀ v, validate_against_profile self profile = Ok v ↔
     (∃ bs, profile_to_vec profile = Ok bs ∧ evidence_profile_digest self = sha256 bs) ∧
     checks_meet (profile_checks profile) (evidence_checks self) ∧
     dom (evidence_workflows self) = profile_workflows profile ∧
     map_Forall (λ _ a, assessment_status a = Check_Passed) (evidence_workflows self) ∧
     v = mkStructurallyValidated profile self) ∧
  (is_ok (validate_against_profile self profile) = true → disposition self = Disposition_Complete).
Proof.
  split; [apply validate_against_profile_Ok|].
  destruct (validate_against_profile self profile) as [v|e] eqn:E; [intros _|done].
  apply validate_against_profile_Ok in E as (_ & Hm & _ & Hw & _). apply disposition_spec.
  intros a [Ha|Ha]%elem_of_app; [by eapply checks_meet_complete|].
  left. unfold workflow_assessments in Ha. apply list_elem_of_fmap in Ha as ([f a'] & -> & Hin%elem_of_btree_iter).
  by apply (Hw f a').
Qed.
End Laws.

(** ** Accepted documents are well formed *)

(** What evidence promises: every assessment is bounded and coherent with its
    status, and the workflows are bounded. *)
Definition evidence_ok (e : CertificationEvidence) : Prop :=
  Forall assessment_ok (fields (evidence_checks e)) ∧ map_Forall (λ _ a, assessment_ok a) (evidence_workflows e) ∧
  Z.of_nat (size (evidence_workflows e)) <= MAX_CERTIFICATION_WORKFLOWS.

Lemma assessment_deserialize_ok {JsonError} (custom : JsonError) t a :
  assessment_deserialize custom t = Ok a → assessment_ok a.
Proof.
  unfold assessment_deserialize. intros H. apply result_bind_Ok in H as (evidence & _ & H%map_err_Ok).
  by eapply assessment_new_ok.
Qed.

Lemma visit_workflows_ok {JsonError} (custom : JsonError) entries values m :
  map_Forall (λ _ a, assessment_ok a) values → visit_workflows custom entries values = Ok m →
  map_Forall (λ _ a, assessment_ok a) m ∧ dom m = list_to_set entries.*1 ∪ dom values ∧
  (NoDup entries.*1 ∧ ∀ f, f ∈ entries.*1 → values !! f = None).
Proof.
  revert values. induction entries as [|[f t] entries IH]; intros values Hv H; cbn [visit_workflows] in H.
  { injection H as <-. cbn. rewrite (left_id_L ∅ (∪)). split_and!; [done|done|constructor|]. intros f Hf.
    by apply elem_of_nil in Hf. }
  apply result_bind_Ok in H as (_ & _ & H). apply result_bind_Ok in H as (_ & Hn%reject_Ok%bool_decide_eq_false & H).
  apply result_bind_Ok in H as (a & Ha%assessment_deserialize_ok & H). apply eq_None_not_Some in Hn.
  apply IH in H as (H1 & H2 & H3 & H4); [|by apply map_Forall_insert_2].
  cbn. split_and!; [done|rewrite H2, dom_insert_L; set_solver+| |].
  - constructor; [|done]. intros Hin. apply H4 in Hin. by rewrite lookup_insert_eq in Hin.
  - intros g [->|Hg]%elem_of_cons; [done|]. specialize (H4 g Hg). by apply lookup_insert_None in H4 as [? _].
Qed.

Lemma checks_deserialize_ok {JsonError} (custom : JsonError) t c :
  checks_deserialize custom t = Ok c → Forall assessment_ok (fields c).
Proof.
  unfold checks_deserialize. intros H. do 13 (apply result_bind_Ok in H as (? & ?%assessment_deserialize_ok & H)).
  injection H as <-. unfold fields. cbn. by repeat apply Forall_cons_2.
Qed.

Lemma evidence_from_json_slice_Ok {JsonError} (custom : JsonError)
    (from_slice : bytes → result EvidenceTransport JsonError) bs e :
  evidence_from_json_slice custom from_slice bs = Ok e →
  len bs <= MAX_CERTIFICATION_DOCUMENT_BYTES ∧ evidence_ok e ∧
  ∃ t, from_slice bs = Ok t ∧ evidence_target e = transport_target t ∧
       evidence_profile_digest e = transport_profile_digest t ∧
       NoDup (transport_workflows t).*1 ∧ dom (evidence_workflows e) = list_to_set (transport_workflows t).*1.
Proof.
  unfold evidence_from_json_slice. intros H. apply result_bind_Ok in H as (_ & Hlen%reject_Ok%Z.ltb_ge & H).
  apply result_bind_Ok in H as (t & Ht%map_err_Ok & H).
  apply result_bind_Ok in H as (c & Hc%map_err_Ok%checks_deserialize_ok & H).
  apply result_bind_Ok in H as (w & Hw%map_err_Ok & H).
  unfold deserialize_certification_workflows in Hw. apply result_bind_Ok in Hw as (_ & _ & Hw).
  apply map_err_Ok in H. unfold evidence_new in H. apply result_bind_Ok in H as (_ & Hsize%reject_Ok%Z.ltb_ge & [= <-]).
  apply visit_workflows_ok in Hw as (H1 & H2 & H3 & _); [|apply map_Forall_empty].
  rewrite dom_empty_L, (right_id_L ∅ (∪)) in H2. split; [done|]. split; [done|]. by exists t.
Qed.

(** no document escapes the contract.  Evidence read from bytes is at most
    four mebibytes of JSON and well formed: each check has at most 64 references
    and has references exactly when it ran, there are at most 128 workflows, and
    their features are exactly those the document lists, each once. *)
Theorem evidence_from_json_slice_typed {JsonError} (custom : JsonError)
    (from_slice : bytes → result EvidenceTransport JsonError) bs e :
  evidence_from_json_slice custom from_slice bs = Ok e →
  len bs <= MAX_CERTIFICATION_DOCUMENT_BYTES ∧ evidence_ok e ∧
  ∃ t, from_slice bs = Ok t ∧ evidence_target e = transport_target t ∧
       evidence_profile_digest e = transport_profile_digest t ∧
       NoDup (transport_workflows t).*1 ∧ dom (evidence_workflows e) = list_to_set (transport_workflows t).*1.
Proof. apply evidence_from_json_slice_Ok. Qed.

(** ** A concrete document *)

Definition sample_ref : CertificationArtifactRef := mkArtifactRef Kind_RuntimeProbe (lit "digest").
Definition sample_passed : AssessmentTransport := mkAssessmentTransport Check_Passed (Some 1) [sample_ref].
Definition sample_checks : fixed_checks AssessmentTransport :=
  mkFixedChecks sample_passed sample_passed sample_passed sample_passed sample_passed sample_passed sample_passed
    sample_passed sample_passed sample_passed sample_passed sample_passed
    (mkAssessmentTransport Check_NotApplicable (Some 1) [sample_ref]).
Definition sample_target : CertificationTarget := mkTarget (lit "a") (lit "b") (lit "c") (lit "d") (lit "e").
Definition sample_evidence_transport : EvidenceTransport :=
  mkEvidenceTransport sample_target (lit "profile") sample_checks (Some 1) [(lit "chat", sample_passed)].
Definition sample_from_slice (bs : bytes) : result EvidenceTransport unit := Ok sample_evidence_transport.
Definition sample_evidence : CertificationEvidence :=
  match evidence_from_json_slice tt sample_from_slice [] with Ok e => e | Err _ =>
    mkEvidence EvidenceFormat_V1 sample_target [] (mkFixedChecks assessment_not_run assessment_not_run assessment_not_run
      assessment_not_run assessment_not_run assessment_not_run assessment_not_run assessment_not_run assessment_not_run
      assessment_not_run assessment_not_run assessment_not_run assessment_not_run) ∅ end.

Lemma sample_evidence_read : evidence_from_json_slice tt sample_from_slice [] = Ok sample_evidence.
Proof.
  assert (Hok : is_ok (evidence_from_json_slice tt sample_from_slice []) = true) by (vm_compute; reflexivity).
    unfold sample_evidence. destruct (evidence_from_json_slice tt sample_from_slice []) as [e|e]; [reflexivity|discriminate Hok].
Qed.
Lemma sample_evidence_ok : evidence_ok sample_evidence.
Proof. exact (proj1 (proj2 (evidence_from_json_slice_Ok tt sample_from_slice [] sample_evidence sample_evidence_read))). Qed.

Lemma evidence_from_json_slice_typed_witness :
  evidence_from_json_slice tt sample_from_slice [] = Ok sample_evidence ∧ evidence_ok sample_evidence.
Proof.
  split; [exact sample_evidence_read|].
  exact (proj1 (proj2 (evidence_from_json_slice_typed tt sample_from_slice [] sample_evidence sample_evidence_read))).
Defined.
