(* ===== verification/Compatibility.v ===== *)
(** * Compatibility: analyses of one build for one target

    Models [crates/weregopher-domain/src/compatibility.rs]: assessments of single
    dimensions, the ten fixed dimensions and the workflows of an analysis, their
    bounded deserialization and the fail-closed disposition.

    A JSON sequence or object offered by [serde] is the list of its entries in
    document order with the size it announces; the error [serde] makes of a
    message is [json_custom]. *)

From S2P Require Import Prelude Text Wire Evidence.

Definition MAX_COMPATIBILITY_EVIDENCE_REFS : Z := 64.
Definition MAX_COMPATIBILITY_WORKFLOWS : Z := 128.

Inductive CompatibilityAnalysisFormatVersion : Type := AnalysisFormat_V1.
Inductive CompatibilityPlatform : Type := CompatibilityPlatform_Windows.
Inductive CompatibilityArchitecture : Type := CompatibilityArchitecture_X86_64.

Record CompatibilityTarget : Type := mkCompatibilityTarget {
  compat_platform : CompatibilityPlatform;
  compat_architecture : CompatibilityArchitecture;
  compat_adapter_contract_digest : Sha256Digest;
  compat_main_runtime_contract_digest : Sha256Digest;
  compat_renderer_backend_contract_digest : Sha256Digest;
  compat_execution_environment_digest : Sha256Digest
}.

Definition compatibility_target_windows_x64 (adapter_contract main_runtime_contract renderer_backend_contract
    execution_environment : Sha256Digest) : CompatibilityTarget :=
  mkCompatibilityTarget CompatibilityPlatform_Windows CompatibilityArchitecture_X86_64 adapter_contract
    main_runtime_contract renderer_backend_contract execution_environment.

Inductive AnalysisDisposition : Type := Analysis_Incomplete | Analysis_Blocked | Analysis_Complete.

Inductive DimensionStatus : Type :=
| Dimension_Unknown | Dimension_Satisfied | Dimension_Unsatisfied | Dimension_NotApplicable.

Inductive CompatibilityEvidenceKind : Type :=
| Compat_PackageManifest | Compat_StaticAnalysis | Compat_RuntimeProbe | Compat_RendererProbe
| Compat_StateProbe | Compat_SecurityProbe | Compat_WorkflowProbe | Compat_AdapterContract.

Record CompatibilityEvidenceRef : Type := mkCompatibilityRef {
  compat_ref_kind : CompatibilityEvidenceKind;
  compat_ref_digest : Sha256Digest
}.

#[global] Instance AnalysisDisposition_eq_dec : EqDecision AnalysisDisposition.
Proof. solve_decision. Defined.
#[global] Instance DimensionStatus_eq_dec : EqDecision DimensionStatus.
Proof. solve_decision. Defined.
#[global] Instance CompatibilityEvidenceKind_eq_dec : EqDecision CompatibilityEvidenceKind.
Proof. solve_decision. Defined.

Definition compat_kinds : list CompatibilityEvidenceKind :=
  [Compat_PackageManifest; Compat_StaticAnalysis; Compat_RuntimeProbe; Compat_RendererProbe; Compat_StateProbe;
   Compat_SecurityProbe; Compat_WorkflowProbe; Compat_AdapterContract].
#[global] Instance CompatibilityEvidenceKind_countable : Countable CompatibilityEvidenceKind.
Proof.
  refine (inj_countable' (λ k, list_find (k =.) compat_kinds ≫= λ p, Some p.1)
    (λ o, default Compat_PackageManifest (o ≫= λ i, compat_kinds !! i)) _). by intros [].
Defined.
#[global] Instance CompatibilityEvidenceRef_eq_dec : EqDecision CompatibilityEvidenceRef.
Proof. solve_decision. Defined.
#[global] Instance CompatibilityEvidenceRef_countable : Countable CompatibilityEvidenceRef.
Proof.
  refine (inj_countable' (λ r, (compat_ref_kind r, compat_ref_digest r)) (λ x, mkCompatibilityRef x.1 x.2) _). by intros [].
Defined.

Inductive CompatibilityContractError : Type :=
| Compat_MissingEvidence
| Compat_TooManyEvidenceReferences
| Compat_DuplicateEvidenceReference
| Compat_TooManyWorkflowAssessments.

(** ** Assessments *)

Record DimensionAssessment : Type := mkDimensionAssessment {
  dimension_status : DimensionStatus;
  dimension_evidence : gset CompatibilityEvidenceRef
}.

Fixpoint collect_compatibility_refs (evidence values : list CompatibilityEvidenceRef) :
    result (list CompatibilityEvidenceRef) CompatibilityContractError :=
  match evidence with
  | [] => Ok values
  | reference :: evidence =>
    do? reject (len values =? MAX_COMPATIBILITY_EVIDENCE_REFS) Compat_TooManyEvidenceReferences in
    collect_compatibility_refs evidence (values ++ [reference])
  end.

Definition dimension_assessment_new (status : DimensionStatus) (evidence : list CompatibilityEvidenceRef) :
    result DimensionAssessment CompatibilityContractError :=
  let? values := collect_compatibility_refs evidence [] in
  let set : gset CompatibilityEvidenceRef := list_to_set values in
  do? reject (negb (Z.of_nat (size set) =? len values)) Compat_DuplicateEvidenceReference in
  do? reject (bool_decide (status ≠ Dimension_Unknown) && bool_decide (set = ∅)) Compat_MissingEvidence in
  Ok (mkDimensionAssessment status set).

Definition dimension_assessment_unknown : DimensionAssessment := mkDimensionAssessment Dimension_Unknown ∅.

(** [UncheckedDimensionAssessment], its references as the document offers them. *)
Record DimensionTransport : Type := mkDimensionTransport {
  transport_dimension_status : DimensionStatus;
  transport_dimension_hint : option Z;
  transport_dimension_evidence : list CompatibilityEvidenceRef
}.

(** ** Analyses *)

Record dimensions (A : Type) : Type := mkDimensions {
  dim_package : A;
  dim_main_runtime : A;
  dim_renderer : A;
  dim_preload : A;
  dim_electron_api : A;
  dim_node_api : A;
  dim_native_modules : A;
  dim_helpers : A;
  dim_state : A;
  dim_security : A
}.
Arguments mkDimensions {_}.
Arguments dim_package {_}. Arguments dim_main_runtime {_}. Arguments dim_renderer {_}. Arguments dim_preload {_}.
Arguments dim_electron_api {_}. Arguments dim_node_api {_}. Arguments dim_native_modules {_}. Arguments dim_helpers {_}.
Arguments dim_state {_}. Arguments dim_security {_}.

Definition CompatibilityDimensions : Type := dimensions DimensionAssessment.

Definition dimension_assessments (self : CompatibilityDimensions) : list DimensionAssessment :=
  [dim_package self; dim_main_runtime self; dim_renderer self; dim_preload self; dim_electron_api self;
   dim_node_api self; dim_native_modules self; dim_helpers self; dim_state self; dim_security self].

Record CompatibilityAnalysis : Type := mkAnalysis {
  analysis_format_version : CompatibilityAnalysisFormatVersion;
  analysis_source_build_fingerprint_digest : Sha256Digest;
  analysis_target : CompatibilityTarget;
  analysis_dimensions : CompatibilityDimensions;
  analysis_workflows : gmap FeatureId DimensionAssessment
}.

Definition analysis_new (source_build_fingerprint_digest : Sha256Digest) (target : CompatibilityTarget)
    (dimensions : CompatibilityDimensions) (workflows : gmap FeatureId DimensionAssessment) :
    result CompatibilityAnalysis CompatibilityContractError :=
  do? reject (MAX_COMPATIBILITY_WORKFLOWS <? map_len workflows) Compat_TooManyWorkflowAssessments in
  Ok (mkAnalysis AnalysisFormat_V1 source_build_fingerprint_digest target dimensions workflows).

(** Every fixed dimension, then the workflows in key order. *)
Definition analysis_statuses (self : CompatibilityAnalysis) : list DimensionStatus :=
  map dimension_status (dimension_assessments (analysis_dimensions self) ++ (btree_iter str_le (analysis_workflows self)).*2).

(** The loop of [aggregate_statuses]; an unsatisfied dimension ends it. *)
Fixpoint aggregate_from (statuses : list DimensionStatus) (incomplete : bool) : AnalysisDisposition :=
  match statuses with
  | [] => if incomplete then Analysis_Incomplete else Analysis_Complete
  | Dimension_Unsatisfied :: _ => Analysis_Blocked
  | Dimension_Unknown :: statuses => aggregate_from statuses true
  | (Dimension_Satisfied | Dimension_NotApplicable) :: statuses => aggregate_from statuses incomplete
  end.
Definition aggregate_statuses (statuses : list DimensionStatus) : AnalysisDisposition := aggregate_from statuses false.

Definition analysis_disposition (self : CompatibilityAnalysis) : AnalysisDisposition :=
  aggregate_statuses (analysis_statuses self).

(** [UncheckedCompatibilityAnalysis]. *)
Record AnalysisTransport : Type := mkAnalysisTransport {
  transport_source_build : Sha256Digest;
  transport_analysis_target : CompatibilityTarget;
  transport_dimensions : dimensions DimensionTransport;
  transport_analysis_hint : option Z;
  transport_analysis_workflows : list (FeatureId * DimensionTransport)
}.

Section Deserialize.
Context {JsonError : Type} (json_custom : JsonError).

Fixpoint visit_compatibility_refs (elements values : list CompatibilityEvidenceRef) :
    result (list CompatibilityEvidenceRef) JsonError :=
  match elements with
  | [] => Ok values
  | reference :: elements =>
    do? reject (negb (len values <? MAX_COMPATIBILITY_EVIDENCE_REFS)) json_custom in
    visit_compatibility_refs elements (values ++ [reference])
  end.
Definition deserialize_evidence_references (hint : option Z) (elements : list CompatibilityEvidenceRef) :
    result (list CompatibilityEvidenceRef) JsonError :=
  do? reject (announces_more hint MAX_COMPATIBILITY_EVIDENCE_REFS) json_custom in
  visit_compatibility_refs elements [].

Definition dimension_deserialize (t : DimensionTransport) : result DimensionAssessment JsonError :=
  let? evidence := deserialize_evidence_references (transport_dimension_hint t) (transport_dimension_evidence t) in
  map_err (λ _, json_custom) (dimension_assessment_new (transport_dimension_status t) evidence).

(** The derived reader of the ten dimensions. *)
Definition dimensions_deserialize (t : dimensions DimensionTransport) : result CompatibilityDimensions JsonError :=
  let de := dimension_deserialize in
  let? d1 := de (dim_package t) in let? d2 := de (dim_main_runtime t) in let? d3 := de (dim_renderer t) in
  let? d4 := de (dim_preload t) in let? d5 := de (dim_electron_api t) in let? d6 := de (dim_node_api t) in
  let? d7 := de (dim_native_modules t) in let? d8 := de (dim_helpers t) in let? d9 := de (dim_state t) in
  let? d10 := de (dim_security t) in
  Ok (mkDimensions d1 d2 d3 d4 d5 d6 d7 d8 d9 d10).

Fixpoint visit_workflow_assessments (entries : list (FeatureId * DimensionTransport))
    (values : gmap FeatureId DimensionAssessment) : result (gmap FeatureId DimensionAssessment) JsonError :=
  match entries with
  | [] => Ok values
  | (feature, t) :: entries =>
    do? reject (negb (map_len values <? MAX_COMPATIBILITY_WORKFLOWS)) json_custom in
    do? reject (bool_decide (is_Some (values !! feature))) json_custom in
    let? assessment := dimension_deserialize t in
    visit_workflow_assessments entries (<[feature := assessment]> values)
  end.
Definition deserialize_workflow_assessments (hint : option Z) (entries : list (FeatureId * DimensionTransport)) :
    result (gmap FeatureId DimensionAssessment) JsonError :=
  do? reject (announces_more hint MAX_COMPATIBILITY_WORKFLOWS) json_custom in
  visit_workflow_assessments entries ∅.

Definition analysis_deserialize (t : AnalysisTransport) : result CompatibilityAnalysis JsonError :=
  let? dimensions := dimensions_deserialize (transport_dimensions t) in
  let? workflows := deserialize_workflow_assessments (transport_analysis_hint t) (transport_analysis_workflows t) in
  map_err (λ _, json_custom)
    (analysis_new (transport_source_build t) (transport_analysis_target t) dimensions workflows).
End Deserialize.

(** ** What an assessment promises *)

(** At most sixty-four references, and a resolved status has some. *)
Definition dimension_ok (a : DimensionAssessment) : Prop :=
  Z.of_nat (size (dimension_evidence a)) <= MAX_COMPATIBILITY_EVIDENCE_REFS ∧
  (dimension_status a ≠ Dimension_Unknown → dimension_evidence a ≠ ∅).

Lemma collect_compatibility_refs_exact evidence values :
  len values <= MAX_COMPATIBILITY_EVIDENCE_REFS →
  collect_compatibility_refs evidence values =
    if MAX_COMPATIBILITY_EVIDENCE_REFS <? len values + len evidence then Err Compat_TooManyEvidenceReferences
    else Ok (values ++ evidence).
Proof.
  revert values. induction evidence as [|r evidence IH]; intros values Hle; cbn [collect_compatibility_refs].
  - rewrite len_nil, Z.add_0_r, app_nil_r. by destruct (Z.ltb_spec MAX_COMPATIBILITY_EVIDENCE_REFS (len values)); [lia|].
  - pose proof (len_nonneg evidence). rewrite len_cons.
    destruct (Z.eqb_spec (len values) MAX_COMPATIBILITY_EVIDENCE_REFS) as [He|Hne]; cbn [reject result_bind].
    + by destruct (Z.ltb_spec MAX_COMPATIBILITY_EVIDENCE_REFS (len values + (1 + len evidence))); [|lia].
    + rewrite IH by (rewrite len_app, len_cons, len_nil; lia). rewrite len_app, len_cons, len_nil, <-app_assoc.
      by replace (len values + (1 + 0) + len evidence) with (len values + (1 + len evidence)) by lia.
Qed.

(** An assessment is built exactly from at most sixty-four references without
    repetition, of which a resolved status needs one. *)
Lemma dimension_assessment_new_Ok status evidence a :
  dimension_assessment_new status evidence = Ok a ↔
    len evidence <= MAX_COMPATIBILITY_EVIDENCE_REFS ∧ NoDup evidence ∧
    (status ≠ Dimension_Unknown → evidence ≠ []) ∧ a = mkDimensionAssessment status (list_to_set evidence).
Proof.
  unfold dimension_assessment_new. rewrite collect_compatibility_refs_exact by done. rewrite len_nil, Z.add_0_l. cbn [app].
  destruct (Z.ltb_spec MAX_COMPATIBILITY_EVIDENCE_REFS (len evidence)) as [Hlt|Hle]; cbn [result_bind].
  { split; [done|]. intros [H _]. lia. }
  destruct (Z.eqb_spec (Z.of_nat (size (list_to_set evidence : gset CompatibilityEvidenceRef))) (len evidence)) as [He|Hne];
    cbn [negb reject result_bind].
  2: { split; [done|]. intros (_ & H & _). by apply size_list_to_set_NoDup in H. }
  apply size_list_to_set_NoDup in He.
  rewrite (bool_decide_ext _ _ (list_to_set_empty_iff evidence)).
  destruct (bool_decide (status ≠ Dimension_Unknown) && bool_decide (evidence = [])) eqn:Hb; cbn [reject result_bind].
  - apply andb_true_iff in Hb as [H1%bool_decide_eq_true H2%bool_decide_eq_true]. split; [done|].
    intros (_ & _ & H & _). by destruct (H H1).
  - split; [intros [= <-]; split_and!; try done|by intros (_ & _ & _ & ->)].
    intros H1 H2. rewrite !bool_decide_eq_true_2 in Hb by done. done.
Qed.

Lemma dimension_assessment_new_ok status evidence a : dimension_assessment_new status evidence = Ok a → dimension_ok a.
Proof.
  intros (Hlen & Hnd & Hs & ->)%dimension_assessment_new_Ok. split; cbn [dimension_evidence dimension_status].
  - apply size_list_to_set_NoDup in Hnd. lia.
  - by rewrite list_to_set_empty_iff.
Qed.

Definition analysis_ok (self : CompatibilityAnalysis) : Prop :=
  map_len (analysis_workflows self) <= MAX_COMPATIBILITY_WORKFLOWS ∧
  Forall dimension_ok (dimension_assessments (analysis_dimensions self)) ∧
  map_Forall (λ _, dimension_ok) (analysis_workflows self).

Section Readers.
Context {JsonError : Type} (custom : JsonError).

Lemma dimension_deserialize_ok t a : dimension_deserialize custom t = Ok a → dimension_ok a.
Proof. unfold dimension_deserialize. intros H. inv_ok. by eapply dimension_assessment_new_ok. Qed.

Lemma visit_workflow_assessments_ok entries values m :
  map_Forall (λ _, dimension_ok) values →
  visit_workflow_assessments custom entries values = Ok m → map_Forall (λ _, dimension_ok) m.
Proof.
  revert values. induction entries as [|[feature t] entries IH]; intros values Hv; cbn [visit_workflow_assessments].
  - by intros [= <-].
  - intros H. inv_ok. eapply IH; [|done]. apply map_Forall_insert_2; [by eapply dimension_deserialize_ok|done].
Qed.

Lemma dimensions_deserialize_ok t d : dimensions_deserialize custom t = Ok d → Forall dimension_ok (dimension_assessments d).
Proof.
  unfold dimensions_deserialize. intros H. inv_ok. unfold dimension_assessments. cbn.
  repeat (constructor; [by eapply dimension_deserialize_ok|]). constructor.
Qed.

Lemma analysis_deserialize_ok t a : analysis_deserialize custom t = Ok a → analysis_ok a.
Proof.
  unfold analysis_deserialize, deserialize_workflow_assessments, analysis_new. intros H. inv_ok.
  split_and!; cbn [analysis_workflows analysis_dimensions]; [lia|by eapply dimensions_deserialize_ok|].
  eapply visit_workflow_assessments_ok; [|done]. apply map_Forall_empty.
Qed.
End Readers.

(** ** Dispositions fail closed *)

Lemma aggregate_from_spec statuses incomplete :
  aggregate_from statuses incomplete =
    if bool_decide (Dimension_Unsatisfied ∈ statuses) then Analysis_Blocked
    else if incomplete || bool_decide (Dimension_Unknown ∈ statuses) then Analysis_Incomplete
    else Analysis_Complete.
Proof.
  revert incomplete. induction statuses as [|s statuses IH]; intros incomplete; cbn [aggregate_from].
  - rewrite bool_decide_eq_false_2 by apply not_elem_of_nil. rewrite bool_decide_eq_false_2 by apply not_elem_of_nil.
    by rewrite orb_false_r.
  - destruct s; rewrite ?IH; repeat case_bool_decide; rewrite ?orb_true_r; try set_solver; try done.
Qed.

Lemma analysis_disposition_spec self :
  (analysis_disposition self = Analysis_Blocked ↔ Dimension_Unsatisfied ∈ analysis_statuses self) ∧
  (analysis_disposition self = Analysis_Complete ↔
     (Dimension_Unsatisfied ∉ analysis_statuses self) ∧ (Dimension_Unknown ∉ analysis_statuses self)).
Proof.
  unfold analysis_disposition, aggregate_statuses. rewrite aggregate_from_spec. cbn [orb].
  repeat case_bool_decide; naive_solver.
Qed.

Lemma elem_of_analysis_statuses self s :
  s ∈ analysis_statuses self ↔
    (∃ a, a ∈ dimension_assessments (analysis_dimensions self) ∧ dimension_status a = s) ∨
    (∃ f a, analysis_workflows self !! f = Some a ∧ dimension_status a = s).
Proof.
  unfold analysis_statuses. rewrite list_elem_of_fmap. setoid_rewrite elem_of_app. split.
  - intros (a & -> & [Ha|([f a'] & -> & Hf%elem_of_btree_iter)%list_elem_of_fmap]); [left; by exists a|].
    right. by exists f, a'.
  - intros [(a & Ha & <-)|(f & a & Hf & <-)]; exists a; (split; [done|]); [by left|right].
    apply list_elem_of_fmap. exists (f, a). by rewrite elem_of_btree_iter.
Qed.

(** an analysis that was read is complete exactly when each of its ten fixed
    dimensions and each of its workflows is satisfied or not applicable, and then
    every one of them rests on at least one and at most sixty-four references; it is
    blocked exactly when one of them is unsatisfied, whatever else is unknown. *)
Theorem complete_analysis_evidenced {JsonError} (custom : JsonError) t self :
  analysis_deserialize custom t = Ok self →
  let resolved a := (dimension_status a = Dimension_Satisfied ∨ dimension_status a = Dimension_NotApplicable) ∧
    1 <= Z.of_nat (size (dimension_evidence a)) <= MAX_COMPATIBILITY_EVIDENCE_REFS in
  (analysis_disposition self = Analysis_Complete ↔
     (∀ a, a ∈ dimension_assessments (analysis_dimensions self) → resolved a) ∧
     (∀ f a, analysis_workflows self !! f = Some a → resolved a)) ∧
  (analysis_disposition self = Analysis_Blocked ↔
     (∃ a, a ∈ dimension_assessments (analysis_dimensions self) ∧ dimension_status a = Dimension_Unsatisfied) ∨
     (∃ f a, analysis_workflows self !! f = Some a ∧ dimension_status a = Dimension_Unsatisfied)).
Proof.
  intros (_ & Hd & Hw)%analysis_deserialize_ok. cbv zeta. destruct (analysis_disposition_spec self) as [Hb Hc].
  split; [|by rewrite Hb, elem_of_analysis_statuses].
  assert (Hres : ∀ a, dimension_ok a → dimension_status a ≠ Dimension_Unsatisfied → dimension_status a ≠ Dimension_Unknown →
    (dimension_status a = Dimension_Satisfied ∨ dimension_status a = Dimension_NotApplicable) ∧
    1 <= Z.of_nat (size (dimension_evidence a)) <= MAX_COMPATIBILITY_EVIDENCE_REFS).
  { intros a [Hle Hne] H1 H2. split; [destruct (dimension_status a); try done; [by left|by right]|split; [|done]].
    specialize (Hne H2). destruct (size (dimension_evidence a)) eqn:E; [|lia]. by apply size_empty_inv, leibniz_equiv in E. }
  rewrite Hc, !elem_of_analysis_statuses. split.
  - intros [H1 H2]. split.
    + intros a Ha. apply Hres; [by eapply Forall_forall in Ha|..]; intros Hs; [apply H1|apply H2]; left; by exists a.
    + intros f a Ha. apply Hres; [by apply Hw in Ha|..]; intros Hs; [apply H1|apply H2]; right; by exists f, a.
  - intros [H1 H2]. split; intros [(a & Ha & Hs)|(f & a & Ha & Hs)];
      [destruct (H1 _ Ha) as [[?|?] _]|destruct (H2 _ _ Ha) as [[?|?] _]|destruct (H1 _ Ha) as [[?|?] _]|destruct (H2 _ _ Ha) as [[?|?] _]];
      congruence.
Qed.

(** An analysis of ten satisfied dimensions and one workflow. *)
Definition sample_dimension : DimensionTransport :=
  mkDimensionTransport Dimension_Satisfied (Some 1) [mkCompatibilityRef Compat_StaticAnalysis (replicate 32 (byte_of 7))].
Definition sample_dimensions : dimensions DimensionTransport :=
  let d := sample_dimension in mkDimensions d d d d d d d d d d.
Definition sample_analysis_transport : AnalysisTransport :=
  mkAnalysisTransport (replicate 32 (byte_of 1))
    (let d := replicate 32 (byte_of 2) in compatibility_target_windows_x64 d d d (replicate 32 (byte_of 3)))
    sample_dimensions (Some 1) [(lit "chat", sample_dimension)].
Lemma sample_analysis_ok : is_ok (analysis_deserialize tt sample_analysis_transport) = true.
Proof. by vm_compute. Qed.
Definition sample_analysis : CompatibilityAnalysis := from_ok _ sample_analysis_ok.

Lemma complete_analysis_evidenced_witness :
  analysis_deserialize tt sample_analysis_transport = Ok sample_analysis ∧
  ∀ f a, analysis_workflows sample_analysis !! f = Some a → 1 <= Z.of_nat (size (dimension_evidence a)).
Proof.
  split; [apply from_ok_eq|]. intros f a Ha.
  apply (proj2 (proj1 (proj1 (complete_analysis_evidenced tt _ _ (from_ok_eq _ sample_analysis_ok)))
    ltac:(by vm_compute)) f a Ha).
Defined.
