(* ===== verification/ControlPlane.v ===== *)
(** * ControlPlane: descriptors, run attestations and ledger records

    Models [crates/weregopher-domain/src/certification_control_plane.rs]: bounded
    runner-component text and descriptors, the freshness, runner and result
    identities of one local certification run, the combined control policy, and
    the hash-chained records of the local certification ledger.

    A struct named [Unchecked...] in the code has the fields of the struct it is
    checked into; here both are the same record and the check is a function on it.
    A digest of any role is its 32 bytes, a [Uuid] its number. *)

From S2P Require Import Prelude Text Wire Evidence.

Definition MAX_CERTIFICATION_RUNNER_COMPONENT_DESCRIPTOR_BYTES : Z := 256 * 1024.
Definition MAX_CERTIFICATION_RUNNER_COMPONENT_ARTIFACTS : Z := 64.
Definition MAX_CERTIFICATION_RUNNER_COMPONENT_TEXT_BYTES : Z := 256.
Definition MAX_CERTIFICATION_RUNNER_COMPONENT_ARTIFACT_NAME_BYTES : Z := 16 * 1024.
Definition MAX_CERTIFICATION_RUNNER_COMPONENT_ARTIFACT_BYTES : Z := 512 * 1024 * 1024.
Definition MAX_LOCAL_CERTIFICATION_RUN_ATTESTATION_BYTES : Z := 128 * 1024.
Definition MAX_LOCAL_CERTIFICATION_RUN_FRESHNESS_MILLIS : Z := 10 * 60 * 1000.
Definition MAX_LOCAL_CERTIFICATION_LEDGER_RECORD_BYTES : Z := 256 * 1024.
Definition MAX_LOCAL_CERTIFICATION_LEDGER_RECORDS : Z := 4096.
Definition MAX_LOCAL_CERTIFICATION_LEDGER_BYTES : Z := 256 * 1024 * 1024.

Definition Uuid : Type := Z.

(** ** Bounded reading *)

(** A reader: the bytes it delivers, and how it ends. *)
Record Reader (IoError : Type) : Type := mkReader {
  reader_bytes : bytes;
  reader_end : option IoError
}.
Arguments mkReader {_}. Arguments reader_bytes {_}. Arguments reader_end {_}.

Inductive BoundedDocumentReadError (IoError : Type) : Type :=
| Bounded_DocumentTooLarge
| Bounded_BufferAllocationFailed
| Bounded_Read (source : IoError).
Arguments Bounded_DocumentTooLarge {_}. Arguments Bounded_BufferAllocationFailed {_}. Arguments Bounded_Read {_}.

(** [Read::take(limit)] then [read_to_end]: the end of the reader is reached only
    below the limit. *)
Definition take_to_end {IoError} (limit : Z) (reader : Reader IoError) : result bytes IoError :=
  if limit <=? len (reader_bytes reader) then Ok (take (Z.to_nat limit) (reader_bytes reader))
  else match reader_end reader with Some e => Err e | None => Ok (reader_bytes reader) end.

Definition read_bounded `{Alloc : Allocator} {IoError} (reader : Reader IoError) (maximum_bytes : Z) :
    result bytes (BoundedDocumentReadError IoError) :=
  let? read_limit := ok_or (checked_add u64_max maximum_bytes 1) Bounded_DocumentTooLarge in
  do? reject (negb (Alloc (Z.min maximum_bytes (8 * 1024)))) Bounded_BufferAllocationFailed in
  let? bs := map_err Bounded_Read (take_to_end read_limit reader) in
  do? reject (maximum_bytes <? len bs) Bounded_DocumentTooLarge in
  Ok bs.

(** ** Component text *)

Inductive CertificationRunnerComponentRole : Type :=
| Role_RunnerImage | Role_HostImage | Role_HostPatchSet | Role_ElectronRuntime | Role_LanguageRuntimeSet
| Role_ToolchainSet | Role_HostAgent | Role_Verifier | Role_ProbeAssetSet | Role_SourceRevision
| Role_ExceptionProvenance.

Inductive CertificationRunnerComponentTextError : Type :=
| Text_Empty (kind : str)
| Text_TooLong (kind : str)
| Text_NonCanonical (kind : str)
| Text_UnsafeCharacter (kind : str).

Definition validate_component_text (value kind : str) : result unit CertificationRunnerComponentTextError :=
  do? reject (bool_decide (value = [])) (Text_Empty kind) in
  do? reject (MAX_CERTIFICATION_RUNNER_COMPONENT_TEXT_BYTES <? len value) (Text_TooLong kind) in
  do? reject (starts_with_byte (chr "/") value || ends_with_byte (chr "/") value || contains_byte (chr "\") value)
    (Text_NonCanonical kind) in
  do? reject (existsb (λ component, bool_decide (component = []) || bool_decide (component = lit ".") ||
                                    bool_decide (component = lit "..") ||
                                    ends_with_byte (chr ".") component || ends_with_byte (chr " ") component)
                (split (chr "/") value)) (Text_NonCanonical kind) in
  do? reject (has_control value) (Text_UnsafeCharacter kind) in
  Ok tt.

(** The bounded text types wrap the text; [bounded_text_new] is their [new]. *)
Definition bounded_text_new (kind value : str) : result str CertificationRunnerComponentTextError :=
  do? validate_component_text value kind in Ok value.
Definition CertificationRunnerComponentId : Type := str.
Definition CertificationRunnerComponentVersion : Type := str.
Definition CertificationRunnerArtifactName : Type := str.

(** ** Descriptors *)

Inductive CertificationRunnerComponentDescriptorError : Type :=
| Descriptor_InvalidText (source : CertificationRunnerComponentTextError)
| Descriptor_MissingArtifacts
| Descriptor_TooManyArtifacts
| Descriptor_DuplicateArtifactName
| Descriptor_InvalidArtifactSize
| Descriptor_ArtifactNameBytesExceeded.

Record CertificationRunnerComponentArtifact : Type := mkComponentArtifact {
  artifact_name : CertificationRunnerArtifactName;
  component_artifact_digest : Sha256Digest;
  artifact_size_bytes : Z
}.
#[global] Instance CertificationRunnerComponentArtifact_eq_dec : EqDecision CertificationRunnerComponentArtifact.
Proof. solve_decision. Defined.
#[global] Instance CertificationRunnerComponentArtifact_countable : Countable CertificationRunnerComponentArtifact.
Proof.
  refine (inj_countable' (λ a, (artifact_name a, component_artifact_digest a, artifact_size_bytes a))
            (λ x, mkComponentArtifact x.1.1 x.1.2 x.2) _). by intros [].
Defined.

Definition component_artifact_new (name : CertificationRunnerArtifactName) (digest : Sha256Digest) (size_bytes : Z) :
    result CertificationRunnerComponentArtifact CertificationRunnerComponentDescriptorError :=
  do? reject ((size_bytes =? 0) || (MAX_CERTIFICATION_RUNNER_COMPONENT_ARTIFACT_BYTES <? size_bytes))
    Descriptor_InvalidArtifactSize in
  Ok (mkComponentArtifact name digest size_bytes).

(** The derived [Ord]: by name, digest and size. *)
Definition component_artifact_le (a b : CertificationRunnerComponentArtifact) : bool :=
  str_lt (artifact_name a) (artifact_name b) ||
  (bool_decide (artifact_name a = artifact_name b) &&
   (str_lt (component_artifact_digest a) (component_artifact_digest b) ||
    (bool_decide (component_artifact_digest a = component_artifact_digest b) &&
     (artifact_size_bytes a <=? artifact_size_bytes b)))).

Definition component_artifact_iter (s : gset CertificationRunnerComponentArtifact) :
    list CertificationRunnerComponentArtifact :=
  merge_sort (λ a b, Is_true (component_artifact_le a b)) (elements s).

(** The loop of [validate_component_artifacts]. *)
Fixpoint check_component_artifacts (l : list CertificationRunnerComponentArtifact)
    (previous_name : option CertificationRunnerArtifactName) (aggregate_name_bytes : Z) :
    result unit CertificationRunnerComponentDescriptorError :=
  match l with
  | [] => Ok tt
  | artifact :: l =>
    do? map_err Descriptor_InvalidText (validate_component_text (artifact_name artifact) (lit "artifact name")) in
    do? reject ((artifact_size_bytes artifact =? 0) ||
                (MAX_CERTIFICATION_RUNNER_COMPONENT_ARTIFACT_BYTES <? artifact_size_bytes artifact))
      Descriptor_InvalidArtifactSize in
    do? reject (bool_decide (previous_name = Some (artifact_name artifact))) Descriptor_DuplicateArtifactName in
    let? aggregate := ok_or (checked_add usize_max aggregate_name_bytes (len (artifact_name artifact)))
      Descriptor_ArtifactNameBytesExceeded in
    do? reject (MAX_CERTIFICATION_RUNNER_COMPONENT_ARTIFACT_NAME_BYTES <? aggregate)
      Descriptor_ArtifactNameBytesExceeded in
    check_component_artifacts l (Some (artifact_name artifact)) aggregate
  end.

Definition validate_component_artifacts (artifacts : gset CertificationRunnerComponentArtifact) :
    result unit CertificationRunnerComponentDescriptorError :=
  do? reject (bool_decide (artifacts = ∅)) Descriptor_MissingArtifacts in
  do? reject (MAX_CERTIFICATION_RUNNER_COMPONENT_ARTIFACTS <? Z.of_nat (size artifacts)) Descriptor_TooManyArtifacts in
  check_component_artifacts (component_artifact_iter artifacts) None 0.

Record CertificationRunnerComponentDescriptor : Type := mkDescriptor {
  descriptor_role : CertificationRunnerComponentRole;
  descriptor_component_id : CertificationRunnerComponentId;
  descriptor_version : CertificationRunnerComponentVersion;
  descriptor_provenance_digest : Sha256Digest;
  descriptor_artifacts : gset CertificationRunnerComponentArtifact
}.

Definition descriptor_new (role : CertificationRunnerComponentRole) (component_id : CertificationRunnerComponentId)
    (version : CertificationRunnerComponentVersion) (provenance_digest : Sha256Digest)
    (artifacts : gset CertificationRunnerComponentArtifact) :
    result CertificationRunnerComponentDescriptor CertificationRunnerComponentDescriptorError :=
  do? map_err Descriptor_InvalidText (validate_component_text component_id (lit "component identifier")) in
  do? map_err Descriptor_InvalidText (validate_component_text version (lit "component version")) in
  do? validate_component_artifacts artifacts in
  Ok (mkDescriptor role component_id version provenance_digest artifacts).

Inductive CertificationRunnerComponentDocumentError (JsonError IoError : Type) : Type :=
| ComponentDocument_TooLarge
| ComponentDocument_BoundedRead (source : BoundedDocumentReadError IoError)
| ComponentDocument_InvalidDocument (source : JsonError)
| ComponentDocument_UnsupportedVersion
| ComponentDocument_InvalidContract (source : CertificationRunnerComponentDescriptorError).
Arguments ComponentDocument_TooLarge {_ _}. Arguments ComponentDocument_BoundedRead {_ _}.
Arguments ComponentDocument_InvalidDocument {_ _}. Arguments ComponentDocument_UnsupportedVersion {_ _}.
Arguments ComponentDocument_InvalidContract {_ _}.

(** What [serde] offers of a descriptor; its artifacts in document order. *)
Record DescriptorTransport : Type := mkDescriptorTransport {
  unchecked_role : CertificationRunnerComponentRole;
  unchecked_component_id : CertificationRunnerComponentId;
  unchecked_version : CertificationRunnerComponentVersion;
  unchecked_provenance_digest : Sha256Digest;
  unchecked_artifacts : list CertificationRunnerComponentArtifact
}.

(** The inserting loop of [from_json_slice]. *)
Fixpoint insert_artifacts (l : list CertificationRunnerComponentArtifact)
    (artifacts : gset CertificationRunnerComponentArtifact) :
    result (gset CertificationRunnerComponentArtifact) CertificationRunnerComponentDescriptorError :=
  match l with
  | [] => Ok artifacts
  | artifact :: l =>
    do? reject (existsb (λ existing, bool_decide (artifact_name existing = artifact_name artifact))
                  (component_artifact_iter artifacts)) Descriptor_DuplicateArtifactName in
    insert_artifacts l ({[artifact]} ∪ artifacts)
  end.

(** The derived readers of the parts: each bounded text and each artifact is
    checked as it is read. *)
Fixpoint deserialize_artifacts {JsonError} (json_custom : JsonError) (l : list CertificationRunnerComponentArtifact) :
    result (list CertificationRunnerComponentArtifact) JsonError :=
  match l with
  | [] => Ok []
  | a :: l =>
    do? map_err (λ _, json_custom) (bounded_text_new (lit "artifact name") (artifact_name a)) in
    let? artifact := map_err (λ _, json_custom)
      (component_artifact_new (artifact_name a) (component_artifact_digest a) (artifact_size_bytes a)) in
    let? artifacts := deserialize_artifacts json_custom l in
    Ok (artifact :: artifacts)
  end.

Definition descriptor_deserialize {JsonError} (json_custom : JsonError) (t : DescriptorTransport) :
    result DescriptorTransport JsonError :=
  do? map_err (λ _, json_custom) (bounded_text_new (lit "component identifier") (unchecked_component_id t)) in
  do? map_err (λ _, json_custom) (bounded_text_new (lit "component version") (unchecked_version t)) in
  let? artifacts := deserialize_artifacts json_custom (unchecked_artifacts t) in
  Ok (mkDescriptorTransport (unchecked_role t) (unchecked_component_id t) (unchecked_version t)
        (unchecked_provenance_digest t) artifacts).

Definition descriptor_from_json_slice {JsonError IoError} (json_custom : JsonError)
    (descriptor_from_slice : bytes → result DescriptorTransport JsonError) (bs : bytes) :
    result CertificationRunnerComponentDescriptor (CertificationRunnerComponentDocumentError JsonError IoError) :=
  do? reject (MAX_CERTIFICATION_RUNNER_COMPONENT_DESCRIPTOR_BYTES <? len bs) ComponentDocument_TooLarge in
  let? transport := map_err ComponentDocument_InvalidDocument (descriptor_from_slice bs) in
  let? unchecked := map_err ComponentDocument_InvalidDocument (descriptor_deserialize json_custom transport) in
  let? artifacts := map_err ComponentDocument_InvalidContract (insert_artifacts (unchecked_artifacts unchecked) ∅) in
  map_err ComponentDocument_InvalidContract
    (descriptor_new (unchecked_role unchecked) (unchecked_component_id unchecked) (unchecked_version unchecked)
       (unchecked_provenance_digest unchecked) artifacts).

Definition descriptor_from_json_reader `{Allocator} {JsonError IoError} (json_custom : JsonError)
    (descriptor_from_slice : bytes → result DescriptorTransport JsonError) (reader : Reader IoError) :
    result CertificationRunnerComponentDescriptor (CertificationRunnerComponentDocumentError JsonError IoError) :=
  let? bs := map_err ComponentDocument_BoundedRead
    (read_bounded reader MAX_CERTIFICATION_RUNNER_COMPONENT_DESCRIPTOR_BYTES) in
  descriptor_from_json_slice json_custom descriptor_from_slice bs.

(** ** Run attestations *)

Inductive CertificationRunAttestationError : Type :=
| Attestation_InvalidFreshnessLimit
| Attestation_FreshnessExpired
| Attestation_InvalidPolicyGeneration
| Attestation_UnassignableClass
| Attestation_MissingArtifacts
| Attestation_MissingArtifactBytes.

Record CertificationRunFreshness : Type := mkFreshness {
  challenge : Uuid;
  maximum_elapsed_millis : Z;
  elapsed_millis : Z
}.

Definition freshness_new (challenge : Uuid) (maximum_elapsed_millis elapsed_millis : Z) :
    result CertificationRunFreshness CertificationRunAttestationError :=
  do? reject ((maximum_elapsed_millis =? 0) ||
              (MAX_LOCAL_CERTIFICATION_RUN_FRESHNESS_MILLIS <? maximum_elapsed_millis))
    Attestation_InvalidFreshnessLimit in
  do? reject (maximum_elapsed_millis <? elapsed_millis) Attestation_FreshnessExpired in
  Ok (mkFreshness challenge maximum_elapsed_millis elapsed_millis).

Definition freshness_validate (self : CertificationRunFreshness) : result unit CertificationRunAttestationError :=
  do? freshness_new (challenge self) (maximum_elapsed_millis self) (elapsed_millis self) in Ok tt.

Record CertificationRunRunnerIdentity : Type := mkRunRunner {
  run_runner_identity_digest : Sha256Digest;
  run_descriptor_set_digest : Sha256Digest;
  run_policy_revision_digest : Sha256Digest;
  run_policy_generation : Z
}.

Definition run_runner_new (runner_identity_digest descriptor_set_digest policy_revision_digest : Sha256Digest)
    (policy_generation : Z) : result CertificationRunRunnerIdentity CertificationRunAttestationError :=
  do? reject (policy_generation =? 0) Attestation_InvalidPolicyGeneration in
  Ok (mkRunRunner runner_identity_digest descriptor_set_digest policy_revision_digest policy_generation).

Definition run_runner_validate (self : CertificationRunRunnerIdentity) :
    result unit CertificationRunAttestationError :=
  do? run_runner_new (run_runner_identity_digest self) (run_descriptor_set_digest self)
        (run_policy_revision_digest self) (run_policy_generation self) in Ok tt.

Record CertificationRunResultIdentity : Type := mkRunResult {
  result_semantic_report : CertificationArtifactRef;
  result_target : CertificationTarget;
  result_profile_digest : CertificationProfileDigest;
  result_evidence_digest : CertificationEvidenceDigest;
  result_artifact_set_digest : Sha256Digest;
  result_class : CertificationClass;
  result_policy_revision_digest : Sha256Digest;
  result_policy_generation : Z;
  result_artifact_count : Z;
  result_total_artifact_bytes : Z
}.

Definition unassignable (class : CertificationClass) : bool :=
  match class with Class_Blocked | Class_Provisional => true | _ => false end.

Definition run_result_new (semantic_report : CertificationArtifactRef) (target : CertificationTarget)
    (profile_digest : CertificationProfileDigest) (evidence_digest : CertificationEvidenceDigest)
    (artifact_set_digest : Sha256Digest) (class : CertificationClass) (policy_revision_digest : Sha256Digest)
    (policy_generation artifact_count total_artifact_bytes : Z) :
    result CertificationRunResultIdentity CertificationRunAttestationError :=
  do? reject (unassignable class) Attestation_UnassignableClass in
  do? reject (policy_generation =? 0) Attestation_InvalidPolicyGeneration in
  do? reject (artifact_count =? 0) Attestation_MissingArtifacts in
  do? reject (total_artifact_bytes =? 0) Attestation_MissingArtifactBytes in
  Ok (mkRunResult semantic_report target profile_digest evidence_digest artifact_set_digest class
        policy_revision_digest policy_generation artifact_count total_artifact_bytes).

Definition run_result_validate (self : CertificationRunResultIdentity) :
    result unit CertificationRunAttestationError :=
  do? run_result_new (result_semantic_report self) (result_target self) (result_profile_digest self)
        (result_evidence_digest self) (result_artifact_set_digest self) (result_class self)
        (result_policy_revision_digest self) (result_policy_generation self) (result_artifact_count self)
        (result_total_artifact_bytes self) in Ok tt.

Record LocalCertificationRunAttestation : Type := mkAttestation {
  attestation_freshness : CertificationRunFreshness;
  attestation_runner : CertificationRunRunnerIdentity;
  attestation_result : CertificationRunResultIdentity
}.

#[global] Instance CertificationRunFreshness_eq_dec : EqDecision CertificationRunFreshness.
Proof. solve_decision. Defined.
#[global] Instance CertificationRunRunnerIdentity_eq_dec : EqDecision CertificationRunRunnerIdentity.
Proof. solve_decision. Defined.
#[global] Instance CertificationRunResultIdentity_eq_dec : EqDecision CertificationRunResultIdentity.
Proof. solve_decision. Defined.
#[global] Instance LocalCertificationRunAttestation_eq_dec : EqDecision LocalCertificationRunAttestation.
Proof. solve_decision. Defined.

Definition attestation_into_checked (self : LocalCertificationRunAttestation) :
    result LocalCertificationRunAttestation CertificationRunAttestationError :=
  do? freshness_validate (attestation_freshness self) in
  do? run_runner_validate (attestation_runner self) in
  do? run_result_validate (attestation_result self) in
  Ok self.

(** ** The control policy *)

Record CertificationControlPolicy : Type := mkControlPolicy {
  control_runner : CertificationRunRunnerIdentity;
  control_semantic_report : CertificationArtifactRef;
  control_target : CertificationTarget;
  control_profile_digest : CertificationProfileDigest;
  control_evidence_digest : CertificationEvidenceDigest;
  control_artifact_set_digest : Sha256Digest;
  control_class : CertificationClass;
  control_policy_revision_digest : Sha256Digest;
  control_policy_generation : Z
}.
#[global] Instance CertificationControlPolicy_eq_dec : EqDecision CertificationControlPolicy.
Proof. solve_decision. Defined.

Definition control_policy_validate (self : CertificationControlPolicy) : result unit CertificationRunAttestationError :=
  do? run_runner_validate (control_runner self) in
  do? run_result_new (control_semantic_report self) (control_target self) (control_profile_digest self)
        (control_evidence_digest self) (control_artifact_set_digest self) (control_class self)
        (control_policy_revision_digest self) (control_policy_generation self) 1 1 in
  Ok tt.

Definition control_policy_new (runner : CertificationRunRunnerIdentity) (semantic_report : CertificationArtifactRef)
    (target : CertificationTarget) (profile_digest : CertificationProfileDigest)
    (evidence_digest : CertificationEvidenceDigest) (artifact_set_digest : Sha256Digest) (class : CertificationClass)
    (policy_revision_digest : Sha256Digest) (policy_generation : Z) :
    result CertificationControlPolicy CertificationRunAttestationError :=
  let policy := mkControlPolicy runner semantic_report target profile_digest evidence_digest artifact_set_digest
                  class policy_revision_digest policy_generation in
  do? control_policy_validate policy in Ok policy.

Definition accepts_attestation (self : CertificationControlPolicy) (attestation : LocalCertificationRunAttestation) : bool :=
  let result := attestation_result attestation in
  bool_decide (control_runner self = attestation_runner attestation) &&
  bool_decide (control_semantic_report self = result_semantic_report result) &&
  bool_decide (control_target self = result_target result) &&
  bool_decide (control_profile_digest self = result_profile_digest result) &&
  bool_decide (control_evidence_digest self = result_evidence_digest result) &&
  bool_decide (control_artifact_set_digest self = result_artifact_set_digest result) &&
  bool_decide (control_class self = result_class result) &&
  bool_decide (control_policy_revision_digest self = result_policy_revision_digest result) &&
  (control_policy_generation self =? result_policy_generation result).

(** ** Ledger events and records *)

Record LocalCertificationLedgerReceipt : Type := mkLedgerReceipt {
  receipt_attestation_digest : Sha256Digest;
  receipt_publication_status : PublicationStatus
}.

Record LocalCertificationLedgerGenesis : Type := mkGenesis {
  genesis_policy : CertificationControlPolicy;
  genesis_attestation : LocalCertificationRunAttestation;
  genesis_receipt : LocalCertificationLedgerReceipt
}.

Record LocalCertificationLedgerPublication : Type := mkLedgerPublication {
  publication_attestation : LocalCertificationRunAttestation;
  publication_receipt : LocalCertificationLedgerReceipt
}.

Inductive LocalCertificationLedgerEvent : Type :=
| Event_Genesis (genesis : LocalCertificationLedgerGenesis)
| Event_Publication (publication : LocalCertificationLedgerPublication)
| Event_PolicyReplacement (policy : CertificationControlPolicy)
| Event_CertificationRevocation (evidence_digest : Sha256Digest)
| Event_RunnerRevocation (evidence_digest : Sha256Digest).

Record LocalCertificationLedgerRecord : Type := mkRecord {
  record_sequence : Z;
  record_previous_digest : option Sha256Digest;
  record_event : LocalCertificationLedgerEvent
}.

#[global] Instance LocalCertificationLedgerReceipt_eq_dec : EqDecision LocalCertificationLedgerReceipt.
Proof. solve_decision. Defined.
#[global] Instance LocalCertificationLedgerGenesis_eq_dec : EqDecision LocalCertificationLedgerGenesis.
Proof. solve_decision. Defined.
#[global] Instance LocalCertificationLedgerPublication_eq_dec : EqDecision LocalCertificationLedgerPublication.
Proof. solve_decision. Defined.
#[global] Instance LocalCertificationLedgerEvent_eq_dec : EqDecision LocalCertificationLedgerEvent.
Proof. solve_decision. Defined.
#[global] Instance LocalCertificationLedgerRecord_eq_dec : EqDecision LocalCertificationLedgerRecord.
Proof. solve_decision. Defined.

(** The readings and canonical encodings of [serde_json], its errors, and the
    error it makes of a message. *)
Class ControlJson : Type := {
  JsonError : Type;
  json_custom : JsonError;
  attestation_from_slice : bytes → result LocalCertificationRunAttestation JsonError;
  attestation_to_vec : LocalCertificationRunAttestation → result bytes JsonError;
  record_from_slice : bytes → result LocalCertificationLedgerRecord JsonError;
  record_to_vec : LocalCertificationLedgerRecord → result bytes JsonError
}.

Inductive LocalCertificationLedgerContractError (E : Type) : Type :=
| Ledger_InvalidAttestation (source : CertificationRunAttestationError)
| Ledger_PolicyMismatch
| Ledger_ReceiptMismatch
| Ledger_InvalidPublicationStatus
| Ledger_CanonicalDocumentUnavailable (source : E)
| Ledger_InvalidSequence
| Ledger_InvalidGenesis
| Ledger_UnexpectedGenesis
| Ledger_MissingPreviousLink
| Ledger_SequenceExhausted.
Arguments Ledger_InvalidAttestation {_}. Arguments Ledger_PolicyMismatch {_}. Arguments Ledger_ReceiptMismatch {_}.
Arguments Ledger_InvalidPublicationStatus {_}. Arguments Ledger_CanonicalDocumentUnavailable {_}.
Arguments Ledger_InvalidSequence {_}. Arguments Ledger_InvalidGenesis {_}. Arguments Ledger_UnexpectedGenesis {_}.
Arguments Ledger_MissingPreviousLink {_}. Arguments Ledger_SequenceExhausted {_}.

Inductive CertificationRunAttestationDocumentError (E IoError : Type) : Type :=
| AttestationDocument_TooLarge
| AttestationDocument_BoundedRead (source : BoundedDocumentReadError IoError)
| AttestationDocument_InvalidDocument (source : E)
| AttestationDocument_InvalidContract (source : CertificationRunAttestationError).
Arguments AttestationDocument_TooLarge {_ _}. Arguments AttestationDocument_BoundedRead {_ _}.
Arguments AttestationDocument_InvalidDocument {_ _}. Arguments AttestationDocument_InvalidContract {_ _}.

Inductive LocalCertificationLedgerDocumentError (E IoError : Type) : Type :=
| LedgerDocument_TooLarge
| LedgerDocument_BoundedRead (source : BoundedDocumentReadError IoError)
| LedgerDocument_InvalidDocument (source : E)
| LedgerDocument_InvalidContract (source : LocalCertificationLedgerContractError E).
Arguments LedgerDocument_TooLarge {_ _}. Arguments LedgerDocument_BoundedRead {_ _}.
Arguments LedgerDocument_InvalidDocument {_ _}. Arguments LedgerDocument_InvalidContract {_ _}.

Section Ledger.
Context `{CJ : ControlJson} `{HS : Sha256}.
Abbreviation ContractError := (LocalCertificationLedgerContractError JsonError).

(** The [Deserialize] instances: a validated struct is validated as it is read. *)
Definition freshness_deserialize (u : CertificationRunFreshness) : result CertificationRunFreshness JsonError :=
  map_err (λ _, json_custom) (freshness_new (challenge u) (maximum_elapsed_millis u) (elapsed_millis u)).
Definition run_runner_deserialize (u : CertificationRunRunnerIdentity) :
    result CertificationRunRunnerIdentity JsonError :=
  map_err (λ _, json_custom)
    (run_runner_new (run_runner_identity_digest u) (run_descriptor_set_digest u) (run_policy_revision_digest u)
       (run_policy_generation u)).
Definition run_result_deserialize (u : CertificationRunResultIdentity) :
    result CertificationRunResultIdentity JsonError :=
  map_err (λ _, json_custom)
    (run_result_new (result_semantic_report u) (result_target u) (result_profile_digest u) (result_evidence_digest u)
       (result_artifact_set_digest u) (result_class u) (result_policy_revision_digest u) (result_policy_generation u)
       (result_artifact_count u) (result_total_artifact_bytes u)).
Definition unchecked_attestation_deserialize (u : LocalCertificationRunAttestation) :
    result LocalCertificationRunAttestation JsonError :=
  let? freshness := freshness_deserialize (attestation_freshness u) in
  let? runner := run_runner_deserialize (attestation_runner u) in
  let? result := run_result_deserialize (attestation_result u) in
  Ok (mkAttestation freshness runner result).
Definition control_policy_deserialize (u : CertificationControlPolicy) :
    result CertificationControlPolicy JsonError :=
  let? runner := run_runner_deserialize (control_runner u) in
  map_err (λ _, json_custom)
    (control_policy_new runner (control_semantic_report u) (control_target u) (control_profile_digest u)
       (control_evidence_digest u) (control_artifact_set_digest u) (control_class u)
       (control_policy_revision_digest u) (control_policy_generation u)).
Definition receipt_deserialize (u : LocalCertificationLedgerReceipt) :
    result LocalCertificationLedgerReceipt JsonError :=
  do? reject (bool_decide (receipt_publication_status u ≠ Publication_LocalOnly)) json_custom in Ok u.

Definition unchecked_event_deserialize (u : LocalCertificationLedgerEvent) :
    result LocalCertificationLedgerEvent JsonError :=
  match u with
  | Event_Genesis g =>
    let? policy := control_policy_deserialize (genesis_policy g) in
    let? attestation := unchecked_attestation_deserialize (genesis_attestation g) in
    let? receipt := receipt_deserialize (genesis_receipt g) in
    Ok (Event_Genesis (mkGenesis policy attestation receipt))
  | Event_Publication p =>
    let? attestation := unchecked_attestation_deserialize (publication_attestation p) in
    let? receipt := receipt_deserialize (publication_receipt p) in
    Ok (Event_Publication (mkLedgerPublication attestation receipt))
  | Event_PolicyReplacement policy =>
    let? policy := control_policy_deserialize policy in Ok (Event_PolicyReplacement policy)
  | Event_CertificationRevocation _ | Event_RunnerRevocation _ => Ok u
  end.

Definition attestation_from_json_slice {IoError} (bs : bytes) :
    result LocalCertificationRunAttestation (CertificationRunAttestationDocumentError JsonError IoError) :=
  do? reject (MAX_LOCAL_CERTIFICATION_RUN_ATTESTATION_BYTES <? len bs) AttestationDocument_TooLarge in
  let? raw := map_err AttestationDocument_InvalidDocument (attestation_from_slice bs) in
  let? unchecked := map_err AttestationDocument_InvalidDocument (unchecked_attestation_deserialize raw) in
  map_err AttestationDocument_InvalidContract (attestation_into_checked unchecked).

Definition attestation_from_json_reader `{Allocator} {IoError} (reader : Reader IoError) :
    result LocalCertificationRunAttestation (CertificationRunAttestationDocumentError JsonError IoError) :=
  let? bs := map_err AttestationDocument_BoundedRead
    (read_bounded reader MAX_LOCAL_CERTIFICATION_RUN_ATTESTATION_BYTES) in
  attestation_from_json_slice bs.

Definition attestation_canonical_document_digest (self : LocalCertificationRunAttestation) :
    result Sha256Digest JsonError :=
  let? bs := attestation_to_vec self in Ok (sha256 bs).

Definition receipt_from_attestation (attestation : LocalCertificationRunAttestation) :
    result LocalCertificationLedgerReceipt ContractError :=
  let? digest := map_err Ledger_CanonicalDocumentUnavailable (attestation_canonical_document_digest attestation) in
  Ok (mkLedgerReceipt digest Publication_LocalOnly).

Definition validate_receipt (attestation : LocalCertificationRunAttestation)
    (receipt : LocalCertificationLedgerReceipt) : result unit ContractError :=
  do? reject (bool_decide (receipt_publication_status receipt ≠ Publication_LocalOnly))
    Ledger_InvalidPublicationStatus in
  let? expected := map_err Ledger_CanonicalDocumentUnavailable (attestation_canonical_document_digest attestation) in
  do? reject (bool_decide (receipt_attestation_digest receipt ≠ expected)) Ledger_ReceiptMismatch in
  Ok tt.

Definition genesis_new (policy : CertificationControlPolicy) (attestation : LocalCertificationRunAttestation) :
    result LocalCertificationLedgerGenesis ContractError :=
  do? reject (negb (accepts_attestation policy attestation)) Ledger_PolicyMismatch in
  let? receipt := receipt_from_attestation attestation in
  Ok (mkGenesis policy attestation receipt).

Definition genesis_validate (self : LocalCertificationLedgerGenesis) : result unit ContractError :=
  do? reject (negb (accepts_attestation (genesis_policy self) (genesis_attestation self))) Ledger_PolicyMismatch in
  validate_receipt (genesis_attestation self) (genesis_receipt self).

Definition ledger_publication_new (attestation : LocalCertificationRunAttestation) :
    result LocalCertificationLedgerPublication ContractError :=
  let? receipt := receipt_from_attestation attestation in
  Ok (mkLedgerPublication attestation receipt).

Definition event_publication (attestation : LocalCertificationRunAttestation) :
    result LocalCertificationLedgerEvent ContractError :=
  let? publication := ledger_publication_new attestation in Ok (Event_Publication publication).

Definition event_validate (self : LocalCertificationLedgerEvent) : result unit ContractError :=
  match self with
  | Event_Genesis genesis => genesis_validate genesis
  | Event_Publication publication =>
    validate_receipt (publication_attestation publication) (publication_receipt publication)
  | Event_PolicyReplacement policy => map_err Ledger_InvalidAttestation (control_policy_validate policy)
  | Event_CertificationRevocation _ | Event_RunnerRevocation _ => Ok tt
  end.

Definition event_into_checked (self : LocalCertificationLedgerEvent) :
    result LocalCertificationLedgerEvent ContractError :=
  match self with
  | Event_Genesis unchecked =>
    let? attestation := map_err Ledger_InvalidAttestation (attestation_into_checked (genesis_attestation unchecked)) in
    let genesis := mkGenesis (genesis_policy unchecked) attestation (genesis_receipt unchecked) in
    do? genesis_validate genesis in
    Ok (Event_Genesis genesis)
  | Event_Publication unchecked =>
    let? attestation := map_err Ledger_InvalidAttestation
      (attestation_into_checked (publication_attestation unchecked)) in
    let publication := mkLedgerPublication attestation (publication_receipt unchecked) in
    do? validate_receipt attestation (publication_receipt unchecked) in
    Ok (Event_Publication publication)
  | Event_PolicyReplacement _ | Event_CertificationRevocation _ | Event_RunnerRevocation _ => Ok self
  end.

Definition record_canonical_document_digest (self : LocalCertificationLedgerRecord) : result Sha256Digest JsonError :=
  let? bs := record_to_vec self in Ok (sha256 bs).

Definition is_genesis (event : LocalCertificationLedgerEvent) : bool :=
  match event with Event_Genesis _ => true | _ => false end.

Definition record_genesis (genesis : LocalCertificationLedgerGenesis) :
    result LocalCertificationLedgerRecord ContractError :=
  do? genesis_validate genesis in
  Ok (mkRecord 1 None (Event_Genesis genesis)).

Definition record_next (previous : LocalCertificationLedgerRecord) (event : LocalCertificationLedgerEvent) :
    result LocalCertificationLedgerRecord ContractError :=
  do? reject (is_genesis event) Ledger_UnexpectedGenesis in
  do? event_validate event in
  let? sequence := ok_or (checked_add u64_max (record_sequence previous) 1) Ledger_SequenceExhausted in
  let? digest := map_err Ledger_CanonicalDocumentUnavailable (record_canonical_document_digest previous) in
  Ok (mkRecord sequence (Some digest) event).

Definition record_validate_shape (self : LocalCertificationLedgerRecord) : result unit ContractError :=
  do? reject (record_sequence self =? 0) Ledger_InvalidSequence in
  do? (if record_sequence self =? 1 then
         reject (negb (bool_decide (record_previous_digest self = None) && is_genesis (record_event self)))
           Ledger_InvalidGenesis
       else match record_previous_digest self with
            | Some _ => reject (is_genesis (record_event self)) Ledger_UnexpectedGenesis
            | None => Err Ledger_MissingPreviousLink
            end) in
  event_validate (record_event self).

Definition record_from_json_slice {IoError} (bs : bytes) :
    result LocalCertificationLedgerRecord (LocalCertificationLedgerDocumentError JsonError IoError) :=
  do? reject (MAX_LOCAL_CERTIFICATION_LEDGER_RECORD_BYTES <? len bs) LedgerDocument_TooLarge in
  let? raw := map_err LedgerDocument_InvalidDocument (record_from_slice bs) in
  let? unchecked := map_err LedgerDocument_InvalidDocument (unchecked_event_deserialize (record_event raw)) in
  let? event := map_err LedgerDocument_InvalidContract (event_into_checked unchecked) in
  let record := mkRecord (record_sequence raw) (record_previous_digest raw) event in
  do? map_err LedgerDocument_InvalidContract (record_validate_shape record) in
  Ok record.

Definition record_from_json_reader `{Allocator} {IoError} (reader : Reader IoError) :
    result LocalCertificationLedgerRecord (LocalCertificationLedgerDocumentError JsonError IoError) :=
  let? bs := map_err LedgerDocument_BoundedRead
    (read_bounded reader MAX_LOCAL_CERTIFICATION_LEDGER_RECORD_BYTES) in
  record_from_json_slice bs.
End Ledger.
