(* ===== verification/Policy.v ===== *)
(** * Policy: generation-aware policy stores

    Models the mutable trust roots of
    [crates/weregopher-transform/src/certification_policy.rs] and
    [crates/weregopher-transform/src/certification_runner_policy.rs], which hold
    the same state under two policy types: the store operations, and the check
    that runs an effect only while the policy that allowed it is current.  The
    section is parametric in the policy and in its error type.

    An [Arc<RwLock<_>>] is an address in a heap of locks.  An address whose last
    owner is gone maps to [None]; as long as a [Weak] remembers it, it is not used
    again.  A lock is its content with the flag that a writer panicked. *)

From S2P Require Import Prelude Wire.

(** The five failures both policy errors have. *)
Class PolicyErrors (E : Type) : Type := {
  PolicyStorePoisoned : E;
  PolicyGenerationExhausted : E;
  PolicyStoreUnavailable : E;
  PolicyRevoked : E;
  PolicyChanged : E
}.

(** [CertificationPolicyState] and [CertificationRunnerPolicyState]. *)
Record PolicyState (P : Type) : Type := mkPolicyState {
  generation : Z;
  policy : P;
  revocation_evidence_digest : option Sha256Digest
}.
Arguments mkPolicyState {_}. Arguments generation {_}. Arguments policy {_}.
Arguments revocation_evidence_digest {_}.

Record PolicyLock (P : Type) : Type := mkPolicyLock {
  lock_poisoned : bool;
  lock_state : PolicyState P
}.
Arguments mkPolicyLock {_}. Arguments lock_poisoned {_}. Arguments lock_state {_}.

Definition Address : Type := nat.
Abbreviation PolicyHeap P := (gmap Address (option (PolicyLock P))).

(** What a decision remembers of the policy that allowed it. *)
Record PolicyDecision (P : Type) : Type := mkDecision {
  decision_policy : P;
  decision_generation : Z;
  decision_store : Address
}.
Arguments mkDecision {_}. Arguments decision_policy {_}. Arguments decision_generation {_}.
Arguments decision_store {_}.

Section Store.
Context {P E : Type} `{EqDecision P} `{PolicyErrors E}.

(** ** The stores *)

Definition policy_store_new (p : P) : PolicyLock P := mkPolicyLock false (mkPolicyState 1 p None).

(** [RwLock::write] and [RwLock::read]. *)
Definition lock_guard (l : PolicyLock P) : result (PolicyState P) E :=
  do? reject (lock_poisoned l) PolicyStorePoisoned in Ok (lock_state l).

Definition replace_policy (p : P) : mut (PolicyLock P) E unit :=
  let* l := mut_get in
  let* state := mut_lift (lock_guard l) in
  let* next := mut_lift (ok_or (checked_add u64_max (generation state) 1) PolicyGenerationExhausted) in
  mut_put (mkPolicyLock false (mkPolicyState next p None)).

Definition revoke (digest : Sha256Digest) : mut (PolicyLock P) E unit :=
  let* l := mut_get in
  let* state := mut_lift (lock_guard l) in
  let* next := mut_lift (ok_or (checked_add u64_max (generation state) 1) PolicyGenerationExhausted) in
  mut_put (mkPolicyLock false (mkPolicyState next (policy state) (Some digest))).

Definition snapshot (l : PolicyLock P) : result (PolicyState P) E := lock_guard l.

(** ** Effects under a current policy *)

(** [Weak::upgrade]. *)
Definition upgrade (heap : PolicyHeap P) (a : Address) : option (PolicyLock P) :=
  match heap !! a with Some (Some l) => Some l | _ => None end.

(** The guard is held while [commit] runs, so the store is as it was read. *)
Definition commit_if_policy_current {S T} (store : PolicyLock P) (expected_policy : P) (expected_generation : Z)
    (commit : S → T * S) : mut S E T :=
  let* state := mut_lift (lock_guard store) in
  do* mut_lift (reject (bool_decide (is_Some (revocation_evidence_digest state))) PolicyRevoked) in
  do* mut_lift (reject (negb (generation state =? expected_generation) ||
                        bool_decide (policy state ≠ expected_policy)) PolicyChanged) in
  λ s, let '(t, s') := commit s in (Ok t, s').

Definition commit_while_policy_current {S T} (heap : PolicyHeap P) (self : PolicyDecision P)
    (commit : S → T * S) : mut S E T :=
  let* store := mut_lift (ok_or (upgrade heap (decision_store self)) PolicyStoreUnavailable) in
  commit_if_policy_current store (decision_policy self) (decision_generation self) commit.

Definition verify_current_policy (heap : PolicyHeap P) (self : PolicyDecision P) : result unit E :=
  (commit_while_policy_current heap self (λ s, (tt, s)) tt).1.

(** ** Laws *)

(** The policy a decision was made under is the one in its store. *)
Definition current (heap : PolicyHeap P) (self : PolicyDecision P) : Prop :=
  heap !! decision_store self =
    Some (Some (mkPolicyLock false (mkPolicyState (decision_generation self) (decision_policy self) None))).

Lemma commit_if_current_run {S T} store p g (commit : S → T * S) s :
  (store = mkPolicyLock false (mkPolicyState g p None) ∧
   commit_if_policy_current store p g commit s = (Ok (commit s).1, (commit s).2)) ∨
  (store ≠ mkPolicyLock false (mkPolicyState g p None) ∧
   ∃ e, commit_if_policy_current store p g commit s = (Err e, s)).
Proof.
  unfold commit_if_policy_current, mut_bind, mut_lift, lock_guard. destruct store as [[|] [g' p' r]]; cbn.
  { right. split; [done|by eexists]. }
  destruct r as [d|]; cbn; [right; split; [done|by eexists]|].
  destruct (Z.eqb_spec g' g) as [->|Hg]; cbn; [|right; split; [by intros [= ?]|by eexists]].
  case_bool_decide as Hp; cbn; [right; split; [by intros [= ?]|by eexists]|].
  subst p'. left. split; [done|]. by destruct (commit s).
Qed.

(** An effect runs exactly when the decision is current; otherwise nothing
    happens. *)
Lemma commit_while_current_run {S T} heap self (commit : S → T * S) s :
  (current heap self ∧ commit_while_policy_current heap self commit s = (Ok (commit s).1, (commit s).2)) ∨
  (¬ current heap self ∧ ∃ e, commit_while_policy_current heap self commit s = (Err e, s)).
Proof.
  unfold commit_while_policy_current, current, mut_bind at 1, mut_lift at 1, upgrade.
  unfold mut_bind, mut_lift. destruct (heap !! decision_store self) as [[l|]|]; cbn [ok_or].
  - destruct (commit_if_current_run l (decision_policy self) (decision_generation self) commit s) as [[-> Hr]|[Hn Hr]].
    + by left.
    + right. split; [|done]. by intros [= ?].
  - right. split; [done|by eexists].
  - right. split; [done|by eexists].
Qed.

Lemma commit_while_current_Ok {S T} heap self (commit : S → T * S) s t :
  (commit_while_policy_current heap self commit s).1 = Ok t → current heap self ∧ t = (commit s).1.
Proof. destruct (commit_while_current_run heap self commit s) as [[Hc ->]|[_ [e ->]]]; [by intros [= <-]|done]. Qed.

Lemma verify_current_Ok heap self : verify_current_policy heap self = Ok tt ↔ current heap self.
Proof.
  unfold verify_current_policy. destruct (commit_while_current_run heap self (λ s : unit, (tt, s)) tt) as [[Hc ->]|[Hn [e ->]]]; cbn.
  - done.
  - split; [done|]. by intros ?%Hn.
Qed.

(** ** What may happen to the stores *)

Inductive policy_step : PolicyHeap P → PolicyHeap P → Prop :=
| step_new heap a p : heap !! a = None → policy_step heap (<[a := Some (policy_store_new p)]> heap)
| step_replace heap a l p r l' :
    heap !! a = Some (Some l) → replace_policy p l = (r, l') → policy_step heap (<[a := Some l']> heap)
| step_revoke heap a l d r l' :
    heap !! a = Some (Some l) → revoke d l = (r, l') → policy_step heap (<[a := Some l']> heap)
| step_poison heap a l :
    heap !! a = Some (Some l) → policy_step heap (<[a := Some (mkPolicyLock true (lock_state l))]> heap)
| step_drop heap a l : heap !! a = Some (Some l) → policy_step heap (<[a := None]> heap).

(** The store has moved past a generation, for good. *)
Definition passed (g : Z) (o : option (option (PolicyLock P))) : Prop :=
  match o with
  | Some (Some l) => lock_poisoned l = true ∨ g < generation (lock_state l)
  | Some None => True
  | None => False
  end.

Lemma replace_policy_run p l :
  (lock_poisoned l = false ∧ generation (lock_state l) < u64_max ∧
   replace_policy p l = (Ok tt, mkPolicyLock false (mkPolicyState (generation (lock_state l) + 1) p None))) ∨
  ∃ e, replace_policy p l = (Err e, l).
Proof.
  unfold replace_policy, mut_bind, mut_get, mut_lift, mut_put, lock_guard.
  destruct l as [[|] [g q r]]; cbn; [right; by eexists|].
  destruct (checked_add u64_max g 1) as [n|] eqn:En; cbn; [|right; by eexists].
  apply checked_add_Some in En as [-> Hn]. left. split_and!; [done|lia|done].
Qed.

Lemma revoke_run d l :
  (lock_poisoned l = false ∧ generation (lock_state l) < u64_max ∧
   revoke d l = (Ok tt, mkPolicyLock false (mkPolicyState (generation (lock_state l) + 1) (policy (lock_state l)) (Some d)))) ∨
  ∃ e, revoke d l = (Err e, l).
Proof.
  unfold revoke, mut_bind, mut_get, mut_lift, mut_put, lock_guard.
  destruct l as [[|] [g q r]]; cbn; [right; by eexists|].
  destruct (checked_add u64_max g 1) as [n|] eqn:En; cbn; [|right; by eexists].
  apply checked_add_Some in En as [-> Hn]. left. split_and!; [done|lia|done].
Qed.

(** A step leaves a store alone or moves it past its generation. *)
Lemma policy_step_store heap heap' a l :
  heap !! a = Some (Some l) → policy_step heap heap' →
  heap' !! a = Some (Some l) ∨ passed (generation (lock_state l)) (heap' !! a).
Proof.
  intros Ha Hs. destruct Hs as [h b p Hb|h b k p r k' Hb Hr|h b k d r k' Hb Hr|h b k Hb|h b k Hb];
    (destruct (decide (b = a)) as [->|Hne]; [|left; by rewrite lookup_insert_ne]); rewrite lookup_insert; rewrite Ha in Hb;
    try done; rewrite ?decide_True by done; injection Hb as <-.
  - destruct (replace_policy_run p l) as [(_ & _ & Hx)|[e Hx]]; rewrite Hx in Hr; injection Hr as _ <-; [right; cbn; lia|by left].
  - destruct (revoke_run d l) as [(_ & _ & Hx)|[e Hx]]; rewrite Hx in Hr; injection Hr as _ <-; [right; cbn; lia|by left].
  - right. by left.
  - by right.
Qed.

Lemma policy_step_passed heap heap' a g :
  passed g (heap !! a) → policy_step heap heap' → passed g (heap' !! a).
Proof.
  intros Hp Hs. destruct (heap !! a) as [[l|]|] eqn:Ha; [| |done].
  - destruct (policy_step_store _ _ _ _ Ha Hs) as [->|Hq]; [done|].
    destruct Hp as [Hpoison|Hg]; [|destruct (heap' !! a) as [[l'|]|]; cbn in *; [|done..]; destruct Hq; [by left|right; lia]].
    (* A poisoned store refuses every write. *)
    clear Hq. destruct Hs as [h b p Hb|h b k p r k' Hb Hr|h b k d r k' Hb Hr|h b k Hb|h b k Hb];
      (destruct (decide (b = a)) as [->|Hne]; [|rewrite lookup_insert_ne by done; rewrite Ha; by left]);
      rewrite lookup_insert; rewrite Ha in Hb; try done; rewrite ?decide_True by done; injection Hb as <-.
    + destruct (replace_policy_run p l) as [(Hx & _)|[e Hx]]; [congruence|]. rewrite Hx in Hr. injection Hr as _ <-. by left.
    + destruct (revoke_run d l) as [(Hx & _)|[e Hx]]; [congruence|]. rewrite Hx in Hr. injection Hr as _ <-. by left.
    + by left.
    + done.
  - destruct Hs as [h b p Hb|h b k p r k' Hb Hr|h b k d r k' Hb Hr|h b k Hb|h b k Hb];
      (destruct (decide (b = a)) as [->|Hne]; [congruence|]); rewrite lookup_insert_ne by done; by rewrite Ha.
Qed.

Lemma steps_passed heap heap' a g :
  passed g (heap !! a) → rtc policy_step heap heap' → passed g (heap' !! a).
Proof. intros Hp Hs. induction Hs as [h|h1 h2 h3 H12 _ IH]; [done|]. apply IH. by eapply policy_step_passed. Qed.

Lemma passed_not_current heap self : passed (decision_generation self) (heap !! decision_store self) → ¬ current heap self.
Proof. intros Hp Hc. unfold current in Hc. rewrite Hc in Hp. destruct Hp as [?|Hp]; [done|]. cbn in Hp. lia. Qed.

Lemma steps_current heap heap' self :
  current heap self → rtc policy_step heap heap' →
  (current heap' self ∧ heap' !! decision_store self = heap !! decision_store self) ∨
  passed (decision_generation self) (heap' !! decision_store self).
Proof.
  intros Hc Hs. induction Hs as [h|h1 h2 h3 H12 H23 IH]; [by left|].
  destruct (policy_step_store _ _ _ _ Hc H12) as [Hk|Hp]; [|right].
  - destruct (IH Hk) as [[H3 Heq]|Hp]; [left|by right]. split; [done|]. rewrite Heq. unfold current in Hc. by rewrite Hc, Hk.
  - by apply (steps_passed h2).
Qed.

(** C26: a decision is exactly as durable as its policy.  Whatever replacements,
    revocations, panics and drops happen to the stores after a decision was made:
    as long as its store has not been touched, its policy verifies and any effect
    runs, once and with its own result; from the first touch on, for ever, even
    when the same policy is installed again, it does not verify and an effect is
    refused without having begun. *)
Theorem policy_decision_durability {S T} heap heap1 heap2 self (commit : S → T * S) s :
  current heap self → rtc policy_step heap heap1 → rtc policy_step heap1 heap2 →
  let untouched := heap1 !! decision_store self = heap !! decision_store self in
  (untouched → verify_current_policy heap1 self = Ok tt ∧
     commit_while_policy_current heap1 self commit s = (Ok (commit s).1, (commit s).2)) ∧
  (¬ untouched → verify_current_policy heap2 self ≠ Ok tt ∧
     (∃ e, commit_while_policy_current heap1 self commit s = (Err e, s)) ∧
     ∃ e, commit_while_policy_current heap2 self commit s = (Err e, s)).
Proof.
  intros Hc H1 H2. cbv zeta. rewrite !verify_current_Ok. split.
  - intros Heq. assert (Hc1 : current heap1 self) by (unfold current in *; by rewrite Heq). split; [done|].
    by destruct (commit_while_current_run heap1 self commit s) as [[_ Hr]|[Hn _]].
  - intros Hn. destruct (steps_current _ _ _ Hc H1) as [[_ Heq]|Hp]; [done|].
    pose proof (passed_not_current _ _ Hp) as Hn1. pose proof (passed_not_current _ _ (steps_passed _ _ _ _ Hp H2)) as Hn2.
    split_and!; [exact Hn2| |].
    + by destruct (commit_while_current_run heap1 self commit s) as [[Hc1 _]|[_ Hr]].
    + by destruct (commit_while_current_run heap2 self commit s) as [[Hc2 _]|[_ Hr]].
Qed.
End Store.

(** A store whose policy is replaced by the same policy: the decision is void. *)
#[local] Instance sample_policy_errors : PolicyErrors nat :=
  {| PolicyStorePoisoned := 0%nat; PolicyGenerationExhausted := 1%nat; PolicyStoreUnavailable := 2%nat;
     PolicyRevoked := 3%nat; PolicyChanged := 4%nat |}.
Definition sample_heap : PolicyHeap nat := {[0%nat := Some (policy_store_new 7%nat)]}.
Definition sample_decision : PolicyDecision nat := mkDecision 7%nat 1 0%nat.
Definition replaced_heap : PolicyHeap nat :=
  <[0%nat := Some (replace_policy (E := nat) 7%nat (policy_store_new 7%nat)).2]> sample_heap.

Lemma policy_decision_durability_witness :
  commit_while_policy_current (E := nat) sample_heap sample_decision (λ n : nat, (n, S n)) 5%nat = (Ok 5%nat, 6%nat) ∧
  ∃ e, commit_while_policy_current (E := nat) replaced_heap sample_decision (λ n : nat, (n, S n)) 5%nat = (Err e, 5%nat).
Proof.
  assert (Hstep : rtc (policy_step (E := nat)) sample_heap replaced_heap)
    by (apply rtc_once, (step_replace (E := nat) sample_heap 0%nat (policy_store_new 7%nat) 7%nat (Ok tt)); reflexivity).
  split.
  - apply (policy_decision_durability (E := nat) sample_heap sample_heap sample_heap sample_decision (λ n : nat, (n, S n)) 5%nat
      eq_refl (rtc_refl _ _) (rtc_refl _ _)). reflexivity.
  - apply (policy_decision_durability (E := nat) sample_heap replaced_heap replaced_heap sample_decision (λ n : nat, (n, S n)) 5%nat
      eq_refl Hstep (rtc_refl _ _)). vm_compute. intros H. discriminate H.
Defined.
