(* ===== verification/Certify.v ===== *)
(** * Certify: verified artifacts, local certification and publication

    Models [crates/weregopher-transform/src/certification_artifacts.rs], the
    certification side of [certification_policy.rs] and
    [certification_publication.rs] of the same crate: the bounded verification of
    the artifact bytes an evidence document refers to, the assignment of a trusted
    class under the current policy, and the bounded in-memory stores that receipts
    are committed to under that policy.

    [serde_json]'s canonical encodings are parameters; the borrowed byte map is the
    map itself. *)

From S2P Require Import Prelude Text Wire Evidence Policy.

(** The canonical encodings of the certification documents. *)
Class CertifyJson : Type := {
  CertifyJsonError : Type;
  profile_to_vec : CertificationProfile → result bytes CertifyJsonError;
  evidence_to_vec : CertificationEvidence → result bytes CertifyJsonError
}.

(** ** Verified artifacts *)

Definition MAX_CERTIFICATION_ARTIFACT_REFERENCES : Z :=
  (CERTIFICATION_FIXED_CHECK_COUNT + MAX_CERTIFICATION_WORKFLOWS) * MAX_CERTIFICATION_EVIDENCE_REFS.
Definition MAX_CERTIFICATION_ARTIFACT_BYTES : Z := 16 * 1024 * 1024.
Definition MAX_TOTAL_CERTIFICATION_ARTIFACT_BYTES : Z := 128 * 1024 * 1024.

Inductive CertificationArtifactVerificationError : Type :=
| Artifact_InvalidLimits
| Artifact_LimitsExceedImplementationMaximum
| Artifact_TooManyArtifacts
| Artifact_ReferenceAllocationFailed
| Artifact_MissingArtifact (artifact : CertificationArtifactRef)
| Artifact_UnexpectedArtifact (artifact : CertificationArtifactRef)
| Artifact_ArtifactTooLarge (artifact : CertificationArtifactRef) (actual_bytes max_bytes : Z)
| Artifact_TotalBytesExceeded (actual_bytes max_bytes : Z)
| Artifact_DigestMismatch (artifact : CertificationArtifactRef).

Record CertificationArtifactVerificationLimits : Type := mkArtifactVerificationLimits {
  per_artifact : Z;
  aggregate : Z
}.

Definition verification_limits_new (max_artifact_bytes max_total_bytes : Z) :
    result CertificationArtifactVerificationLimits CertificationArtifactVerificationError :=
  do? reject ((max_artifact_bytes =? 0) || (max_total_bytes =? 0)) Artifact_InvalidLimits in
  do? reject ((MAX_CERTIFICATION_ARTIFACT_BYTES <? max_artifact_bytes) ||
              (MAX_TOTAL_CERTIFICATION_ARTIFACT_BYTES <? max_total_bytes))
    Artifact_LimitsExceedImplementationMaximum in
  Ok (mkArtifactVerificationLimits max_artifact_bytes max_total_bytes).

Abbreviation ArtifactMap := (gmap CertificationArtifactRef bytes).

Record VerifiedCertificationArtifacts : Type := mkVerifiedArtifacts {
  structural_validation : StructurallyValidatedCertificationEvidence;
  verified_map : ArtifactMap;
  total_bytes : Z
}.

Definition artifact_iter (artifacts : ArtifactMap) : list (CertificationArtifactRef * bytes) :=
  btree_iter artifact_ref_le artifacts.

(** [Vec::dedup] of the sorted references. *)
Fixpoint dedup_references (l : list CertificationArtifactRef) : list CertificationArtifactRef :=
  match l with
  | a :: (b :: _) as rest => if bool_decide (a = b) then dedup_references rest else a :: dedup_references rest
  | _ => l
  end.
Definition expected_references (evidence : CertificationEvidence) : list CertificationArtifactRef :=
  dedup_references (merge_sort (λ a b, Is_true (artifact_ref_le a b)) (artifact_references evidence)).

Fixpoint check_references (l : list CertificationArtifactRef) (present : CertificationArtifactRef → bool)
    (error : CertificationArtifactRef → CertificationArtifactVerificationError) :
    result unit CertificationArtifactVerificationError :=
  match l with
  | [] => Ok tt
  | reference :: l => do? reject (negb (present reference)) (error reference) in check_references l present error
  end.

Fixpoint sum_artifact_bytes (l : list (CertificationArtifactRef * bytes))
    (limits : CertificationArtifactVerificationLimits) (total : Z) :
    result Z CertificationArtifactVerificationError :=
  match l with
  | [] => Ok total
  | (reference, bs) :: l =>
    do? reject (per_artifact limits <? len bs) (Artifact_ArtifactTooLarge reference (len bs) (per_artifact limits)) in
    let? total := ok_or (checked_add usize_max total (len bs))
      (Artifact_TotalBytesExceeded usize_max (aggregate limits)) in
    do? reject (aggregate limits <? total) (Artifact_TotalBytesExceeded total (aggregate limits)) in
    sum_artifact_bytes l limits total
  end.

Fixpoint check_artifact_digests `{Sha256} (l : list (CertificationArtifactRef * bytes)) :
    result unit CertificationArtifactVerificationError :=
  match l with
  | [] => Ok tt
  | (reference, bs) :: l =>
    do? reject (bool_decide (sha256 bs ≠ ref_digest reference)) (Artifact_DigestMismatch reference) in
    check_artifact_digests l
  end.

(** [binary_search] of the sorted references is membership. *)
Definition verify_certification_artifacts `{Sha256} `{Alloc : Allocator}
    (structural_validation : StructurallyValidatedCertificationEvidence) (artifacts : ArtifactMap)
    (limits : CertificationArtifactVerificationLimits) :
    result VerifiedCertificationArtifacts CertificationArtifactVerificationError :=
  do? reject (MAX_CERTIFICATION_ARTIFACT_REFERENCES <? map_len artifacts) Artifact_TooManyArtifacts in
  do? reject (negb (Alloc MAX_CERTIFICATION_ARTIFACT_REFERENCES)) Artifact_ReferenceAllocationFailed in
  let expected := expected_references (validated_evidence structural_validation) in
  do? check_references expected (λ r, bool_decide (is_Some (artifacts !! r))) Artifact_MissingArtifact in
  do? check_references (artifact_iter artifacts).*1 (λ r, bool_decide (r ∈ expected)) Artifact_UnexpectedArtifact in
  let? total := sum_artifact_bytes (artifact_iter artifacts) limits 0 in
  do? check_artifact_digests (artifact_iter artifacts) in
  Ok (mkVerifiedArtifacts structural_validation artifacts total).

Definition artifact_count (self : VerifiedCertificationArtifacts) : Z := map_len (verified_map self).

(** ** Local certification *)

Record LocalCertificationPolicy : Type := mkLocalPolicy {
  local_target : CertificationTarget;
  local_profile_digest : CertificationProfileDigest;
  local_evidence_digest : CertificationEvidenceDigest;
  approved_class : CertificationClass;
  local_revision_digest : Sha256Digest
}.
#[global] Instance LocalCertificationPolicy_eq_dec : EqDecision LocalCertificationPolicy.
Proof. solve_decision. Defined.

Inductive CertificationPolicyError (JsonError : Type) : Type :=
| Policy_UnassignableClass
| Policy_PolicyStorePoisoned
| Policy_PolicyGenerationExhausted
| Policy_PolicyStoreUnavailable
| Policy_PolicyRevoked
| Policy_PolicyChanged
| Policy_EvidenceNotComplete
| Policy_ProfileDigestUnavailable (source : JsonError)
| Policy_EvidenceDigestUnavailable (source : JsonError)
| Policy_TargetMismatch
| Policy_ProfileDigestMismatch
| Policy_EvidenceDigestMismatch
| Policy_ClassMismatch.
Arguments Policy_UnassignableClass {_}. Arguments Policy_PolicyStorePoisoned {_}.
Arguments Policy_PolicyGenerationExhausted {_}. Arguments Policy_PolicyStoreUnavailable {_}.
Arguments Policy_PolicyRevoked {_}. Arguments Policy_PolicyChanged {_}. Arguments Policy_EvidenceNotComplete {_}.
Arguments Policy_ProfileDigestUnavailable {_}. Arguments Policy_EvidenceDigestUnavailable {_}.
Arguments Policy_TargetMismatch {_}. Arguments Policy_ProfileDigestMismatch {_}.
Arguments Policy_EvidenceDigestMismatch {_}. Arguments Policy_ClassMismatch {_}.

#[global] Instance CertificationPolicyError_policy JsonError : PolicyErrors (CertificationPolicyError JsonError) := {|
  PolicyStorePoisoned := Policy_PolicyStorePoisoned;
  PolicyGenerationExhausted := Policy_PolicyGenerationExhausted;
  PolicyStoreUnavailable := Policy_PolicyStoreUnavailable;
  PolicyRevoked := Policy_PolicyRevoked;
  PolicyChanged := Policy_PolicyChanged
|}.

Definition local_policy_new {JsonError} (target : CertificationTarget) (profile_digest : CertificationProfileDigest)
    (evidence_digest : CertificationEvidenceDigest) (class : CertificationClass) (revision_digest : Sha256Digest) :
    result LocalCertificationPolicy (CertificationPolicyError JsonError) :=
  do? reject (match class with Class_Blocked | Class_Provisional => true | _ => false end) Policy_UnassignableClass in
  Ok (mkLocalPolicy target profile_digest evidence_digest class revision_digest).

Record LocallyCertifiedArtifacts : Type := mkLocallyCertified {
  verified_artifacts : VerifiedCertificationArtifacts;
  certified_policy : LocalCertificationPolicy;
  certified_policy_generation : Z;
  certified_policy_store : Address
}.

Definition certified_decision (self : LocallyCertifiedArtifacts) : PolicyDecision LocalCertificationPolicy :=
  mkDecision (certified_policy self) (certified_policy_generation self) (certified_policy_store self).

Definition trusted_class_for_profile (profile_class : CertificationProfileClass) : CertificationClass :=
  match profile_class with
  | Profile_StructuralVerified => Class_StructuralVerified
  | Profile_SmokeVerified => Class_SmokeVerified
  | Profile_ContractVerified => Class_ContractVerified
  | Profile_ExactCertified => Class_ExactCertified
  end.

Section Certify.
Context `{CJ : CertifyJson} `{HS : Sha256} `{Alloc : Allocator}.
Abbreviation PolicyError := (CertificationPolicyError CertifyJsonError).
Abbreviation Heap := (PolicyHeap LocalCertificationPolicy).

Definition certified_verify_current_policy (heap : Heap) (self : LocallyCertifiedArtifacts) : result unit PolicyError :=
  verify_current_policy heap (certified_decision self).

Definition current_class (heap : Heap) (self : LocallyCertifiedArtifacts) : result CertificationClass PolicyError :=
  do? certified_verify_current_policy heap self in
  Ok (approved_class (certified_policy self)).

(** The stores may change between the snapshot, taken in [heap], and the closing
    recheck, made in [heap'].  The caller's store is alive, so its lock is found. *)
Definition assign_local_certification (heap heap' : Heap) (verified : VerifiedCertificationArtifacts)
    (policy_store : Address) : result LocallyCertifiedArtifacts PolicyError :=
  let? store := ok_or (upgrade heap policy_store) Policy_PolicyStoreUnavailable in
  let? snap := snapshot store in
  do? reject (bool_decide (is_Some (revocation_evidence_digest snap))) Policy_PolicyRevoked in
  let profile := validated_profile (structural_validation verified) in
  let evidence := validated_evidence (structural_validation verified) in
  do? reject (bool_decide (disposition evidence ≠ Disposition_Complete)) Policy_EvidenceNotComplete in
  let? profile_digest := map_err Policy_ProfileDigestUnavailable
    (profile_canonical_document_digest profile_to_vec profile) in
  do? reject (bool_decide (profile_digest ≠ local_profile_digest (policy snap))) Policy_ProfileDigestMismatch in
  do? reject (bool_decide (evidence_profile_digest evidence ≠ profile_digest)) Policy_ProfileDigestMismatch in
  do? reject (bool_decide (evidence_target evidence ≠ local_target (policy snap))) Policy_TargetMismatch in
  let? evidence_digest := map_err Policy_EvidenceDigestUnavailable
    (evidence_canonical_document_digest evidence_to_vec evidence) in
  do? reject (bool_decide (evidence_digest ≠ local_evidence_digest (policy snap))) Policy_EvidenceDigestMismatch in
  let declared_class := trusted_class_for_profile (profile_class profile) in
  do? reject (bool_decide (declared_class ≠ approved_class (policy snap))) Policy_ClassMismatch in
  let certified := mkLocallyCertified verified (policy snap) (generation snap) policy_store in
  do? certified_verify_current_policy heap' certified in
  Ok certified.

(** ** Publication *)

Definition ARTIFACT_SET_DIGEST_DOMAIN : bytes :=
  lit "weregopher.certification.artifact-set.v1" ++ [byte_of 0].
Definition MAX_LOCAL_CERTIFICATION_PUBLICATIONS : Z := 4096.

Record LocalCertificationPublicationReceipt : Type := mkPublicationReceipt {
  publication_target : CertificationTarget;
  publication_profile_digest : CertificationProfileDigest;
  publication_evidence_digest : CertificationEvidenceDigest;
  publication_artifact_set_digest : Sha256Digest;
  publication_class : CertificationClass;
  publication_policy_revision_digest : Sha256Digest;
  publication_policy_generation : Z;
  publication_artifact_count : Z;
  publication_total_artifact_bytes : Z;
  publication_status : PublicationStatus
}.
#[global] Instance LocalCertificationPublicationReceipt_eq_dec : EqDecision LocalCertificationPublicationReceipt.
Proof. solve_decision. Defined.

Record PreparedLocalCertificationPublication : Type := mkPrepared {
  prepared_certified : LocallyCertifiedArtifacts;
  prepared_receipt : LocalCertificationPublicationReceipt
}.

Inductive CertificationPublicationError : Type :=
| Publication_InvalidLimits
| Publication_LimitsExceedImplementationMaximum
| Publication_ArtifactCountUnrepresentable
| Publication_Policy (source : PolicyError)
| Publication_StorePoisoned
| Publication_StoreFull
| Publication_ReceiptAllocationFailed.

Definition artifact_kind_tag (kind : CertificationArtifactKind) : Z :=
  match kind with
  | Kind_PackageIdentity => 0 | Kind_StaticAnalysis => 1 | Kind_RuntimeProbe => 2 | Kind_RendererProbe => 3
  | Kind_StateProbe => 4 | Kind_SecurityProbe => 5 | Kind_WorkflowProbe => 6 | Kind_ResourceProbe => 7
  | Kind_HelperProbe => 8 | Kind_ExceptionVerification => 9
  end.

(** The bytes hashed by [certification_artifact_set_digest]. *)
Definition artifact_set_preimage (artifacts : ArtifactMap) : bytes :=
  ARTIFACT_SET_DIGEST_DOMAIN ++ le_bytes 8 (map_len artifacts) ++
  concat (map (λ r, byte_of (artifact_kind_tag (ref_kind r)) :: ref_digest r) (btree_keys artifact_ref_le artifacts)).

Definition certification_artifact_set_digest (verified : VerifiedCertificationArtifacts) :
    result Sha256Digest CertificationPublicationError :=
  do? reject (u64_max <? artifact_count verified) Publication_ArtifactCountUnrepresentable in
  Ok (sha256 (artifact_set_preimage (verified_map verified))).

Definition local_certification_receipt (heap : Heap) (certified : LocallyCertifiedArtifacts) :
    result LocalCertificationPublicationReceipt CertificationPublicationError :=
  let? class := map_err Publication_Policy (current_class heap certified) in
  let verified := verified_artifacts certified in
  let? artifact_set_digest := certification_artifact_set_digest verified in
  let p := certified_policy certified in
  Ok (mkPublicationReceipt (local_target p) (local_profile_digest p) (local_evidence_digest p) artifact_set_digest class
        (local_revision_digest p) (certified_policy_generation certified) (artifact_count verified)
        (total_bytes verified) Publication_LocalOnly).

Definition prepare_local_certification_publication (heap : Heap) (certified : LocallyCertifiedArtifacts) :
    result PreparedLocalCertificationPublication CertificationPublicationError :=
  let? receipt := local_certification_receipt heap certified in
  Ok (mkPrepared certified receipt).
End Certify.
Arguments CertificationPublicationError : clear implicits.
Arguments CertificationPublicationError {_}.

(** ** Bounded stores of what was published

    The store of receipts and the store of attested publications are one store
    under two contents and two error types. *)

Class StoreErrors (E : Type) : Type := {
  store_invalid_limits : E;
  store_limits_exceed : E;
  store_poisoned : E;
  store_full : E;
  store_allocation_failed : E
}.

Record PublicationStore (R : Type) : Type := mkPublicationStore {
  max_publications : Z;
  publications_poisoned : bool;
  publications : list R
}.
Arguments mkPublicationStore {_}. Arguments max_publications {_}. Arguments publications_poisoned {_}.
Arguments publications {_}.

Section Store.
Context {R E : Type} `{EqDecision R} `{StoreErrors E} `{Alloc : Allocator}.

Definition publication_store_new (max_publications : Z) : result (PublicationStore R) E :=
  do? reject (max_publications =? 0) store_invalid_limits in
  do? reject (MAX_LOCAL_CERTIFICATION_PUBLICATIONS <? max_publications) store_limits_exceed in
  Ok (mkPublicationStore max_publications false []).

Definition publication_count (self : PublicationStore R) : result Z E :=
  do? reject (publications_poisoned self) store_poisoned in Ok (len (publications self)).
Definition publication_contains (self : PublicationStore R) (publication : R) : result bool E :=
  do? reject (publications_poisoned self) store_poisoned in Ok (bool_decide (publication ∈ publications self)).

(** A duplicate is found and handed back; anything else takes a slot. *)
Definition commit_publication (publication : R) : mut (PublicationStore R) E R :=
  let* self := mut_get in
  do* mut_lift (reject (publications_poisoned self) store_poisoned) in
  match find (λ existing, bool_decide (existing = publication)) (publications self) with
  | Some existing => mut_ret existing
  | None =>
    do* mut_lift (reject (max_publications self <=? len (publications self)) store_full) in
    do* mut_lift (reject (negb (Alloc 1)) store_allocation_failed) in
    do* mut_put (mkPublicationStore (max_publications self) false (publications self ++ [publication])) in
    mut_ret publication
  end.
End Store.

#[global] Instance CertificationPublicationError_store `{CertifyJson} : StoreErrors CertificationPublicationError := {|
  store_invalid_limits := Publication_InvalidLimits;
  store_limits_exceed := Publication_LimitsExceedImplementationMaximum;
  store_poisoned := Publication_StorePoisoned;
  store_full := Publication_StoreFull;
  store_allocation_failed := Publication_ReceiptAllocationFailed
|}.

(** The commit runs under the policy guard; its outcome comes out inside the
    guard's. *)
Definition publish_local_certification `{CertifyJson} `{Allocator} (heap : PolicyHeap LocalCertificationPolicy)
    (prepared : PreparedLocalCertificationPublication) :
    mut (PublicationStore LocalCertificationPublicationReceipt) CertificationPublicationError
      LocalCertificationPublicationReceipt := λ s,
  let '(outcome, s') := commit_while_policy_current (E := CertificationPolicyError CertifyJsonError) heap
    (certified_decision (prepared_certified prepared)) (commit_publication (prepared_receipt prepared)) s in
  (result_bind (map_err Publication_Policy outcome) id, s').
