(* ===== verification/Runner.v ===== *)
(** * Runner: the certification runner and its components

    Models [crates/weregopher-domain/src/certification_runner.rs] (the identity of
    a runner and the bounded reading of its document),
    [crates/weregopher-transform/src/certification_runner_policy.rs] (the approval
    of one identity under the current runner policy, on the stores of Policy.v) and
    [certification_runner_components.rs] of the same crate (the verification of
    every component descriptor and artifact byte an identity names).

    The fixed platform and architecture have one value each and are not stored; a
    role-specific digest is its 32 bytes. *)

From stdpp Require Import finite.
From S2P Require Import Prelude Text Wire Evidence ControlPlane Policy.

(** ** The identity of a runner *)

Definition MAX_CERTIFICATION_RUNNER_IDENTITY_DOCUMENT_BYTES : Z := 32 * 1024.

Inductive CertificationRunnerPlatform : Type := Platform_Windows.
Inductive CertificationRunnerArchitecture : Type := Architecture_X86_64.

Record CertificationRunnerEnvironmentIdentity : Type := mkEnvironment {
  runner_platform : CertificationRunnerPlatform;
  runner_architecture : CertificationRunnerArchitecture;
  runner_image_digest : Sha256Digest;
  host_image_digest : Sha256Digest;
  host_patch_set_digest : Sha256Digest;
  electron_runtime_digest : Sha256Digest;
  language_runtime_set_digest : Sha256Digest
}.

Definition windows_x86_64 (image host patches electron languages : Sha256Digest) : CertificationRunnerEnvironmentIdentity :=
  mkEnvironment Platform_Windows Architecture_X86_64 image host patches electron languages.

Record CertificationRunnerToolingIdentity : Type := mkTooling {
  toolchain_set_digest : Sha256Digest;
  host_agent_digest : Sha256Digest;
  verifier_digest : Sha256Digest;
  probe_asset_set_digest : Sha256Digest
}.

Record CertificationRunnerProvenanceIdentity : Type := mkProvenance {
  source_revision_digest : Sha256Digest;
  exception_provenance_digest : Sha256Digest
}.

Record CertificationRunnerIdentity : Type := mkRunnerIdentity {
  runner_environment : CertificationRunnerEnvironmentIdentity;
  runner_tooling : CertificationRunnerToolingIdentity;
  runner_provenance : CertificationRunnerProvenanceIdentity
}.

Inductive CertificationRunnerDocumentError (JsonError IoError : Type) : Type :=
| RunnerDocument_TooLarge
| RunnerDocument_BufferAllocationFailed
| RunnerDocument_Read (source : IoError)
| RunnerDocument_InvalidDocument (source : JsonError).
Arguments RunnerDocument_TooLarge {_ _}. Arguments RunnerDocument_BufferAllocationFailed {_ _}.
Arguments RunnerDocument_Read {_ _}. Arguments RunnerDocument_InvalidDocument {_ _}.

(** What [serde_json] offers of the documents of a runner. *)
Class RunnerJson : Type := {
  RunnerJsonError : Type;
  identity_from_slice : bytes → result CertificationRunnerIdentity RunnerJsonError;
  identity_to_vec : CertificationRunnerIdentity → result bytes RunnerJsonError;
  descriptor_to_vec : CertificationRunnerComponentDescriptor → result bytes RunnerJsonError
}.

#[global] Instance CertificationRunnerComponentRole_eq_dec : EqDecision CertificationRunnerComponentRole.
Proof. solve_decision. Defined.

(** The tags follow the declared order, which the derived [Ord] follows too. *)
Definition runner_role_tag (role : CertificationRunnerComponentRole) : Z :=
  match role with
  | Role_RunnerImage => 0 | Role_HostImage => 1 | Role_HostPatchSet => 2 | Role_ElectronRuntime => 3
  | Role_LanguageRuntimeSet => 4 | Role_ToolchainSet => 5 | Role_HostAgent => 6 | Role_Verifier => 7
  | Role_ProbeAssetSet => 8 | Role_SourceRevision => 9 | Role_ExceptionProvenance => 10
  end.
Definition runner_roles : list CertificationRunnerComponentRole :=
  [Role_RunnerImage; Role_HostImage; Role_HostPatchSet; Role_ElectronRuntime; Role_LanguageRuntimeSet;
   Role_ToolchainSet; Role_HostAgent; Role_Verifier; Role_ProbeAssetSet; Role_SourceRevision;
   Role_ExceptionProvenance].

Lemma runner_roles_complete role : role ∈ runner_roles.
Proof. destruct role; unfold runner_roles; set_solver. Qed.
Lemma runner_roles_NoDup : NoDup runner_roles.
Proof. by apply (bool_decide_unpack _). Qed.

#[global] Instance CertificationRunnerComponentRole_finite : Finite CertificationRunnerComponentRole :=
  {| enum := runner_roles; NoDup_enum := runner_roles_NoDup; elem_of_enum := runner_roles_complete |}.

Definition identity_descriptor_digest (identity : CertificationRunnerIdentity)
    (role : CertificationRunnerComponentRole) : Sha256Digest :=
  match role with
  | Role_RunnerImage => runner_image_digest (runner_environment identity)
  | Role_HostImage => host_image_digest (runner_environment identity)
  | Role_HostPatchSet => host_patch_set_digest (runner_environment identity)
  | Role_ElectronRuntime => electron_runtime_digest (runner_environment identity)
  | Role_LanguageRuntimeSet => language_runtime_set_digest (runner_environment identity)
  | Role_ToolchainSet => toolchain_set_digest (runner_tooling identity)
  | Role_HostAgent => host_agent_digest (runner_tooling identity)
  | Role_Verifier => verifier_digest (runner_tooling identity)
  | Role_ProbeAssetSet => probe_asset_set_digest (runner_tooling identity)
  | Role_SourceRevision => source_revision_digest (runner_provenance identity)
  | Role_ExceptionProvenance => exception_provenance_digest (runner_provenance identity)
  end.

(** ** Runner policies *)

Record LocalCertificationRunnerPolicy : Type := mkRunnerPolicy {
  runner_policy_identity_digest : Sha256Digest;
  runner_policy_revision : Sha256Digest
}.
#[global] Instance LocalCertificationRunnerPolicy_eq_dec : EqDecision LocalCertificationRunnerPolicy.
Proof. solve_decision. Defined.

Inductive CertificationRunnerPolicyError (JsonError : Type) : Type :=
| RunnerPolicy_PolicyStorePoisoned
| RunnerPolicy_PolicyGenerationExhausted
| RunnerPolicy_PolicyStoreUnavailable
| RunnerPolicy_PolicyRevoked
| RunnerPolicy_PolicyChanged
| RunnerPolicy_IdentityDigestUnavailable (source : JsonError)
| RunnerPolicy_IdentityDigestMismatch.
Arguments RunnerPolicy_PolicyStorePoisoned {_}. Arguments RunnerPolicy_PolicyGenerationExhausted {_}.
Arguments RunnerPolicy_PolicyStoreUnavailable {_}. Arguments RunnerPolicy_PolicyRevoked {_}.
Arguments RunnerPolicy_PolicyChanged {_}. Arguments RunnerPolicy_IdentityDigestUnavailable {_}.
Arguments RunnerPolicy_IdentityDigestMismatch {_}.

#[global] Instance CertificationRunnerPolicyError_policy JsonError :
  PolicyErrors (CertificationRunnerPolicyError JsonError) := {|
  PolicyStorePoisoned := RunnerPolicy_PolicyStorePoisoned;
  PolicyGenerationExhausted := RunnerPolicy_PolicyGenerationExhausted;
  PolicyStoreUnavailable := RunnerPolicy_PolicyStoreUnavailable;
  PolicyRevoked := RunnerPolicy_PolicyRevoked;
  PolicyChanged := RunnerPolicy_PolicyChanged
|}.

Record LocallyApprovedCertificationRunner : Type := mkApprovedRunner {
  approved_identity : CertificationRunnerIdentity;
  approved_identity_digest : Sha256Digest;
  approved_policy : LocalCertificationRunnerPolicy;
  approved_policy_generation : Z;
  approved_policy_store : Address
}.

Definition approved_decision (self : LocallyApprovedCertificationRunner) : PolicyDecision LocalCertificationRunnerPolicy :=
  mkDecision (approved_policy self) (approved_policy_generation self) (approved_policy_store self).

(** ** Component verification: limits and errors *)

Definition DESCRIPTOR_SET_DIGEST_DOMAIN : bytes :=
  lit "weregopher.certification.runner-descriptor-set.v1" ++ [byte_of 0].
Definition RUNNER_COMPONENT_ROLE_COUNT : Z := 11.
Definition MAX_RUNNER_COMPONENT_ARTIFACT_BYTES : Z := 512 * 1024 * 1024.
Definition MAX_TOTAL_CERTIFICATION_RUNNER_COMPONENT_ARTIFACT_BYTES : Z := 2 * 1024 * 1024 * 1024.
Definition MAX_CERTIFICATION_RUNNER_COMPONENT_ARTIFACT_COUNT : Z :=
  RUNNER_COMPONENT_ROLE_COUNT * MAX_CERTIFICATION_RUNNER_COMPONENT_ARTIFACTS.

Inductive CertificationRunnerComponentVerificationError (JsonError : Type) : Type :=
| Component_InvalidLimits
| Component_LimitsExceedImplementationMaximum
| Component_MissingDescriptor (role : CertificationRunnerComponentRole)
| Component_UnexpectedDescriptor (role : CertificationRunnerComponentRole)
| Component_UnexpectedDescriptorCount
| Component_MissingArtifactSet (role : CertificationRunnerComponentRole)
| Component_UnexpectedArtifactSet (role : CertificationRunnerComponentRole)
| Component_UnexpectedArtifactSetCount
| Component_DescriptorRoleMismatch (expected actual : CertificationRunnerComponentRole)
| Component_CanonicalDescriptorUnavailable (source : JsonError)
| Component_DescriptorTooLarge (role : CertificationRunnerComponentRole) (actual_bytes max_bytes : Z)
| Component_DescriptorDigestMismatch (role : CertificationRunnerComponentRole)
| Component_MissingArtifact (role : CertificationRunnerComponentRole) (name : CertificationRunnerArtifactName)
| Component_UnexpectedArtifact (role : CertificationRunnerComponentRole) (name : CertificationRunnerArtifactName)
| Component_ArtifactCountExceeded
| Component_ArtifactTooLarge (role : CertificationRunnerComponentRole) (name : CertificationRunnerArtifactName)
    (actual_bytes max_bytes : Z)
| Component_ArtifactLengthUnrepresentable (role : CertificationRunnerComponentRole) (name : CertificationRunnerArtifactName)
| Component_ArtifactLengthMismatch (role : CertificationRunnerComponentRole) (name : CertificationRunnerArtifactName)
    (expected_bytes actual_bytes : Z)
| Component_TotalArtifactBytesExceeded (actual_bytes max_bytes : Z)
| Component_ArtifactDigestMismatch (role : CertificationRunnerComponentRole) (name : CertificationRunnerArtifactName)
| Component_Policy (source : CertificationRunnerPolicyError JsonError).
Arguments Component_InvalidLimits {_}. Arguments Component_LimitsExceedImplementationMaximum {_}.
Arguments Component_MissingDescriptor {_}. Arguments Component_UnexpectedDescriptor {_}.
Arguments Component_UnexpectedDescriptorCount {_}. Arguments Component_MissingArtifactSet {_}.
Arguments Component_UnexpectedArtifactSet {_}. Arguments Component_UnexpectedArtifactSetCount {_}.
Arguments Component_DescriptorRoleMismatch {_}. Arguments Component_CanonicalDescriptorUnavailable {_}.
Arguments Component_DescriptorTooLarge {_}. Arguments Component_DescriptorDigestMismatch {_}.
Arguments Component_MissingArtifact {_}. Arguments Component_UnexpectedArtifact {_}.
Arguments Component_ArtifactCountExceeded {_}. Arguments Component_ArtifactTooLarge {_}.
Arguments Component_ArtifactLengthUnrepresentable {_}. Arguments Component_ArtifactLengthMismatch {_}.
Arguments Component_TotalArtifactBytesExceeded {_}. Arguments Component_ArtifactDigestMismatch {_}.
Arguments Component_Policy {_}.

Record CertificationRunnerComponentVerificationLimits : Type := mkComponentLimits {
  descriptor_limit : Z;
  artifact_limit : Z;
  aggregate_limit : Z
}.

Definition component_limits_new {JsonError} (max_descriptor_bytes max_artifact_bytes max_total_artifact_bytes : Z) :
    result CertificationRunnerComponentVerificationLimits (CertificationRunnerComponentVerificationError JsonError) :=
  do? reject ((max_descriptor_bytes =? 0) || (max_artifact_bytes =? 0) || (max_total_artifact_bytes =? 0))
    Component_InvalidLimits in
  do? reject ((MAX_CERTIFICATION_RUNNER_COMPONENT_DESCRIPTOR_BYTES <? max_descriptor_bytes) ||
              (MAX_RUNNER_COMPONENT_ARTIFACT_BYTES <? max_artifact_bytes) ||
              (MAX_TOTAL_CERTIFICATION_RUNNER_COMPONENT_ARTIFACT_BYTES <? max_total_artifact_bytes))
    Component_LimitsExceedImplementationMaximum in
  Ok (mkComponentLimits max_descriptor_bytes max_artifact_bytes max_total_artifact_bytes).

Section Runner.
Context `{RJ : RunnerJson} `{HS : Sha256}.
Abbreviation PolicyError := (CertificationRunnerPolicyError RunnerJsonError).
Abbreviation VerificationError := (CertificationRunnerComponentVerificationError RunnerJsonError).
Abbreviation Heap := (PolicyHeap LocalCertificationRunnerPolicy).

(** ** Reading an identity *)

Definition runner_identity_from_json_slice {IoError} (bs : bytes) :
    result CertificationRunnerIdentity (CertificationRunnerDocumentError RunnerJsonError IoError) :=
  do? reject (MAX_CERTIFICATION_RUNNER_IDENTITY_DOCUMENT_BYTES <? len bs) RunnerDocument_TooLarge in
  map_err RunnerDocument_InvalidDocument (identity_from_slice bs).

(** The reader is bounded one byte above the ceiling, so that an oversized
    document is seen as one. *)
Definition runner_identity_from_json_reader `{Alloc : Allocator} {IoError} (reader : Reader IoError) :
    result CertificationRunnerIdentity (CertificationRunnerDocumentError RunnerJsonError IoError) :=
  let? read_limit := ok_or (checked_add u64_max MAX_CERTIFICATION_RUNNER_IDENTITY_DOCUMENT_BYTES 1)
    RunnerDocument_TooLarge in
  do? reject (negb (Alloc (Z.min MAX_CERTIFICATION_RUNNER_IDENTITY_DOCUMENT_BYTES (8 * 1024))))
    RunnerDocument_BufferAllocationFailed in
  let? bs := map_err RunnerDocument_Read (take_to_end read_limit reader) in
  runner_identity_from_json_slice bs.

Definition identity_canonical_document_digest (self : CertificationRunnerIdentity) : result Sha256Digest RunnerJsonError :=
  let? bs := identity_to_vec self in Ok (sha256 bs).
Definition descriptor_canonical_document_digest (self : CertificationRunnerComponentDescriptor) :
    result Sha256Digest RunnerJsonError :=
  let? bs := descriptor_to_vec self in Ok (sha256 bs).

(** ** Approval *)

Definition approved_verify_current_policy (heap : Heap) (self : LocallyApprovedCertificationRunner) :
    result unit PolicyError := verify_current_policy heap (approved_decision self).

(** As in Certify.v: the snapshot is taken in [heap], the recheck made in [heap']. *)
Definition approve_local_certification_runner (heap heap' : Heap) (identity : CertificationRunnerIdentity)
    (policy_store : Address) : result LocallyApprovedCertificationRunner PolicyError :=
  let? store := ok_or (upgrade heap policy_store) RunnerPolicy_PolicyStoreUnavailable in
  let? snap := snapshot store in
  do? reject (bool_decide (is_Some (revocation_evidence_digest snap))) RunnerPolicy_PolicyRevoked in
  let? identity_digest := map_err RunnerPolicy_IdentityDigestUnavailable (identity_canonical_document_digest identity) in
  do? reject (bool_decide (identity_digest ≠ runner_policy_identity_digest (policy snap)))
    RunnerPolicy_IdentityDigestMismatch in
  let approved := mkApprovedRunner identity identity_digest (policy snap) (generation snap) policy_store in
  do? approved_verify_current_policy heap' approved in
  Ok approved.

(** ** Component verification *)

Abbreviation Descriptors := (gmap CertificationRunnerComponentRole CertificationRunnerComponentDescriptor).
Abbreviation Supplied := (gmap CertificationRunnerArtifactName bytes).
Abbreviation ArtifactSets := (gmap CertificationRunnerComponentRole Supplied).

Definition role_le (a b : CertificationRunnerComponentRole) : bool := runner_role_tag a <=? runner_role_tag b.

Fixpoint check_roles (roles : list CertificationRunnerComponentRole) (descriptors : Descriptors)
    (artifacts : ArtifactSets) : result unit VerificationError :=
  match roles with
  | [] => Ok tt
  | role :: roles =>
    do? reject (bool_decide (descriptors !! role = None)) (Component_MissingDescriptor role) in
    do? reject (bool_decide (artifacts !! role = None)) (Component_MissingArtifactSet role) in
    check_roles roles descriptors artifacts
  end.

(** A key outside the fixed roles, or a count that cannot be. *)
Definition check_role_count {V} (m : gmap CertificationRunnerComponentRole V)
    (unexpected : CertificationRunnerComponentRole → VerificationError) (unexpected_count : VerificationError) :
    result unit VerificationError :=
  if negb (map_len m =? RUNNER_COMPONENT_ROLE_COUNT) then
    match find (λ role, negb (bool_decide (role ∈ runner_roles))) (btree_keys role_le m) with
    | Some role => Err (unexpected role)
    | None => Err unexpected_count
    end
  else Ok tt.

Fixpoint check_supplied (role : CertificationRunnerComponentRole) (expected : list CertificationRunnerComponentArtifact)
    (supplied : Supplied) : result unit VerificationError :=
  match expected with
  | [] => Ok tt
  | artifact :: expected =>
    do? reject (bool_decide (supplied !! artifact_name artifact = None))
      (Component_MissingArtifact role (artifact_name artifact)) in
    check_supplied role expected supplied
  end.

Fixpoint check_unexpected (role : CertificationRunnerComponentRole) (names : list CertificationRunnerArtifactName)
    (expected : list CertificationRunnerComponentArtifact) : result unit VerificationError :=
  match names with
  | [] => Ok tt
  | name :: names =>
    do? reject (negb (existsb (λ artifact, bool_decide (artifact_name artifact = name)) expected))
      (Component_UnexpectedArtifact role name) in
    check_unexpected role names expected
  end.

(** The sizes of the artifacts of one role. *)
Fixpoint measure_artifacts (role : CertificationRunnerComponentRole) (expected : list CertificationRunnerComponentArtifact)
    (supplied : Supplied) (limits : CertificationRunnerComponentVerificationLimits) (total : Z) :
    result Z VerificationError :=
  match expected with
  | [] => Ok total
  | artifact :: expected =>
    let name := artifact_name artifact in
    let? bs := ok_or (supplied !! name) (Component_MissingArtifact role name) in
    do? reject (artifact_limit limits <? len bs)
      (Component_ArtifactTooLarge role name (len bs) (artifact_limit limits)) in
    do? reject (usize_max <? artifact_size_bytes artifact) (Component_ArtifactLengthUnrepresentable role name) in
    do? reject (negb (len bs =? artifact_size_bytes artifact))
      (Component_ArtifactLengthMismatch role name (artifact_size_bytes artifact) (len bs)) in
    let? total := ok_or (checked_add usize_max total (len bs))
      (Component_TotalArtifactBytesExceeded usize_max (aggregate_limit limits)) in
    do? reject (aggregate_limit limits <? total)
      (Component_TotalArtifactBytesExceeded total (aggregate_limit limits)) in
    measure_artifacts role expected supplied limits total
  end.

(** What the first pass over the roles carries: the bytes hashed so far, the
    artifacts and their bytes. *)
Record component_progress : Type := mkProgress {
  hashed : bytes;
  progress_count : Z;
  progress_bytes : Z
}.

Definition verify_role (identity : CertificationRunnerIdentity) (descriptors : Descriptors) (artifacts : ArtifactSets)
    (limits : CertificationRunnerComponentVerificationLimits) (role : CertificationRunnerComponentRole)
    (p : component_progress) : result component_progress VerificationError :=
  let? descriptor := ok_or (descriptors !! role) (Component_MissingDescriptor role) in
  do? reject (bool_decide (descriptor_role descriptor ≠ role))
    (Component_DescriptorRoleMismatch role (descriptor_role descriptor)) in
  let? descriptor_bytes := map_err Component_CanonicalDescriptorUnavailable (descriptor_to_vec descriptor) in
  do? reject (descriptor_limit limits <? len descriptor_bytes)
    (Component_DescriptorTooLarge role (len descriptor_bytes) (descriptor_limit limits)) in
  let? descriptor_digest := map_err Component_CanonicalDescriptorUnavailable
    (descriptor_canonical_document_digest descriptor) in
  do? reject (bool_decide (descriptor_digest ≠ identity_descriptor_digest identity role))
    (Component_DescriptorDigestMismatch role) in
  let hashed' := hashed p ++ byte_of (runner_role_tag role) :: descriptor_digest in
  let? supplied := ok_or (artifacts !! role) (Component_MissingArtifactSet role) in
  let expected := component_artifact_iter (descriptor_artifacts descriptor) in
  do? check_supplied role expected supplied in
  do? check_unexpected role (btree_keys str_le supplied) expected in
  let? count := ok_or (checked_add usize_max (progress_count p) (map_len supplied)) Component_ArtifactCountExceeded in
  do? reject (MAX_CERTIFICATION_RUNNER_COMPONENT_ARTIFACT_COUNT <? count) Component_ArtifactCountExceeded in
  let? total := measure_artifacts role expected supplied limits (progress_bytes p) in
  Ok (mkProgress hashed' count total).

Fixpoint verify_roles (identity : CertificationRunnerIdentity) (descriptors : Descriptors) (artifacts : ArtifactSets)
    (limits : CertificationRunnerComponentVerificationLimits) (roles : list CertificationRunnerComponentRole)
    (p : component_progress) : result component_progress VerificationError :=
  match roles with
  | [] => Ok p
  | role :: roles =>
    let? p := verify_role identity descriptors artifacts limits role p in
    verify_roles identity descriptors artifacts limits roles p
  end.

Fixpoint check_component_digests (role : CertificationRunnerComponentRole)
    (expected : list CertificationRunnerComponentArtifact) (supplied : Supplied) : result unit VerificationError :=
  match expected with
  | [] => Ok tt
  | artifact :: expected =>
    let name := artifact_name artifact in
    let? bs := ok_or (supplied !! name) (Component_MissingArtifact role name) in
    do? reject (bool_decide (sha256 bs ≠ component_artifact_digest artifact)) (Component_ArtifactDigestMismatch role name) in
    check_component_digests role expected supplied
  end.

Fixpoint check_role_digests (descriptors : Descriptors) (artifacts : ArtifactSets)
    (roles : list CertificationRunnerComponentRole) : result unit VerificationError :=
  match roles with
  | [] => Ok tt
  | role :: roles =>
    let? descriptor := ok_or (descriptors !! role) (Component_MissingDescriptor role) in
    let? supplied := ok_or (artifacts !! role) (Component_MissingArtifactSet role) in
    do? check_component_digests role (component_artifact_iter (descriptor_artifacts descriptor)) supplied in
    check_role_digests descriptors artifacts roles
  end.

Record VerificationSummary : Type := mkVerificationSummary {
  summary_descriptor_set_digest : Sha256Digest;
  summary_artifact_count : Z;
  summary_total_artifact_bytes : Z
}.

Definition verify_component_inputs (identity : CertificationRunnerIdentity) (descriptors : Descriptors)
    (artifacts : ArtifactSets) (limits : CertificationRunnerComponentVerificationLimits) :
    result VerificationSummary VerificationError :=
  do? check_roles runner_roles descriptors artifacts in
  do? check_role_count descriptors Component_UnexpectedDescriptor Component_UnexpectedDescriptorCount in
  do? check_role_count artifacts Component_UnexpectedArtifactSet Component_UnexpectedArtifactSetCount in
  let? p := verify_roles identity descriptors artifacts limits runner_roles
    (mkProgress (DESCRIPTOR_SET_DIGEST_DOMAIN ++ le_bytes 8 RUNNER_COMPONENT_ROLE_COUNT) 0 0) in
  do? check_role_digests descriptors artifacts runner_roles in
  Ok (mkVerificationSummary (sha256 (hashed p)) (progress_count p) (progress_bytes p)).

Record VerifiedCertificationRunnerComponents : Type := mkVerifiedComponents {
  components_approved : LocallyApprovedCertificationRunner;
  components_descriptors : Descriptors;
  components_artifacts : ArtifactSets;
  components_descriptor_set_digest : Sha256Digest;
  components_artifact_count : Z;
  components_total_artifact_bytes : Z
}.

(** The guard of the runner policy is held while the components are verified. *)
Definition verify_certification_runner_components (heap : Heap) (approved : LocallyApprovedCertificationRunner)
    (descriptors : Descriptors) (artifacts : ArtifactSets)
    (limits : CertificationRunnerComponentVerificationLimits) :
    result VerifiedCertificationRunnerComponents VerificationError :=
  let? summary := result_bind (map_err Component_Policy
    (commit_while_policy_current heap (approved_decision approved)
       (λ s, (verify_component_inputs (approved_identity approved) descriptors artifacts limits, s)) tt).1) id in
  Ok (mkVerifiedComponents approved descriptors artifacts (summary_descriptor_set_digest summary)
        (summary_artifact_count summary) (summary_total_artifact_bytes summary)).
End Runner.
