(* ===== verification/CertifyLaws.v ===== *)
(** * CertifyLaws: what local certification promises

    The verification of artifact bytes is exact, an evidence document never refers
    to more artifacts than the index reserved for it, the digest of an artifact set
    determines the set, a class is assigned exactly under a matching current
    policy, and the stores of publications are bounded, grow only and never hold a
    publication twice. *)

From S2P Require Import Prelude Text Wire Evidence Policy Certify.

(** ** The references of an evidence document *)

Lemma artifact_ref_le_total a b : artifact_ref_le a b = true ∨ artifact_ref_le b a = true.
Proof.
  unfold artifact_ref_le. destruct (Z.lt_trichotomy (artifact_kind_index (ref_kind a)) (artifact_kind_index (ref_kind b))) as [H|[H|H]].
  - left. by rewrite (proj2 (Z.ltb_lt _ _) H).
  - rewrite H, Z.eqb_refl, !andb_true_l, !orb_true_iff. destruct (str_le_total (ref_digest a) (ref_digest b)); auto.
  - right. by rewrite (proj2 (Z.ltb_lt _ _) H).
Qed.

Lemma artifact_ref_le_trans a b c : artifact_ref_le a b = true → artifact_ref_le b c = true → artifact_ref_le a c = true.
Proof.
  unfold artifact_ref_le. rewrite !orb_true_iff, !andb_true_iff, !Z.ltb_lt, !Z.eqb_eq.
  intros [H1|[H1 H2]] [H3|[H3 H4]]; [left; lia..|right; split; [lia|by eapply str_le_trans]].
Qed.

Lemma artifact_ref_le_antisymm a b : artifact_ref_le a b = true → artifact_ref_le b a = true → a = b.
Proof.
  unfold artifact_ref_le. rewrite !orb_true_iff, !andb_true_iff, !Z.ltb_lt, !Z.eqb_eq.
  intros [H1|[H1 H2]] [H3|[H3 H4]]; [lia..|]. destruct a as [ka da], b as [kb db]. cbn in *.
  apply (f_equal artifact_kind_of_index) in H1. rewrite !artifact_kind_of_index_of in H1. subst kb.
  f_equal. by apply str_le_antisymm.
Qed.

Lemma elem_of_dedup_references l r : r ∈ dedup_references l ↔ r ∈ l.
Proof.
  induction l as [|a [|b l] IH]; [done|done|].
  change (dedup_references (a :: b :: l)) with (if bool_decide (a = b) then dedup_references (b :: l) else a :: dedup_references (b :: l)).
  case_bool_decide as Hab; [subst b|]; rewrite ?elem_of_cons, IH, ?elem_of_cons; tauto.
Qed.

Lemma elem_of_expected_references evidence r :
  r ∈ expected_references evidence ↔ ∃ a, a ∈ all_assessments evidence ∧ r ∈ assessment_evidence a.
Proof.
  unfold expected_references, artifact_references. rewrite elem_of_dedup_references, merge_sort_Permutation, list_elem_of_In, in_concat.
  split.
  - setoid_rewrite <-list_elem_of_In. intros (l & (a & -> & Ha)%list_elem_of_fmap & Hr). exists a. split; [done|].
    unfold set_iter in Hr. by rewrite merge_sort_Permutation, elem_of_elements in Hr.
  - intros (a & Ha & Hr). exists (set_iter (assessment_evidence a)). rewrite <-!list_elem_of_In. split; [apply list_elem_of_fmap; by exists a|].
    unfold set_iter. by rewrite merge_sort_Permutation, elem_of_elements.
Qed.

(** The references a document makes, as a set. *)
Definition referenced (evidence : CertificationEvidence) : gset CertificationArtifactRef :=
  list_to_set (expected_references evidence).

Lemma all_assessments_bound evidence :
  evidence_ok evidence →
  len (all_assessments evidence) <= CERTIFICATION_FIXED_CHECK_COUNT + MAX_CERTIFICATION_WORKFLOWS ∧
  Forall (λ a, Z.of_nat (size (assessment_evidence a)) <= MAX_CERTIFICATION_EVIDENCE_REFS) (all_assessments evidence).
Proof.
  intros (Hc & Hw & Hs). unfold all_assessments, workflow_assessments. split.
  - rewrite len_app. change (len (assessments (evidence_checks evidence))) with CERTIFICATION_FIXED_CHECK_COUNT.
    unfold len. rewrite length_fmap, (Permutation_length (btree_iter_perm _ _)), length_map_to_list.
    by apply Z.add_le_mono_l.
  - apply Forall_app. split; [eapply Forall_impl; [exact Hc|]; by intros a [? _]|].
    apply Forall_forall. intros a ([f a'] & -> & Hin%elem_of_btree_iter)%list_elem_of_fmap. by destruct (Hw f a' Hin).
Qed.

Lemma dedup_references_length l : len (dedup_references l) <= len l.
Proof.
  induction l as [|a [|b l] IH]; [done|done|].
  change (dedup_references (a :: b :: l)) with (if bool_decide (a = b) then dedup_references (b :: l) else a :: dedup_references (b :: l)).
  case_bool_decide; rewrite ?len_cons in *; lia.
Qed.

Lemma artifact_references_bound evidence :
  evidence_ok evidence →
  len (artifact_references evidence) <= MAX_CERTIFICATION_ARTIFACT_REFERENCES ∧
  len (expected_references evidence) <= MAX_CERTIFICATION_ARTIFACT_REFERENCES ∧
  Z.of_nat (size (referenced evidence)) <= MAX_CERTIFICATION_ARTIFACT_REFERENCES.
Proof.
  intros (Hn & Hf)%all_assessments_bound.
  assert (H1 : len (artifact_references evidence) <= MAX_CERTIFICATION_ARTIFACT_REFERENCES).
  { unfold artifact_references, MAX_CERTIFICATION_ARTIFACT_REFERENCES.
    assert (Hl : len (concat (map (λ a, set_iter (assessment_evidence a)) (all_assessments evidence)))
                 <= len (all_assessments evidence) * MAX_CERTIFICATION_EVIDENCE_REFS).
    { clear Hn. induction Hf as [|a l Ha _ IH]; cbn [map concat]; [done|]. rewrite len_app, len_cons.
      assert (len (set_iter (assessment_evidence a)) = Z.of_nat (size (assessment_evidence a))) as ->.
      { unfold set_iter, len. by rewrite (Permutation_length (merge_sort_Permutation _ _)). }
      lia. }
    assert (0 <= MAX_CERTIFICATION_EVIDENCE_REFS) by (by vm_compute). nia. }
  assert (H2 : len (expected_references evidence) <= len (artifact_references evidence)).
  { unfold expected_references. etransitivity; [apply dedup_references_length|]. unfold len.
    by rewrite (Permutation_length (merge_sort_Permutation _ _)). }
  split_and!; [done|lia|]. unfold referenced.
  pose proof (size_list_to_set_le (expected_references evidence)) as H3. unfold len in *. lia.
Qed.

(** the index of references is large enough.  A well-formed evidence document
    makes at most [(13 + 128) * 64] references, so the reserved index is never
    outgrown and a byte map that covers the document is never refused as too
    large. *)
Theorem artifact_references_bounded evidence :
  evidence_ok evidence →
  len (artifact_references evidence) <= MAX_CERTIFICATION_ARTIFACT_REFERENCES ∧
  len (expected_references evidence) <= MAX_CERTIFICATION_ARTIFACT_REFERENCES ∧
  Z.of_nat (size (referenced evidence)) <= MAX_CERTIFICATION_ARTIFACT_REFERENCES.
Proof. apply artifact_references_bound. Qed.

(** ** Verification of artifact bytes *)

Lemma check_references_Ok l present error :
  check_references l present error = Ok tt ↔ Forall (λ r, present r = true) l.
Proof.
  induction l as [|r l IH]; cbn [check_references]; [by rewrite Forall_nil|].
  rewrite Forall_cons, <-IH. destruct (present r); cbn; intuition congruence.
Qed.

Lemma sum_artifact_bytes_Ok l limits t n :
  0 <= t <= aggregate limits → aggregate limits <= usize_max →
  sum_artifact_bytes l limits t = Ok n ↔
    Forall (λ x, len x.2 <= per_artifact limits) l ∧ n = t + sum_lengths (map (λ x, len x.2) l) ∧ n <= aggregate limits.
Proof.
  intros Ht Hu. revert t Ht. induction l as [|[r bs] l IH]; intros t Ht; cbn [sum_artifact_bytes map].
  { unfold sum_lengths. cbn. split; [intros [= <-]; split_and!; [done|lia|lia]|intros (_ & -> & _); f_equal; lia]. }
  rewrite Forall_cons. change (sum_lengths (len (r, bs).2 :: map (λ x, len x.2) l)) with (len bs + sum_lengths (map (λ x : CertificationArtifactRef * bytes, len x.2) l)).
  pose proof (len_nonneg bs). pose proof (sum_lengths_nonneg (map (λ x : CertificationArtifactRef * bytes, len x.2) l)
    ltac:(apply Forall_map, Forall_true; intros; apply len_nonneg)).
  cbn [snd]. destruct (Z.ltb_spec (per_artifact limits) (len bs)); cbn [reject result_bind]; [split; [done|intros ([? _] & _); lia]|].
  destruct (checked_add usize_max t (len bs)) as [t'|] eqn:Et; cbn [ok_or result_bind].
  - apply checked_add_Some in Et as [-> Hle].
    destruct (Z.ltb_spec (aggregate limits) (t + len bs)); cbn [reject result_bind]; [split; [done|lia]|].
    rewrite IH by lia. split; [intros (? & -> & ?); split_and!; [done|done|lia|lia]|intros ([_ ?] & -> & ?); split_and!; [done|lia|lia]].
  - split; [done|]. intros (_ & -> & Hle). exfalso.
    assert (checked_add usize_max t (len bs) = Some (t + len bs)); [|congruence].
    apply checked_add_Some. split; [done|lia].
Qed.

Lemma check_artifact_digests_Ok `{Sha256} l :
  check_artifact_digests l = Ok tt ↔ Forall (λ x, sha256 x.2 = ref_digest x.1) l.
Proof.
  induction l as [|[r bs] l IH]; cbn [check_artifact_digests]; [by rewrite Forall_nil|].
  rewrite Forall_cons, <-IH. cbn [fst snd]. case_bool_decide; cbn; intuition congruence.
Qed.

Lemma artifact_iter_Forall (P : CertificationArtifactRef * bytes → Prop) (m : ArtifactMap) :
  Forall P (artifact_iter m) ↔ map_Forall (λ r bs, P (r, bs)) m.
Proof.
  rewrite Forall_forall. unfold artifact_iter. split.
  - intros H r bs Hr. by apply H, elem_of_btree_iter.
  - intros H [r bs] Hin%elem_of_btree_iter. by apply H.
Qed.

(** The aggregate of a map does not depend on the order of its entries. *)
Definition map_bytes (m : ArtifactMap) : Z := sum_lengths (map (λ x, len x.2) (artifact_iter m)).

(** The limits a caller can hold. *)
Definition limits_within (limits : CertificationArtifactVerificationLimits) : Prop :=
  0 < aggregate limits <= MAX_TOTAL_CERTIFICATION_ARTIFACT_BYTES.

Lemma verification_limits_new_within a t limits :
  0 <= t → verification_limits_new a t = Ok limits → limits_within limits.
Proof.
  unfold verification_limits_new, limits_within. intros Ht0 H. apply result_bind_Ok in H as (_ & [Ha Ht]%reject_Ok%orb_false_iff & H).
  apply result_bind_Ok in H as (_ & [Ha' Ht']%reject_Ok%orb_false_iff & [= <-]). cbn [aggregate].
  rewrite Z.eqb_neq in Ht. rewrite Z.ltb_ge in Ht'. lia.
Qed.

Lemma verify_certification_artifacts_Ok `{Sha256} `{Alloc : Allocator} sv artifacts limits v :
  ample Alloc → evidence_ok (validated_evidence sv) → limits_within limits →
  verify_certification_artifacts sv artifacts limits = Ok v ↔
    dom artifacts = referenced (validated_evidence sv) ∧
    map_Forall (λ r bs, len bs <= per_artifact limits ∧ sha256 bs = ref_digest r) artifacts ∧
    map_bytes artifacts <= aggregate limits ∧ v = mkVerifiedArtifacts sv artifacts (map_bytes artifacts).
Proof.
  intros Ha He [Hl1 Hl2]. pose proof (artifact_references_bound _ He) as (_ & _ & Hb).
  set (ev := validated_evidence sv) in *. unfold verify_certification_artifacts. rewrite Ha. fold ev.
  assert (Hu : aggregate limits <= usize_max) by (etransitivity; [exact Hl2|by vm_compute]).
  assert (Hmiss : Forall (λ r, bool_decide (is_Some (artifacts !! r)) = true) (expected_references ev) ↔
                  referenced ev ⊆ dom artifacts).
  { rewrite Forall_forall. setoid_rewrite bool_decide_eq_true. unfold referenced. split.
    - intros Hx r Hr%elem_of_list_to_set. apply elem_of_dom. by apply Hx.
    - intros Hx r Hr. apply elem_of_dom, Hx. by apply elem_of_list_to_set. }
  assert (Hun : Forall (λ r, bool_decide (r ∈ expected_references ev) = true) (artifact_iter artifacts).*1 ↔
                dom artifacts ⊆ referenced ev).
  { rewrite Forall_fmap, (artifact_iter_Forall _ artifacts). unfold compose, referenced. cbn. split.
    - intros Hx r [bs Hr]%elem_of_dom. apply elem_of_list_to_set. by specialize (Hx _ _ Hr) as Hx'%bool_decide_eq_true.
    - intros Hx r bs Hr. apply bool_decide_eq_true. apply (elem_of_list_to_set (C := gset CertificationArtifactRef)), Hx, elem_of_dom. by eexists. }
  assert (Hsum := sum_artifact_bytes_Ok (artifact_iter artifacts) limits 0).
  split.
  - intros Hr. apply result_bind_Ok in Hr as (_ & _ & Hr). apply result_bind_Ok in Hr as (_ & _ & Hr).
    apply result_bind_Ok in Hr as ([] & H1%check_references_Ok%Hmiss & Hr).
    apply result_bind_Ok in Hr as ([] & H2%check_references_Ok%Hun & Hr).
    apply result_bind_Ok in Hr as (n & H3%Hsum & Hr); [|lia..].
    apply result_bind_Ok in Hr as ([] & H4%check_artifact_digests_Ok & [= <-]).
    destruct H3 as (H3 & -> & Hagg). pose proof (proj1 (artifact_iter_Forall _ _) H3) as H3'. pose proof (proj1 (artifact_iter_Forall _ _) H4) as H4'. unfold map_bytes. rewrite Z.add_0_l in *.
    split_and!; [by apply set_eq_subseteq| |done|done]. intros r bs Hr. split; [exact (H3' r bs Hr)|exact (H4' r bs Hr)].
  - intros (Hd & Hf & Hagg & ->).
    assert (Hlen : map_len artifacts <= MAX_CERTIFICATION_ARTIFACT_REFERENCES).
    { unfold map_len. rewrite <-size_dom, Hd. exact Hb. }
    rewrite (proj2 (Z.ltb_ge _ _) Hlen). cbn [reject result_bind negb].
    rewrite (proj2 (check_references_Ok _ _ _) (proj2 Hmiss ltac:(by rewrite Hd))). cbn [result_bind].
    rewrite (proj2 (check_references_Ok _ _ _) (proj2 Hun ltac:(by rewrite Hd))). cbn [result_bind].
    rewrite (proj2 (Hsum (map_bytes artifacts) ltac:(lia) Hu)).
    2: { split_and!; [|done|done]. apply (proj2 (artifact_iter_Forall _ _)). intros r bs Hr. by apply Hf in Hr as [? _]. }
    cbn [result_bind]. rewrite (proj2 (check_artifact_digests_Ok _)); [done|].
    apply (proj2 (artifact_iter_Forall _ _)). intros r bs Hr. by apply Hf in Hr as [_ ?].
Qed.

(** the verification of artifact bytes is exact.  For a well-formed document
    and limits under the ceilings it succeeds exactly when the byte map covers the
    document's references and nothing else, every artifact and their total are
    within the limits, and every artifact hashes to the digest it is named by; the
    proof then carries the document, the very bytes and their total. *)
Theorem verify_certification_artifacts_exact `{Sha256} `{Alloc : Allocator} sv artifacts limits v :
  ample Alloc → evidence_ok (validated_evidence sv) → limits_within limits →
  verify_certification_artifacts sv artifacts limits = Ok v ↔
    dom artifacts = referenced (validated_evidence sv) ∧
    map_Forall (λ r bs, len bs <= per_artifact limits ∧ sha256 bs = ref_digest r) artifacts ∧
    map_bytes artifacts <= aggregate limits ∧ v = mkVerifiedArtifacts sv artifacts (map_bytes artifacts).
Proof. apply verify_certification_artifacts_Ok. Qed.

(** ** The digest of an artifact set *)

Lemma concat_fixed_inj {A} (n : nat) (l1 l2 : list (list A)) :
  (0 < n)%nat → Forall (λ x, length x = n) l1 → Forall (λ x, length x = n) l2 → concat l1 = concat l2 → l1 = l2.
Proof.
  intros Hn H1. revert l2. induction H1 as [|x l1 Hx _ IH]; intros l2 H2 Heq; destruct H2 as [|y l2 Hy H2].
  - done.
  - cbn in Heq. apply (f_equal length) in Heq. rewrite length_app in Heq. cbn in Heq. lia.
  - cbn in Heq. apply (f_equal length) in Heq. rewrite length_app in Heq. cbn in Heq. lia.
  - cbn in Heq. apply app_inj_1 in Heq as [-> Heq]; [|congruence]. f_equal. by apply IH.
Qed.

(** The digests of the keys are digests. *)
Definition keys_typed (m : ArtifactMap) : Prop := map_Forall (λ r _, length (ref_digest r) = 32%nat) m.

Lemma artifact_kind_tag_inj k k' : byte_of (artifact_kind_tag k) = byte_of (artifact_kind_tag k') → k = k'.
Proof. by destruct k, k'. Qed.

Lemma elem_of_artifact_keys (m : ArtifactMap) r : r ∈ btree_keys artifact_ref_le m ↔ r ∈ dom m.
Proof.
  unfold btree_keys. rewrite list_elem_of_fmap, elem_of_dom. split.
  - intros ([r' bs] & -> & Hin%elem_of_btree_iter). by eexists.
  - intros [bs Hr]. exists (r, bs). split; [done|]. by apply elem_of_btree_iter.
Qed.

(** the digest of an artifact set identifies the set.  Two sets of typed
    references with the same digest are the same set, unless the byte strings
    hashed for the two differ and have the same SHA-256. *)
Theorem artifact_set_digest_identifies `{CertifyJson} `{Sha256} v1 v2 d :
  keys_typed (verified_map v1) → keys_typed (verified_map v2) →
  certification_artifact_set_digest v1 = Ok d → certification_artifact_set_digest v2 = Ok d →
  dom (verified_map v1) = dom (verified_map v2) ∨
  (artifact_set_preimage (verified_map v1) ≠ artifact_set_preimage (verified_map v2) ∧
   sha256 (artifact_set_preimage (verified_map v1)) = sha256 (artifact_set_preimage (verified_map v2))).
Proof.
  unfold certification_artifact_set_digest. intros Ht1 Ht2 H1 H2.
  apply result_bind_Ok in H1 as (_ & _ & [= <-]). apply result_bind_Ok in H2 as (_ & _ & [= Heq]).
  destruct (decide (artifact_set_preimage (verified_map v1) = artifact_set_preimage (verified_map v2))) as [Hp|Hne].
  2: { by right. }
  left. unfold artifact_set_preimage in Hp. apply app_inj_1 in Hp as [_ Hp]; [|done].
  apply app_inj_1 in Hp as [_ Hp]; [|by rewrite !le_bytes_length].
  assert (Hf : ∀ m, keys_typed m → Forall (λ x : bytes, length x = 33%nat)
    (map (λ r, byte_of (artifact_kind_tag (ref_kind r)) :: ref_digest r) (btree_keys artifact_ref_le m))).
  { intros m Hm. apply Forall_map, Forall_forall. intros r [bs Hr]%elem_of_artifact_keys%elem_of_dom. cbn. by rewrite (Hm r bs Hr). }
  apply (concat_fixed_inj 33) in Hp; [|lia|by apply Hf..].
  assert (Hk : btree_keys artifact_ref_le (verified_map v1) = btree_keys artifact_ref_le (verified_map v2)).
  { revert Hp. generalize (btree_keys artifact_ref_le (verified_map v1)) (btree_keys artifact_ref_le (verified_map v2)).
    intros l1. induction l1 as [|[k1 d1] l1 IH]; intros [|[k2 d2] l2] Hm; try done. cbn in Hm. injection Hm as Hk -> Hm.
    f_equal; [|by apply IH]. f_equal. by apply artifact_kind_tag_inj. }
  apply set_eq. intros r. by rewrite <-!elem_of_artifact_keys, Hk.
Qed.

(** ** Assigning a class *)

(** What a policy demands of verified artifacts. *)
Definition meets_policy `{CertifyJson} `{Sha256} (p : LocalCertificationPolicy) (v : VerifiedCertificationArtifacts) : Prop :=
  let profile := validated_profile (structural_validation v) in
  let evidence := validated_evidence (structural_validation v) in
  disposition evidence = Disposition_Complete ∧
  profile_canonical_document_digest profile_to_vec profile = Ok (local_profile_digest p) ∧
  evidence_profile_digest evidence = local_profile_digest p ∧ evidence_target evidence = local_target p ∧
  evidence_canonical_document_digest evidence_to_vec evidence = Ok (local_evidence_digest p) ∧
  trusted_class_for_profile (profile_class profile) = approved_class p.

Lemma assign_local_certification_Ok `{CertifyJson} `{Sha256} heap heap' verified a c :
  assign_local_certification heap heap' verified a = Ok c ↔
    ∃ p g, c = mkLocallyCertified verified p g a ∧ meets_policy p verified ∧
      current heap (certified_decision c) ∧ current heap' (certified_decision c).
Proof.
  unfold assign_local_certification, meets_policy. split.
  - intros Hr. apply result_bind_Ok in Hr as (store & Hs%ok_or_Ok & Hr). apply result_bind_Ok in Hr as (snap & Hsnap & Hr).
    unfold snapshot, lock_guard in Hsnap. apply result_bind_Ok in Hsnap as (_ & Hpois%reject_Ok & [= <-]).
    apply result_bind_Ok in Hr as (_ & Hrev%reject_Ok%bool_decide_eq_false%eq_None_not_Some & Hr).
    apply result_bind_Ok in Hr as (_ & Hd%reject_Ok%bool_decide_eq_false%dec_stable & Hr).
    apply result_bind_Ok in Hr as (pd & Hpd%map_err_Ok & Hr).
    apply result_bind_Ok in Hr as (_ & Hp1%reject_Ok%bool_decide_eq_false%dec_stable & Hr).
    apply result_bind_Ok in Hr as (_ & Hp2%reject_Ok%bool_decide_eq_false%dec_stable & Hr).
    apply result_bind_Ok in Hr as (_ & Ht%reject_Ok%bool_decide_eq_false%dec_stable & Hr).
    apply result_bind_Ok in Hr as (ed & Hed%map_err_Ok & Hr).
    apply result_bind_Ok in Hr as (_ & He%reject_Ok%bool_decide_eq_false%dec_stable & Hr).
    apply result_bind_Ok in Hr as (_ & Hc%reject_Ok%bool_decide_eq_false%dec_stable & Hr).
    apply result_bind_Ok in Hr as ([] & Hv%verify_current_Ok & [= <-]).
    destruct store as [pz [g p r]]. cbn in *. subst. exists p, g. split_and!; try done.
    unfold current, upgrade in *. cbn. by destruct (heap !! a) as [[l|]|]; [injection Hs as ->| |].
  - intros (p & g & -> & (Hd & Hpd & Hp & Ht & Hed & Hc) & Hcur & Hcur').
    unfold current in Hcur. cbn in Hcur. unfold upgrade. rewrite Hcur. cbn [ok_or result_bind snapshot lock_guard].
    unfold snapshot, lock_guard. cbn [lock_poisoned lock_state reject result_bind revocation_evidence_digest].
    rewrite bool_decide_eq_false_2 by (by intros [? ?]). cbn [reject result_bind policy generation].
    rewrite (bool_decide_eq_false_2 (disposition _ ≠ _)) by auto. cbn [reject result_bind].
    rewrite Hpd. cbn [map_err result_bind]. rewrite !bool_decide_eq_false_2 by auto. cbn [reject result_bind].
    rewrite Hed. cbn [map_err result_bind]. rewrite !bool_decide_eq_false_2 by auto. cbn [reject result_bind].
    unfold certified_verify_current_policy. by rewrite (proj2 (verify_current_Ok _ _) Hcur').
Qed.

(** a class is assigned exactly under a matching, current policy.  The call
    succeeds exactly when one policy, unrevoked and unpoisoned, was the store's at
    the snapshot and still is at the recheck, the evidence is complete, and the
    profile, the evidence, the target and the class are those the policy pins; the
    class then reported is the one declared by the profile, and it is reported only
    as long as that policy stays current. *)
Theorem assign_local_certification_exact `{CertifyJson} `{Sha256} heap heap' verified a c :
  (assign_local_certification heap heap' verified a = Ok c ↔
     ∃ p g, c = mkLocallyCertified verified p g a ∧ meets_policy p verified ∧
       current heap (certified_decision c) ∧ current heap' (certified_decision c)) ∧
  (∀ later class, assign_local_certification heap heap' verified a = Ok c →
     current_class later c = Ok class ↔
       current later (certified_decision c) ∧
       class = trusted_class_for_profile (profile_class (validated_profile (structural_validation verified)))).
Proof.
  split; [apply assign_local_certification_Ok|].
  intros later class (p & g & -> & (_ & _ & _ & _ & _ & Hc) & _)%assign_local_certification_Ok.
  unfold current_class, certified_verify_current_policy. rewrite result_bind_Ok. setoid_rewrite <-verify_current_Ok. split.
  - intros ([] & Hv & [= <-]). by rewrite Hc.
  - intros (Hv & ->). exists tt. split; [exact Hv|]. by rewrite Hc.
Qed.

(** ** The stores of publications *)

Section Store.
Context {R E : Type} `{EqDecision R} `{StoreErrors E} `{Alloc : Allocator}.

Definition publication_store_ok (s : PublicationStore R) : Prop :=
  NoDup (publications s) ∧ len (publications s) <= max_publications s <= MAX_LOCAL_CERTIFICATION_PUBLICATIONS.

Lemma publication_store_new_ok n s : 0 <= n → publication_store_new (E := E) n = Ok s → publication_store_ok s ∧ publications s = [].
Proof.
  unfold publication_store_new. intros Hn Hr. apply result_bind_Ok in Hr as (_ & _ & Hr).
  apply result_bind_Ok in Hr as (_ & Hm%reject_Ok%Z.ltb_ge & [= <-]). split; [|done]. split; [constructor|].
  cbn. change (len (@nil R)) with 0. lia.
Qed.

(** What one commit does. *)
Lemma commit_publication_run (pub : R) s :
  (publications_poisoned s = false ∧ pub ∈ publications s ∧ commit_publication pub s = (Ok pub, s)) ∨
  (publications_poisoned s = false ∧ (pub ∉ publications s) ∧ len (publications s) < max_publications s ∧
   commit_publication pub s = (Ok pub, mkPublicationStore (max_publications s) false (publications s ++ [pub]))) ∨
  (∃ e, commit_publication pub s = (Err e, s) ∧ (publications_poisoned s = false → pub ∉ publications s)).
Proof.
  unfold commit_publication, mut_bind, mut_get, mut_lift, mut_put, mut_ret.
  destruct (publications_poisoned s) eqn:Hp; cbn [reject]; [right; right; by eexists|].
  destruct (find _ _) as [existing|] eqn:Hf.
  - apply find_some in Hf as [Hin%list_elem_of_In <-%bool_decide_eq_true]. by left.
  - assert (Hn : pub ∉ publications s).
    { intros Hin%list_elem_of_In. pose proof (find_none _ _ Hf _ Hin) as Hx. by apply bool_decide_eq_false in Hx. }
    right. destruct (Z.leb_spec (max_publications s) (len (publications s))); cbn [reject]; [right; by eexists|].
    destruct (Alloc 1); cbn [negb reject]; [left|right; by eexists]. by split_and!.
Qed.

Lemma commit_publication_effect (pub : R) s outcome s' :
  publication_store_ok s → commit_publication pub s = (outcome, s') →
  publication_store_ok s' ∧ publications s `prefix_of` publications s' ∧
  match outcome with
  | Ok r => r = pub ∧ pub ∈ publications s' ∧
      (s' = s ∨ publications s' = publications s ++ [pub] ∧ (pub ∉ publications s))
  | Err _ => s' = s ∧ (publications_poisoned s = false → pub ∉ publications s)
  end.
Proof.
  intros Hok Hr. pose proof Hok as [Hnd Hlen].
  destruct (commit_publication_run pub s) as [(_ & Hin & Hc)|[(_ & Hn & Hlt & Hc)|(e & Hc & Hn)]];
    rewrite Hc in Hr; injection Hr as <- <-.
  - split_and!; [done|done|done|done|by left].
  - unfold publication_store_ok. cbn [publications max_publications]. split_and!.
    + apply NoDup_app. split_and!; [done| |apply NoDup_singleton]. by intros x Hx ->%list_elem_of_singleton.
    + rewrite len_app. change (len [pub]) with 1. lia.
    + lia.
    + by eexists.
    + done.
    + apply elem_of_app. right. by apply list_elem_of_singleton.
    + by right.
  - by split_and!.
Qed.

(** the stores are bounded, append-only and free of duplicates.  Committing
    never removes or reorders a publication, hands back exactly what was
    committed, converges when it was already there, never exceeds the bound, and
    changes nothing when it fails. *)
Theorem commit_publication_invariant (pub : R) s outcome s' :
  publication_store_ok s → commit_publication pub s = (outcome, s') →
  publication_store_ok s' ∧ publications s `prefix_of` publications s' ∧
  match outcome with
  | Ok r => r = pub ∧ pub ∈ publications s' ∧
      (s' = s ∨ publications s' = publications s ++ [pub] ∧ (pub ∉ publications s))
  | Err _ => s' = s ∧ (publications_poisoned s = false → pub ∉ publications s)
  end.
Proof. apply commit_publication_effect. Qed.
End Store.
