(* ===== verification/RunnerLaws.v ===== *)
(** * RunnerLaws: component verification is exact

    The verification of a runner's components succeeds exactly when every role of
    the identity is covered by a descriptor with the digest the identity names and
    by exactly the artifacts the descriptor names; the digest of the descriptor set
    is a function of the identity alone. *)

From stdpp Require Import finite.
From S2P Require Import Prelude Text Wire Evidence ControlPlane Policy Runner.

Lemma descriptor_iter_elem (s : gset CertificationRunnerComponentArtifact) a : a ∈ component_artifact_iter s ↔ a ∈ s.
Proof. unfold component_artifact_iter. by rewrite merge_sort_Permutation, elem_of_elements. Qed.

Section Laws.
Context `{RJ : RunnerJson} `{HS : Sha256}.
Abbreviation Descriptors := (gmap CertificationRunnerComponentRole CertificationRunnerComponentDescriptor).
Abbreviation Supplied := (gmap CertificationRunnerArtifactName bytes).
Abbreviation ArtifactSets := (gmap CertificationRunnerComponentRole Supplied).

(** The bytes a descriptor accounts for. *)
Definition component_bytes (d : CertificationRunnerComponentDescriptor) : Z :=
  sum_lengths (map artifact_size_bytes (component_artifact_iter (descriptor_artifacts d))).
Definition role_bytes (descriptors : Descriptors) (role : CertificationRunnerComponentRole) : Z :=
  match descriptors !! role with Some d => component_bytes d | None => 0 end.
Definition role_count (artifacts : ArtifactSets) (role : CertificationRunnerComponentRole) : Z :=
  match artifacts !! role with Some s => map_len (K := CertificationRunnerArtifactName) s | None => 0 end.

(** One artifact, as its descriptor has it. *)
Definition artifact_fits (limits : CertificationRunnerComponentVerificationLimits) (supplied : Supplied)
    (a : CertificationRunnerComponentArtifact) : Prop :=
  ∃ bs, supplied !! artifact_name a = Some bs ∧ len bs = artifact_size_bytes a ∧ len bs <= artifact_limit limits.
Definition artifact_authentic (supplied : Supplied) (a : CertificationRunnerComponentArtifact) : Prop :=
  ∃ bs, supplied !! artifact_name a = Some bs ∧ sha256 bs = component_artifact_digest a.

(** One role: its descriptor is the identity's, and its artifacts are the
    descriptor's. *)
Definition role_conforms (identity : CertificationRunnerIdentity)
    (limits : CertificationRunnerComponentVerificationLimits) (descriptors : Descriptors) (artifacts : ArtifactSets)
    (role : CertificationRunnerComponentRole) : Prop :=
  ∃ d supplied, descriptors !! role = Some d ∧ artifacts !! role = Some supplied ∧ descriptor_role d = role ∧
    (∃ bs, descriptor_to_vec d = Ok bs ∧ len bs <= descriptor_limit limits ∧
           sha256 bs = identity_descriptor_digest identity role) ∧
    (∀ name, name ∈ dom supplied ↔ ∃ a, a ∈ descriptor_artifacts d ∧ artifact_name a = name) ∧
    (∀ a, a ∈ descriptor_artifacts d → artifact_fits limits supplied a).
Definition role_authentic (descriptors : Descriptors) (artifacts : ArtifactSets)
    (role : CertificationRunnerComponentRole) : Prop :=
  ∃ d supplied, descriptors !! role = Some d ∧ artifacts !! role = Some supplied ∧
    ∀ a, a ∈ descriptor_artifacts d → artifact_authentic supplied a.

Lemma check_roles_Ok (roles : list CertificationRunnerComponentRole) (descriptors : Descriptors) (artifacts : ArtifactSets) :
  check_roles roles descriptors artifacts = Ok tt ↔
    Forall (λ role, is_Some (descriptors !! role) ∧ is_Some (artifacts !! role)) roles.
Proof.
  induction roles as [|role roles IH]; cbn [check_roles]; [by rewrite Forall_nil|].
  rewrite Forall_cons, <-IH, <-!not_eq_None_Some. do 2 case_bool_decide; cbn; intuition congruence.
Qed.

(** The eleven roles are all there are, so a map that covers them has that many
    keys: the two counts are never refused. *)
Lemma check_role_count_Ok {V} (m : gmap CertificationRunnerComponentRole V) unexpected e :
  (∀ role, is_Some (m !! role)) → check_role_count m unexpected e = Ok tt.
Proof.
  intros H. unfold check_role_count. assert (map_len m = RUNNER_COMPONENT_ROLE_COUNT) as ->; [|done].
  unfold map_len. rewrite <-size_dom. assert (dom m = list_to_set runner_roles) as ->.
  { apply set_eq. intros role. rewrite elem_of_dom, elem_of_list_to_set. split; [intros _; apply runner_roles_complete|done]. }
  rewrite size_list_to_set by apply runner_roles_NoDup. done.
Qed.

Lemma check_supplied_Ok (role : CertificationRunnerComponentRole) (expected : list CertificationRunnerComponentArtifact) (supplied : Supplied) :
  check_supplied role expected supplied = Ok tt ↔ Forall (λ a, artifact_name a ∈ dom supplied) expected.
Proof.
  induction expected as [|a expected IH]; cbn [check_supplied]; [by rewrite Forall_nil|].
  rewrite Forall_cons, <-IH, elem_of_dom, <-not_eq_None_Some. case_bool_decide; cbn; intuition congruence.
Qed.

Lemma check_unexpected_Ok (role : CertificationRunnerComponentRole) (names : list CertificationRunnerArtifactName) (expected : list CertificationRunnerComponentArtifact) :
  check_unexpected role names expected = Ok tt ↔ Forall (λ name, ∃ a, a ∈ expected ∧ artifact_name a = name) names.
Proof.
  induction names as [|name names IH]; cbn [check_unexpected]; [by rewrite Forall_nil|].
  rewrite Forall_cons, <-IH. destruct (existsb _ expected) eqn:E; cbn.
  - apply existsb_exists in E as (a & Hin%list_elem_of_In & Ha%bool_decide_eq_true). split; [intros H; split; [by exists a|done]|by intros [_ H]].
  - split; [done|]. intros [(a & Hin%list_elem_of_In & Ha) _]. assert (existsb (λ a, bool_decide (artifact_name a = name)) expected = true); [|congruence].
    apply existsb_exists. exists a. split; [done|]. by apply bool_decide_eq_true.
Qed.

Lemma measure_artifacts_Ok (role : CertificationRunnerComponentRole) (expected : list CertificationRunnerComponentArtifact) (supplied : Supplied) limits t n :
  0 <= t <= aggregate_limit limits → aggregate_limit limits <= usize_max → artifact_limit limits <= usize_max →
  measure_artifacts role expected supplied limits t = Ok n ↔
    Forall (artifact_fits limits supplied) expected ∧ n = t + sum_lengths (map artifact_size_bytes expected) ∧
    n <= aggregate_limit limits.
Proof.
  intros Ht Hu Hu2. revert t Ht. induction expected as [|a expected IH]; intros t Ht; cbn [measure_artifacts map].
  { unfold sum_lengths. cbn. split; [intros [= <-]; split_and!; [done|lia|lia]|intros (_ & -> & _); f_equal; lia]. }
  rewrite Forall_cons. change (sum_lengths (artifact_size_bytes a :: map artifact_size_bytes expected))
    with (artifact_size_bytes a + sum_lengths (map artifact_size_bytes expected)). unfold artifact_fits at 1.
  destruct (supplied !! artifact_name a) as [bs|]; cbn [ok_or result_bind].
  2: { split; [done|]. by intros ([(bs & ? & _) _] & _). }
  pose proof (len_nonneg bs).
  destruct (Z.ltb_spec (artifact_limit limits) (len bs)); cbn [reject result_bind].
  { split; [done|]. intros ([(bs' & [= <-] & _ & ?) _] & _). lia. }
  destruct (Z.ltb_spec usize_max (artifact_size_bytes a)); cbn [reject result_bind].
  { split; [done|]. intros ([(bs' & [= <-] & ? & ?) _] & _). lia. }
  destruct (Z.eqb_spec (len bs) (artifact_size_bytes a)) as [Hs|]; cbn [negb reject result_bind].
  2: { split; [done|]. by intros ([(bs' & [= <-] & ? & ?) _] & _). }
  rewrite <-Hs. assert (Hnn : Forall (artifact_fits limits supplied) expected → 0 <= sum_lengths (map artifact_size_bytes expected)).
  { intros Hf. apply sum_lengths_nonneg, Forall_map. eapply Forall_impl; [exact Hf|]. intros x (b & _ & <- & _). apply len_nonneg. }
  destruct (checked_add usize_max t (len bs)) as [t'|] eqn:Et; cbn [ok_or result_bind].
  - apply checked_add_Some in Et as [-> Hle].
    destruct (Z.ltb_spec (aggregate_limit limits) (t + len bs)); cbn [reject result_bind].
    { split; [done|]. intros ([_ ?%Hnn] & -> & ?). lia. }
    rewrite IH by lia. split.
    + intros (? & -> & ?). split_and!; [by exists bs|done|lia|lia].
    + intros ([_ ?] & -> & ?). split_and!; [done|lia|lia].
  - split; [done|]. intros ([_ ?%Hnn] & -> & ?). exfalso.
    assert (checked_add usize_max t (len bs) = Some (t + len bs)); [|congruence].
    apply checked_add_Some. split; [done|lia].
Qed.

Lemma check_component_digests_Ok (role : CertificationRunnerComponentRole) (expected : list CertificationRunnerComponentArtifact) (supplied : Supplied) :
  check_component_digests role expected supplied = Ok tt ↔ Forall (artifact_authentic supplied) expected.
Proof.
  induction expected as [|a expected IH]; cbn [check_component_digests]; [by rewrite Forall_nil|].
  rewrite Forall_cons, <-IH. unfold artifact_authentic. destruct (supplied !! artifact_name a) as [bs|]; cbn [ok_or result_bind].
  - case_bool_decide as Hd; cbn; (split; [|intros [(b & [= <-] & ?) ?]; congruence]); [done|]. intros H. split; [by exists bs|done].
  - split; [done|]. by intros [(b & ? & _) _].
Qed.

Lemma check_role_digests_Ok (descriptors : Descriptors) (artifacts : ArtifactSets) (roles : list CertificationRunnerComponentRole) :
  check_role_digests descriptors artifacts roles = Ok tt ↔ Forall (role_authentic descriptors artifacts) roles.
Proof.
  induction roles as [|role roles IH]; cbn [check_role_digests]; [by rewrite Forall_nil|].
  rewrite Forall_cons, <-IH. unfold role_authentic.
  destruct (descriptors !! role) as [d|]; cbn [ok_or result_bind]; [|split; [done|by intros [(? & ? & ? & _) _]]].
  destruct (artifacts !! role) as [s|]; cbn [ok_or result_bind]; [|split; [done|by intros [(? & ? & _ & ? & _) _]]].
  rewrite result_bind_Ok. split.
  - intros ([] & Hc%check_component_digests_Ok & H). split; [|done]. exists d, s. split_and!; [done..|].
    intros a Ha%descriptor_iter_elem. by eapply Forall_forall in Hc.
  - intros [(d' & s' & [= <-] & [= <-] & Ha) Hrest]. exists tt. split; [|done]. apply check_component_digests_Ok, Forall_forall.
    intros a Hin%descriptor_iter_elem. by apply Ha.
Qed.

(** ** One role *)

Definition limits_ok (limits : CertificationRunnerComponentVerificationLimits) : Prop :=
  artifact_limit limits <= usize_max ∧ 0 <= aggregate_limit limits <= usize_max.
Definition progress_ok (limits : CertificationRunnerComponentVerificationLimits) (p : component_progress) : Prop :=
  0 <= progress_count p <= MAX_CERTIFICATION_RUNNER_COMPONENT_ARTIFACT_COUNT ∧
  0 <= progress_bytes p <= aggregate_limit limits.

(** What one role adds to what is hashed. *)
Definition role_frame (identity : CertificationRunnerIdentity) (role : CertificationRunnerComponentRole) : bytes :=
  byte_of (runner_role_tag role) :: identity_descriptor_digest identity role.

Definition advanced (identity : CertificationRunnerIdentity) (descriptors : Descriptors) (artifacts : ArtifactSets)
    (l : list CertificationRunnerComponentRole) (p : component_progress) : component_progress :=
  mkProgress (hashed p ++ concat (map (role_frame identity) l))
    (progress_count p + sum_lengths (map (role_count artifacts) l))
    (progress_bytes p + sum_lengths (map (role_bytes descriptors) l)).

Lemma role_names_Ok (d : CertificationRunnerComponentDescriptor) (role : CertificationRunnerComponentRole) (supplied : Supplied) :
  check_supplied role (component_artifact_iter (descriptor_artifacts d)) supplied = Ok tt ∧
  check_unexpected role (btree_keys str_le supplied) (component_artifact_iter (descriptor_artifacts d)) = Ok tt ↔
  ∀ name, name ∈ dom supplied ↔ ∃ a, a ∈ descriptor_artifacts d ∧ artifact_name a = name.
Proof.
  rewrite check_supplied_Ok, check_unexpected_Ok, !Forall_forall.
  assert (Hk : ∀ name, name ∈ btree_keys str_le supplied ↔ name ∈ dom supplied).
  { intros name. unfold btree_keys. rewrite list_elem_of_fmap, elem_of_dom. split.
    - intros ([n bs] & -> & Hin%elem_of_btree_iter). by eexists.
    - intros [bs Hn]. exists (name, bs). split; [done|]. by apply elem_of_btree_iter. }
  setoid_rewrite descriptor_iter_elem. setoid_rewrite Hk. split.
  - intros [H1 H2] name. split; [apply H2|]. intros (a & Ha & <-). by apply H1.
  - intros Hn. split; [|by intros name ?%Hn]. intros a Ha. apply Hn. by exists a.
Qed.

Lemma verify_role_Ok (identity : CertificationRunnerIdentity) (descriptors : Descriptors) (artifacts : ArtifactSets) (limits : CertificationRunnerComponentVerificationLimits)
    (role : CertificationRunnerComponentRole) (p p' : component_progress) :
  limits_ok limits → progress_ok limits p →
  verify_role identity descriptors artifacts limits role p = Ok p' ↔
    role_conforms identity limits descriptors artifacts role ∧
    p' = advanced identity descriptors artifacts [role] p ∧ progress_ok limits p'.
Proof.
  intros [Hl1 Hl2] [Hp1 Hp2]. unfold verify_role, role_conforms, advanced, role_bytes, role_count. cbn [map concat].
  destruct (descriptors !! role) as [d|]; cbn [ok_or result_bind]; [|split; [done|by intros ((? & ? & ? & _) & _)]].
  case_bool_decide as Hrole; cbn [reject result_bind].
  { split; [done|]. by intros ((? & ? & [= <-] & _ & ? & _) & _). }
  unfold descriptor_canonical_document_digest. destruct (descriptor_to_vec d) as [db|] eqn:Edb; cbn [map_err result_bind].
  2: { split; [done|]. intros ((? & ? & [= <-] & _ & _ & (? & ? & _) & _) & _). congruence. }
  destruct (Z.ltb_spec (descriptor_limit limits) (len db)); cbn [reject result_bind].
  { split; [done|]. intros ((? & ? & [= <-] & _ & _ & (b & Hb & ? & _) & _) & _). rewrite Edb in Hb. injection Hb as <-. lia. }
  case_bool_decide as Hdig; cbn [reject result_bind].
  { split; [done|]. intros ((? & ? & [= <-] & _ & _ & (b & Hb & _ & ?) & _) & _). rewrite Edb in Hb. by injection Hb as <-. }
  destruct (artifacts !! role) as [s|]; cbn [ok_or result_bind]; [|split; [done|by intros ((? & ? & _ & ? & _) & _)]].
  pose proof (role_names_Ok d role s) as Hnames.
  pose proof (λ n, measure_artifacts_Ok role (component_artifact_iter (descriptor_artifacts d)) s limits (progress_bytes p) n
    Hp2 (proj2 Hl2) Hl1) as Hmeasure.
  assert (Hfits : Forall (artifact_fits limits s) (component_artifact_iter (descriptor_artifacts d)) ↔
                  ∀ a, a ∈ descriptor_artifacts d → artifact_fits limits s a).
  { rewrite Forall_forall. by setoid_rewrite descriptor_iter_elem. }
  unfold component_bytes, sum_lengths at 1 2. cbn [foldr]. rewrite !Z.add_0_r, app_nil_r. split.
  - intros Hr. apply result_bind_Ok in Hr as ([] & H1 & Hr). apply result_bind_Ok in Hr as ([] & H2 & Hr).
    apply result_bind_Ok in Hr as (c & [-> _]%ok_or_Ok%checked_add_Some & Hr).
    apply result_bind_Ok in Hr as (_ & Hc%reject_Ok%Z.ltb_ge & Hr). apply result_bind_Ok in Hr as (n & (Hf & -> & Hn)%Hmeasure & [= <-]).
    pose proof (proj1 Hfits Hf) as Hf'. split_and!; [|by rewrite Hdig|].
    + exists d, s. split_and!; [done|done|done| |by apply Hnames|exact Hf']. by exists db.
    + split; cbn [progress_count progress_bytes]; [pose proof (Nat2Z.is_nonneg (size s)); unfold map_len in *; lia|].
      split; [|done]. apply Z.add_nonneg_nonneg; [lia|]. apply sum_lengths_nonneg, Forall_map, Forall_forall.
      intros a Ha%descriptor_iter_elem. destruct (Hf' a Ha) as (bs & _ & <- & _). apply len_nonneg.
  - intros ((d' & s' & [= <-] & [= <-] & _ & _ & Hn & Hf) & -> & [Hc Hb]). cbn [progress_count progress_bytes] in *.
    destruct (proj2 Hnames Hn) as [-> ->]. cbn [result_bind].
    rewrite (proj2 (checked_add_Some usize_max (progress_count p) (map_len s) (progress_count p + map_len s))).
    2: { split; [reflexivity|]. etransitivity; [apply Hc|by vm_compute]. }
    cbn [ok_or result_bind]. rewrite (proj2 (Z.ltb_ge _ _) (proj2 Hc)). cbn [reject result_bind].
    rewrite (proj2 (Hmeasure (progress_bytes p + component_bytes d))) by (split_and!; [by apply Hfits|reflexivity|apply Hb]).
    cbn [result_bind]. by rewrite Hdig.
Qed.

Lemma advanced_cons (identity : CertificationRunnerIdentity) (descriptors : Descriptors) (artifacts : ArtifactSets)
    (role : CertificationRunnerComponentRole) (l : list CertificationRunnerComponentRole) (p : component_progress) :
  advanced identity descriptors artifacts (role :: l) p =
    advanced identity descriptors artifacts l (advanced identity descriptors artifacts [role] p).
Proof.
  unfold advanced. cbn [map concat hashed progress_count progress_bytes]. rewrite app_nil_r, <-app_assoc.
  unfold sum_lengths. cbn [foldr]. f_equal; lia.
Qed.

Lemma verify_roles_Ok (identity : CertificationRunnerIdentity) (descriptors : Descriptors) (artifacts : ArtifactSets) (limits : CertificationRunnerComponentVerificationLimits)
    (l : list CertificationRunnerComponentRole) (p p' : component_progress) :
  limits_ok limits → progress_ok limits p →
  verify_roles identity descriptors artifacts limits l p = Ok p' ↔
    Forall (role_conforms identity limits descriptors artifacts) l ∧
    p' = advanced identity descriptors artifacts l p ∧ progress_ok limits p'.
Proof.
  intros Hl. revert p. induction l as [|role l IH]; intros p Hp; cbn [verify_roles].
  { rewrite Forall_nil. unfold advanced, sum_lengths. cbn. rewrite app_nil_r, !Z.add_0_r. destruct p as [h c b]. cbn.
    split; [by intros [= <-]|by intros (_ & -> & _)]. }
  rewrite Forall_cons, advanced_cons, result_bind_Ok. split.
  - intros (p1 & (H1 & -> & H2)%verify_role_Ok & Hr); [|done..]. apply IH in Hr as (H3 & H4 & H5); [|done]. done.
  - intros ([H1 H2] & -> & H3). exists (advanced identity descriptors artifacts [role] p).
    assert (Hp1 : progress_ok limits (advanced identity descriptors artifacts [role] p)).
    { assert (Hnn : Forall (λ r, 0 <= role_bytes descriptors r ∧ 0 <= role_count artifacts r) (role :: l)).
      { apply Forall_forall. intros r Hr. assert (Hc : role_conforms identity limits descriptors artifacts r).
        { apply elem_of_cons in Hr as [->|Hr]; [done|]. by eapply Forall_forall in H2. }
        destruct Hc as (d & s & Hd & Hs & _ & _ & _ & Hf). unfold role_bytes, role_count. rewrite Hd, Hs. split; [|unfold map_len; lia].
        apply sum_lengths_nonneg, Forall_map, Forall_forall. intros a Ha%descriptor_iter_elem.
        destruct (Hf a Ha) as (bs & _ & <- & _). apply len_nonneg. }
      apply Forall_cons in Hnn as [[Hb0 Hc0] Hnn].
      assert (0 <= sum_lengths (map (role_bytes descriptors) l)) by
        (apply sum_lengths_nonneg, Forall_map; eapply Forall_impl; [exact Hnn|by intros ? [? _]]).
      assert (0 <= sum_lengths (map (role_count artifacts) l)) by
        (apply sum_lengths_nonneg, Forall_map; eapply Forall_impl; [exact Hnn|by intros ? [_ ?]]).
      destruct Hp as [Hq1 Hq2], H3 as [Hq3 Hq4]. unfold advanced in *. cbn [progress_count progress_bytes map] in *.
      unfold progress_ok. cbn [progress_count progress_bytes].
      unfold sum_lengths in *. cbn [foldr] in *. lia. }
    split; [by apply verify_role_Ok|]. by apply IH.
Qed.

Lemma verify_component_inputs_Ok (identity : CertificationRunnerIdentity) (descriptors : Descriptors) (artifacts : ArtifactSets)
    (limits : CertificationRunnerComponentVerificationLimits) (summary : VerificationSummary) :
  limits_ok limits →
  verify_component_inputs identity descriptors artifacts limits = Ok summary ↔
    (∀ role, role_conforms identity limits descriptors artifacts role ∧ role_authentic descriptors artifacts role) ∧
    sum_lengths (map (role_count artifacts) runner_roles) <= MAX_CERTIFICATION_RUNNER_COMPONENT_ARTIFACT_COUNT ∧
    sum_lengths (map (role_bytes descriptors) runner_roles) <= aggregate_limit limits ∧
    summary = mkVerificationSummary
      (sha256 (DESCRIPTOR_SET_DIGEST_DOMAIN ++ le_bytes 8 RUNNER_COMPONENT_ROLE_COUNT ++
               concat (map (role_frame identity) runner_roles)))
      (sum_lengths (map (role_count artifacts) runner_roles)) (sum_lengths (map (role_bytes descriptors) runner_roles)).
Proof.
  intros Hl. unfold verify_component_inputs.
  set (p0 := mkProgress (DESCRIPTOR_SET_DIGEST_DOMAIN ++ le_bytes 8 RUNNER_COMPONENT_ROLE_COUNT) 0 0).
  assert (Hp0 : progress_ok limits p0) by (destruct Hl as [_ ?]; split; cbn; [by vm_compute|lia]).
  pose proof (λ p, verify_roles_Ok identity descriptors artifacts limits runner_roles p0 p Hl Hp0) as Hroles. split.
  - intros Hr. apply result_bind_Ok in Hr as (_ & _ & Hr). do 2 apply result_bind_Ok in Hr as (_ & _ & Hr).
    apply result_bind_Ok in Hr as (p & (H1 & -> & [H2 H3])%Hroles & Hr).
    apply result_bind_Ok in Hr as ([] & H4%check_role_digests_Ok & [= <-]).
    unfold advanced in *. cbn [progress_count progress_bytes hashed p0] in *. rewrite !Z.add_0_l in *.
    split_and!; [|apply H2|apply H3|by rewrite app_assoc].
    intros role. rewrite Forall_forall in H1, H4. split; [apply H1|apply H4]; apply runner_roles_complete.
  - intros (Hall & Hc & Hb & ->).
    assert (Hd : ∀ role, is_Some (descriptors !! role) ∧ is_Some (artifacts !! role)).
    { intros role. destruct (Hall role) as [_ (d & s & Hd & Hs & _)]. rewrite Hd, Hs. split; by eexists. }
    rewrite (proj2 (check_roles_Ok _ _ _)) by (apply Forall_true; apply Hd). cbn [result_bind].
    rewrite !check_role_count_Ok by apply Hd. cbn [result_bind].
    rewrite (proj2 (Hroles (advanced identity descriptors artifacts runner_roles p0))).
    + cbn [result_bind]. rewrite (proj2 (check_role_digests_Ok _ _ _)) by (apply Forall_true; intros role; apply Hall).
      cbn [result_bind]. unfold advanced. cbn [progress_count progress_bytes hashed p0]. by rewrite !Z.add_0_l, app_assoc.
    + split_and!; [apply Forall_true; intros role; apply Hall|done|].
      unfold advanced, progress_ok. cbn [progress_count progress_bytes p0]. rewrite !Z.add_0_l. split; (split; [|done]).
      * apply sum_lengths_nonneg, Forall_map, Forall_true. intros role. unfold role_count. destruct (artifacts !! role); [unfold map_len|]; lia.
      * apply sum_lengths_nonneg, Forall_map, Forall_true. intros role. unfold role_bytes.
        destruct (Hall role) as [(d & s & -> & _ & _ & _ & _ & Hf) _]. apply sum_lengths_nonneg, Forall_map, Forall_forall.
        intros a Ha%descriptor_iter_elem. destruct (Hf a Ha) as (bs & _ & <- & _). apply len_nonneg.
Qed.

(** component verification is exact.  It succeeds exactly when every role of
    the identity has a descriptor of that role, encoded within the limit and with
    the digest the identity names, supplied artifacts that are exactly the ones the
    descriptor names, each with the described length, within the limit and with
    the described digest, and the counts and bytes together stay within the
    ceilings; the summary then reports exactly those totals, and a digest that
    depends on the identity alone. *)
Theorem verify_component_inputs_exact (identity : CertificationRunnerIdentity) (descriptors : Descriptors) (artifacts : ArtifactSets)
    (limits : CertificationRunnerComponentVerificationLimits) (summary : VerificationSummary) :
  limits_ok limits →
  verify_component_inputs identity descriptors artifacts limits = Ok summary ↔
    (∀ role, role_conforms identity limits descriptors artifacts role ∧ role_authentic descriptors artifacts role) ∧
    sum_lengths (map (role_count artifacts) runner_roles) <= MAX_CERTIFICATION_RUNNER_COMPONENT_ARTIFACT_COUNT ∧
    sum_lengths (map (role_bytes descriptors) runner_roles) <= aggregate_limit limits ∧
    summary = mkVerificationSummary
      (sha256 (DESCRIPTOR_SET_DIGEST_DOMAIN ++ le_bytes 8 RUNNER_COMPONENT_ROLE_COUNT ++
               concat (map (role_frame identity) runner_roles)))
      (sum_lengths (map (role_count artifacts) runner_roles)) (sum_lengths (map (role_bytes descriptors) runner_roles)).
Proof. apply verify_component_inputs_Ok. Qed.
End Laws.
