(* ===== verification/Attest.v ===== *)
(** * Attest: freshness-bound publication under two policies

    Models [crates/weregopher-transform/src/certification_attestation.rs]: a run is
    begun under a verified runner, joined to one local certification, and published
    while both policies are current and the run is fresh.

    A [Duration] is its nanoseconds, an [Instant] the nanoseconds of a monotonic
    clock; the random challenge and the readings of the clock are arguments. *)

From S2P Require Import Prelude Text Wire Evidence ControlPlane Policy Certify Runner.

Definition Duration : Type := Z.
Definition Instant : Type := Z.
Definition NANOS_PER_MILLI : Z := 1000000.
Definition as_millis (d : Duration) : Z := d / NANOS_PER_MILLI.
Definition from_millis (millis : Z) : Duration := millis * NANOS_PER_MILLI.
(** [Instant::elapsed] saturates at zero. *)
Definition elapsed_since (started_at now : Instant) : Duration := Z.max 0 (now - started_at).

Section Attest.
Context `{CJ : CertifyJson} `{RJ : RunnerJson} `{HS : Sha256} `{Alloc : Allocator}.
Abbreviation RunnerHeap := (PolicyHeap LocalCertificationRunnerPolicy).
Abbreviation CertificationHeap := (PolicyHeap LocalCertificationPolicy).

Inductive AttestedCertificationPublicationError : Type :=
| Attested_InvalidLimits
| Attested_LimitsExceedImplementationMaximum
| Attested_InvalidFreshnessLimit
| Attested_FreshnessExpired
| Attested_ElapsedDurationUnrepresentable
| Attested_SemanticReportMissing
| Attested_ArtifactCountUnrepresentable
| Attested_ArtifactBytesUnrepresentable
| Attested_RunnerPolicy (source : CertificationRunnerPolicyError RunnerJsonError)
| Attested_CertificationPolicy (source : CertificationPolicyError CertifyJsonError)
| Attested_Publication (source : CertificationPublicationError)
| Attested_Attestation (source : CertificationRunAttestationError)
| Attested_StorePoisoned
| Attested_StoreFull
| Attested_PublicationAllocationFailed.

#[global] Instance AttestedCertificationPublicationError_store : StoreErrors AttestedCertificationPublicationError := {|
  store_invalid_limits := Attested_InvalidLimits;
  store_limits_exceed := Attested_LimitsExceedImplementationMaximum;
  store_poisoned := Attested_StorePoisoned;
  store_full := Attested_StoreFull;
  store_allocation_failed := Attested_PublicationAllocationFailed
|}.

Record PendingLocalCertificationRun : Type := mkPendingRun {
  pending_runner : VerifiedCertificationRunnerComponents;
  pending_semantic_report : CertificationArtifactRef;
  pending_challenge : Uuid;
  pending_started_at : Instant;
  pending_maximum_elapsed : Duration;
  pending_maximum_elapsed_millis : Z
}.

Definition runner_decision (runner : VerifiedCertificationRunnerComponents) : PolicyDecision LocalCertificationRunnerPolicy :=
  approved_decision (components_approved runner).

Definition begin_local_certification_run (heap : RunnerHeap) (challenge : Uuid) (now : Instant)
    (runner : VerifiedCertificationRunnerComponents) (semantic_report : CertificationArtifactRef)
    (maximum_elapsed : Duration) : result PendingLocalCertificationRun AttestedCertificationPublicationError :=
  let implementation_maximum := from_millis MAX_LOCAL_CERTIFICATION_RUN_FRESHNESS_MILLIS in
  do? reject (u64_max <? as_millis maximum_elapsed) Attested_InvalidFreshnessLimit in
  let maximum_elapsed_millis := as_millis maximum_elapsed in
  do? reject ((maximum_elapsed =? 0) || (maximum_elapsed_millis =? 0) ||
              negb (maximum_elapsed =? from_millis maximum_elapsed_millis) ||
              (implementation_maximum <? maximum_elapsed)) Attested_InvalidFreshnessLimit in
  do? map_err Attested_RunnerPolicy (verify_current_policy heap (runner_decision runner)) in
  Ok (mkPendingRun runner semantic_report challenge now maximum_elapsed maximum_elapsed_millis).

Record PreparedAttestedLocalCertificationPublication : Type := mkPreparedAttested {
  attested_pending : PendingLocalCertificationRun;
  attested_certified : LocallyCertifiedArtifacts;
  attested_prepared_receipt : LocalCertificationPublicationReceipt
}.

Record AttestedLocalCertificationPublication : Type := mkAttested {
  attested_attestation : LocalCertificationRunAttestation;
  attested_receipt : LocalCertificationPublicationReceipt
}.
#[global] Instance AttestedLocalCertificationPublication_eq_dec : EqDecision AttestedLocalCertificationPublication.
Proof. solve_decision. Defined.

Definition prepare_attested_local_certification_publication (runner_heap : RunnerHeap)
    (certification_heap : CertificationHeap) (pending : PendingLocalCertificationRun)
    (certified : LocallyCertifiedArtifacts) :
    result PreparedAttestedLocalCertificationPublication AttestedCertificationPublicationError :=
  do? map_err Attested_RunnerPolicy (verify_current_policy runner_heap (runner_decision (pending_runner pending))) in
  do? reject (bool_decide (verified_map (verified_artifacts certified) !! pending_semantic_report pending = None))
    Attested_SemanticReportMissing in
  let? receipt := map_err Attested_Publication (local_certification_receipt certification_heap certified) in
  Ok (mkPreparedAttested pending certified receipt).

(** The attestation of a run that has taken [elapsed]. *)
Definition attest (prepared : PreparedAttestedLocalCertificationPublication) (elapsed : Duration) :
    result LocalCertificationRunAttestation AttestedCertificationPublicationError :=
  let pending := attested_pending prepared in
  let receipt := attested_prepared_receipt prepared in
  let runner := pending_runner pending in
  let approved := components_approved runner in
  do? reject (pending_maximum_elapsed pending <? elapsed) Attested_FreshnessExpired in
  do? reject (u64_max <? as_millis elapsed) Attested_ElapsedDurationUnrepresentable in
  let? freshness := map_err Attested_Attestation
    (freshness_new (pending_challenge pending) (pending_maximum_elapsed_millis pending) (as_millis elapsed)) in
  let? runner_identity := map_err Attested_Attestation
    (run_runner_new (approved_identity_digest approved) (components_descriptor_set_digest runner)
       (runner_policy_revision (approved_policy approved)) (approved_policy_generation approved)) in
  do? reject (u32_max <? publication_artifact_count receipt) Attested_ArtifactCountUnrepresentable in
  do? reject (u64_max <? publication_total_artifact_bytes receipt) Attested_ArtifactBytesUnrepresentable in
  let? result := map_err Attested_Attestation
    (run_result_new (pending_semantic_report pending) (publication_target receipt)
       (publication_profile_digest receipt) (publication_evidence_digest receipt)
       (publication_artifact_set_digest receipt) (publication_class receipt)
       (publication_policy_revision_digest receipt) (publication_policy_generation receipt)
       (publication_artifact_count receipt) (publication_total_artifact_bytes receipt)) in
  Ok (mkAttestation freshness runner_identity result).

(** The clock is read under both guards. *)
Definition attest_and_commit (prepared : PreparedAttestedLocalCertificationPublication) (now : Instant) :
    mut (PublicationStore AttestedLocalCertificationPublication) AttestedCertificationPublicationError
      AttestedLocalCertificationPublication :=
  let* attestation := mut_lift (attest prepared (elapsed_since (pending_started_at (attested_pending prepared)) now)) in
  commit_publication (mkAttested attestation (attested_prepared_receipt prepared)).

Definition publish_attested_local_certification (runner_heap : RunnerHeap) (certification_heap : CertificationHeap)
    (now : Instant) (prepared : PreparedAttestedLocalCertificationPublication) :
    mut (PublicationStore AttestedLocalCertificationPublication) AttestedCertificationPublicationError
      AttestedLocalCertificationPublication := λ s,
  let '(under_runner, s') :=
    commit_while_policy_current (E := CertificationRunnerPolicyError RunnerJsonError) runner_heap
      (runner_decision (pending_runner (attested_pending prepared)))
      (commit_while_policy_current (E := CertificationPolicyError CertifyJsonError) certification_heap
         (certified_decision (attested_certified prepared)) (attest_and_commit prepared now)) s in
  (let? under_certification := map_err Attested_RunnerPolicy under_runner in
   let? outcome := map_err Attested_CertificationPolicy under_certification in
   outcome, s').
End Attest.
