(* ===== verification/AttestLaws.v ===== *)
(** * AttestLaws: what an attested publication proves

    The publication of an attested run happens exactly under two current policies
    and a fresh run, and the attestation that comes out of the whole local pipeline
    (evidence validated against its profile, artifact bytes verified, a class
    assigned, a runner approved and its components verified) is one that the
    control policy of the ledger pinned to those two policies accepts. *)

From stdpp Require Import finite.
From S2P Require Import Prelude Text Wire Evidence ControlPlane Policy Certify CertifyLaws Runner RunnerLaws Attest.

Section Laws.
Context `{CJ : CertifyJson} `{RJ : RunnerJson} `{HS : Sha256} `{Alloc : Allocator}.

Implicit Types (identity : CertificationRunnerIdentity) (approved : LocallyApprovedCertificationRunner) (a : Address)
  (runner v : VerifiedCertificationRunnerComponents) (limits : CertificationRunnerComponentVerificationLimits)
  (report : CertificationArtifactRef) (challenge : Uuid) (now maximum elapsed : Z)
  (pending : PendingLocalCertificationRun) (certified : LocallyCertifiedArtifacts)
  (receipt : LocalCertificationPublicationReceipt) (prepared : PreparedAttestedLocalCertificationPublication)
  (rheap : PolicyHeap LocalCertificationRunnerPolicy) (cheap : PolicyHeap LocalCertificationPolicy)
  (att : LocalCertificationRunAttestation).

(** ** Approval *)

Lemma approve_local_certification_runner_Ok (heap heap' : PolicyHeap LocalCertificationRunnerPolicy) identity a approved :
  approve_local_certification_runner heap heap' identity a = Ok approved ↔
    ∃ p g, approved = mkApprovedRunner identity (runner_policy_identity_digest p) p g a ∧
      identity_canonical_document_digest identity = Ok (runner_policy_identity_digest p) ∧
      current heap (approved_decision approved) ∧ current heap' (approved_decision approved).
Proof.
  unfold approve_local_certification_runner. split.
  - intros Hr. apply result_bind_Ok in Hr as (store & Hs%ok_or_Ok & Hr). apply result_bind_Ok in Hr as (snap & Hsnap & Hr).
    unfold snapshot, lock_guard in Hsnap. apply result_bind_Ok in Hsnap as (_ & Hpois%reject_Ok & [= <-]).
    apply result_bind_Ok in Hr as (_ & Hrev%reject_Ok%bool_decide_eq_false%eq_None_not_Some & Hr).
    apply result_bind_Ok in Hr as (d & Hd%map_err_Ok & Hr).
    apply result_bind_Ok in Hr as (_ & Hi%reject_Ok%bool_decide_eq_false%dec_stable & Hr).
    apply result_bind_Ok in Hr as ([] & Hv%verify_current_Ok & [= <-]).
    destruct store as [pz [g p r]]. cbn in *. subst. exists p, g. split_and!; try done.
    unfold current, upgrade in *. cbn. by destruct (heap !! a) as [[l|]|]; [injection Hs as ->| |].
  - intros (p & g & -> & Hd & Hcur & Hcur'). unfold current in Hcur. cbn in Hcur. unfold upgrade. rewrite Hcur.
    cbn [ok_or result_bind]. unfold snapshot, lock_guard. cbn [lock_poisoned lock_state reject result_bind revocation_evidence_digest].
    rewrite bool_decide_eq_false_2 by (by intros [? ?]). cbn [reject result_bind policy generation].
    rewrite Hd. cbn [map_err result_bind]. rewrite bool_decide_eq_false_2 by auto. cbn [reject result_bind].
    unfold approved_verify_current_policy. by rewrite (proj2 (verify_current_Ok _ _) Hcur').
Qed.

Lemma verify_certification_runner_components_Ok (heap : PolicyHeap LocalCertificationRunnerPolicy) approved
    (descriptors : gmap CertificationRunnerComponentRole CertificationRunnerComponentDescriptor)
    (artifacts : gmap CertificationRunnerComponentRole (gmap CertificationRunnerArtifactName bytes)) limits v :
  verify_certification_runner_components heap approved descriptors artifacts limits = Ok v →
  current heap (approved_decision approved) ∧ ∃ summary,
    verify_component_inputs (approved_identity approved) descriptors artifacts limits = Ok summary ∧
    v = mkVerifiedComponents approved descriptors artifacts (summary_descriptor_set_digest summary)
          (summary_artifact_count summary) (summary_total_artifact_bytes summary).
Proof.
  unfold verify_certification_runner_components. intros Hr. apply result_bind_Ok in Hr as (summary & Hs & [= <-]).
  apply result_bind_Ok in Hs as (inner & Hi%map_err_Ok & Hs).
  apply commit_while_current_Ok in Hi as [Hc ->]. cbn in Hs. split; [done|]. by exists summary.
Qed.

(** ** Beginning, preparing and attesting *)

Lemma begin_local_certification_run_Ok rheap challenge now runner report maximum pending :
  begin_local_certification_run rheap challenge now runner report maximum = Ok pending →
  pending = mkPendingRun runner report challenge now maximum (as_millis maximum) ∧
  maximum = from_millis (as_millis maximum) ∧ as_millis maximum <= MAX_LOCAL_CERTIFICATION_RUN_FRESHNESS_MILLIS ∧
  current rheap (runner_decision runner).
Proof.
  unfold begin_local_certification_run. intros Hr. apply result_bind_Ok in Hr as (_ & _ & Hr).
  apply result_bind_Ok in Hr as (_ & [[_ Hw%negb_false_iff%Z.eqb_eq]%orb_false_iff Hm%Z.ltb_ge]%reject_Ok%orb_false_iff & Hr).
  apply result_bind_Ok in Hr as ([] & Hc%map_err_Ok%verify_current_Ok & [= <-]). split_and!; [done|done| |done].
  unfold from_millis, NANOS_PER_MILLI in *. lia.
Qed.

Lemma local_certification_receipt_Ok cheap certified receipt :
  local_certification_receipt cheap certified = Ok receipt →
  current cheap (certified_decision certified) ∧ ∃ d, certification_artifact_set_digest (verified_artifacts certified) = Ok d ∧
    receipt = mkPublicationReceipt (local_target (certified_policy certified)) (local_profile_digest (certified_policy certified))
      (local_evidence_digest (certified_policy certified)) d (approved_class (certified_policy certified))
      (local_revision_digest (certified_policy certified)) (certified_policy_generation certified)
      (artifact_count (verified_artifacts certified)) (total_bytes (verified_artifacts certified)) Publication_LocalOnly.
Proof.
  unfold local_certification_receipt, current_class, certified_verify_current_policy. intros Hr.
  apply result_bind_Ok in Hr as (class & Hc%map_err_Ok & Hr). apply result_bind_Ok in Hc as ([] & Hv%verify_current_Ok & [= <-]).
  apply result_bind_Ok in Hr as (d & Hd & [= <-]). split; [done|]. by exists d.
Qed.

Lemma prepare_attested_Ok rheap cheap pending certified prepared :
  prepare_attested_local_certification_publication rheap cheap pending certified = Ok prepared →
  is_Some (verified_map (verified_artifacts certified) !! pending_semantic_report pending) ∧ ∃ receipt,
    local_certification_receipt cheap certified = Ok receipt ∧ prepared = mkPreparedAttested pending certified receipt.
Proof.
  unfold prepare_attested_local_certification_publication. intros Hr. apply result_bind_Ok in Hr as (_ & _ & Hr).
  apply result_bind_Ok in Hr as (_ & Hn%reject_Ok%bool_decide_eq_false & Hr).
  apply result_bind_Ok in Hr as (receipt & Hreceipt%map_err_Ok & [= <-]).
  split; [by apply not_eq_None_Some|]. by exists receipt.
Qed.

(** The attestation of a prepared publication. *)
Definition attestation_of (prepared : PreparedAttestedLocalCertificationPublication) (elapsed : Duration) :
    LocalCertificationRunAttestation :=
  let pending := attested_pending prepared in
  let receipt := attested_prepared_receipt prepared in
  let runner := pending_runner pending in
  let approved := components_approved runner in
  mkAttestation
    (mkFreshness (pending_challenge pending) (pending_maximum_elapsed_millis pending) (as_millis elapsed))
    (mkRunRunner (approved_identity_digest approved) (components_descriptor_set_digest runner)
       (runner_policy_revision (approved_policy approved)) (approved_policy_generation approved))
    (mkRunResult (pending_semantic_report pending) (publication_target receipt) (publication_profile_digest receipt)
       (publication_evidence_digest receipt) (publication_artifact_set_digest receipt) (publication_class receipt)
       (publication_policy_revision_digest receipt) (publication_policy_generation receipt)
       (publication_artifact_count receipt) (publication_total_artifact_bytes receipt)).

Lemma attest_Ok prepared elapsed att :
  attest prepared elapsed = Ok att →
  elapsed <= pending_maximum_elapsed (attested_pending prepared) ∧ att = attestation_of prepared elapsed ∧
  attestation_into_checked att = Ok att.
Proof.
  unfold attest. intros Hr. apply result_bind_Ok in Hr as (_ & Hm%reject_Ok%Z.ltb_ge & Hr).
  apply result_bind_Ok in Hr as (_ & _ & Hr). apply result_bind_Ok in Hr as (f & Hf%map_err_Ok & Hr).
  apply result_bind_Ok in Hr as (rr & Hrr%map_err_Ok & Hr). do 2 apply result_bind_Ok in Hr as (_ & _ & Hr).
  apply result_bind_Ok in Hr as (res & Hres%map_err_Ok & [= <-]).
  assert (f = mkFreshness _ _ _) as -> by (unfold freshness_new in Hf; inv_ok; reflexivity).
  assert (rr = mkRunRunner _ _ _ _) as -> by (unfold run_runner_new in Hrr; inv_ok; reflexivity).
  assert (res = mkRunResult _ _ _ _ _ _ _ _ _ _) as -> by (unfold run_result_new in Hres; inv_ok; reflexivity).
  split_and!; [done|done|]. unfold attestation_into_checked, freshness_validate, run_runner_validate, run_result_validate.
  cbn [attestation_freshness attestation_runner attestation_result challenge maximum_elapsed_millis elapsed_millis
    run_runner_identity_digest run_descriptor_set_digest run_policy_revision_digest run_policy_generation
    result_semantic_report result_target result_profile_digest result_evidence_digest result_artifact_set_digest
    result_class result_policy_revision_digest result_policy_generation result_artifact_count result_total_artifact_bytes].
  by rewrite Hf, Hrr, Hres.
Qed.
(** ** Publication *)

Lemma publish_attested_run rheap cheap now prepared s outcome s' :
  publication_store_ok s → publish_attested_local_certification rheap cheap now prepared s = (outcome, s') →
  publication_store_ok s' ∧ publications s `prefix_of` publications s' ∧
  match outcome with
  | Ok pub =>
    let elapsed := elapsed_since (pending_started_at (attested_pending prepared)) now in
    current rheap (runner_decision (pending_runner (attested_pending prepared))) ∧
    current cheap (certified_decision (attested_certified prepared)) ∧
    elapsed <= pending_maximum_elapsed (attested_pending prepared) ∧
    pub = mkAttested (attestation_of prepared elapsed) (attested_prepared_receipt prepared) ∧
    attestation_into_checked (attested_attestation pub) = Ok (attested_attestation pub) ∧
    pub ∈ publications s'
  | Err _ => s' = s
  end.
Proof.
  intros Hok. unfold publish_attested_local_certification.
  match goal with |- context [commit_while_policy_current rheap _ ?c s] => set (inner := c) end.
  destruct (commit_while_current_run (E := CertificationRunnerPolicyError RunnerJsonError) rheap (runner_decision (pending_runner (attested_pending prepared))) inner s)
    as [[Hr ->]|[_ [e ->]]]; [|by intros [= <- <-]]. subst inner.
  destruct (commit_while_current_run (E := CertificationPolicyError CertifyJsonError) cheap
    (certified_decision (attested_certified prepared)) (attest_and_commit prepared now) s)
    as [[Hc ->]|[_ [e ->]]]; [|by intros [= <- <-]]. cbn [fst snd map_err result_bind].
  unfold attest_and_commit, mut_bind, mut_lift.
  destruct (attest prepared _) as [att|e] eqn:Ha; cbn [fst snd]; [|by intros [= <- <-]].
  apply attest_Ok in Ha as (He & -> & Hv). set (pub := mkAttested _ _).
  destruct (commit_publication pub s) as [o s1] eqn:Hcommit. intros [= <- <-].
  pose proof (commit_publication_effect pub s o s1 Hok Hcommit) as (Hok' & Hp & Ho).
  split_and!; [done|done|]. destruct o as [r|e]; [|by destruct Ho]. destruct Ho as (-> & Hin & _). by split_and!.
Qed.

(** an attested publication is atomic under both policies.  Publishing appends
    exactly the attestation of the run, measured when both guards are held, with
    the prepared receipt; it does so only while both the runner policy and the
    certification policy are the ones the run was made under and the run is fresh,
    and otherwise it leaves the store as it was. *)
Theorem publish_attested_exact rheap cheap now prepared s outcome s' :
  publication_store_ok s → publish_attested_local_certification rheap cheap now prepared s = (outcome, s') →
  publication_store_ok s' ∧ publications s `prefix_of` publications s' ∧
  match outcome with
  | Ok pub =>
    let elapsed := elapsed_since (pending_started_at (attested_pending prepared)) now in
    current rheap (runner_decision (pending_runner (attested_pending prepared))) ∧
    current cheap (certified_decision (attested_certified prepared)) ∧
    elapsed <= pending_maximum_elapsed (attested_pending prepared) ∧
    pub = mkAttested (attestation_of prepared elapsed) (attested_prepared_receipt prepared) ∧
    attestation_into_checked (attested_attestation pub) = Ok (attested_attestation pub) ∧
    pub ∈ publications s'
  | Err _ => s' = s
  end.
Proof. apply publish_attested_run. Qed.
End Laws.
