(* ===== verification/AttestSpec.v ===== *)
(** * AttestSpec: the local certification pipeline, end to end

    One run through the whole pipeline: the evidence is validated against its
    profile, its artifact bytes are verified, a class is assigned, a runner is
    approved, its components are verified, the run is begun, prepared and published,
    each step seeing the policy stores as they are at that moment.  If every step
    succeeds, the attestation that comes out is one that the ledger's control policy
    pinned to the two local policies accepts. *)

From stdpp Require Import finite.
From S2P Require Import Prelude Text Wire Evidence ControlPlane Policy Certify CertifyLaws Runner RunnerLaws Attest AttestLaws.

Section Pipeline.
Context `{CJ : CertifyJson} `{RJ : RunnerJson} `{HS : Sha256} `{Alloc : Allocator}.

(** The digest of the descriptor set of an identity. *)
Definition descriptor_set_digest (identity : CertificationRunnerIdentity) : Sha256Digest :=
  sha256 (DESCRIPTOR_SET_DIGEST_DOMAIN ++ le_bytes 8 RUNNER_COMPONENT_ROLE_COUNT ++
          concat (map (role_frame identity) runner_roles)).

(** The control policy that pins one identity, one set of artifacts and one report
    under a runner policy and a certification policy. *)
Definition pinned_policy (identity : CertificationRunnerIdentity) (artifacts : ArtifactMap)
    (report : CertificationArtifactRef) (rp : LocalCertificationRunnerPolicy) (rg : Z)
    (cp : LocalCertificationPolicy) (cg : Z) : CertificationControlPolicy :=
  mkControlPolicy
    (mkRunRunner (runner_policy_identity_digest rp) (descriptor_set_digest identity) (runner_policy_revision rp) rg)
    report (local_target cp) (local_profile_digest cp) (local_evidence_digest cp)
    (sha256 (artifact_set_preimage artifacts)) (approved_class cp) (local_revision_digest cp) cg.

(** The artifacts of a run: exactly the referenced ones, each with the bytes it is
    named by, among them the report. *)
Definition artifacts_authentic (evidence : CertificationEvidence) (artifacts : ArtifactMap)
    (report : CertificationArtifactRef) : Prop :=
  dom artifacts = referenced evidence ∧ map_Forall (λ r bs, sha256 bs = ref_digest r) artifacts ∧ report ∈ dom artifacts.

Lemma attestation_accepted prepared elapsed :
  accepts_attestation
    (mkControlPolicy
       (mkRunRunner (approved_identity_digest (components_approved (pending_runner (attested_pending prepared))))
          (components_descriptor_set_digest (pending_runner (attested_pending prepared)))
          (runner_policy_revision (approved_policy (components_approved (pending_runner (attested_pending prepared)))))
          (approved_policy_generation (components_approved (pending_runner (attested_pending prepared)))))
       (pending_semantic_report (attested_pending prepared))
       (publication_target (attested_prepared_receipt prepared)) (publication_profile_digest (attested_prepared_receipt prepared))
       (publication_evidence_digest (attested_prepared_receipt prepared))
       (publication_artifact_set_digest (attested_prepared_receipt prepared)) (publication_class (attested_prepared_receipt prepared))
       (publication_policy_revision_digest (attested_prepared_receipt prepared))
       (publication_policy_generation (attested_prepared_receipt prepared)))
    (attestation_of prepared elapsed) = true.
Proof. unfold accepts_attestation, attestation_of. cbn. rewrite !bool_decide_eq_true_2 by done. by rewrite Z.eqb_refl. Qed.

(** What the two local policies were made to demand: of the evidence and its
    profile, that their documents hash to the pinned digests and that the target
    and the class are the pinned ones; of the runner, that its identity does. *)
Definition policies_met (evidence : CertificationEvidence) (profile : CertificationProfile)
    (identity : CertificationRunnerIdentity) (rp : LocalCertificationRunnerPolicy) (cp : LocalCertificationPolicy) : Prop :=
  (∃ bs, profile_to_vec profile = Ok bs ∧ local_profile_digest cp = sha256 bs) ∧
  evidence_profile_digest evidence = local_profile_digest cp ∧
  (∃ bs, evidence_to_vec evidence = Ok bs ∧ local_evidence_digest cp = sha256 bs) ∧
  evidence_target evidence = local_target cp ∧ trusted_class_for_profile (profile_class profile) = approved_class cp ∧
  ∃ bs, identity_to_vec identity = Ok bs ∧ runner_policy_identity_digest rp = sha256 bs.

(** The evidence meets every check and every workflow its profile expects. *)
Definition profile_met (evidence : CertificationEvidence) (profile : CertificationProfile) : Prop :=
  checks_meet (profile_checks profile) (evidence_checks evidence) ∧
  dom (evidence_workflows evidence) = profile_workflows profile ∧
  map_Forall (λ _ a, assessment_status a = Check_Passed) (evidence_workflows evidence).

(** C27: the pipeline is sound, end to end.  When every step from the evidence
    document to the publication succeeds, whatever happened to the policy stores in
    between, then at the moment of publication both policies are current, the
    documents, target, class and runner identity are the ones they pin, the
    evidence is complete and meets its profile, the artifacts are exactly those it
    refers to and hash to their names, every component of the runner is authentic,
    the run took no longer than it was allowed and never longer than the
    implementation allows, and the attestation published is valid and accepted by
    the control policy pinned to those two policies, that identity and those
    artifacts. *)
Theorem attested_run_sound (evidence : CertificationEvidence) (profile : CertificationProfile) sv
    (artifacts : ArtifactMap) alimits verified
    (cheap0 cheap1 cheap2 cheap3 : PolicyHeap LocalCertificationPolicy) (ca : Address) certified
    (rheap0 rheap1 rheap2 rheap3 rheap4 rheap5 : PolicyHeap LocalCertificationRunnerPolicy) (ra : Address)
    (identity : CertificationRunnerIdentity) approved descriptors sets climits runner
    (challenge : Uuid) (now now' : Instant) report (maximum : Duration) pending prepared s pub s' :
  ample Alloc → evidence_ok evidence → limits_within alimits → limits_ok climits → publication_store_ok s →
  validate_against_profile profile_to_vec evidence profile = Ok sv →
  verify_certification_artifacts sv artifacts alimits = Ok verified →
  assign_local_certification cheap0 cheap1 verified ca = Ok certified →
  approve_local_certification_runner rheap0 rheap1 identity ra = Ok approved →
  verify_certification_runner_components rheap2 approved descriptors sets climits = Ok runner →
  begin_local_certification_run rheap3 challenge now runner report maximum = Ok pending →
  prepare_attested_local_certification_publication rheap4 cheap2 pending certified = Ok prepared →
  publish_attested_local_certification rheap5 cheap3 now' prepared s = (Ok pub, s') →
  ∃ rp rg cp cg,
    current rheap5 (mkDecision rp rg ra) ∧ current cheap3 (mkDecision cp cg ca) ∧
    policies_met evidence profile identity rp cp ∧ profile_met evidence profile ∧
    disposition evidence = Disposition_Complete ∧ artifacts_authentic evidence artifacts report ∧
    (∀ role, role_conforms identity climits descriptors sets role ∧ role_authentic descriptors sets role) ∧
    elapsed_since now now' <= maximum <= from_millis MAX_LOCAL_CERTIFICATION_RUN_FRESHNESS_MILLIS ∧
    let att := attested_attestation pub in
    attestation_into_checked att = Ok att ∧
    accepts_attestation (pinned_policy identity artifacts report rp rg cp cg) att = true ∧ pub ∈ publications s'.
Proof.
  intros Ha He Hal Hcl Hs Hsv Hv Hc Hr Hcomp Hb Hp Hpub.
  apply validate_against_profile_Ok in Hsv as (_ & Hchecks & Hdomw & Hpassed & ->).
  apply verify_certification_artifacts_Ok in Hv as (Hdom & Hfit & _ & ->); [|done..].
  apply assign_local_certification_Ok in Hc as (cp & cg & -> & (Hdisp & Hmeet) & _).
  apply approve_local_certification_runner_Ok in Hr as (rp & rg & -> & Hident & _).
  apply verify_certification_runner_components_Ok in Hcomp as (_ & summary & Hsum & ->).
  apply verify_component_inputs_Ok in Hsum as (Hroles & _ & _ & ->); [|done].
  apply begin_local_certification_run_Ok in Hb as (-> & Hmax & Hfresh & _).
  apply prepare_attested_Ok in Hp as (Hrep & receipt & Hreceipt & ->).
  apply local_certification_receipt_Ok in Hreceipt as (_ & d & Hd & ->).
  unfold certification_artifact_set_digest in Hd. apply result_bind_Ok in Hd as (_ & _ & [= <-]).
  apply publish_attested_run in Hpub as (_ & _ & Hcr & Hcc & Hel & -> & Hvalid & Hin); [|done].
  exists rp, rg, cp, cg. cbv zeta.
  assert (Hmet : policies_met evidence profile identity rp cp).
  { destruct Hmeet as ((pb & Hpb & [= Hpd])%result_bind_Ok & Hp & Ht & (eb & Heb & [= Hed])%result_bind_Ok & Hcl').
    apply result_bind_Ok in Hident as (ib & Hib & [= Hid]). by split_and!; [exists pb|..|exists eb| | |exists ib]. }
  split_and!; [exact Hcr|exact Hcc|exact Hmet|by split_and!|exact Hdisp| |exact Hroles|exact Hel| |exact Hvalid| |exact Hin].
  - split_and!; [exact Hdom| |by apply elem_of_dom]. intros r bs Hr. by destruct (Hfit r bs Hr).
  - rewrite Hmax. unfold from_millis. apply Z.mul_le_mono_nonneg_r; [by vm_compute|done].
  - cbn [attested_attestation]. exact (attestation_accepted _ _).
Qed.
End Pipeline.

(** ** A sample run

    A toy hash (the identity), toy encodings that keep apart what has to be kept
    apart, two policies and one run that goes all the way. *)

#[local] Instance sample_hash : Sha256 := λ bs, bs.
#[local] Instance sample_alloc : Allocator := ample_allocator.
#[local] Instance sample_certify_json : CertifyJson :=
  {| CertifyJsonError := unit; profile_to_vec := λ _, Ok (lit "profile"); evidence_to_vec := λ _, Ok (lit "evidence") |}.
#[local] Instance sample_runner_json : RunnerJson :=
  {| RunnerJsonError := unit; identity_from_slice := λ _, Err tt; identity_to_vec := λ _, Ok (lit "identity");
     descriptor_to_vec := λ d, Ok (byte_of (runner_role_tag (descriptor_role d)) :: lit "descriptor") |}.

Definition sample_profile_checks : CertificationProfileChecks :=
  mkFixedChecks Expected_Passed Expected_Passed Expected_Passed Expected_Passed Expected_Passed Expected_Passed
    Expected_Passed Expected_Passed Expected_Passed Expected_Passed Expected_Passed Expected_Passed Expected_NotApplicable.
Definition sample_profile : CertificationProfile :=
  mkProfile ProfileFormat_V1 Profile_SmokeVerified sample_profile_checks {[lit "chat"]}.
Lemma sample_validates_ok : is_ok (validate_against_profile profile_to_vec sample_evidence sample_profile) = true.
Proof. by vm_compute. Qed.
Definition sample_validated : StructurallyValidatedCertificationEvidence := from_ok _ sample_validates_ok.
Lemma sample_validates : validate_against_profile profile_to_vec sample_evidence sample_profile = Ok sample_validated.
Proof. apply from_ok_eq. Qed.
Definition sample_artifacts : ArtifactMap := {[sample_ref := lit "digest"]}.
Definition sample_artifact_limits : CertificationArtifactVerificationLimits := mkArtifactVerificationLimits 100 1000.
Lemma sample_verifies_ok : is_ok (verify_certification_artifacts sample_validated sample_artifacts sample_artifact_limits) = true.
Proof. by vm_compute. Qed.
Definition sample_verified : VerifiedCertificationArtifacts := from_ok _ sample_verifies_ok.
Lemma sample_verifies : verify_certification_artifacts sample_validated sample_artifacts sample_artifact_limits = Ok sample_verified.
Proof. apply from_ok_eq. Qed.

Definition sample_local_policy : LocalCertificationPolicy :=
  mkLocalPolicy sample_target (lit "profile") (lit "evidence") Class_SmokeVerified (lit "policy revision").
Definition sample_certification_heap : PolicyHeap LocalCertificationPolicy := {[0%nat := Some (policy_store_new sample_local_policy)]}.
Lemma sample_assigns_ok : is_ok (assign_local_certification sample_certification_heap sample_certification_heap sample_verified 0%nat) = true.
Proof. by vm_compute. Qed.
Definition sample_certified : LocallyCertifiedArtifacts := from_ok _ sample_assigns_ok.
Lemma sample_assigns : assign_local_certification sample_certification_heap sample_certification_heap sample_verified 0%nat = Ok sample_certified.
Proof. apply from_ok_eq. Qed.

Definition role_digest (role : CertificationRunnerComponentRole) : Sha256Digest :=
  byte_of (runner_role_tag role) :: lit "descriptor".
Definition sample_identity : CertificationRunnerIdentity :=
  mkRunnerIdentity
    (windows_x86_64 (role_digest Role_RunnerImage) (role_digest Role_HostImage) (role_digest Role_HostPatchSet)
       (role_digest Role_ElectronRuntime) (role_digest Role_LanguageRuntimeSet))
    (mkTooling (role_digest Role_ToolchainSet) (role_digest Role_HostAgent) (role_digest Role_Verifier)
       (role_digest Role_ProbeAssetSet))
    (mkProvenance (role_digest Role_SourceRevision) (role_digest Role_ExceptionProvenance)).
Definition sample_descriptor (role : CertificationRunnerComponentRole) : CertificationRunnerComponentDescriptor :=
  mkDescriptor role (lit "component") (lit "1") (lit "provenance") {[mkComponentArtifact (lit "file") (lit "bytes") 5]}.
Definition sample_descriptors : gmap CertificationRunnerComponentRole CertificationRunnerComponentDescriptor :=
  list_to_map (map (λ role, (role, sample_descriptor role)) runner_roles).
Definition sample_sets : gmap CertificationRunnerComponentRole (gmap CertificationRunnerArtifactName bytes) :=
  list_to_map (map (λ role, (role, {[lit "file" := lit "bytes"]})) runner_roles).
Definition sample_component_limits : CertificationRunnerComponentVerificationLimits := mkComponentLimits 100 100 1000.
Definition sample_runner_policy : LocalCertificationRunnerPolicy := mkRunnerPolicy (lit "identity") (lit "runner revision").
Definition sample_runner_heap : PolicyHeap LocalCertificationRunnerPolicy := {[0%nat := Some (policy_store_new sample_runner_policy)]}.
Lemma sample_approves_ok : is_ok (approve_local_certification_runner sample_runner_heap sample_runner_heap sample_identity 0%nat) = true.
Proof. by vm_compute. Qed.
Definition sample_approved : LocallyApprovedCertificationRunner := from_ok _ sample_approves_ok.
Lemma sample_approves : approve_local_certification_runner sample_runner_heap sample_runner_heap sample_identity 0%nat = Ok sample_approved.
Proof. apply from_ok_eq. Qed.
Lemma sample_components_verified_ok : is_ok (verify_certification_runner_components sample_runner_heap sample_approved sample_descriptors sample_sets
    sample_component_limits) = true.
Proof. by vm_compute. Qed.
Definition sample_components : VerifiedCertificationRunnerComponents := from_ok _ sample_components_verified_ok.
Lemma sample_components_verified : verify_certification_runner_components sample_runner_heap sample_approved sample_descriptors sample_sets
    sample_component_limits = Ok sample_components.
Proof. apply from_ok_eq. Qed.

Definition sample_maximum : Duration := from_millis 60000.
Lemma sample_begins_ok : is_ok (begin_local_certification_run sample_runner_heap 7 1000 sample_components sample_ref sample_maximum) = true.
Proof. by vm_compute. Qed.
Definition sample_pending : PendingLocalCertificationRun := from_ok _ sample_begins_ok.
Lemma sample_begins : begin_local_certification_run sample_runner_heap 7 1000 sample_components sample_ref sample_maximum = Ok sample_pending.
Proof. apply from_ok_eq. Qed.
Lemma sample_prepares_ok : is_ok (prepare_attested_local_certification_publication sample_runner_heap sample_certification_heap sample_pending
    sample_certified) = true.
Proof. by vm_compute. Qed.
Definition sample_prepared : PreparedAttestedLocalCertificationPublication := from_ok _ sample_prepares_ok.
Lemma sample_prepares : prepare_attested_local_certification_publication sample_runner_heap sample_certification_heap sample_pending
    sample_certified = Ok sample_prepared.
Proof. apply from_ok_eq. Qed.
Definition empty_store : PublicationStore AttestedLocalCertificationPublication := mkPublicationStore 4 false [].
Definition sample_now : Instant := 1000 + from_millis 1500.
Lemma sample_publishes_ok : is_ok ((publish_attested_local_certification sample_runner_heap sample_certification_heap sample_now sample_prepared empty_store).1) = true.
Proof. by vm_compute. Qed.
Definition sample_publication : AttestedLocalCertificationPublication := from_ok _ sample_publishes_ok.
Lemma sample_publishes : (publish_attested_local_certification sample_runner_heap sample_certification_heap sample_now sample_prepared empty_store).1 = Ok sample_publication.
Proof. apply from_ok_eq. Qed.
Definition filled_store : PublicationStore AttestedLocalCertificationPublication :=
  (publish_attested_local_certification sample_runner_heap sample_certification_heap sample_now sample_prepared empty_store).2.
Lemma sample_published :
  publish_attested_local_certification sample_runner_heap sample_certification_heap sample_now sample_prepared empty_store =
    (Ok sample_publication, filled_store).
Proof. rewrite <-sample_publishes. apply surjective_pairing. Qed.

Lemma empty_store_ok : publication_store_ok empty_store.
Proof. split; [constructor|by vm_compute]. Qed.
Lemma sample_component_limits_ok : limits_ok sample_component_limits.
Proof. by vm_compute. Qed.
Lemma sample_artifact_limits_within : limits_within sample_artifact_limits.
Proof. by vm_compute. Qed.

Lemma attested_run_sound_witness :
  ∃ rp rg cp cg, current sample_runner_heap (mkDecision rp rg 0%nat) ∧ current sample_certification_heap (mkDecision cp cg 0%nat) ∧
    policies_met sample_evidence sample_profile sample_identity rp cp ∧
    accepts_attestation (pinned_policy sample_identity sample_artifacts sample_ref rp rg cp cg)
      (attested_attestation sample_publication) = true.
Proof.
  destruct (attested_run_sound sample_evidence sample_profile sample_validated sample_artifacts sample_artifact_limits sample_verified
    sample_certification_heap sample_certification_heap sample_certification_heap sample_certification_heap 0%nat sample_certified
    sample_runner_heap sample_runner_heap sample_runner_heap sample_runner_heap sample_runner_heap sample_runner_heap 0%nat
    sample_identity sample_approved sample_descriptors sample_sets sample_component_limits sample_components
    7 1000 sample_now sample_ref sample_maximum sample_pending sample_prepared empty_store sample_publication filled_store
    ample_allocator_ample sample_evidence_ok sample_artifact_limits_within sample_component_limits_ok empty_store_ok
    sample_validates sample_verifies sample_assigns sample_approves sample_components_verified sample_begins sample_prepares
    sample_published) as (rp & rg & cp & cg & Hr & Hc & Hm & _ & _ & _ & _ & _ & _ & Ha & _).
  exists rp, rg, cp, cg. exact (conj Hr (conj Hc (conj Hm Ha))).
Defined.

Lemma publish_attested_exact_witness :
  publication_store_ok filled_store ∧ sample_publication ∈ publications filled_store.
Proof.
  destruct (publish_attested_exact sample_runner_heap sample_certification_heap sample_now sample_prepared empty_store
    (Ok sample_publication) filled_store empty_store_ok sample_published) as (Hok & _ & _ & _ & _ & _ & _ & Hin).
  exact (conj Hok Hin).
Defined.

Lemma verify_component_inputs_exact_witness :
  is_ok (verify_component_inputs sample_identity sample_descriptors sample_sets sample_component_limits) = true ∧
  role_authentic sample_descriptors sample_sets Role_Verifier.
Proof.
  assert (H : is_ok (verify_component_inputs sample_identity sample_descriptors sample_sets sample_component_limits) = true) by (vm_compute; reflexivity).
  split; [exact H|].
  exact (proj2 (proj1 (proj1 (verify_component_inputs_exact sample_identity sample_descriptors sample_sets sample_component_limits
    (from_ok _ H) sample_component_limits_ok) (from_ok_eq _ H)) Role_Verifier)).
Defined.

Lemma artifact_references_bounded_witness :
  len (artifact_references sample_evidence) <= MAX_CERTIFICATION_ARTIFACT_REFERENCES.
Proof. exact (proj1 (artifact_references_bounded sample_evidence sample_evidence_ok)). Defined.

Lemma verify_certification_artifacts_exact_witness : dom sample_artifacts = referenced sample_evidence.
Proof.
  pose proof (proj1 (proj1 (verify_certification_artifacts_exact sample_validated sample_artifacts sample_artifact_limits
    sample_verified ample_allocator_ample sample_evidence_ok sample_artifact_limits_within) sample_verifies)) as H.
  exact H.
Defined.

Lemma assign_local_certification_exact_witness :
  current_class sample_certification_heap sample_certified = Ok Class_SmokeVerified.
Proof.
  apply (proj2 (proj2 (assign_local_certification_exact sample_certification_heap sample_certification_heap sample_verified
    0%nat sample_certified) sample_certification_heap Class_SmokeVerified sample_assigns)).
  split; vm_compute; reflexivity.
Defined.

(** Two sets of one artifact whose digest has 32 bytes, with different contents. *)
Definition typed_ref : CertificationArtifactRef := mkArtifactRef Kind_RuntimeProbe (replicate 32 (byte_of 7)).
Definition typed_verified (bs : bytes) : VerifiedCertificationArtifacts :=
  mkVerifiedArtifacts sample_validated {[typed_ref := bs]} (len bs).
Lemma typed_keys bs : keys_typed (verified_map (typed_verified bs)).
Proof. by apply map_Forall_singleton. Qed.
Lemma typed_digest bs :
  certification_artifact_set_digest (typed_verified bs) = Ok (artifact_set_preimage (verified_map (typed_verified []))).
Proof. reflexivity. Qed.

Lemma artifact_set_digest_identifies_witness :
  dom (verified_map (typed_verified (lit "one"))) = dom (verified_map (typed_verified (lit "two"))) ∨
  artifact_set_preimage (verified_map (typed_verified (lit "one"))) ≠
  artifact_set_preimage (verified_map (typed_verified (lit "two"))).
Proof.
  destruct (artifact_set_digest_identifies (typed_verified (lit "one")) (typed_verified (lit "two")) _
    (typed_keys _) (typed_keys _) (typed_digest _) (typed_digest _)) as [H|[H _]]; [left|right]; exact H.
Defined.

Lemma commit_publication_invariant_witness :
  publication_store_ok (commit_publication (E := AttestedCertificationPublicationError) sample_publication empty_store).2.
Proof.
  exact (proj1 (commit_publication_invariant sample_publication empty_store _ _ empty_store_ok (surjective_pairing _))).
Defined.
