(* ===== verification/Ledger.v ===== *)
(** * Ledger: the hash-chained certification ledger

    Models [crates/weregopher-transform/src/certification_ledger.rs]: the
    projection of the recorded events, the replay of a ledger directory, and the
    operations that create, open and append.

    The directory is a map from names to entries beside the kind of the root.
    What the operating system does to one call is an [Io]: the fault of each
    operation, how much of a record a failing write leaves behind, and the order
    in which entries are enumerated.  A [Mutex] is its content with the flag that
    it was poisoned. *)

From S2P Require Import Prelude Text Wire Evidence ControlPlane.

Definition RECORD_FILE_DIGITS : Z := 20.
Definition RECORD_FILE_SUFFIX : str := lit ".json".

Record LocalCertificationLedgerAppendReceipt : Type := mkAppendReceipt {
  append_sequence : Z;
  append_record_digest : Sha256Digest;
  append_record_count : Z;
  append_total_record_bytes : Z
}.

(** ** The directory *)

(** An [OsStr]; not every name is text. *)
Definition OsString : Type := bytes.

Inductive EntryKind : Type := Entry_File | Entry_Directory | Entry_Link | Entry_Other.
#[global] Instance EntryKind_eq_dec : EqDecision EntryKind.
Proof. solve_decision. Defined.

Record Entry : Type := mkEntry {
  entry_kind : EntryKind;
  entry_bytes : bytes
}.

(** The ledger root, when something is there, and what it contains. *)
Record Disk : Type := mkDisk {
  root_kind : option EntryKind;
  disk_entries : gmap OsString Entry
}.

Inductive io_operation : Type :=
| Io_CreateDir | Io_InspectRoot | Io_ReadDir | Io_ReadEntry (name : OsString) | Io_InspectEntry (name : OsString)
| Io_InspectRecord (sequence : Z) | Io_OpenRecord (sequence : Z) | Io_ReadRecord (sequence : Z)
| Io_CreateRecord (sequence : Z) | Io_WriteRecord (sequence : Z) | Io_SyncRecord (sequence : Z).

Record Io (IoError : Type) : Type := mkIo {
  io_fault : io_operation → option IoError;
  io_written : nat;
  io_enumerate : gmap OsString Entry → list (OsString * Entry)
}.
Arguments mkIo {_}. Arguments io_fault {_}. Arguments io_written {_}. Arguments io_enumerate {_}.

(** ** Record file names *)

(** [{sequence:020}]. *)
Definition pad_digits (width : Z) (s : str) : str := replicate (Z.to_nat (width - len s)) (chr "0") ++ s.
Definition record_filename (sequence : Z) : OsString :=
  pad_digits RECORD_FILE_DIGITS (usize_to_string sequence) ++ RECORD_FILE_SUFFIX.

(** [str::strip_suffix]. *)
Definition strip_suffix (suffix s : str) : option str :=
  if bool_decide (drop (length s - length suffix) s = suffix) then Some (take (length s - length suffix) s) else None.

Definition is_ascii_digit (b : byte) : bool := in_range 48 57 (byte_val b).

Definition parse_record_filename (name : OsString) : option Z :=
  if negb (utf8_valid name) then None
  else match strip_suffix RECORD_FILE_SUFFIX name with
       | None => None
       | Some digits =>
         if negb (len digits =? RECORD_FILE_DIGITS) || negb (forallb is_ascii_digit digits) then None
         else match parse_usize digits with
              | None => None
              | Some sequence =>
                if (sequence =? 0) || negb (bool_decide (record_filename sequence = name)) then None
                else Some sequence
              end
       end.

Section Ledger.
Context `{CJ : ControlJson} `{HS : Sha256} `{Alloc : Allocator} {IoError : Type}.
Abbreviation Io := (Io IoError).

Inductive LocalCertificationLedgerError : Type :=
| LedgerRootAlreadyExists
| CreateLedgerRoot (source : IoError)
| InspectLedgerRoot (source : option IoError)
| UnsafeLedgerRoot
| ReadLedgerDirectory (source : IoError)
| ReadLedgerEntry (source : IoError)
| InspectLedgerEntry (name : OsString) (source : option IoError)
| UnsafeLedgerEntry (name : OsString)
| UnknownLedgerEntry (name : OsString)
| EntryAllocationFailed
| TooManyRecords
| MissingGenesis
| UnexpectedGenesis
| SequenceGap (expected actual : Z)
| RecordTooLarge (sequence : Z)
| TotalRecordBytesExceeded
| OpenRecord (sequence : Z) (source : option IoError)
| RecordAllocationFailed (sequence : Z)
| ReadRecord (sequence : Z) (source : IoError)
| InvalidRecord (sequence : Z) (source : LocalCertificationLedgerDocumentError JsonError IoError)
| NonCanonicalRecord (sequence : Z)
| RecordSequenceMismatch (filename_sequence record_sequence : Z)
| PreviousRecordMismatch (sequence : Z)
| CanonicalRecordUnavailable (source : JsonError)
| HeadMismatch (expected actual : Sha256Digest)
| StaleWriter (expected actual : Sha256Digest)
| RecordAlreadyExists (sequence : Z)
| CreateRecord (sequence : Z) (source : IoError)
| WriteRecord (sequence : Z) (source : IoError)
| SyncRecord (sequence : Z) (source : IoError)
| Ledger_Contract (source : LocalCertificationLedgerContractError JsonError)
| ControlPolicyMismatch
| RunnerPolicyRevoked
| CertificationPolicyRevoked
| FreshnessChallengeReplayed
| PolicyGenerationExhausted
| NonMonotonicPolicyGeneration (expected_runner actual_runner expected_certification actual_certification : Z)
| StatePoisoned.

(** ** The projection *)

Record LedgerProjection : Type := mkProjection {
  projection_policy : CertificationControlPolicy;
  runner_generation : Z;
  certification_generation : Z;
  runner_revoked : bool;
  certification_revoked : bool;
  freshness_challenges : gset Uuid
}.

Definition from_genesis (genesis : LocalCertificationLedgerGenesis) : LedgerProjection :=
  mkProjection (genesis_policy genesis) (run_policy_generation (control_runner (genesis_policy genesis)))
    (control_policy_generation (genesis_policy genesis)) false false
    {[challenge (attestation_freshness (genesis_attestation genesis))]}.

Definition apply_publication (attestation : LocalCertificationRunAttestation) (self : LedgerProjection) :
    result LedgerProjection LocalCertificationLedgerError :=
  do? reject (runner_revoked self) RunnerPolicyRevoked in
  do? reject (certification_revoked self) CertificationPolicyRevoked in
  do? reject (negb (accepts_attestation (projection_policy self) attestation)) ControlPolicyMismatch in
  let c := challenge (attestation_freshness attestation) in
  do? reject (bool_decide (c ∈ freshness_challenges self)) FreshnessChallengeReplayed in
  Ok (mkProjection (projection_policy self) (runner_generation self) (certification_generation self)
        (runner_revoked self) (certification_revoked self) ({[c]} ∪ freshness_challenges self)).

Definition apply_event (event : LocalCertificationLedgerEvent) (self : LedgerProjection) :
    result LedgerProjection LocalCertificationLedgerError :=
  match event with
  | Event_Genesis _ => Err UnexpectedGenesis
  | Event_Publication publication => apply_publication (publication_attestation publication) self
  | Event_PolicyReplacement policy =>
    let? expected_runner := ok_or (checked_add u64_max (runner_generation self) 1) PolicyGenerationExhausted in
    let? expected_certification :=
      ok_or (checked_add u64_max (certification_generation self) 1) PolicyGenerationExhausted in
    let actual_runner := run_policy_generation (control_runner policy) in
    let actual_certification := control_policy_generation policy in
    do? reject (negb (actual_runner =? expected_runner) || negb (actual_certification =? expected_certification))
      (NonMonotonicPolicyGeneration expected_runner actual_runner expected_certification actual_certification) in
    Ok (mkProjection policy actual_runner actual_certification false false (freshness_challenges self))
  | Event_CertificationRevocation _ =>
    let? generation := ok_or (checked_add u64_max (certification_generation self) 1) PolicyGenerationExhausted in
    Ok (mkProjection (projection_policy self) (runner_generation self) generation (runner_revoked self) true
          (freshness_challenges self))
  | Event_RunnerRevocation _ =>
    let? generation := ok_or (checked_add u64_max (runner_generation self) 1) PolicyGenerationExhausted in
    Ok (mkProjection (projection_policy self) generation (certification_generation self) true
          (certification_revoked self) (freshness_challenges self))
  end.

Record LedgerState : Type := mkLedgerState {
  last_record : LocalCertificationLedgerRecord;
  head_digest : Sha256Digest;
  record_count : Z;
  total_record_bytes : Z;
  projection : LedgerProjection
}.

Record LocalCertificationLedger : Type := mkLedger {
  ledger_poisoned : bool;
  ledger_state : LedgerState
}.

(** ** File operations *)

Definition faulting {E} (io : Io) (op : io_operation) (e : IoError → E) : result unit E :=
  match io_fault io op with Some source => Err (e source) | None => Ok tt end.

Definition validate_ledger_root (io : Io) (disk : Disk) : result unit LocalCertificationLedgerError :=
  do? faulting io Io_InspectRoot (λ e, InspectLedgerRoot (Some e)) in
  match root_kind disk with
  | None => Err (InspectLedgerRoot None)
  | Some kind => reject (bool_decide (kind ≠ Entry_Directory)) UnsafeLedgerRoot
  end.

(** The first failure is the inspection of the entry; a link or anything but a
    regular file is unsafe; the content is read through the ceiling. *)
Definition read_record_bytes (io : Io) (name : OsString) (entry : Entry) (sequence : Z) :
    result bytes LocalCertificationLedgerError :=
  do? faulting io (Io_InspectRecord sequence) (λ e, InspectLedgerEntry name (Some e)) in
  do? reject (bool_decide (entry_kind entry ≠ Entry_File)) (UnsafeLedgerEntry name) in
  do? reject (MAX_LOCAL_CERTIFICATION_LEDGER_RECORD_BYTES <? len (entry_bytes entry)) (RecordTooLarge sequence) in
  do? faulting io (Io_OpenRecord sequence) (λ e, OpenRecord sequence (Some e)) in
  let reserve_bytes := Z.min (len (entry_bytes entry)) MAX_LOCAL_CERTIFICATION_LEDGER_RECORD_BYTES in
  do? reject (negb (Alloc reserve_bytes)) (RecordAllocationFailed sequence) in
  let? limit := ok_or (checked_add u64_max MAX_LOCAL_CERTIFICATION_LEDGER_RECORD_BYTES 1) (RecordTooLarge sequence) in
  let? bs := map_err (ReadRecord sequence)
    (take_to_end limit (mkReader (entry_bytes entry) (io_fault io (Io_ReadRecord sequence)))) in
  do? reject (MAX_LOCAL_CERTIFICATION_LEDGER_RECORD_BYTES <? len bs) (RecordTooLarge sequence) in
  Ok bs.

(** The enumerating loop of [replay_directory]. *)
Fixpoint collect_entries (io : Io) (found : list (OsString * Entry)) (entries : list (Z * (OsString * Entry))) :
    result (list (Z * (OsString * Entry))) LocalCertificationLedgerError :=
  match found with
  | [] => Ok entries
  | (name, entry) :: found =>
    do? faulting io (Io_ReadEntry name) ReadLedgerEntry in
    do? faulting io (Io_InspectEntry name) (λ e, InspectLedgerEntry name (Some e)) in
    do? reject (bool_decide (entry_kind entry ≠ Entry_File)) (UnsafeLedgerEntry name) in
    let? sequence := ok_or (parse_record_filename name) (UnknownLedgerEntry name) in
    do? reject (MAX_LOCAL_CERTIFICATION_LEDGER_RECORDS <=? len entries) TooManyRecords in
    do? reject (negb (Alloc 1)) EntryAllocationFailed in
    collect_entries io found (entries ++ [(sequence, (name, entry))])
  end.

(** ** Replay *)

(** What the replay loop carries from one record to the next. *)
Record replay_state : Type := mkReplay {
  replay_total : Z;
  previous_record : option LocalCertificationLedgerRecord;
  previous_digest : option Sha256Digest;
  replay_projection : option LedgerProjection
}.

Definition replay_record (io : Io) (index : Z) (item : Z * (OsString * Entry)) (st : replay_state) :
    result replay_state LocalCertificationLedgerError :=
  let '(sequence, (name, entry)) := item in
  let? expected_sequence := ok_or (checked_add u64_max index 1) TooManyRecords in
  do? reject (negb (sequence =? expected_sequence)) (SequenceGap expected_sequence sequence) in
  let? bs := read_record_bytes io name entry sequence in
  let? total := ok_or (checked_add usize_max (replay_total st) (len bs)) TotalRecordBytesExceeded in
  do? reject (MAX_LOCAL_CERTIFICATION_LEDGER_BYTES <? total) TotalRecordBytesExceeded in
  let? record := map_err (InvalidRecord sequence) (record_from_json_slice bs) in
  let? canonical := map_err CanonicalRecordUnavailable (record_to_vec record) in
  do? reject (bool_decide (bs ≠ canonical)) (NonCanonicalRecord sequence) in
  do? reject (negb (record_sequence record =? sequence)) (RecordSequenceMismatch sequence (record_sequence record)) in
  do? reject (bool_decide (record_previous_digest record ≠ previous_digest st)) (PreviousRecordMismatch sequence) in
  let? projection :=
    match replay_projection st, record_event record with
    | None, Event_Genesis genesis => Ok (from_genesis genesis)
    | None, _ => Err MissingGenesis
    | Some existing, event => apply_event event existing
    end in
  let? digest := map_err CanonicalRecordUnavailable (record_canonical_document_digest record) in
  Ok (mkReplay total (Some record) (Some digest) (Some projection)).

Fixpoint replay_records (io : Io) (index : Z) (items : list (Z * (OsString * Entry))) (st : replay_state) :
    result replay_state LocalCertificationLedgerError :=
  match items with
  | [] => Ok st
  | item :: items =>
    let? st := replay_record io index item st in
    replay_records io (index + 1) items st
  end.

Definition sort_entries (entries : list (Z * (OsString * Entry))) : list (Z * (OsString * Entry)) :=
  merge_sort (λ a b, Is_true (a.1 <=? b.1)) entries.

Definition replay_directory (io : Io) (disk : Disk) (expected_head : option Sha256Digest) :
    result LedgerState LocalCertificationLedgerError :=
  do? validate_ledger_root io disk in
  do? reject (negb (Alloc (Z.min MAX_LOCAL_CERTIFICATION_LEDGER_RECORDS 256))) EntryAllocationFailed in
  do? faulting io Io_ReadDir ReadLedgerDirectory in
  let? entries := collect_entries io (io_enumerate io (disk_entries disk)) [] in
  do? reject (bool_decide (entries = [])) MissingGenesis in
  let? st := replay_records io 0 (sort_entries entries) (mkReplay 0 None None None) in
  let? head := ok_or (previous_digest st) MissingGenesis in
  do? match expected_head with
      | Some expected => reject (bool_decide (expected ≠ head)) (HeadMismatch expected head)
      | None => Ok tt
      end in
  let? last := ok_or (previous_record st) MissingGenesis in
  let? projection := ok_or (replay_projection st) MissingGenesis in
  Ok (mkLedgerState last head (record_sequence last) (replay_total st) projection).

(** ** Writing *)

Definition canonical_record_bytes (record : LocalCertificationLedgerRecord) :
    result bytes LocalCertificationLedgerError :=
  let? bs := map_err CanonicalRecordUnavailable (record_to_vec record) in
  do? reject (MAX_LOCAL_CERTIFICATION_LEDGER_RECORD_BYTES <? len bs) (RecordTooLarge (record_sequence record)) in
  Ok bs.

Definition set_entry (name : OsString) (bs : bytes) (disk : Disk) : Disk :=
  mkDisk (root_kind disk) (<[name := mkEntry Entry_File bs]> (disk_entries disk)).

(** [OpenOptions::create_new]: the file must not exist and begins empty. *)
Definition create_record (io : Io) (sequence : Z) : mut Disk LocalCertificationLedgerError unit :=
  let* disk := mut_get in
  do* mut_lift (validate_ledger_root io disk) in
  let name := record_filename sequence in
  do* mut_lift (reject (bool_decide (is_Some (disk_entries disk !! name))) (RecordAlreadyExists sequence)) in
  do* mut_lift (faulting io (Io_CreateRecord sequence) (CreateRecord sequence)) in
  mut_put (set_entry name [] disk).

(** [write_all]; a failing write leaves a prefix. *)
Definition write_record (io : Io) (sequence : Z) (bs : bytes) : mut Disk LocalCertificationLedgerError unit :=
  let* disk := mut_get in
  do* mut_put (set_entry (record_filename sequence)
        (match io_fault io (Io_WriteRecord sequence) with Some _ => take (io_written io) bs | None => bs end) disk) in
  mut_lift (faulting io (Io_WriteRecord sequence) (WriteRecord sequence)).

(** [sync_all]. *)
Definition sync_record (io : Io) (sequence : Z) : result unit LocalCertificationLedgerError :=
  faulting io (Io_SyncRecord sequence) (SyncRecord sequence).

Definition write_record_create_new (io : Io) (sequence : Z) (bs : bytes) : mut Disk LocalCertificationLedgerError unit :=
  do* create_record io sequence in
  do* write_record io sequence bs in
  mut_lift (sync_record io sequence).

(** ** The ledger operations *)

Definition ledger_create (io : Io) (policy : CertificationControlPolicy)
    (attestation : LocalCertificationRunAttestation) : mut Disk LocalCertificationLedgerError LocalCertificationLedger :=
  let* genesis := mut_lift (map_err Ledger_Contract (genesis_new policy attestation)) in
  let* record := mut_lift (map_err Ledger_Contract (record_genesis genesis)) in
  let* disk := mut_get in
  do* mut_lift (reject (bool_decide (is_Some (root_kind disk))) LedgerRootAlreadyExists) in
  do* mut_lift (faulting io Io_CreateDir CreateLedgerRoot) in
  let disk := mkDisk (Some Entry_Directory) ∅ in
  do* mut_put disk in
  do* mut_lift (validate_ledger_root io disk) in
  let* bs := mut_lift (canonical_record_bytes record) in
  do* write_record_create_new io (record_sequence record) bs in
  let* head := mut_lift (map_err CanonicalRecordUnavailable (record_canonical_document_digest record)) in
  let* disk := mut_get in
  let* state := mut_lift (replay_directory io disk (Some head)) in
  mut_ret (mkLedger false state).

Definition ledger_open (io : Io) (disk : Disk) (expected_head : Sha256Digest) :
    result LocalCertificationLedger LocalCertificationLedgerError :=
  let? state := replay_directory io disk (Some expected_head) in
  Ok (mkLedger false state).

Definition lock (self : LocalCertificationLedger) : result LedgerState LocalCertificationLedgerError :=
  do? reject (ledger_poisoned self) StatePoisoned in Ok (ledger_state self).

(** What [append_event] has computed when it reaches the write. *)
Record planned_append : Type := mkPlanned {
  planned_record : LocalCertificationLedgerRecord;
  planned_bytes : bytes;
  planned_total : Z;
  planned_projection : LedgerProjection
}.

(** [append_event] up to the write. *)
Definition plan_append (io : Io) (disk : Disk) (state : LedgerState) (event : LocalCertificationLedgerEvent) :
    result planned_append LocalCertificationLedgerError :=
  let? observed := replay_directory io disk None in
  do? reject (bool_decide (head_digest observed ≠ head_digest state) ||
              negb (record_count observed =? record_count state) ||
              negb (total_record_bytes observed =? total_record_bytes state))
    (StaleWriter (head_digest state) (head_digest observed)) in
  do? reject (MAX_LOCAL_CERTIFICATION_LEDGER_RECORDS <=? record_count state) TooManyRecords in
  let? projection := apply_event event (projection state) in
  let? record := map_err Ledger_Contract (record_next (last_record state) event) in
  let? bs := canonical_record_bytes record in
  let? total := ok_or (checked_add usize_max (total_record_bytes state) (len bs)) TotalRecordBytesExceeded in
  do? reject (MAX_LOCAL_CERTIFICATION_LEDGER_BYTES <? total) TotalRecordBytesExceeded in
  Ok (mkPlanned record bs total projection).

(** The new state of [append_event], once the record is written. *)
Definition record_append (state : LedgerState) (planned : planned_append) :
    result LedgerState LocalCertificationLedgerError :=
  let record := planned_record planned in
  let? head := map_err CanonicalRecordUnavailable (record_canonical_document_digest record) in
  let? count := ok_or (checked_add usize_max (record_count state) 1) TooManyRecords in
  Ok (mkLedgerState record head count (planned_total planned) (planned_projection planned)).

(** The write and the new state of [append_event]. *)
Definition commit_append (io : Io) (state : LedgerState) (planned : planned_append) :
    mut Disk LocalCertificationLedgerError LedgerState :=
  do* write_record_create_new io (record_sequence (planned_record planned)) (planned_bytes planned) in
  mut_lift (record_append state planned).

Definition append_receipt (state : LedgerState) : LocalCertificationLedgerAppendReceipt :=
  mkAppendReceipt (record_sequence (last_record state)) (head_digest state) (record_count state)
    (total_record_bytes state).

(** A call changes the directory and, when it succeeds, the state under the
    mutex. *)
Definition ledger_world : Type := Disk * LocalCertificationLedger.

Definition append_event (io : Io) (event : LocalCertificationLedgerEvent) :
    mut ledger_world LocalCertificationLedgerError LocalCertificationLedgerAppendReceipt :=
  λ '(disk, self),
  match result_bind (lock self) (λ state, plan_append io disk state event) with
  | Err e => (Err e, (disk, self))
  | Ok planned =>
    match commit_append io (ledger_state self) planned disk with
    | (Err e, disk') => (Err e, (disk', self))
    | (Ok state', disk') => (Ok (append_receipt state'), (disk', mkLedger (ledger_poisoned self) state'))
    end
  end.

Definition append_publication (io : Io) (attestation : LocalCertificationRunAttestation) :
    mut ledger_world LocalCertificationLedgerError LocalCertificationLedgerAppendReceipt :=
  let* event := mut_lift (map_err Ledger_Contract (event_publication attestation)) in
  append_event io event.
Definition ledger_replace_policy (io : Io) (policy : CertificationControlPolicy) :
    mut ledger_world LocalCertificationLedgerError LocalCertificationLedgerAppendReceipt :=
  append_event io (Event_PolicyReplacement policy).
Definition revoke_certification (io : Io) (evidence_digest : Sha256Digest) :
    mut ledger_world LocalCertificationLedgerError LocalCertificationLedgerAppendReceipt :=
  append_event io (Event_CertificationRevocation evidence_digest).
Definition revoke_runner (io : Io) (evidence_digest : Sha256Digest) :
    mut ledger_world LocalCertificationLedgerError LocalCertificationLedgerAppendReceipt :=
  append_event io (Event_RunnerRevocation evidence_digest).

Definition ledger_head_digest (self : LocalCertificationLedger) : result Sha256Digest LocalCertificationLedgerError :=
  let? state := lock self in Ok (head_digest state).
Definition ledger_record_count (self : LocalCertificationLedger) : result Z LocalCertificationLedgerError :=
  let? state := lock self in Ok (record_count state).
Definition ledger_total_record_bytes (self : LocalCertificationLedger) : result Z LocalCertificationLedgerError :=
  let? state := lock self in Ok (total_record_bytes state).
Definition ledger_control_policy (self : LocalCertificationLedger) :
    result CertificationControlPolicy LocalCertificationLedgerError :=
  let? state := lock self in Ok (projection_policy (projection state)).
End Ledger.
