(* ===== verification/LedgerLaws.v ===== *)
(** * LedgerLaws: the ledger as an append-only hash chain

    Record file names, the chain a directory holds, and the refinement between
    the two: a directory replays exactly when it holds a chain. *)

From S2P Require Import Prelude Text Wire Evidence ControlPlane Ledger.

(** ** File names *)

(** The twenty digits of a sequence number. *)
Definition filename_digits (n : Z) : list Z :=
  replicate (20 - length (digits_rev 20 n)) 0 ++ rev (digits_rev 20 n).

Lemma digits_rev_bounded fuel n : (length (digits_rev fuel n) <= fuel)%nat.
Proof.
  revert n. induction fuel as [|fuel IH]; intros n; cbn [digits_rev length]; [done|].
  apply le_n_S. destruct (n <? 10); [cbn; lia|apply IH].
Qed.

Lemma record_filename_digits n : record_filename n = (digit_byte <$> filename_digits n) ++ RECORD_FILE_SUFFIX.
Proof.
  unfold record_filename, pad_digits, filename_digits, usize_to_string. f_equal. rewrite fmap_app, fmap_replicate.
  f_equal. unfold len, RECORD_FILE_DIGITS. rewrite length_fmap, length_rev. change (digit_byte 0) with (chr "0").
  f_equal. pose proof (digits_rev_bounded 20 n). lia.
Qed.

Lemma filename_digits_length n : length (filename_digits n) = 20%nat.
Proof.
  unfold filename_digits. rewrite length_app, length_replicate, length_rev.
  pose proof (digits_rev_bounded 20 n). lia.
Qed.

Lemma filename_digits_range n : 0 <= n → Forall (λ d, 0 <= d < 10) (filename_digits n).
Proof.
  intros Hn. apply Forall_app. split; [apply Forall_replicate; lia|]. by apply Forall_rev, digits_rev_range.
Qed.

Lemma filename_digits_value n : 0 <= n <= u64_max → digits_value 0 (filename_digits n) = n.
Proof.
  intros Hn. unfold filename_digits. rewrite digits_value_app.
  assert (Hz : ∀ k, digits_value 0 (replicate k 0) = 0) by (intros k; induction k as [|k IH]; [done|exact IH]).
  rewrite Hz. apply digits_rev_value. unfold u64_max in Hn. change (10 ^ Z.of_nat 20) with 100000000000000000000. lia.
Qed.

Lemma byte_val_digit d : 0 <= d < 10 → byte_val (digit_byte d) = 48 + d.
Proof. intros Hd. unfold digit_byte. rewrite byte_val_of, Z.mod_small by lia. done. Qed.

Lemma utf8_valid_ascii s : Forall (λ b, byte_val b < 0x80) s → utf8_valid s = true.
Proof.
  induction 1 as [|b s Hb _ IH]; [done|]. cbn [utf8_valid].
  by rewrite (proj2 (Z.ltb_lt (byte_val b) 0x80) Hb).
Qed.

Lemma parse_usize_digits ds :
  (1 < length ds)%nat → Forall (λ d, 0 <= d < 10) ds → digits_value 0 ds <= usize_max →
  parse_usize (digit_byte <$> ds) = Some (digits_value 0 ds).
Proof.
  intros Hlen Hds Hv. pose proof (parse_digits_value 0 ds ltac:(lia) Hds Hv) as Hp.
  destruct ds as [|d [|e ds]]; [cbn in Hlen; lia..|]. unfold parse_usize.
  cbn [fmap list_fmap]. change (digit_byte e :: (digit_byte <$> ds)) with (digit_byte <$> e :: ds).
  cbn [fmap list_fmap]. rewrite bool_decide_eq_false_2; [done|].
  intros H%(f_equal byte_val). apply Forall_cons in Hds as [Hd _]. rewrite byte_val_digit in H by done.
  change (byte_val (chr "+")) with 43 in H. lia.
Qed.

Lemma filename_bytes n : 0 <= n → Forall (λ b, byte_val b < 0x80) (record_filename n).
Proof.
  intros Hn. rewrite record_filename_digits. apply Forall_app. split; [|by repeat constructor].
  apply Forall_fmap. eapply Forall_impl; [by apply filename_digits_range|]. intros d Hd. unfold compose. cbv beta in *.
  rewrite byte_val_digit by done. lia.
Qed.

Lemma strip_suffix_app pre suf s : s = pre ++ suf → strip_suffix suf s = Some pre.
Proof.
  intros ->. unfold strip_suffix.
  assert (Hlen : (length (pre ++ suf) - length suf)%nat = length pre) by (rewrite length_app; lia).
  by rewrite Hlen, drop_app_length, take_app_length, bool_decide_eq_true_2.
Qed.

(** The only name a sequence number has is its own. *)
Lemma parse_record_filename_of n : 0 < n <= u64_max → parse_record_filename (record_filename n) = Some n.
Proof.
  intros Hn. unfold parse_record_filename. rewrite utf8_valid_ascii by (apply filename_bytes; lia). cbn [negb].
  rewrite (strip_suffix_app (digit_byte <$> filename_digits n)) by apply record_filename_digits.
  assert (Hl : len (digit_byte <$> filename_digits n) = RECORD_FILE_DIGITS).
  { unfold len. by rewrite length_fmap, filename_digits_length. }
  rewrite Hl, Z.eqb_refl. cbn [negb orb].
  assert (Hd : forallb is_ascii_digit (digit_byte <$> filename_digits n) = true).
  { apply forallb_forall. intros b Hb%list_elem_of_In. apply list_elem_of_fmap in Hb as (d & -> & Hd).
    pose proof (filename_digits_range n ltac:(lia)) as Hr. rewrite Forall_forall in Hr. specialize (Hr d Hd).
    unfold is_ascii_digit. rewrite byte_val_digit by done. apply in_range_true. lia. }
  rewrite Hd. cbn [negb]. rewrite parse_usize_digits, filename_digits_value;
    [|lia|rewrite filename_digits_length; lia|apply filename_digits_range; lia|rewrite filename_digits_value by lia; unfold usize_max; lia].
  rewrite (proj2 (Z.eqb_neq n 0)) by lia. by rewrite bool_decide_eq_true_2.
Qed.

Lemma parse_record_filename_Some name n : parse_record_filename name = Some n → name = record_filename n.
Proof.
  unfold parse_record_filename. destruct (negb (utf8_valid name)); [done|].
  destruct (strip_suffix _ name) as [digits|]; [|done]. destruct (_ || _); [done|].
  destruct (parse_usize digits) as [m|]; [|done]. case_bool_decide as Heq; [|by rewrite orb_true_r].
  rewrite orb_false_r. destruct (m =? 0); [done|]. by intros [= <-].
Qed.

Lemma parse_record_filename_range name n : parse_record_filename name = Some n → n ≠ 0.
Proof.
  unfold parse_record_filename. destruct (negb (utf8_valid name)); [done|].
  destruct (strip_suffix _ name) as [digits|]; [|done]. destruct (_ || _); [done|].
  destruct (parse_usize digits) as [m|]; [|done]. destruct (Z.eqb_spec m 0); [done|]. cbn.
  destruct (negb _); [done|]. by intros [= <-].
Qed.

(** sequence numbers and record file names correspond exactly: the name of
    every nonzero 64-bit sequence reads back as that sequence, and no other name
    reads as it, so a directory has one possible file per record. *)
Theorem record_filename_roundtrip name n :
  0 < n <= u64_max → parse_record_filename name = Some n ↔ name = record_filename n.
Proof.
  intros Hn. split; [apply parse_record_filename_Some|]. intros ->. by apply parse_record_filename_of.
Qed.

Lemma record_filename_roundtrip_witness :
  parse_record_filename (lit "00000000000000000042.json") = Some 42.
Proof. apply (record_filename_roundtrip _ 42); [by vm_compute|by vm_compute]. Defined.

Lemma record_filename_inj n m : 0 < n <= u64_max → 0 < m <= u64_max → record_filename n = record_filename m → n = m.
Proof.
  intros Hn Hm Heq. apply parse_record_filename_of in Hn, Hm. rewrite Heq, Hm in Hn. by injection Hn.
Qed.

(** ** Well-typed documents *)

Section Chain.
Context `{CJ : ControlJson} `{HS : Sha256} `{Alloc : Allocator} {IoError : Type}.
Abbreviation Io := (Io IoError).
Abbreviation Error := (LocalCertificationLedgerError (IoError := IoError)).

(** What the constructors of policies and attestations guarantee of every value. *)
Definition policy_typed (p : CertificationControlPolicy) : Prop := control_policy_validate p = Ok tt.
Definition attestation_typed (a : LocalCertificationRunAttestation) : Prop := attestation_into_checked a = Ok a.
Definition event_typed (e : LocalCertificationLedgerEvent) : Prop :=
  match e with
  | Event_Genesis g => policy_typed (genesis_policy g) ∧ attestation_typed (genesis_attestation g)
  | Event_Publication p => attestation_typed (publication_attestation p)
  | Event_PolicyReplacement p => policy_typed p
  | Event_CertificationRevocation _ | Event_RunnerRevocation _ => True
  end.

Lemma freshness_new_Ok c m t f : freshness_new c m t = Ok f → f = mkFreshness c m t.
Proof. unfold freshness_new. intros H. by inv_ok. Qed.
Lemma run_runner_new_Ok a b c g r : run_runner_new a b c g = Ok r → r = mkRunRunner a b c g.
Proof. unfold run_runner_new. intros H. by inv_ok. Qed.
Lemma run_result_new_Ok a b c d e f g h i j r :
  run_result_new a b c d e f g h i j = Ok r → r = mkRunResult a b c d e f g h i j.
Proof. unfold run_result_new. intros H. by inv_ok. Qed.

Lemma freshness_deserialize_Ok u f : freshness_deserialize u = Ok f ↔ f = u ∧ freshness_validate u = Ok tt.
Proof.
  unfold freshness_deserialize, freshness_validate. rewrite map_err_Ok.
  destruct (freshness_new _ _ _) as [f'|] eqn:E; cbn [result_bind]; [|by split; [|intros [_ ?]]].
  apply freshness_new_Ok in E as ->. destruct u. cbn. split; [by intros [= <-]|by intros [-> _]].
Qed.
Lemma run_runner_deserialize_Ok u f : run_runner_deserialize u = Ok f ↔ f = u ∧ run_runner_validate u = Ok tt.
Proof.
  unfold run_runner_deserialize, run_runner_validate. rewrite map_err_Ok.
  destruct (run_runner_new _ _ _ _) as [f'|] eqn:E; cbn [result_bind]; [|by split; [|intros [_ ?]]].
  apply run_runner_new_Ok in E as ->. destruct u. cbn. split; [by intros [= <-]|by intros [-> _]].
Qed.
Lemma run_result_deserialize_Ok u f : run_result_deserialize u = Ok f ↔ f = u ∧ run_result_validate u = Ok tt.
Proof.
  unfold run_result_deserialize, run_result_validate. rewrite map_err_Ok.
  destruct (run_result_new _ _ _ _ _ _ _ _ _ _) as [f'|] eqn:E; cbn [result_bind]; [|by split; [|intros [_ ?]]].
  apply run_result_new_Ok in E as ->. destruct u. cbn. split; [by intros [= <-]|by intros [-> _]].
Qed.

Lemma attestation_into_checked_Ok u a :
  attestation_into_checked u = Ok a ↔ a = u ∧ freshness_validate (attestation_freshness u) = Ok tt ∧
    run_runner_validate (attestation_runner u) = Ok tt ∧ run_result_validate (attestation_result u) = Ok tt.
Proof.
  unfold attestation_into_checked.
  destruct (freshness_validate _) as [[]|]; cbn [result_bind]; [|by split; [|intros (_ & ? & _)]].
  destruct (run_runner_validate _) as [[]|]; cbn [result_bind]; [|by split; [|intros (_ & _ & ? & _)]].
  destruct (run_result_validate _) as [[]|]; cbn [result_bind]; [|by split; [|intros (_ & _ & _ & ?)]].
  split; [by intros [= <-]|by intros [-> _]].
Qed.

Lemma unchecked_attestation_deserialize_Ok u a :
  unchecked_attestation_deserialize u = Ok a ↔ a = u ∧ attestation_typed u.
Proof.
  unfold attestation_typed. rewrite attestation_into_checked_Ok. unfold unchecked_attestation_deserialize. split.
  - intros H. apply result_bind_Ok in H as (f & [-> Hf]%freshness_deserialize_Ok & H).
    apply result_bind_Ok in H as (r & [-> Hr]%run_runner_deserialize_Ok & H).
    apply result_bind_Ok in H as (s & [-> Hs]%run_result_deserialize_Ok & [= <-]). by destruct u.
  - intros (-> & _ & Hf & Hr & Hs). rewrite (proj2 (freshness_deserialize_Ok _ _)) by done. cbn [result_bind].
    rewrite (proj2 (run_runner_deserialize_Ok _ _)) by done. cbn [result_bind].
    rewrite (proj2 (run_result_deserialize_Ok _ _)) by done. by destruct u.
Qed.

Lemma control_policy_deserialize_Ok u p : control_policy_deserialize u = Ok p ↔ p = u ∧ policy_typed u.
Proof.
  unfold control_policy_deserialize, policy_typed, control_policy_validate.
  destruct (run_runner_deserialize (control_runner u)) as [r|] eqn:E; cbn [result_bind].
  - apply run_runner_deserialize_Ok in E as [-> Hr]. rewrite map_err_Ok, Hr. cbn [result_bind].
    unfold control_policy_new, control_policy_validate. cbn [control_runner control_semantic_report control_target
      control_profile_digest control_evidence_digest control_artifact_set_digest control_class
      control_policy_revision_digest control_policy_generation]. rewrite Hr. cbn [result_bind].
    destruct (run_result_new _ _ _ _ _ _ _ _ _ _); cbn [result_bind]; [|by split; [|intros [_ ?]]].
    destruct u. cbn. split; [by intros [= <-]|by intros [-> _]].
  - split; [done|]. intros [_ H]. apply result_bind_Ok in H as ([] & Hr & _).
    assert (Hd : run_runner_deserialize (control_runner u) = Ok (control_runner u)) by by apply run_runner_deserialize_Ok.
    by rewrite Hd in E.
Qed.

Lemma receipt_deserialize_Ok u r :
  receipt_deserialize u = Ok r ↔ r = u ∧ receipt_publication_status u = Publication_LocalOnly.
Proof.
  unfold receipt_deserialize. case_bool_decide as Hs; cbn [reject result_bind].
  - split; [done|]. by intros [_ ?].
  - split; [by intros [= <-]|by intros [-> _]].
Qed.

Lemma validate_receipt_Ok a r :
  validate_receipt a r = Ok tt ↔ receipt_publication_status r = Publication_LocalOnly ∧
    attestation_canonical_document_digest a = Ok (receipt_attestation_digest r).
Proof.
  unfold validate_receipt. case_bool_decide as Hs; cbn [reject result_bind]; [by split; [|intros [? _]]|].
  destruct (attestation_canonical_document_digest a) as [d|]; cbn [map_err result_bind]; [|by split; [|intros [_ ?]]].
  case_bool_decide as Hd; cbn [reject result_bind].
  - split; [done|]. by intros [_ [= ->]].
  - split; [|done]. intros _. split; [done|]. by rewrite Hd.
Qed.

(** Reading and checking an event changes nothing in it and accepts exactly the
    well-typed events whose relationships hold. *)
Lemma event_checked_Ok u e :
  (∃ v, unchecked_event_deserialize u = Ok v ∧ event_into_checked v = Ok e) ∧ event_validate e = Ok tt ↔
    e = u ∧ event_typed u ∧ event_validate u = Ok tt.
Proof.
  split.
  - intros [(v & Hv & He) Hval]. destruct u as [g|p|p|d|d]; cbn [unchecked_event_deserialize event_typed] in *.
    + apply result_bind_Ok in Hv as (po & [-> Hp]%control_policy_deserialize_Ok & Hv).
      apply result_bind_Ok in Hv as (a & [-> Ha]%unchecked_attestation_deserialize_Ok & Hv).
      apply result_bind_Ok in Hv as (r & [-> Hr]%receipt_deserialize_Ok & [= <-]).
      cbn [event_into_checked genesis_attestation genesis_policy genesis_receipt] in He.
      apply result_bind_Ok in He as (a & [-> _]%map_err_Ok%attestation_into_checked_Ok & He).
      apply result_bind_Ok in He as (_ & _ & [= <-]). by destruct g.
    + apply result_bind_Ok in Hv as (a & [-> Ha]%unchecked_attestation_deserialize_Ok & Hv).
      apply result_bind_Ok in Hv as (r & [-> Hr]%receipt_deserialize_Ok & [= <-]).
      cbn [event_into_checked publication_attestation publication_receipt] in He.
      apply result_bind_Ok in He as (a & [-> _]%map_err_Ok%attestation_into_checked_Ok & He).
      apply result_bind_Ok in He as (_ & _ & [= <-]). by destruct p.
    + apply result_bind_Ok in Hv as (po & [-> Hp]%control_policy_deserialize_Ok & [= <-]). by injection He as <-.
    + injection Hv as <-. by injection He as <-.
    + injection Hv as <-. by injection He as <-.
  - intros (-> & Ht & Hval). split; [|done]. exists u. destruct u as [g|p|p|d|d]; cbn [event_typed] in Ht; try done.
    + destruct Ht as [Hp Ha]. cbn [event_validate] in Hval. pose proof Hval as Hg. unfold genesis_validate in Hg.
      apply result_bind_Ok in Hg as (_ & _ & [Hs _]%validate_receipt_Ok). split.
      * cbn [unchecked_event_deserialize]. rewrite (proj2 (control_policy_deserialize_Ok _ _)) by done. cbn [result_bind].
        rewrite (proj2 (unchecked_attestation_deserialize_Ok _ _)) by done. cbn [result_bind].
        rewrite (proj2 (receipt_deserialize_Ok _ _)) by done. by destruct g.
      * cbn [event_into_checked]. unfold attestation_typed in Ha. rewrite Ha. cbn [map_err result_bind].
        destruct g. cbn in *. by rewrite Hval.
    + cbn [event_validate] in Hval. pose proof Hval as [Hs _]%validate_receipt_Ok. split.
      * cbn [unchecked_event_deserialize].
        rewrite (proj2 (unchecked_attestation_deserialize_Ok _ _)) by done. cbn [result_bind].
        rewrite (proj2 (receipt_deserialize_Ok _ _)) by done. by destruct p.
      * cbn [event_into_checked]. unfold attestation_typed in Ht. rewrite Ht. cbn [map_err result_bind].
        destruct p. cbn in *. by rewrite Hval.
    + split; [|done]. cbn [unchecked_event_deserialize]. rewrite (proj2 (control_policy_deserialize_Ok p p)) by done. done.
Qed.

Lemma record_validate_shape_Ok r :
  record_validate_shape r = Ok tt ↔ event_validate (record_event r) = Ok tt ∧ record_sequence r ≠ 0 ∧
    (record_sequence r = 1 ↔ is_genesis (record_event r) = true) ∧
    (record_sequence r = 1 ↔ record_previous_digest r = None).
Proof.
  unfold record_validate_shape. destruct (Z.eqb_spec (record_sequence r) 0) as [H0|H0]; cbn [reject result_bind].
  { split; [done|]. by intros (_ & ? & _). }
  destruct (Z.eqb_spec (record_sequence r) 1) as [H1|H1].
  - case_bool_decide as Hp; destruct (is_genesis (record_event r)); cbn [andb negb reject result_bind]; naive_solver.
  - destruct (record_previous_digest r) as [d|]; cbn [result_bind]; [|naive_solver].
    destruct (is_genesis (record_event r)); cbn [reject result_bind]; naive_solver.
Qed.

Lemma record_from_json_slice_Ok bs r :
  record_from_json_slice (IoError := IoError) bs = Ok r ↔
    len bs <= MAX_LOCAL_CERTIFICATION_LEDGER_RECORD_BYTES ∧ record_from_slice bs = Ok r ∧
    event_typed (record_event r) ∧ record_validate_shape r = Ok tt.
Proof.
  unfold record_from_json_slice.
  destruct (Z.ltb_spec MAX_LOCAL_CERTIFICATION_LEDGER_RECORD_BYTES (len bs)) as [Hl|Hl]; cbn [reject result_bind].
  { split; [done|]. intros [H _]. lia. }
  destruct (record_from_slice bs) as [raw|]; cbn [map_err result_bind]; [|by split; [|intros (_ & ? & _)]]. split.
  - intros H. apply result_bind_Ok in H as (v & Hv%map_err_Ok & H). apply result_bind_Ok in H as (e & He%map_err_Ok & H).
    apply result_bind_Ok in H as ([] & Hs%map_err_Ok & [= <-]).
    pose proof Hs as (Hval & _)%record_validate_shape_Ok. cbn [record_event] in Hval.
    destruct (proj1 (event_checked_Ok (record_event raw) e)) as (-> & Ht & _); [by split; [exists v|]|].
    split_and!; [done| |done|done]. by destruct raw.
  - intros (_ & [= <-] & Ht & Hs). pose proof Hs as (Hval & _)%record_validate_shape_Ok.
    destruct (proj2 (event_checked_Ok (record_event raw) (record_event raw))) as [(v & Hv & He) _]; [done|].
    rewrite Hv. cbn [map_err result_bind]. rewrite He. cbn [map_err result_bind].
    assert (Hraw : mkRecord (record_sequence raw) (record_previous_digest raw) (record_event raw) = raw) by by destruct raw.
    by rewrite Hraw, Hs.
Qed.
End Chain.

(** ** Chains *)

Section Replay.
Context `{CJ : ControlJson} `{HS : Sha256} `{Alloc : Allocator} {IoError : Type}.
Abbreviation Io := (Io IoError).
Abbreviation apply_event := (apply_event (IoError := IoError)).
Abbreviation chained := (list (LocalCertificationLedgerRecord * bytes)).

(** A record beside its canonical bytes, within the ceiling. *)
Definition written (r : LocalCertificationLedgerRecord) (bs : bytes) : Prop :=
  record_to_vec r = Ok bs ∧ len bs <= MAX_LOCAL_CERTIFICATION_LEDGER_RECORD_BYTES.

(** The abstract ledger: a genesis, then records each linked to the one before,
    with the state they amount to. *)
Inductive chain : chained → LedgerState → Prop :=
| chain_genesis g bs :
    event_typed (Event_Genesis g) → genesis_validate g = Ok tt → written (mkRecord 1 None (Event_Genesis g)) bs →
    chain [(mkRecord 1 None (Event_Genesis g), bs)]
      (mkLedgerState (mkRecord 1 None (Event_Genesis g)) (sha256 bs) 1 (len bs) (from_genesis g))
| chain_next rs st event r bs p :
    chain rs st → event_typed event → record_next (last_record st) event = Ok r → written r bs →
    total_record_bytes st + len bs <= MAX_LOCAL_CERTIFICATION_LEDGER_BYTES →
    apply_event event (projection st) = Ok p →
    chain (rs ++ [(r, bs)]) (mkLedgerState r (sha256 bs) (record_count st + 1) (total_record_bytes st + len bs) p).

Lemma record_next_Ok prev event r :
  record_next prev event = Ok r ↔ ∃ d, record_canonical_document_digest prev = Ok d ∧
    is_genesis event = false ∧ event_validate event = Ok tt ∧ record_sequence prev + 1 <= u64_max ∧
    r = mkRecord (record_sequence prev + 1) (Some d) event.
Proof.
  unfold record_next. destruct (is_genesis event); cbn [reject result_bind].
  { split; [done|]. by intros (d & _ & ? & _). }
  destruct (event_validate event) as [[]|]; cbn [result_bind]; [|by split; [|intros (d & _ & _ & ? & _)]].
  destruct (checked_add u64_max (record_sequence prev) 1) as [s|] eqn:E; cbn [ok_or result_bind].
  - apply checked_add_Some in E as [-> Hle].
    destruct (record_canonical_document_digest prev) as [d|]; cbn [map_err result_bind]; [|by split; [|intros (d & ? & _)]].
    split; [intros [= <-]; by exists d|]. by intros (d' & [= ->] & _ & _ & _ & ->).
  - split; [done|]. intros (d & _ & _ & _ & Hle & _).
    rewrite (proj2 (checked_add_Some u64_max (record_sequence prev) 1 _)) in E by (split; [reflexivity|lia]). done.
Qed.

Lemma max_record_le : MAX_LOCAL_CERTIFICATION_LEDGER_RECORD_BYTES <= MAX_LOCAL_CERTIFICATION_LEDGER_BYTES.
Proof. by vm_compute. Qed.

(** What a state knows of the chain it stands for. *)
Lemma chain_facts rs st :
  chain rs st →
  record_sequence (last_record st) = len rs ∧ record_count st = len rs ∧ 0 < len rs <= u64_max ∧
  0 <= total_record_bytes st <= MAX_LOCAL_CERTIFICATION_LEDGER_BYTES ∧
  record_canonical_document_digest (last_record st) = Ok (head_digest st) ∧
  ∃ pre bs, rs = pre ++ [(last_record st, bs)] ∧ head_digest st = sha256 bs.
Proof.
  intros H. destruct H as [g bs Ht Hv [Hb Hl]|rs st event r bs p Hc Ht Hn [Hb Hl] Htot Ha].
  - cbn [last_record record_sequence head_digest record_count total_record_bytes]. pose proof (len_nonneg bs).
    unfold record_canonical_document_digest. rewrite Hb. cbn [result_bind].
    pose proof max_record_le. split_and!; [done|done|done|done|done|lia|done|by exists [], bs].
  - assert (Hs : record_sequence (last_record st) = len rs ∧ record_count st = len rs ∧ 0 < len rs ∧ 0 <= total_record_bytes st).
    { clear -Hc. induction Hc as [g bs Ht Hv [Hb Hl]|rs st event r bs p Hc IH Ht Hn [Hb Hl] Htot Ha]; cbn.
      - pose proof (len_nonneg bs). done.
      - destruct IH as (H1 & H2 & H3 & H4). pose proof (len_nonneg bs).
        apply record_next_Ok in Hn as (d & _ & _ & _ & _ & ->). cbn. rewrite len_app.
        change (len [(mkRecord (record_sequence (last_record st) + 1) (Some d) event, bs)]) with 1. lia. }
    destruct Hs as (H1 & H2 & H3 & H4). pose proof (len_nonneg bs).
    apply record_next_Ok in Hn as (d & _ & _ & _ & Hle & ->).
    cbn [last_record record_sequence head_digest record_count total_record_bytes] in *. rewrite len_app.
    change (len [(mkRecord (record_sequence (last_record st) + 1) (Some d) event, bs)]) with 1.
    unfold record_canonical_document_digest. rewrite Hb. cbn [result_bind].
    split_and!; try lia; [done|by exists rs, bs].
Qed.

(** ** One record of the replay *)

Definition quiet (io : Io) : Prop :=
  (∀ op, io_fault io op = None) ∧ ∀ m, io_enumerate io m ≡ₚ map_to_list m.

Lemma faulting_quiet {E} (io : Io) op (e : IoError → E) : quiet io → faulting io op e = Ok tt.
Proof. intros [Hq _]. unfold faulting. by rewrite Hq. Qed.

Lemma faulting_Ok {E} (io : Io) op (e : IoError → E) u : faulting io op e = Ok u → io_fault io op = None.
Proof. unfold faulting. by destruct (io_fault io op). Qed.

Lemma read_record_bytes_Ok (io : Io) name entry sequence bs :
  read_record_bytes io name entry sequence = Ok bs →
  entry = mkEntry Entry_File bs ∧ len bs <= MAX_LOCAL_CERTIFICATION_LEDGER_RECORD_BYTES.
Proof.
  unfold read_record_bytes. intros H. apply result_bind_Ok in H as (_ & _ & H).
  apply result_bind_Ok in H as (_ & Hk%reject_Ok%bool_decide_eq_false & H).
  apply result_bind_Ok in H as (_ & Hl%reject_Ok%Z.ltb_ge & H).
  apply result_bind_Ok in H as (_ & _ & H). apply result_bind_Ok in H as (_ & _ & H).
  apply result_bind_Ok in H as (limit & [-> _]%ok_or_Ok%checked_add_Some & H).
  apply result_bind_Ok in H as (bs' & Hb%map_err_Ok & H). apply result_bind_Ok in H as (_ & _ & [= <-]).
  unfold take_to_end in Hb. cbn [reader_bytes reader_end] in Hb.
  rewrite (proj2 (Z.leb_gt _ _)) in Hb by lia. destruct (io_fault io _); [done|]. injection Hb as <-.
  apply dec_stable in Hk. destruct entry as [k b]. cbn in *. by subst k.
Qed.

Lemma read_record_bytes_run (io : Io) name bs sequence :
  quiet io → ample Alloc → len bs <= MAX_LOCAL_CERTIFICATION_LEDGER_RECORD_BYTES →
  read_record_bytes io name (mkEntry Entry_File bs) sequence = Ok bs.
Proof.
  intros Hq Ha Hl. unfold read_record_bytes. rewrite !faulting_quiet by done. cbn [entry_kind entry_bytes result_bind].
  rewrite bool_decide_eq_false_2 by auto. cbn [reject result_bind].
  rewrite (proj2 (Z.ltb_ge _ _) Hl), Ha. cbn [reject negb result_bind].
  rewrite (proj2 (checked_add_Some u64_max MAX_LOCAL_CERTIFICATION_LEDGER_RECORD_BYTES 1 _)) by (split; [reflexivity|by vm_compute]).
  cbn [ok_or result_bind]. unfold take_to_end. cbn [reader_bytes reader_end].
  rewrite (proj2 (Z.leb_gt _ _)) by lia. destruct Hq as [Hq _]. rewrite Hq. cbn [map_err result_bind].
  by rewrite (proj2 (Z.ltb_ge _ _) Hl).
Qed.

(** The projection a record leads to. *)
Definition next_projection (before : option LedgerProjection) (event : LocalCertificationLedgerEvent) :
    result LedgerProjection (LocalCertificationLedgerError (IoError := IoError)) :=
  match before, event with
  | None, Event_Genesis genesis => Ok (from_genesis genesis)
  | None, _ => Err MissingGenesis
  | Some existing, event => apply_event event existing
  end.

(** Everything the loop body establishes about an accepted file. *)
Definition accepted (index : Z) (item : Z * (OsString * Entry)) (st : replay_state) (r : LocalCertificationLedgerRecord)
    (bs : bytes) (p : LedgerProjection) : Prop :=
  item.1 = index + 1 ∧ index + 1 <= u64_max ∧ item.2.2 = mkEntry Entry_File bs ∧ written r bs ∧
  replay_total st + len bs <= MAX_LOCAL_CERTIFICATION_LEDGER_BYTES ∧
  record_from_slice bs = Ok r ∧ event_typed (record_event r) ∧ record_validate_shape r = Ok tt ∧
  record_sequence r = item.1 ∧ record_previous_digest r = previous_digest st ∧
  next_projection (replay_projection st) (record_event r) = Ok p.

Lemma replay_record_Ok (io : Io) index item st st' :
  replay_record io index item st = Ok st' → ∃ r bs p, accepted index item st r bs p ∧
    st' = mkReplay (replay_total st + len bs) (Some r) (Some (sha256 bs)) (Some p).
Proof.
  destruct item as [sequence [name entry]]. unfold replay_record. intros H.
  apply result_bind_Ok in H as (expected & [-> Hle]%ok_or_Ok%checked_add_Some & H).
  apply result_bind_Ok in H as (_ & Hs%reject_Ok%negb_false_iff%Z.eqb_eq & H).
  apply result_bind_Ok in H as (bs & [-> Hl]%read_record_bytes_Ok & H).
  apply result_bind_Ok in H as (total & [-> _]%ok_or_Ok%checked_add_Some & H).
  apply result_bind_Ok in H as (_ & Ht%reject_Ok%Z.ltb_ge & H).
  apply result_bind_Ok in H as (r & (_ & Hr & Htyped & Hshape)%map_err_Ok%record_from_json_slice_Ok & H).
  apply result_bind_Ok in H as (canonical & Hc%map_err_Ok & H).
  apply result_bind_Ok in H as (_ & Hcan%reject_Ok%bool_decide_eq_false & H). apply dec_stable in Hcan. subst canonical.
  apply result_bind_Ok in H as (_ & Hseq%reject_Ok%negb_false_iff%Z.eqb_eq & H).
  apply result_bind_Ok in H as (_ & Hp%reject_Ok%bool_decide_eq_false & H). apply dec_stable in Hp.
  apply result_bind_Ok in H as (p & Hproj & H).
  apply result_bind_Ok in H as (d & Hd%map_err_Ok & [= <-]).
  unfold record_canonical_document_digest in Hd. rewrite Hc in Hd. injection Hd as <-.
  exists r, bs, p. split; [|done]. by split_and!.
Qed.

Lemma replay_record_run (io : Io) index item st r bs p :
  quiet io → ample Alloc → accepted index item st r bs p →
  replay_record io index item st = Ok (mkReplay (replay_total st + len bs) (Some r) (Some (sha256 bs)) (Some p)).
Proof.
  destruct item as [sequence [name entry]]. intros Hq Ha (Hs & Hle & He & [Hw Hl] & Htot & Hr & Htyped & Hshape & Hseq & Hp & Hproj).
  cbn [fst snd] in *. subst sequence entry. unfold replay_record.
  rewrite (proj2 (checked_add_Some u64_max index 1 _)) by (split; [reflexivity|lia]). cbn [ok_or result_bind].
  rewrite Z.eqb_refl. cbn [negb reject result_bind]. rewrite read_record_bytes_run by done. cbn [result_bind].
  rewrite (proj2 (checked_add_Some usize_max (replay_total st) (len bs) _)) by
    (split; [reflexivity|etransitivity; [exact Htot|by vm_compute]]). cbn [ok_or result_bind].
  rewrite (proj2 (Z.ltb_ge _ _) Htot). cbn [reject result_bind].
  rewrite (proj2 (record_from_json_slice_Ok bs r)) by done. cbn [map_err result_bind].
  rewrite Hw. cbn [map_err result_bind]. rewrite bool_decide_eq_false_2 by auto. cbn [reject result_bind].
  rewrite Hseq, Z.eqb_refl. cbn [negb reject result_bind]. rewrite bool_decide_eq_false_2 by auto. cbn [reject result_bind].
  unfold next_projection in Hproj. rewrite Hproj. cbn [result_bind].
  unfold record_canonical_document_digest. by rewrite Hw.
Qed.

(** The replay of a chain carries its state. *)
Definition replayed (st : LedgerState) : replay_state :=
  mkReplay (total_record_bytes st) (Some (last_record st)) (Some (head_digest st)) (Some (projection st)).
Definition replay_start : replay_state := mkReplay 0 None None None.

Lemma accepted_genesis item r bs p :
  accepted 0 item replay_start r bs p →
  chain [(r, bs)] (mkLedgerState r (sha256 bs) 1 (len bs) p).
Proof.
  intros (_ & _ & _ & Hw & _ & _ & Ht & Hs & _ & Hp & Hproj). cbn [replay_start replay_projection next_projection] in *.
  destruct r as [s prev e]. cbn [record_event record_previous_digest previous_digest] in *. subst prev.
  destruct e as [g|?|?|?|?]; [|done..]. injection Hproj as <-.
  apply record_validate_shape_Ok in Hs as (Hv & _ & Hg & _). cbn [record_sequence record_event is_genesis] in *.
  assert (s = 1) as -> by by apply Hg. by apply chain_genesis.
Qed.

Lemma accepted_next rs st item r bs p :
  chain rs st → accepted (len rs) item (replayed st) r bs p →
  chain (rs ++ [(r, bs)]) (mkLedgerState r (sha256 bs) (record_count st + 1) (total_record_bytes st + len bs) p).
Proof.
  intros Hc (Hi & Hle & _ & Hw & Htot & _ & Ht & Hs & Hseq & Hp & Hproj).
  cbn [replayed replay_total replay_projection previous_digest next_projection] in *.
  destruct (chain_facts _ _ Hc) as (H1 & _ & H2 & _ & H3 & _).
  apply (chain_next rs st (record_event r)); try done.
  apply record_validate_shape_Ok in Hs as (Hv & _ & Hg & _). apply record_next_Ok. exists (head_digest st).
  rewrite H1. split_and!; [done| |done|done|].
  - destruct (is_genesis (record_event r)); [|done]. assert (record_sequence r = 1) by by apply Hg. lia.
  - destruct r as [s prev e]. cbn in *. by rewrite Hp, Hseq, Hi.
Qed.

Lemma chain_genesis_accepted name r bs st :
  (∀ r bs, record_to_vec r = Ok bs → record_from_slice bs = Ok r) → chain [(r, bs)] st →
  accepted 0 (1, (name, mkEntry Entry_File bs)) replay_start r bs (projection st) ∧
  st = mkLedgerState r (sha256 bs) 1 (len bs) (projection st).
Proof.
  intros Hlaw Hc. inv Hc as [g bs' Ht Hv Hw|rs st' event r' bs' p Hc' Ht Hn Hw Htot Ha Heq].
  - split; [|done]. destruct Hw as [Hb Hl]. pose proof max_record_le. split_and!; cbn; try done; [lia|by apply Hlaw].
  - apply app_singleton in Heq as [[-> _]|[_ ?]]; [|done]. by inv Hc'; destruct rs.
Qed.

Lemma chain_snoc_inv rs r bs st :
  rs ≠ [] → chain (rs ++ [(r, bs)]) st → ∃ st0 event p,
    chain rs st0 ∧ event_typed event ∧ record_next (last_record st0) event = Ok r ∧ written r bs ∧
    total_record_bytes st0 + len bs <= MAX_LOCAL_CERTIFICATION_LEDGER_BYTES ∧
    apply_event event (projection st0) = Ok p ∧
    st = mkLedgerState r (sha256 bs) (record_count st0 + 1) (total_record_bytes st0 + len bs) p.
Proof.
  intros Hne Hc. remember (rs ++ [(r, bs)]) as l eqn:Hl. destruct Hc as [g bs' Ht Hv Hw|rs' st' event r' bs' p Hc' Ht Hn Hw Htot Ha].
  - destruct rs as [|x rs]; [done|]. cbn in Hl. injection Hl as _ Hl. by destruct rs.
  - apply app_inj_tail in Hl as [-> [= -> ->]]. by exists st', event, p.
Qed.

Lemma chain_next_accepted rs name r bs st :
  (∀ r bs, record_to_vec r = Ok bs → record_from_slice bs = Ok r) → rs ≠ [] → chain (rs ++ [(r, bs)]) st →
  ∃ st0, chain rs st0 ∧
    accepted (len rs) (len rs + 1, (name, mkEntry Entry_File bs)) (replayed st0) r bs (projection st) ∧
    replayed st = mkReplay (total_record_bytes st0 + len bs) (Some r) (Some (sha256 bs)) (Some (projection st)).
Proof.
  intros Hlaw Hne Hc. destruct (chain_snoc_inv _ _ _ _ Hne Hc) as (st0 & e & p & Hc0 & Ht & Hn & [Hb Hl] & Htot & Ha & ->).
  exists st0. split; [done|]. split; [|done]. destruct (chain_facts _ _ Hc0) as (H1 & _ & H2 & _ & H3 & _).
  apply record_next_Ok in Hn as (d & Hd & Hg & Hv & Hle & ->). rewrite H3 in Hd. injection Hd as <-. rewrite H1 in *.
  split_and!; cbn; try done; [by apply Hlaw|]. apply record_validate_shape_Ok. cbn. rewrite Hg.
  split_and!; [done|lia|split; [lia|done]|split; [lia|done]].
Qed.

(** ** Directories *)

(** The files of a chain, in order. *)
Definition file_item (i : nat) (x : LocalCertificationLedgerRecord * bytes) : Z * (OsString * Entry) :=
  (Z.of_nat i + 1, (record_filename (Z.of_nat i + 1), mkEntry Entry_File x.2)).
Definition file_items (rs : chained) : list (Z * (OsString * Entry)) := imap file_item rs.
Definition ledger_disk (rs : chained) : Disk := mkDisk (Some Entry_Directory) (list_to_map (file_items rs).*2).

Lemma file_items_snoc rs x : file_items (rs ++ [x]) = file_items rs ++ [file_item (length rs) x].
Proof. unfold file_items. rewrite imap_app. cbn. by rewrite Nat.add_0_r. Qed.

Lemma file_items_elem rs item :
  item ∈ file_items rs ↔ ∃ i x, rs !! i = Some x ∧ item = file_item i x.
Proof.
  split.
  - intros [i Hi]%list_elem_of_lookup. unfold file_items in Hi. rewrite list_lookup_imap in Hi.
    destruct (rs !! i) as [x|] eqn:E; [|done]. injection Hi as <-. by exists i, x.
  - intros (i & x & Hx & ->). apply list_elem_of_lookup. exists i. unfold file_items. by rewrite list_lookup_imap, Hx.
Qed.

Lemma file_items_NoDup rs : len rs <= u64_max → NoDup (file_items rs).*2.*1.
Proof.
  intros Hlen. apply NoDup_alt. intros i j name Hi Hj. unfold file_items in *.
  rewrite !list_lookup_fmap, !list_lookup_imap in Hi, Hj.
  destruct (rs !! i) as [x|] eqn:Hx; [|done]. destruct (rs !! j) as [y|] eqn:Hy; [|done]. cbn in Hi, Hj.
  injection Hi as Hi. injection Hj as Hj. rewrite <-Hj in Hi. apply lookup_lt_Some in Hx, Hy. unfold len in Hlen.
  apply record_filename_inj in Hi; lia.
Qed.

(** The replay loop runs through a chain and nothing else. *)
Lemma replay_records_sound (io : Io) items rs st st' :
  chain rs st → replay_records io (len rs) items (replayed st) = Ok st' →
  ∃ more stn, chain (rs ++ more) stn ∧ st' = replayed stn ∧
    Forall2 (λ item x, ∃ name, item.2 = (name, mkEntry Entry_File x.2)) items more ∧
    ∀ i item, items !! i = Some item → item.1 = len rs + Z.of_nat i + 1.
Proof.
  revert rs st. induction items as [|item items IH]; intros rs st Hc H; cbn [replay_records] in H.
  { injection H as <-. exists [], st. rewrite app_nil_r. split_and!; [done|done|constructor|done]. }
  apply result_bind_Ok in H as (st1 & (r & bs & p & Hacc & ->)%replay_record_Ok & H).
  pose proof (accepted_next _ _ _ _ _ _ Hc Hacc) as Hc'.
  set (stn := mkLedgerState r _ _ _ p) in Hc'.
  assert (Hlen : len rs + 1 = len (rs ++ [(r, bs)])) by (rewrite len_app; done).
  rewrite Hlen in H. apply (IH _ stn Hc') in H as (more & st2 & Hc2 & -> & Hf & Hi).
  exists ((r, bs) :: more), st2. rewrite <-app_assoc in Hc2. destruct Hacc as (H1 & _ & He & _).
  split_and!; [done|done| |].
  - constructor; [|done]. exists item.2.1. destruct item as [s [name e]]. cbn in *. by rewrite He.
  - intros [|i] it Hit; cbn in Hit; [injection Hit as <-; rewrite H1; lia|]. apply Hi in Hit. rewrite Hit, <-Hlen. lia.
Qed.

Lemma replay_records_app (io : Io) i l k st :
  replay_records io i (l ++ k) st = result_bind (replay_records io i l st) (replay_records io (i + len l) k).
Proof.
  revert i st. induction l as [|item l IH]; intros i st; cbn [replay_records app].
  { by rewrite len_nil, Z.add_0_r. }
  destruct (replay_record io i item st) as [st'|]; cbn [result_bind]; [|done].
  rewrite IH, len_cons. by replace (i + 1 + len l) with (i + (1 + len l)) by lia.
Qed.

Lemma replay_records_complete (io : Io) rs st :
  (∀ r bs, record_to_vec r = Ok bs → record_from_slice bs = Ok r) → quiet io → ample Alloc → chain rs st →
  replay_records io 0 (file_items rs) replay_start = Ok (replayed st).
Proof.
  intros Hlaw Hq Ha. revert st. induction rs as [|[r bs] rs IH] using rev_ind; intros st Hc.
  { exfalso. destruct (chain_facts _ _ Hc) as (_ & _ & H & _). change (len []) with 0 in H. lia. }
  rewrite file_items_snoc, replay_records_app. destruct (decide (rs = [])) as [->|Hne].
  - cbn [app] in Hc. destruct (chain_genesis_accepted (record_filename 1) _ _ _ Hlaw Hc) as [Hacc Hst].
    cbn [file_items imap replay_records result_bind]. change (0 + len []) with 0.
    change (file_item (length []) (r, bs)) with (1, (record_filename 1, mkEntry Entry_File bs)).
    rewrite (replay_record_run io 0 _ replay_start r bs (projection st)) by done. by rewrite Hst.
  - destruct (chain_next_accepted rs (record_filename (len rs + 1)) r bs st Hlaw Hne Hc) as (st0 & Hc0 & Hacc & Hst).
    rewrite (IH st0 Hc0). cbn [result_bind replay_records].
    assert (Hlen : 0 + len (file_items rs) = len rs) by (unfold len, file_items; rewrite length_imap; lia). rewrite Hlen.
    change (file_item (length rs) (r, bs)) with (len rs + 1, (record_filename (len rs + 1), mkEntry Entry_File bs)).
    rewrite (replay_record_run io _ _ (replayed st0) r bs (projection st)) by done. by rewrite Hst.
Qed.

Lemma replay_start_sound (io : Io) items st' :
  items ≠ [] → replay_records io 0 items replay_start = Ok st' →
  ∃ rs stn, chain rs stn ∧ st' = replayed stn ∧
    Forall2 (λ item x, ∃ name, item.2 = (name, mkEntry Entry_File x.2)) items rs ∧
    ∀ i item, items !! i = Some item → item.1 = Z.of_nat i + 1.
Proof.
  destruct items as [|item items]; [done|]. intros _ H. cbn [replay_records] in H.
  apply result_bind_Ok in H as (st1 & (r & bs & p & Hacc & ->)%replay_record_Ok & H).
  pose proof (accepted_genesis _ _ _ _ Hacc) as Hc. destruct Hacc as (H1 & _ & He & _).
  apply (replay_records_sound io items [(r, bs)] _ _ Hc) in H as (more & stn & Hcn & -> & Hf & Hi).
  exists ((r, bs) :: more), stn. split_and!; [done|done| |].
  - constructor; [|done]. exists item.2.1. destruct item as [s [name e]]. cbn in *. by rewrite He.
  - intros [|i] it Hit; cbn in Hit; [injection Hit as <-; rewrite H1; lia|]. apply Hi in Hit. rewrite Hit.
    change (len [(r, bs)]) with 1. lia.
Qed.

(** What one enumerated entry becomes. *)
Definition parsed_entry (found : OsString * Entry) (item : Z * (OsString * Entry)) : Prop :=
  item.2 = found ∧ parse_record_filename found.1 = Some item.1 ∧ entry_kind found.2 = Entry_File.

Lemma collect_entries_Ok (io : Io) found entries out :
  collect_entries io found entries = Ok out →
  ∃ more, out = entries ++ more ∧ Forall2 parsed_entry found more ∧
    (more ≠ [] → len out <= MAX_LOCAL_CERTIFICATION_LEDGER_RECORDS).
Proof.
  revert entries. induction found as [|[name entry] found IH]; intros entries H; cbn [collect_entries] in H.
  { injection H as <-. exists []. rewrite app_nil_r. split_and!; [done|constructor|done]. }
  apply result_bind_Ok in H as (_ & _ & H). apply result_bind_Ok in H as (_ & _ & H).
  apply result_bind_Ok in H as (_ & Hk%reject_Ok%bool_decide_eq_false & H). apply dec_stable in Hk.
  apply result_bind_Ok in H as (s & Hs%ok_or_Ok & H). apply result_bind_Ok in H as (_ & Hl%reject_Ok%Z.leb_gt & H).
  apply result_bind_Ok in H as (_ & _ & H). apply IH in H as (more & -> & Hf & Hlen).
  exists ((s, (name, entry)) :: more). rewrite <-app_assoc. split_and!; [done|by constructor|]. intros _.
  destruct more as [|x more]; [|rewrite <-app_assoc in Hlen; by apply Hlen].
  rewrite !len_app, len_cons, len_nil. cbn. lia.
Qed.

Lemma collect_entries_run (io : Io) found entries more :
  quiet io → ample Alloc → Forall2 parsed_entry found more →
  len entries + len more <= MAX_LOCAL_CERTIFICATION_LEDGER_RECORDS →
  collect_entries io found entries = Ok (entries ++ more).
Proof.
  intros Hq Ha Hf. revert entries. induction Hf as [|[name entry] [s [n e]] found more (Hp1 & Hp2 & Hp3) Hf IH]; intros entries Hl;
    cbn [collect_entries]; [by rewrite app_nil_r|].
  cbn in Hp1, Hp2, Hp3. injection Hp1 as -> ->. rewrite !faulting_quiet by done. cbn [result_bind].
  rewrite bool_decide_eq_false_2 by auto. cbn [reject result_bind]. rewrite Hp2. cbn [ok_or result_bind].
  rewrite len_cons in Hl. pose proof (len_nonneg more).
  rewrite (proj2 (Z.leb_gt _ _)) by lia. cbn [reject result_bind]. rewrite Ha. cbn [negb reject result_bind].
  rewrite IH, <-app_assoc; [done|]. rewrite len_app, len_cons, len_nil. lia.
Qed.

Lemma sort_entries_sorted l : StronglySorted (λ a b, Is_true (a.1 <=? b.1)) (sort_entries l).
Proof.
  apply Sorted_StronglySorted; [intros a b c; rewrite !Is_true_true, !Z.leb_le; lia|].
  apply Sorted_merge_sort. intros a b. rewrite !Is_true_true, !Z.leb_le. lia.
Qed.

Lemma file_items_sorted rs : StronglySorted (λ a b, Is_true (a.1 <=? b.1)) (file_items rs).
Proof.
  induction rs as [|x rs IH] using rev_ind; [constructor|]. rewrite file_items_snoc. apply StronglySorted_app.
  split_and!; [|done|by repeat constructor]. intros a b (i & y & Hy & ->)%file_items_elem ->%list_elem_of_singleton.
  apply lookup_lt_Some in Hy. cbn. apply Is_true_true, Z.leb_le. lia.
Qed.

Lemma file_items_parsed rs : len rs <= u64_max → Forall2 parsed_entry (file_items rs).*2 (file_items rs).
Proof.
  intros Hlen. apply Forall2_fmap_l, Forall_Forall2_diag, Forall_forall. intros item (i & x & Hx & ->)%file_items_elem.
  apply lookup_lt_Some in Hx. unfold len in Hlen. split_and!; [done| |done]. cbn. apply parse_record_filename_of. lia.
Qed.

(** Parsing an entry is a function of it, so order is all enumeration decides. *)
Lemma parsed_entries_map found items :
  Forall2 parsed_entry found items → items = (λ f, (default 0 (parse_record_filename f.1), f)) <$> found.
Proof.
  induction 1 as [|[n e] [s f] found items (H1 & H2 & _) _ IH]; [done|]. cbn in *. subst f. by rewrite H2, IH.
Qed.

Lemma parsed_permutation found items found' items' :
  Forall2 parsed_entry found items → Forall2 parsed_entry found' items' → found ≡ₚ found' → items ≡ₚ items'.
Proof. intros ->%parsed_entries_map ->%parsed_entries_map. apply fmap_Permutation. Qed.

(** ** Replay is exact *)

Lemma ledger_disk_list rs :
  len rs <= u64_max → map_to_list (disk_entries (ledger_disk rs)) ≡ₚ (file_items rs).*2.
Proof. intros Hlen. cbn. apply map_to_list_to_map. by apply file_items_NoDup. Qed.

Lemma replay_directory_sound (io : Io) disk expected st :
  (∀ m, io_enumerate io m ≡ₚ map_to_list m) → replay_directory io disk expected = Ok st →
  ∃ rs, disk = ledger_disk rs ∧ chain rs st ∧ len rs <= MAX_LOCAL_CERTIFICATION_LEDGER_RECORDS ∧
    (∀ d, expected = Some d → d = head_digest st).
Proof.
  intros Henum H. unfold replay_directory in H. apply result_bind_Ok in H as ([] & Hroot & H).
  apply result_bind_Ok in H as (_ & _ & H). apply result_bind_Ok in H as (_ & _ & H).
  apply result_bind_Ok in H as (entries & (more & -> & Hparsed & Hlen)%collect_entries_Ok & H). cbn [app] in *.
  apply result_bind_Ok in H as (_ & Hne%reject_Ok%bool_decide_eq_false & H).
  apply result_bind_Ok in H as (rst & Hrep & H).
  assert (Hsorted : sort_entries more ≡ₚ more) by apply merge_sort_Permutation.
  apply replay_start_sound in Hrep as (rs & stn & Hc & -> & Hf & Hi).
  2: { intros Hnil. rewrite Hnil in Hsorted. by apply Permutation_nil in Hsorted. }
  cbn [replayed previous_digest previous_record replay_projection replay_total ok_or result_bind] in H.
  apply result_bind_Ok in H as ([] & Hhead & [= <-]).
  destruct (chain_facts _ _ Hc) as (Hseq & Hcount & Hpos & _). exists rs.
  assert (Hitems : sort_entries more = file_items rs).
  { apply list_eq. intros i. unfold file_items. rewrite list_lookup_imap.
    destruct (sort_entries more !! i) as [[s [n e]]|] eqn:Ei.
    - destruct (Forall2_lookup_l _ _ _ _ _ Hf Ei) as (x & Hx & name & [= -> ->]). rewrite Hx. cbn. unfold file_item.
      pose proof (Hi i _ Ei) as Hs. cbn in Hs. subst s.
      assert (Hin : (Z.of_nat i + 1, (name, mkEntry Entry_File x.2)) ∈ more) by (rewrite <-Hsorted; by eapply list_elem_of_lookup_2).
      apply list_elem_of_lookup in Hin as [j Hj]. destruct (Forall2_lookup_r _ _ _ _ _ Hparsed Hj) as (f & _ & Hp1 & Hp2 & _).
      cbn in Hp1, Hp2. subst f. cbn in Hp2. by apply parse_record_filename_Some in Hp2 as ->.
    - apply lookup_ge_None in Ei. rewrite (Forall2_length _ _ _ Hf) in Ei. by rewrite (lookup_ge_None_2 rs i Ei). }
  split_and!.
  - unfold validate_ledger_root in Hroot. apply result_bind_Ok in Hroot as (_ & _ & Hroot).
    destruct disk as [[kind|] entries]; [|done]. cbn in Hroot. apply reject_Ok, bool_decide_eq_false in Hroot.
    apply dec_stable in Hroot as ->. unfold ledger_disk. f_equal.
    rewrite <-(list_to_map_to_list entries). apply list_to_map_proper; [apply NoDup_fst_map_to_list|].
    rewrite <-Henum, <-Hitems, Hsorted. clear -Hparsed.
    cbn. rewrite (parsed_entries_map _ _ Hparsed), <-list_fmap_compose. unfold compose. cbn. by rewrite list_fmap_id.
  - destruct stn. cbn in *. by rewrite Hseq, <-Hcount.
  - assert (Hm : len rs = len more).
    { unfold len. rewrite <-(Forall2_length _ _ _ Hf). by rewrite (Permutation_length Hsorted). }
    rewrite Hm. by apply Hlen.
  - intros d ->. apply reject_Ok, bool_decide_eq_false, dec_stable in Hhead. done.
Qed.

Lemma replay_directory_complete (io : Io) rs st expected :
  (∀ r bs, record_to_vec r = Ok bs → record_from_slice bs = Ok r) → quiet io → ample Alloc →
  chain rs st → len rs <= MAX_LOCAL_CERTIFICATION_LEDGER_RECORDS →
  replay_directory io (ledger_disk rs) expected =
    match expected with
    | Some d => if bool_decide (d = head_digest st) then Ok st else Err (HeadMismatch d (head_digest st))
    | None => Ok st
    end.
Proof.
  intros Hlaw Hq Ha Hc Hlen. destruct (chain_facts _ _ Hc) as (Hseq & Hcount & Hpos & _).
  unfold replay_directory, validate_ledger_root. rewrite !faulting_quiet by done. cbn [ledger_disk root_kind result_bind].
  rewrite bool_decide_eq_false_2 by auto. cbn [reject result_bind]. rewrite Ha. cbn [negb reject result_bind].
  destruct Hq as [Hfault Henum].
  assert (Hp : io_enumerate io (disk_entries (ledger_disk rs)) ≡ₚ (file_items rs).*2).
  { rewrite Henum. apply ledger_disk_list. lia. }
  pose proof (file_items_parsed rs ltac:(lia)) as Hparsed.
  set (found := io_enumerate io (disk_entries (ledger_disk rs))) in *.
  set (items := (λ f : OsString * Entry, (default 0 (parse_record_filename f.1), f)) <$> found).
  assert (Hitems : items ≡ₚ file_items rs).
  { unfold items. rewrite Hp. by rewrite <-(parsed_entries_map _ _ Hparsed). }
  assert (Hfound : Forall2 parsed_entry found items).
  { unfold items. apply Forall2_fmap_r, Forall_Forall2_diag. rewrite Hp. apply Forall_forall.
    intros f (item & -> & Hin)%list_elem_of_fmap. apply list_elem_of_lookup in Hin as [i Hi].
    destruct (Forall2_lookup_r _ _ _ _ _ Hparsed Hi) as (f & _ & H1 & H2 & H3). rewrite H1. split_and!; [done| |done].
    cbn. by rewrite H2. }
  change (io_enumerate io (list_to_map (file_items rs).*2)) with found.
  assert (Hl : len items = len rs) by (unfold len; rewrite (Permutation_length Hitems); unfold file_items; by rewrite length_imap).
  rewrite (collect_entries_run io found [] items) by (try done; rewrite len_nil; lia). cbn [app result_bind].
  rewrite bool_decide_eq_false_2 by (intros Hn; rewrite Hn in Hl; change (len []) with 0 in Hl; lia). cbn [reject result_bind].
  assert (Hsort : sort_entries items = file_items rs).
  { apply (StronglySorted_unique_strong (λ a b, Is_true (a.1 <=? b.1))); [|apply sort_entries_sorted|apply file_items_sorted|].
    - intros a b Hin1 Hin2. rewrite !Is_true_true, !Z.leb_le. intros Hab Hba.
      unfold sort_entries in Hin1. rewrite merge_sort_Permutation, Hitems in Hin1.
      apply file_items_elem in Hin1 as (i & x & Hx & ->), Hin2 as (j & y & Hy & ->). cbn in Hab, Hba.
      assert (i = j) as -> by lia. rewrite Hx in Hy. by injection Hy as ->.
    - unfold sort_entries. by rewrite merge_sort_Permutation. }
  rewrite Hsort. change (mkReplay 0 None None None) with replay_start. rewrite (replay_records_complete io rs st) by done. cbn [result_bind replayed previous_digest previous_record
    replay_projection replay_total ok_or].
  assert (Hst : mkLedgerState (last_record st) (head_digest st) (record_sequence (last_record st)) (total_record_bytes st) (projection st) = st)
    by (destruct st; cbn in *; by rewrite Hseq, <-Hcount).
  destruct expected as [d|]; [|by rewrite Hst].
  case_bool_decide as Hd; case_bool_decide as Hd'; cbn [reject result_bind]; try done. by rewrite Hst.
Qed.

(** ** Appending *)

Lemma ledger_disk_beyond rs n :
  len rs < n <= u64_max → disk_entries (ledger_disk rs) !! record_filename n = None.
Proof.
  intros Hlen. apply not_elem_of_list_to_map_1. intros (f & Hname & (item & -> & Hin)%list_elem_of_fmap)%list_elem_of_fmap.
  apply file_items_elem in Hin as (i & x & Hx & ->). cbn in Hname. apply lookup_lt_Some in Hx. unfold len in *.
  apply record_filename_inj in Hname; lia.
Qed.

Lemma ledger_disk_fresh rs : len rs < u64_max → disk_entries (ledger_disk rs) !! record_filename (len rs + 1) = None.
Proof. intros Hlen. apply ledger_disk_beyond. lia. Qed.

Lemma ledger_disk_lookup rs i x :
  len rs <= u64_max → rs !! i = Some x →
  disk_entries (ledger_disk rs) !! record_filename (Z.of_nat i + 1) = Some (mkEntry Entry_File x.2).
Proof.
  intros Hlen Hx. cbn. apply elem_of_list_to_map; [by apply file_items_NoDup|].
  apply list_elem_of_fmap. exists (file_item i x). split; [done|]. apply file_items_elem. by exists i, x.
Qed.

(** A directory has the bytes of one chain. *)
Lemma ledger_disk_bytes rs1 rs2 :
  len rs1 <= u64_max → len rs2 <= u64_max → ledger_disk rs1 = ledger_disk rs2 → rs1.*2 = rs2.*2.
Proof.
  intros H1 H2 Heq. apply list_eq. intros i. rewrite !list_lookup_fmap.
  assert (Hsome : ∀ rs rs' x, len rs <= u64_max → len rs' <= u64_max → ledger_disk rs = ledger_disk rs' → rs !! i = Some x →
    ∃ y, rs' !! i = Some y ∧ x.2 = y.2).
  { intros rs rs' x Hl Hl' He Hx. pose proof (ledger_disk_lookup rs i x Hl Hx) as Hd. rewrite He in Hd.
    destruct (rs' !! i) as [y|] eqn:Hy; [rewrite (ledger_disk_lookup rs' i y Hl' Hy) in Hd; injection Hd as Hd; by exists y|].
    apply lookup_ge_None in Hy. apply lookup_lt_Some in Hx. unfold len in *. rewrite ledger_disk_beyond in Hd by (unfold len; lia). done. }
  destruct (rs1 !! i) as [x|] eqn:E1; [destruct (Hsome rs1 rs2 x) as (y & -> & Hxy); try done; cbn; by rewrite Hxy|].
  destruct (rs2 !! i) as [y|] eqn:E2; [|done]. destruct (Hsome rs2 rs1 y) as (x & ? & _); try done; congruence.
Qed.

Lemma ledger_disk_snoc rs x :
  len rs < u64_max → ledger_disk (rs ++ [x]) = set_entry (record_filename (len rs + 1)) x.2 (ledger_disk rs).
Proof.
  intros Hlen. unfold ledger_disk, set_entry. cbn [root_kind disk_entries]. f_equal.
  rewrite file_items_snoc, fmap_app. cbn [fmap list_fmap file_item snd]. rewrite list_to_map_app.
  rewrite list_to_map_cons, list_to_map_nil, insert_empty. unfold len in *.
  rewrite <-insert_union_singleton_r; [done|]. by apply (ledger_disk_fresh rs).
Qed.

(** What an append decides before it writes. *)
Definition appendable (rs : chained) (st : LedgerState) (event : LocalCertificationLedgerEvent)
    (r : LocalCertificationLedgerRecord) (bs : bytes) (p : LedgerProjection) : Prop :=
  len rs < MAX_LOCAL_CERTIFICATION_LEDGER_RECORDS ∧ apply_event event (projection st) = Ok p ∧
  record_next (last_record st) event = Ok r ∧ written r bs ∧
  total_record_bytes st + len bs <= MAX_LOCAL_CERTIFICATION_LEDGER_BYTES.

Lemma canonical_record_bytes_Ok r bs :
  canonical_record_bytes (IoError := IoError) r = Ok bs ↔ written r bs.
Proof.
  unfold canonical_record_bytes, written. destruct (record_to_vec r) as [b|]; cbn [map_err result_bind]; [|by split; [|intros [? _]]].
  destruct (Z.ltb_spec MAX_LOCAL_CERTIFICATION_LEDGER_RECORD_BYTES (len b)); cbn [reject result_bind].
  - split; [done|]. intros [[= <-] ?]. lia.
  - split; [by intros [= <-]|by intros [[= <-] _]].
Qed.

Lemma plan_append_Ok (io : Io) rs st0 st event planned :
  (∀ r bs, record_to_vec r = Ok bs → record_from_slice bs = Ok r) → quiet io → ample Alloc →
  chain rs st0 → len rs <= MAX_LOCAL_CERTIFICATION_LEDGER_RECORDS → record_count st = record_count st0 → 
  plan_append io (ledger_disk rs) st event = Ok planned ↔
    head_digest st = head_digest st0 ∧ total_record_bytes st = total_record_bytes st0 ∧
    ∃ r bs p, appendable rs st event r bs p ∧ planned = mkPlanned r bs (total_record_bytes st + len bs) p.
Proof.
  intros Hlaw Hq Ha Hc Hlen Hcount. unfold plan_append. rewrite (replay_directory_complete io rs st0 None) by done.
  destruct (chain_facts _ _ Hc) as (_ & Hn & _). cbn [result_bind].
  rewrite Hcount, Z.eqb_refl. cbn [negb orb]. rewrite orb_false_r.
  destruct (decide (head_digest st0 = head_digest st)) as [Hh|Hh].
  2: { rewrite (bool_decide_eq_true_2 (_ ≠ _)) by done. cbn. split; [done|]. by intros (? & _). }
  rewrite (bool_decide_eq_false_2 (_ ≠ _)) by auto. cbn [orb].
  destruct (Z.eqb_spec (total_record_bytes st0) (total_record_bytes st)) as [Ht|Ht]; cbn [negb reject result_bind].
  2: { split; [done|]. by intros (_ & ? & _). }
  rewrite Hn. destruct (Z.leb_spec MAX_LOCAL_CERTIFICATION_LEDGER_RECORDS (len rs)); cbn [reject result_bind].
  { split; [done|]. intros (_ & _ & r & bs & p & (? & _) & _). lia. }
  split.
  - intros H'. apply result_bind_Ok in H' as (p & Hp & H'). apply result_bind_Ok in H' as (r & Hr%map_err_Ok & H').
    apply result_bind_Ok in H' as (bs & Hb%canonical_record_bytes_Ok & H').
    apply result_bind_Ok in H' as (t & [-> _]%ok_or_Ok%checked_add_Some & H').
    apply result_bind_Ok in H' as (_ & Hle%reject_Ok%Z.ltb_ge & [= <-]).
    split_and!; [done|done|]. exists r, bs, p. split; [|done]. by split_and!; try apply Hb.
  - intros (_ & _ & r & bs & p & (_ & Hp & Hr & Hw & Hle) & ->). rewrite Hp. cbn [result_bind]. rewrite Hr. cbn [map_err result_bind].
    rewrite (proj2 (canonical_record_bytes_Ok r bs) Hw). cbn [result_bind].
    rewrite (proj2 (checked_add_Some usize_max (total_record_bytes st) (len bs) _)) by
      (split; [reflexivity|etransitivity; [exact Hle|by vm_compute]]). cbn [ok_or result_bind].
    by rewrite (proj2 (Z.ltb_ge _ _) Hle).
Qed.

Lemma set_entry_set_entry name bs bs' disk : set_entry name bs (set_entry name bs' disk) = set_entry name bs disk.
Proof. unfold set_entry. cbn. by rewrite insert_insert_eq. Qed.

(** A write to a quiet directory succeeds exactly when the name is free. *)
Lemma write_record_run (io : Io) rs sequence bs :
  quiet io → write_record_create_new io sequence bs (ledger_disk rs) =
    if bool_decide (is_Some (disk_entries (ledger_disk rs) !! record_filename sequence))
    then (Err (RecordAlreadyExists sequence), ledger_disk rs)
    else (Ok tt, set_entry (record_filename sequence) bs (ledger_disk rs)).
Proof.
  intros Hq. unfold write_record_create_new, create_record, write_record, sync_record, mut_bind, mut_get, mut_lift, mut_put,
    validate_ledger_root.
  rewrite !faulting_quiet by done. cbn [result_bind ledger_disk root_kind].
  rewrite (bool_decide_eq_false_2 (Entry_Directory ≠ Entry_Directory)) by auto. cbn [reject].
  case_bool_decide; cbn [reject]; [done|]. destruct Hq as [Hq _]. by rewrite Hq, set_entry_set_entry.
Qed.

Definition appended (st : LedgerState) (r : LocalCertificationLedgerRecord) (bs : bytes) (p : LedgerProjection) : LedgerState :=
  mkLedgerState r (sha256 bs) (record_count st + 1) (total_record_bytes st + len bs) p.

Lemma commit_append_run (io : Io) rs pre st event r bs p :
  quiet io → chain pre st → pre `prefix_of` rs → len rs <= MAX_LOCAL_CERTIFICATION_LEDGER_RECORDS →
  appendable pre st event r bs p →
  commit_append io st (mkPlanned r bs (total_record_bytes st + len bs) p) (ledger_disk rs) =
    if bool_decide (pre = rs) then (Ok (appended st r bs p), ledger_disk (rs ++ [(r, bs)]))
    else (Err (RecordAlreadyExists (len pre + 1)), ledger_disk rs).
Proof.
  intros Hq Hc [post ->] Hlen (Hlt & _ & Hn & [Hb Hl] & _). destruct (chain_facts _ _ Hc) as (Hs & Hcount & Hpos & _).
  apply record_next_Ok in Hn as (d & _ & _ & _ & _ & ->). rewrite Hs in *.
  assert (Hmax : MAX_LOCAL_CERTIFICATION_LEDGER_RECORDS < u64_max) by by vm_compute.
  unfold commit_append, record_append, mut_bind, mut_lift. cbn [planned_record planned_bytes planned_total planned_projection record_sequence].
  rewrite write_record_run by done. destruct post as [|x post].
  - rewrite app_nil_r in *. rewrite (bool_decide_eq_true_2 (pre = pre)) by done.
    rewrite bool_decide_eq_false_2 by (rewrite ledger_disk_fresh by lia; by intros [? ?]).
    unfold record_canonical_document_digest. rewrite Hb. cbn [result_bind map_err].
    rewrite (proj2 (checked_add_Some usize_max (record_count st) 1 _)) by (split; [reflexivity|unfold usize_max; lia]).
    cbn [ok_or]. by rewrite ledger_disk_snoc by lia.
  - rewrite bool_decide_eq_true_2.
    + rewrite bool_decide_eq_false_2; [done|]. intros Heq%(f_equal length). rewrite length_app in Heq. cbn in Heq. lia.
    + exists (mkEntry Entry_File x.2). unfold len. apply ledger_disk_lookup; [lia|]. by apply list_lookup_middle.
Qed.

Lemma appended_chain rs st event r bs p :
  chain rs st → event_typed event → appendable rs st event r bs p → chain (rs ++ [(r, bs)]) (appended st r bs p).
Proof. intros Hc Ht (_ & Hp & Hn & Hw & Hle). by apply (chain_next rs st event). Qed.

Lemma append_event_run (io : Io) rs st event :
  (∀ r bs, record_to_vec r = Ok bs → record_from_slice bs = Ok r) → quiet io → ample Alloc →
  chain rs st → len rs <= MAX_LOCAL_CERTIFICATION_LEDGER_RECORDS →
  (∃ r bs p, appendable rs st event r bs p ∧
     append_event io event (ledger_disk rs, mkLedger false st) =
       (Ok (append_receipt (appended st r bs p)),
        (ledger_disk (rs ++ [(r, bs)]), mkLedger false (appended st r bs p)))) ∨
  ((¬ ∃ r bs p, appendable rs st event r bs p) ∧
   ∃ e, append_event io event (ledger_disk rs, mkLedger false st) = (Err e, (ledger_disk rs, mkLedger false st))).
Proof.
  intros Hlaw Hq Ha Hc Hlen. unfold append_event, lock. cbn [ledger_poisoned ledger_state reject result_bind].
  pose proof (λ planned, plan_append_Ok io rs st st event planned Hlaw Hq Ha Hc Hlen eq_refl) as Hplan.
  destruct (plan_append io (ledger_disk rs) st event) as [planned|e] eqn:E.
  - left. destruct (proj1 (Hplan planned) eq_refl) as (_ & _ & r & bs & p & Happ & ->).
    exists r, bs, p. split; [done|]. rewrite (commit_append_run io rs rs st event r bs p) by done.
    by rewrite bool_decide_eq_true_2.
  - right. split; [|by exists e]. intros (r & bs & p & Happ).
    assert (H : Err e = Ok (mkPlanned r bs (total_record_bytes st + len bs) p)); [|done].
    apply Hplan. split_and!; [done|done|]. by exists r, bs, p.
Qed.
End Replay.
