(* ===== verification/LedgerSpec.v ===== *)
(** * LedgerSpec: what the certification ledger promises

    The properties of the ledger as theorems: replay refines the chain, a pinned
    head determines the whole history, appends are exact and never rewrite, every
    interleaving of writers leaves one history, and the policy rules hold along
    every accepted chain.  A concrete ledger closes the file. *)

From S2P Require Import Prelude Text Wire Evidence ControlPlane Ledger LedgerLaws.

Section Spec.
Context `{CJ : ControlJson} `{HS : Sha256} `{Alloc : Allocator} {IoError : Type}.
Abbreviation Io := (Io IoError).
Abbreviation chain := (chain (IoError := IoError)).
Abbreviation apply_event := (apply_event (IoError := IoError)).
Abbreviation appendable := (appendable (IoError := IoError)).
Abbreviation record_append := (record_append (IoError := IoError)).
Abbreviation chained := (list (LocalCertificationLedgerRecord * bytes)).

(** [serde_json] reads back what it wrote of a record. *)
Definition record_json_law : Prop := ∀ r bs, record_to_vec r = Ok bs → record_from_slice bs = Ok r.

(** ** Replay *)

(** C23: replay refines the abstract ledger.  Under faultless file operations a
    directory is accepted with a state exactly when its entries are the numbered
    files of a chain of at most 4096 records, each linked to the SHA-256 of its
    predecessor's canonical bytes, and the state is the one the chain amounts to,
    whatever the order in which the entries are enumerated. *)
Theorem replay_refines_chain (io : Io) disk st :
  record_json_law → quiet io → ample Alloc →
  replay_directory io disk None = Ok st ↔
    ∃ rs, disk = ledger_disk rs ∧ chain rs st ∧ len rs <= MAX_LOCAL_CERTIFICATION_LEDGER_RECORDS.
Proof.
  intros Hlaw Hq Ha. split.
  - intros (rs & H1 & H2 & H3 & _)%replay_directory_sound; [by exists rs|apply Hq].
  - intros (rs & -> & Hc & Hlen). by rewrite (replay_directory_complete io rs st None).
Qed.

(** ** Tamper evidence *)

(** A record of one chain and a record of the other differ and collide. *)
Definition records_collide (rs1 rs2 : chained) : Prop :=
  ∃ r1 bs1 r2 bs2, (r1, bs1) ∈ rs1 ∧ (r2, bs2) ∈ rs2 ∧ bs1 ≠ bs2 ∧ sha256 bs1 = sha256 bs2.

Lemma records_collide_last rs1 rs2 r1 bs1 r2 bs2 :
  bs1 ≠ bs2 → sha256 bs1 = sha256 bs2 → records_collide (rs1 ++ [(r1, bs1)]) (rs2 ++ [(r2, bs2)]).
Proof. intros H1 H2. exists r1, bs1, r2, bs2. split_and!; [set_solver..|done|done]. Qed.

(** Two chains under one head are one chain, or two of their records collide. *)
Lemma chain_head_determines rs1 st1 rs2 st2 :
  record_json_law → chain rs1 st1 → chain rs2 st2 → head_digest st1 = head_digest st2 →
  (rs1 = rs2 ∧ st1 = st2) ∨ records_collide rs1 rs2.
Proof.
  intros Hlaw H1. revert rs2 st2.
  induction H1 as [g bs Ht Hv [Hb Hl]|rs st event r bs p Hc IH Ht Hn [Hb Hl] Htot Ha]; intros rs2 st2 H2 Heq;
    destruct H2 as [g' bs' Ht' Hv' [Hb' Hl']|rs' st' event' r' bs' p' Hc' Ht' Hn' [Hb' Hl'] Htot' Ha']; cbn in Heq;
    (destruct (decide (bs = bs')) as [->|Hne]; [|right; by first [apply records_collide_last|
       apply (records_collide_last [])|apply (records_collide_last _ [])|apply (records_collide_last [] [])]]); apply Hlaw in Hb, Hb'; rewrite Hb in Hb'; injection Hb' as Hr.
  - left. by rewrite Hr.
  - apply record_next_Ok in Hn' as (d & _ & Hg & _ & _ & ->). by injection Hr as _ Hr <-.
  - apply record_next_Ok in Hn as (d & _ & Hg & _ & _ & ->). by injection Hr as _ Hr ->.
  - subst r'. apply record_next_Ok in Hn as (d & Hd & _ & _ & _ & Hr), Hn' as (d' & Hd' & _ & _ & _ & Hr').
    rewrite Hr in Hr'. injection Hr' as _ -> ->.
    destruct (chain_facts _ _ Hc) as (_ & _ & _ & _ & Hh & _), (chain_facts _ _ Hc') as (_ & _ & _ & _ & Hh' & _).
    rewrite Hh in Hd. rewrite Hh' in Hd'. injection Hd as Hd. injection Hd' as Hd'.
    destruct (IH _ _ Hc' ltac:(congruence)) as [[-> ->]|(x1 & y1 & x2 & y2 & Hx & Hy & Hxy)];
      [|right; exists x1, y1, x2, y2; split_and!; [set_solver..|apply Hxy|apply Hxy]]. left. rewrite Ha in Ha'. by injection Ha' as ->.
Qed.

Lemma ledger_disk_elem rs r bs :
  len rs <= MAX_LOCAL_CERTIFICATION_LEDGER_RECORDS → (r, bs) ∈ rs →
  ∃ name, disk_entries (ledger_disk rs) !! name = Some (mkEntry Entry_File bs).
Proof.
  intros Hlen [i Hi]%list_elem_of_lookup. eexists. apply (ledger_disk_lookup rs i (r, bs)); [|done].
  etransitivity; [exact Hlen|by vm_compute].
Qed.

(** C24: a pinned head is tamper-evident.  If two directories, however they were
    produced and under whatever faults they were read, are both accepted under
    the same head digest, they contain the same files and amount to the same
    state, unless a file of the one and a file of the other differ and have the
    same SHA-256. *)
Theorem pinned_head_determines_history (io1 io2 : Io) disk1 disk2 head self1 self2 :
  record_json_law → (∀ m, io_enumerate io1 m ≡ₚ map_to_list m) → (∀ m, io_enumerate io2 m ≡ₚ map_to_list m) →
  ledger_open io1 disk1 head = Ok self1 → ledger_open io2 disk2 head = Ok self2 →
  (disk1 = disk2 ∧ self1 = self2) ∨
  ∃ name1 entry1 name2 entry2, disk_entries disk1 !! name1 = Some entry1 ∧ disk_entries disk2 !! name2 = Some entry2 ∧
    entry_bytes entry1 ≠ entry_bytes entry2 ∧ sha256 (entry_bytes entry1) = sha256 (entry_bytes entry2).
Proof.
  unfold ledger_open. intros Hlaw He1 He2 H1 H2.
  apply result_bind_Ok in H1 as (st1 & (rs1 & -> & Hc1 & Hl1 & Hh1)%replay_directory_sound & [= <-]); [|done].
  apply result_bind_Ok in H2 as (st2 & (rs2 & -> & Hc2 & Hl2 & Hh2)%replay_directory_sound & [= <-]); [|done].
  destruct (chain_head_determines _ _ _ _ Hlaw Hc1 Hc2) as [[-> ->]|(r1 & bs1 & r2 & bs2 & Hin1 & Hin2 & Hcol)].
  - by rewrite <-(Hh1 head eq_refl), <-(Hh2 head eq_refl).
  - by left.
  - right. apply ledger_disk_elem in Hin1 as [name1 Hn1], Hin2 as [name2 Hn2]; [|done..].
    by exists name1, (mkEntry Entry_File bs1), name2, (mkEntry Entry_File bs2).
Qed.

(** ** Appending *)

(** an append is exact.  On a ledger whose handle is current, a call succeeds
    exactly when there is room, the current policy admits the event, and the
    record can be linked, encoded and fitted under the byte ceilings; then exactly
    the next numbered file appears, the directory replays to the handle's new
    state under its new head, and the receipt reports that state.  Otherwise
    neither the directory nor the handle changes. *)
Theorem append_event_exact (io : Io) rs st event outcome disk' self' :
  record_json_law → quiet io → ample Alloc → event_typed event →
  chain rs st → len rs <= MAX_LOCAL_CERTIFICATION_LEDGER_RECORDS →
  append_event io event (ledger_disk rs, mkLedger false st) = (outcome, (disk', self')) →
  match outcome with
  | Ok receipt => ∃ r bs p, appendable rs st event r bs p ∧
      self' = mkLedger false (appended st r bs p) ∧ receipt = append_receipt (appended st r bs p) ∧
      disk' = set_entry (record_filename (len rs + 1)) bs (ledger_disk rs) ∧
      ledger_open io disk' (append_record_digest receipt) = Ok self'
  | Err _ => (¬ ∃ r bs p, appendable rs st event r bs p) ∧ disk' = ledger_disk rs ∧ self' = mkLedger false st
  end.
Proof.
  intros Hlaw Hq Ha Ht Hc Hlen H.
  destruct (append_event_run io rs st event Hlaw Hq Ha Hc Hlen) as [(r & bs & p & Happ & Hrun)|(Hno & e & Hrun)];
    rewrite Hrun in H; injection H as <- <- <-; [|done].
  pose proof Happ as (Hlt & _).
  exists r, bs, p. split_and!; [apply Happ..|done|done| |].
  - rewrite ledger_disk_snoc; [done|]. etransitivity; [exact Hlt|by vm_compute].
  - unfold ledger_open. rewrite (replay_directory_complete io _ (appended st r bs p)); try done.
    + cbn. by rewrite bool_decide_eq_true_2.
    + by eapply appended_chain.
    + rewrite len_app. change (len [(r, bs)]) with 1. lia.
Qed.

(** nothing already recorded is ever rewritten or removed, whatever the
    operating system does: under any faults and from any directory, a call leaves
    every existing entry as it was, adds at most the file of the next sequence,
    and a failing call leaves the handle as it was. *)
Theorem append_event_append_only (io : Io) disk self event outcome disk' self' :
  append_event io event (disk, self) = (outcome, (disk', self')) →
  disk_entries disk ⊆ disk_entries disk' ∧ root_kind disk' = root_kind disk ∧
  (∀ name, disk_entries disk !! name = None → is_Some (disk_entries disk' !! name) →
     name = record_filename (record_sequence (last_record (ledger_state self)) + 1)) ∧
  (is_ok outcome = false → self' = self).
Proof.
  unfold append_event. destruct (result_bind (lock self) _) as [planned|e] eqn:Hplan.
  2: { intros [= <- <- <-]. split_and!; [done|done| |done]. intros name Hn [x Hx]. by rewrite Hn in Hx. }
  apply result_bind_Ok in Hplan as (st & Hlock & Hplan). unfold lock in Hlock.
  apply result_bind_Ok in Hlock as (_ & _ & [= <-]).
  assert (Hseq : record_sequence (planned_record planned) = record_sequence (last_record (ledger_state self)) + 1).
  { unfold plan_append in Hplan. repeat (apply result_bind_Ok in Hplan as (? & ? & Hplan)).
    injection Hplan as <-. match goal with H : map_err _ (record_next _ _) = Ok _ |- _ => apply map_err_Ok, record_next_Ok in H as (d & _ & _ & _ & _ & ->) end. done. }
  unfold commit_append, write_record_create_new, create_record, write_record, sync_record, mut_bind, mut_get, mut_lift, mut_put.
  destruct (validate_ledger_root io disk); [|intros [= <- <- <-]; split_and!; [done|done| |done]; intros name Hn [x Hx]; by rewrite Hn in Hx].
  case_bool_decide as Hex; cbn [reject]; [intros [= <- <- <-]; split_and!; [done|done| |done]; intros name Hn [x Hx]; by rewrite Hn in Hx|].
  destruct (faulting io (Io_CreateRecord _) _); [|intros [= <- <- <-]; split_and!; [done|done| |done]; intros name Hn [x Hx]; by rewrite Hn in Hx].
  rewrite set_entry_set_entry. set (disk1 := set_entry _ _ disk). intros H.
  assert (Hd : disk' = disk1 ∧ (is_ok outcome = false → self' = self)).
  { destruct (faulting io (Io_WriteRecord _) _); [|by injection H as <- <- <-].
    destruct (faulting io (Io_SyncRecord _) _); [|by injection H as <- <- <-].
    destruct (record_append _ _); by injection H as <- <- <-. }
  destruct Hd as [-> Hself]. split_and!; [|done| |done].
  - cbn. apply insert_subseteq. by apply eq_None_not_Some.
  - intros name Hn Hs. rewrite <-Hseq. destruct (decide (name = record_filename (record_sequence (planned_record planned)))) as [|Hne]; [done|].
    cbn in Hs. rewrite lookup_insert_ne in Hs by done. rewrite Hn in Hs. by destruct Hs.
Qed.

(** ** Creating *)

(** The genesis record of a policy and its first attestation, and its bytes. *)
Definition foundable (policy : CertificationControlPolicy) (attestation : LocalCertificationRunAttestation)
    (r : LocalCertificationLedgerRecord) (bs : bytes) : Prop :=
  ∃ g, genesis_new policy attestation = Ok g ∧ r = mkRecord 1 None (Event_Genesis g) ∧ written r bs.

Lemma genesis_new_Ok policy attestation g :
  genesis_new policy attestation = Ok g →
  genesis_policy g = policy ∧ genesis_attestation g = attestation ∧ genesis_validate g = Ok tt.
Proof.
  unfold genesis_new, receipt_from_attestation. intros H. apply result_bind_Ok in H as (_ & Hacc%reject_Ok & H).
  apply result_bind_Ok in H as (rc & Hrc & [= <-]). apply result_bind_Ok in Hrc as (d & Hd%map_err_Ok & [= <-]).
  split_and!; [done|done|]. unfold genesis_validate. cbn. rewrite Hacc. cbn. by apply validate_receipt_Ok.
Qed.

Lemma foundable_chain policy attestation r bs :
  policy_typed policy → attestation_typed attestation → foundable policy attestation r bs →
  ∃ st, chain [(r, bs)] st ∧ head_digest st = sha256 bs.
Proof.
  intros Hp Ha (g & (Hgp & Hga & Hv)%genesis_new_Ok & -> & Hw). eexists.
  split; [apply chain_genesis; [by rewrite <-Hgp, <-Hga in *|done..]|done].
Qed.

(** creating a ledger is exact.  It never touches a root that exists; on an
    absent root it succeeds exactly when the policy accepts the attestation and
    the genesis record can be encoded under its ceiling, and then the directory
    holds just that record and reopens, under the new head, as the handle that
    was returned.  A failure leaves at most an empty directory. *)
Theorem ledger_create_exact (io : Io) policy attestation disk outcome disk' :
  record_json_law → quiet io → ample Alloc → policy_typed policy → attestation_typed attestation →
  ledger_create io policy attestation disk = (outcome, disk') →
  match outcome with
  | Ok self => root_kind disk = None ∧ ∃ r bs st, foundable policy attestation r bs ∧
      chain [(r, bs)] st ∧ self = mkLedger false st ∧ disk' = ledger_disk [(r, bs)] ∧
      ledger_open io disk' (sha256 bs) = Ok self
  | Err _ => (root_kind disk = None → ¬ ∃ r bs, foundable policy attestation r bs) ∧
      (disk' = disk ∨ root_kind disk = None ∧ disk' = mkDisk (Some Entry_Directory) ∅)
  end.
Proof.
  intros Hlaw Hq Ha Hpt Hat H. unfold ledger_create, mut_bind, mut_lift, mut_get, mut_put, mut_ret in H.
  destruct (genesis_new policy attestation) as [g|e] eqn:Hg; cbn [map_err] in H.
  2: { injection H as <- <-. split; [|by left]. intros _ (r & bs & g & Hg' & _). by rewrite Hg in Hg'. }
  pose proof (genesis_new_Ok _ _ _ Hg) as (_ & _ & Hv). unfold record_genesis in H. rewrite Hv in H. cbn [result_bind map_err] in H.
  destruct (root_kind disk) as [kind|] eqn:Hroot.
  { rewrite bool_decide_eq_true_2 in H by (by eexists). injection H as <- <-. split; [done|by left]. }
  rewrite bool_decide_eq_false_2 in H by (by intros [? ?]). cbn [reject] in H. rewrite faulting_quiet in H by done.
  replace (validate_ledger_root io (mkDisk (Some Entry_Directory) ∅)) with (Ok tt : result unit (LocalCertificationLedgerError (IoError := IoError))) in H.
  2: { unfold validate_ledger_root. rewrite faulting_quiet by done. cbn. by rewrite bool_decide_eq_false_2 by auto. }
  destruct (canonical_record_bytes _) as [bs|e] eqn:Hb.
  2: { injection H as <- <-. split; [|by right]. intros _ (r & bs & g' & Hg' & -> & Hw%(canonical_record_bytes_Ok (IoError := IoError))).
       rewrite Hg in Hg'. injection Hg' as <-. by rewrite Hb in Hw. }
  apply canonical_record_bytes_Ok in Hb. set (r := mkRecord 1 None (Event_Genesis g)) in *.
  assert (Hf : foundable policy attestation r bs) by (by exists g).
  destruct (foundable_chain _ _ _ _ Hpt Hat Hf) as (st & Hc & Hh).
  change (mkDisk (Some Entry_Directory) ∅) with (ledger_disk []) in H. rewrite write_record_run in H by done.
  rewrite bool_decide_eq_false_2 in H.
  2: { change (record_sequence r) with (len (@nil (LocalCertificationLedgerRecord * bytes)) + 1).
       rewrite ledger_disk_fresh by (by vm_compute). by intros [? ?]. }
  change (record_sequence r) with (len (@nil (LocalCertificationLedgerRecord * bytes)) + 1) in H.
  pose proof (ledger_disk_snoc [] (r, bs) ltac:(by vm_compute)) as Hs. cbn [app snd] in Hs. rewrite <-Hs in H.
  unfold record_canonical_document_digest in H. destruct Hb as [Hb Hl]. rewrite Hb in H. cbn [result_bind map_err] in H.
  assert (Hone : len [(r, bs)] <= MAX_LOCAL_CERTIFICATION_LEDGER_RECORDS) by by vm_compute.
  rewrite (replay_directory_complete io [(r, bs)] st) in H by done. rewrite bool_decide_eq_true_2 in H by done.
  injection H as <- <-. split; [done|]. exists r, bs, st. split_and!; [done..|].
  unfold ledger_open. rewrite (replay_directory_complete io [(r, bs)] st) by done. by rewrite bool_decide_eq_true_2.
Qed.

(** ** Concurrent writers

    Any number of handles in any number of processes work on one directory; the
    mutex of a handle orders its own calls only.  A call replays and plans at one
    moment; it creates the file, extends it, completes the write and synchronizes
    at later ones, any of them may fail, its process may stop between any two,
    and anything may happen in between.  Any fault is allowed in any step; of the
    operating system only that an enumeration lists what is there. *)

Inductive writer_phase : Type :=
| Idle
| Planning (planned : planned_append)
| Writing (planned : planned_append) (n : nat)
| Completed (planned : planned_append).
Record writer : Type := mkWriter {
  writer_state : LedgerState;
  writer_at : writer_phase
}.
Definition writers : Type := Disk * gmap nat writer.
Definition planned_sequence (planned : planned_append) : Z := record_sequence (planned_record planned).

Inductive writer_step : writers → writers → Prop :=
| writer_opens (io : Io) disk ws k head self :
    (∀ m, io_enumerate io m ≡ₚ map_to_list m) → ledger_open io disk head = Ok self → ws !! k = None →
    writer_step (disk, ws) (disk, <[k := mkWriter (ledger_state self) Idle]> ws)
| writer_plans (io : Io) disk ws k st event planned :
    (∀ m, io_enumerate io m ≡ₚ map_to_list m) → ws !! k = Some (mkWriter st Idle) → event_typed event →
    plan_append io disk st event = Ok planned →
    writer_step (disk, ws) (disk, <[k := mkWriter st (Planning planned)]> ws)
| writer_creates (io : Io) disk ws k st planned disk' :
    ws !! k = Some (mkWriter st (Planning planned)) →
    create_record io (planned_sequence planned) disk = (Ok tt, disk') →
    writer_step (disk, ws) (disk', <[k := mkWriter st (Writing planned 0)]> ws)
| writer_refused (io : Io) disk ws k st planned e disk' :
    ws !! k = Some (mkWriter st (Planning planned)) →
    create_record io (planned_sequence planned) disk = (Err e, disk') →
    writer_step (disk, ws) (disk', <[k := mkWriter st Idle]> ws)
| writer_progresses disk ws k st planned n m :
    ws !! k = Some (mkWriter st (Writing planned n)) → (n <= m)%nat →
    writer_step (disk, ws)
      (set_entry (record_filename (planned_sequence planned)) (take m (planned_bytes planned)) disk,
       <[k := mkWriter st (Writing planned m)]> ws)
| writer_completes (io : Io) disk ws k st planned n disk' :
    ws !! k = Some (mkWriter st (Writing planned n)) →
    write_record io (planned_sequence planned) (planned_bytes planned) disk = (Ok tt, disk') →
    writer_step (disk, ws) (disk', <[k := mkWriter st (Completed planned)]> ws)
| writer_abandons (io : Io) disk ws k st planned n e disk' :
    ws !! k = Some (mkWriter st (Writing planned n)) → (n <= io_written io)%nat →
    write_record io (planned_sequence planned) (planned_bytes planned) disk = (Err e, disk') →
    writer_step (disk, ws) (disk', <[k := mkWriter st Idle]> ws)
| writer_finishes (io : Io) disk ws k st planned st' :
    ws !! k = Some (mkWriter st (Completed planned)) →
    sync_record io (planned_sequence planned) = Ok tt → record_append st planned = Ok st' →
    writer_step (disk, ws) (disk, <[k := mkWriter st' Idle]> ws)
| writer_fails disk ws k st planned :
    ws !! k = Some (mkWriter st (Completed planned)) →
    writer_step (disk, ws) (disk, <[k := mkWriter st Idle]> ws)
| writer_stops disk ws k :
    writer_step (disk, ws) (disk, delete k ws).

(** A whole write of [append_event] is a run of these steps. *)
Lemma commit_append_steps (io : Io) st planned disk ws k outcome disk' :
  commit_append io st planned disk = (outcome, disk') → ws !! k = Some (mkWriter st (Planning planned)) →
  rtc writer_step (disk, ws)
    (disk', <[k := mkWriter (match outcome with Ok st' => st' | Err _ => st end) Idle]> ws).
Proof.
  unfold commit_append, write_record_create_new, mut_bind, mut_lift. fold (planned_sequence planned). intros H Hk.
  destruct (create_record _ _ _) as [[[]|e] disk1] eqn:E1; cbv beta iota in H.
  2: { injection H as <- <-. by eapply rtc_once, writer_refused. }
  eapply rtc_l; [by eapply writer_creates|].
  assert (Hk1 : <[k := mkWriter st (Writing planned 0)]> ws !! k = Some (mkWriter st (Writing planned 0))) by apply lookup_insert_eq.
  destruct (write_record io (planned_sequence planned) (planned_bytes planned) disk1) as [[[]|e] disk2] eqn:E2; cbv beta iota in H.
  2: { injection H as <- <-. rewrite <-(insert_insert_eq ws k (mkWriter _ Idle) (mkWriter st (Writing planned 0))).
       eapply rtc_once, writer_abandons; [done|apply Nat.le_0_l|done]. }
  eapply rtc_l; [by eapply writer_completes|]. rewrite insert_insert_eq.
  assert (Hk2 : <[k := mkWriter st (Completed planned)]> ws !! k = Some (mkWriter st (Completed planned))) by apply lookup_insert_eq.
  destruct (sync_record io (planned_sequence planned)) as [[]|e] eqn:E3; [destruct (record_append st planned) as [st'|e] eqn:E4|];
    injection H as <- <-; apply rtc_once; rewrite <-(insert_insert_eq ws k (mkWriter _ Idle) (mkWriter st (Completed planned)));
    [by eapply writer_finishes|by apply (writer_fails _ _ _ _ planned)..].
Qed.

(** What [serde_json] writes of a record is one JSON object, and no JSON object is
    a proper prefix of another. *)
Definition record_prefix_law : Prop := ∀ r bs r' bs',
  record_to_vec r = Ok bs → record_to_vec r' = Ok bs' → bs' `prefix_of` bs → bs' = bs.

(** The file being written: by whom, of which record, how far. *)
Definition partial : Type := option (nat * (LocalCertificationLedgerRecord * bytes) * nat).
Definition partial_disk (rs : chained) (tail : partial) : Disk :=
  match tail with
  | None => ledger_disk rs
  | Some (_, x, n) => set_entry (record_filename (len rs + 1)) (take n x.2) (ledger_disk rs)
  end.
Definition partial_ok (rs : chained) (st : LedgerState) (tail : partial) : Prop :=
  match tail with
  | None => True
  | Some (_, (r, bs), n) => (n < length bs)%nat ∧ ∃ event p, event_typed event ∧ appendable rs st event r bs p
  end.

(** The plan of a writer whose handle has seen [pre]. *)
Definition plan_ok (pre : chained) (st : LedgerState) (planned : planned_append) : Prop :=
  ∃ event, event_typed event ∧
    appendable pre st event (planned_record planned) (planned_bytes planned) (planned_projection planned) ∧
    planned_total planned = total_record_bytes st + len (planned_bytes planned).
Definition planned_item (planned : planned_append) : LocalCertificationLedgerRecord * bytes :=
  (planned_record planned, planned_bytes planned).

(** A handle has seen a prefix of the history; what it has written of its record
    is the incomplete file, or is in the history. *)
Definition writer_ok (rs : chained) (tail : partial) (k : nat) (w : writer) : Prop :=
  ∃ pre, pre `prefix_of` rs ∧ chain pre (writer_state w) ∧
    match writer_at w with
    | Idle => True
    | Planning planned => plan_ok pre (writer_state w) planned
    | Writing planned n => plan_ok pre (writer_state w) planned ∧
        (pre = rs ∧ tail = Some (k, planned_item planned, n) ∧ (n < length (planned_bytes planned))%nat ∨
         (length (planned_bytes planned) <= n)%nat ∧ pre ++ [planned_item planned] `prefix_of` rs)
    | Completed planned => plan_ok pre (writer_state w) planned ∧ pre ++ [planned_item planned] `prefix_of` rs
    end.

Definition history_ok (rs : chained) (tail : partial) (s : writers) : Prop :=
  s.1 = partial_disk rs tail ∧ (∃ st, chain rs st ∧ partial_ok rs st tail) ∧
  len rs <= MAX_LOCAL_CERTIFICATION_LEDGER_RECORDS ∧ map_Forall (writer_ok rs tail) s.2.

Lemma chain_written rs st r bs : chain rs st → (r, bs) ∈ rs → written r bs.
Proof.
  induction 1 as [g bs0 Ht Hv Hw|rs st event r0 bs0 p Hc IH Ht Hn Hw Htot Ha].
  - by intros [= -> ->]%list_elem_of_singleton.
  - intros [Hin|[= -> ->]%list_elem_of_singleton]%elem_of_app; [by apply IH|done].
Qed.

(** The bytes of a chain determine its records and its state. *)
Lemma chain_bytes_determine rs1 st1 rs2 st2 :
  record_json_law → chain rs1 st1 → chain rs2 st2 → rs1.*2 = rs2.*2 → rs1 = rs2 ∧ st1 = st2.
Proof.
  intros Hlaw H1. revert rs2 st2.
  induction H1 as [g bs Ht Hv [Hb Hl]|rs st event r bs p Hc IH Ht Hn [Hb Hl] Htot Ha]; intros rs2 st2 H2 Heq;
    destruct H2 as [g' bs' Ht' Hv' [Hb' Hl']|rs' st' event' r' bs' p' Hc' Ht' Hn' [Hb' Hl'] Htot' Ha'];
    rewrite ?fmap_app in Heq; cbn [fmap list_fmap snd] in Heq.
  - injection Heq as ->. apply Hlaw in Hb, Hb'. rewrite Hb in Hb'. injection Hb' as Hr. by rewrite Hr.
  - destruct (chain_facts _ _ Hc') as (_ & _ & H & _). apply (f_equal length) in Heq. rewrite length_app, length_fmap in Heq.
    unfold len in H. cbn in Heq. lia.
  - destruct (chain_facts _ _ Hc) as (_ & _ & H & _). apply (f_equal length) in Heq. rewrite length_app, length_fmap in Heq.
    unfold len in H. cbn in Heq. lia.
  - apply app_inj_tail in Heq as [Heq ->]. destruct (IH _ _ Hc' Heq) as [-> ->].
    apply Hlaw in Hb, Hb'. rewrite Hb in Hb'. injection Hb' as <-.
    apply record_next_Ok in Hn as (d & _ & _ & _ & _ & Hr), Hn' as (d' & _ & _ & _ & _ & Hr').
    rewrite Hr in Hr'. injection Hr' as _ <-. rewrite Ha in Ha'. by injection Ha' as <-.
Qed.

(** A directory with an incomplete file replays under no circumstances; a
    complete one replays to the state of its chain. *)
Lemma replay_partial (io : Io) rs st tail head st' :
  record_json_law → record_prefix_law → (∀ m, io_enumerate io m ≡ₚ map_to_list m) →
  chain rs st → partial_ok rs st tail → len rs <= MAX_LOCAL_CERTIFICATION_LEDGER_RECORDS →
  replay_directory io (partial_disk rs tail) head = Ok st' → tail = None ∧ st' = st.
Proof.
  intros Hlaw Hpre Henum Hc Hok Hlen (rs2 & Hd & Hc2 & Hlen2 & _)%replay_directory_sound; [|done].
  assert (Hmax : MAX_LOCAL_CERTIFICATION_LEDGER_RECORDS < u64_max) by by vm_compute.
  destruct tail as [[[k [r bs]] n]|]; cbn [partial_disk snd] in Hd.
  - exfalso. destruct Hok as (Hn & event & p & _ & Hlt & _ & _ & [Hb _] & _).
    pose proof (ledger_disk_snoc rs (r, take n bs) ltac:(lia)) as Hsnoc. cbn [snd] in Hsnoc. rewrite <-Hsnoc in Hd.
    assert (Hl1 : len (rs ++ [(r, take n bs)]) <= u64_max) by (rewrite len_app; change (len [(r, take n bs)]) with 1; lia).
    apply ledger_disk_bytes in Hd; [|done|lia]. rewrite fmap_app in Hd. cbn [fmap list_fmap snd] in Hd.
    assert (Hin : take n bs ∈ rs2.*2) by (rewrite <-Hd; set_solver).
    apply list_elem_of_fmap in Hin as ([r2 bs2] & Heq & Hin). cbn in Heq. subst bs2.
    destruct (chain_written _ _ _ _ Hc2 Hin) as [Hb2 _].
    pose proof (Hpre _ _ _ _ Hb Hb2 ltac:(exists (drop n bs); by rewrite take_drop)) as Heq.
    apply (f_equal length) in Heq. rewrite length_take in Heq. lia.
  - apply ledger_disk_bytes in Hd; [|lia..]. split; [done|].
    by destruct (chain_bytes_determine _ _ _ _ Hlaw Hc2 Hc (eq_sym Hd)) as [_ ->].
Qed.

Lemma plan_append_sound (io : Io) disk st event planned :
  plan_append io disk st event = Ok planned → ∃ observed, replay_directory io disk None = Ok observed ∧
    record_count st = record_count observed ∧
    (∀ pre, chain pre st → event_typed event → plan_ok pre st planned).
Proof.
  unfold plan_append. intros H. apply result_bind_Ok in H as (observed & Hr & H).
  apply result_bind_Ok in H as (_ & [[_ Hc]%orb_false_iff _]%reject_Ok%orb_false_iff & H).
  apply result_bind_Ok in H as (_ & Hmax%reject_Ok%Z.leb_gt & H).
  apply result_bind_Ok in H as (p & Hp & H). apply result_bind_Ok in H as (r & Hn%map_err_Ok & H).
  apply result_bind_Ok in H as (bs & Hb%canonical_record_bytes_Ok & H).
  apply result_bind_Ok in H as (t & [-> _]%ok_or_Ok%checked_add_Some & H).
  apply result_bind_Ok in H as (_ & Hle%reject_Ok%Z.ltb_ge & [= <-]).
  exists observed. apply negb_false_iff, Z.eqb_eq in Hc. split_and!; [done|done|]. intros pre Hchain Ht.
  destruct (chain_facts _ _ Hchain) as (_ & Hcount & _). exists event.
  split; [done|]. split; [|done]. split_and!; [lia|done|done|exact Hb|done].
Qed.

Lemma prefix_same_len (pre rs : chained) : pre `prefix_of` rs → len pre = len rs → pre = rs.
Proof.
  intros [post ->] H. rewrite len_app in H. assert (len post = 0) as ->%len_zero by lia. by rewrite app_nil_r.
Qed.

Lemma plan_ok_sequence pre st planned :
  chain pre st → plan_ok pre st planned → planned_sequence planned = len pre + 1 ∧ len pre < MAX_LOCAL_CERTIFICATION_LEDGER_RECORDS.
Proof.
  intros Hc (event & _ & (Hlt & _ & Hn & _) & _). destruct (chain_facts _ _ Hc) as (Hs & _).
  apply record_next_Ok in Hn as (d & _ & _ & _ & _ & Hr). unfold planned_sequence. rewrite Hr. cbn. by rewrite Hs.
Qed.

Lemma record_append_Ok pre st planned st' :
  chain pre st → plan_ok pre st planned → record_append st planned = Ok st' → chain (pre ++ [planned_item planned]) st'.
Proof.
  intros Hc (event & Ht & Happ & Htot) H. unfold Ledger.record_append in H.
  apply result_bind_Ok in H as (head & Hh%map_err_Ok & H). apply result_bind_Ok in H as (count & [-> _]%ok_or_Ok%checked_add_Some & [= <-]).
  pose proof (appended_chain _ _ _ _ _ _ Hc Ht Happ) as Hnew. destruct Happ as (_ & _ & _ & [Hb _] & _).
  unfold record_canonical_document_digest in Hh. rewrite Hb in Hh. injection Hh as <-. by rewrite Htot.
Qed.

(** The files of the history are there, whatever is being written. *)
Lemma partial_disk_lookup rs tail i x :
  len rs < u64_max → rs !! i = Some x →
  disk_entries (partial_disk rs tail) !! record_filename (Z.of_nat i + 1) = Some (mkEntry Entry_File x.2).
Proof.
  intros Hlen Hx. pose proof (ledger_disk_lookup rs i x ltac:(lia) Hx) as Hl. destruct tail as [[[k y] n]|]; [|done].
  cbn [partial_disk set_entry disk_entries]. rewrite lookup_insert_ne; [done|]. intros Heq.
  apply lookup_lt_Some in Hx. unfold len in *. apply record_filename_inj in Heq; lia.
Qed.

(** Writers other than the one that writes keep what they know. *)
Lemma writer_ok_others rs more tail tail' k j w :
  j ≠ k → (∀ j' x n, tail = Some (j', x, n) → j' = k) → writer_ok rs tail j w → writer_ok (rs ++ more) tail' j w.
Proof.
  intros Hne Hown (pre & Hp & Hc & Hw). exists pre. split_and!; [by apply prefix_app_r|done|].
  destruct (writer_at w) as [|planned|planned n|planned]; [done|done| |by destruct Hw; split; [|apply prefix_app_r]].
  destruct Hw as [Hpl [(_ & Htail & _)|[Hn Hin]]]; [by destruct Hne; apply (Hown _ _ _ Htail)|].
  split; [done|]. right. split; [done|by apply prefix_app_r].
Qed.

(** The part of the record that is written is the incomplete file or, when it is
    all of it, the next file of the history. *)
Lemma write_advance rs st tail k planned m ws phase :
  chain rs st → plan_ok rs st planned → len rs <= MAX_LOCAL_CERTIFICATION_LEDGER_RECORDS →
  (∀ j' x n, tail = Some (j', x, n) → j' = k) → map_Forall (writer_ok rs tail) ws →
  (∀ rs' tail', (m < length (planned_bytes planned))%nat ∧ rs = rs' ∧ tail' = Some (k, planned_item planned, m) ∨
      (length (planned_bytes planned) <= m)%nat ∧ rs ++ [planned_item planned] `prefix_of` rs' →
    rs `prefix_of` rs' → writer_ok rs' tail' k (mkWriter st phase)) →
  ∃ more tail', history_ok (rs ++ more) tail'
    (set_entry (record_filename (len rs + 1)) (take m (planned_bytes planned)) (ledger_disk rs), <[k := mkWriter st phase]> ws).
Proof.
  intros Hc Hpl Hlen Hown Hws Hphase.
  assert (Hmax : MAX_LOCAL_CERTIFICATION_LEDGER_RECORDS < u64_max) by by vm_compute.
  assert (Hall : ∀ more tail', writer_ok (rs ++ more) tail' k (mkWriter st phase) →
    map_Forall (writer_ok (rs ++ more) tail') (<[k := mkWriter st phase]> ws)).
  { intros more tail' Hk j w Hj. destruct (decide (j = k)) as [->|Hne]; [rewrite lookup_insert_eq in Hj; by injection Hj as <-|].
    rewrite lookup_insert_ne in Hj by done. by eapply writer_ok_others, Hws. }
  pose proof Hpl as (event & Ht & Happ & Htot). pose proof Happ as (Hlt & _).
  destruct (decide (m < length (planned_bytes planned))%nat) as [Hm|Hm].
  - exists [], (Some (k, planned_item planned, m)). rewrite app_nil_r. split_and!; [done| |done|].
    + exists st. split; [done|]. split; [done|]. by exists event, (planned_projection planned).
    + rewrite <-(app_nil_r rs) at 1. apply Hall. apply Hphase; [left; by rewrite app_nil_r|by rewrite app_nil_r].
  - exists [planned_item planned], None. rewrite take_ge by lia. split_and!.
    + cbn [partial_disk fst]. by rewrite ledger_disk_snoc by lia.
    + eexists. split; [by eapply appended_chain|done].
    + rewrite len_app. change (len [planned_item planned]) with 1. lia.
    + apply Hall, Hphase; [right; split; [lia|done]|by apply prefix_app_r].
Qed.

Lemma create_record_result (io : Io) sequence disk outcome disk' :
  create_record io sequence disk = (outcome, disk') →
  match outcome with
  | Ok _ => disk_entries disk !! record_filename sequence = None ∧ disk' = set_entry (record_filename sequence) [] disk
  | Err _ => disk' = disk
  end.
Proof.
  unfold create_record, mut_bind, mut_get, mut_lift, mut_put. destruct (validate_ledger_root io disk); [|by intros [= <- <-]].
  case_bool_decide as Hex; cbn [reject]; [by intros [= <- <-]|]. destruct (faulting io _ _); intros [= <- <-]; [|done].
  split; [by apply eq_None_not_Some|done].
Qed.

Lemma write_record_result (io : Io) sequence bs disk outcome disk' :
  write_record io sequence bs disk = (outcome, disk') →
  ∃ m, disk' = set_entry (record_filename sequence) (take m bs) disk ∧
    match outcome with Ok _ => m = length bs | Err _ => m = io_written io end.
Proof.
  unfold write_record, mut_bind, mut_get, mut_lift, mut_put, faulting.
  destruct (io_fault io _); intros [= <- <-]; [by eexists|]. exists (length bs). by rewrite take_ge.
Qed.

(** What a writer that writes may do next keeps the history. *)
Lemma writer_writes rs tail disk ws k st planned n m phase :
  history_ok rs tail (disk, ws) → ws !! k = Some (mkWriter st (Writing planned n)) → (n <= m)%nat →
  (∀ rs' tail' pre, pre `prefix_of` rs' → chain pre st → plan_ok pre st planned →
    (m < length (planned_bytes planned))%nat ∧ pre = rs' ∧ tail' = Some (k, planned_item planned, m) ∨
    (length (planned_bytes planned) <= m)%nat ∧ pre ++ [planned_item planned] `prefix_of` rs' →
    writer_ok rs' tail' k (mkWriter st phase)) →
  ∃ more tail', history_ok (rs ++ more) tail'
    (set_entry (record_filename (planned_sequence planned)) (take m (planned_bytes planned)) disk, <[k := mkWriter st phase]> ws).
Proof.
  intros (Hd & Hst & Hlen & Hws) Hk Hnm Hphase. cbn [fst snd] in *. subst disk.
  destruct (Hws k _ Hk) as (pre & Hpre & Hc & Hpl & Hcase). cbn [writer_state writer_at] in *.
  destruct (plan_ok_sequence _ _ _ Hc Hpl) as [-> Hlt]. destruct Hcase as [(-> & -> & Hn)|[Hn Hin]].
  - cbn [partial_disk]. rewrite set_entry_set_entry. apply (write_advance rs st (Some (k, planned_item planned, n))); try done.
    + by intros j' x n' [= <- _ _].
    + intros rs' tail' Hcase Hp. by apply (Hphase rs' tail' rs).
  - exists [], tail. rewrite app_nil_r, take_ge by lia. pose proof Hin as [post ->].
    assert (Hmax : MAX_LOCAL_CERTIFICATION_LEDGER_RECORDS < u64_max) by by vm_compute.
    pose proof (partial_disk_lookup (((pre ++ [planned_item planned]) ++ post)) tail (length pre) (planned_item planned) ltac:(lia)) as Hl.
    rewrite <-app_assoc in Hl. specialize (Hl (list_lookup_middle _ _ _ _ eq_refl)). rewrite <-app_assoc in *.
    split_and!; [|done|done|].
    + cbn [fst]. set (d := partial_disk _ tail) in *. unfold set_entry. fold (len pre) in Hl.
      change (Z.of_nat (length pre)) with (len pre) in Hl. rewrite insert_id by exact Hl. by destruct d.
    + apply map_Forall_insert_2; [|done]. apply (Hphase _ _ pre); [done|done|done|]. right.
      split; [lia|by rewrite app_assoc; apply prefix_app_r].
Qed.

(** A writer that changes nothing on the disk and knows no more than before. *)
Lemma writer_rests rs tail disk ws k w :
  history_ok rs tail (disk, ws) → writer_ok rs tail k w → ∃ more tail', history_ok (rs ++ more) tail' (disk, <[k := w]> ws).
Proof.
  intros (Hd & Hst & Hlen & Hws) Hw. exists [], tail. rewrite app_nil_r. split_and!; [done|done|done|].
  by apply map_Forall_insert_2.
Qed.

Lemma writer_creates_ok (io : Io) rs tail disk ws k st planned disk' :
  history_ok rs tail (disk, ws) → ws !! k = Some (mkWriter st (Planning planned)) →
  create_record io (planned_sequence planned) disk = (Ok tt, disk') →
  ∃ more tail', history_ok (rs ++ more) tail' (disk', <[k := mkWriter st (Writing planned 0)]> ws).
Proof.
  intros (Hd & Hst & Hlen & Hws) Hk [Hfree ->]%create_record_result. cbn [fst snd] in *. subst disk.
  destruct (Hws k _ Hk) as (pre & [post ->] & Hc & Hpl). cbn [writer_state writer_at] in *.
  destruct (plan_ok_sequence _ _ _ Hc Hpl) as [Hseq Hlt]. rewrite Hseq in *.
  assert (Hmax : MAX_LOCAL_CERTIFICATION_LEDGER_RECORDS < u64_max) by by vm_compute.
  destruct post as [|x post].
  2: { pose proof (partial_disk_lookup (pre ++ x :: post) tail (length pre) x ltac:(lia) (list_lookup_middle _ _ _ _ eq_refl)) as Hl.
       change (Z.of_nat (length pre)) with (len pre) in Hl. by rewrite Hfree in Hl. }
  rewrite app_nil_r in *. destruct tail as [[[j y] n]|].
  { cbn [partial_disk set_entry disk_entries] in Hfree. by rewrite lookup_insert_eq in Hfree. }
  change [] with (take 0 (planned_bytes planned)). apply (write_advance pre st None); try done.
  intros rs' tail' Hcase Hp. exists pre. split_and!; [done|done|split; [done|]].
  destruct Hcase as [(Hm & -> & ->)|Hcase]; [by left|by right].
Qed.

Lemma writer_step_ok rs tail s s' :
  record_json_law → record_prefix_law → history_ok rs tail s → writer_step s s' →
  ∃ more tail', history_ok (rs ++ more) tail' s'.
Proof.
  intros Hlaw Hprefix H Hs. pose proof H as (Hd & (st0 & Hc0 & Hok) & Hlen & Hws).
  destruct Hs as [io disk ws k head self Henum Ho Hk|io disk ws k st event planned Henum Hk Ht Hplan
    |io disk ws k st planned disk' Hk Hcr|io disk ws k st planned e disk' Hk Hcr%create_record_result
    |disk ws k st planned n m Hk Hnm|io disk ws k st planned n disk' Hk (m & -> & ->)%write_record_result
    |io disk ws k st planned n e disk' Hk Hnm (m & -> & ->)%write_record_result
    |io disk ws k st planned st' Hk Hsync Hfin|disk ws k st planned Hk|disk ws k]; cbn [fst snd] in Hd, Hws.
  - apply (writer_rests rs tail); [done|]. unfold ledger_open in Ho. apply result_bind_Ok in Ho as (st & Ho & [= <-]).
    rewrite Hd in Ho. apply (replay_partial io rs st0 tail) in Ho as [_ ->]; try done. by exists rs.
  - apply (writer_rests rs tail); [done|]. destruct (Hws k _ Hk) as (pre & Hpre & Hc & _). cbn [writer_state] in Hc.
    apply plan_append_sound in Hplan as (observed & Hr & Hcount & Hpl). rewrite Hd in Hr.
    apply (replay_partial io rs st0 tail) in Hr as [_ ->]; try done.
    exists pre. split_and!; [done|done|]. by apply Hpl.
  - by eapply writer_creates_ok.
  - subst disk'. apply (writer_rests rs tail); [done|]. destruct (Hws k _ Hk) as (pre & Hpre & Hc & _). by exists pre.
  - apply (writer_writes rs tail disk ws k st planned n m); try done.
    intros rs' tail' pre Hp Hc Hpl Hcase. exists pre. split_and!; [done|done|split; [done|]].
    destruct Hcase as [(? & ? & ?)|?]; [by left|by right].
  - destruct (Hws k _ Hk) as (pre0 & _ & _ & _ & Hn).
    rewrite <-(firstn_all2 (planned_bytes planned) (Nat.le_max_r n (length (planned_bytes planned)))), firstn_all2 by lia.
    replace (take (length (planned_bytes planned)) (planned_bytes planned))
      with (take (n `max` length (planned_bytes planned)) (planned_bytes planned)) by (rewrite !take_ge; [done|lia|lia]).
    apply (writer_writes rs tail disk ws k st planned n); [done|done|lia|].
    intros rs' tail' pre Hp Hc Hpl [(Hm & _)|[_ Hin]]; [lia|]. by exists pre.
  - apply (writer_writes rs tail disk ws k st planned n); try done. intros rs' tail' pre Hp Hc _ _. by exists pre.
  - apply (writer_rests rs tail); [done|]. destruct (Hws k _ Hk) as (pre & Hpre & Hc & Hpl & Hin). cbn [writer_state writer_at] in *.
    exists (pre ++ [planned_item planned]). split_and!; [done|by eapply record_append_Ok|done].
  - apply (writer_rests rs tail); [done|]. destruct (Hws k _ Hk) as (pre & Hpre & Hc & _). by exists pre.
  - exists [], tail. rewrite app_nil_r. split_and!; [done|by exists st0|done|]. by apply map_Forall_delete.
Qed.

Lemma writer_steps_ok rs tail s s' :
  record_json_law → record_prefix_law → history_ok rs tail s → rtc writer_step s s' →
  ∃ rs' tail', rs `prefix_of` rs' ∧ history_ok rs' tail' s'.
Proof.
  intros Hlaw Hprefix H Hrun. revert rs tail H. induction Hrun as [s|s s1 s' Hs _ IH]; intros rs tail H; [by exists rs, tail|].
  destruct (writer_step_ok rs tail s s1 Hlaw Hprefix H Hs) as (more & tail1 & H1).
  destruct (IH _ _ H1) as (rs' & tail' & Hp & H'). exists rs', tail'. split; [|done]. etransitivity; [by apply prefix_app_r|done].
Qed.

(** C25: concurrent writers share one history, whatever fails.  Any number of
    handles work on a directory that holds a chain; their replays, creations of a
    file, partial writes, completed writes and synchronizations interleave in any
    way, each of them may fail with any fault, and any process may stop at any
    point.  The files of the history are never changed: the directory always holds
    a chain that extends the first one, and every handle's state is the state of
    a prefix of it.  Beside these files there is nothing, and then the directory
    opens under its head; or there is one file more, under the next number, which
    holds a proper prefix of the bytes of one record that may follow (a writer is
    writing it, or failed or stopped before it was done), and until it is complete
    every attempt to open the directory, under any head, is refused.  A replay is
    taken at one moment, [sync_all] changes nothing that others see, and the loss
    of what was written but not synchronized (a power failure) is not covered. *)
Theorem concurrent_writers_share_history rs st disk ws :
  record_json_law → record_prefix_law → chain rs st → len rs <= MAX_LOCAL_CERTIFICATION_LEDGER_RECORDS →
  rtc writer_step (ledger_disk rs, ∅) (disk, ws) →
  ∃ rs' st', rs `prefix_of` rs' ∧ chain rs' st' ∧
    (disk = ledger_disk rs' ∧
       (∀ io : Io, quiet io → ample Alloc → ledger_open io disk (head_digest st') = Ok (mkLedger false st')) ∨
     (∃ event r bs p n, event_typed event ∧ appendable rs' st' event r bs p ∧ (n < length bs)%nat ∧
        disk = set_entry (record_filename (len rs' + 1)) (take n bs) (ledger_disk rs') ∧
        ∀ (io : Io) head, (∀ m, io_enumerate io m ≡ₚ map_to_list m) → is_ok (ledger_open io disk head) = false)) ∧
    ∀ k w, ws !! k = Some w → ∃ pre, pre `prefix_of` rs' ∧ chain pre (writer_state w).
Proof.
  intros Hlaw Hprefix Hc Hlen Hrun.
  assert (H0 : history_ok rs None (ledger_disk rs, ∅)) by (split_and!; [done|by exists st|done|apply map_Forall_empty]).
  destruct (writer_steps_ok _ _ _ _ Hlaw Hprefix H0 Hrun) as (rs' & tail & Hp & Hd & (st' & Hc' & Hok) & Hlen' & Hws).
  cbn [fst snd] in *. subst disk. exists rs', st'. split_and!; [done|done| |].
  - destruct tail as [[[k [r bs]] n]|]; [right|left].
    + pose proof Hok as (Hn & event & p & Ht & Happ). exists event, r, bs, p, n. split_and!; [done|done|done|done|].
      intros io head Henum. unfold ledger_open. destruct (replay_directory io _ _) as [st1|] eqn:E; [|done]. exfalso.
      by apply (replay_partial io rs' st' (Some (k, (r, bs), n))) in E as [? _].
    + split; [done|]. intros io Hq Ha. unfold ledger_open. cbn [partial_disk].
      rewrite (replay_directory_complete io rs' st') by done. by rewrite bool_decide_eq_true_2.
  - intros k w Hw. destruct (Hws k w Hw) as (pre & Hpre & Hcp & _). by exists pre.
Qed.
(** ** Policy along the history *)

(** The attestations recorded, in order. *)
Definition recorded_attestation (e : LocalCertificationLedgerEvent) : option LocalCertificationRunAttestation :=
  match e with
  | Event_Genesis g => Some (genesis_attestation g)
  | Event_Publication p => Some (publication_attestation p)
  | _ => None
  end.
Definition attested (rs : chained) : list LocalCertificationRunAttestation :=
  omap (λ x, recorded_attestation (record_event x.1)) rs.
Definition challenges (rs : chained) : list Uuid := (λ a, challenge (attestation_freshness a)) <$> attested rs.

(** How many generations of each policy an event begins. *)
Definition certification_step (e : LocalCertificationLedgerEvent) : Z :=
  match e with Event_PolicyReplacement _ | Event_CertificationRevocation _ => 1 | _ => 0 end.
Definition runner_step (e : LocalCertificationLedgerEvent) : Z :=
  match e with Event_PolicyReplacement _ | Event_RunnerRevocation _ => 1 | _ => 0 end.
Definition steps (f : LocalCertificationLedgerEvent → Z) (rs : chained) : Z :=
  sum_lengths ((λ x, f (record_event x.1)) <$> rs).

Lemma apply_event_facts event before after :
  apply_event event before = Ok after →
  certification_generation after = certification_generation before + certification_step event ∧
  runner_generation after = runner_generation before + runner_step event ∧
  match recorded_attestation event with
  | Some a => runner_revoked before = false ∧ certification_revoked before = false ∧
      accepts_attestation (projection_policy before) a = true ∧
      (challenge (attestation_freshness a) ∉ freshness_challenges before) ∧
      freshness_challenges after = {[challenge (attestation_freshness a)]} ∪ freshness_challenges before
  | None => freshness_challenges after = freshness_challenges before
  end.
Proof.
  destruct event as [g|pub|po|d|d]; cbn [Ledger.apply_event recorded_attestation certification_step runner_step]; [done|..]; intros H.
  - unfold apply_publication in H. apply result_bind_Ok in H as (_ & H1%reject_Ok & H).
    apply result_bind_Ok in H as (_ & H2%reject_Ok & H). apply result_bind_Ok in H as (_ & H3%reject_Ok%negb_false_iff & H).
    apply result_bind_Ok in H as (_ & H4%reject_Ok%bool_decide_eq_false & [= <-]). cbn. by rewrite !Z.add_0_r.
  - apply result_bind_Ok in H as (er & [-> _]%ok_or_Ok%checked_add_Some & H).
    apply result_bind_Ok in H as (ec & [-> _]%ok_or_Ok%checked_add_Some & H).
    apply result_bind_Ok in H as (_ & [H1%negb_false_iff%Z.eqb_eq H2%negb_false_iff%Z.eqb_eq]%reject_Ok%orb_false_iff & [= <-]).
    cbn. by rewrite H1, H2.
  - apply result_bind_Ok in H as (ec & [-> _]%ok_or_Ok%checked_add_Some & [= <-]). cbn. by rewrite !Z.add_0_r.
  - apply result_bind_Ok in H as (ec & [-> _]%ok_or_Ok%checked_add_Some & [= <-]). cbn. by rewrite !Z.add_0_r.
Qed.

Lemma record_next_event prev event r : record_next prev event = Ok r → record_event r = event.
Proof. by intros (d & _ & _ & _ & _ & ->)%record_next_Ok. Qed.

Lemma steps_snoc f rs x : steps f (rs ++ [x]) = steps f rs + f (record_event x.1).
Proof. unfold steps. rewrite fmap_app, sum_lengths_app. f_equal. cbn. apply Z.add_0_r. Qed.

Lemma challenges_snoc rs x :
  challenges (rs ++ [x]) =
    challenges rs ++ option_list ((λ a, challenge (attestation_freshness a)) <$> recorded_attestation (record_event x.1)).
Proof.
  unfold challenges, attested. rewrite omap_app, fmap_app. f_equal. cbn. by destruct (recorded_attestation _).
Qed.

(** the policy rules hold along every accepted history.  No freshness
    challenge is used twice; the generation of each policy is the genesis
    generation plus one for every replacement and revocation recorded; and every
    published attestation was accepted by the policy current at that moment, with
    neither the runner nor the certification policy revoked. *)
Theorem ledger_policy_invariant rs st :
  chain rs st →
  NoDup (challenges rs) ∧ freshness_challenges (projection st) = list_to_set (challenges rs) ∧
  (∃ g bs rest, rs = (mkRecord 1 None (Event_Genesis g), bs) :: rest ∧
     certification_generation (projection st) = control_policy_generation (genesis_policy g) + steps certification_step rs ∧
     runner_generation (projection st) = run_policy_generation (control_runner (genesis_policy g)) + steps runner_step rs) ∧
  (∀ pre r bs post a, rs = pre ++ (r, bs) :: post → pre ≠ [] → recorded_attestation (record_event r) = Some a →
     ∃ before, chain pre before ∧ runner_revoked (projection before) = false ∧
       certification_revoked (projection before) = false ∧
       accepts_attestation (projection_policy (projection before)) a = true).
Proof.
  induction 1 as [g bs Ht Hv Hw|rs st event r bs p Hc (IH1 & IH2 & (g & bs0 & rest & -> & IH3 & IH4) & IH5) Ht Hn Hw Htot Ha].
  - split_and!.
    + unfold challenges, attested. cbn. apply NoDup_singleton.
    + unfold challenges, attested. cbn. by rewrite (right_id_L ∅ (∪)).
    + exists g, bs, []. unfold steps, sum_lengths. cbn. split_and!; [done|lia..].
    + intros pre r bs' post a Heq Hne _. destruct pre as [|x pre]; [done|]. cbn in Heq. injection Heq as _ Heq. by destruct pre.
  - set (rs := _ :: rest) in *. pose proof (record_next_event _ _ _ Hn) as He.
    destruct (apply_event_facts _ _ _ Ha) as (Hcert & Hrun & Hatt). cbn [projection].
    rewrite challenges_snoc, !steps_snoc. cbn [fst]. rewrite He.
    destruct (recorded_attestation event) as [a|] eqn:Ea; cbn [fmap option_fmap option_map option_list].
    + destruct Hatt as (Hr1 & Hr2 & Hacc & Hfresh & Hset). rewrite IH2 in Hfresh, Hset. split_and!.
      * apply NoDup_app. split_and!; [done| |apply NoDup_singleton]. intros c Hc1 ->%list_elem_of_singleton.
        by apply Hfresh, elem_of_list_to_set.
      * rewrite Hset, list_to_set_app_L. cbn. rewrite (right_id_L ∅ (∪)). apply union_comm_L.
      * exists g, bs0, (rest ++ [(r, bs)]). split_and!; [done|lia..].
      * intros pre r' bs' post a' Heq Hne Ha'. destruct post as [|y post _] using rev_ind.
        -- apply app_inj_tail in Heq as [<- [= <- <-]]. rewrite He, Ea in Ha'. injection Ha' as <-. by exists st.
        -- rewrite app_comm_cons, app_assoc in Heq. apply app_inj_tail in Heq as [Heq _]. by eapply IH5.
    + rewrite app_nil_r. split_and!; [done|by rewrite Hatt| |].
      * exists g, bs0, (rest ++ [(r, bs)]). split_and!; [done|lia..].
      * intros pre r' bs' post a' Heq Hne Ha'. destruct post as [|y post _] using rev_ind.
        -- apply app_inj_tail in Heq as [<- [= <- <-]]. by rewrite He, Ea in Ha'.
        -- rewrite app_comm_cons, app_assoc in Heq. apply app_inj_tail in Heq as [Heq _]. by eapply IH5.
Qed.
End Spec.

(** ** A sample ledger *)

Module SampleLedger.
Definition sample_freshness (c : Uuid) : CertificationRunFreshness := mkFreshness c 60000 1500.
Definition sample_runner : CertificationRunRunnerIdentity := mkRunRunner (lit "runner") (lit "descriptors") (lit "runner policy") 1.
Definition sample_result : CertificationRunResultIdentity :=
  mkRunResult sample_ref sample_target (lit "profile") (lit "evidence") (lit "artifacts") Class_SmokeVerified
    (lit "policy") 1 13 4096.
Definition sample_attestation (c : Uuid) : LocalCertificationRunAttestation :=
  mkAttestation (sample_freshness c) sample_runner sample_result.
Definition sample_policy : CertificationControlPolicy :=
  mkControlPolicy sample_runner sample_ref sample_target (lit "profile") (lit "evidence") (lit "artifacts")
    Class_SmokeVerified (lit "policy") 1.

#[local] Instance sample_hash : Sha256 := λ bs, bs.
#[local] Instance sample_alloc : Allocator := ample_allocator.

Definition sample_receipt (c : Uuid) : LocalCertificationLedgerReceipt :=
  mkLedgerReceipt (usize_to_string c) Publication_LocalOnly.
Definition sample_genesis : LocalCertificationLedgerGenesis :=
  mkGenesis sample_policy (sample_attestation 1) (sample_receipt 1).
Definition publication_event : LocalCertificationLedgerEvent :=
  Event_Publication (mkLedgerPublication (sample_attestation 2) (sample_receipt 2)).
Definition genesis_record : LocalCertificationLedgerRecord := mkRecord 1 None (Event_Genesis sample_genesis).
Definition second_record : LocalCertificationLedgerRecord := mkRecord 2 (Some (lit "genesis")) publication_event.

(** A JSON that knows two records, and writes an attestation as its challenge. *)
#[local] Instance sample_json : ControlJson := {|
  JsonError := unit;
  json_custom := tt;
  attestation_from_slice := λ _, Err tt;
  attestation_to_vec := λ a, Ok (usize_to_string (challenge (attestation_freshness a)));
  record_from_slice := λ bs, if bool_decide (bs = lit "genesis") then Ok genesis_record
                             else if bool_decide (bs = lit "second") then Ok second_record else Err tt;
  record_to_vec := λ r, if bool_decide (r = genesis_record) then Ok (lit "genesis")
                        else if bool_decide (r = second_record) then Ok (lit "second") else Err tt
|}.
Definition sample_io : Ledger.Io unit := mkIo (λ _, None) 0 map_to_list.

Lemma sample_json_law : record_json_law.
Proof.
  intros r bs. cbn. case_bool_decide as H1; [intros [= <-]; by rewrite H1|].
  case_bool_decide as H2; [intros [= <-]; by rewrite H2|done].
Qed.
Lemma sample_io_quiet : quiet sample_io.
Proof. by split. Qed.

Definition genesis_state : LedgerState :=
  mkLedgerState genesis_record (sha256 (lit "genesis")) 1 (len (lit "genesis")) (from_genesis sample_genesis).
Definition second_projection : LedgerProjection := mkProjection sample_policy 1 1 false false ({[2]} ∪ {[1]}).
Definition sample_history : list (LocalCertificationLedgerRecord * bytes) := [(genesis_record, lit "genesis")].

Lemma sample_written r bs : record_to_vec r = Ok bs → (len bs <=? 100) = true → written r bs.
Proof. intros H Hl%Z.leb_le. split; [done|]. etransitivity; [exact Hl|by vm_compute]. Qed.
Lemma sample_chain : chain (IoError := unit) sample_history genesis_state.
Proof. apply (chain_genesis (IoError := unit) sample_genesis (lit "genesis")); [split; by vm_compute|by vm_compute|apply sample_written; by vm_compute]. Qed.
Lemma sample_appendable :
  appendable (IoError := unit) sample_history genesis_state publication_event second_record (lit "second") second_projection.
Proof. split_and!; [by vm_compute|reflexivity|by vm_compute|apply sample_written; by vm_compute|by vm_compute]. Qed.
Definition longer_history : list (LocalCertificationLedgerRecord * bytes) :=
  sample_history ++ [(second_record, lit "second")].
Definition second_state : LedgerState := appended genesis_state second_record (lit "second") second_projection.
Lemma longer_chain : chain (IoError := unit) longer_history second_state.
Proof. apply (appended_chain (IoError := unit) _ _ publication_event); [apply sample_chain|by vm_compute|apply sample_appendable]. Qed.

Lemma sample_opens :
  ledger_open sample_io (ledger_disk longer_history) (head_digest second_state) = Ok (mkLedger false second_state).
Proof.
  unfold ledger_open. rewrite (replay_directory_complete sample_io longer_history second_state);
    [|exact sample_json_law|exact sample_io_quiet|exact ample_allocator_ample|exact longer_chain|by vm_compute].
  by rewrite bool_decide_eq_true_2.
Qed.

Lemma replay_refines_chain_witness :
  replay_directory sample_io (ledger_disk longer_history) None = Ok second_state.
Proof.
  apply (replay_refines_chain sample_io _ _ sample_json_law sample_io_quiet ample_allocator_ample).
  exists longer_history. split_and!; [done|exact longer_chain|by vm_compute].
Defined.

(** The same directory as an operating system that enumerates it backwards shows it. *)
Definition reversing_io : Ledger.Io unit := mkIo (λ _, None) 0 (λ m, reverse (map_to_list m)).
(** Rewriting the first record is noticed under the head pinned before. *)
Definition tampered : Disk := set_entry (record_filename 1) (lit "forged") (ledger_disk longer_history).
Lemma pinned_head_determines_history_witness :
  is_ok (ledger_open sample_io (ledger_disk longer_history) (head_digest second_state)) = true ∧
  is_ok (ledger_open reversing_io tampered (head_digest second_state)) = false.
Proof.
  split; [by rewrite sample_opens|].
  destruct (ledger_open reversing_io tampered _) as [self|e] eqn:H; [exfalso|done].
  destruct (pinned_head_determines_history sample_io reversing_io (ledger_disk longer_history) tampered
    (head_digest second_state) (mkLedger false second_state) self) as [[Heq _]|(n1 & e1 & n2 & e2 & _ & _ & Hne & Heq)];
    [exact sample_json_law|apply sample_io_quiet|intros m; apply reverse_Permutation|exact sample_opens|exact H| |by destruct Hne].
  pose proof (ledger_disk_lookup longer_history 0 (genesis_record, lit "genesis") ltac:(by vm_compute) eq_refl) as Hl.
  rewrite Heq in Hl. cbn [tampered set_entry disk_entries] in Hl. rewrite lookup_insert_eq in Hl. discriminate Hl.
Defined.

Lemma append_event_exact_witness :
  let '(outcome, (disk', _)) :=
    append_event sample_io publication_event (ledger_disk sample_history, mkLedger false genesis_state) in
  is_ok outcome = true ∧
  ∃ r bs p, appendable (IoError := unit) sample_history genesis_state publication_event r bs p ∧
    disk' = set_entry (record_filename (len sample_history + 1)) bs (ledger_disk sample_history).
Proof.
  destruct (append_event sample_io _ _) as [outcome [disk' self']] eqn:E.
  pose proof (append_event_exact sample_io sample_history genesis_state publication_event outcome disk' self'
    sample_json_law sample_io_quiet ample_allocator_ample ltac:(by vm_compute) sample_chain ltac:(by vm_compute) E) as H.
  destruct outcome as [receipt|e].
  - destruct H as (r & bs & p & Happ & _ & _ & Hd & _). split; [done|]. exists r, bs, p. exact (conj Happ Hd).
  - exfalso. apply (proj1 H). exists second_record, (lit "second"), second_projection. exact sample_appendable.
Defined.

Lemma append_event_append_only_witness :
  let '(_, (disk', _)) :=
    append_event sample_io publication_event (ledger_disk sample_history, mkLedger false genesis_state) in
  disk_entries (ledger_disk sample_history) ⊆ disk_entries disk'.
Proof.
  destruct (append_event sample_io _ _) as [outcome [disk' self']] eqn:E.
  by apply (append_event_append_only _ _ _ _ _ _ _ E).
Defined.

Lemma ledger_create_exact_witness :
  let '(outcome, _) := ledger_create sample_io sample_policy (sample_attestation 1) (mkDisk None ∅) in
  is_ok outcome = true.
Proof.
  destruct (ledger_create sample_io _ _ _) as [outcome disk'] eqn:E.
  pose proof (ledger_create_exact sample_io sample_policy (sample_attestation 1) (mkDisk None ∅) outcome disk'
    sample_json_law sample_io_quiet ample_allocator_ample ltac:(by vm_compute) ltac:(by vm_compute) E) as H.
  destruct outcome as [self|e]; [done|].
  exfalso. apply (proj1 H eq_refl). exists genesis_record, (lit "genesis"). exists sample_genesis.
  split_and!; [by vm_compute|done|apply sample_written; by vm_compute].
Defined.

Lemma sample_prefix_law : record_prefix_law.
Proof.
  assert (H : ∀ r bs, record_to_vec r = Ok bs → bs ∈ [lit "genesis"; lit "second"]).
  { intros r bs. cbn. case_bool_decide; [intros [= <-]; by left|]. case_bool_decide; [intros [= <-]; by right; left|done]. }
  intros r bs r' bs' [->|[->|[]%not_elem_of_nil]%elem_of_cons]%H%elem_of_cons [->|[->|[]%not_elem_of_nil]%elem_of_cons]%H%elem_of_cons [post Hp];
    done.
Qed.

(** One process opens the ledger, plans a publication, writes five of its six
    bytes and stops; another then waits for it in vain. *)
Definition interrupted_plan : planned_append :=
  mkPlanned second_record (lit "second") (len (lit "genesis") + len (lit "second")) second_projection.
Definition created_disk : Disk := (create_record sample_io (planned_sequence interrupted_plan) (ledger_disk sample_history)).2.
Definition interrupted_disk : Disk :=
  set_entry (record_filename (planned_sequence interrupted_plan)) (take 5 (lit "second")) created_disk.
Lemma interrupted_run : rtc (writer_step (IoError := unit)) (ledger_disk sample_history, ∅) (interrupted_disk, ∅).
Proof.
  set (opened := mkWriter genesis_state Idle).
  eapply rtc_l; [apply (writer_opens sample_io _ _ 1%nat (head_digest genesis_state) (mkLedger false genesis_state)); [done| |done]|].
  { unfold ledger_open. rewrite (replay_directory_complete sample_io sample_history genesis_state);
      [|exact sample_json_law|exact sample_io_quiet|exact ample_allocator_ample|exact sample_chain|by vm_compute].
    by rewrite bool_decide_eq_true_2. }
  cbn [ledger_state]. fold opened.
  eapply rtc_l; [apply (writer_plans sample_io _ _ 1%nat genesis_state publication_event interrupted_plan);
    [done|apply lookup_insert_eq|by vm_compute|]|].
  { apply (plan_append_Ok sample_io sample_history genesis_state genesis_state publication_event interrupted_plan
      sample_json_law sample_io_quiet ample_allocator_ample sample_chain ltac:(by vm_compute) eq_refl).
    split_and!; [done|done|]. exists second_record, (lit "second"), second_projection. split; [exact sample_appendable|by vm_compute]. }
  rewrite insert_insert_eq.
  eapply rtc_l; [apply (writer_creates sample_io _ _ 1%nat genesis_state interrupted_plan created_disk);
    [apply lookup_insert_eq|by rewrite (surjective_pairing (create_record _ _ _)); f_equal; vm_compute]|].
  rewrite insert_insert_eq.
  eapply rtc_l; [apply (writer_progresses _ _ 1%nat genesis_state interrupted_plan 0 5); [apply lookup_insert_eq|lia]|].
  rewrite insert_insert_eq. apply rtc_once. change (planned_bytes interrupted_plan) with (lit "second"). fold interrupted_disk.
  pose proof (writer_stops (IoError := unit) interrupted_disk (<[1%nat := mkWriter genesis_state (Writing interrupted_plan 5)]> ∅) 1%nat) as H.
  by rewrite delete_insert_eq, delete_empty in H.
Qed.

Lemma concurrent_writers_share_history_witness :
  (∃ head, is_ok (ledger_open sample_io interrupted_disk head) = true) ∨
  (∀ head, is_ok (ledger_open sample_io interrupted_disk head) = false).
Proof.
  destruct (concurrent_writers_share_history (IoError := unit) sample_history genesis_state interrupted_disk ∅
    sample_json_law sample_prefix_law sample_chain ltac:(by vm_compute) interrupted_run)
    as (rs' & st' & _ & _ & [[_ H]|(event & r & bs & p & n & _ & _ & _ & _ & H)] & _).
  - left. exists (head_digest st'). by rewrite (H sample_io sample_io_quiet ample_allocator_ample).
  - right. intros head. by apply H.
Defined.

Lemma ledger_policy_invariant_witness : NoDup (challenges longer_history) ∧ challenges longer_history = [1; 2].
Proof. split; [apply (ledger_policy_invariant (IoError := unit) _ _ longer_chain)|reflexivity]. Defined.
End SampleLedger.
