(* ===== verification/Asar.v ===== *)
(** * Asar: bounded reading and deterministic rewriting of ASAR archives

    Models [crates/weregopher-asar/src/lib.rs]: the Pickle framing, the header
    tree, member names and paths, the packed layout with its integrity records,
    [AsarArchive] (parse, lookup, replace, emit) and [AsarReadOnlyIndex].

    [serde_json] is a parameter: [header_from_slice] is its reading of the JSON
    header into the untagged shapes of [InputEntry], with the members of an
    object in document order and repeated names kept, and [header_to_vec] its
    printing of an [OutputEntry].  [sha2] is [Sha256] and the hexadecimal form
    of a digest the parameter [lower_hex].  A [BTreeMap] nested in the header is
    the list of its bindings in key order ([Text.v]).

    [CollectionState] and [ReadOnlyCollectionState] have the same fields but for
    the count of unpacked files, which the former does not have and leaves at
    zero here. *)

From S2P Require Import Prelude Text.

Definition ASAR_MAGIC : Z := 4.
Definition INTEGRITY_BLOCK_SIZE : Z := 4 * 1024 * 1024.

Record AsarLimits : Type := mkAsarLimits {
  max_archive_bytes : Z;
  max_header_bytes : Z;
  max_entries : Z;
  max_file_bytes : Z;
  max_total_file_bytes : Z;
  max_path_bytes : Z;
  max_depth : Z
}.

Definition asar_limits_initial : AsarLimits :=
  mkAsarLimits (1024 * 1024 * 1024) (16 * 1024 * 1024) 100000 (512 * 1024 * 1024)
    (1024 * 1024 * 1024) 4096 128.

(** ** The header tree *)

Record InputIntegrity : Type := mkInputIntegrity {
  algorithm : str;
  hash : str;
  block_size : Z;
  blocks : list str
}.

Record InputFile : Type := mkInputFile {
  input_size : Z;
  input_offset : option str;
  input_executable : bool;
  unpacked : bool;
  input_integrity : option InputIntegrity
}.

Inductive InputEntry : Type :=
| Input_Directory (files : list (str * InputEntry))
| Input_File (file : InputFile)
| Input_Link (link : str).

Record OutputFile : Type := mkOutputFile {
  output_size : Z;
  output_offset : str;
  output_executable : bool;
  output_integrity : InputIntegrity
}.

Inductive OutputEntry : Type :=
| Output_Directory (files : list (str * OutputEntry))
| Output_File (file : OutputFile).

Record PackedFile : Type := mkPackedFile {
  packed_bytes : bytes;
  executable : bool
}.

Record PendingFile : Type := mkPendingFile {
  pending_offset : Z;
  pending_size : Z;
  pending_executable : bool;
  pending_integrity : InputIntegrity
}.

Record IndexedFile : Type := mkIndexedFile {
  indexed_offset : Z;
  indexed_size : Z
}.

Record AsarArchive : Type := mkAsarArchive {
  archive_files : gmap str PackedFile;
  archive_limits : AsarLimits
}.

Record AsarReadOnlyIndex : Type := mkAsarReadOnlyIndex {
  index_archive : bytes;
  index_data_start : Z;
  packed_files : gmap str IndexedFile;
  index_unpacked_file_count : Z;
  index_limits : AsarLimits
}.

Record CollectionState : Type := mkCollection {
  collected : gmap str PendingFile;
  case_keys : gset str;
  entries : Z;
  path_bytes : Z;
  total_file_bytes : Z;
  unpacked_file_count : Z
}.
Definition collection_new : CollectionState := mkCollection ∅ ∅ 0 0 0 0.

Inductive AsarError {JsonError : Type} : Type :=
| Asar_ArchiveTooLarge
| Asar_HeaderTooLarge
| Asar_InvalidHeader
| Asar_InvalidHeaderJson (e : JsonError)
| Asar_InvalidMemberName
| Asar_TooManyEntries
| Asar_TooDeep
| Asar_PathBudgetExceeded
| Asar_UnsupportedEntry
| Asar_InvalidLayout
| Asar_FileTooLarge
| Asar_AggregateTooLarge
| Asar_IntegrityMismatch
| Asar_MemberNotFound
| Asar_SerializeHeader (e : JsonError).
#[global] Arguments AsarError : clear implicits.

Section Asar.
Context {JsonError : Type}.
Context (header_from_slice : bytes → result InputEntry JsonError)
        (header_to_vec : OutputEntry → result bytes JsonError)
        (no_variant : JsonError).
Context `{HS : Sha256} (lower_hex : bytes → str).
Abbreviation Error := (AsarError JsonError).

(** ** Names and paths *)

Definition name_char_rejected (b : byte) : bool :=
  (byte_val b <=? 0x1f) ||
  bool_decide (b ∈ [chr "/"; chr "\"; chr ":"; chr "<"; chr ">"; byte_of 34; chr "|"; chr "?"; chr "*"]).

Definition reserved_stems : list str :=
  map lit ["con"; "prn"; "aux"; "nul"; "com1"; "com2"; "com3"; "com4"; "com5"; "com6"; "com7";
           "com8"; "com9"; "lpt1"; "lpt2"; "lpt3"; "lpt4"; "lpt5"; "lpt6"; "lpt7"; "lpt8";
           "lpt9"]%string.

Definition validate_member_name (name : str) : result unit Error :=
  do? reject ((len name =? 0) || bool_decide (name ∈ [lit "."; lit ".."]) ||
              (ends_with_byte (chr ".") name || ends_with_byte (chr " ") name) ||
              existsb name_char_rejected name) Asar_InvalidMemberName in
  let stem := to_ascii_lowercase (default [] (head (split (chr ".") name))) in
  reject (bool_decide (stem ∈ reserved_stems)) Asar_InvalidMemberName.

(** The loop of [canonical_archive_path], with the components counted so far. *)
Fixpoint check_components (limits : AsarLimits) (components : list str) (count : Z) :
    result unit Error :=
  match components with
  | [] => Ok tt
  | component :: components =>
    do? validate_member_name component in
    let? count := ok_or (checked_add usize_max count 1) Asar_TooDeep in
    do? reject (max_depth limits <? count) Asar_TooDeep in
    check_components limits components count
  end.

Definition canonical_archive_path (path : str) (limits : AsarLimits) : result str Error :=
  do? reject ((len path =? 0) || (max_path_bytes limits <? len path) ||
              starts_with_byte (chr "/") path) Asar_InvalidMemberName in
  do? check_components limits (split (chr "/") path) 0 in
  Ok path.

(** ** Integrity *)

Definition hex_digest (bs : bytes) : str := lower_hex (sha256 bs).

(** [slice::chunks]; the length of the slice is fuel enough. *)
Fixpoint chunks_from (fuel : nat) (size : Z) (bs : bytes) : list bytes :=
  match fuel, bs with
  | O, _ | _, [] => []
  | S fuel, _ =>
    if len bs <=? size then [bs]
    else take (Z.to_nat size) bs :: chunks_from fuel size (drop (Z.to_nat size) bs)
  end.
Definition chunks (size : Z) (bs : bytes) : list bytes := chunks_from (length bs) size bs.

Definition verify_integrity (bs : bytes) (integrity : InputIntegrity) : result unit Error :=
  do? reject (negb (bool_decide (algorithm integrity = lit "SHA256")) ||
              negb (block_size integrity =? INTEGRITY_BLOCK_SIZE) ||
              negb (bool_decide (hash integrity = hex_digest bs))) Asar_IntegrityMismatch in
  let expected_blocks := map hex_digest (chunks INTEGRITY_BLOCK_SIZE bs) in
  reject (negb (bool_decide (blocks integrity = expected_blocks))) Asar_IntegrityMismatch.

(** [OutputIntegrity::for_bytes]. *)
Definition integrity_for_bytes (bs : bytes) : InputIntegrity :=
  mkInputIntegrity (lit "SHA256") (hex_digest bs) INTEGRITY_BLOCK_SIZE
    (map hex_digest (chunks INTEGRITY_BLOCK_SIZE bs)).

(** ** Header framing *)

Definition read_u32 (bs : bytes) (offset : Z) : result Z Error :=
  let? stop := ok_or (checked_add usize_max offset 4) Asar_InvalidHeader in
  let? raw := ok_or (slice bs offset stop) Asar_InvalidHeader in
  Ok (le_val raw).

(** [deserialize_unique_files], at every level: a repeated name leaves the
    directory shape unmatched, and with it every shape of the entry. *)
Section Unique.
Context (unique : InputEntry → result InputEntry JsonError).

Fixpoint unique_files (members : list (str * InputEntry)) (files : list (str * InputEntry)) :
    result (list (str * InputEntry)) JsonError :=
  match members with
  | [] => Ok files
  | (name, entry) :: members =>
    let? entry := unique entry in
    do? reject (bool_decide (is_Some (assoc_get name files))) no_variant in
    unique_files members (assoc_insert name entry files)
  end.
End Unique.

Fixpoint deserialize_entry (entry : InputEntry) : result InputEntry JsonError :=
  match entry with
  | Input_Directory members =>
    let? files := unique_files deserialize_entry members [] in
    Ok (Input_Directory files)
  | _ => Ok entry
  end.

Definition parse_header (bs : bytes) (limits : AsarLimits) :
    result (list (str * InputEntry) * Z) Error :=
  do? reject (len bs <? 16) Asar_InvalidHeader in
  let? magic := read_u32 bs 0 in
  let? outer_size := read_u32 bs 4 in
  let? inner_size := read_u32 bs 8 in
  let? json_size := read_u32 bs 12 in
  do? reject (negb (magic =? ASAR_MAGIC) ||
              negb (outer_size =? saturating_add u32_max inner_size 4)) Asar_InvalidHeader in
  let? padded_size := ok_or (checked_sub inner_size 4) Asar_InvalidHeader in
  do? reject (negb (padded_size mod 4 =? 0) || (padded_size <? json_size)) Asar_InvalidHeader in
  let? data_start := ok_or (checked_add usize_max 16 padded_size) Asar_InvalidHeader in
  do? reject ((len bs <? data_start) || (max_header_bytes limits <? data_start))
    Asar_HeaderTooLarge in
  let? json_end := ok_or (checked_add usize_max 16 json_size) Asar_InvalidHeader in
  let? json := ok_or (slice bs 16 json_end) Asar_InvalidHeader in
  let? padding := ok_or (slice bs json_end data_start) Asar_InvalidHeader in
  do? reject (existsb (λ b, negb (byte_val b =? 0)) padding) Asar_InvalidHeader in
  let? raw := map_err Asar_InvalidHeaderJson (header_from_slice json) in
  let? root_entry := map_err Asar_InvalidHeaderJson (deserialize_entry raw) in
  match root_entry with
  | Input_Directory root => Ok (root, data_start)
  | _ => Err Asar_InvalidHeader
  end.

(** ** Collection *)

Abbreviation collect := (mut CollectionState Error).

Definition register_entry (limits : AsarLimits) (path : str) : collect unit :=
  let* s := mut_get in
  let* entries := mut_lift (ok_or (checked_add usize_max (entries s) 1) Asar_TooManyEntries) in
  do* mut_put (mkCollection (collected s) (case_keys s) entries (path_bytes s)
                 (total_file_bytes s) (unpacked_file_count s)) in
  do* mut_lift (reject (max_entries limits <? entries) Asar_TooManyEntries) in
  let* bytes := mut_lift (ok_or (checked_add usize_max (path_bytes s) (len path))
                            Asar_PathBudgetExceeded) in
  do* mut_put (mkCollection (collected s) (case_keys s) entries bytes
                 (total_file_bytes s) (unpacked_file_count s)) in
  let* aggregate_path_limit := mut_lift (ok_or (checked_mul usize_max (max_entries limits)
                                                  (max_path_bytes limits)) Asar_PathBudgetExceeded) in
  do* mut_lift (reject (aggregate_path_limit <? bytes) Asar_PathBudgetExceeded) in
  let case_key := to_ascii_lowercase path in
  do* mut_put (mkCollection (collected s) ({[case_key]} ∪ case_keys s) entries bytes
                 (total_file_bytes s) (unpacked_file_count s)) in
  mut_lift (reject (bool_decide (case_key ∈ case_keys s)) Asar_InvalidMemberName).

(** The size accounting of one file; in [collect_entries] it is inlined. *)
Definition register_file_size (limits : AsarLimits) (size : Z) : collect Z :=
  let* s := mut_get in
  do* mut_lift (reject (max_file_bytes limits <? size) Asar_FileTooLarge) in
  let* total := mut_lift (ok_or (checked_add usize_max (total_file_bytes s) size)
                            Asar_AggregateTooLarge) in
  do* mut_put (mkCollection (collected s) (case_keys s) (entries s) (path_bytes s) total
                 (unpacked_file_count s)) in
  do* mut_lift (reject (max_total_file_bytes limits <? total) Asar_AggregateTooLarge) in
  mut_ret size.

Definition parse_offset (file : InputFile) : result Z Error :=
  let? text := ok_or (input_offset file) Asar_InvalidLayout in
  ok_or (parse_usize text) Asar_InvalidLayout.

Definition insert_pending (path : str) (file : PendingFile) : collect unit :=
  λ s, (Ok tt, mkCollection (<[path := file]> (collected s)) (case_keys s) (entries s)
                 (path_bytes s) (total_file_bytes s) (unpacked_file_count s)).

Definition count_unpacked : collect unit :=
  let* s := mut_get in
  let* count := mut_lift (ok_or (checked_add usize_max (unpacked_file_count s) 1)
                            Asar_TooManyEntries) in
  mut_put (mkCollection (collected s) (case_keys s) (entries s) (path_bytes s)
             (total_file_bytes s) count).

(** The [File] arm of [collect_entries]. *)
Definition collect_file (limits : AsarLimits) (file : InputFile) (path : str) : collect unit :=
  do* mut_lift (reject (unpacked file) Asar_UnsupportedEntry) in
  let* offset := mut_lift (parse_offset file) in
  let* size := register_file_size limits (input_size file) in
  let* integrity := mut_lift (ok_or (input_integrity file) Asar_IntegrityMismatch) in
  insert_pending path (mkPendingFile offset size (input_executable file) integrity).

(** The [File] arm of [collect_read_only_entries]. *)
Definition collect_read_only_file (limits : AsarLimits) (file : InputFile) (path : str) :
    collect unit :=
  let* size := register_file_size limits (input_size file) in
  if unpacked file then
    do* mut_lift (reject (bool_decide (is_Some (input_offset file))) Asar_InvalidLayout) in
    count_unpacked
  else
    let* offset := mut_lift (parse_offset file) in
    let* integrity := mut_lift (ok_or (input_integrity file) Asar_IntegrityMismatch) in
    insert_pending path (mkPendingFile offset size (input_executable file) integrity).

(** The loop over the members of a directory; [visit] is the [match entry]. *)
Section Members.
Context (limits : AsarLimits) (visit : InputEntry → str → collect unit).

Fixpoint collect_members (parent : str) (files : list (str * InputEntry)) : collect unit :=
  match files with
  | [] => mut_ret tt
  | (name, entry) :: files =>
    do* mut_lift (validate_member_name name) in
    let path := member_path parent name in
    do* mut_lift (reject (max_path_bytes limits <? len path) Asar_InvalidMemberName) in
    do* register_entry limits path in
    do* visit entry path in
    collect_members parent files
  end.
End Members.

(** [collect_entries], with the arms of its [match entry] for a member that is
    not a directory. *)
Fixpoint collect_entries (limits : AsarLimits) (entry : InputEntry) (depth : Z) (path : str) :
    collect unit :=
  match entry with
  | Input_Directory files =>
    do* mut_lift (reject (max_depth limits <? depth) Asar_TooDeep) in
    do* mut_lift (reject ((0 <? depth) && (len files =? 0)) Asar_UnsupportedEntry) in
    collect_members limits (λ child path, collect_entries limits child (depth + 1) path) path files
  | Input_File file => collect_file limits file path
  | Input_Link link =>
    do* mut_lift (reject (len link =? 0) Asar_InvalidMemberName) in
    mut_lift (Err Asar_UnsupportedEntry)
  end.

Fixpoint collect_read_only_entries (limits : AsarLimits) (entry : InputEntry) (depth : Z)
    (path : str) : collect unit :=
  match entry with
  | Input_Directory files =>
    do* mut_lift (reject (max_depth limits <? depth) Asar_TooDeep) in
    collect_members limits (λ child path, collect_read_only_entries limits child (depth + 1) path)
      path files
  | Input_File file => collect_read_only_file limits file path
  | Input_Link link => do* mut_lift (canonical_archive_path link limits) in mut_ret tt
  end.

(** ** The packed layout *)

(** The order of [sort_by]: by offset, then by path. *)
Definition offset_le (x y : str * PendingFile) : bool :=
  (pending_offset x.2 <? pending_offset y.2) ||
  ((pending_offset x.2 =? pending_offset y.2) && str_le x.1 y.1).

Definition by_offset (files : gmap str PendingFile) : list (str * PendingFile) :=
  merge_sort (λ x y, Is_true (offset_le x y)) (btree_iter str_le files).

(** The first loop of [finish]: files follow one another without gaps. *)
Fixpoint check_layout (files : list (str * PendingFile)) (cursor : Z) : result Z Error :=
  match files with
  | [] => Ok cursor
  | (_, file) :: files =>
    do? reject (negb (pending_offset file =? cursor)) Asar_InvalidLayout in
    let? cursor := ok_or (checked_add usize_max cursor (pending_size file)) Asar_InvalidLayout in
    check_layout files cursor
  end.

(** The bytes of a file of the body, verified. *)
Definition verified_bytes (body : bytes) (file : PendingFile) : result bytes Error :=
  let? stop := ok_or (checked_add usize_max (pending_offset file) (pending_size file))
    Asar_InvalidLayout in
  let? bs := ok_or (slice body (pending_offset file) stop) Asar_InvalidLayout in
  do? verify_integrity bs (pending_integrity file) in
  Ok bs.

(** The second loop of [finish], over the files in path order. *)
Fixpoint finish_files {F} (make : PendingFile → bytes → F) (body : bytes)
    (files : list (str * PendingFile)) (done : gmap str F) : result (gmap str F) Error :=
  match files with
  | [] => Ok done
  | (path, file) :: files =>
    let? bs := verified_bytes body file in
    finish_files make body files (<[path := make file bs]> done)
  end.

(** Both [finish] methods up to the value they build. *)
Definition finish {F} (make : PendingFile → bytes → F) (archive : bytes) (data_start : Z)
    (files : gmap str PendingFile) : result (gmap str F) Error :=
  let? body := ok_or (slice archive data_start (len archive)) Asar_InvalidLayout in
  let? cursor := check_layout (by_offset files) 0 in
  do? reject (negb (cursor =? len body)) Asar_InvalidLayout in
  finish_files make body (btree_iter str_le files) ∅.

(** ** The archive *)

Definition asar_parse (bs : bytes) (limits : AsarLimits) : result AsarArchive Error :=
  do? reject (max_archive_bytes limits <? len bs) Asar_ArchiveTooLarge in
  let? (root, data_start) := parse_header bs limits in
  match collect_entries limits (Input_Directory root) 0 [] collection_new with
  | (Err e, _) => Err e
  | (Ok _, state) =>
    let? files := finish (λ file bs, mkPackedFile bs (pending_executable file)) bs data_start
                    (collected state) in
    Ok (mkAsarArchive files limits)
  end.

Definition asar_file (self : AsarArchive) (path : str) : option bytes :=
  match canonical_archive_path path (archive_limits self) with
  | Ok canonical => packed_bytes <$> archive_files self !! canonical
  | Err _ => None
  end.

Definition asar_file_paths (self : AsarArchive) : list str := btree_keys str_le (archive_files self).

(** [try_fold] with [checked_add] over the file lengths. *)
Fixpoint checked_total (files : list (str * PackedFile)) (total : Z) : option Z :=
  match files with
  | [] => Some total
  | (_, file) :: files =>
    total ← checked_add usize_max total (len (packed_bytes file)); checked_total files total
  end.

Definition replace_file (path : str) (replacement : bytes) : mut AsarArchive Error unit :=
  let* self := mut_get in
  let* canonical := mut_lift (canonical_archive_path path (archive_limits self)) in
  do* mut_lift (reject (max_file_bytes (archive_limits self) <? len replacement)
                  Asar_FileTooLarge) in
  let* previous := mut_lift (ok_or (archive_files self !! canonical) Asar_MemberNotFound) in
  let previous_size := len (packed_bytes previous) in
  let* current_total := mut_lift (ok_or (checked_total (btree_iter str_le (archive_files self)) 0)
                                    Asar_AggregateTooLarge) in
  let* replacement_total := mut_lift (ok_or
    (total ← checked_sub current_total previous_size;
     checked_add usize_max total (len replacement)) Asar_AggregateTooLarge) in
  do* mut_lift (reject (max_total_file_bytes (archive_limits self) <? replacement_total)
                  Asar_AggregateTooLarge) in
  let* file := mut_lift (ok_or (archive_files self !! canonical) Asar_MemberNotFound) in
  mut_put (mkAsarArchive (<[canonical := mkPackedFile replacement (executable file)]>
                            (archive_files self)) (archive_limits self)).

(** [insert_output_components], on the files of a directory. *)
Fixpoint insert_output_components (current : list (str * OutputEntry)) (components : list str)
    (entry : OutputEntry) : result (list (str * OutputEntry)) Error :=
  match components with
  | [] => Err Asar_InvalidMemberName
  | [component] =>
    do? reject (bool_decide (is_Some (assoc_get component current))) Asar_InvalidLayout in
    Ok (assoc_insert component entry current)
  | component :: remaining =>
    match default (Output_Directory []) (assoc_get component current) with
    | Output_Directory files =>
      let? files := insert_output_components files remaining entry in
      Ok (assoc_insert component (Output_Directory files) current)
    | Output_File _ => Err Asar_InvalidLayout
    end
  end.

(** The loop of [to_bytes]: the header tree and the body. *)
Fixpoint emit_files (files : list (str * PackedFile)) (root : list (str * OutputEntry))
    (body : bytes) : result (list (str * OutputEntry) * bytes) Error :=
  match files with
  | [] => Ok (root, body)
  | (path, file) :: files =>
    let entry := Output_File (mkOutputFile (len (packed_bytes file)) (usize_to_string (len body))
                                (executable file) (integrity_for_bytes (packed_bytes file))) in
    let? root := insert_output_components root (split (chr "/") path) entry in
    emit_files files root (body ++ packed_bytes file)
  end.

(** [while json.len() % 4 != 0 { json.push(0) }]. *)
Definition padding_for (size : Z) : Z := (4 - size mod 4) mod 4.
Definition pad_json (json : bytes) : bytes :=
  json ++ replicate (Z.to_nat (padding_for (len json))) (byte_of 0).

Definition asar_to_bytes (self : AsarArchive) : result bytes Error :=
  let limits := archive_limits self in
  let? (root, body) := emit_files (btree_iter str_le (archive_files self)) [] [] in
  do? reject (max_total_file_bytes limits <? len body) Asar_AggregateTooLarge in
  let? json := map_err Asar_SerializeHeader (header_to_vec (Output_Directory root)) in
  do? reject (max_header_bytes limits <? len json) Asar_HeaderTooLarge in
  do? reject (u32_max <? len json) Asar_HeaderTooLarge in
  let json_size := len json in
  let json := pad_json json in
  do? reject (u32_max <? len json) Asar_HeaderTooLarge in
  let padded_size := len json in
  let? outer_size := ok_or (checked_add u32_max padded_size 8) Asar_HeaderTooLarge in
  let? inner_size := ok_or (checked_add u32_max padded_size 4) Asar_HeaderTooLarge in
  let? output_size := ok_or (size ← checked_add usize_max 16 (len json);
                             checked_add usize_max size (len body)) Asar_ArchiveTooLarge in
  do? reject (max_archive_bytes limits <? output_size) Asar_ArchiveTooLarge in
  Ok (le_bytes 4 ASAR_MAGIC ++ le_bytes 4 outer_size ++ le_bytes 4 inner_size ++
      le_bytes 4 json_size ++ json ++ body).

(** ** The read-only index *)

Definition index_parse (bs : bytes) (limits : AsarLimits) : result AsarReadOnlyIndex Error :=
  do? reject (max_archive_bytes limits <? len bs) Asar_ArchiveTooLarge in
  let? (root, data_start) := parse_header bs limits in
  match collect_read_only_entries limits (Input_Directory root) 0 [] collection_new with
  | (Err e, _) => Err e
  | (Ok _, state) =>
    let? files := finish (λ file _, mkIndexedFile (pending_offset file) (pending_size file)) bs
                    data_start (collected state) in
    Ok (mkAsarReadOnlyIndex bs data_start files (unpacked_file_count state) limits)
  end.

Definition packed_file (self : AsarReadOnlyIndex) (path : str) : option bytes :=
  match canonical_archive_path path (index_limits self) with
  | Ok canonical =>
    file ← packed_files self !! canonical;
    start ← checked_add usize_max (index_data_start self) (indexed_offset file);
    stop ← checked_add usize_max start (indexed_size file);
    slice (index_archive self) start stop
  | Err _ => None
  end.

Definition packed_file_paths (self : AsarReadOnlyIndex) : list str :=
  btree_keys str_le (packed_files self).
End Asar.
