(* ===== verification/AsarLaws.v ===== *)
(** * AsarLaws: what parsing and rewriting an archive guarantee

    The proofs about [Asar.v].  The header tree is seen through its leaves (the
    packed files with their path components) and its skeleton (the names and
    directories alone).  Collection depends on the skeleton for every path
    budget, and the skeleton of a tree without empty directories is determined
    by its leaf paths; so the tree rebuilt by [to_bytes] passes whatever the
    tree first parsed has passed. *)

From S2P Require Import Prelude Text Asar.

(** ** Leaves and skeletons *)

Fixpoint leaves (e : InputEntry) (cs : list str) : list (list str * InputFile) :=
  match e with
  | Input_Directory files => foldr (λ m acc, leaves m.2 (cs ++ [m.1]) ++ acc) [] files
  | Input_File f => [(cs, f)]
  | Input_Link _ => []
  end.

Lemma input_entry_ind' (P : InputEntry → Prop) :
  (∀ files, Forall (λ m, P m.2) files → P (Input_Directory files)) →
  (∀ f, P (Input_File f)) → (∀ l, P (Input_Link l)) → ∀ e, P e.
Proof.
  intros HD HF HL. fix IH 1. intros [files|f|l]; [|apply HF|apply HL].
  apply HD. induction files as [|[n e] files IHf]; constructor; [apply IH|exact IHf].
Qed.

Inductive skel : Type := S_Dir (members : list (str * skel)) | S_File | S_Link.

Fixpoint skel_in (e : InputEntry) : skel :=
  match e with
  | Input_Directory files => S_Dir (map (λ m, (m.1, skel_in m.2)) files)
  | Input_File _ => S_File
  | Input_Link _ => S_Link
  end.

Lemma skel_ind' (P : skel → Prop) :
  (∀ ms, Forall (λ m, P m.2) ms → P (S_Dir ms)) → P S_File → P S_Link → ∀ s, P s.
Proof.
  intros HD HF HL. fix IH 1. intros [ms| |]; [|apply HF|apply HL].
  apply HD. induction ms as [|[n s] ms IHm]; constructor; [apply IH|exact IHm].
Qed.

(** Whether a path leads to a file. *)
Fixpoint skel_has (cs : list str) (s : skel) : bool :=
  match cs, s with
  | [], S_File => true
  | c :: cs, S_Dir ms => match assoc_get c ms with Some s => skel_has cs s | None => false end
  | _, _ => false
  end.

(** Names in increasing order at every level, no link and no empty
    subdirectory. *)
Fixpoint skel_wf (s : skel) : Prop :=
  match s with
  | S_Dir ms => StronglySorted key_lt ms ∧
      foldr (λ m P, skel_wf m.2 ∧ m.2 ≠ S_Dir [] ∧ P) True ms
  | S_File => True
  | S_Link => False
  end.

Lemma skel_wf_members ms :
  foldr (λ (m : str * skel) P, skel_wf m.2 ∧ m.2 ≠ S_Dir [] ∧ P) True ms ↔
  Forall (λ m, skel_wf m.2 ∧ m.2 ≠ S_Dir []) ms.
Proof.
  induction ms as [|m ms IH]; cbn; [split; [constructor|done]|]. rewrite Forall_cons, IH. tauto.
Qed.

Lemma skel_wf_get ms c s :
  skel_wf (S_Dir ms) → assoc_get c ms = Some s → skel_wf s ∧ s ≠ S_Dir [].
Proof.
  intros [_ Hm%skel_wf_members] H%assoc_get_Some_elem.
  rewrite Forall_forall in Hm. exact (Hm _ H).
Qed.

(** A skeleton that is not an empty directory has a file. *)
Lemma skel_has_some s : skel_wf s → s ≠ S_Dir [] → ∃ cs, skel_has cs s = true.
Proof.
  induction s as [ms IH| |] using skel_ind'; [|exists []; done|done].
  intros [Hs Hm%skel_wf_members] Hne. destruct ms as [|[n s] ms]; [done|].
  apply Forall_inv in IH, Hm. cbn in *. destruct Hm as [Hw Hn].
  destruct (IH Hw Hn) as [cs Hcs]. exists (n :: cs). cbn. by rewrite bool_decide_eq_true_2.
Qed.

(** A skeleton is determined by its file paths. *)
Lemma skel_ext s s' :
  skel_wf s → skel_wf s' → (is_Some (match s with S_Dir _ => Some () | _ => None end) ↔
    is_Some (match s' with S_Dir _ => Some () | _ => None end)) →
  (∀ cs, skel_has cs s = skel_has cs s') → s = s'.
Proof.
  revert s'. induction s as [ms IH| |] using skel_ind'; intros s' Hw Hw' Hd Heq.
  - destruct s' as [ms'| |]; [|destruct Hd as [Hd _]; by destruct (Hd ltac:(eauto))..].
    f_equal. apply assoc_ext; [apply Hw|apply Hw'|]. intros k.
    assert (Hsub : ∀ cs, match assoc_get k ms with Some s => skel_has cs s | None => false end =
                         match assoc_get k ms' with Some s => skel_has cs s | None => false end).
    { intros cs. apply (Heq (k :: cs)). }
    destruct (assoc_get k ms) as [s|] eqn:E, (assoc_get k ms') as [s'|] eqn:E'; [|exfalso..|done].
    + f_equal. destruct (skel_wf_get _ _ _ Hw E) as [? Hn], (skel_wf_get _ _ _ Hw' E') as [? Hn'].
      apply assoc_get_Some_elem in E. rewrite Forall_forall in IH. apply (IH _ E); try done.
      destruct (skel_has_some s) as [cs Hcs]; try done. pose proof (Hsub cs) as H1. rewrite Hcs in H1.
      pose proof (Hsub []) as H2. cbn in H2.
      destruct s, s'; cbn in *; try done; split; intros [? ?]; eauto.
    + destruct (skel_wf_get _ _ _ Hw E). destruct (skel_has_some s) as [cs Hcs]; try done.
      specialize (Hsub cs). congruence.
    + destruct (skel_wf_get _ _ _ Hw' E'). destruct (skel_has_some s') as [cs Hcs]; try done.
      specialize (Hsub cs). congruence.
  - specialize (Heq []). by destruct s'.
  - done.
Qed.

(** File paths are prefix-free. *)
Lemma skel_has_prefix p q s : skel_has p s = true → skel_has (p ++ q) s = true → q = [].
Proof.
  revert s. induction p as [|c p IH]; intros s; cbn.
  - destruct s; [done| |done]. by destruct q.
  - destruct s as [ms| |]; [|done..]. destruct (assoc_get c ms); [|done]. apply IH.
Qed.

(** Leaves of a tree and files of its skeleton agree. *)
Lemma leaves_directory files cs :
  leaves (Input_Directory files) cs = files ≫= λ m, leaves m.2 (cs ++ [m.1]).
Proof. induction files as [|m files IH]; [done|]. rewrite bind_cons, <-IH. done. Qed.

Lemma assoc_get_map {V W} (f : V → W) k (m : list (str * V)) :
  assoc_get k (map (λ x, (x.1, f x.2)) m) = f <$> assoc_get k m.
Proof. induction m as [|[k' v] m IH]; [done|]. cbn. case_bool_decide; [done|]. apply IH. Qed.

Lemma sorted_map {V W} (f : V → W) (m : list (str * V)) :
  StronglySorted key_lt (map (λ x, (x.1, f x.2)) m) ↔ StronglySorted key_lt m.
Proof.
  induction m as [|[k v] m IH]; [split; constructor|]. cbn. split.
  - intros [Hs Hall]%StronglySorted_inv. constructor; [by apply IH|]. exact (proj1 (List.Forall_map _ _ _) Hall).
  - intros [Hs Hall]%StronglySorted_inv. constructor; [by apply IH|]. apply List.Forall_map. exact Hall.
Qed.

Lemma leaves_skel e cs0 cs :
  skel_wf (skel_in e) →
  cs ∈ (leaves e cs0).*1 ↔ ∃ p, cs = cs0 ++ p ∧ skel_has p (skel_in e) = true.
Proof.
  revert cs0 cs. induction e as [files IH|f|l] using input_entry_ind'; intros cs0 cs Hw.
  - rewrite leaves_directory. cbn in Hw. destruct Hw as [Hs Hm%skel_wf_members].
    apply sorted_map in Hs. rewrite list_elem_of_fmap. setoid_rewrite list_elem_of_bind. split.
    + intros ([cs' f] & -> & [n e] & Hl & Hin). cbn in *. pose proof Hin as Hin'.
      rewrite Forall_forall in IH. specialize (IH _ Hin). cbn in IH.
      assert (Hwe : skel_wf (skel_in e)).
      { rewrite Forall_forall in Hm. apply (Hm (n, skel_in e)).
        apply list_elem_of_In, in_map_iff. exists (n, e). by rewrite <-list_elem_of_In. }
      destruct (proj1 (IH (cs0 ++ [n]) cs' Hwe)) as (p & -> & Hp).
      { apply list_elem_of_fmap. by exists (cs', f). }
      exists (n :: p). split; [by rewrite <-app_assoc|]. cbn.
      by rewrite assoc_get_map, (assoc_elem_get _ _ _ Hs Hin').
    + intros (p & -> & Hp). destruct p as [|n p]; [done|]. cbn in Hp.
      rewrite assoc_get_map in Hp. destruct (assoc_get n files) as [e|] eqn:Ee; [|done]. cbn in Hp.
      apply assoc_get_Some_elem in Ee as Hin. rewrite Forall_forall in IH. specialize (IH _ Hin). cbn in IH.
      assert (Hwe : skel_wf (skel_in e)).
      { rewrite Forall_forall in Hm. apply (Hm (n, skel_in e)).
        apply list_elem_of_In, in_map_iff. exists (n, e). by rewrite <-list_elem_of_In. }
      assert (Hl : cs0 ++ n :: p ∈ (leaves e (cs0 ++ [n])).*1).
      { apply (IH _ _ Hwe). exists p. by rewrite <-app_assoc. }
      apply list_elem_of_fmap in Hl as ([cs f] & Hcs & Hl). exists (cs, f). split; [done|].
      by exists (n, e).
  - cbn. rewrite list_elem_of_singleton. split.
    + intros ->. exists []. by rewrite app_nil_r.
    + intros ([|c p] & -> & Hp); [by rewrite app_nil_r|done].
  - done.
Qed.

(** ** Collection *)

Definition leaf_path (l : list str * InputFile) : str := join_path l.1.

(** What a packed leaf becomes; [None] when it is unpacked or incomplete. *)
Definition pending_of (f : InputFile) : option PendingFile :=
  if unpacked f then None
  else offset ← (text ← input_offset f; parse_usize text);
       integrity ← input_integrity f;
       Some (mkPendingFile offset (input_size f) (input_executable f) integrity).

Definition insert_leaf (m : gmap str PendingFile) (l : list str * InputFile) : gmap str PendingFile :=
  match pending_of l.2 with Some p => <[leaf_path l := p]> m | None => m end.
Definition insert_leaves (ls : list (list str * InputFile)) (m : gmap str PendingFile) :
    gmap str PendingFile := foldl insert_leaf m ls.

Definition leaves_size (ls : list (list str * InputFile)) : Z :=
  foldr (λ l n, input_size l.2 + n) 0 ls.

Definition leaf_good (limits : AsarLimits) (f : InputFile) : Prop :=
  is_Some (pending_of f) ∧ input_size f <= max_file_bytes limits.

(** The part of the state that only paths determine. *)
Definition paths_state (s : CollectionState) : gset str * Z * Z :=
  (case_keys s, entries s, path_bytes s).

Lemma insert_leaves_app ls ks m : insert_leaves (ls ++ ks) m = insert_leaves ks (insert_leaves ls m).
Proof. apply foldl_app. Qed.
Lemma leaves_size_app ls ks : leaves_size (ls ++ ks) = leaves_size ls + leaves_size ks.
Proof. unfold leaves_size. induction ls as [|l ls IH]; cbn; [done|]. rewrite IH. lia. Qed.

Section Collect.
Context {JsonError : Type} (limits : AsarLimits).
Abbreviation Error := (AsarError JsonError).
Abbreviation collect_entries := (collect_entries (JsonError := JsonError) limits).
Abbreviation register_entry := (register_entry (JsonError := JsonError) limits).

Lemma register_entry_Ok path s u s' :
  register_entry path s = (Ok u, s') ↔
  (entries s + 1 <= usize_max ∧ entries s + 1 <= max_entries limits ∧
   path_bytes s + len path <= usize_max ∧ max_entries limits * max_path_bytes limits <= usize_max ∧
   path_bytes s + len path <= max_entries limits * max_path_bytes limits ∧
   (to_ascii_lowercase path ∉ case_keys s)) ∧
  s' = mkCollection (collected s) ({[to_ascii_lowercase path]} ∪ case_keys s) (entries s + 1)
         (path_bytes s + len path) (total_file_bytes s) (unpacked_file_count s).
Proof.
  split.
  - intros H. unfold Asar.register_entry in H. inv_mut.
    match goal with H : bool_decide _ = false |- _ => apply bool_decide_eq_false in H end.
    split; [|done]. split_and!; (lia || done).
  - intros ((H1 & H2 & H3 & H4 & H5 & H6) & ->). unfold Asar.register_entry.
    unfold mut_bind, mut_get, mut_lift, mut_put, reject.
    rewrite (proj2 (checked_add_Some usize_max (entries s) 1 _)) by (split; [reflexivity|lia]).
    cbn [ok_or]. destruct (Z.ltb_spec (max_entries limits) (entries s + 1)); [lia|].
    rewrite (proj2 (checked_add_Some usize_max (path_bytes s) (len path) _)) by (split; [reflexivity|lia]).
    rewrite (proj2 (checked_mul_Some usize_max (max_entries limits) _ _)) by (split; [reflexivity|lia]).
    cbn [ok_or]. destruct (Z.ltb_spec (max_entries limits * max_path_bytes limits) (path_bytes s + len path)); [lia|].
    rewrite bool_decide_eq_false_2 by done. by destruct u.
Qed.

Lemma register_file_size_Ok n s k s' :
  register_file_size (JsonError := JsonError) limits n s = (Ok k, s') ↔
  n <= max_file_bytes limits ∧ total_file_bytes s + n <= usize_max ∧
  total_file_bytes s + n <= max_total_file_bytes limits ∧ k = n ∧
  s' = mkCollection (collected s) (case_keys s) (entries s) (path_bytes s) (total_file_bytes s + n)
         (unpacked_file_count s).
Proof.
  split.
  - intros H. unfold register_file_size in H. inv_mut. split_and!; (lia || done).
  - intros (H1 & H2 & H3 & -> & ->). unfold register_file_size, mut_bind, mut_get, mut_lift, mut_put, reject.
    destruct (Z.ltb_spec (max_file_bytes limits) n); [lia|].
    rewrite (proj2 (checked_add_Some usize_max (total_file_bytes s) n _)) by (split; [reflexivity|lia]).
    cbn [ok_or]. destruct (Z.ltb_spec (max_total_file_bytes limits) (total_file_bytes s + n)); [lia|]. done.
Qed.

Lemma parse_offset_Ok f o :
  parse_offset (JsonError := JsonError) f = Ok o ↔ (text ← input_offset f; parse_usize text) = Some o.
Proof.
  unfold parse_offset. rewrite result_bind_Ok. setoid_rewrite ok_or_Ok. rewrite bind_Some. done.
Qed.

Lemma collect_file_Ok f path s u s' :
  collect_file (JsonError := JsonError) limits f path s = (Ok u, s') ↔
  ∃ p, pending_of f = Some p ∧ input_size f <= max_file_bytes limits ∧
    total_file_bytes s + input_size f <= usize_max ∧
    total_file_bytes s + input_size f <= max_total_file_bytes limits ∧
    s' = mkCollection (<[path := p]> (collected s)) (case_keys s) (entries s) (path_bytes s)
           (total_file_bytes s + input_size f) (unpacked_file_count s).
Proof.
  unfold collect_file, pending_of. rewrite mut_bind_Ok. setoid_rewrite mut_lift_Ok.
  setoid_rewrite reject_Ok. destruct (unpacked f); [naive_solver|].
  setoid_rewrite mut_bind_Ok. setoid_rewrite mut_lift_Ok. setoid_rewrite parse_offset_Ok.
  setoid_rewrite mut_bind_Ok. setoid_rewrite register_file_size_Ok. setoid_rewrite mut_bind_Ok.
  setoid_rewrite mut_lift_Ok. setoid_rewrite ok_or_Ok. unfold insert_pending. split.
  - intros (? & ? & [_ ->] & o & ? & [Ho ->] & k & ? & (? & ? & ? & -> & ->) & i & ? & [Hi ->] & _ & ->).
    exists (mkPendingFile o (input_size f) (input_executable f) i).
    rewrite Ho. cbn. rewrite Hi. done.
  - intros (p & Hp & ? & ? & ? & ->). apply bind_Some in Hp as (o & Ho & Hp).
    apply bind_Some in Hp as (i & Hi & [= <-]). exists tt, s. split; [done|].
    exists o, s. split; [done|]. eexists _, _. split; [split_and!; done|].
    exists i. eexists. split; [done|]. cbn. by destruct u.
Qed.

Lemma validate_member_name_plain name u :
  validate_member_name (JsonError := JsonError) name = Ok u → name_plain name.
Proof.
  intros H. unfold validate_member_name in H. inv_ok. rewrite !orb_false_iff in *. destruct_and!.
  split; [intros ->; done|]. intros Hin.
  match goal with H : existsb _ _ = false |- _ => rewrite <-not_true_iff_false, existsb_exists in H;
    apply H end.
  exists (chr "/"). rewrite <-list_elem_of_In. split; [done|]. by vm_compute.
Qed.

(** What a successful collection says of the tree and of the state. *)
Definition collected_as (e : InputEntry) (cs : list str) (s s' : CollectionState) : Prop :=
  skel_wf (skel_in e) ∧
  Forall (λ l, leaf_good limits l.2 ∧ Forall name_plain l.1 ∧ l.1 ≠ []) (leaves e cs) ∧
  collected s' = insert_leaves (leaves e cs) (collected s) ∧
  total_file_bytes s' = total_file_bytes s + leaves_size (leaves e cs) ∧
  (total_file_bytes s <= max_total_file_bytes limits →
   total_file_bytes s' <= max_total_file_bytes limits).

Fixpoint sorted_tree (e : InputEntry) : Prop :=
  match e with
  | Input_Directory files =>
    StronglySorted key_lt files ∧ foldr (λ m P, sorted_tree m.2 ∧ P) True files
  | _ => True
  end.

Lemma sorted_tree_members files :
  foldr (λ (m : str * InputEntry) P, sorted_tree m.2 ∧ P) True files ↔
  Forall (λ m, sorted_tree m.2) files.
Proof.
  induction files as [|m files IH]; cbn; [split; [constructor|done]|]. by rewrite Forall_cons, IH.
Qed.

Definition collects_soundly (e : InputEntry) : Prop :=
  ∀ depth cs s s', sorted_tree e → 0 <= depth → Forall name_plain cs →
    (0 < depth → cs ≠ []) → (depth = 0 → ∃ files, e = Input_Directory files) →
    collect_entries e depth (join_path cs) s = (Ok tt, s') →
    collected_as e cs s s' ∧ (0 < depth → e ≠ Input_Directory []).

Lemma collect_members_sound depth cs files s s' :
  Forall (λ m, collects_soundly m.2) files → Forall (λ m, sorted_tree m.2) files →
  0 <= depth → Forall name_plain cs →
  collect_members limits (λ child path, collect_entries child (depth + 1) path) (join_path cs) files s
    = (Ok tt, s') →
  Forall (λ m, skel_wf (skel_in m.2) ∧ skel_in m.2 ≠ S_Dir []) files ∧
  Forall (λ l, leaf_good limits l.2 ∧ Forall name_plain l.1 ∧ l.1 ≠ [])
    (leaves (Input_Directory files) cs) ∧
  collected s' = insert_leaves (leaves (Input_Directory files) cs) (collected s) ∧
  total_file_bytes s' = total_file_bytes s + leaves_size (leaves (Input_Directory files) cs) ∧
  (total_file_bytes s <= max_total_file_bytes limits →
   total_file_bytes s' <= max_total_file_bytes limits).
Proof.
  intros Hall Hst Hd Hcs. rewrite leaves_directory. revert s.
  induction files as [|[n e] files IH]; intros s Hrun.
  { injection Hrun as <-. cbn. split_and!; try constructor; [lia|done]. }
  apply Forall_cons in Hall as [He Hall], Hst as [Hse Hst]. cbn [collect_members snd] in *.
  apply mut_bind_Ok in Hrun as (? & ? & [Hname ->]%mut_lift_Ok & Hrun).
  apply mut_bind_Ok in Hrun as (? & ? & [_ ->]%mut_lift_Ok & Hrun).
  apply mut_bind_Ok in Hrun as (? & s1 & [_ Hs1]%register_entry_Ok & Hrun).
  apply mut_bind_Ok in Hrun as ([] & s2 & Hvisit & Hrun).
  apply validate_member_name_plain in Hname. rewrite <-join_path_snoc in Hvisit.
  assert (Hcs' : Forall name_plain (cs ++ [n])) by (apply Forall_app; split; [done|by apply Forall_singleton]).
  destruct (He (depth + 1) (cs ++ [n]) s1 s2 Hse ltac:(lia) Hcs') as [(Hw & Hg & Hc & Ht & Hb) Hne];
    [intros _ ?%app_eq_nil; naive_solver|lia|done|].
  destruct (IH Hall Hst s2 Hrun) as (Hws & Hgs & Hcs2 & Hts & Hbs).
  rewrite bind_cons, Forall_app, insert_leaves_app, leaves_size_app. cbn [snd fst].
  subst s1. cbn in *. split_and!.
  - constructor; [|done]. split; [done|]. cbn. intros Hnil. apply (Hne ltac:(lia)).
    destruct e as [[|]| |]; done.
  - done.
  - done.
  - by rewrite Hcs2, Hc.
  - lia.
  - auto.
Qed.

Lemma collect_sound e : collects_soundly e.
Proof.
  induction e as [files IH|f|l] using input_entry_ind'; intros depth cs s s' Hst Hd Hcs Hne Hroot Hrun.
  - cbn [Asar.collect_entries] in Hrun. apply mut_bind_Ok in Hrun as (? & ? & [_ ->]%mut_lift_Ok & Hrun).
    apply mut_bind_Ok in Hrun as (? & ? & [Hempty%reject_Ok ->]%mut_lift_Ok & Hrun).
    destruct Hst as [Hs Hst%sorted_tree_members].
    destruct (collect_members_sound depth cs files s s' IH Hst Hd Hcs Hrun) as (Hw & Hrest).
    split.
    + split; [|exact Hrest]. cbn. split; [by apply sorted_map|].
      apply skel_wf_members. by apply List.Forall_map.
    + intros Hpos [= ->]. unfold len in Hempty. simpl in Hempty. lia.
  - apply collect_file_Ok in Hrun as (p & Hp & Hsz & Hov & Htot & ->). cbn.
    assert (Hdepth : 0 < depth).
    { destruct (decide (depth = 0)) as [->|]; [|lia]. by destruct (Hroot eq_refl). }
    split; [|done]. split; [done|]. split_and!.
    + constructor; [|constructor]. split_and!; [split; [by eexists|done]|done|by apply Hne].
    + unfold insert_leaves, insert_leaf. cbn. by rewrite Hp.
    + cbn. lia.
    + cbn. done.
  - cbn [Asar.collect_entries] in Hrun. by apply mut_bind_Ok in Hrun as (? & ? & _ & Hrun).
Qed.

(** ** Trees of one skeleton collect alike *)

Definition transfers (e0 : InputEntry) : Prop :=
  ∀ e1 depth cs s0 s0' s1,
    skel_in e0 = skel_in e1 →
    collect_entries e0 depth (join_path cs) s0 = (Ok tt, s0') →
    paths_state s1 = paths_state s0 →
    Forall (λ l, leaf_good limits l.2 ∧ 0 <= input_size l.2) (leaves e1 cs) →
    total_file_bytes s1 + leaves_size (leaves e1 cs) <= Z.min usize_max (max_total_file_bytes limits) →
    ∃ s1', collect_entries e1 depth (join_path cs) s1 = (Ok tt, s1') ∧
      paths_state s1' = paths_state s0' ∧
      collected s1' = insert_leaves (leaves e1 cs) (collected s1) ∧
      total_file_bytes s1' = total_file_bytes s1 + leaves_size (leaves e1 cs).

Lemma leaves_size_nonneg ls :
  Forall (λ l, leaf_good limits l.2 ∧ 0 <= input_size l.2) ls → 0 <= leaves_size ls.
Proof. unfold leaves_size. induction 1 as [|l ls [_ ?] _ IH]; cbn in *; [done|]. lia. Qed.

Lemma collect_members_transfer depth cs files0 files1 s0 s0' s1 :
  Forall (λ m, transfers m.2) files0 →
  map (λ m, (m.1, skel_in m.2)) files0 = map (λ m, (m.1, skel_in m.2)) files1 →
  collect_members limits (λ child path, collect_entries child (depth + 1) path) (join_path cs) files0 s0
    = (Ok tt, s0') →
  paths_state s1 = paths_state s0 →
  Forall (λ l, leaf_good limits l.2 ∧ 0 <= input_size l.2) (leaves (Input_Directory files1) cs) →
  total_file_bytes s1 + leaves_size (leaves (Input_Directory files1) cs) <=
    Z.min usize_max (max_total_file_bytes limits) →
  ∃ s1', collect_members limits (λ child path, collect_entries child (depth + 1) path)
           (join_path cs) files1 s1 = (Ok tt, s1') ∧
    paths_state s1' = paths_state s0' ∧
    collected s1' = insert_leaves (leaves (Input_Directory files1) cs) (collected s1) ∧
    total_file_bytes s1' = total_file_bytes s1 + leaves_size (leaves (Input_Directory files1) cs).
Proof.
  intros Hall. rewrite leaves_directory. revert files1 s0 s1.
  induction Hall as [|[n e0] files0 He Hall IH]; intros files1 s0 s1 Hsk Hrun Hps Hg Hb.
  { destruct files1; [|done]. injection Hrun as <-. exists s1. cbn. rewrite Z.add_0_r. done. }
  destruct files1 as [|[n1 e1] files1]; [done|]. injection Hsk as <- Hske Hsk.
  rewrite bind_cons, Forall_app, leaves_size_app in *. destruct Hg as [Hg Hgs].
  cbn [collect_members snd fst] in *.
  apply mut_bind_Ok in Hrun as (? & ? & [Hname ->]%mut_lift_Ok & Hrun).
  apply mut_bind_Ok in Hrun as (? & ? & [Hlen ->]%mut_lift_Ok & Hrun).
  apply mut_bind_Ok in Hrun as (? & s2 & [Hreg Hs2]%register_entry_Ok & Hrun).
  apply mut_bind_Ok in Hrun as ([] & s3 & Hvisit & Hrun). rewrite <-join_path_snoc in Hvisit.
  set (s2' := mkCollection (collected s1)
    ({[to_ascii_lowercase (member_path (join_path cs) n)]} ∪ case_keys s1) (entries s1 + 1)
    (path_bytes s1 + len (member_path (join_path cs) n)) (total_file_bytes s1) (unpacked_file_count s1)).
  injection Hps as Hk Hen Hpb.
  pose proof (leaves_size_nonneg _ Hg). pose proof (leaves_size_nonneg _ Hgs).
  destruct (He e1 (depth + 1) (cs ++ [n]) s2 s3 s2' Hske Hvisit) as (s3' & Hv & Hps3 & Hc3 & Ht3).
  { subst s2. unfold paths_state. cbn. by rewrite Hk, Hen, Hpb. }
  { done. }
  { cbn. lia. }
  destruct (IH files1 s3 s3' Hsk Hrun Hps3 Hgs ltac:(rewrite Ht3; cbn; lia)) as (s1' & Hr & Hp & Hc & Ht).
  exists s1'. split; [|split_and!; [done|rewrite Hc, Hc3; by rewrite insert_leaves_app|rewrite Ht, Ht3; cbn; lia]].
  rewrite (mut_bind_step _ _ _ _ _ (proj2 (mut_lift_Ok _ _ _ _) (conj Hname eq_refl))).
  rewrite (mut_bind_step _ _ _ _ _ (proj2 (mut_lift_Ok _ _ _ _) (conj Hlen eq_refl))).
  rewrite (mut_bind_step _ _ s1 tt s2').
  - rewrite <-join_path_snoc. by rewrite (mut_bind_step _ _ _ _ _ Hv).
  - apply register_entry_Ok. split; [by rewrite Hk, Hen, Hpb|done].
Qed.

Lemma collect_transfer e0 : transfers e0.
Proof.
  induction e0 as [files0 IH|f0|l] using input_entry_ind';
    intros e1 depth cs s0 s0' s1 Hsk Hrun Hps Hg Hb.
  - destruct e1 as [files1| |]; [|done..]. injection Hsk as Hsk.
    cbn [Asar.collect_entries] in *.
    apply mut_bind_Ok in Hrun as (? & ? & [Hdepth ->]%mut_lift_Ok & Hrun).
    apply mut_bind_Ok in Hrun as (? & ? & [Hempty ->]%mut_lift_Ok & Hrun).
    destruct (collect_members_transfer depth cs files0 files1 s0 s0' s1 IH Hsk Hrun Hps Hg Hb)
      as (s1' & Hr & Hrest). exists s1'. split; [|done].
    assert (Hlen : len files1 = len files0).
    { apply (f_equal length) in Hsk. rewrite !length_map in Hsk. unfold len. by rewrite Hsk. }
    rewrite Hlen.
    rewrite (mut_bind_step _ _ _ _ _ (proj2 (mut_lift_Ok _ _ _ _) (conj Hdepth eq_refl))).
    by rewrite (mut_bind_step _ _ _ _ _ (proj2 (mut_lift_Ok _ _ _ _) (conj Hempty eq_refl))).
  - destruct e1 as [|f1|]; [done| |done]. apply collect_file_Ok in Hrun as (p0 & _ & _ & _ & _ & ->).
    cbn in Hg, Hb. apply Forall_inv in Hg as [[[p Hp] Hsz] Hpos]. cbn in *.
    eexists. split; [apply collect_file_Ok; exists p; split_and!; [done|done|lia|lia|reflexivity]|].
    cbn. split_and!; [done| |lia]. unfold insert_leaf. cbn. by rewrite Hp.
  - cbn [Asar.collect_entries] in Hrun. by apply mut_bind_Ok in Hrun as (? & ? & _ & Hrun).
Qed.
End Collect.

(** ** Deserialization *)

Lemma assoc_insert_last {V} k (v : V) m :
  Forall (λ x, str_lt x.1 k = true) m → assoc_insert k v m = m ++ [(k, v)].
Proof.
  induction 1 as [|[k' v'] m Hk _ IH]; [done|]. cbn in *.
  rewrite bool_decide_eq_false_2 by (intros ->; by rewrite str_lt_irrefl in Hk).
  destruct (str_lt k k') eqn:E; [exfalso; eauto using str_lt_asymm|]. by rewrite IH.
Qed.

Section Deserialize.
Context {JsonError : Type} (no_variant : JsonError).

Lemma unique_files_sorted unique members files files' :
  unique_files no_variant unique members files = Ok files' →
  StronglySorted key_lt files → StronglySorted key_lt files' ∧
  ∀ x, x ∈ files' → x ∈ files ∨ ∃ e, (x.1, e) ∈ members ∧ unique e = Ok x.2.
Proof.
  revert files. induction members as [|[n e] members IH]; intros files H Hs.
  { injection H as <-. auto. }
  cbn in H. inv_ok. apply IH in H as [Hs' Hin]; [|by apply assoc_insert_sorted]. split; [done|].
  intros m [Hm|(e' & He' & Hu)]%Hin; [|right; exists e'; set_solver].
  apply assoc_insert_keys in Hm as [->|?]; [|by left]. right. exists e. cbn. set_solver.
Qed.

Lemma deserialize_sorted e e' : deserialize_entry no_variant e = Ok e' → sorted_tree e'.
Proof.
  revert e'. induction e as [files IH|f|l] using input_entry_ind'; intros e' H; cbn in H; inv_ok; try done.
  match goal with H : unique_files _ _ _ _ = Ok _ |- _ =>
    apply unique_files_sorted in H as [Hs Hin]; [|constructor] end.
  split; [done|]. apply sorted_tree_members. apply Forall_forall. intros m Hm.
  destruct (Hin m Hm) as [[]%elem_of_nil|(e & He & Hu)]. rewrite Forall_forall in IH.
  by eapply (IH _ He).
Qed.

(** A tree already in order is read as it is. *)
Lemma deserialize_id e : sorted_tree e → deserialize_entry no_variant e = Ok e.
Proof.
  induction e as [files IH|f|l] using input_entry_ind'; intros Hst; [|done..].
  destruct Hst as [Hs Hst%sorted_tree_members]. cbn.
  assert (Hu : ∀ done, StronglySorted key_lt (done ++ files) →
    unique_files no_variant (deserialize_entry no_variant) files done = Ok (done ++ files)).
  { clear Hs. induction files as [|[n e] files IHf]; intros done Hs; cbn; [by rewrite app_nil_r|].
    apply Forall_cons in IH as [He IH], Hst as [Hse Hst]. cbn in He. rewrite He by done. cbn.
    assert (Hlast : Forall (λ x, str_lt x.1 n = true) done).
    { apply Forall_forall. intros x Hx. apply Is_true_true.
      apply (StronglySorted_app_1_elem_of key_lt done ((n, e) :: files) x (n, e) Hs Hx). set_solver. }
    rewrite bool_decide_eq_false_2.
    - cbn. rewrite assoc_insert_last by done. rewrite IHf; [by rewrite <-app_assoc|done|done|].
      by rewrite <-app_assoc.
    - intros [v Hv%assoc_get_Some_elem]. rewrite Forall_forall in Hlast.
      specialize (Hlast _ Hv). cbn in Hlast. by rewrite str_lt_irrefl in Hlast. }
  by rewrite (Hu []).
Qed.
End Deserialize.

(** ** The emitted tree *)

(** The header entry that [serde_json] reads from a printed [OutputEntry]. *)
Definition input_file_of (f : OutputFile) : InputFile :=
  mkInputFile (output_size f) (Some (output_offset f)) (output_executable f) false
    (Some (output_integrity f)).

Fixpoint input_of (e : OutputEntry) : InputEntry :=
  match e with
  | Output_Directory files => Input_Directory (map (λ m, (m.1, input_of m.2)) files)
  | Output_File f => Input_File (input_file_of f)
  end.

Abbreviation out_tree l := (input_of (Output_Directory l)).
Abbreviation out_skel e := (skel_in (input_of e)).

Lemma assoc_insert_perm {V} k (v : V) m :
  StronglySorted key_lt m →
  ∃ rest, assoc_insert k v m ≡ₚ (k, v) :: rest ∧
    m ≡ₚ match assoc_get k m with Some v0 => [(k, v0)] | None => [] end ++ rest.
Proof.
  induction 1 as [|[k' v'] m Hm IH Hall]; [exists []; done|]. cbn. case_bool_decide as Hk; [subst; by exists m|].
  destruct (str_lt k k') eqn:Hlt.
  - exists ((k', v') :: m). split; [done|]. rewrite (proj2 (assoc_get_None k m)); [done|].
    intros ([k0 v0] & -> & Hin)%list_elem_of_fmap. rewrite Forall_forall in Hall.
    specialize (Hall _ Hin). cbn in *. apply Is_true_true in Hall. eauto using str_lt_asymm.
  - destruct IH as (rest & H1 & H2). exists ((k', v') :: rest). rewrite H1. split; [apply perm_swap|].
    rewrite H2 at 1. destruct (assoc_get k m); cbn; [apply perm_swap|done].
Qed.

Lemma out_wf_iff l :
  skel_wf (out_skel (Output_Directory l)) ↔
  StronglySorted key_lt l ∧ Forall (λ m, skel_wf (out_skel m.2) ∧ out_skel m.2 ≠ S_Dir []) l.
Proof.
  cbn. rewrite skel_wf_members, map_map. cbn. rewrite (sorted_map (λ e, out_skel e)).
  by rewrite List.Forall_map.
Qed.

Lemma out_has_cons l c p :
  skel_has (c :: p) (out_skel (Output_Directory l)) =
  match assoc_get c l with Some e => skel_has p (out_skel e) | None => false end.
Proof. cbn. rewrite !assoc_get_map. by destruct (assoc_get c l). Qed.

Lemma out_leaves_cons c e l cs :
  leaves (out_tree ((c, e) :: l)) cs = leaves (input_of e) (cs ++ [c]) ++ leaves (out_tree l) cs.
Proof. done. Qed.

#[global] Instance out_leaves_perm cs : Proper ((≡ₚ) ==> (≡ₚ)) (λ l, leaves (out_tree l) cs).
Proof.
  induction 1 as [|[c e] l k _ IH|[c e] [c' e'] l|l k r _ IH1 _ IH2].
  - done.
  - rewrite !out_leaves_cons. by f_equiv.
  - rewrite !out_leaves_cons, !app_assoc. f_equiv. apply Permutation_app_comm.
  - by etransitivity.
Qed.

(** No file path leads into another. *)
Definition apart (p q : list str) : Prop := (∀ r, q ≠ p ++ r) ∧ (∀ r, p ≠ q ++ r).

Section Insert.
Context {JsonError : Type} (f : OutputFile).
Abbreviation insert := (insert_output_components (JsonError := JsonError)).

Lemma out_insert_wf l c e :
  skel_wf (out_skel (Output_Directory l)) → skel_wf (out_skel e) → out_skel e ≠ S_Dir [] →
  skel_wf (out_skel (Output_Directory (assoc_insert c e l))).
Proof.
  rewrite !out_wf_iff. intros [Hs Hall] He Hne. split; [by apply assoc_insert_sorted|].
  apply Forall_forall. intros x [->|Hx]%assoc_insert_keys; [done|]. by rewrite Forall_forall in Hall; apply Hall.
Qed.

Lemma out_insert_leaves l c e ls cs0 :
  StronglySorted key_lt l →
  leaves (input_of e) (cs0 ++ [c]) ≡ₚ
    ls ++ match assoc_get c l with Some e0 => leaves (input_of e0) (cs0 ++ [c]) | None => [] end →
  leaves (out_tree (assoc_insert c e l)) cs0 ≡ₚ ls ++ leaves (out_tree l) cs0.
Proof.
  intros Hs He. destruct (assoc_insert_perm c e l Hs) as (rest & H1 & H2).
  rewrite (out_leaves_perm cs0 _ _ H1), (out_leaves_perm cs0 _ _ H2), out_leaves_cons, He.
  destruct (assoc_get c l); cbn [app]; [rewrite out_leaves_cons, <-app_assoc; done|].
  by rewrite app_nil_r.
Qed.

Lemma insert_output_spec cs : ∀ l,
  cs ≠ [] → skel_wf (out_skel (Output_Directory l)) →
  (∀ p, skel_has p (out_skel (Output_Directory l)) = true → apart p cs) →
  ∃ l', insert l cs (Output_File f) = Ok l' ∧ skel_wf (out_skel (Output_Directory l')) ∧
    ∀ cs0, leaves (out_tree l') cs0 ≡ₚ (cs0 ++ cs, input_file_of f) :: leaves (out_tree l) cs0.
Proof.
  induction cs as [|c cs IH]; [done|]. intros l _ Hw Hap.
  pose proof (proj1 (proj1 (out_wf_iff l) Hw)) as Hs. destruct cs as [|d cs].
  - assert (Hnone : assoc_get c l = None).
    { destruct (assoc_get c l) as [e|] eqn:E; [exfalso|done].
      destruct (proj1 (out_wf_iff l) Hw) as [_ Hall]. rewrite Forall_forall in Hall.
      destruct (Hall _ (assoc_get_Some_elem _ _ _ E)) as [He Hne].
      destruct (skel_has_some _ He Hne) as [p Hp].
      destruct (Hap (c :: p)) as [_ Hq]; [by rewrite out_has_cons, E|]. by apply (Hq p). }
    cbn [insert_output_components]. rewrite Hnone. eexists. split; [reflexivity|]. split.
    + by apply out_insert_wf.
    + intros cs0. apply (out_insert_leaves l c (Output_File f) [(cs0 ++ [c], input_file_of f)]); [done|].
      by rewrite Hnone.
  - assert (Hsub : ∃ files, default (Output_Directory []) (assoc_get c l) = Output_Directory files ∧
      skel_wf (out_skel (Output_Directory files)) ∧
      ∀ p, skel_has p (out_skel (Output_Directory files)) = true → apart p (d :: cs)).
    { destruct (assoc_get c l) as [e|] eqn:E.
      - destruct (proj1 (out_wf_iff l) Hw) as [_ Hall]. rewrite Forall_forall in Hall.
        destruct (Hall _ (assoc_get_Some_elem _ _ _ E)) as [He Hne]. destruct e as [files|g].
        + exists files. split_and!; [done|done|]. intros p Hp.
          destruct (Hap (c :: p)) as [H1 H2]; [by rewrite out_has_cons, E|].
          split; intros r Hr; [apply (H1 r)|apply (H2 r)]; cbn; by rewrite Hr.
        + exfalso. destruct (Hap [c]) as [H1 _]; [by rewrite out_has_cons, E|]. by apply (H1 (d :: cs)).
      - exists []. split_and!; [done|by split; constructor|]. intros [|]; done. }
    destruct Hsub as (files & Hd & Hwf & Hapf).
    destruct (IH files ltac:(done) Hwf Hapf) as (files' & Hins & Hw' & Hl').
    cbn [insert_output_components]. rewrite Hd. cbn [insert_output_components] in Hins. rewrite Hins.
    eexists. split; [reflexivity|]. split.
    + apply out_insert_wf; [done|done|]. intros Hnil. specialize (Hl' []).
      destruct files'; [|done]. by apply Permutation_nil_cons in Hl'.
    + intros cs0. apply (out_insert_leaves l c (Output_Directory files') [(cs0 ++ c :: d :: cs, input_file_of f)]);
        [done|]. rewrite Hl', <-app_assoc. cbn [app]. f_equiv.
      destruct (assoc_get c l); cbn in Hd; [by subst|]. injection Hd as <-. done.
Qed.
End Insert.

(** ** Emission *)

Lemma leaves_prefix e cs l : l ∈ leaves e cs → ∃ p, l.1 = cs ++ p.
Proof.
  revert cs. induction e as [files IH|f|k] using input_entry_ind'; intros cs.
  - rewrite leaves_directory, list_elem_of_bind. intros (m & Hl & Hm).
    rewrite Forall_forall in IH. destruct (IH _ Hm _ Hl) as [p ->]. exists (m.1 :: p).
    by rewrite <-app_assoc.
  - intros ->%list_elem_of_singleton. exists []. by rewrite app_nil_r.
  - by intros ?%elem_of_nil.
Qed.

Lemma leaves_NoDup e cs : skel_wf (skel_in e) → NoDup (leaves e cs).*1.
Proof.
  revert cs. induction e as [files IH|f|k] using input_entry_ind'; intros cs Hw;
    [|apply NoDup_singleton|done].
  rewrite leaves_directory. destruct Hw as [Hs Hm%skel_wf_members].
  apply sorted_map, assoc_sorted_NoDup in Hs.
  induction files as [|[n e] files IHf]; [constructor|].
  apply Forall_cons in IH as [He IH]. apply List.Forall_map, Forall_cons in Hm as [[Hwe _] Hm].
  cbn in Hs, Hwe. apply NoDup_cons in Hs as [Hn Hs]. rewrite bind_cons, fmap_app, NoDup_app.
  split_and!; [by apply He| |apply IHf; [done|done|by apply List.Forall_map]].
  intros p (l & -> & Hl)%list_elem_of_fmap (k & Hk & ([n' e'] & Hk' & Hin)%list_elem_of_bind)%list_elem_of_fmap.
  destruct (leaves_prefix _ _ _ Hl) as [q Hq], (leaves_prefix _ _ _ Hk') as [q' Hq'].
  rewrite Hq, Hq', <-!app_assoc in Hk. apply app_inv_head in Hk. injection Hk as -> _.
  apply Hn, list_elem_of_fmap. by exists (n', e').
Qed.

Lemma skel_has_apart s p q : skel_has p s = true → skel_has q s = true → p ≠ q → apart p q.
Proof.
  intros Hp Hq Hne. split; intros r ->; [rewrite (skel_has_prefix _ _ _ Hp Hq) in Hne|
    rewrite (skel_has_prefix _ _ _ Hq Hp) in Hne]; by rewrite app_nil_r in Hne.
Qed.

Definition files_body (files : list (str * PackedFile)) : bytes := concat (map (λ m, packed_bytes m.2) files).

Section Emit.
Context {JsonError : Type} `{HS : Sha256} (lower_hex : bytes → str).
Abbreviation emit := (emit_files (JsonError := JsonError) lower_hex).

(** The members laid out one after another from [start]. *)
Definition output_at (start : Z) (file : PackedFile) : OutputFile :=
  mkOutputFile (len (packed_bytes file)) (usize_to_string start) (executable file)
    (integrity_for_bytes lower_hex (packed_bytes file)).
Fixpoint placed (files : list (str * PackedFile)) (start : Z) : list (list str * InputFile) :=
  match files with
  | [] => []
  | (path, file) :: files =>
    (split (chr "/") path, input_file_of (output_at start file)) ::
    placed files (start + len (packed_bytes file))
  end.
Definition components_of (files : list (str * PackedFile)) : list (list str) :=
  map (λ m, split (chr "/") m.1) files.

Lemma placed_components files start : (placed files start).*1 = components_of files.
Proof. revert start. induction files as [|[p f] files IH]; intros start; [done|]. cbn. by rewrite IH. Qed.

(** Files at distinct paths of one tree are emitted as a tree with these files
    and a body with their bytes. *)
Lemma emit_files_spec s files root body :
  skel_wf (out_skel (Output_Directory root)) →
  (∀ p, p ∈ (leaves (out_tree root) []).*1 ++ components_of files → skel_has p s = true) →
  NoDup ((leaves (out_tree root) []).*1 ++ components_of files) →
  ∃ root', emit files root body = Ok (root', body ++ files_body files) ∧
    skel_wf (out_skel (Output_Directory root')) ∧
    leaves (out_tree root') [] ≡ₚ leaves (out_tree root) [] ++ placed files (len body).
Proof.
  revert root body. induction files as [|[path file] files IH]; intros root body Hw Hin Hnd.
  { exists root. cbn. by rewrite !app_nil_r. }
  destruct (insert_output_spec (JsonError := JsonError) (output_at (len body) file) (split (chr "/") path) root)
    as (root1 & Hins & Hw1 & Hl1); [apply split_nonempty|done| |].
  { intros p Hp. assert (Hpl : p ∈ (leaves (out_tree root) []).*1) by (apply leaves_skel; [done|by exists p]).
    apply (skel_has_apart s); [apply Hin; set_solver|apply Hin; cbn; set_solver|]. intros ->.
    apply NoDup_app in Hnd as (_ & Hd & _). apply (Hd _ Hpl). cbn. set_solver. }
  specialize (Hl1 []). cbn [app] in Hl1.
  assert (Hp1 : (leaves (out_tree root1) []).*1 ++ components_of files ≡ₚ
                (leaves (out_tree root) []).*1 ++ components_of ((path, file) :: files)).
  { rewrite Hl1. cbn. apply Permutation_middle. }
  destruct (IH root1 (body ++ packed_bytes file) Hw1) as (root' & Hrun & Hw' & Hl').
  { intros p. rewrite Hp1. apply Hin. }
  { by rewrite Hp1. }
  exists root'. cbn [emit_files]. change (Output_File _) with (Output_File (output_at (len body) file)).
  rewrite Hins. cbn [result_bind]. rewrite Hrun. split_and!.
  - unfold files_body. cbn. by rewrite <-app_assoc.
  - done.
  - rewrite Hl', Hl1, len_app. cbn. apply Permutation_middle.
Qed.
End Emit.

(** ** The layout of an emitted archive *)

Definition pending_entries (ls : list (list str * InputFile)) : list (str * PendingFile) :=
  omap (λ l, p ← pending_of l.2; Some (leaf_path l, p)) ls.

Lemma foldl_insert {V} (l : list (str * V)) (acc : gmap str V) :
  NoDup l.*1 → foldl (λ m x, <[x.1 := x.2]> m) acc l = list_to_map l ∪ acc.
Proof.
  revert acc. induction l as [|[k v] l IH]; intros acc Hnd; cbn in *; [by rewrite (left_id_L ∅ _)|].
  apply NoDup_cons in Hnd as [Hn Hnd]. rewrite IH by done.
  rewrite <-insert_union_l. symmetry. apply insert_union_r. by apply not_elem_of_list_to_map_1.
Qed.

Lemma foldl_insert_btree {V} (m : gmap str V) :
  foldl (λ m x, <[x.1 := x.2]> m) ∅ (btree_iter str_le m) = m.
Proof.
  rewrite foldl_insert by apply btree_iter_NoDup. rewrite (right_id_L ∅ _).
  rewrite (list_to_map_proper _ (map_to_list m)) by (apply btree_iter_NoDup || apply btree_iter_perm).
  apply list_to_map_to_list.
Qed.

Lemma insert_leaves_list_to_map ls m :
  NoDup (pending_entries ls).*1 →
  insert_leaves ls m = list_to_map (pending_entries ls) ∪ m.
Proof.
  intros Hnd. rewrite <-foldl_insert by done. clear Hnd. revert m.
  induction ls as [|l ls IH]; intros m; [done|]. unfold insert_leaves in *. cbn.
  unfold insert_leaf at 2. destruct (pending_of l.2); cbn; apply IH.
Qed.

Lemma by_offset_sorted m : StronglySorted (λ x y, Is_true (offset_le x y)) (by_offset m).
Proof.
  unfold by_offset. apply Sorted_StronglySorted.
  - intros [a x] [b y] [c z]. rewrite !Is_true_true. unfold offset_le. cbn.
    pose proof (str_le_trans a b c). destruct (str_le a b), (str_le b c); rewrite ?andb_false_r, ?andb_true_r;
      intros; try lia. rewrite H by done. lia.
  - apply Sorted_merge_sort. intros [a x] [b y]. rewrite !Is_true_true. unfold offset_le. cbn.
    destruct (str_le_total a b) as [-> | ->]; lia.
Qed.

Lemma by_offset_perm m : by_offset m ≡ₚ map_to_list m.
Proof. unfold by_offset. by rewrite merge_sort_Permutation, btree_iter_perm. Qed.

Section Layout.
Context {JsonError : Type} `{HS : Sha256} (lower_hex : bytes → str).

Fixpoint pend (files : list (str * PackedFile)) (start : Z) : list (str * PendingFile) :=
  match files with
  | [] => []
  | (path, file) :: files =>
    (path, mkPendingFile start (len (packed_bytes file)) (executable file)
             (integrity_for_bytes lower_hex (packed_bytes file))) ::
    pend files (start + len (packed_bytes file))
  end.

Lemma pend_keys files start : (pend files start).*1 = files.*1.
Proof. revert start. induction files as [|[p f] files IH]; intros start; [done|]. cbn. by rewrite IH. Qed.

Definition joined (path : str) : Prop := join_path (split (chr "/") path) = path.

Lemma files_body_cons m files : files_body (m :: files) = packed_bytes m.2 ++ files_body files.
Proof. done. Qed.

Lemma pending_entries_placed files start :
  0 <= start → start + len (files_body files) <= usize_max → Forall (λ m, joined m.1) files →
  pending_entries (placed lower_hex files start) = pend files start.
Proof.
  intros H0 Hb Hj. revert start H0 Hb. induction Hj as [|[path file] files Hp Hj IH]; intros start H0 Hb; [done|].
  rewrite files_body_cons, len_app in Hb. cbn [snd] in Hb.
  pose proof (len_nonneg (packed_bytes file)). pose proof (len_nonneg (files_body files)).
  unfold pending_entries. cbn [omap list_omap placed pend]. unfold pending_of. cbn.
  rewrite parse_usize_to_string by lia. cbn. unfold leaf_path. cbn. rewrite Hp. f_equal. apply IH; lia.
Qed.

Lemma pend_offsets files start : Forall (λ m, start <= pending_offset m.2) (pend files start).
Proof.
  revert start. induction files as [|[p f] files IH]; intros start; constructor; [done|].
  eapply Forall_impl; [apply IH|]. cbn. intros m. pose proof (len_nonneg (packed_bytes f)). lia.
Qed.

Lemma pend_sorted files start :
  StronglySorted key_le files → StronglySorted (λ x y, Is_true (offset_le x y)) (pend files start) ∧
  StronglySorted key_le (pend files start).
Proof.
  intros Hs. revert start. induction Hs as [|[path file] files Hs IH Hall]; intros start; [split; constructor|].
  destruct (IH (start + len (packed_bytes file))) as [IH1 IH2].
  assert (Hk : Forall (λ m, Is_true (str_le path m.1)) (pend files (start + len (packed_bytes file)))).
  { rewrite <-(Forall_fmap fst (λ k, Is_true (str_le path k))), pend_keys, Forall_fmap. exact Hall. }
  split; constructor; try done. pose proof (pend_offsets files (start + len (packed_bytes file))) as Ho.
  eapply Forall_impl; [exact (proj2 (Forall_and _ _) (conj Hk Ho))|]. intros m [H1 H2]. unfold offset_le. cbn in *.
  pose proof (len_nonneg (packed_bytes file)). apply Is_true_true. apply Is_true_true in H1. rewrite H1.
  destruct (Z.ltb_spec start (pending_offset m.2)); [done|]. cbn. rewrite andb_true_r. lia.
Qed.

(** The order of [finish] is the order of emission. *)
Lemma by_offset_unique (l : list (str * PendingFile)) m :
  StronglySorted (λ x y, Is_true (offset_le x y)) l → NoDup l.*1 → list_to_map l = m →
  by_offset m = l.
Proof.
  intros Hs Hnd Hm. assert (Hp : by_offset m ≡ₚ l).
  { rewrite by_offset_perm, <-Hm. by apply map_to_list_to_map. }
  eapply (StronglySorted_unique_strong (λ x y, Is_true (offset_le x y))); [|apply by_offset_sorted|done|done].
  intros [a x] [b y] Ha Hb. rewrite !Is_true_true. unfold offset_le. cbn. intros H1 H2.
  assert (a = b) as ->.
  { apply str_le_antisymm; destruct (str_le a b), (str_le b a); rewrite ?andb_false_r in *; done || lia. }
  f_equal.
  rewrite Hp in Ha. apply elem_of_list_to_map in Ha, Hb; [|done..]. congruence.
Qed.

Lemma check_layout_pend files start :
  start + len (files_body files) <= usize_max →
  check_layout (JsonError := JsonError) (pend files start) start = Ok (start + len (files_body files)).
Proof.
  revert start. induction files as [|[path file] files IH]; intros start Hb;
    [cbn; by rewrite Z.add_0_r|].
  rewrite files_body_cons, len_app in *. cbn [snd] in *. pose proof (len_nonneg (files_body files)).
  cbn [pend check_layout pending_offset pending_size]. rewrite Z.eqb_refl. cbn [negb reject result_bind].
  rewrite (proj2 (checked_add_Some usize_max start (len (packed_bytes file)) _)) by (split; [reflexivity|lia]).
  cbn [ok_or result_bind]. rewrite IH by lia. f_equal. lia.
Qed.

Lemma verify_integrity_for_bytes bs :
  verify_integrity (JsonError := JsonError) lower_hex bs (integrity_for_bytes lower_hex bs) = Ok tt.
Proof. unfold verify_integrity. cbn. by rewrite !bool_decide_eq_true_2 by done. Qed.

Lemma finish_files_pend (pre : bytes) (files : list (str * PackedFile)) (suf : bytes) (acc : gmap str PackedFile) :
  len (pre ++ files_body files) <= usize_max →
  finish_files (JsonError := JsonError) lower_hex (λ file bs, mkPackedFile bs (pending_executable file))
    (pre ++ files_body files ++ suf) (pend files (len pre)) acc
  = Ok (foldl (λ m x, <[x.1 := x.2]> m) acc files).
Proof.
  revert pre acc. induction files as [|[path file] files IH]; intros pre acc Hb; [done|].
  rewrite files_body_cons in *. cbn [snd] in *. cbn [pend finish_files]. unfold verified_bytes.
  rewrite !len_app in Hb. pose proof (len_nonneg (files_body files)). cbn [pending_offset pending_size].
  rewrite (proj2 (checked_add_Some usize_max (len pre) (len (packed_bytes file)) _)) by (split; [reflexivity|lia]).
  cbn [ok_or result_bind]. rewrite (proj2 (slice_Some _ (len pre) _ (packed_bytes file))).
  - cbn [ok_or result_bind pending_integrity]. rewrite verify_integrity_for_bytes. cbn [result_bind].
    rewrite <-len_app, (app_assoc pre), (app_assoc pre), <-(app_assoc (pre ++ packed_bytes file)).
    rewrite IH by (rewrite !len_app; lia). cbn. by destruct file.
  - pose proof (len_nonneg pre). pose proof (len_nonneg (packed_bytes file)). pose proof (len_nonneg suf).
    split_and!; [lia|lia|rewrite !len_app; lia|].
    exists pre, (files_body files ++ suf). rewrite !app_assoc. split_and!; [done|done|lia].
Qed.
End Layout.

(** ** The frame of an emitted archive *)

Definition asar_frame (json body : bytes) : bytes :=
  le_bytes 4 ASAR_MAGIC ++ le_bytes 4 (len (pad_json json) + 8) ++
  le_bytes 4 (len (pad_json json) + 4) ++ le_bytes 4 (len json) ++ pad_json json ++ body.

Lemma pad_json_len json :
  len (pad_json json) mod 4 = 0 ∧ len json <= len (pad_json json) <= len json + 3.
Proof.
  assert (Hp : len (pad_json json) = len json + (4 - len json mod 4) mod 4).
  { unfold pad_json. rewrite len_app. unfold len at 2. rewrite length_replicate.
    unfold padding_for. rewrite Z2Nat.id by (apply Z.mod_pos_bound; lia). done. }
  pose proof (len_nonneg json). rewrite Hp. clear Hp. generalize dependent (len json). intros n Hn.
  Z.to_euclidean_division_equations. lia.
Qed.

Lemma len_le_bytes n z : len (le_bytes n z) = Z.of_nat n.
Proof. unfold len. by rewrite le_bytes_length. Qed.

Section Frame.
Context {JsonError : Type}.

Lemma read_u32_at bs (pre : bytes) z suf :
  bs = pre ++ le_bytes 4 z ++ suf → 0 <= z <= u32_max → len bs <= usize_max →
  read_u32 (JsonError := JsonError) bs (len pre) = Ok z.
Proof.
  intros -> Hz Hb. rewrite !len_app, len_le_bytes in Hb. pose proof (len_nonneg suf). pose proof (len_nonneg pre).
  unfold read_u32. rewrite (proj2 (checked_add_Some usize_max (len pre) 4 _)) by (split; [reflexivity|lia]).
  cbn [ok_or result_bind]. rewrite (proj2 (slice_Some _ (len pre) _ (le_bytes 4 z))).
  - cbn [ok_or result_bind]. f_equal. apply le_val_bytes. unfold u32_max in Hz. change (256 ^ Z.of_nat 4) with 4294967296. lia.
  - rewrite !len_app, len_le_bytes. split_and!; [lia|lia|lia|]. exists pre, suf. split_and!; [done|done|lia].
Qed.

Lemma frame_len json body : len (asar_frame json body) = 16 + len (pad_json json) + len body.
Proof. unfold asar_frame. rewrite !len_app, !len_le_bytes. lia. Qed.

Lemma frame_fields json body :
  len (pad_json json) + 8 <= u32_max → len (asar_frame json body) <= usize_max →
  read_u32 (JsonError := JsonError) (asar_frame json body) 0 = Ok ASAR_MAGIC ∧
  read_u32 (JsonError := JsonError) (asar_frame json body) 4 = Ok (len (pad_json json) + 8) ∧
  read_u32 (JsonError := JsonError) (asar_frame json body) 8 = Ok (len (pad_json json) + 4) ∧
  read_u32 (JsonError := JsonError) (asar_frame json body) 12 = Ok (len json).
Proof.
  intros H32 Hus. destruct (pad_json_len json) as [_ Hlen]. pose proof (len_nonneg json).
  set (a := le_bytes 4 ASAR_MAGIC). set (b := le_bytes 4 (len (pad_json json) + 8)).
  set (c := le_bytes 4 (len (pad_json json) + 4)). set (d := le_bytes 4 (len json)).
  split_and!.
  - apply (read_u32_at _ [] _ (b ++ c ++ d ++ pad_json json ++ body)); done.
  - apply (read_u32_at _ a _ (c ++ d ++ pad_json json ++ body)); [done|lia|done].
  - apply (read_u32_at _ (a ++ b) _ (d ++ pad_json json ++ body)); [|lia|done].
    by rewrite <-app_assoc.
  - apply (read_u32_at _ (a ++ b ++ c) _ (pad_json json ++ body)); [|lia|done].
    by rewrite <-!app_assoc.
Qed.

Lemma parse_header_frame header_from_slice no_variant limits json body raw root :
  len (pad_json json) + 8 <= u32_max → 16 + len (pad_json json) <= max_header_bytes limits →
  len (asar_frame json body) <= usize_max →
  header_from_slice json = Ok raw → deserialize_entry no_variant raw = Ok (Input_Directory root) →
  parse_header (JsonError := JsonError) header_from_slice no_variant (asar_frame json body) limits
  = Ok (root, 16 + len (pad_json json)).
Proof.
  intros H32 Hmax Hus Hraw Hroot. destruct (pad_json_len json) as [Hmod Hlen].
  pose proof (len_nonneg json). pose proof (len_nonneg body). rewrite frame_len in Hus.
  unfold parse_header.
  destruct (frame_fields json body) as (-> & -> & -> & ->); [lia|rewrite frame_len; lia|].
  rewrite frame_len. cbn [result_bind].
  destruct (Z.ltb_spec (16 + len (pad_json json) + len body) 16); [lia|]. cbn [reject result_bind].
  unfold saturating_add. rewrite Z.min_r by lia. rewrite Z.eqb_refl.
  rewrite (proj2 (Z.eqb_eq (len (pad_json json) + 8) _)) by lia. cbn [negb orb reject result_bind].
  rewrite (proj2 (checked_sub_Some _ 4 (len (pad_json json)))) by lia. cbn [ok_or result_bind].
  rewrite Hmod. destruct (Z.ltb_spec (len (pad_json json)) (len json)); [lia|]. cbn [Z.eqb negb orb reject result_bind].
  rewrite (proj2 (checked_add_Some usize_max 16 (len (pad_json json)) _)) by (split; [reflexivity|lia]).
  cbn [ok_or result_bind].
  destruct (Z.ltb_spec (16 + len (pad_json json) + len body) (16 + len (pad_json json))); [lia|].
  destruct (Z.ltb_spec (max_header_bytes limits) (16 + len (pad_json json))); [lia|]. cbn [orb reject result_bind].
  rewrite (proj2 (checked_add_Some usize_max 16 (len json) _)) by (split; [reflexivity|lia]). cbn [ok_or result_bind].
  set (pre := le_bytes 4 ASAR_MAGIC ++ le_bytes 4 (len (pad_json json) + 8) ++
    le_bytes 4 (len (pad_json json) + 4) ++ le_bytes 4 (len json)).
  set (pad := replicate (Z.to_nat (padding_for (len json))) (byte_of 0)).
  assert (Hpre : len pre = 16) by done.
  assert (Hframe : asar_frame json body = pre ++ json ++ pad ++ body).
  { unfold asar_frame, pre. fold pad. unfold pad_json. fold pad. by rewrite <-!app_assoc. }
  assert (Hpad : len (pad_json json) = len json + len pad) by (unfold pad_json; by rewrite len_app).
  rewrite (proj2 (slice_Some _ 16 (16 + len json) json)).
  2:{ rewrite frame_len. split_and!; [lia|lia|lia|]. exists pre, (pad ++ body). split_and!; [done|done|lia]. }
  cbn [ok_or result_bind]. rewrite (proj2 (slice_Some _ (16 + len json) _ pad)).
  2:{ rewrite frame_len. split_and!; [lia|lia|lia|]. exists (pre ++ json), body.
      rewrite len_app. split_and!; [by rewrite <-app_assoc|lia|lia]. }
  cbn [ok_or result_bind]. replace (existsb _ pad) with false.
  - cbn [reject result_bind]. rewrite Hraw. cbn [map_err result_bind]. by rewrite Hroot.
  - symmetry. apply not_true_iff_false. rewrite existsb_exists. intros (b & Hb & Hnz).
    apply list_elem_of_In, elem_of_replicate in Hb as [-> _]. by rewrite byte_val_of in Hnz.
Qed.
End Frame.
