(* ===== verification/AsarSpec.v ===== *)
(** * AsarSpec: the contract of ASAR archives

    The theorems on [Asar.v] that callers rely on: a parsed archive covers the
    packed body exactly and respects its limits, replacements keep it so, and
    emitting then parsing gives the archive back.  The laws of the header tree,
    of collection and of the packed layout are in [AsarLaws.v]. *)

From S2P Require Import Prelude Text Asar AsarLaws.

(** ** What [finish] establishes *)

(** The bytes of a member in the body. *)
Definition located (body : bytes) (file : PendingFile) : bytes :=
  default [] (slice body (pending_offset file) (pending_offset file + pending_size file)).

Section Finish.
Context {JsonError : Type} `{HS : Sha256} (lower_hex : bytes → str).
Abbreviation Error := (AsarError JsonError).
Abbreviation verified_bytes := (verified_bytes (JsonError := JsonError) lower_hex).

Lemma verified_bytes_located body file bs :
  verified_bytes body file = Ok bs →
  located body file = bs ∧ verify_integrity (JsonError := JsonError) lower_hex bs (pending_integrity file) = Ok tt ∧
  slice body (pending_offset file) (pending_offset file + pending_size file) = Some bs ∧
  pending_offset file + pending_size file <= usize_max.
Proof.
  unfold Asar.verified_bytes, located. intros Hv. inv_ok.
  match goal with H : slice _ _ _ = Some _ |- _ => rewrite H end.
  repeat match goal with u : unit |- _ => destruct u end. split_and!; done || lia.
Qed.

Context {F : Type} (make : PendingFile → bytes → F).
Abbreviation finish := (finish (JsonError := JsonError) lower_hex make).
Abbreviation finish_files := (finish_files (JsonError := JsonError) lower_hex make).

Definition sound_in (body : bytes) (file : PendingFile) : Prop :=
  verified_bytes body file = Ok (located body file).

Lemma finish_files_Ok body l acc out :
  finish_files body l acc = Ok out ↔
  Forall (λ m, sound_in body m.2) l ∧
  out = foldl (λ m x, <[x.1 := x.2]> m) acc (map (λ m, (m.1, make m.2 (located body m.2))) l).
Proof.
  revert acc. induction l as [|[path file] l IH]; intros acc; cbn.
  { split; [intros [= <-]; split; [constructor|done]|by intros [_ ->]]. }
  rewrite Forall_cons, result_bind_Ok. unfold sound_in at 1. cbn. setoid_rewrite IH. split.
  - intros (bs & Hv & Hl & ->). destruct (verified_bytes_located _ _ _ Hv) as (Hloc & _).
    rewrite Hloc. done.
  - intros ([Hv Hl] & ->). eexists. split; [exact Hv|]. done.
Qed.

Lemma finish_Ok archive start files out :
  finish archive start files = Ok out ↔
  ∃ body, slice archive start (len archive) = Some body ∧
    check_layout (JsonError := JsonError) (by_offset files) 0 = Ok (len body) ∧
    map_Forall (λ _ file, sound_in body file) files ∧
    out = (λ file, make file (located body file)) <$> files.
Proof.
  assert (Hall : ∀ body, Forall (λ m, sound_in body m.2) (btree_iter str_le files) ↔
                         map_Forall (λ _ file, sound_in body file) files).
  { intros body. rewrite btree_iter_perm. rewrite map_Forall_to_list.
    apply Forall_iff. by intros []. }
  assert (Hmap : ∀ body, foldl (λ m x, <[x.1 := x.2]> m) ∅
      (map (λ m, (m.1, make m.2 (located body m.2))) (btree_iter str_le files))
      = (λ file, make file (located body file)) <$> files).
  { intros body. rewrite <-(foldl_insert_btree (_ <$> files)), btree_iter_fmap. done. }
  unfold Asar.finish. rewrite result_bind_Ok. setoid_rewrite ok_or_Ok. split.
  - intros (body & Hb & Hrun). inv_ok. exists body.
    match goal with H : Asar.finish_files _ _ _ _ _ = Ok _ |- _ => apply finish_files_Ok in H as [Hs ->] end.
    rewrite Hall in Hs. rewrite Hmap. split_and!; [done| |done|done].
    match goal with H : check_layout _ _ = Ok ?c |- _ => rewrite H; f_equal; lia end.
  - intros (body & Hb & Hc & Hs & ->). exists body. split; [done|]. rewrite Hc. cbn [result_bind].
    rewrite Z.eqb_refl. cbn [negb reject result_bind]. apply finish_files_Ok. by rewrite Hall, Hmap.
Qed.
End Finish.

(** ** What parsing establishes *)

Definition limits_typed (limits : AsarLimits) : Prop :=
  max_archive_bytes limits <= usize_max ∧ 0 <= max_total_file_bytes limits <= usize_max.

Definition pend_total (l : list (str * PendingFile)) : Z := foldr (λ m n, pending_size m.2 + n) 0 l.

#[global] Instance pend_total_perm : Proper ((≡ₚ) ==> (=)) pend_total.
Proof. unfold pend_total. induction 1; cbn; lia. Qed.

Lemma pending_entries_good limits ls :
  Forall (λ l, leaf_good limits l.2) ls →
  (pending_entries ls).*1 = join_path <$> ls.*1 ∧ pend_total (pending_entries ls) = leaves_size ls ∧
  Forall (λ m, pending_size m.2 <= max_file_bytes limits) (pending_entries ls).
Proof.
  unfold pend_total, leaves_size.
  induction 1 as [|[cs f] ls [[p Hp] Hsz] _ (IH1 & IH2 & IH3)]; [split_and!; [done|done|constructor]|].
  unfold pending_entries in *. cbn in Hp |- *. rewrite Hp. cbn. rewrite IH1, IH2. split; [done|].
  assert (Hsize : pending_size p = input_size f).
  { unfold pending_of in Hp. destruct (unpacked f); [done|]. apply bind_Some in Hp as (o & _ & Hp).
    by apply bind_Some in Hp as (i & _ & [= <-]). }
  rewrite Hsize. split; [done|]. constructor; [cbn in *; lia|done].
Qed.

Lemma join_path_NoDup ps :
  Forall (λ p, Forall name_plain p ∧ p ≠ []) ps → NoDup ps → NoDup (join_path <$> ps).
Proof.
  intros Hall. rewrite Forall_forall in Hall. apply NoDup_fmap_2_strong. intros p q Hp Hq.
  destruct (Hall p Hp), (Hall q Hq). by apply join_path_inj.
Qed.

Section Parse.
Context {JsonError : Type} (header_from_slice : bytes → result InputEntry JsonError) (no_variant : JsonError).
Context `{HS : Sha256} (lower_hex : bytes → str).
Abbreviation Error := (AsarError JsonError).
Abbreviation parse_header := (parse_header header_from_slice no_variant).
Abbreviation asar_parse := (asar_parse header_from_slice no_variant lower_hex).
Abbreviation collect_entries := (collect_entries (JsonError := JsonError)).

Lemma parse_header_Ok bs limits root start :
  parse_header bs limits = Ok (root, start) → sorted_tree (Input_Directory root) ∧ 16 <= start <= len bs.
Proof.
  unfold Asar.parse_header. intros H. inv_ok.
  match goal with H : deserialize_entry _ _ = Ok _ |- _ => apply deserialize_sorted in H end.
  match type of H with match ?e with _ => _ end = _ => destruct e end; [|done..].
  injection H as <- <-. split; [done|]. lia.
Qed.

(** The tree of a successful collection and what was collected. *)
Lemma collect_root limits root s :
  sorted_tree (Input_Directory root) → 0 <= max_total_file_bytes limits →
  collect_entries limits (Input_Directory root) 0 [] collection_new = (Ok tt, s) →
  let ls := leaves (Input_Directory root) [] in
  skel_wf (skel_in (Input_Directory root)) ∧
  Forall (λ l, leaf_good limits l.2 ∧ Forall name_plain l.1 ∧ l.1 ≠ []) ls ∧
  NoDup (pending_entries ls).*1 ∧ (pending_entries ls).*1 = join_path <$> ls.*1 ∧
  collected s = list_to_map (pending_entries ls) ∧
  leaves_size ls <= max_total_file_bytes limits.
Proof.
  intros Hst H0 Hrun ls.
  destruct (collect_sound (JsonError := JsonError) limits (Input_Directory root) 0 [] collection_new s) as [(Hw & Hg & Hc & Ht & Hb) _];
    [done|lia|constructor|lia|by eexists|done|].
  destruct (pending_entries_good limits ls) as (Hk & _ & _).
  { eapply Forall_impl; [exact Hg|]. naive_solver. }
  assert (Hnd : NoDup (pending_entries ls).*1).
  { rewrite Hk. apply join_path_NoDup; [|by apply leaves_NoDup].
    apply Forall_fmap. eapply Forall_impl; [exact Hg|]. naive_solver. }
  split_and!; [done..| |].
  - rewrite Hc, insert_leaves_list_to_map by done. apply (right_id_L ∅ _).
  - change (total_file_bytes collection_new) with 0 in *. fold ls in Ht. specialize (Hb H0). lia.
Qed.

Lemma check_layout_total l start stop :
  check_layout (JsonError := JsonError) l start = Ok stop → stop = start + pend_total l.
Proof.
  unfold pend_total. revert start. induction l as [|[p f] l IH]; intros start H; cbn in *.
  - injection H as <-. lia.
  - inv_ok. apply IH in H. lia.
Qed.

(** Contiguous members cover the body in the order of their offsets. *)
Lemma check_layout_cover (l : list (str * PendingFile)) (pre body : bytes) stop :
  check_layout (JsonError := JsonError) l (len pre) = Ok stop →
  Forall (λ m, ∃ bs, slice (pre ++ body) (pending_offset m.2) (pending_offset m.2 + pending_size m.2)
                     = Some bs) l →
  stop = len (pre ++ body) →
  body = concat (map (λ m, located (pre ++ body) m.2) l).
Proof.
  revert pre body. induction l as [|[path file] l IH]; intros pre body Hc Hall Hstop.
  - injection Hc as <-. rewrite len_app in Hstop. cbn. apply len_zero. lia.
  - cbn in Hc. inv_ok. apply Forall_cons in Hall as [[bs Hbs] Hall]. cbn in Hbs.
    assert (Hoff : pending_offset file = len pre) by lia. rewrite Hoff in Hbs.
    pose proof Hbs as Hsl. apply slice_Some in Hsl as (Hle & Hlen & l1 & l2 & Heq & Hl1 & Hbl).
    apply app_inj_1 in Heq as [<- ->]; [|unfold len in Hl1; lia].
    cbn. unfold located at 1. rewrite Hoff, Hbs. cbn. f_equal.
    rewrite app_assoc. apply IH; [|by rewrite <-app_assoc|by rewrite <-app_assoc].
    rewrite len_app, Hbl. replace (len pre + _) with (len pre + pending_size file) by lia. done.
Qed.
End Parse.

(** ** The archive invariant *)

Definition files_total (files : gmap str PackedFile) : Z := len (files_body (btree_iter str_le files)).

(** The members of an archive are the files of a tree that collection accepts
    under the archive's limits, and their bytes fit the size limits. *)
Definition archive_ok {JsonError : Type} (a : AsarArchive) : Prop :=
  ∃ root s, sorted_tree (Input_Directory root) ∧
    collect_entries (JsonError := JsonError) (archive_limits a) (Input_Directory root) 0 []
      collection_new = (Ok tt, s) ∧
    (∀ path, is_Some (archive_files a !! path) ↔
       ∃ cs, cs ∈ (leaves (Input_Directory root) []).*1 ∧ path = join_path cs) ∧
    map_Forall (λ _ file, len (packed_bytes file) <= max_file_bytes (archive_limits a)) (archive_files a) ∧
    files_total (archive_files a) <= max_total_file_bytes (archive_limits a).
Arguments archive_ok : clear implicits.

Lemma files_body_len files :
  len (files_body files) = foldr (λ m n, len (packed_bytes m.2) + n) 0 files.
Proof. induction files as [|m files IH]; [done|]. rewrite files_body_cons, len_app, IH. done. Qed.

Lemma list_to_map_is_Some {V} (l : list (str * V)) k :
  is_Some ((list_to_map l : gmap str V) !! k) ↔ k ∈ l.*1.
Proof.
  rewrite <-not_eq_None_Some, <-not_elem_of_list_to_map. destruct (decide (k ∈ l.*1)); tauto.
Qed.

Section Archive.
Context {JsonError : Type} (header_from_slice : bytes → result InputEntry JsonError) (no_variant : JsonError).
Context `{HS : Sha256} (lower_hex : bytes → str).
Abbreviation asar_parse := (asar_parse header_from_slice no_variant lower_hex).
Abbreviation archive_ok := (archive_ok JsonError).
Abbreviation make := (λ file bs, mkPackedFile bs (pending_executable file)).

(** The intermediate values of a successful parse. *)
Lemma asar_parse_Ok bs limits a :
  asar_parse bs limits = Ok a ↔
  len bs <= max_archive_bytes limits ∧ ∃ root start s files,
    parse_header header_from_slice no_variant bs limits = Ok (root, start) ∧
    collect_entries (JsonError := JsonError) limits (Input_Directory root) 0 [] collection_new = (Ok tt, s) ∧
    finish (JsonError := JsonError) lower_hex make bs start (collected s) = Ok files ∧
    a = mkAsarArchive files limits.
Proof.
  unfold Asar.asar_parse. split.
  - intros (_ & Hlen%reject_Ok & H)%result_bind_Ok. split; [lia|].
    apply result_bind_Ok in H as ([root start] & Hh & H). exists root, start.
    destruct (collect_entries _ _ _ _ _) as [[[]|e] s] eqn:Hc; [|done].
    apply result_bind_Ok in H as (files & Hf & [= <-]). by exists s, files.
  - intros (Hlen & root & start & s & files & Hh & Hc & Hf & ->).
    rewrite (proj2 (Z.ltb_ge _ _)) by lia. cbn [reject result_bind]. rewrite Hh. cbn [result_bind].
    by rewrite Hc, Hf.
Qed.

Lemma files_total_located (body : bytes) (files : gmap str PendingFile) :
  map_Forall (λ _ file, sound_in (JsonError := JsonError) lower_hex body file) files →
  files_total ((λ file, make file (located body file)) <$> files) = pend_total (map_to_list files).
Proof.
  intros Hall. unfold files_total. rewrite btree_iter_fmap, files_body_len.
  rewrite <-(btree_iter_perm str_le). unfold pend_total.
  rewrite map_Forall_to_list, <-(btree_iter_perm str_le) in Hall.
  induction Hall as [|[path file] l Hv _ IH]; [done|]. cbn. rewrite IH. f_equal.
  destruct (verified_bytes_located _ _ _ _ Hv) as (_ & _ & Hsl & _).
  apply slice_Some in Hsl as (_ & _ & _ & _ & _ & _ & ->). lia.
Qed.

Lemma parse_archive_ok bs limits a :
  limits_typed limits → asar_parse bs limits = Ok a → archive_ok a.
Proof.
  intros [_ Hty] (_ & root & start & s & files & Hh & Hc & Hf & ->)%asar_parse_Ok.
  apply parse_header_Ok in Hh as [Hst _].
  destruct (collect_root limits root s Hst ltac:(lia) Hc) as (Hw & Hg & Hnd & Hk & Hcol & Htot).
  assert (Hgood : Forall (λ l, leaf_good limits l.2) (leaves (Input_Directory root) [])).
  { eapply Forall_impl; [exact Hg|]. naive_solver. }
  destruct (pending_entries_good _ _ Hgood) as (_ & Hsum & Hmax).
  apply finish_Ok in Hf as (body & _ & _ & Hs & ->).
  exists root, s. cbn [archive_limits archive_files]. split_and!; [done|done| | |].
  - intros path. rewrite lookup_fmap, fmap_is_Some, Hcol, list_to_map_is_Some, Hk, list_elem_of_fmap. naive_solver.
  - intros path file. rewrite lookup_fmap, fmap_Some. intros (p & Hp & ->). cbn.
    destruct (verified_bytes_located _ _ _ _ (Hs _ _ Hp)) as (_ & _ & Hsl & _).
    apply slice_Some in Hsl as (_ & _ & _ & _ & _ & _ & ->).
    rewrite Hcol in Hp. apply elem_of_list_to_map in Hp; [|done].
    rewrite Forall_forall in Hmax. specialize (Hmax _ Hp). cbn in Hmax. lia.
  - rewrite files_total_located by done. rewrite Hcol, map_to_list_to_map by done. lia.
Qed.

(** ** Replacement *)

Lemma canonical_archive_path_id path limits c :
  canonical_archive_path (JsonError := JsonError) path limits = Ok c → c = path.
Proof. unfold canonical_archive_path. intros H. by inv_ok. Qed.

Lemma checked_total_Some l total n :
  checked_total l total = Some n → n = total + len (files_body l).
Proof.
  revert total. induction l as [|[p f] l IH]; intros total H; cbn in H.
  - injection H as <-. change (len (files_body [])) with 0. lia.
  - apply bind_Some in H as (t & [-> _]%checked_add_Some & H). apply IH in H.
    rewrite files_body_cons, len_app. cbn. lia.
Qed.

Lemma files_total_insert (m : gmap str PackedFile) path file :
  m !! path = None → files_total (<[path := file]> m) = len (packed_bytes file) + files_total m.
Proof.
  intros Hn. unfold files_total. rewrite !files_body_len.
  assert (Hp : ∀ l k : list (str * PackedFile), l ≡ₚ k →
    foldr (λ m n, len (packed_bytes m.2) + n) 0 l = foldr (λ m n, len (packed_bytes m.2) + n) 0 k).
  { induction 1; cbn; lia. }
  rewrite (Hp _ _ (btree_iter_perm _ _)), (Hp _ _ (map_to_list_insert _ _ file Hn)). cbn. f_equal.
  symmetry. apply Hp, btree_iter_perm.
Qed.

Lemma files_total_replace (m : gmap str PackedFile) path prev file :
  m !! path = Some prev →
  files_total (<[path := file]> m) = files_total m - len (packed_bytes prev) + len (packed_bytes file).
Proof.
  intros Hp. rewrite <-(insert_delete_eq m), files_total_insert by apply lookup_delete_eq.
  rewrite <-(insert_delete_id m path prev Hp) at 2.
  rewrite (files_total_insert _ _ prev) by apply lookup_delete_eq. lia.
Qed.

Lemma replace_file_Ok path bs a a' :
  replace_file (JsonError := JsonError) path bs a = (Ok tt, a') →
  ∃ prev, archive_files a !! path = Some prev ∧
    canonical_archive_path (JsonError := JsonError) path (archive_limits a) = Ok path ∧
    len bs <= max_file_bytes (archive_limits a) ∧
    a' = mkAsarArchive (<[path := mkPackedFile bs (executable prev)]> (archive_files a)) (archive_limits a) ∧
    files_total (archive_files a') <= max_total_file_bytes (archive_limits a).
Proof.
  unfold replace_file. intros H. inv_mut.
  match goal with H : canonical_archive_path _ _ = Ok _ |- _ =>
    pose proof H as Hc; apply canonical_archive_path_id in H as -> end.
  simplify_eq. unfold mut_put in H. injection H as <-.
  match goal with H : archive_files ?x !! path = Some ?f |- _ => rename H into Hp, f into prev, x into a end.
  exists prev. split_and!; [done|done|lia|done|]. cbn. rewrite (files_total_replace _ _ prev) by done.
  match goal with H : checked_total _ _ = Some _ |- _ => apply checked_total_Some in H as -> end.
  match goal with H : _ ≫= _ = Some _ |- _ =>
    apply bind_Some in H as (? & [-> ?]%checked_sub_Some & [-> ?]%checked_add_Some) end.
  unfold files_total in *. cbn. lia.
Qed.

(** A replacement that is refused leaves the archive as it was. *)
Lemma replace_file_Err path bs a e a' :
  replace_file (JsonError := JsonError) path bs a = (Err e, a') → a' = a.
Proof.
  unfold replace_file. intros H.
  repeat match goal with
  | H : mut_bind _ _ _ = (Err _, _) |- _ => apply mut_bind_Err in H as [H|(? & ? & ? & H)]
  | H : mut_lift _ _ = (Err _, _) |- _ => injection H as _ <-
  | H : mut_lift _ _ = (Ok _, _) |- _ => apply mut_lift_Ok in H as [_ ->]
  | H : mut_get _ = (Ok _, _) |- _ => injection H as <- <-
  end; done.
Qed.

Lemma replace_archive_ok path bs a r a' :
  archive_ok a → replace_file (JsonError := JsonError) path bs a = (r, a') →
  archive_ok a' ∧ archive_limits a' = archive_limits a.
Proof.
  intros Hok Hr. destruct r as [[]|e]; [|by apply replace_file_Err in Hr as ->].
  apply replace_file_Ok in Hr as (prev & Hp & _ & Hsz & -> & Htot). split; [|done].
  destruct Hok as (root & s & Hst & Hc & Hdom & Hmax & _). exists root, s. cbn [archive_files archive_limits] in *. split_and!; [done|done| | |done].
  - intros q. rewrite <-Hdom. destruct (decide (q = path)) as [->|Hne].
    + rewrite lookup_insert_eq, Hp. split; eauto.
    + by rewrite lookup_insert_ne.
  - by apply map_Forall_insert_2.
Qed.
End Archive.

(** ** Archives a caller can hold *)

(** A parsed archive after any sequence of replacements, refused ones included. *)
Inductive edited {JsonError : Type} (header_from_slice : bytes → result InputEntry JsonError)
    (no_variant : JsonError) `{HS : Sha256} (lower_hex : bytes → str) (limits : AsarLimits) :
    AsarArchive → Prop :=
| edited_parse bs a :
    asar_parse header_from_slice no_variant lower_hex bs limits = Ok a →
    edited header_from_slice no_variant lower_hex limits a
| edited_replace a path bs r a' :
    edited header_from_slice no_variant lower_hex limits a →
    replace_file (JsonError := JsonError) path bs a = (r, a') →
    edited header_from_slice no_variant lower_hex limits a'.

(** ** How deeply a header is nested *)

Lemma output_entry_ind' (P : OutputEntry → Prop) :
  (∀ files, Forall (λ m, P m.2) files → P (Output_Directory files)) →
  (∀ f, P (Output_File f)) → ∀ e, P e.
Proof.
  intros HD HF. fix IH 1. intros [files|f]; [|apply HF].
  apply HD. induction files as [|[n e] files IHf]; constructor; [apply IH|exact IHf].
Qed.

(** How deeply the JSON of an entry is nested: a file is an object with its
    integrity and the array of its block digests; a directory is an object with
    one field, the object of its members. *)
Fixpoint header_nesting (e : OutputEntry) : Z :=
  match e with
  | Output_File _ => 3
  | Output_Directory files => 2 + foldr (λ m d, Z.max (header_nesting m.2) d) 0 files
  end.

(** The recursion limit of [serde_json] is 128: this many levels are read. *)
Definition MAX_JSON_NESTING : Z := 127.

Lemma header_nesting_bounded e n :
  skel_wf (out_skel e) → 2 <= n → (∀ p, skel_has p (out_skel e) = true → 2 * len p + 3 <= n) → header_nesting e <= n.
Proof.
  revert n. induction e as [files IH|f] using output_entry_ind'; intros n Hw Hn Hp; [|by apply (Hp [])].
  apply out_wf_iff in Hw as [Hs Hm]. cbn [header_nesting].
  assert (Hall : Forall (λ m, header_nesting m.2 <= n - 2) files).
  { apply Forall_forall. intros [c e] Hin. rewrite Forall_forall in IH, Hm. destruct (Hm _ Hin) as [Hwe Hne].
    assert (Hsub : ∀ p, skel_has p (out_skel e) = true → 2 * len p + 3 <= n - 2).
    { intros p Hpe. specialize (Hp (c :: p)). rewrite out_has_cons, (assoc_elem_get _ _ _ Hs Hin), len_cons in Hp.
      specialize (Hp Hpe). lia. }
    cbn [snd]. apply (IH _ Hin); [done| |done].
    destruct (skel_has_some _ Hwe Hne) as [p Hpe]. apply Hsub in Hpe. pose proof (len_nonneg p). lia. }
  clear -Hall Hn. induction Hall as [|m files Hm _ IH]; cbn; lia.
Qed.

Section RoundTrip.
Context {JsonError : Type} (header_from_slice : bytes → result InputEntry JsonError)
        (header_to_vec : OutputEntry → result bytes JsonError) (no_variant : JsonError).
Context `{HS : Sha256} (lower_hex : bytes → str) (limits : AsarLimits).
Abbreviation edited := (edited header_from_slice no_variant lower_hex limits).
Abbreviation asar_parse := (asar_parse header_from_slice no_variant lower_hex).
Abbreviation asar_to_bytes := (asar_to_bytes header_to_vec lower_hex).

Lemma edited_ok a : limits_typed limits → edited a → archive_ok JsonError a ∧ archive_limits a = limits.
Proof.
  intros Hty. induction 1 as [bs a Hp|a path bs r a' _ [IH Hl] Hr].
  - split; [by eapply parse_archive_ok|]. by apply asar_parse_Ok in Hp as (_ & ? & ? & ? & ? & _ & _ & _ & ->).
  - apply (replace_archive_ok path bs a r a' IH) in Hr as [? ->]. done.
Qed.

(** The members of an archive: their paths split and join back, and their
    components are paths of one tree. *)
Lemma archive_ok_paths a :
  archive_ok JsonError a → 0 <= max_total_file_bytes (archive_limits a) →
  ∃ root s, collect_entries (JsonError := JsonError) (archive_limits a) (Input_Directory root) 0 []
      collection_new = (Ok tt, s) ∧ skel_wf (skel_in (Input_Directory root)) ∧
    Forall (λ m, joined m.1) (btree_iter str_le (archive_files a)) ∧
    NoDup (components_of (btree_iter str_le (archive_files a))) ∧
    ∀ cs, cs ∈ components_of (btree_iter str_le (archive_files a)) ↔
          skel_has cs (skel_in (Input_Directory root)) = true.
Proof.
  intros (root & s & Hst & Hc & Hdom & _) H0. exists root, s.
  destruct (collect_root _ _ _ Hst H0 Hc) as (Hw & Hg & _).
  assert (Hsplit : ∀ cs, cs ∈ (leaves (Input_Directory root) []).*1 → split (chr "/") (join_path cs) = cs).
  { intros cs (l & -> & Hl)%list_elem_of_fmap. rewrite Forall_forall in Hg. destruct (Hg _ Hl) as (_ & ? & ?).
    by apply split_join_path. }
  assert (Hkeys : ∀ path, path ∈ (btree_iter str_le (archive_files a)).*1 ↔ is_Some (archive_files a !! path)).
  { intros path. rewrite list_elem_of_fmap. split.
    - intros ([k v] & -> & Hin%elem_of_btree_iter). by exists v.
    - intros [v Hv]. exists (path, v). by rewrite elem_of_btree_iter. }
  assert (Hj : ∀ path, path ∈ (btree_iter str_le (archive_files a)).*1 → joined path).
  { intros path (cs & Hcs & ->)%Hkeys%Hdom. unfold joined. by rewrite Hsplit. }
  split_and!; [done|done| | |].
  - apply Forall_forall. intros m Hm. apply Hj, list_elem_of_fmap. by exists m.
  - unfold components_of. rewrite <-(map_map fst (split (chr "/"))).
    apply (NoDup_fmap_2_strong (split (chr "/"))); [|apply btree_iter_NoDup].
    intros p q Hp%Hj Hq%Hj Heq. unfold joined in *. congruence.
  - intros cs. transitivity (cs ∈ (leaves (Input_Directory root) []).*1).
    + unfold components_of. rewrite <-(map_map fst (split (chr "/"))). rewrite (list_elem_of_fmap (split _)).
      setoid_rewrite Hkeys. setoid_rewrite Hdom. naive_solver congruence.
    + rewrite leaves_skel by done. naive_solver.
Qed.

(** The tree emitted for an archive has the skeleton of one that was collected. *)
Lemma emit_archive a :
  archive_ok JsonError a → 0 <= max_total_file_bytes (archive_limits a) →
  ∃ root0 s root, collect_entries (JsonError := JsonError) (archive_limits a) (Input_Directory root0) 0 []
      collection_new = (Ok tt, s) ∧
    emit_files (JsonError := JsonError) lower_hex (btree_iter str_le (archive_files a)) [] []
      = Ok (root, files_body (btree_iter str_le (archive_files a))) ∧
    skel_in (Input_Directory root0) = out_skel (Output_Directory root) ∧
    skel_wf (out_skel (Output_Directory root)) ∧
    Forall (λ m, joined m.1) (btree_iter str_le (archive_files a)) ∧
    leaves (out_tree root) [] ≡ₚ placed lower_hex (btree_iter str_le (archive_files a)) 0.
Proof.
  intros Hok H0. destruct (archive_ok_paths a Hok H0) as (root0 & s & Hc & Hw & Hj & Hnd & Hcs).
  destruct (emit_files_spec (JsonError := JsonError) lower_hex (skel_in (Input_Directory root0))
    (btree_iter str_le (archive_files a)) [] []) as (root & Hrun & Hwr & Hl); [by split; constructor| |done|].
  { intros p Hp. by apply Hcs. }
  exists root0, s, root. split_and!; try done. apply skel_ext; try done. intros cs.
  assert (Hin : skel_has cs (out_skel (Output_Directory root)) = true ↔
                skel_has cs (skel_in (Input_Directory root0)) = true).
  { rewrite <-Hcs, <-(placed_components lower_hex _ 0).
    transitivity (cs ∈ (leaves (out_tree root) []).*1); [|by rewrite Hl].
    rewrite leaves_skel by done. naive_solver. }
  apply eq_true_iff_eq. by rewrite Hin.
Qed.

Lemma to_bytes_frame a out :
  archive_ok JsonError a → 0 <= max_total_file_bytes (archive_limits a) → asar_to_bytes a = Ok out →
  ∃ root json, emit_files (JsonError := JsonError) lower_hex (btree_iter str_le (archive_files a)) [] []
      = Ok (root, files_body (btree_iter str_le (archive_files a))) ∧
    header_to_vec (Output_Directory root) = Ok json ∧
    out = asar_frame json (files_body (btree_iter str_le (archive_files a))) ∧
    len (pad_json json) + 8 <= u32_max ∧ len out <= max_archive_bytes (archive_limits a).
Proof.
  intros Hok H0 H. destruct (emit_archive a Hok H0) as (_ & _ & root & _ & Hemit & _).
  unfold Asar.asar_to_bytes in H. rewrite Hemit in H. cbn [result_bind] in H. inv_ok.
  match goal with H : _ ≫= _ = Some _ |- _ =>
    apply bind_Some in H as (? & [-> ?]%checked_add_Some & [-> ?]%checked_add_Some) end.
  match goal with H : header_to_vec _ = Ok ?j |- _ => exists root, j;
    pose proof (frame_len j (files_body (btree_iter str_le (archive_files a)))) as Hlen end.
  split_and!; [done|done|done|lia|]. eapply Z.le_trans; [exact (Z.eq_le_incl _ _ Hlen)|lia].
Qed.

(** The leaves of the emitted tree are good. *)
Lemma placed_good files start :
  0 <= start → start + len (files_body files) <= usize_max →
  Forall (λ m, len (packed_bytes m.2) <= max_file_bytes limits) files →
  Forall (λ l, leaf_good limits l.2 ∧ 0 <= input_size l.2) (placed lower_hex files start) ∧
  leaves_size (placed lower_hex files start) = len (files_body files).
Proof.
  intros H0 Hb Hmax. revert start H0 Hb. induction Hmax as [|[path file] files Hf _ IH]; intros start H0 Hb.
  { split; [constructor|done]. }
  rewrite files_body_cons, len_app in *. cbn [snd] in *. pose proof (len_nonneg (packed_bytes file)).
  pose proof (len_nonneg (files_body files)).
  destruct (IH (start + len (packed_bytes file))) as [IH1 IH2]; [lia|lia|]. cbn [placed]. split.
  - constructor; [|done]. split; [|cbn; lia]. split; [|cbn; lia]. unfold pending_of. cbn.
    rewrite parse_usize_to_string by lia. by eexists.
  - unfold leaves_size in *. cbn. rewrite IH2. lia.
Qed.

Lemma leaves_size_perm ls ks : ls ≡ₚ ks → leaves_size ls = leaves_size ks.
Proof. unfold leaves_size. induction 1; cbn; lia. Qed.

Lemma skel_wf_sorted e : skel_wf (skel_in e) → sorted_tree e.
Proof.
  induction e as [files IH|f|l] using input_entry_ind'; [|done..]. cbn.
  intros [Hs%sorted_map Hm%skel_wf_members]. split; [done|]. apply sorted_tree_members.
  apply List.Forall_map in Hm. rewrite Forall_forall in *. intros m Hin. apply IH; [done|]. by apply Hm.
Qed.

(** Collection of the emitted tree. *)
Lemma collect_emitted a root0 s root :
  archive_ok JsonError a → limits_typed limits → archive_limits a = limits →
  collect_entries (JsonError := JsonError) limits (Input_Directory root0) 0 [] collection_new = (Ok tt, s) →
  skel_in (Input_Directory root0) = out_skel (Output_Directory root) →
  Forall (λ m, joined m.1) (btree_iter str_le (archive_files a)) →
  leaves (out_tree root) [] ≡ₚ placed lower_hex (btree_iter str_le (archive_files a)) 0 →
  ∃ s', collect_entries (JsonError := JsonError) limits (out_tree root) 0 [] collection_new = (Ok tt, s') ∧
    collected s' = list_to_map (pend lower_hex (btree_iter str_le (archive_files a)) 0).
Proof.
  intros (_ & _ & _ & _ & _ & Hmax & Htot) [_ Hty] Hlim Hc Hsk Hj Hl. rewrite Hlim in *.
  unfold files_total in Htot. set (files := btree_iter str_le (archive_files a)) in *.
  destruct (placed_good files 0) as [Hg Hsz]; [lia|lia|..].
  { subst files. rewrite btree_iter_perm. rewrite map_Forall_to_list in Hmax.
    eapply Forall_impl; [exact Hmax|]. by intros []. }
  destruct (collect_transfer (JsonError := JsonError) limits (Input_Directory root0) (out_tree root) 0 []
    collection_new s collection_new Hsk Hc) as (s' & Hrun & _ & Hcol & _); [done|by rewrite Hl| |].
  { rewrite (leaves_size_perm _ _ Hl), Hsz. cbn. lia. }
  exists s'. split; [done|]. rewrite Hcol.
  assert (Hpe : pending_entries (leaves (out_tree root) []) ≡ₚ pend lower_hex files 0).
  { rewrite <-(pending_entries_placed lower_hex files 0) by (done || lia). unfold pending_entries. by rewrite Hl. }
  assert (Hnd : NoDup (pending_entries (leaves (out_tree root) [])).*1).
  { rewrite Hpe, pend_keys. apply btree_iter_NoDup. }
  rewrite insert_leaves_list_to_map by done.
  change (collected collection_new) with (∅ : gmap str PendingFile). rewrite (right_id_L ∅ (∪)). by apply list_to_map_proper.
Qed.

(** The layout of an emitted archive is accepted and gives its files back. *)
Lemma finish_emitted (json : bytes) (files : gmap str PackedFile) (m : gmap str PendingFile) :
  len (files_body (btree_iter str_le files)) <= usize_max →
  m = list_to_map (pend lower_hex (btree_iter str_le files) 0) →
  finish (JsonError := JsonError) lower_hex (λ file bs, mkPackedFile bs (pending_executable file))
    (asar_frame json (files_body (btree_iter str_le files))) (16 + len (pad_json json)) m = Ok files.
Proof.
  intros Hus Hm. set (l := btree_iter str_le files) in *. unfold finish.
  assert (Hsl : slice (asar_frame json (files_body l)) (16 + len (pad_json json))
                  (len (asar_frame json (files_body l))) = Some (files_body l)).
  { pose proof (len_nonneg (pad_json json)). pose proof (len_nonneg (files_body l)).
    apply slice_Some. rewrite frame_len. split_and!; [lia|lia|lia|].
    exists (asar_frame json []), []. unfold asar_frame at 1. rewrite frame_len, app_nil_r. change (len []) with 0.
    split_and!; [unfold asar_frame; by rewrite <-!app_assoc|lia|lia]. }
  destruct (pend_sorted lower_hex l 0 (btree_iter_str_sorted files)) as [Hso Hsk].
  assert (Hnd : NoDup (pend lower_hex l 0).*1) by (rewrite pend_keys; apply btree_iter_NoDup).
  rewrite Hsl. cbn [ok_or result_bind].
  rewrite (by_offset_unique _ m Hso Hnd (eq_sym Hm)), (btree_iter_of_sorted _ m Hsk Hnd (eq_sym Hm)).
  rewrite check_layout_pend by lia. cbn [result_bind]. rewrite Z.add_0_l, Z.eqb_refl. cbn [negb reject result_bind].
  pose proof (finish_files_pend (JsonError := JsonError) lower_hex [] l [] ∅ Hus) as Hf.
  rewrite app_nil_r in Hf. cbn [app] in Hf. change (len []) with 0 in Hf. rewrite Hf.
  f_equal. apply foldl_insert_btree.
Qed.

(** The members of an archive bound the nesting of the header it emits. *)
Lemma emitted_nesting a root :
  skel_wf (out_skel (Output_Directory root)) →
  leaves (out_tree root) [] ≡ₚ placed lower_hex (btree_iter str_le (archive_files a)) 0 →
  (∀ path, is_Some (archive_files a !! path) → len (split (chr "/") path) <= 62) →
  header_nesting (Output_Directory root) <= MAX_JSON_NESTING.
Proof.
  intros Hw Hl Hshallow. apply header_nesting_bounded; [done|done|]. intros p Hp. unfold MAX_JSON_NESTING.
  assert (Hin : p ∈ (leaves (out_tree root) []).*1) by (apply leaves_skel; [done|by exists p]).
  rewrite Hl, placed_components in Hin. unfold components_of in Hin.
  apply list_elem_of_fmap in Hin as ([path file] & -> & Hin%elem_of_btree_iter). cbn [fst].
  specialize (Hshallow path ltac:(by eexists)). lia.
Qed.

(** What [serde_json] owes the archive: reading a printed header gives the
    entries it was printed from, when it is not nested more deeply than
    [from_slice] reads. *)
Definition header_json_law : Prop :=
  ∀ e bs, header_nesting e <= MAX_JSON_NESTING → header_to_vec e = Ok bs → header_from_slice bs = Ok (input_of e).

(** C36: an archive that was parsed and then edited by any sequence of
    replacements is given back by parsing the bytes it emits, under the same
    limits, provided that the emitted header is within the header limit and that
    no member has a path of more than 62 components: [serde_json::from_slice]
    refuses a text nested 128 deep, and the record of such a member is nested
    twice for each component of its path and three times more. *)
Theorem asar_round_trip a out :
  header_json_law → limits_typed limits → edited a → asar_to_bytes a = Ok out →
  (∀ path, is_Some (archive_files a !! path) → len (split (chr "/") path) <= 62) →
  len out - files_total (archive_files a) <= max_header_bytes limits →
  asar_parse out limits = Ok a.
Proof.
  intros Hjson Hty He Hout Hshallow Hhead. destruct (edited_ok a Hty He) as [Hok Hlim].
  pose proof Hty as [Harch Htot0]. assert (H0 : 0 <= max_total_file_bytes (archive_limits a)) by (rewrite Hlim; lia).
  destruct (to_bytes_frame a out Hok H0 Hout) as (root & json & Hemit & Hvec & -> & H32 & Hlen).
  destruct (emit_archive a Hok H0) as (root0 & s & root' & Hc & Hemit' & Hsk & Hw & Hj & Hl).
  rewrite Hemit in Hemit'. injection Hemit' as <-. rewrite Hlim in *.
  destruct (collect_emitted a root0 s root Hok Hty Hlim Hc Hsk Hj Hl) as (s' & Hc' & Hcol).
  rewrite frame_len in Hhead. unfold files_total in Hhead.
  set (files := btree_iter str_le (archive_files a)) in *.
  assert (Hus : len (files_body files) <= usize_max).
  { rewrite frame_len in Hlen. pose proof (len_nonneg (pad_json json)). lia. }
  apply asar_parse_Ok. split; [done|].
  exists (map (λ m, (m.1, input_of m.2)) root), (16 + len (pad_json json)), s', (archive_files a).
  split_and!; [|done| |by destruct a; cbn in Hlim; subst].
  - eapply parse_header_frame; [lia|lia|lia|by apply Hjson; [by eapply emitted_nesting|]|]. by apply (deserialize_id no_variant (out_tree root)), skel_wf_sorted.
  - by apply finish_emitted.
Qed.

(** emitting an edited archive fails only when [serde_json] fails or a size
    does not fit: the tree is always built, and the outcome is decided by the
    size of its printed header and of the whole output. *)
Theorem asar_to_bytes_outcome a :
  limits_typed limits → edited a →
  ∃ root, emit_files (JsonError := JsonError) lower_hex (btree_iter str_le (archive_files a)) [] []
      = Ok (root, files_body (btree_iter str_le (archive_files a))) ∧
    leaves (out_tree root) [] ≡ₚ placed lower_hex (btree_iter str_le (archive_files a)) 0 ∧
    match header_to_vec (Output_Directory root), asar_to_bytes a with
    | Err je, r => r = Err (Asar_SerializeHeader je)
    | Ok json, Ok out =>
      out = asar_frame json (files_body (btree_iter str_le (archive_files a))) ∧
      len json <= max_header_bytes limits ∧ len out <= max_archive_bytes limits
    | Ok json, Err e =>
      (e = Asar_HeaderTooLarge ∧
       (max_header_bytes limits < len json ∨ u32_max < len (pad_json json) + 8)) ∨
      (e = Asar_ArchiveTooLarge ∧
       max_archive_bytes limits < len (asar_frame json (files_body (btree_iter str_le (archive_files a)))))
    end.
Proof.
  intros Hty He. destruct (edited_ok a Hty He) as [Hok Hlim]. pose proof Hty as [Harch Htot0].
  destruct (emit_archive a Hok ltac:(rewrite Hlim; lia)) as (root0 & s & root & _ & Hemit & _ & _ & _ & Hl).
  exists root. split_and!; [done|done|]. destruct Hok as (_ & _ & _ & _ & _ & _ & Htot).
  unfold files_total in Htot. unfold Asar.asar_to_bytes. rewrite Hemit, Hlim in *. cbn [result_bind].
  set (body := files_body (btree_iter str_le (archive_files a))) in *.
  rewrite (proj2 (Z.ltb_ge (max_total_file_bytes limits) (len body))) by lia. cbn [reject result_bind].
  destruct (header_to_vec (Output_Directory root)) as [json|je]; [|done]. cbn [map_err result_bind].
  rewrite frame_len. destruct (pad_json_len json) as [_ Hpad]. pose proof (len_nonneg body).
  unfold reject. destruct (Z.ltb_spec (max_header_bytes limits) (len json)); [cbn; left; auto|].
  cbn [result_bind]. destruct (Z.ltb_spec u32_max (len json)); [cbn; left; split; [done|right; lia]|].
  cbn [result_bind]. destruct (Z.ltb_spec u32_max (len (pad_json json))); [cbn; left; split; [done|right; lia]|].
  cbn [result_bind]. unfold checked_add at 1.
  destruct (Z.leb_spec (len (pad_json json) + 8) u32_max); [|cbn; left; split; [done|right; lia]].
  cbn [ok_or result_bind].
  rewrite (proj2 (checked_add_Some u32_max (len (pad_json json)) 4 _)) by (split; [reflexivity|lia]).
  cbn [ok_or result_bind].
  rewrite (proj2 (checked_add_Some usize_max 16 (len (pad_json json)) _))
    by (split; [reflexivity|unfold u32_max, usize_max, u64_max in *; lia]).
  cbn [mbind option_bind]. unfold checked_add.
  destruct (Z.leb_spec (16 + len (pad_json json) + len body) usize_max); [|cbn; right; split; [done|lia]].
  cbn [ok_or result_bind].
  destruct (Z.ltb_spec (max_archive_bytes limits) (16 + len (pad_json json) + len body)); [cbn; right; auto|].
  cbn [result_bind]. fold (asar_frame json body). rewrite frame_len. auto.
Qed.
End RoundTrip.

(** ** Parsing *)

Section Cover.
Context {JsonError : Type} (header_from_slice : bytes → result InputEntry JsonError) (no_variant : JsonError).
Context `{HS : Sha256} (lower_hex : bytes → str) (limits : AsarLimits).
Abbreviation asar_parse := (asar_parse header_from_slice no_variant lower_hex).
Abbreviation index_parse := (index_parse header_from_slice no_variant lower_hex).
Abbreviation parse_header := (parse_header header_from_slice no_variant).

(** A header record that vouches for the bytes of a member. *)
Definition vouches (f : InputFile) (bs : bytes) : Prop :=
  input_size f = len bs ∧ ∃ i, input_integrity f = Some i ∧ algorithm i = lit "SHA256" ∧
    hash i = hex_digest lower_hex bs ∧
    blocks i = map (hex_digest lower_hex) (chunks INTEGRITY_BLOCK_SIZE bs).

Lemma verify_integrity_Ok bs i :
  verify_integrity (JsonError := JsonError) lower_hex bs i = Ok tt →
  algorithm i = lit "SHA256" ∧ hash i = hex_digest lower_hex bs ∧
  blocks i = map (hex_digest lower_hex) (chunks INTEGRITY_BLOCK_SIZE bs).
Proof.
  unfold verify_integrity. intros H. inv_ok. rewrite ?orb_false_iff, ?negb_false_iff, ?bool_decide_eq_true in *. naive_solver.
Qed.

Lemma pending_entries_elem ls path p :
  (path, p) ∈ pending_entries ls → ∃ cs f, (cs, f) ∈ ls ∧ path = join_path cs ∧ pending_of f = Some p.
Proof.
  unfold pending_entries. rewrite list_elem_of_omap. intros ([cs f] & Hin & H). cbn in H.
  apply bind_Some in H as (p' & Hp & [= <- <-]). by exists cs, f.
Qed.

Lemma pending_of_Some f p :
  pending_of f = Some p → pending_size p = input_size f ∧ input_integrity f = Some (pending_integrity p).
Proof.
  unfold pending_of. destruct (unpacked f); [done|]. intros (o & _ & H)%bind_Some.
  by apply bind_Some in H as (i & Hi & [= <-]).
Qed.

(** the members of a parsed archive are exactly the files of the header,
    each vouched for by its header record, and in the order of their offsets
    their bytes are the whole archive after the header: no byte is left out and
    none belongs to two members. *)
Theorem parsed_members_cover_body bs a :
  limits_typed limits → asar_parse bs limits = Ok a →
  ∃ root start order,
    parse_header bs limits = Ok (root, start) ∧
    order ≡ₚ map_to_list (archive_files a) ∧
    drop (Z.to_nat start) bs = files_body order ∧
    (∀ path, is_Some (archive_files a !! path) ↔
       ∃ cs, cs ∈ (leaves (Input_Directory root) []).*1 ∧ path = join_path cs) ∧
    (∀ path file, archive_files a !! path = Some file →
       ∃ cs f, (cs, f) ∈ leaves (Input_Directory root) [] ∧ path = join_path cs ∧
         vouches f (packed_bytes file)).
Proof.
  intros [_ Hty] (_ & root & start & s & files & Hh & Hc & Hf & ->)%asar_parse_Ok.
  pose proof Hh as [Hst Hstart]%parse_header_Ok.
  destruct (collect_root limits root s Hst ltac:(lia) Hc) as (Hw & Hg & Hnd & Hk & Hcol & _).
  apply finish_Ok in Hf as (body & Hb & Hlay & Hs & ->).
  set (g := λ file, mkPackedFile (located body file) (pending_executable file)).
  exists root, start, (prod_map id g <$> by_offset (collected s)). cbn [archive_files]. split_and!; [done| | | |].
  - by rewrite map_to_list_fmap, by_offset_perm.
  - apply slice_Some in Hb as (_ & _ & l1 & l2 & -> & Hl1 & Hlb).
    assert (l2 = []) as -> by (apply len_zero; rewrite !len_app in Hlb; pose proof (len_nonneg l2); lia).
    rewrite app_nil_r, drop_app_length' by (unfold len in Hl1; lia).
    etransitivity; [apply (check_layout_cover (by_offset (collected s)) [] body (len body) Hlay); [|done]|].
    + apply Forall_forall. intros [path p] Hin. rewrite by_offset_perm, elem_of_map_to_list in Hin.
      destruct (verified_bytes_located _ _ _ _ (Hs _ _ Hin)) as (_ & _ & ? & _). by eexists.
    + unfold files_body. f_equal. symmetry. apply (map_map (prod_map id g) (λ m, packed_bytes m.2)).
  - intros path. rewrite lookup_fmap, fmap_is_Some, Hcol, list_to_map_is_Some, Hk, list_elem_of_fmap. naive_solver.
  - intros path file. rewrite lookup_fmap, fmap_Some. intros (p & Hp & ->).
    destruct (verified_bytes_located _ _ _ _ (Hs _ _ Hp)) as (_ & Hv & Hsl & _).
    rewrite Hcol in Hp. apply elem_of_list_to_map in Hp; [|done].
    apply pending_entries_elem in Hp as (cs & f & Hin & -> & [Hsz Hi]%pending_of_Some).
    exists cs, f. split_and!; [done|done|]. split.
    + apply slice_Some in Hsl as (_ & _ & _ & _ & _ & _ & Hlen). cbn. rewrite Hlen. lia.
    + exists (pending_integrity p). split; [done|]. by apply verify_integrity_Ok.
Qed.

(** ** The read-only index *)

Lemma collect_read_only_agrees e : ∀ depth path s s',
  collect_entries (JsonError := JsonError) limits e depth path s = (Ok tt, s') →
  collect_read_only_entries (JsonError := JsonError) limits e depth path s = (Ok tt, s').
Proof.
  induction e as [files IH|f|l] using input_entry_ind'; intros depth path s s' Hrun.
  - cbn [collect_entries collect_read_only_entries] in *.
    apply mut_bind_Ok in Hrun as (? & ? & [Hdepth ->]%mut_lift_Ok & Hrun).
    apply mut_bind_Ok in Hrun as (? & ? & [_ ->]%mut_lift_Ok & Hrun).
    rewrite (mut_bind_step _ _ _ _ _ (proj2 (mut_lift_Ok _ _ _ _) (conj Hdepth eq_refl))).
    revert s Hrun. induction IH as [|[n e] files He _ IHf]; intros s Hrun; [done|].
    cbn [collect_members] in *.
    apply mut_bind_Ok in Hrun as (? & ? & H1 & Hrun). rewrite (mut_bind_step _ _ _ _ _ H1).
    apply mut_bind_Ok in Hrun as (? & ? & H2 & Hrun). rewrite (mut_bind_step _ _ _ _ _ H2).
    apply mut_bind_Ok in Hrun as (? & ? & H3 & Hrun). rewrite (mut_bind_step _ _ _ _ _ H3).
    apply mut_bind_Ok in Hrun as ([] & ? & H4 & Hrun). rewrite (mut_bind_step _ _ _ _ _ (He _ _ _ _ H4)).
    by apply IHf.
  - cbn [collect_entries collect_read_only_entries] in *.
    apply collect_file_Ok in Hrun as (p & Hp & H1 & H2 & H3 & ->). unfold collect_read_only_file.
    rewrite (mut_bind_step _ _ _ _ _ (proj2 (register_file_size_Ok limits (input_size f) s _ _)
      (conj H1 (conj H2 (conj H3 (conj eq_refl eq_refl)))))).
    unfold pending_of in Hp. destruct (unpacked f); [done|].
    apply bind_Some in Hp as (o & Ho & Hp). apply bind_Some in Hp as (i & Hi & [= <-]).
    rewrite (mut_bind_step _ _ _ _ _ (proj2 (mut_lift_Ok _ _ _ _) (conj (proj2 (parse_offset_Ok f o) Ho) eq_refl))).
    rewrite Hi. done.
  - cbn [collect_entries] in Hrun. by apply mut_bind_Ok in Hrun as (? & ? & _ & Hrun).
Qed.

Lemma collect_keeps_unpacked e : ∀ depth path s s',
  collect_entries (JsonError := JsonError) limits e depth path s = (Ok tt, s') →
  unpacked_file_count s' = unpacked_file_count s.
Proof.
  induction e as [files IH|f|l] using input_entry_ind'; intros depth path s s' Hrun; cbn [collect_entries] in Hrun.
  - apply mut_bind_Ok in Hrun as (? & ? & [_ ->]%mut_lift_Ok & Hrun).
    apply mut_bind_Ok in Hrun as (? & ? & [_ ->]%mut_lift_Ok & Hrun).
    revert s Hrun. induction IH as [|[n e] files He _ IHf]; intros s Hrun; cbn [collect_members] in Hrun; [by injection Hrun as <-|].
    apply mut_bind_Ok in Hrun as (? & ? & [_ ->]%mut_lift_Ok & Hrun).
    apply mut_bind_Ok in Hrun as (? & ? & [_ ->]%mut_lift_Ok & Hrun).
    apply mut_bind_Ok in Hrun as ([] & s1 & [_ ->]%register_entry_Ok & Hrun).
    apply mut_bind_Ok in Hrun as ([] & s2 & H4%He & Hrun). by rewrite (IHf _ Hrun), H4.
  - by apply collect_file_Ok in Hrun as (p & _ & _ & _ & _ & ->).
  - by apply mut_bind_Ok in Hrun as (? & ? & _ & Hrun).
Qed.

(** C37: on an archive that [AsarArchive::parse] accepts, the read-only index is
    built too, counts no unpacked file and serves the same members: the same
    paths, and for every path the same bytes or the same absence. *)
Theorem index_agrees_with_archive bs a :
  limits_typed limits → asar_parse bs limits = Ok a →
  ∃ idx, index_parse bs limits = Ok idx ∧ index_unpacked_file_count idx = 0 ∧
    packed_file_paths idx = asar_file_paths a ∧
    ∀ path, packed_file (JsonError := JsonError) idx path = asar_file (JsonError := JsonError) a path.
Proof.
  intros [Harch Hty] (Hlen & root & start & s & files & Hh & Hc & Hf & ->)%asar_parse_Ok.
  apply finish_Ok in Hf as (body & Hb & Hlay & Hs & ->).
  pose proof (proj2 (finish_Ok (JsonError := JsonError) lower_hex
    (λ file _, mkIndexedFile (pending_offset file) (pending_size file)) bs start (collected s) _)
    (ex_intro _ body (conj Hb (conj Hlay (conj Hs eq_refl))))) as Hidx.
  unfold Asar.index_parse. rewrite (proj2 (Z.ltb_ge _ _)) by lia. cbn [reject result_bind].
  rewrite Hh. cbn [result_bind]. rewrite (collect_read_only_agrees _ _ _ _ _ Hc), Hidx. cbn [result_bind].
  eexists. split; [reflexivity|]. split; [by apply (collect_keeps_unpacked _ _ _ _ _ Hc)|]. split.
  - unfold packed_file_paths, asar_file_paths, btree_keys. cbn [packed_files archive_files].
    rewrite !btree_iter_fmap, <-!list_fmap_compose. done.
  - intros path. unfold packed_file, asar_file. cbn [index_limits archive_limits].
    destruct (canonical_archive_path path limits) as [c|]; [|done]. cbn.
    rewrite !lookup_fmap. destruct (collected s !! c) as [p|] eqn:Ep; [|done]. cbn.
    destruct (verified_bytes_located _ _ _ _ (Hs _ _ Ep)) as (_ & _ & Hsl & _).
    generalize dependent (located body p). intros member Hsl.
    apply slice_Some in Hb as (Hst & _ & l1 & l2 & -> & Hl1 & Hbl).
    apply slice_Some in Hsl as (Ho & Hle & b1 & b2 & Heq & Hb1 & Hb2).
    rewrite !len_app in *. pose proof (len_nonneg l2).
    rewrite (proj2 (checked_add_Some usize_max start (pending_offset p) _)) by (split; [reflexivity|lia]). cbn.
    rewrite (proj2 (checked_add_Some usize_max (start + pending_offset p) (pending_size p) _)) by (split; [reflexivity|lia]).
    cbn. apply slice_Some. rewrite !len_app. split_and!; [lia|lia|lia|].
    exists (l1 ++ b1), (b2 ++ l2). rewrite Heq, len_app, <-!app_assoc. split_and!; [done|lia|lia].
Qed.
End Cover.

(** ** A sample codec

    A total [header_to_vec] and its inverse, for the closed examples below. *)
Module Sample.
Abbreviation text s := (GenLeaf (inl s)).
Abbreviation number n := (GenLeaf (inr n)).

Fixpoint to_tree (e : OutputEntry) : gen_tree (str + Z) :=
  match e with
  | Output_File f =>
    let i := output_integrity f in
    GenNode 2 (number (output_size f) :: text (output_offset f) ::
               number (if output_executable f then 1 else 0) :: text (algorithm i) :: text (hash i) ::
               number (block_size i) :: map (λ block, text block) (blocks i))
  | Output_Directory files => GenNode 0 (map (λ m, GenNode 1 [text m.1; to_tree m.2]) files)
  end.

Definition of_text (t : gen_tree (str + Z)) : option str :=
  match t with text s => Some s | _ => None end.

Fixpoint of_tree (t : gen_tree (str + Z)) : option InputEntry :=
  match t with
  | GenLeaf _ => None
  | GenNode 2 (number size :: text offset :: number exec :: text alg :: text hash ::
               number block :: bs) =>
    bs ← mapM of_text bs;
    Some (Input_File (mkInputFile size (Some offset) (0 <? exec) false
                        (Some (mkInputIntegrity alg hash block bs))))
  | GenNode _ ts =>
    files ← mapM (λ t, match t with
                       | GenNode _ [text n; t] => e ← of_tree t; Some (n, e)
                       | _ => None
                       end) ts;
    Some (Input_Directory files)
  end.

Lemma of_to_tree e : of_tree (to_tree e) = Some (input_of e).
Proof.
  induction e as [files IH|[size offset exec [alg h block bs]]] using output_entry_ind'.
  - cbn. rewrite (proj2 (mapM_Some _ _ (map (λ m, (m.1, input_of m.2)) files))); [done|].
    induction IH as [|[n e] files He _ IHf]; [constructor|]. cbn in *. constructor; [|done]. by rewrite He.
  - cbn. rewrite (proj2 (mapM_Some _ _ bs)); [by destruct exec|].
    induction bs; cbn; by constructor.
Qed.

Fixpoint bits (p : positive) : bytes :=
  match p with
  | xI p => chr "1" :: bits p
  | xO p => chr "0" :: bits p
  | xH => []
  end.
Fixpoint of_bits (bs : bytes) : positive :=
  match bs with
  | [] => xH
  | b :: bs => if bool_decide (b = chr "1") then xI (of_bits bs) else xO (of_bits bs)
  end.

Definition sample_to_vec (e : OutputEntry) : result bytes unit := Ok (bits (encode (to_tree e))).
Definition sample_from_slice (bs : bytes) : result InputEntry unit :=
  ok_or (t ← decode (of_bits bs); of_tree t) tt.

Lemma of_bits_bits p : of_bits (bits p) = p.
Proof. induction p as [p IH|p IH|]; cbn; [| |done]; case_bool_decide; try done; by rewrite IH. Qed.

Lemma json_law : header_json_law sample_from_slice sample_to_vec.
Proof.
  intros e bs _ [= <-]. unfold sample_from_slice. rewrite of_bits_bits, decode_encode. cbn. by rewrite of_to_tree.
Qed.

#[local] Instance sha : Sha256 := λ bs, take 4 (rev bs ++ repeat (byte_of 0) 4).
Definition hex (bs : bytes) : str := bs.

Definition original : AsarArchive :=
  mkAsarArchive {[ lit "lib/a" := mkPackedFile (lit "main") false;
                   lit "run" := mkPackedFile (lit "#!") true ]} asar_limits_initial.
Definition packed (a : AsarArchive) : bytes :=
  match asar_to_bytes sample_to_vec hex a with Ok bs => bs | Err _ => [] end.
Definition replaced : AsarArchive :=
  (replace_file (JsonError := unit) (lit "lib/a") (lit "patched") original).2.

Lemma limits_ok : limits_typed asar_limits_initial.
Proof. by vm_compute. Qed.

Lemma original_parsed : asar_parse sample_from_slice tt hex (packed original) asar_limits_initial = Ok original.
Proof. by vm_compute. Qed.

Lemma replaced_edited : edited sample_from_slice tt hex asar_limits_initial replaced.
Proof.
  eapply (edited_replace _ _ _ _ original (lit "lib/a") (lit "patched") (Ok tt)).
  - apply (edited_parse _ _ _ _ (packed original)), original_parsed.
  - by vm_compute.
Qed.
End Sample.

Import Sample.
#[local] Existing Instance Sample.sha.

Lemma asar_round_trip_witness :
  asar_file (JsonError := unit) replaced (lit "lib/a") = Some (lit "patched") ∧
  asar_parse sample_from_slice tt hex (packed replaced) asar_limits_initial = Ok replaced.
Proof.
  split; [by vm_compute|].
  apply (asar_round_trip sample_from_slice sample_to_vec tt hex asar_limits_initial replaced (packed replaced) json_law
           limits_ok replaced_edited); [by vm_compute| |by vm_compute].
  assert (Hall : map_Forall (λ path _, len (split (chr "/") path) <= 62) (archive_files replaced)) by (apply (bool_decide_unpack _); by vm_compute).
  intros path [file Hf]. exact (Hall path file Hf).
Defined.

Lemma asar_to_bytes_outcome_witness :
  ∃ out, asar_to_bytes sample_to_vec hex replaced = Ok out ∧ len out <= max_archive_bytes asar_limits_initial.
Proof.
  destruct (asar_to_bytes_outcome sample_from_slice sample_to_vec tt hex asar_limits_initial replaced limits_ok replaced_edited)
    as (root & _ & _ & H). destruct (sample_to_vec (Output_Directory root)) as [json|je] eqn:Ej; [|discriminate Ej].
  clear Ej. destruct (asar_to_bytes sample_to_vec hex replaced) as [out|e] eqn:E.
  - exists out. split; [reflexivity|exact (proj2 (proj2 H))].
  - exfalso. assert (is_ok (asar_to_bytes sample_to_vec hex replaced) = true) as Hok by (by vm_compute).
    by rewrite E in Hok.
Defined.

Lemma parsed_members_cover_body_witness :
  ∃ start order, order ≡ₚ map_to_list (archive_files original) ∧
    drop (Z.to_nat start) (packed original) = files_body order.
Proof.
  destruct (parsed_members_cover_body sample_from_slice tt hex asar_limits_initial (packed original) original
    limits_ok original_parsed) as (root & start & order & _ & Hp & Hb & _).
  exists start, order. exact (conj Hp Hb).
Defined.

Lemma index_agrees_with_archive_witness :
  ∃ idx, index_parse sample_from_slice tt hex (packed original) asar_limits_initial = Ok idx ∧ index_unpacked_file_count idx = 0 ∧
    packed_file (JsonError := unit) idx (lit "run") = Some (lit "#!").
Proof.
  destruct (index_agrees_with_archive sample_from_slice tt hex asar_limits_initial (packed original) original
    limits_ok original_parsed) as (idx & Hi & Hn & _ & Hf).
  exists idx. split; [exact Hi|]. split; [exact Hn|]. rewrite Hf. by vm_compute.
Defined.

(** ** Two limits that do not meet *)

Definition tight_limits : AsarLimits := mkAsarLimits 100000 648 10 1000 1000 100 1.
Definition tight : AsarArchive :=
  mkAsarArchive {[ lit "a" := mkPackedFile (repeat (byte_of 255) 4) false ]} tight_limits.
Definition tight_replaced : AsarArchive :=
  (replace_file (JsonError := unit) (lit "a") (repeat (byte_of 255) 16) tight).2.

(** The premise of the round trip on the header is needed: [to_bytes] holds the
    JSON to [max_header_bytes], [parse_header] the JSON with its padding and the
    sixteen bytes of the frame.  An archive parsed under some limits and edited
    once is emitted, and its bytes are refused under the same limits. *)
Lemma emitted_header_refused :
  asar_parse sample_from_slice tt hex (packed tight) tight_limits = Ok tight ∧
  replace_file (JsonError := unit) (lit "a") (repeat (byte_of 255) 16) tight = (Ok tt, tight_replaced) ∧
  asar_to_bytes sample_to_vec hex tight_replaced = Ok (packed tight_replaced) ∧
  asar_parse sample_from_slice tt hex (packed tight_replaced) tight_limits = Err Asar_HeaderTooLarge.
Proof. split_and!; by vm_compute. Qed.

Definition deep : AsarArchive :=
  mkAsarArchive {[ lit "a/b" := mkPackedFile (lit "x") false ]} tight_limits.

(** Collection accepts a file in a directory at [max_depth], whose path has one
    component more; [canonical_archive_path] accepts [max_depth] components.  So
    a member that parsing accepts and lists cannot be read or replaced. *)
Lemma deepest_member_unreachable :
  asar_parse sample_from_slice tt hex (packed deep) tight_limits = Ok deep ∧
  asar_file_paths deep = [lit "a/b"] ∧
  asar_file (JsonError := unit) deep (lit "a/b") = None ∧
  replace_file (JsonError := unit) (lit "a/b") (lit "y") deep = (Err Asar_TooDeep, deep).
Proof. split_and!; by vm_compute. Qed.
