(* ===== verification/Overlay.v ===== *)
(** * Overlay: transform authority and generated overlays

    Models [crates/weregopher-domain/src/transformation.rs]: the static
    authority of an adapter, the generated overlay that rebinds its rules to one
    build, their bounded deserialization, and the structural validation of an
    overlay against an authority.

    An identifier is the text it wraps.  [hex] is the parameter [hex_encode]; a
    JSON object offered by [serde] is the list of its entries in document order
    with the size it announces. *)

From S2P Require Import Prelude Text Wire.

Definition TransformRuleId : Type := str.
Definition SourceUnitId : Type := str.
Definition AdapterId : Type := str.
Definition ApplicationFamilyId : Type := str.

Definition TRANSFORM_REBINDING_FORMAT_VERSION : str := lit "1".
Definition MAX_AUTHORIZED_TRANSFORM_RULES : Z := 128.
Definition MAX_GENERATED_TRANSFORM_REBINDINGS : Z := 128.

Inductive TransformRebindingFormatVersion : Type := RebindingFormat_V1.
Inductive TransformPlatform : Type := Platform_Windows.
Inductive TransformArchitecture : Type := Architecture_X86_64.

Record AuthorizedTransformRuleRef : Type := mkAuthorizedTransformRuleRef {
  authorized_rule_digest : Sha256Digest
}.

Record AdapterTransformAuthority : Type := mkAdapterTransformAuthority {
  authority_format_version : TransformRebindingFormatVersion;
  authority_adapter_id : AdapterId;
  authority_family : ApplicationFamilyId;
  authority_adapter_content_digest : Sha256Digest;
  rules : gmap TransformRuleId AuthorizedTransformRuleRef
}.

Record SourceUnitRef : Type := mkSourceUnitRef {
  unit_id : SourceUnitId;
  source_digest : Sha256Digest
}.

Record TransformRebinding : Type := mkTransformRebinding {
  rebinding_rule_digest : Sha256Digest;
  rebinding_source : SourceUnitRef;
  match_evidence_digest : Sha256Digest;
  transformed_source_digest : Sha256Digest;
  source_map_digest : Sha256Digest;
  audit_log_digest : Sha256Digest
}.

Record TransformOverlayBinding : Type := mkTransformOverlayBinding {
  source_build_fingerprint_digest : Sha256Digest;
  binding_family : ApplicationFamilyId;
  binding_adapter_id : AdapterId;
  binding_adapter_content_digest : Sha256Digest;
  adapter_transform_authority_digest : Sha256Digest;
  build_descriptor_digest : Sha256Digest
}.

Record GeneratedTransformOverlay : Type := mkGeneratedTransformOverlay {
  overlay_format_version : TransformRebindingFormatVersion;
  platform : TransformPlatform;
  architecture : TransformArchitecture;
  binding : TransformOverlayBinding;
  rebindings : gmap TransformRuleId TransformRebinding
}.

Record StructurallyValidatedTransformOverlay : Type := mkStructurallyValidated {
  validated_overlay : GeneratedTransformOverlay;
  validated_authority : AdapterTransformAuthority
}.

Inductive TransformContractError : Type :=
| EmptyTransformAuthority
| TooManyTransformRules
| EmptyTransformOverlay
| TooManyTransformRebindings
| DuplicateSourceUnit
| SourceBuildMismatch
| BuildDescriptorMismatch
| AuthorityIdentityMismatch
| AuthorityDigestMismatch
| UnknownTransformRule
| TransformRuleDigestMismatch.

#[global] Instance source_unit_ref_eq_dec : EqDecision SourceUnitRef.
Proof. solve_decision. Defined.

(** ** Bounded maps *)

(** The [visit_map] of [RulesVisitor] and [RebindingsVisitor]. *)
Inductive VisitError : Type := Visit_TooMany | Visit_Duplicate.

(** The loop [while rules.len() < MAX] and the entry looked for after it. *)
Fixpoint visit_entries {V} (max : Z) (map : list (TransformRuleId * V)) (found : gmap TransformRuleId V) :
    result (gmap TransformRuleId V) VisitError :=
  match map with
  | [] => Ok found
  | (rule_id, value) :: map =>
    do? reject (negb (Z.of_nat (size found) <? max)) Visit_TooMany in
    do? reject (bool_decide (is_Some (found !! rule_id))) Visit_Duplicate in
    visit_entries max map (<[rule_id := value]> found)
  end.

Definition visit_bounded_map {V} (max : Z) (size_hint : option Z) (map : list (TransformRuleId * V)) :
    result (gmap TransformRuleId V) VisitError :=
  do? reject (match size_hint with Some length => max <? length | None => false end) Visit_TooMany in
  visit_entries max map ∅.

(** ** Constructors *)

Definition authority_new (adapter_id : AdapterId) (family : ApplicationFamilyId)
    (adapter_content_digest : Sha256Digest)
    (rules : gmap TransformRuleId AuthorizedTransformRuleRef) :
    result AdapterTransformAuthority TransformContractError :=
  do? reject (Z.of_nat (size rules) =? 0) EmptyTransformAuthority in
  do? reject (MAX_AUTHORIZED_TRANSFORM_RULES <? Z.of_nat (size rules)) TooManyTransformRules in
  Ok (mkAdapterTransformAuthority RebindingFormat_V1 adapter_id family adapter_content_digest rules).

(** The insertion loop of [windows_x64]. *)
Fixpoint distinct_units (values : list TransformRebinding) (source_units : gset SourceUnitId) :
    result unit TransformContractError :=
  match values with
  | [] => Ok tt
  | rebinding :: values =>
    do? reject (bool_decide (unit_id (rebinding_source rebinding) ∈ source_units))
      DuplicateSourceUnit in
    distinct_units values ({[unit_id (rebinding_source rebinding)]} ∪ source_units)
  end.

Definition windows_x64 (binding : TransformOverlayBinding)
    (rebindings : gmap TransformRuleId TransformRebinding) :
    result GeneratedTransformOverlay TransformContractError :=
  do? reject (Z.of_nat (size rebindings) =? 0) EmptyTransformOverlay in
  do? reject (MAX_GENERATED_TRANSFORM_REBINDINGS <? Z.of_nat (size rebindings))
    TooManyTransformRebindings in
  do? distinct_units (btree_iter str_le rebindings).*2 ∅ in
  Ok (mkGeneratedTransformOverlay RebindingFormat_V1 Platform_Windows Architecture_X86_64 binding
        rebindings).

(** ** Deserialization *)

(** What [Deserialize] of a contract fails with: the visitor of its map, or its
    constructor. *)
Inductive ContractDeserializeError : Type :=
| Deserialize_Visit (e : VisitError)
| Deserialize_Contract (e : TransformContractError).

(** [AdapterTransformAuthorityTransport], its rules as the document offers them. *)
Record AuthorityTransport : Type := mkAuthorityTransport {
  transport_adapter_id : AdapterId;
  transport_family : ApplicationFamilyId;
  transport_adapter_content_digest : Sha256Digest;
  transport_rules_hint : option Z;
  transport_rules : list (TransformRuleId * AuthorizedTransformRuleRef)
}.
Definition authority_deserialize (t : AuthorityTransport) :
    result AdapterTransformAuthority ContractDeserializeError :=
  let? rules := map_err Deserialize_Visit
    (visit_bounded_map MAX_AUTHORIZED_TRANSFORM_RULES (transport_rules_hint t) (transport_rules t)) in
  map_err Deserialize_Contract
    (authority_new (transport_adapter_id t) (transport_family t) (transport_adapter_content_digest t) rules).

(** [GeneratedTransformOverlayTransport]; version, platform and architecture have
    one value each. *)
Record OverlayTransport : Type := mkOverlayTransport {
  transport_binding : TransformOverlayBinding;
  transport_rebindings_hint : option Z;
  transport_rebindings : list (TransformRuleId * TransformRebinding)
}.
Definition overlay_deserialize (t : OverlayTransport) :
    result GeneratedTransformOverlay ContractDeserializeError :=
  let? rebindings := map_err Deserialize_Visit
    (visit_bounded_map MAX_GENERATED_TRANSFORM_REBINDINGS (transport_rebindings_hint t)
       (transport_rebindings t)) in
  map_err Deserialize_Contract (windows_x64 (transport_binding t) rebindings).

(** ** Validation *)

Section Validation.
Context `{HS : Sha256} (hex_encode : bytes → str).

(** [update_canonical_digest_text]. *)
Definition canonical_digest_text (d : Sha256Digest) : bytes := lit "sha256:" ++ hex_encode d.

Definition q : bytes := [byte_of 34].

(** The loop over the rules of [canonical_document_digest]. *)
Fixpoint document_rules (first : bool) (rules : list (TransformRuleId * AuthorizedTransformRuleRef)) :
    bytes :=
  match rules with
  | [] => []
  | (rule_id, rule) :: rules =>
    (if first then [] else lit ",") ++ q ++ rule_id ++ q ++ lit ":{" ++ q ++ lit "rule_digest" ++ q ++
    lit ":" ++ q ++ canonical_digest_text (authorized_rule_digest rule) ++ q ++ lit "}" ++
    document_rules false rules
  end.

Definition canonical_document (self : AdapterTransformAuthority) : bytes :=
  lit "{" ++ q ++ lit "format_version" ++ q ++ lit ":" ++ q ++ TRANSFORM_REBINDING_FORMAT_VERSION ++
  q ++ lit "," ++ q ++ lit "adapter_id" ++ q ++ lit ":" ++ q ++ authority_adapter_id self ++
  q ++ lit "," ++ q ++ lit "family" ++ q ++ lit ":" ++ q ++ authority_family self ++
  q ++ lit "," ++ q ++ lit "adapter_content_digest" ++ q ++ lit ":" ++ q ++
  canonical_digest_text (authority_adapter_content_digest self) ++
  q ++ lit "," ++ q ++ lit "rules" ++ q ++ lit ":{" ++
  document_rules true (btree_iter str_le (rules self)) ++ lit "}}".

Definition canonical_document_digest (self : AdapterTransformAuthority) : Sha256Digest :=
  sha256 (canonical_document self).

(** The loop over the rebindings of [validate_against]. *)
Fixpoint validate_rebindings (authority : AdapterTransformAuthority)
    (rebindings : list (TransformRuleId * TransformRebinding)) : result unit TransformContractError :=
  match rebindings with
  | [] => Ok tt
  | (rule_id, rebinding) :: rebindings =>
    let? authorized_rule := ok_or (rules authority !! rule_id) UnknownTransformRule in
    do? reject (negb (bool_decide (authorized_rule_digest authorized_rule =
                                   rebinding_rule_digest rebinding))) TransformRuleDigestMismatch in
    validate_rebindings authority rebindings
  end.

Definition validate_against (self : GeneratedTransformOverlay) (authority : AdapterTransformAuthority)
    (fingerprint_digest descriptor_digest : Sha256Digest) :
    result StructurallyValidatedTransformOverlay TransformContractError :=
  do? reject (negb (bool_decide (source_build_fingerprint_digest (binding self) = fingerprint_digest)))
    SourceBuildMismatch in
  do? reject (negb (bool_decide (build_descriptor_digest (binding self) = descriptor_digest)))
    BuildDescriptorMismatch in
  do? reject (negb (bool_decide (binding_adapter_id (binding self) = authority_adapter_id authority)) ||
              negb (bool_decide (binding_family (binding self) = authority_family authority)) ||
              negb (bool_decide (binding_adapter_content_digest (binding self) =
                                 authority_adapter_content_digest authority)))
    AuthorityIdentityMismatch in
  do? reject (negb (bool_decide (adapter_transform_authority_digest (binding self) =
                                 canonical_document_digest authority))) AuthorityDigestMismatch in
  do? validate_rebindings authority (btree_iter str_le (rebindings self)) in
  Ok (mkStructurallyValidated self authority).
End Validation.
