(* ===== verification/Execution.v ===== *)
(** * Execution: the targets an adapter may launch and what they resolved to

    Models [crates/weregopher-domain/src/execution.rs]: the static execution
    authority of an adapter, the generated overlay that binds its targets to exact
    artifacts of one build, their bounded deserialization, the canonical document
    an authority is identified by, and the structural validation of an overlay.

    The digest roles of [execution_digest.rs] and the identifiers are the values
    they wrap; [hex] is the parameter [hex_encode].  The bounded visitors of this
    file are those of [transformation.rs] under other bounds ([Overlay]). *)

From S2P Require Import Prelude Text Ids Wire Overlay.

Definition ExecutionTargetId : Type := str.
Definition ExecutionContractDigest : Type := Sha256Digest.
Definition ExecutionResolutionEvidenceDigest : Type := Sha256Digest.
Definition ExecutionArtifactSourceDigest : Type := Sha256Digest.
Definition ExecutableDigest : Type := Sha256Digest.

Definition EXECUTION_REBINDING_FORMAT_VERSION : str := lit "1".
Definition MAX_AUTHORIZED_EXECUTION_TARGETS : Z := 64.
Definition MAX_GENERATED_EXECUTION_BINDINGS : Z := 64.

Inductive ExecutionRebindingFormatVersion : Type := ExecutionRebinding_V1.
Inductive ExecutionPlatform : Type := ExecutionPlatform_Windows.
Inductive ExecutionArchitecture : Type := ExecutionArchitecture_X86_64.

Inductive ExecutionTargetKind : Type :=
| TargetKind_MainRuntime | TargetKind_VendorHelper | TargetKind_AbiIsland | TargetKind_SpecializedHelper.
Inductive ExecutionArtifactSource : Type := ArtifactSource_PackageSnapshot | ArtifactSource_ManagedArtifact.

#[global] Instance ExecutionTargetKind_eq_dec : EqDecision ExecutionTargetKind.
Proof. solve_decision. Defined.
#[global] Instance ExecutionArtifactSource_eq_dec : EqDecision ExecutionArtifactSource.
Proof. solve_decision. Defined.

Record AuthorizedExecutionTargetRef : Type := mkTargetRef {
  target_ref_kind : ExecutionTargetKind;
  target_ref_artifact_source : ExecutionArtifactSource;
  target_ref_contract_digest : ExecutionContractDigest
}.

Record AdapterExecutionAuthority : Type := mkExecutionAuthority {
  execution_authority_format_version : ExecutionRebindingFormatVersion;
  execution_authority_adapter_id : AdapterId;
  execution_authority_family : ApplicationFamilyId;
  execution_authority_adapter_content_digest : Sha256Digest;
  execution_targets : gmap ExecutionTargetId AuthorizedExecutionTargetRef
}.

Record ExecutionArtifactDigests : Type := mkArtifactDigests {
  artifact_execution_contract_digest : ExecutionContractDigest;
  artifact_artifact_source_digest : ExecutionArtifactSourceDigest;
  artifact_executable_digest : ExecutableDigest;
  artifact_resolution_evidence_digest : ExecutionResolutionEvidenceDigest
}.

Record ExecutionArtifactBinding : Type := mkArtifactBinding {
  bound_execution_contract : ExecutionContractDigest;
  bound_artifact_source : ExecutionArtifactSourceDigest;
  bound_executable : ExecutableDigest;
  bound_resolution_evidence : ExecutionResolutionEvidenceDigest
}.

Definition artifact_binding_new (digests : ExecutionArtifactDigests) : ExecutionArtifactBinding :=
  mkArtifactBinding (artifact_execution_contract_digest digests) (artifact_artifact_source_digest digests)
    (artifact_executable_digest digests) (artifact_resolution_evidence_digest digests).

Record ExecutionAuthorityBinding : Type := mkAuthorityBinding {
  authority_binding_family : ApplicationFamilyId;
  authority_binding_adapter_id : AdapterId;
  authority_binding_adapter_content_digest : Sha256Digest;
  adapter_execution_authority_digest : Sha256Digest
}.

Record ExecutionOverlayContext : Type := mkOverlayContext {
  context_source_build_fingerprint_digest : Sha256Digest;
  context_package_tree_merkle : Sha256Digest;
  context_execution_environment_digest : Sha256Digest;
  context_build_descriptor_digest : Sha256Digest
}.

Record ExecutionOverlayBinding : Type := mkOverlayBinding {
  overlay_source_build_fingerprint_digest : Sha256Digest;
  overlay_package_tree_merkle : Sha256Digest;
  overlay_execution_environment_digest : Sha256Digest;
  overlay_authority : ExecutionAuthorityBinding;
  overlay_build_descriptor_digest : Sha256Digest
}.

Record GeneratedExecutionOverlay : Type := mkExecutionOverlay {
  execution_overlay_format_version : ExecutionRebindingFormatVersion;
  execution_platform : ExecutionPlatform;
  execution_architecture : ExecutionArchitecture;
  execution_binding : ExecutionOverlayBinding;
  execution_bindings : gmap ExecutionTargetId ExecutionArtifactBinding
}.

(** [StructurallyValidatedExecutionOverlay]: what validation vouches for. *)
Record StructurallyValidatedExecutionOverlay : Type := mkExecutionProof {
  proof_overlay : GeneratedExecutionOverlay;
  proof_authority : AdapterExecutionAuthority
}.

Inductive ExecutionContractError : Type :=
| Execution_EmptyExecutionAuthority
| Execution_TooManyExecutionTargets
| Execution_EmptyExecutionOverlay
| Execution_TooManyExecutionBindings
| Execution_SourceBuildMismatch
| Execution_PackageTreeMismatch
| Execution_ExecutionEnvironmentMismatch
| Execution_BuildDescriptorMismatch
| Execution_AuthorityIdentityMismatch
| Execution_AuthorityDigestMismatch
| Execution_UnknownExecutionTarget
| Execution_ExecutionContractDigestMismatch
| Execution_PackageSnapshotDigestMismatch.

(** ** Constructors and readers *)

Definition execution_authority_new (adapter_id : AdapterId) (family : ApplicationFamilyId)
    (adapter_content_digest : Sha256Digest) (targets : gmap ExecutionTargetId AuthorizedExecutionTargetRef) :
    result AdapterExecutionAuthority ExecutionContractError :=
  do? reject (map_len targets =? 0) Execution_EmptyExecutionAuthority in
  do? reject (MAX_AUTHORIZED_EXECUTION_TARGETS <? map_len targets) Execution_TooManyExecutionTargets in
  Ok (mkExecutionAuthority ExecutionRebinding_V1 adapter_id family adapter_content_digest targets).

Definition execution_overlay_windows_x64 (binding : ExecutionOverlayBinding)
    (bindings : gmap ExecutionTargetId ExecutionArtifactBinding) :
    result GeneratedExecutionOverlay ExecutionContractError :=
  do? reject (map_len bindings =? 0) Execution_EmptyExecutionOverlay in
  do? reject (MAX_GENERATED_EXECUTION_BINDINGS <? map_len bindings) Execution_TooManyExecutionBindings in
  Ok (mkExecutionOverlay ExecutionRebinding_V1 ExecutionPlatform_Windows ExecutionArchitecture_X86_64 binding bindings).

Inductive ExecutionDeserializeError : Type :=
| ExecutionDeserialize_Visit (e : VisitError)
| ExecutionDeserialize_Contract (e : ExecutionContractError).

Definition deserialize_authorized_execution_targets (hint : option Z)
    (entries : list (ExecutionTargetId * AuthorizedExecutionTargetRef)) :
    result (gmap ExecutionTargetId AuthorizedExecutionTargetRef) VisitError :=
  visit_bounded_map MAX_AUTHORIZED_EXECUTION_TARGETS hint entries.
Definition deserialize_execution_bindings (hint : option Z)
    (entries : list (ExecutionTargetId * ExecutionArtifactBinding)) :
    result (gmap ExecutionTargetId ExecutionArtifactBinding) VisitError :=
  visit_bounded_map MAX_GENERATED_EXECUTION_BINDINGS hint entries.

(** [AdapterExecutionAuthorityTransport]; the format version has one value. *)
Record ExecutionAuthorityTransport : Type := mkExecutionAuthorityTransport {
  transport_execution_adapter_id : AdapterId;
  transport_execution_family : ApplicationFamilyId;
  transport_execution_adapter_content_digest : Sha256Digest;
  transport_targets_hint : option Z;
  transport_targets : list (ExecutionTargetId * AuthorizedExecutionTargetRef)
}.
Definition execution_authority_deserialize (t : ExecutionAuthorityTransport) :
    result AdapterExecutionAuthority ExecutionDeserializeError :=
  let? targets := map_err ExecutionDeserialize_Visit
    (deserialize_authorized_execution_targets (transport_targets_hint t) (transport_targets t)) in
  map_err ExecutionDeserialize_Contract
    (execution_authority_new (transport_execution_adapter_id t) (transport_execution_family t)
       (transport_execution_adapter_content_digest t) targets).

(** [GeneratedExecutionOverlayTransport]; version, platform and architecture have
    one value each. *)
Record ExecutionOverlayTransport : Type := mkExecutionOverlayTransport {
  transport_execution_binding : ExecutionOverlayBinding;
  transport_bindings_hint : option Z;
  transport_bindings : list (ExecutionTargetId * ExecutionArtifactBinding)
}.
Definition execution_overlay_deserialize (t : ExecutionOverlayTransport) :
    result GeneratedExecutionOverlay ExecutionDeserializeError :=
  let? bindings := map_err ExecutionDeserialize_Visit
    (deserialize_execution_bindings (transport_bindings_hint t) (transport_bindings t)) in
  map_err ExecutionDeserialize_Contract (execution_overlay_windows_x64 (transport_execution_binding t) bindings).

(** ** Canonical documents *)

Definition execution_target_kind_text (kind : ExecutionTargetKind) : str :=
  match kind with
  | TargetKind_MainRuntime => lit "main_runtime"
  | TargetKind_VendorHelper => lit "vendor_helper"
  | TargetKind_AbiIsland => lit "abi_island"
  | TargetKind_SpecializedHelper => lit "specialized_helper"
  end.

Definition execution_artifact_source_text (source : ExecutionArtifactSource) : str :=
  match source with
  | ArtifactSource_PackageSnapshot => lit "package_snapshot"
  | ArtifactSource_ManagedArtifact => lit "managed_artifact"
  end.

Section Documents.
Context `{HS : Sha256} (hex_encode : bytes → str).

(** The loop over the targets of [canonical_document_digest]. *)
Fixpoint document_targets (first : bool) (targets : list (ExecutionTargetId * AuthorizedExecutionTargetRef)) : bytes :=
  match targets with
  | [] => []
  | (target_id, target) :: targets =>
    (if first then [] else lit ",") ++ q ++ target_id ++ q ++ lit ":{" ++ q ++ lit "kind" ++ q ++ lit ":" ++ q ++
    execution_target_kind_text (target_ref_kind target) ++
    q ++ lit "," ++ q ++ lit "artifact_source" ++ q ++ lit ":" ++ q ++
    execution_artifact_source_text (target_ref_artifact_source target) ++
    q ++ lit "," ++ q ++ lit "execution_contract_digest" ++ q ++ lit ":" ++ q ++
    canonical_digest_text hex_encode (target_ref_contract_digest target) ++ q ++ lit "}" ++
    document_targets false targets
  end.

Definition execution_authority_document (self : AdapterExecutionAuthority) : bytes :=
  lit "{" ++ q ++ lit "format_version" ++ q ++ lit ":" ++ q ++ EXECUTION_REBINDING_FORMAT_VERSION ++
  q ++ lit "," ++ q ++ lit "adapter_id" ++ q ++ lit ":" ++ q ++ execution_authority_adapter_id self ++
  q ++ lit "," ++ q ++ lit "family" ++ q ++ lit ":" ++ q ++ execution_authority_family self ++
  q ++ lit "," ++ q ++ lit "adapter_content_digest" ++ q ++ lit ":" ++ q ++
  canonical_digest_text hex_encode (execution_authority_adapter_content_digest self) ++
  q ++ lit "," ++ q ++ lit "targets" ++ q ++ lit ":{" ++
  document_targets true (btree_iter str_le (execution_targets self)) ++ lit "}}".

Definition execution_authority_document_digest (self : AdapterExecutionAuthority) : Sha256Digest :=
  sha256 (execution_authority_document self).

Definition authority_binding_from_authority (authority : AdapterExecutionAuthority) : ExecutionAuthorityBinding :=
  mkAuthorityBinding (execution_authority_family authority) (execution_authority_adapter_id authority)
    (execution_authority_adapter_content_digest authority) (execution_authority_document_digest authority).

Definition overlay_binding_new (context : ExecutionOverlayContext) (authority : AdapterExecutionAuthority) :
    ExecutionOverlayBinding :=
  mkOverlayBinding (context_source_build_fingerprint_digest context) (context_package_tree_merkle context)
    (context_execution_environment_digest context) (authority_binding_from_authority authority)
    (context_build_descriptor_digest context).

(** ** Validation *)

(** The loop over the bindings of [validate_against]. *)
Fixpoint validate_execution_targets (self : GeneratedExecutionOverlay) (authority : AdapterExecutionAuthority)
    (bindings : list (ExecutionTargetId * ExecutionArtifactBinding)) : result unit ExecutionContractError :=
  match bindings with
  | [] => Ok tt
  | (target_id, binding) :: bindings =>
    let? authorized := ok_or (execution_targets authority !! target_id) Execution_UnknownExecutionTarget in
    do? reject (bool_decide (target_ref_contract_digest authorized ≠ bound_execution_contract binding))
      Execution_ExecutionContractDigestMismatch in
    do? reject (bool_decide (target_ref_artifact_source authorized = ArtifactSource_PackageSnapshot) &&
                bool_decide (bound_artifact_source binding ≠ overlay_package_tree_merkle (execution_binding self)))
      Execution_PackageSnapshotDigestMismatch in
    validate_execution_targets self authority bindings
  end.

Definition execution_validate_against (self : GeneratedExecutionOverlay) (authority : AdapterExecutionAuthority)
    (context : ExecutionOverlayContext) : result StructurallyValidatedExecutionOverlay ExecutionContractError :=
  let binding := execution_binding self in
  do? reject (bool_decide (overlay_source_build_fingerprint_digest binding ≠ context_source_build_fingerprint_digest context))
    Execution_SourceBuildMismatch in
  do? reject (bool_decide (overlay_package_tree_merkle binding ≠ context_package_tree_merkle context))
    Execution_PackageTreeMismatch in
  do? reject (bool_decide (overlay_execution_environment_digest binding ≠ context_execution_environment_digest context))
    Execution_ExecutionEnvironmentMismatch in
  do? reject (bool_decide (overlay_build_descriptor_digest binding ≠ context_build_descriptor_digest context))
    Execution_BuildDescriptorMismatch in
  do? reject (bool_decide (authority_binding_adapter_id (overlay_authority binding) ≠ execution_authority_adapter_id authority) ||
              bool_decide (authority_binding_family (overlay_authority binding) ≠ execution_authority_family authority) ||
              bool_decide (authority_binding_adapter_content_digest (overlay_authority binding) ≠
                           execution_authority_adapter_content_digest authority))
    Execution_AuthorityIdentityMismatch in
  do? reject (bool_decide (adapter_execution_authority_digest (overlay_authority binding) ≠
                           execution_authority_document_digest authority)) Execution_AuthorityDigestMismatch in
  do? validate_execution_targets self authority (btree_iter str_le (execution_bindings self)) in
  Ok (mkExecutionProof self authority).
End Documents.

(** ** A document identifies its authority *)

Definition quote_byte : byte := byte_of 34.
(** What the stable alphabet of identifiers leaves out. *)
Definition unquoted (s : str) : Prop := quote_byte ∉ s.

(** The identifiers of an authority are values of their types. *)
Definition authority_named (self : AdapterExecutionAuthority) : Prop :=
  stable_name (lit "adapter") (execution_authority_adapter_id self) ∧
  stable_name (lit "application family") (execution_authority_family self) ∧
  map_Forall (λ target_id _, stable_name (lit "execution target") target_id) (execution_targets self).

Definition authority_unquoted (self : AdapterExecutionAuthority) : Prop :=
  unquoted (execution_authority_adapter_id self) ∧ unquoted (execution_authority_family self) ∧
  map_Forall (λ target_id _, unquoted target_id) (execution_targets self).

Lemma stable_name_unquoted kind s : stable_name kind s → unquoted s.
Proof. intros H. by eapply stable_name_omits. Qed.
Lemma authority_named_unquoted self : authority_named self → authority_unquoted self.
Proof.
  intros (H1 & H2 & H3). split_and!; [by eapply stable_name_unquoted..|].
  intros k t Hk. by eapply stable_name_unquoted, (H3 k t).
Qed.

(** What the documents rely on of [hex::encode]. *)
Record lawful_hex (hex_encode : bytes → str) : Prop := {
  hex_inj : ∀ a b, hex_encode a = hex_encode b → a = b;
  hex_unquoted : ∀ a, unquoted (hex_encode a)
}.

(** Two texts up to their first quote. *)
Lemma cut_at_quote a b x y : unquoted a → unquoted b → a ++ q ++ x = b ++ q ++ y → a = b ∧ x = y.
Proof.
  unfold unquoted, q, quote_byte. revert b. induction a as [|c a IH]; intros [|d b] Ha Hb He; cbn in He.
  - by injection He.
  - injection He as He _. exfalso. apply Hb. rewrite He. by left.
  - injection He as He _. exfalso. apply Ha. rewrite <-He. by left.
  - injection He as -> He. apply not_elem_of_cons in Ha as [_ Ha]. apply not_elem_of_cons in Hb as [_ Hb].
    by destruct (IH b Ha Hb He) as [-> ->].
Qed.

Section Injective.
Context `{HS : Sha256} (hex_encode : bytes → str) (Hhex : lawful_hex hex_encode).

Lemma digest_text_inj a b : canonical_digest_text hex_encode a = canonical_digest_text hex_encode b → a = b.
Proof. unfold canonical_digest_text. intros H. apply app_inv_head in H. by apply (hex_inj _ Hhex). Qed.
Lemma digest_text_unquoted a : unquoted (canonical_digest_text hex_encode a).
Proof.
  unfold canonical_digest_text, unquoted. rewrite elem_of_app. intros [H|H]; [|by apply (hex_unquoted _ Hhex) in H].
  revert H. by apply (bool_decide_unpack _).
Qed.
Lemma kind_text_unquoted k : unquoted (execution_target_kind_text k).
Proof. destruct k; by apply (bool_decide_unpack _). Qed.
Lemma source_text_unquoted k : unquoted (execution_artifact_source_text k).
Proof. destruct k; by apply (bool_decide_unpack _). Qed.
Lemma kind_text_inj k k' : execution_target_kind_text k = execution_target_kind_text k' → k = k'.
Proof. by destruct k, k'. Qed.
Lemma source_text_inj k k' : execution_artifact_source_text k = execution_artifact_source_text k' → k = k'.
Proof. by destruct k, k'. Qed.

(** Cancels the fixed text in front of a document, then a field up to its quote. *)
Ltac cut_literal He := repeat (apply app_inv_head in He).
Ltac cut_field He Hf := apply cut_at_quote in He; [destruct He as [Hf He]|try done..].

Lemma document_targets_inj first l l' :
  Forall unquoted l.*1 → Forall unquoted l'.*1 →
  document_targets hex_encode first l ++ lit "}}" = document_targets hex_encode first l' ++ lit "}}" → l = l'.
Proof.
  revert first l'. induction l as [|[i t] l IH]; intros first [|[i' t'] l'] Hl Hl' He; [done|..].
  - exfalso. destruct first; discriminate He.
  - exfalso. destruct first; discriminate He.
  - apply Forall_cons in Hl as [Hi Hl], Hl' as [Hi' Hl']. cbn [document_targets] in He. rewrite <-!app_assoc in He.
    cut_literal He. cut_field He E1. subst i'.
    cut_literal He. cut_field He E2; [|apply kind_text_unquoted..].
    cut_literal He. cut_field He E3; [|apply source_text_unquoted..].
    cut_literal He. cut_field He E4; [|apply digest_text_unquoted..].
    cut_literal He. apply IH in He as ->; [|done..].
    apply kind_text_inj in E2. apply source_text_inj in E3. apply digest_text_inj in E4.
    destruct t, t'. cbn in *. by subst.
Qed.

Lemma btree_keys_unquoted (m : gmap ExecutionTargetId AuthorizedExecutionTargetRef) :
  map_Forall (λ target_id _, unquoted target_id) m → Forall unquoted (btree_iter str_le m).*1.
Proof.
  intros H. apply Forall_forall. intros i ([k t] & -> & Hin%elem_of_btree_iter)%list_elem_of_fmap. by apply (H k t).
Qed.

Lemma document_inj a b :
  authority_unquoted a → authority_unquoted b →
  execution_authority_document hex_encode a = execution_authority_document hex_encode b → a = b.
Proof.
  intros (Ha1 & Ha2 & Ha3) (Hb1 & Hb2 & Hb3) He. unfold execution_authority_document in He.
  cut_literal He. cut_field He E1. cut_literal He. cut_field He E2.
  cut_literal He. cut_field He E3; [|apply digest_text_unquoted..]. cut_literal He.
  apply document_targets_inj in He; [|by apply btree_keys_unquoted..]. apply digest_text_inj in E3.
  destruct a as [[] ? ? ? m], b as [[] ? ? ? m']; cbn in *. subst. f_equal.
  apply map_eq. intros k. rewrite option_eq. intros t.
  by rewrite <-(elem_of_btree_iter str_le m), <-(elem_of_btree_iter str_le m'), He.
Qed.

(** ** Validation is exact *)

(** What one binding of a valid overlay satisfies. *)
Definition binding_authorized (tree : Sha256Digest) (authority : AdapterExecutionAuthority)
    (target_id : ExecutionTargetId) (binding : ExecutionArtifactBinding) : Prop :=
  ∃ t, execution_targets authority !! target_id = Some t ∧
    target_ref_contract_digest t = bound_execution_contract binding ∧
    (target_ref_artifact_source t = ArtifactSource_PackageSnapshot → bound_artifact_source binding = tree).

Lemma validate_execution_targets_Ok self authority l :
  validate_execution_targets self authority l = Ok tt ↔
    Forall (λ p, binding_authorized (overlay_package_tree_merkle (execution_binding self)) authority p.1 p.2) l.
Proof.
  induction l as [|[i b] l IH]; cbn [validate_execution_targets]; [by split|]. rewrite Forall_cons. unfold binding_authorized at 1.
  cbn [fst snd]. destruct (execution_targets authority !! i) as [t|]; cbn [ok_or result_bind]; [|naive_solver].
  repeat case_bool_decide; cbn [andb reject result_bind]; rewrite ?IH; naive_solver.
Qed.

(** The identities an overlay has to agree on with its context and authority. *)
Definition overlay_identities (self : GeneratedExecutionOverlay) (authority : AdapterExecutionAuthority)
    (context : ExecutionOverlayContext) : Prop :=
  execution_binding self = mkOverlayBinding
    (context_source_build_fingerprint_digest context) (context_package_tree_merkle context)
    (context_execution_environment_digest context)
    (mkAuthorityBinding (execution_authority_family authority) (execution_authority_adapter_id authority)
       (execution_authority_adapter_content_digest authority) (execution_authority_document_digest hex_encode authority))
    (context_build_descriptor_digest context).

Lemma execution_validate_against_Ok self authority context proof :
  execution_validate_against hex_encode self authority context = Ok proof ↔
    proof = mkExecutionProof self authority ∧ overlay_identities self authority context ∧
    map_Forall (binding_authorized (context_package_tree_merkle context) authority) (execution_bindings self).
Proof.
  unfold execution_validate_against, overlay_identities. cbv zeta.
  assert (Hl : validate_execution_targets self authority (btree_iter str_le (execution_bindings self)) = Ok tt ↔
    map_Forall (binding_authorized (overlay_package_tree_merkle (execution_binding self)) authority) (execution_bindings self)).
  { rewrite validate_execution_targets_Ok, Forall_forall. split.
    - intros H i b Hb. by apply (H (i, b)), elem_of_btree_iter.
    - intros H [i b] Hb%elem_of_btree_iter. by apply H. }
  destruct (execution_binding self) as [b1 b2 b3 [a1 a2 a3 a4] b5]. cbn in *. split.
  - intros H. inv_ok.
    inv_guards. subst. split_and!; [done|done|]. by apply Hl.
  - intros (-> & [= -> -> -> -> -> -> -> ->] & Hb). rewrite (proj2 Hl Hb).
    by rewrite !(bool_decide_eq_false_2 (_ ≠ _)) by (intros Hn; by apply Hn).
Qed.
End Injective.

(** C33: an overlay generated for an authority and a context validates exactly
    against that context and against an authority with the same identities and
    document digest, when each of its targets is declared there with the same
    contract and every package-snapshot target comes from the package tree of the
    context; and such an authority is the very one the overlay was made for, unless
    its document and that of the other are different and have one SHA-256 digest. *)
Theorem overlay_validates_only_its_authority `{HS : Sha256} (hex_encode : bytes → str) (made : AdapterExecutionAuthority)
    context0 self authority context proof :
  lawful_hex hex_encode → authority_named made → authority_named authority →
  execution_binding self = overlay_binding_new hex_encode context0 made →
  (execution_validate_against hex_encode self authority context = Ok proof ↔
     proof = mkExecutionProof self authority ∧ context = context0 ∧
     authority_binding_from_authority hex_encode authority = authority_binding_from_authority hex_encode made ∧
     map_Forall (binding_authorized (context_package_tree_merkle context) authority) (execution_bindings self)) ∧
  (authority_binding_from_authority hex_encode authority = authority_binding_from_authority hex_encode made →
     authority = made ∨
     execution_authority_document hex_encode authority ≠ execution_authority_document hex_encode made ∧
     sha256 (execution_authority_document hex_encode authority) = sha256 (execution_authority_document hex_encode made)).
Proof.
  intros Hhex Hmade Hauth Hb. split.
  - rewrite execution_validate_against_Ok. unfold overlay_identities, overlay_binding_new, authority_binding_from_authority in *.
    rewrite Hb. destruct context, context0. cbn. split.
    + intros (-> & Hi & Hm). injection Hi as <- <- <- Hf Hi Hc Hd <-. split_and!; [done..| |done]. by rewrite Hf, Hi, Hc, Hd.
    + intros (-> & [= -> -> -> ->] & Hi & Hm). by rewrite Hi.
  - intros [= _ _ _ Hd]. unfold execution_authority_document_digest in Hd.
    destruct (decide (execution_authority_document hex_encode authority = execution_authority_document hex_encode made)) as [He|Hne].
    + left. by apply (document_inj hex_encode Hhex); [apply authority_named_unquoted..|].
    + by right.
Qed.

(** ** A sample authority with one target and its overlay *)

Definition hex_digit (z : Z) : byte := byte_of (if z <? 10 then 48 + z else 87 + z).
Definition demo_hex (bs : bytes) : str := concat (map (λ b, [hex_digit (byte_val b / 16); hex_digit (byte_val b mod 16)]) bs).
Lemma demo_hex_lawful : lawful_hex demo_hex.
Proof.
  assert (Hd : ∀ z z', 0 <= z < 16 → 0 <= z' < 16 → hex_digit z = hex_digit z' → z = z').
  { intros z z' Hz Hz' H. unfold hex_digit in H. apply (f_equal byte_val) in H. rewrite !byte_val_of in H.
    destruct (Z.ltb_spec z 10), (Z.ltb_spec z' 10); rewrite !Z.mod_small in H by lia; lia. }
  split.
  - intros a. induction a as [|x a IH]; intros [|y b] H; [done..|]. cbn in H. injection H as H1 H2 H.
    pose proof (byte_val_range x). pose proof (byte_val_range y).
    apply Hd in H1; [|split; [apply Z.div_pos|apply Z.div_lt_upper_bound]; lia..].
    apply Hd in H2; [|apply Z.mod_pos_bound; lia..]. rewrite (IH b H). f_equal. apply byte_val_inj.
    rewrite (Z.div_mod (byte_val x) 16), (Z.div_mod (byte_val y) 16) by lia. by rewrite H1, H2.
  - intros a. unfold unquoted, demo_hex. rewrite list_elem_of_In, in_concat. intros (l & (x & <- & _)%in_map_iff & Hin).
    pose proof (byte_val_range x). apply list_elem_of_In in Hin.
    assert (Hq : ∀ z, 0 <= z < 16 → hex_digit z ≠ quote_byte).
    { intros z Hz He. apply (f_equal byte_val) in He. unfold hex_digit, quote_byte in He. rewrite !byte_val_of in He.
      destruct (Z.ltb_spec z 10); rewrite !Z.mod_small in He by lia; lia. }
    apply elem_of_cons in Hin as [Hin|Hin%list_elem_of_singleton]; symmetry in Hin; revert Hin; apply Hq.
    + split; [apply Z.div_pos|apply Z.div_lt_upper_bound]; lia.
    + apply Z.mod_pos_bound. lia.
Qed.

Definition sample_digest (z : Z) : Sha256Digest := replicate 32 (byte_of z).
Definition sample_target_id : ExecutionTargetId := lit "main".
Definition sample_authority_transport : ExecutionAuthorityTransport :=
  mkExecutionAuthorityTransport (lit "openai.chatgpt") (lit "chatgpt") (sample_digest 1) (Some 1)
    [(sample_target_id, mkTargetRef TargetKind_MainRuntime ArtifactSource_PackageSnapshot (sample_digest 2))].
Lemma sample_execution_authority_ok : is_ok (execution_authority_deserialize sample_authority_transport) = true.
Proof. by vm_compute. Qed.
Definition sample_execution_authority : AdapterExecutionAuthority := from_ok _ sample_execution_authority_ok.
Definition sample_context : ExecutionOverlayContext :=
  mkOverlayContext (sample_digest 3) (sample_digest 4) (sample_digest 5) (sample_digest 6).
Section Sample.
Context (HS : Sha256).
Definition sample_overlay_transport : ExecutionOverlayTransport :=
  mkExecutionOverlayTransport (overlay_binding_new demo_hex sample_context sample_execution_authority) (Some 1)
    [(sample_target_id, artifact_binding_new (mkArtifactDigests (sample_digest 2) (sample_digest 4) (sample_digest 7) (sample_digest 8)))].
Lemma sample_overlay_ok : is_ok (execution_overlay_deserialize sample_overlay_transport) = true.
Proof. by vm_compute. Qed.
Definition sample_overlay : GeneratedExecutionOverlay := from_ok _ sample_overlay_ok.
End Sample.
Lemma sample_authority_named : authority_named sample_execution_authority.
Proof.
  split_and!; [by vm_compute..|]. apply map_Forall_to_list.
  assert (Hm : (map_to_list (execution_targets sample_execution_authority)).*1 = [sample_target_id]) by (by vm_compute).
  apply Forall_forall. intros [k t] Hin. assert (Hk : k ∈ [sample_target_id]) by (rewrite <-Hm; by apply (list_elem_of_fmap_2 fst) in Hin).
  apply list_elem_of_singleton in Hk as ->. by vm_compute.
Qed.

Lemma overlay_validates_only_its_authority_witness :
  let HS : Sha256 := λ bs, bs in
  execution_validate_against demo_hex (sample_overlay HS) sample_execution_authority sample_context =
    Ok (mkExecutionProof (sample_overlay HS) sample_execution_authority).
Proof.
  cbv zeta. set (HS := (λ bs : bytes, bs) : Sha256).
  apply (overlay_validates_only_its_authority demo_hex sample_execution_authority sample_context (sample_overlay HS)
    sample_execution_authority sample_context (mkExecutionProof (sample_overlay HS) sample_execution_authority)
    demo_hex_lawful sample_authority_named sample_authority_named); [by vm_compute|].
  split; [reflexivity|]. split; [reflexivity|]. split; [reflexivity|]. apply map_Forall_to_list.
  assert (Hm : map_to_list (execution_bindings (sample_overlay HS)) =
    [(sample_target_id, artifact_binding_new (mkArtifactDigests (sample_digest 2) (sample_digest 4) (sample_digest 7) (sample_digest 8)))])
    by (by vm_compute).
  rewrite Hm. constructor; [|constructor]. cbn [fst snd uncurry].
  exists (mkTargetRef TargetKind_MainRuntime ArtifactSource_PackageSnapshot (sample_digest 2)).
  split; [by vm_compute|]. split; [reflexivity|]. intros _. reflexivity.
Defined.
