(* ===== verification/ExecutionTarget.v ===== *)
(** * ExecutionTarget: target contracts and resolution evidence

    Models [crates/weregopher-domain/src/execution_target.rs]: fixed arguments,
    canonical package paths, artifact locators, launch policies and resource
    limits, the static contract of a target and the generated evidence of its
    resolution, and how their documents are read and identified.

    [serde_json] is the parameter [ExecutionJson]: its readers deliver what the
    derived transports offer to the code, the sequence of arguments with the size
    it announces, and its writers are the canonical encodings. *)

From S2P Require Import Prelude Text Wire ControlPlane Evidence Compatibility Overlay Execution.

Definition ArtifactTrustEvidenceDigest : Type := Sha256Digest.
Definition ProvenanceEvidenceDigest : Type := Sha256Digest.
Definition CapabilityPolicyDigest : Type := Sha256Digest.
Definition StatePolicyDigest : Type := Sha256Digest.

Definition MAX_EXECUTION_ARGUMENTS : Z := 64.
Definition MAX_EXECUTION_ARGUMENT_BYTES : Z := 8 * 1024.
Definition MAX_EXECUTION_ARGUMENT_AGGREGATE_BYTES : Z := 16 * 1024.
Definition MAX_EXECUTION_PACKAGE_PATH_BYTES : Z := 4 * 1024.
Definition MAX_EXECUTION_PACKAGE_PATH_COMPONENTS : Z := 256.
Definition MAX_EXECUTION_TARGET_DOCUMENT_BYTES : Z := 256 * 1024.
Definition MAX_EXECUTION_RESOLUTION_DOCUMENT_BYTES : Z := 64 * 1024.

Inductive ExecutionTargetContractError : Type :=
| Target_ArgumentTooLong
| Target_ArgumentContainsNul
| Target_TooManyArguments
| Target_TooManyArgumentBytes
| Target_InvalidPackagePath
| Target_ManagedExecutableDigestMismatch
| Target_ZeroResourceLimit
| Target_IncoherentMemoryLimits.

Inductive ExecutionContractParseError (JsonError IoError : Type) : Type :=
| Parse_DocumentTooLarge (maximum : Z)
| Parse_Read (source : IoError)
| Parse_Json (source : JsonError).
Arguments Parse_DocumentTooLarge {_ _}. Arguments Parse_Read {_ _}. Arguments Parse_Json {_ _}.

(** ** Arguments and paths *)

(** [ExecutionArgument] and [ExecutionPackagePath] are the text they wrap. *)
Definition ExecutionArgument : Type := str.
Definition ExecutionPackagePath : Type := str.

Definition execution_argument_new (value : str) : result ExecutionArgument ExecutionTargetContractError :=
  do? reject (MAX_EXECUTION_ARGUMENT_BYTES <? len value) Target_ArgumentTooLong in
  do? reject (contains_byte (byte_of 0) value) Target_ArgumentContainsNul in
  Ok value.

(** The characters are all ASCII, so a byte is one of them or none. *)
Definition is_invalid_windows_path_character (b : byte) : bool :=
  (byte_val b <=? 0x1f) ||
  bool_decide (b ∈ [chr "<"; chr ">"; chr ":"; byte_of 34; chr "\"; chr "|"; chr "?"; chr "*"]).

Definition to_ascii_uppercase (s : str) : str :=
  map (λ b, if in_range 97 122 (byte_val b) then byte_of (byte_val b - 32) else b) s.

(** [trim_end_matches([' ', '.'])]. *)
Fixpoint drop_spaces_dots (s : str) : str :=
  match s with
  | b :: s' => if bool_decide (b = chr " ") || bool_decide (b = chr ".") then drop_spaces_dots s' else s
  | [] => []
  end.
Definition trim_end_spaces_dots (s : str) : str := rev (drop_spaces_dots (rev s)).

Definition device_names : list str :=
  map lit ["CON"; "PRN"; "AUX"; "NUL"; "CONIN$"; "CONOUT$"; "CLOCK$"]%string.
(** The digits, and the superscripts one, two and three. *)
Definition device_numbers : list str :=
  map lit ["1"; "2"; "3"; "4"; "5"; "6"; "7"; "8"; "9"]%string ++
  [[byte_of 0xC2; byte_of 0xB9]; [byte_of 0xC2; byte_of 0xB2]; [byte_of 0xC2; byte_of 0xB3]].

Definition is_reserved_windows_component (component : str) : bool :=
  let stem := trim_end_spaces_dots
    (match split_once (chr ".") component with Some (stem, _) => stem | None => component end) in
  let uppercase := to_ascii_uppercase stem in
  bool_decide (uppercase ∈ device_names) ||
  existsb (λ prefix, match strip_prefix prefix uppercase with
                     | Some suffix => bool_decide (suffix ∈ device_numbers)
                     | None => false
                     end) [lit "COM"; lit "LPT"].

(** The loop over the components of [validate_package_path]. *)
Fixpoint validate_components (components : list str) (component_count : Z) : result Z ExecutionTargetContractError :=
  match components with
  | [] => Ok component_count
  | component :: components =>
    let? component_count := ok_or (checked_add usize_max component_count 1) Target_InvalidPackagePath in
    do? reject (bool_decide (component = []) || bool_decide (component = lit ".") || bool_decide (component = lit "..") ||
                (ends_with_byte (chr ".") component || ends_with_byte (chr " ") component) ||
                existsb is_invalid_windows_path_character component || is_reserved_windows_component component)
      Target_InvalidPackagePath in
    validate_components components component_count
  end.

Definition validate_package_path (path : str) : result unit ExecutionTargetContractError :=
  do? reject (bool_decide (path = []) || (MAX_EXECUTION_PACKAGE_PATH_BYTES <? len path)) Target_InvalidPackagePath in
  do? reject (starts_with_byte (chr "/") path || ends_with_byte (chr "/") path) Target_InvalidPackagePath in
  let? component_count := validate_components (split (chr "/") path) 0 in
  reject (MAX_EXECUTION_PACKAGE_PATH_COMPONENTS <? component_count) Target_InvalidPackagePath.

Definition execution_package_path_new (value : str) : result ExecutionPackagePath ExecutionTargetContractError :=
  do? validate_package_path value in Ok value.

(** ** Locators *)

Inductive ExecutionArtifactLocator : Type :=
| Locator_PackageSnapshot (normalized_path : ExecutionPackagePath)
| Locator_ManagedArtifact (digest : ExecutableDigest).
#[global] Instance ExecutionArtifactLocator_eq_dec : EqDecision ExecutionArtifactLocator.
Proof. solve_decision. Defined.

Definition locator_package_snapshot (normalized_path : str) :
    result ExecutionArtifactLocator ExecutionTargetContractError :=
  let? normalized_path := execution_package_path_new normalized_path in
  Ok (Locator_PackageSnapshot normalized_path).

Definition locator_artifact_source (self : ExecutionArtifactLocator) : ExecutionArtifactSource :=
  match self with
  | Locator_PackageSnapshot _ => ArtifactSource_PackageSnapshot
  | Locator_ManagedArtifact _ => ArtifactSource_ManagedArtifact
  end.
Definition locator_package_path (self : ExecutionArtifactLocator) : option str :=
  match self with Locator_PackageSnapshot path => Some path | Locator_ManagedArtifact _ => None end.
Definition locator_managed_digest (self : ExecutionArtifactLocator) : option ExecutableDigest :=
  match self with Locator_ManagedArtifact digest => Some digest | Locator_PackageSnapshot _ => None end.

(** ** Launch policies *)

Inductive ExecutionStateMode : Type := StateMode_Disposable | StateMode_Production | StateMode_VendorDefault.
Inductive RequiredSecurityPosture : Type :=
| Required_VendorEquivalentFullTrust | Required_BrokerMediated | Required_OsContained.
(** [EffectiveSecurityPosture] of [security.rs]. *)
Inductive EffectiveSecurityPosture : Type :=
| Effective_BrokerMediated | Effective_OsContained | Effective_VendorEquivalentFullTrust.
Inductive ExecutionEnvironmentPolicy : Type := Environment_Empty.
Inductive ExecutionInheritedHandlePolicy : Type := InheritedHandles_None.
Inductive ExecutionConsolePolicy : Type := Console_None.
Inductive ExecutionWorkingDirectoryPolicy : Type := WorkingDirectory_ExecutableParent.
Inductive ExecutionDependencyPolicy : Type := Dependency_VendorDefaultAmbient | Dependency_ManifestClosed.

#[global] Instance ExecutionStateMode_eq_dec : EqDecision ExecutionStateMode.
Proof. solve_decision. Defined.
#[global] Instance EffectiveSecurityPosture_eq_dec : EqDecision EffectiveSecurityPosture.
Proof. solve_decision. Defined.
#[global] Instance ExecutionEnvironmentPolicy_eq_dec : EqDecision ExecutionEnvironmentPolicy.
Proof. solve_decision. Defined.
#[global] Instance ExecutionInheritedHandlePolicy_eq_dec : EqDecision ExecutionInheritedHandlePolicy.
Proof. solve_decision. Defined.
#[global] Instance ExecutionConsolePolicy_eq_dec : EqDecision ExecutionConsolePolicy.
Proof. solve_decision. Defined.
#[global] Instance ExecutionWorkingDirectoryPolicy_eq_dec : EqDecision ExecutionWorkingDirectoryPolicy.
Proof. solve_decision. Defined.
#[global] Instance ExecutionDependencyPolicy_eq_dec : EqDecision ExecutionDependencyPolicy.
Proof. solve_decision. Defined.

Definition is_satisfied_by (self : RequiredSecurityPosture) (effective : EffectiveSecurityPosture) : bool :=
  match self, effective with
  | Required_VendorEquivalentFullTrust, Effective_VendorEquivalentFullTrust
  | Required_BrokerMediated, Effective_BrokerMediated
  | Required_OsContained, Effective_OsContained => true
  | _, _ => false
  end.

Record ExecutionResourceLimits : Type := mkResourceLimits {
  active_process_limit : Z;
  process_memory_limit_bytes : Z;
  job_memory_limit_bytes : Z
}.

Definition resource_limits_new (active_process_limit process_memory_limit_bytes job_memory_limit_bytes : Z) :
    result ExecutionResourceLimits ExecutionTargetContractError :=
  do? reject ((active_process_limit =? 0) || (process_memory_limit_bytes =? 0) || (job_memory_limit_bytes =? 0))
    Target_ZeroResourceLimit in
  do? reject (job_memory_limit_bytes <? process_memory_limit_bytes) Target_IncoherentMemoryLimits in
  Ok (mkResourceLimits active_process_limit process_memory_limit_bytes job_memory_limit_bytes).

Record ExecutionPolicyRequirements : Type := mkPolicyRequirements {
  required_capability_policy_digest : CapabilityPolicyDigest;
  required_state_policy_digest : StatePolicyDigest
}.

Record ExecutionLaunchPolicy : Type := mkLaunchPolicy {
  launch_policy_arguments : list ExecutionArgument;
  environment : ExecutionEnvironmentPolicy;
  inherited_handles : ExecutionInheritedHandlePolicy;
  console : ExecutionConsolePolicy;
  working_directory : ExecutionWorkingDirectoryPolicy;
  dependency_policy : ExecutionDependencyPolicy;
  required_security_posture : RequiredSecurityPosture;
  state_mode : ExecutionStateMode;
  resource_limits : ExecutionResourceLimits;
  policy_requirements : ExecutionPolicyRequirements
}.

(** The summing loop of [ExecutionLaunchPolicy::new]. *)
Fixpoint sum_argument_bytes (arguments : list ExecutionArgument) (aggregate : Z) :
    result Z ExecutionTargetContractError :=
  match arguments with
  | [] => Ok aggregate
  | argument :: arguments =>
    let? aggregate := ok_or (checked_add usize_max aggregate (len argument)) Target_TooManyArgumentBytes in
    do? reject (MAX_EXECUTION_ARGUMENT_AGGREGATE_BYTES <? aggregate) Target_TooManyArgumentBytes in
    sum_argument_bytes arguments aggregate
  end.

Definition launch_policy_new (arguments : list ExecutionArgument) (dependency_policy : ExecutionDependencyPolicy)
    (required_security_posture : RequiredSecurityPosture) (state_mode : ExecutionStateMode)
    (resource_limits : ExecutionResourceLimits) (policy_requirements : ExecutionPolicyRequirements) :
    result ExecutionLaunchPolicy ExecutionTargetContractError :=
  do? reject (MAX_EXECUTION_ARGUMENTS <? len arguments) Target_TooManyArguments in
  let? _ := sum_argument_bytes arguments 0 in
  Ok (mkLaunchPolicy arguments Environment_Empty InheritedHandles_None Console_None WorkingDirectory_ExecutableParent
        dependency_policy required_security_posture state_mode resource_limits policy_requirements).

Definition argument_bytes (self : ExecutionLaunchPolicy) : Z := foldr Z.add 0 (map len (launch_policy_arguments self)).

(** ** Contracts and resolution evidence *)

Inductive ExecutionTargetContractFormatVersion : Type := TargetContract_V2.
Inductive ExecutionResolutionFormatVersion : Type := Resolution_V2.

Record ExecutionTargetContract : Type := mkTargetContract {
  contract_format_version : ExecutionTargetContractFormatVersion;
  contract_target_id : ExecutionTargetId;
  contract_kind : ExecutionTargetKind;
  contract_artifact_locator : ExecutionArtifactLocator;
  contract_launch_policy : ExecutionLaunchPolicy
}.
Definition target_contract_new (target_id : ExecutionTargetId) (kind : ExecutionTargetKind)
    (artifact_locator : ExecutionArtifactLocator) (launch_policy : ExecutionLaunchPolicy) : ExecutionTargetContract :=
  mkTargetContract TargetContract_V2 target_id kind artifact_locator launch_policy.

Record ExecutionResolutionDigests : Type := mkResolutionDigests {
  resolved_execution_contract_digest : ExecutionContractDigest;
  resolved_artifact_source_digest : ExecutionArtifactSourceDigest;
  resolved_executable_digest : ExecutableDigest;
  resolved_artifact_trust_evidence_digest : ArtifactTrustEvidenceDigest;
  resolved_provenance_evidence_digest : ProvenanceEvidenceDigest
}.

Record ExecutionResolutionEvidence : Type := mkResolution {
  resolution_format_version : ExecutionResolutionFormatVersion;
  resolution_target_id : ExecutionTargetId;
  resolution_artifact_locator : ExecutionArtifactLocator;
  resolution_digests : ExecutionResolutionDigests
}.
Definition resolution_new (target_id : ExecutionTargetId) (artifact_locator : ExecutionArtifactLocator)
    (digests : ExecutionResolutionDigests) : result ExecutionResolutionEvidence ExecutionTargetContractError :=
  do? reject (match locator_managed_digest artifact_locator with
              | Some digest => bool_decide (digest ≠ resolved_executable_digest digests)
              | None => false
              end) Target_ManagedExecutableDigestMismatch in
  Ok (mkResolution Resolution_V2 target_id artifact_locator digests).

(** ** Documents *)

(** [ExecutionArtifactLocatorTransport], its path as the document spells it. *)
Inductive LocatorTransport : Type :=
| LocatorTransport_PackageSnapshot (normalized_path : str)
| LocatorTransport_ManagedArtifact (digest : ExecutableDigest).

(** [ExecutionLaunchPolicyTransport]; the resource limits are the three numbers of
    [ExecutionResourceLimitsTransport]. *)
Record LaunchPolicyTransport : Type := mkLaunchPolicyTransport {
  transport_arguments_hint : option Z;
  transport_arguments : list str;
  transport_environment : ExecutionEnvironmentPolicy;
  transport_inherited_handles : ExecutionInheritedHandlePolicy;
  transport_console : ExecutionConsolePolicy;
  transport_working_directory : ExecutionWorkingDirectoryPolicy;
  transport_dependency_policy : ExecutionDependencyPolicy;
  transport_required_security_posture : RequiredSecurityPosture;
  transport_state_mode : ExecutionStateMode;
  transport_resource_limits : Z * Z * Z;
  transport_policy_requirements : ExecutionPolicyRequirements
}.
Record ContractTransport : Type := mkContractTransport {
  transport_contract_target_id : ExecutionTargetId;
  transport_contract_kind : ExecutionTargetKind;
  transport_contract_locator : LocatorTransport;
  transport_contract_launch_policy : LaunchPolicyTransport
}.
Record ResolutionTransport : Type := mkResolutionTransport {
  transport_resolution_target_id : ExecutionTargetId;
  transport_resolution_locator : LocatorTransport;
  transport_resolution_digests : ExecutionResolutionDigests
}.

Class ExecutionJson : Type := {
  ExecutionJsonError : Type;
  execution_json_custom : ExecutionJsonError;
  contract_from_slice : bytes → result ContractTransport ExecutionJsonError;
  contract_to_vec : ExecutionTargetContract → result bytes ExecutionJsonError;
  resolution_from_slice : bytes → result ResolutionTransport ExecutionJsonError;
  resolution_to_vec : ExecutionResolutionEvidence → result bytes ExecutionJsonError;
  analysis_to_vec : CompatibilityAnalysis → result bytes ExecutionJsonError
}.

Section Documents.
Context `{EJ : ExecutionJson} `{HS : Sha256}.

Abbreviation custom := (map_err (λ _ : ExecutionTargetContractError, execution_json_custom)).

(** The visitor of [deserialize_execution_arguments]. *)
Fixpoint visit_arguments (elements : list str) (arguments : list ExecutionArgument) :
    result (list ExecutionArgument) ExecutionJsonError :=
  match elements with
  | [] => Ok arguments
  | value :: elements =>
    do? reject (negb (len arguments <? MAX_EXECUTION_ARGUMENTS)) execution_json_custom in
    let? argument := custom (execution_argument_new value) in
    visit_arguments elements (arguments ++ [argument])
  end.
Definition deserialize_execution_arguments (hint : option Z) (elements : list str) :
    result (list ExecutionArgument) ExecutionJsonError :=
  do? reject (announces_more hint MAX_EXECUTION_ARGUMENTS) execution_json_custom in
  visit_arguments elements [].

Definition resource_limits_deserialize (t : Z * Z * Z) : result ExecutionResourceLimits ExecutionJsonError :=
  let '(active, process_memory, job_memory) := t in custom (resource_limits_new active process_memory job_memory).

Definition launch_policy_deserialize (t : LaunchPolicyTransport) : result ExecutionLaunchPolicy ExecutionJsonError :=
  let? arguments := deserialize_execution_arguments (transport_arguments_hint t) (transport_arguments t) in
  let? resource_limits := resource_limits_deserialize (transport_resource_limits t) in
  let? policy := custom (launch_policy_new arguments (transport_dependency_policy t)
    (transport_required_security_posture t) (transport_state_mode t) resource_limits (transport_policy_requirements t)) in
  do? reject (bool_decide (environment policy ≠ transport_environment t) ||
              bool_decide (inherited_handles policy ≠ transport_inherited_handles t) ||
              bool_decide (console policy ≠ transport_console t) ||
              bool_decide (working_directory policy ≠ transport_working_directory t)) execution_json_custom in
  Ok policy.

Definition locator_deserialize (t : LocatorTransport) : result ExecutionArtifactLocator ExecutionJsonError :=
  match t with
  | LocatorTransport_PackageSnapshot path => custom (locator_package_snapshot path)
  | LocatorTransport_ManagedArtifact digest => Ok (Locator_ManagedArtifact digest)
  end.

Definition contract_deserialize (t : ContractTransport) : result ExecutionTargetContract ExecutionJsonError :=
  let? locator := locator_deserialize (transport_contract_locator t) in
  let? launch_policy := launch_policy_deserialize (transport_contract_launch_policy t) in
  Ok (target_contract_new (transport_contract_target_id t) (transport_contract_kind t) locator launch_policy).

Definition resolution_deserialize (t : ResolutionTransport) : result ExecutionResolutionEvidence ExecutionJsonError :=
  let? locator := locator_deserialize (transport_resolution_locator t) in
  custom (resolution_new (transport_resolution_target_id t) locator (transport_resolution_digests t)).

(** [parse_bounded_slice], for a reader and a decoder of one document type. *)
Definition parse_bounded_slice {T IoError} (from_slice : bytes → result T ExecutionJsonError) (bs : bytes) (maximum : Z) :
    result T (ExecutionContractParseError ExecutionJsonError IoError) :=
  do? reject (maximum <? len bs) (Parse_DocumentTooLarge maximum) in
  map_err Parse_Json (from_slice bs).

(** The limit plus one fits [usize] and [u64] at every call. *)
Definition parse_bounded_reader {T IoError} (from_slice : bytes → result T ExecutionJsonError) (reader : Reader IoError)
    (maximum : Z) : result T (ExecutionContractParseError ExecutionJsonError IoError) :=
  let? sentinel_limit := ok_or (checked_add usize_max maximum 1) (Parse_DocumentTooLarge maximum) in
  let? bs := map_err Parse_Read (take_to_end sentinel_limit reader) in
  parse_bounded_slice from_slice bs maximum.

Definition read_contract (bs : bytes) : result ExecutionTargetContract ExecutionJsonError :=
  let? t := contract_from_slice bs in contract_deserialize t.
Definition read_resolution (bs : bytes) : result ExecutionResolutionEvidence ExecutionJsonError :=
  let? t := resolution_from_slice bs in resolution_deserialize t.

Definition contract_from_json_slice {IoError} (bs : bytes) :
    result ExecutionTargetContract (ExecutionContractParseError ExecutionJsonError IoError) :=
  parse_bounded_slice read_contract bs MAX_EXECUTION_TARGET_DOCUMENT_BYTES.
Definition contract_from_json_reader {IoError} (reader : Reader IoError) :
    result ExecutionTargetContract (ExecutionContractParseError ExecutionJsonError IoError) :=
  parse_bounded_reader read_contract reader MAX_EXECUTION_TARGET_DOCUMENT_BYTES.
Definition contract_document_digest (self : ExecutionTargetContract) : result ExecutionContractDigest ExecutionJsonError :=
  let? bs := contract_to_vec self in Ok (sha256 bs).

Definition resolution_from_json_slice {IoError} (bs : bytes) :
    result ExecutionResolutionEvidence (ExecutionContractParseError ExecutionJsonError IoError) :=
  parse_bounded_slice read_resolution bs MAX_EXECUTION_RESOLUTION_DOCUMENT_BYTES.
Definition resolution_from_json_reader {IoError} (reader : Reader IoError) :
    result ExecutionResolutionEvidence (ExecutionContractParseError ExecutionJsonError IoError) :=
  parse_bounded_reader read_resolution reader MAX_EXECUTION_RESOLUTION_DOCUMENT_BYTES.
Definition resolution_document_digest (self : ExecutionResolutionEvidence) :
    result ExecutionResolutionEvidenceDigest ExecutionJsonError :=
  let? bs := resolution_to_vec self in Ok (sha256 bs).
End Documents.

(** ** What a document promises *)

Definition argument_ok (argument : ExecutionArgument) : Prop :=
  len argument <= MAX_EXECUTION_ARGUMENT_BYTES ∧ byte_of 0 ∉ argument.
Definition resources_ok (limits : ExecutionResourceLimits) : Prop :=
  active_process_limit limits ≠ 0 ∧ process_memory_limit_bytes limits ≠ 0 ∧
  process_memory_limit_bytes limits <= job_memory_limit_bytes limits ∧ job_memory_limit_bytes limits ≠ 0.
Definition launch_policy_ok (policy : ExecutionLaunchPolicy) : Prop :=
  len (launch_policy_arguments policy) <= MAX_EXECUTION_ARGUMENTS ∧
  Forall argument_ok (launch_policy_arguments policy) ∧
  argument_bytes policy <= MAX_EXECUTION_ARGUMENT_AGGREGATE_BYTES ∧
  resources_ok (resource_limits policy).
(** What every component of an accepted path satisfies. *)
Definition component_ok (component : str) : Prop :=
  component ≠ [] ∧ component ≠ lit "." ∧ component ≠ lit ".." ∧
  ends_with_byte (chr ".") component = false ∧ ends_with_byte (chr " ") component = false ∧
  Forall (λ b, is_invalid_windows_path_character b = false) component ∧
  is_reserved_windows_component component = false.

(** A bounded path below the package. *)
Definition package_path_ok (path : str) : Prop :=
  path ≠ [] ∧ len path <= MAX_EXECUTION_PACKAGE_PATH_BYTES ∧
  len (split (chr "/") path) <= MAX_EXECUTION_PACKAGE_PATH_COMPONENTS ∧ Forall component_ok (split (chr "/") path).
Definition locator_ok (locator : ExecutionArtifactLocator) : Prop :=
  ∀ path, locator_package_path locator = Some path → validate_package_path path = Ok tt ∧ package_path_ok path.
Definition contract_ok (contract : ExecutionTargetContract) : Prop :=
  locator_ok (contract_artifact_locator contract) ∧ launch_policy_ok (contract_launch_policy contract).
Definition resolution_ok (resolution : ExecutionResolutionEvidence) : Prop :=
  locator_ok (resolution_artifact_locator resolution) ∧
  ∀ digest, locator_managed_digest (resolution_artifact_locator resolution) = Some digest →
    digest = resolved_executable_digest (resolution_digests resolution).

Lemma execution_argument_new_Ok value argument : execution_argument_new value = Ok argument ↔ argument = value ∧ argument_ok value.
Proof.
  unfold execution_argument_new, argument_ok. split.
  - intros H. inv_ok. inv_guards.
    match goal with H : contains_byte _ _ = false |- _ => apply contains_byte_false in H end. by split_and!.
  - intros (-> & Hl & Hn). rewrite (proj2 (contains_byte_false _ _) Hn).
    by destruct (Z.ltb_spec MAX_EXECUTION_ARGUMENT_BYTES (len value)); [lia|].
Qed.

Lemma sum_argument_bytes_Ok arguments aggregate total :
  0 <= aggregate <= MAX_EXECUTION_ARGUMENT_AGGREGATE_BYTES →
  sum_argument_bytes arguments aggregate = Ok total ↔
    total = aggregate + foldr Z.add 0 (map len arguments) ∧ total <= MAX_EXECUTION_ARGUMENT_AGGREGATE_BYTES.
Proof.
  assert (Hs : ∀ l : list ExecutionArgument, 0 <= foldr Z.add 0 (map len l)).
  { induction l as [|x l IH]; cbn; [done|]. pose proof (len_nonneg x). lia. }
  revert aggregate. induction arguments as [|argument arguments IH]; intros aggregate Ha; cbn [sum_argument_bytes map foldr].
  - rewrite Z.add_0_r. split; [intros [= <-]; lia|by intros [-> _]].
  - pose proof (len_nonneg argument). pose proof (Hs arguments). unfold checked_add.
    unfold MAX_EXECUTION_ARGUMENT_AGGREGATE_BYTES in *.
    destruct (Z.leb_spec (aggregate + len argument) usize_max) as [Hle|Hgt]; cbn [ok_or result_bind].
    2: { split; [done|]. unfold usize_max, u64_max in *. lia. }
    destruct (Z.ltb_spec (16 * 1024) (aggregate + len argument)); cbn [reject result_bind].
    { split; [done|lia]. }
    rewrite IH by lia. by rewrite Z.add_assoc.
Qed.

Lemma resource_limits_new_Ok a p j limits :
  0 <= a → 0 <= p → 0 <= j →
  resource_limits_new a p j = Ok limits ↔ limits = mkResourceLimits a p j ∧ resources_ok limits.
Proof.
  intros Ha Hp Hj. unfold resource_limits_new, resources_ok. split.
  - intros H. inv_ok. inv_guards. cbn. split_and!; lia || done.
  - intros (-> & H1 & H2 & H3 & H4). cbn in *.
    destruct (Z.eqb_spec a 0), (Z.eqb_spec p 0), (Z.eqb_spec j 0); try lia. cbn [orb reject result_bind].
    by destruct (Z.ltb_spec j p); [lia|].
Qed.

(** ** A package path has one spelling *)

(** How Windows reads a relative path, as documented: both slashes separate,
    empty components and [.] are skipped, [..] leaves a directory, and a component
    loses its trailing dots and spaces. *)
Definition windows_component (resolved : list str) (component : str) : list str :=
  if bool_decide (component = []) || bool_decide (component = lit ".") then resolved
  else if bool_decide (component = lit "..") then take (length resolved - 1) resolved
  else resolved ++ [trim_end_spaces_dots component].
Definition windows_components (path : str) : list str :=
  foldl windows_component [] (split (chr "/") (map (λ b, if bool_decide (b = chr "\") then chr "/" else b) path)).

Lemma split_inj sep s t : split sep s = split sep t → s = t.
Proof.
  revert t. induction s as [|b s IH]; intros [|c t]; cbn; [done|..].
  - case_bool_decide; [|by destruct (split sep t)]. intros [= He]. symmetry in He. by apply split_nonempty in He.
  - case_bool_decide; [|by destruct (split sep s)]. intros [= He]. by apply split_nonempty in He.
  - pose proof (split_nonempty sep s). pose proof (split_nonempty sep t).
    destruct (split sep s) as [|x xs] eqn:Es, (split sep t) as [|y ys] eqn:Et; try done.
    repeat case_bool_decide; subst; intros [= ]; subst; try done.
    + f_equal. by apply IH.
    + f_equal. by apply IH.
Qed.

Lemma validate_components_Ok components count total :
  0 <= count → count + len components <= usize_max →
  validate_components components count = Ok total ↔ total = count + len components ∧ Forall component_ok components.
Proof.
  revert count. induction components as [|component components IH]; intros count Hc Hm; cbn [validate_components].
  - rewrite len_nil, Z.add_0_r. split; [by intros [= <-]|by intros [-> _]].
  - rewrite len_cons in *. pose proof (len_nonneg components). unfold checked_add.
    destruct (Z.leb_spec (count + 1) usize_max); [|lia]. cbn [ok_or result_bind].
    assert (Hg : bool_decide (component = []) || bool_decide (component = lit ".") || bool_decide (component = lit "..") ||
                (ends_with_byte (chr ".") component || ends_with_byte (chr " ") component) ||
                existsb is_invalid_windows_path_character component || is_reserved_windows_component component = false ↔
              component_ok component).
    { unfold component_ok. rewrite !orb_false_iff, !bool_decide_eq_false.
      assert (He : existsb is_invalid_windows_path_character component = false ↔
        Forall (λ b, is_invalid_windows_path_character b = false) component).
      { clear. induction component as [|b component IHc]; cbn; [by split|]. by rewrite Forall_cons, orb_false_iff, IHc. }
      rewrite He. tauto. }
    destruct (_ || is_reserved_windows_component component); cbn [reject result_bind].
    + split; [done|]. intros (_ & Hf%Forall_inv). by apply Hg in Hf.
    + rewrite IH, Forall_cons by lia. rewrite <-Hg. split; intros [-> Hf]; [|destruct Hf as [_ Hf]]; (split; [lia|done]).
Qed.

Lemma len_split sep s : len (split sep s) <= len s + 1.
Proof.
  induction s as [|b s IH]; [done|]. cbn [split]. rewrite len_cons.
  case_bool_decide; [rewrite len_cons; lia|]. destruct (split sep s); rewrite ?len_cons in *; rewrite ?len_nil in *; lia.
Qed.

Lemma validate_package_path_Ok path :
  validate_package_path path = Ok tt → package_path_ok path.
Proof.
  unfold validate_package_path, package_path_ok. intros H. inv_ok. inv_guards. pose proof (len_split (chr "/") path).
  match goal with H : validate_components _ _ = Ok _ |- _ => apply validate_components_Ok in H as [-> Hf] end;
    [|done|unfold MAX_EXECUTION_PACKAGE_PATH_BYTES, usize_max, u64_max in *; lia].
  split_and!; try done; lia.
Qed.

Lemma trim_end_kept component :
  ends_with_byte (chr ".") component = false → ends_with_byte (chr " ") component = false →
  trim_end_spaces_dots component = component.
Proof.
  unfold trim_end_spaces_dots, ends_with_byte. destruct component as [|x component _] using rev_ind; [done|].
  rewrite last_snoc, rev_app_distr. cbn [rev app]. intros H1 H2. cbn [drop_spaces_dots].
  rewrite bool_decide_eq_false in H1, H2. rewrite !bool_decide_eq_false_2 by done. cbn [orb].
  rewrite <-(rev_involutive component) at 2. by cbn [rev].
Qed.

Lemma windows_components_fold components resolved :
  Forall component_ok components → foldl windows_component resolved components = resolved ++ components.
Proof.
  revert resolved. induction components as [|c components IH]; intros resolved Hf; [by rewrite app_nil_r|].
  apply Forall_cons in Hf as [(H1 & H2 & H3 & H4 & H5 & _) Hf]. cbn [foldl]. rewrite IH by done.
  unfold windows_component. rewrite !bool_decide_eq_false_2 by done. cbn [orb].
  by rewrite trim_end_kept, <-app_assoc.
Qed.

Lemma package_path_components path :
  validate_package_path path = Ok tt → windows_components path = split (chr "/") path.
Proof.
  intros (_ & _ & _ & Hf)%validate_package_path_Ok. unfold windows_components.
  assert (Hb : map (λ b, if bool_decide (b = chr "\") then chr "/" else b) path = path).
  { assert (Hin : chr "\" ∉ path).
    { intros [Hs|(seg & Hseg & Hb)]%(elem_of_split (chr "/")); [done|]. rewrite Forall_forall in Hf.
      apply Hf in Hseg as (_ & _ & _ & _ & _ & Hc & _). rewrite Forall_forall in Hc. apply Hc in Hb. by vm_compute in Hb. }
    clear Hf. induction path as [|b path IH]; [done|]. apply not_elem_of_cons in Hin as [Hne Hin]. cbn [map].
    rewrite bool_decide_eq_false_2 by done. by rewrite IH. }
  rewrite Hb. by apply windows_components_fold.
Qed.

(** two accepted package paths that Windows reads as the same components are the
    same text, and what it reads stays below the package: no component leaves its
    directory, ends in a dot or a space, holds a character Windows gives a meaning,
    or names a device. *)
Theorem package_path_canonical path path' :
  validate_package_path path = Ok tt → validate_package_path path' = Ok tt →
  (windows_components path = windows_components path' → path = path') ∧
  windows_components path = split (chr "/") path ∧ Forall component_ok (windows_components path).
Proof.
  intros H H'. pose proof (validate_package_path_Ok _ H) as (_ & _ & _ & Hf).
  rewrite (package_path_components _ H), (package_path_components _ H'). split_and!; [apply split_inj|done..].
Qed.

Lemma package_path_canonical_witness :
  validate_package_path (lit "resources/helper.exe") = Ok tt ∧
  windows_components (lit "resources/helper.exe") = [lit "resources"; lit "helper.exe"] ∧
  Forall component_ok (windows_components (lit "resources/helper.exe")) ∧
  validate_package_path (lit "resources/com1.exe") = Err Target_InvalidPackagePath ∧
  validate_package_path (lit "a/../b") = Err Target_InvalidPackagePath.
Proof.
  split; [by vm_compute|]. split; [by vm_compute|].
  split; [|split; by vm_compute].
  apply (package_path_canonical (lit "resources/helper.exe") (lit "resources/helper.exe")); by vm_compute.
Defined.

(** ** Documents that were read *)

Section Typed.
Context `{EJ : ExecutionJson}.

Lemma visit_arguments_Ok elements arguments out :
  len arguments <= MAX_EXECUTION_ARGUMENTS → Forall argument_ok arguments →
  visit_arguments elements arguments = Ok out →
  out = arguments ++ elements ∧ len out <= MAX_EXECUTION_ARGUMENTS ∧ Forall argument_ok out.
Proof.
  revert arguments. induction elements as [|value elements IH]; intros arguments Hl Ha; cbn [visit_arguments].
  - intros [= <-]. by rewrite app_nil_r.
  - intros H. inv_ok. inv_guards.
    match goal with H : execution_argument_new _ = Ok _ |- _ => apply execution_argument_new_Ok in H as [-> Hv] end.
    apply IH in H; [by rewrite <-app_assoc in H| |].
    + rewrite len_app, len_cons, len_nil. lia.
    + apply Forall_app. split; [done|]. by apply Forall_singleton.
Qed.

Lemma locator_deserialize_ok t locator : locator_deserialize t = Ok locator → locator_ok locator.
Proof.
  unfold locator_deserialize, locator_package_snapshot, execution_package_path_new. destruct t as [path|digest]; intros H; inv_ok.
  - intros path' [= <-]. match goal with H : validate_package_path _ = Ok ?u |- _ => destruct u end.
    split; [done|by apply validate_package_path_Ok].
  - by intros path'.
Qed.

Lemma launch_policy_deserialize_ok t policy :
  launch_policy_deserialize t = Ok policy →
  launch_policy_ok policy ∧ launch_policy_arguments policy = transport_arguments t.
Proof.
  unfold launch_policy_deserialize, launch_policy_new, deserialize_execution_arguments. intros H. inv_ok.
  match goal with H : visit_arguments _ _ = Ok _ |- _ => apply visit_arguments_Ok in H as (-> & Hlen & Hargs); [|done|constructor] end.
  match goal with H : sum_argument_bytes _ _ = Ok _ |- _ => apply sum_argument_bytes_Ok in H as [-> Hsum]; [|done] end.
  split; [|done]. split_and!; cbn [launch_policy_arguments resource_limits]; [done|done|unfold argument_bytes; cbn [launch_policy_arguments]; lia|].
  match goal with H : resource_limits_deserialize ?l = Ok _ |- _ => destruct l as [[a p] j]; unfold resource_limits_deserialize in H end.
  inv_ok. match goal with H : resource_limits_new _ _ _ = Ok _ |- _ => unfold resource_limits_new in H end.
  inv_ok. inv_guards. split_and!; cbn; lia || done.
Qed.

Lemma contract_deserialize_ok t contract : contract_deserialize t = Ok contract → contract_ok contract.
Proof.
  unfold contract_deserialize. intros H. inv_ok. split; cbn; [by eapply locator_deserialize_ok|].
  by eapply launch_policy_deserialize_ok.
Qed.

Lemma resolution_deserialize_ok t resolution : resolution_deserialize t = Ok resolution → resolution_ok resolution.
Proof.
  unfold resolution_deserialize, resolution_new. intros H. inv_ok. split; cbn; [by eapply locator_deserialize_ok|].
  intros digest Hd. rewrite Hd in *. by inv_guards.
Qed.

Lemma parse_bounded_slice_Ok {T IoError} (from : bytes → result T ExecutionJsonError) bs maximum v :
  parse_bounded_slice (IoError := IoError) from bs maximum = Ok v ↔ len bs <= maximum ∧ from bs = Ok v.
Proof.
  unfold parse_bounded_slice. destruct (Z.ltb_spec maximum (len bs)); cbn [reject result_bind]; [split; [done|lia]|].
  rewrite map_err_Ok. naive_solver.
Qed.

(** Reading through a bounded reader is reading the bytes it delivers, however many
    follow: a document above the limit is refused by both. *)
Lemma parse_bounded_reader_spec {T IoError} (from : bytes → result T ExecutionJsonError) (reader : Reader IoError) maximum :
  0 <= maximum < usize_max →
  parse_bounded_reader from reader maximum =
    if len (reader_bytes reader) <=? maximum
    then match reader_end reader with Some e => Err (Parse_Read e) | None => parse_bounded_slice from (reader_bytes reader) maximum end
    else Err (Parse_DocumentTooLarge maximum).
Proof.
  intros Hm. unfold parse_bounded_reader, checked_add, take_to_end. destruct (Z.leb_spec (maximum + 1) usize_max); [|lia].
  cbn [ok_or result_bind]. destruct (Z.leb_spec (maximum + 1) (len (reader_bytes reader))); cbn [map_err result_bind].
  - destruct (Z.leb_spec (len (reader_bytes reader)) maximum); [lia|]. unfold parse_bounded_slice, len in *.
    rewrite length_take. destruct (Z.ltb_spec maximum (Z.of_nat (Z.to_nat (maximum + 1) `min` length (reader_bytes reader)))); [done|lia].
  - destruct (Z.leb_spec (len (reader_bytes reader)) maximum); [|lia]. by destruct (reader_end reader).
Qed.

(** C34: the two documents of an execution target are read alike from a slice and
    from a reader, only below their size limits, and a contract that was read is
    bounded and canonical: at most sixty-four arguments without NUL, 8 KiB each and
    16 KiB together, coherent nonzero limits, a canonical package path; and resolution
    evidence never names a managed artifact other than the executable it resolved. *)
Theorem execution_documents_typed {IoError} (reader : Reader IoError) contract resolution :
  (contract_from_json_reader reader = Ok contract ↔
     reader_end reader = None ∧ contract_from_json_slice (IoError := IoError) (reader_bytes reader) = Ok contract) ∧
  (contract_from_json_slice (IoError := IoError) (reader_bytes reader) = Ok contract →
     contract_ok contract ∧ len (reader_bytes reader) <= MAX_EXECUTION_TARGET_DOCUMENT_BYTES) ∧
  (resolution_from_json_reader reader = Ok resolution ↔
     reader_end reader = None ∧ resolution_from_json_slice (IoError := IoError) (reader_bytes reader) = Ok resolution) ∧
  (resolution_from_json_slice (IoError := IoError) (reader_bytes reader) = Ok resolution →
     resolution_ok resolution ∧ len (reader_bytes reader) <= MAX_EXECUTION_RESOLUTION_DOCUMENT_BYTES).
Proof.
  assert (Hr : ∀ T (from : bytes → result T ExecutionJsonError) maximum v, 0 <= maximum < usize_max →
    parse_bounded_reader from reader maximum = Ok v ↔
      reader_end reader = None ∧ parse_bounded_slice (IoError := IoError) from (reader_bytes reader) maximum = Ok v).
  { intros T from maximum v Hm. rewrite parse_bounded_reader_spec, parse_bounded_slice_Ok by done.
    destruct (Z.leb_spec (len (reader_bytes reader)) maximum); [|split; [done|lia]].
    destruct (reader_end reader); [naive_solver|]. rewrite parse_bounded_slice_Ok. naive_solver. }
  split_and!; [by apply Hr| |by apply Hr|].
  - intros [Hl H]%parse_bounded_slice_Ok. unfold read_contract in H. inv_ok. split; [|done]. by eapply contract_deserialize_ok.
  - intros [Hl H]%parse_bounded_slice_Ok. unfold read_resolution in H. inv_ok. split; [|done]. by eapply resolution_deserialize_ok.
Qed.
End Typed.
