(* ===== verification/Scenario.v ===== *)
(** * Scenario: disposable certification scenarios and their reports

    Models [crates/weregopher-domain/src/certification_scenario.rs]: the state roots,
    arguments and limits of one disposable scenario, the observations of a successful
    run, and the bounded reading of both documents.

    An identifier is the text it wraps and a digest of any role its 32 bytes.  A
    [BTreeSet] is a [gset] iterated in the derived order.  [serde_json] is the parameter
    [ScenarioJson]: its readers deliver what the derived transports offer to the code,
    and the error it makes of a message is [scenario_json_custom]. *)

From S2P Require Import Prelude Text Wire Evidence ControlPlane Certify Runner Attest Overlay Execution ExecutionTarget.

Definition ScenarioId : Type := str.
Definition ScenarioStateRootId : Type := str.
Definition DisposableCertificationScenarioDigest : Type := Sha256Digest.
Definition DisposableCertificationScenarioReportDigest : Type := Sha256Digest.

Definition MAX_DISPOSABLE_CERTIFICATION_SCENARIO_BYTES : Z := 64 * 1024.
Definition MAX_DISPOSABLE_SCENARIO_STATE_ROOTS : Z := 16.
Definition MAX_DISPOSABLE_SCENARIO_ARGUMENTS : Z := 32.
Definition MAX_DISPOSABLE_SCENARIO_SUCCESS_FILE_BYTES : Z := 1024 * 1024.
Definition MAX_DISPOSABLE_SCENARIO_TIMEOUT_MILLIS : Z := 10 * 60 * 1000.
Definition MAX_DISPOSABLE_SCENARIO_POLL_MILLIS : Z := 60 * 1000.
Definition MAX_DISPOSABLE_SCENARIO_SHUTDOWN_MILLIS : Z := 60 * 1000.
Definition MAX_DISPOSABLE_SCENARIO_LAUNCH_ARGUMENTS : Z := 64.
Definition MAX_DISPOSABLE_SCENARIO_COMMAND_LINE_UTF16_UNITS : Z := 32767.
Definition MAX_DISPOSABLE_CERTIFICATION_SCENARIO_REPORT_BYTES : Z := 128 * 1024.

Inductive DisposableCertificationScenarioFormatVersion : Type := Scenario_V1.
Inductive DisposableCertificationScenarioReportFormatVersion : Type := ScenarioReport_V1.

Inductive DisposableCertificationScenarioError : Type :=
| Scenario_InvalidStateRootCount | Scenario_DuplicateStateRoot | Scenario_InvalidSuccessFileCount
| Scenario_InvalidSuccessFileLimits | Scenario_InvalidDurationLimits | Scenario_InvalidLaunchLimits
| Scenario_InvalidArgumentCount | Scenario_ArgumentBytesExceeded | Scenario_UnknownStateRoot
| Scenario_DuplicateStateRootArgument | Scenario_UnboundStateRoot | Scenario_UnsupportedExecutionPosture.

Inductive DisposableCertificationScenarioReportError : Type :=
| Report_InvalidPackageFileCount | Report_InvalidPackageByteCount | Report_InvalidSelectedTimeout
| Report_MissingSuccessFile | Report_SuccessFileMismatch.

(** [DisposableCertificationScenarioDocumentError] and
    [DisposableCertificationScenarioReportDocumentError], over their contract errors. *)
Inductive ScenarioDocumentError (ContractError JsonError IoError : Type) : Type :=
| ScenarioDocument_DocumentTooLarge
| ScenarioDocument_Read (source : IoError)
| ScenarioDocument_InvalidDocument (source : JsonError)
| ScenarioDocument_InvalidContract (source : ContractError).
Arguments ScenarioDocument_DocumentTooLarge {_ _ _}. Arguments ScenarioDocument_Read {_ _ _}.
Arguments ScenarioDocument_InvalidDocument {_ _ _}. Arguments ScenarioDocument_InvalidContract {_ _ _}.

(** ** State roots and arguments *)

Inductive DisposableScenarioStateRootKind : Type :=
| Root_EmptyDirectory
| Root_SuccessFile (sha256 : Sha256Digest) (size_bytes maximum_bytes : Z).

Record DisposableScenarioStateRoot : Type := mkStateRoot {
  root_id : ScenarioStateRootId;
  root_definition : DisposableScenarioStateRootKind
}.

#[global] Instance DisposableScenarioStateRootKind_eq_dec : EqDecision DisposableScenarioStateRootKind.
Proof. solve_decision. Defined.
#[global] Instance DisposableScenarioStateRoot_eq_dec : EqDecision DisposableScenarioStateRoot.
Proof. solve_decision. Defined.
#[global] Instance DisposableScenarioStateRoot_countable : Countable DisposableScenarioStateRoot.
Proof.
  refine (inj_countable'
    (λ r, (root_id r : str, match root_definition r with Root_EmptyDirectory => None | Root_SuccessFile d s m => Some (d : str, s, m) end))
    (λ p, mkStateRoot p.1 (match p.2 with None => Root_EmptyDirectory | Some (d, s, m) => Root_SuccessFile d s m end)) _).
  by intros [i []].
Defined.

(** The derived order: by identifier, then by definition. *)
Definition root_kind_le (a b : DisposableScenarioStateRootKind) : bool :=
  match a, b with
  | Root_EmptyDirectory, _ => true
  | Root_SuccessFile _ _ _, Root_EmptyDirectory => false
  | Root_SuccessFile d s m, Root_SuccessFile d' s' m' =>
    str_lt d d' || (bool_decide (d = d') && ((s <? s') || ((s =? s') && (m <=? m'))))
  end.
Definition state_root_le (a b : DisposableScenarioStateRoot) : bool :=
  str_lt (root_id a) (root_id b) || (bool_decide (root_id a = root_id b) && root_kind_le (root_definition a) (root_definition b)).
Definition state_root_iter (s : gset DisposableScenarioStateRoot) : list DisposableScenarioStateRoot :=
  merge_sort (λ a b, Is_true (state_root_le a b)) (elements s).

Definition validate_success_file (size_bytes maximum_bytes : Z) : result unit DisposableCertificationScenarioError :=
  reject ((maximum_bytes =? 0) || (MAX_DISPOSABLE_SCENARIO_SUCCESS_FILE_BYTES <? maximum_bytes) ||
          (maximum_bytes <? size_bytes)) Scenario_InvalidSuccessFileLimits.

Definition root_empty_directory (id : ScenarioStateRootId) : DisposableScenarioStateRoot := mkStateRoot id Root_EmptyDirectory.
Definition root_success_file (id : ScenarioStateRootId) (sha256 : Sha256Digest) (size_bytes maximum_bytes : Z) :
    result DisposableScenarioStateRoot DisposableCertificationScenarioError :=
  do? validate_success_file size_bytes maximum_bytes in
  Ok (mkStateRoot id (Root_SuccessFile sha256 size_bytes maximum_bytes)).

Inductive DisposableScenarioArgument : Type :=
| Argument_Literal (value : ExecutionArgument)
| Argument_StatePath (state_root : ScenarioStateRootId) (prefix : ExecutionArgument).

Definition argument_state_root (self : DisposableScenarioArgument) : option ScenarioStateRootId :=
  match self with Argument_Literal _ => None | Argument_StatePath state_root _ => Some state_root end.
Definition value_or_prefix (self : DisposableScenarioArgument) : ExecutionArgument :=
  match self with Argument_Literal value => value | Argument_StatePath _ prefix => prefix end.

(** ** Limits *)

Record DisposableScenarioLimits : Type := mkScenarioLimits {
  maximum_timeout_millis : Z;
  poll_interval_millis : Z;
  shutdown_timeout_millis : Z;
  maximum_arguments : Z;
  maximum_argument_utf16_units : Z;
  maximum_command_line_utf16_units : Z;
  scenario_resource_limits : ExecutionResourceLimits
}.

Definition scenario_limits_from_millis (maximum_timeout poll_interval shutdown_timeout arguments argument_units command_line_units : Z)
    (resource_limits : ExecutionResourceLimits) : result DisposableScenarioLimits DisposableCertificationScenarioError :=
  do? reject ((maximum_timeout =? 0) || (MAX_DISPOSABLE_SCENARIO_TIMEOUT_MILLIS <? maximum_timeout) ||
              (poll_interval =? 0) || (MAX_DISPOSABLE_SCENARIO_POLL_MILLIS <? poll_interval) ||
              (maximum_timeout <? poll_interval) ||
              (shutdown_timeout =? 0) || (MAX_DISPOSABLE_SCENARIO_SHUTDOWN_MILLIS <? shutdown_timeout))
    Scenario_InvalidDurationLimits in
  do? reject ((arguments =? 0) || (MAX_DISPOSABLE_SCENARIO_LAUNCH_ARGUMENTS <? arguments) ||
              (argument_units =? 0) || (command_line_units <=? argument_units) ||
              (command_line_units =? 0) || (MAX_DISPOSABLE_SCENARIO_COMMAND_LINE_UTF16_UNITS <? command_line_units))
    Scenario_InvalidLaunchLimits in
  Ok (mkScenarioLimits maximum_timeout poll_interval shutdown_timeout arguments argument_units command_line_units resource_limits).

(** [exact_millis] and [exact_report_millis], which differ in their error. *)
Definition exact_millis {E} (error : E) (duration : Duration) : result Z E :=
  do? reject (u64_max <? as_millis duration) error in
  do? reject ((as_millis duration =? 0) || negb (duration =? from_millis (as_millis duration))) error in
  Ok (as_millis duration).

Definition scenario_limits_new (maximum_timeout poll_interval shutdown_timeout : Duration)
    (arguments argument_units command_line_units : Z) (resource_limits : ExecutionResourceLimits) :
    result DisposableScenarioLimits DisposableCertificationScenarioError :=
  let? maximum_timeout := exact_millis Scenario_InvalidDurationLimits maximum_timeout in
  let? poll_interval := exact_millis Scenario_InvalidDurationLimits poll_interval in
  let? shutdown_timeout := exact_millis Scenario_InvalidDurationLimits shutdown_timeout in
  scenario_limits_from_millis maximum_timeout poll_interval shutdown_timeout arguments argument_units command_line_units resource_limits.

Record DisposableScenarioExecution : Type := mkScenarioExecution {
  scenario_state_mode : ExecutionStateMode;
  scenario_security_posture : EffectiveSecurityPosture;
  scenario_dependency_policy : ExecutionDependencyPolicy;
  scenario_limits : DisposableScenarioLimits
}.
Definition scenario_execution_new (limits : DisposableScenarioLimits) : DisposableScenarioExecution :=
  mkScenarioExecution StateMode_Disposable Effective_VendorEquivalentFullTrust Dependency_VendorDefaultAmbient limits.

(** ** The scenario *)

Record DisposableCertificationScenario : Type := mkScenario {
  scenario_format_version : DisposableCertificationScenarioFormatVersion;
  scenario_id : ScenarioId;
  scenario_application_family : ApplicationFamilyId;
  scenario_adapter_id : AdapterId;
  scenario_workflow : FeatureId;
  scenario_executable : ExecutionPackagePath;
  scenario_state_roots : gset DisposableScenarioStateRoot;
  scenario_arguments : list DisposableScenarioArgument;
  scenario_execution : DisposableScenarioExecution
}.

(** The loop over the state roots of [new]. *)
Fixpoint collect_state_roots (state_roots : list DisposableScenarioStateRoot) (roots : gset DisposableScenarioStateRoot)
    (root_ids : gset ScenarioStateRootId) (success_files : Z) :
    result (gset DisposableScenarioStateRoot * gset ScenarioStateRootId * Z) DisposableCertificationScenarioError :=
  match state_roots with
  | [] => Ok (roots, root_ids, success_files)
  | root :: state_roots =>
    do? reject (bool_decide (root_id root ∈ root_ids)) Scenario_DuplicateStateRoot in
    let? success_files :=
      match root_definition root with
      | Root_SuccessFile _ size_bytes maximum_bytes =>
        do? validate_success_file size_bytes maximum_bytes in
        ok_or (checked_add usize_max success_files 1) Scenario_InvalidSuccessFileCount
      | Root_EmptyDirectory => Ok success_files
      end in
    collect_state_roots state_roots ({[root]} ∪ roots) ({[root_id root]} ∪ root_ids) success_files
  end.

(** The loop over the arguments of [new]: the roots they bind. *)
Fixpoint bind_arguments (arguments : list DisposableScenarioArgument) (root_ids bound_roots : gset ScenarioStateRootId)
    (aggregate_argument_bytes : Z) : result (gset ScenarioStateRootId) DisposableCertificationScenarioError :=
  match arguments with
  | [] => Ok bound_roots
  | argument :: arguments =>
    let? aggregate := ok_or (checked_add usize_max aggregate_argument_bytes (len (value_or_prefix argument)))
      Scenario_ArgumentBytesExceeded in
    do? reject (MAX_EXECUTION_ARGUMENT_AGGREGATE_BYTES <? aggregate) Scenario_ArgumentBytesExceeded in
    match argument_state_root argument with
    | Some root =>
      do? reject (bool_decide (root ∉ root_ids)) Scenario_UnknownStateRoot in
      do? reject (bool_decide (root ∈ bound_roots)) Scenario_DuplicateStateRootArgument in
      bind_arguments arguments root_ids ({[root]} ∪ bound_roots) aggregate
    | None => bind_arguments arguments root_ids bound_roots aggregate
    end
  end.

Definition scenario_new (id : ScenarioId) (application_family : ApplicationFamilyId) (adapter_id : AdapterId)
    (workflow : FeatureId) (executable : ExecutionPackagePath) (state_roots : list DisposableScenarioStateRoot)
    (arguments : list DisposableScenarioArgument) (limits : DisposableScenarioLimits) :
    result DisposableCertificationScenario DisposableCertificationScenarioError :=
  do? reject (bool_decide (state_roots = []) || (MAX_DISPOSABLE_SCENARIO_STATE_ROOTS <? len state_roots))
    Scenario_InvalidStateRootCount in
  let? (roots, root_ids, success_files) := collect_state_roots state_roots ∅ ∅ 0 in
  do? reject (negb (success_files =? 1)) Scenario_InvalidSuccessFileCount in
  do? reject (bool_decide (arguments = []) || (MAX_DISPOSABLE_SCENARIO_ARGUMENTS <? len arguments) ||
              (maximum_arguments limits <? len arguments)) Scenario_InvalidArgumentCount in
  let? bound_roots := bind_arguments arguments root_ids ∅ 0 in
  do? reject (bool_decide (bound_roots ≠ root_ids)) Scenario_UnboundStateRoot in
  Ok (mkScenario Scenario_V1 id application_family adapter_id workflow executable roots arguments (scenario_execution_new limits)).

Definition scenario_maximum_timeout (self : DisposableCertificationScenario) : Duration :=
  from_millis (maximum_timeout_millis (scenario_limits (scenario_execution self))).
Definition scenario_poll_interval (self : DisposableCertificationScenario) : Duration :=
  from_millis (poll_interval_millis (scenario_limits (scenario_execution self))).
Definition scenario_shutdown_timeout (self : DisposableCertificationScenario) : Duration :=
  from_millis (shutdown_timeout_millis (scenario_limits (scenario_execution self))).

Definition is_success_file (root : DisposableScenarioStateRoot) : bool :=
  match root_definition root with Root_SuccessFile _ _ _ => true | Root_EmptyDirectory => false end.
Definition success_file_root (self : DisposableCertificationScenario) : option DisposableScenarioStateRoot :=
  snd <$> list_find (λ root, Is_true (is_success_file root)) (state_root_iter (scenario_state_roots self)).

(** ** Reports *)

Record DisposableScenarioPackageObservation : Type := mkPackageObservation {
  observed_package_tree_merkle : Sha256Digest;
  observed_executable_sha256 : Sha256Digest;
  observed_package_files : Z;
  observed_package_bytes : Z
}.

Definition package_observation_from_wire (package_tree_merkle executable_sha256 : Sha256Digest)
    (package_files package_bytes : Z) : result DisposableScenarioPackageObservation DisposableCertificationScenarioReportError :=
  do? reject (package_files =? 0) Report_InvalidPackageFileCount in
  do? reject (package_bytes =? 0) Report_InvalidPackageByteCount in
  Ok (mkPackageObservation package_tree_merkle executable_sha256 package_files package_bytes).
Definition package_observation_new (package_tree_merkle executable_sha256 : Sha256Digest)
    (package_files package_bytes : Z) : result DisposableScenarioPackageObservation DisposableCertificationScenarioReportError :=
  do? reject (u32_max <? package_files) Report_InvalidPackageFileCount in
  package_observation_from_wire package_tree_merkle executable_sha256 package_files package_bytes.

Record DisposableScenarioSuccessFileObservation : Type := mkSuccessFileObservation {
  observed_state_root : ScenarioStateRootId;
  observed_sha256 : Sha256Digest;
  observed_size_bytes : Z
}.

Inductive DisposableScenarioPassedCheck : Type := Scenario_Passed.

Record DisposableScenarioExecutionObservation : Type := mkExecutionObservation {
  selected_timeout_millis : Z;
  observed_job_membership : DisposableScenarioPassedCheck;
  observed_job_tree_termination : DisposableScenarioPassedCheck;
  observed_primary_process_exit : DisposableScenarioPassedCheck;
  observed_snapshot_revalidation : DisposableScenarioPassedCheck;
  observed_success_file : DisposableScenarioSuccessFileObservation
}.

Record DisposableCertificationScenarioReport : Type := mkScenarioReport {
  report_format_version : DisposableCertificationScenarioReportFormatVersion;
  report_scenario : DisposableCertificationScenario;
  report_package : DisposableScenarioPackageObservation;
  report_execution : DisposableScenarioExecutionObservation
}.

Definition report_from_observations (scenario : DisposableCertificationScenario) (package : DisposableScenarioPackageObservation)
    (execution : DisposableScenarioExecutionObservation) :
    result DisposableCertificationScenarioReport DisposableCertificationScenarioReportError :=
  do? reject ((selected_timeout_millis execution =? 0) ||
              (maximum_timeout_millis (scenario_limits (scenario_execution scenario)) <? selected_timeout_millis execution))
    Report_InvalidSelectedTimeout in
  let? success_root := ok_or (success_file_root scenario) Report_MissingSuccessFile in
  match root_definition success_root with
  | Root_SuccessFile sha256 size_bytes maximum_bytes =>
    let observed := observed_success_file execution in
    do? reject (bool_decide (observed_state_root observed ≠ root_id success_root) || bool_decide (observed_sha256 observed ≠ sha256) ||
                negb (observed_size_bytes observed =? size_bytes) || (maximum_bytes <? observed_size_bytes observed))
      Report_SuccessFileMismatch in
    Ok (mkScenarioReport ScenarioReport_V1 scenario package execution)
  | Root_EmptyDirectory => Err Report_MissingSuccessFile
  end.

Definition report_successful `{HS : Sha256} (scenario : DisposableCertificationScenario)
    (package : DisposableScenarioPackageObservation) (selected_timeout : Duration) (success_file_bytes : bytes) :
    result DisposableCertificationScenarioReport DisposableCertificationScenarioReportError :=
  let? selected_timeout_millis := exact_millis Report_InvalidSelectedTimeout selected_timeout in
  let? success_root := ok_or (success_file_root scenario) Report_MissingSuccessFile in
  do? reject (u64_max <? len success_file_bytes) Report_SuccessFileMismatch in
  report_from_observations scenario package
    (mkExecutionObservation selected_timeout_millis Scenario_Passed Scenario_Passed Scenario_Passed Scenario_Passed
       (mkSuccessFileObservation (root_id success_root) (sha256 success_file_bytes) (len success_file_bytes))).

(** ** Documents *)

(** The unchecked structures, with what their own checked members still are. *)
Inductive ScenarioArgumentTransport : Type :=
| ArgumentTransport_Literal (value : str)
| ArgumentTransport_StatePath (state_root : ScenarioStateRootId) (prefix : str).
Record ScenarioLimitsTransport : Type := mkScenarioLimitsTransport {
  transport_maximum_timeout_millis : Z;
  transport_poll_interval_millis : Z;
  transport_shutdown_timeout_millis : Z;
  transport_maximum_arguments : Z;
  transport_maximum_argument_utf16_units : Z;
  transport_maximum_command_line_utf16_units : Z;
  transport_scenario_resource_limits : Z * Z * Z
}.
Record ScenarioTransport : Type := mkScenarioTransport {
  transport_scenario_id : ScenarioId;
  transport_scenario_family : ApplicationFamilyId;
  transport_scenario_adapter_id : AdapterId;
  transport_scenario_workflow : FeatureId;
  transport_scenario_executable : str;
  transport_scenario_state_roots : list DisposableScenarioStateRoot;
  transport_scenario_arguments : list ScenarioArgumentTransport;
  transport_scenario_state_mode : ExecutionStateMode;
  transport_scenario_posture : EffectiveSecurityPosture;
  transport_scenario_dependency_policy : ExecutionDependencyPolicy;
  transport_scenario_limits : ScenarioLimitsTransport
}.
Record ScenarioReportTransport : Type := mkScenarioReportTransport {
  transport_report_scenario : ScenarioTransport;
  transport_report_package : Sha256Digest * Sha256Digest * Z * Z;
  transport_report_execution : DisposableScenarioExecutionObservation
}.

Class ScenarioJson : Type := {
  ScenarioJsonError : Type;
  scenario_json_custom : ScenarioJsonError;
  scenario_from_slice : bytes → result ScenarioTransport ScenarioJsonError;
  scenario_to_vec : DisposableCertificationScenario → result bytes ScenarioJsonError;
  scenario_report_from_slice : bytes → result ScenarioReportTransport ScenarioJsonError;
  scenario_report_to_vec : DisposableCertificationScenarioReport → result bytes ScenarioJsonError
}.

Section Documents.
Context `{SJ : ScenarioJson} `{HS : Sha256}.

Definition scenario_custom {A E} (m : result A E) : result A ScenarioJsonError := map_err (λ _, scenario_json_custom) m.

Definition scenario_argument_deserialize (t : ScenarioArgumentTransport) : result DisposableScenarioArgument ScenarioJsonError :=
  match t with
  | ArgumentTransport_Literal value =>
    let? value := scenario_custom (execution_argument_new value) in Ok (Argument_Literal value)
  | ArgumentTransport_StatePath state_root prefix =>
    let? prefix := scenario_custom (execution_argument_new prefix) in Ok (Argument_StatePath state_root prefix)
  end.
Fixpoint scenario_arguments_deserialize (l : list ScenarioArgumentTransport) : result (list DisposableScenarioArgument) ScenarioJsonError :=
  match l with
  | [] => Ok []
  | t :: l =>
    let? argument := scenario_argument_deserialize t in
    let? arguments := scenario_arguments_deserialize l in
    Ok (argument :: arguments)
  end.

Definition scenario_limits_deserialize (t : ScenarioLimitsTransport) : result DisposableScenarioLimits ScenarioJsonError :=
  let '(active, process_memory, job_memory) := transport_scenario_resource_limits t in
  let? resource_limits := scenario_custom (resource_limits_new active process_memory job_memory) in
  scenario_custom (scenario_limits_from_millis (transport_maximum_timeout_millis t) (transport_poll_interval_millis t)
    (transport_shutdown_timeout_millis t) (transport_maximum_arguments t) (transport_maximum_argument_utf16_units t)
    (transport_maximum_command_line_utf16_units t) resource_limits).

Definition scenario_execution_deserialize (t : ScenarioTransport) : result DisposableScenarioExecution ScenarioJsonError :=
  let? limits := scenario_limits_deserialize (transport_scenario_limits t) in
  do? reject (bool_decide (transport_scenario_state_mode t ≠ StateMode_Disposable) ||
              bool_decide (transport_scenario_posture t ≠ Effective_VendorEquivalentFullTrust) ||
              bool_decide (transport_scenario_dependency_policy t ≠ Dependency_VendorDefaultAmbient)) scenario_json_custom in
  Ok (scenario_execution_new limits).

(** The derived [Deserialize] of [UncheckedDisposableCertificationScenario]: its checked members. *)
Definition unchecked_scenario_deserialize (t : ScenarioTransport) :
    result (ExecutionPackagePath * list DisposableScenarioArgument * DisposableScenarioExecution) ScenarioJsonError :=
  let? executable := scenario_custom (execution_package_path_new (transport_scenario_executable t)) in
  let? arguments := scenario_arguments_deserialize (transport_scenario_arguments t) in
  let? execution := scenario_execution_deserialize t in
  Ok (executable, arguments, execution).

Definition scenario_check (t : ScenarioTransport)
    (unchecked : ExecutionPackagePath * list DisposableScenarioArgument * DisposableScenarioExecution) :
    result DisposableCertificationScenario DisposableCertificationScenarioError :=
  let '(executable, arguments, execution) := unchecked in
  scenario_new (transport_scenario_id t) (transport_scenario_family t) (transport_scenario_adapter_id t)
    (transport_scenario_workflow t) executable (transport_scenario_state_roots t) arguments (scenario_limits execution).

Definition scenario_deserialize (t : ScenarioTransport) : result DisposableCertificationScenario ScenarioJsonError :=
  let? unchecked := unchecked_scenario_deserialize t in scenario_custom (scenario_check t unchecked).

Definition scenario_from_json_slice {IoError} (bs : bytes) : result DisposableCertificationScenario
    (ScenarioDocumentError DisposableCertificationScenarioError ScenarioJsonError IoError) :=
  do? reject (MAX_DISPOSABLE_CERTIFICATION_SCENARIO_BYTES <? len bs) ScenarioDocument_DocumentTooLarge in
  let? t := map_err ScenarioDocument_InvalidDocument (scenario_from_slice bs) in
  let? unchecked := map_err ScenarioDocument_InvalidDocument (unchecked_scenario_deserialize t) in
  map_err ScenarioDocument_InvalidContract (scenario_check t unchecked).
Definition scenario_from_json_reader {IoError} (reader : Reader IoError) : result DisposableCertificationScenario
    (ScenarioDocumentError DisposableCertificationScenarioError ScenarioJsonError IoError) :=
  let? bs := map_err ScenarioDocument_Read (take_to_end (MAX_DISPOSABLE_CERTIFICATION_SCENARIO_BYTES + 1) reader) in
  scenario_from_json_slice bs.

Definition scenario_canonical_json_bytes (self : DisposableCertificationScenario) : result bytes ScenarioJsonError :=
  scenario_to_vec self.
Definition scenario_canonical_document_digest (self : DisposableCertificationScenario) :
    result DisposableCertificationScenarioDigest ScenarioJsonError :=
  let? bs := scenario_to_vec self in Ok (sha256 bs).

Definition package_observation_deserialize (t : Sha256Digest * Sha256Digest * Z * Z) :
    result DisposableScenarioPackageObservation ScenarioJsonError :=
  let '(package_tree_merkle, executable_sha256, package_files, package_bytes) := t in
  scenario_custom (package_observation_from_wire package_tree_merkle executable_sha256 package_files package_bytes).

(** The derived [Deserialize] of [UncheckedDisposableCertificationScenarioReport]. *)
Definition unchecked_report_deserialize (t : ScenarioReportTransport) : result
    (DisposableCertificationScenario * DisposableScenarioPackageObservation * DisposableScenarioExecutionObservation) ScenarioJsonError :=
  let? scenario := scenario_deserialize (transport_report_scenario t) in
  let? package := package_observation_deserialize (transport_report_package t) in
  Ok (scenario, package, transport_report_execution t).

Definition scenario_report_deserialize (t : ScenarioReportTransport) :
    result DisposableCertificationScenarioReport ScenarioJsonError :=
  let? (scenario, package, execution) := unchecked_report_deserialize t in
  scenario_custom (report_from_observations scenario package execution).

Definition scenario_report_from_json_slice {IoError} (bs : bytes) : result DisposableCertificationScenarioReport
    (ScenarioDocumentError DisposableCertificationScenarioReportError ScenarioJsonError IoError) :=
  do? reject (MAX_DISPOSABLE_CERTIFICATION_SCENARIO_REPORT_BYTES <? len bs) ScenarioDocument_DocumentTooLarge in
  let? t := map_err ScenarioDocument_InvalidDocument (scenario_report_from_slice bs) in
  let? (scenario, package, execution) := map_err ScenarioDocument_InvalidDocument (unchecked_report_deserialize t) in
  map_err ScenarioDocument_InvalidContract (report_from_observations scenario package execution).
Definition scenario_report_from_json_reader {IoError} (reader : Reader IoError) : result DisposableCertificationScenarioReport
    (ScenarioDocumentError DisposableCertificationScenarioReportError ScenarioJsonError IoError) :=
  let? bs := map_err ScenarioDocument_Read (take_to_end (MAX_DISPOSABLE_CERTIFICATION_SCENARIO_REPORT_BYTES + 1) reader) in
  scenario_report_from_json_slice bs.

Definition scenario_report_canonical_document_digest (self : DisposableCertificationScenarioReport) :
    result DisposableCertificationScenarioReportDigest ScenarioJsonError :=
  let? bs := scenario_report_to_vec self in Ok (sha256 bs).
End Documents.
