(* ===== verification/ScenarioLaws.v ===== *)
(** * ScenarioLaws: what a disposable scenario guarantees

    A scenario is accepted exactly when its roots are few, distinct and bound once each
    by its arguments, with one success file; a report is made exactly when the bytes it
    observed are that file; and both documents read back as what was written. *)

From S2P Require Import Prelude Text Wire Evidence ControlPlane Certify Runner Attest Overlay Execution ExecutionTarget.
From S2P Require Import Scenario.

(** ** The loops of the constructor *)

Definition file_limits_ok (root : DisposableScenarioStateRoot) : Prop :=
  match root_definition root with
  | Root_SuccessFile _ size_bytes maximum_bytes =>
    maximum_bytes ≠ 0 ∧ maximum_bytes <= MAX_DISPOSABLE_SCENARIO_SUCCESS_FILE_BYTES ∧ size_bytes <= maximum_bytes
  | Root_EmptyDirectory => True
  end.
Definition success_files (roots : list DisposableScenarioStateRoot) : list DisposableScenarioStateRoot :=
  filter (λ root, Is_true (is_success_file root)) roots.
Definition bound_state_roots (arguments : list DisposableScenarioArgument) : list ScenarioStateRootId :=
  omap argument_state_root arguments.
Definition scenario_argument_bytes (arguments : list DisposableScenarioArgument) : Z :=
  sum_lengths (map (λ a, len (value_or_prefix a)) arguments).

Lemma validate_success_file_Ok size_bytes maximum_bytes :
  validate_success_file size_bytes maximum_bytes = Ok tt ↔
    maximum_bytes ≠ 0 ∧ maximum_bytes <= MAX_DISPOSABLE_SCENARIO_SUCCESS_FILE_BYTES ∧ size_bytes <= maximum_bytes.
Proof.
  unfold validate_success_file. rewrite reject_Ok, !orb_false_iff, Z.eqb_neq, !Z.ltb_ge. tauto.
Qed.

Lemma collect_state_roots_Ok l roots ids n out :
  0 <= n → n + len l <= usize_max →
  collect_state_roots l roots ids n = Ok out ↔
    NoDup (root_id <$> l) ∧ (∀ root, root ∈ l → root_id root ∉ ids) ∧ Forall file_limits_ok l ∧
    out = (list_to_set l ∪ roots, list_to_set (root_id <$> l) ∪ ids, n + len (success_files l)).
Proof.
  revert roots ids n. induction l as [|root l IH]; intros roots ids n Hn Hl.
  - cbn. rewrite !union_empty_l_L, Z.add_0_r. split; [intros [= <-]|intros (_ & _ & _ & ->); done].
    split_and!; [constructor|by intros ? ?%elem_of_nil|constructor|done].
  - cbn [collect_state_roots]. rewrite len_cons in Hl. pose proof (len_nonneg l). rewrite fmap_cons, NoDup_cons, Forall_cons.
    assert (Hfile : ∀ m, (match root_definition root with
      | Root_SuccessFile _ size_bytes maximum_bytes =>
        do? validate_success_file size_bytes maximum_bytes in
        ok_or (checked_add usize_max n 1) Scenario_InvalidSuccessFileCount
      | Root_EmptyDirectory => Ok n
      end = Ok m) ↔ file_limits_ok root ∧ m = n + len (success_files [root])).
    { intros m. unfold file_limits_ok, success_files, is_success_file. rewrite filter_cons. unfold is_success_file.
      destruct (root_definition root) as [|d s k]; cbn.
      - rewrite Z.add_0_r. naive_solver.
      - rewrite result_bind_Ok. setoid_rewrite ok_or_Ok. setoid_rewrite checked_add_Some. split.
        + intros ([] & Hv & -> & _). by apply validate_success_file_Ok in Hv.
        + intros [Hv ->]. exists tt. split; [by apply validate_success_file_Ok|]. split; [done|]. lia. }
    rewrite result_bind_Ok. setoid_rewrite result_bind_Ok. setoid_rewrite Hfile.
    assert (Hlen : len (success_files (root :: l)) = len (success_files [root]) + len (success_files l)).
    { unfold success_files. change (root :: l) with ([root] ++ l). by rewrite filter_app, len_app. }
    assert (H1 : 0 <= len (success_files [root]) <= 1).
    { unfold success_files. rewrite filter_cons. destruct (decide _); cbn; unfold len; cbn; lia. }
    rewrite Hlen, Z.add_assoc. split.
    + intros ([] & Hfresh & m & [Hok ->] & Hrest). apply reject_Ok, bool_decide_eq_false in Hfresh.
      apply IH in Hrest as (Hnd & Hdis & Hall & ->); [|lia..]. split_and!; [|done| |done|done|].
      * intros (r & Hid & Hr)%list_elem_of_fmap. apply (Hdis r Hr). set_solver.
      * intros r [->|Hr]%elem_of_cons; [done|]. specialize (Hdis r Hr). set_solver.
      * f_equal. f_equal; set_solver.
    + intros ([Hnin Hnd] & Hdis & [Hok Hall] & ->). exists tt. split; [apply reject_Ok, bool_decide_eq_false, Hdis; by left|].
      eexists. split; [done|]. apply IH; [lia..|]. split_and!; [done| |done|].
      * intros r Hr. rewrite not_elem_of_union, not_elem_of_singleton. split; [|apply Hdis; by right].
        intros He. apply Hnin. rewrite <-He. by apply list_elem_of_fmap_2.
      * f_equal. f_equal; set_solver.
Qed.

Lemma bind_arguments_Ok l ids bound aggregate out :
  0 <= aggregate <= MAX_EXECUTION_ARGUMENT_AGGREGATE_BYTES →
  bind_arguments l ids bound aggregate = Ok out ↔
    aggregate + scenario_argument_bytes l <= MAX_EXECUTION_ARGUMENT_AGGREGATE_BYTES ∧
    NoDup (bound_state_roots l) ∧ (∀ root, root ∈ bound_state_roots l → root ∈ ids ∧ root ∉ bound) ∧
    out = list_to_set (bound_state_roots l) ∪ bound.
Proof.
  revert bound aggregate. induction l as [|a l IH]; intros bound aggregate Ha; cbn [bind_arguments].
  - cbn. rewrite union_empty_l_L. split; [intros [= <-]|intros (_ & _ & _ & ->); done].
    split_and!; [cbn; lia|constructor|by intros ? ?%elem_of_nil|done].
  - assert (Hs : 0 <= scenario_argument_bytes l).
    { unfold scenario_argument_bytes. apply sum_lengths_nonneg, Forall_map, Forall_true. intros x. apply len_nonneg. }
    pose proof (len_nonneg (value_or_prefix a)).
    change (scenario_argument_bytes (a :: l)) with (len (value_or_prefix a) + scenario_argument_bytes l).
    rewrite result_bind_Ok. setoid_rewrite ok_or_Ok. setoid_rewrite checked_add_Some. setoid_rewrite result_bind_Ok.
    setoid_rewrite reject_Ok. setoid_rewrite Z.ltb_ge. unfold bound_state_roots. cbn [omap list_omap].
    fold (bound_state_roots l). destruct (argument_state_root a) as [root|].
    + rewrite NoDup_cons. split.
      * intros (agg & [-> _] & [] & Hmax & H'). inv_ok. inv_guards.
        match goal with H : bool_decide (root ∉ ids) = false |- _ => idtac | _ => idtac end.
        apply IH in H' as (Hsum & Hnd & Hin & ->); [|lia].
        assert (root ∈ ids) by (by apply dec_stable).
        split_and!; [lia| |done| |set_solver].
        { intros Hr. destruct (Hin root Hr). set_solver. }
        intros r [->|Hr]%elem_of_cons; [done|]. destruct (Hin r Hr). set_solver.
      * intros (Hsum & [Hnin Hnd] & Hin & ->). destruct (Hin root) as [Hr1 Hr2]; [by left|].
        exists (aggregate + len (value_or_prefix a)). split; [split; [done|unfold MAX_EXECUTION_ARGUMENT_AGGREGATE_BYTES, usize_max, u64_max in *; lia]|].
        exists tt. split; [lia|]. rewrite !bool_decide_eq_false_2 by tauto. cbn [reject result_bind].
        apply IH; [lia|]. split_and!; [lia|done| |set_solver]. intros r Hr. destruct (Hin r) as [? ?]; [by right|]. set_solver.
    + split.
      * intros (agg & [-> _] & [] & Hmax & H'). apply IH in H' as (Hsum & Hnd & Hin & ->); [|lia]. split_and!; [lia|done..].
      * intros (Hsum & Hnd & Hin & ->). exists (aggregate + len (value_or_prefix a)).
        split; [split; [done|unfold MAX_EXECUTION_ARGUMENT_AGGREGATE_BYTES, usize_max, u64_max in *; lia]|]. exists tt. split; [lia|].
        apply IH; [lia|]. split_and!; [lia|done..].
Qed.

(** ** The constructor is exact *)

(** What the state roots and arguments of a scenario satisfy under its limits. *)
Definition scenario_parts_ok (roots : list DisposableScenarioStateRoot) (arguments : list DisposableScenarioArgument)
    (limits : DisposableScenarioLimits) : Prop :=
  1 <= len roots <= MAX_DISPOSABLE_SCENARIO_STATE_ROOTS ∧ NoDup (root_id <$> roots) ∧
  (∃ root, success_files roots = [root] ∧ file_limits_ok root) ∧
  1 <= len arguments <= Z.min MAX_DISPOSABLE_SCENARIO_ARGUMENTS (maximum_arguments limits) ∧
  scenario_argument_bytes arguments <= MAX_EXECUTION_ARGUMENT_AGGREGATE_BYTES ∧
  bound_state_roots arguments ≡ₚ root_id <$> roots.

Lemma file_limits_success roots :
  Forall file_limits_ok roots ↔ Forall file_limits_ok (success_files roots).
Proof.
  unfold success_files. induction roots as [|root roots IH]; [done|]. rewrite filter_cons.
  destruct (decide _) as [|Hn]; rewrite !Forall_cons, IH; [done|].
  unfold file_limits_ok at 1. unfold is_success_file in Hn. destruct (root_definition root); [naive_solver|by destruct Hn].
Qed.

Lemma len_one {A} (l : list A) : len l = 1 ↔ ∃ x, l = [x].
Proof. unfold len. destruct l as [|x [|y l]]; cbn; (split; [intros H; try lia; by eexists|intros [z Hz]; by inversion Hz]). Qed.
Lemma list_nonempty_len {A} `{EqDecision A} (l : list A) : bool_decide (l = []) = false ↔ 1 <= len l.
Proof. rewrite bool_decide_eq_false. unfold len. destruct l; cbn; split; try done; lia. Qed.

Lemma permutation_of_sets {A} `{Countable A} (l k : list A) :
  NoDup l → NoDup k → (list_to_set l : gset A) = list_to_set k ↔ l ≡ₚ k.
Proof.
  intros Hl Hk. split.
  - intros He. apply NoDup_Permutation; [done..|]. intros x. rewrite <-!(elem_of_list_to_set (C := gset A)). by rewrite He.
  - by intros ->.
Qed.

#[global] Instance DisposableScenarioArgument_eq_dec : EqDecision DisposableScenarioArgument.
Proof. solve_decision. Defined.

Lemma scenario_new_Ok id family adapter workflow executable roots arguments limits scenario :
  scenario_new id family adapter workflow executable roots arguments limits = Ok scenario ↔
    scenario_parts_ok roots arguments limits ∧
    scenario = mkScenario Scenario_V1 id family adapter workflow executable (list_to_set roots) arguments (scenario_execution_new limits).
Proof.
  unfold scenario_new, scenario_parts_ok.
  assert (Hu : ∀ X : gset DisposableScenarioStateRoot, X ∪ ∅ = X) by (intros; apply union_empty_r_L).
  assert (Hv : ∀ X : gset ScenarioStateRootId, X ∪ ∅ = X) by (intros; apply union_empty_r_L). split.
  - intros H. inv_ok. inv_guards. destruct x0 as [[rs ids] n].
    match goal with H : bool_decide (roots = []) = false |- _ => idtac | H : roots ≠ [] |- _ => idtac end.
    match goal with H : collect_state_roots _ _ _ _ = Ok _ |- _ =>
      apply collect_state_roots_Ok in H as (Hnd & _ & Hall & He); [|done|unfold MAX_DISPOSABLE_SCENARIO_STATE_ROOTS, usize_max, u64_max in *; lia] end.
    rewrite Hu, Hv, Z.add_0_l in He. injection He as -> -> ->.
    inv_ok. inv_guards.
    match goal with H : bind_arguments _ _ _ _ = Ok _ |- _ => apply bind_arguments_Ok in H as (Hsum & Hbnd & _ & ->); [|done] end.
    rewrite Hv in *. split; [|done].
    match goal with H : len (success_files _) = 1 |- _ => apply len_one in H as [root Hroot] end.
    split_and!; try done; try lia.
    + apply list_nonempty_len, bool_decide_eq_false. done.
    + exists root. split; [done|]. by rewrite file_limits_success, Hroot, Forall_singleton in Hall.
    + apply list_nonempty_len, bool_decide_eq_false. done.
    + by apply permutation_of_sets.
  - intros ((Hl & Hnd & (root & Hroot & Hfile) & Hal & Hsum & Hperm) & ->).
    rewrite (proj2 (list_nonempty_len roots)) by lia. rewrite (proj2 (Z.ltb_ge _ (len roots))) by lia. cbn [orb reject result_bind].
    assert (Hc : collect_state_roots roots ∅ ∅ 0 = Ok (list_to_set roots, list_to_set (root_id <$> roots), 1)).
    { apply collect_state_roots_Ok; [done|unfold MAX_DISPOSABLE_SCENARIO_STATE_ROOTS, usize_max, u64_max in *; lia|].
      split_and!; [done|intros r _; apply not_elem_of_empty|rewrite file_limits_success, Hroot; by apply Forall_singleton|].
      by rewrite Hu, Hv, Hroot. }
    rewrite Hc. cbn [result_bind negb Z.eqb Pos.eqb reject].
    rewrite (proj2 (list_nonempty_len arguments)) by lia. rewrite !(proj2 (Z.ltb_ge _ (len arguments))) by lia. cbn [orb reject result_bind].
    assert (Hb : bind_arguments arguments (list_to_set (root_id <$> roots)) ∅ 0 = Ok (list_to_set (root_id <$> roots))).
    { apply bind_arguments_Ok; [done|]. rewrite Hv. split_and!; [lia|by rewrite Hperm| |].
      - intros r. rewrite Hperm. intros Hr. split; [by apply elem_of_list_to_set|apply not_elem_of_empty].
      - symmetry. apply permutation_of_sets; [by rewrite Hperm|done..]. }
    rewrite Hb. cbn [result_bind]. by rewrite bool_decide_eq_false_2 by (intros Hn; by apply Hn).
Qed.

(** ** A scenario as its document presents it *)

Definition scenario_limits_ok (limits : DisposableScenarioLimits) : Prop :=
  maximum_timeout_millis limits ≠ 0 ∧ maximum_timeout_millis limits <= MAX_DISPOSABLE_SCENARIO_TIMEOUT_MILLIS ∧
  poll_interval_millis limits ≠ 0 ∧ poll_interval_millis limits <= MAX_DISPOSABLE_SCENARIO_POLL_MILLIS ∧
  poll_interval_millis limits <= maximum_timeout_millis limits ∧
  shutdown_timeout_millis limits ≠ 0 ∧ shutdown_timeout_millis limits <= MAX_DISPOSABLE_SCENARIO_SHUTDOWN_MILLIS ∧
  maximum_arguments limits ≠ 0 ∧ maximum_arguments limits <= MAX_DISPOSABLE_SCENARIO_LAUNCH_ARGUMENTS ∧
  maximum_argument_utf16_units limits ≠ 0 ∧
  maximum_argument_utf16_units limits < maximum_command_line_utf16_units limits ∧
  maximum_command_line_utf16_units limits ≠ 0 ∧
  maximum_command_line_utf16_units limits <= MAX_DISPOSABLE_SCENARIO_COMMAND_LINE_UTF16_UNITS ∧
  resources_ok (scenario_resource_limits limits).

(** The invariant of every scenario that was constructed or read. *)
Definition scenario_ok (self : DisposableCertificationScenario) : Prop :=
  let limits := scenario_limits (scenario_execution self) in
  scenario_parts_ok (state_root_iter (scenario_state_roots self)) (scenario_arguments self) limits ∧
  scenario_execution self = scenario_execution_new limits ∧ scenario_limits_ok limits ∧
  Forall (λ a, argument_ok (value_or_prefix a)) (scenario_arguments self) ∧
  validate_package_path (scenario_executable self) = Ok tt.

Lemma success_files_perm l k : l ≡ₚ k → success_files l ≡ₚ success_files k.
Proof. unfold success_files. by intros ->. Qed.
Lemma scenario_parts_perm l k arguments limits :
  l ≡ₚ k → scenario_parts_ok l arguments limits → scenario_parts_ok k arguments limits.
Proof.
  intros Hp (Hl & Hnd & (root & Hroot & Hfile) & Ha & Hs & Hb).
  assert (len l = len k) as Hlen by (unfold len; by rewrite Hp). rewrite Hlen in Hl.
  rewrite (fmap_Permutation root_id l k Hp) in Hnd, Hb. split; [exact Hl|]. split; [exact Hnd|]. split; [|done].
  exists root. split; [|done]. apply success_files_perm in Hp. rewrite Hroot in Hp. by apply Permutation_singleton_l in Hp.
Qed.
Lemma state_root_iter_perm l : NoDup l → state_root_iter (list_to_set l) ≡ₚ l.
Proof. intros H. unfold state_root_iter. by rewrite merge_sort_Permutation, elements_list_to_set. Qed.
Lemma state_root_iter_set s : list_to_set (state_root_iter s) = s.
Proof. apply set_eq. intros x. unfold state_root_iter. by rewrite elem_of_list_to_set, merge_sort_Permutation, elem_of_elements. Qed.

(** The success file of a scenario is the only one of its roots. *)
Lemma success_file_root_unique self root :
  success_files (state_root_iter (scenario_state_roots self)) = [root] → success_file_root self = Some root.
Proof.
  unfold success_file_root, success_files. generalize (state_root_iter (scenario_state_roots self)).
  induction l as [|r l IH]; [done|]. rewrite filter_cons. cbn [list_find].
  destruct (decide (Is_true (is_success_file r))); cbn; [by intros [= ->]|]. intros H%IH.
  destruct (list_find _ l) as [[i y]|]; [|done]. exact H.
Qed.
Lemma success_file_root_ok self :
  scenario_ok self → ∃ root sha256 size_bytes maximum_bytes,
    success_file_root self = Some root ∧ root ∈ scenario_state_roots self ∧
    root_definition root = Root_SuccessFile sha256 size_bytes maximum_bytes ∧
    size_bytes <= maximum_bytes <= MAX_DISPOSABLE_SCENARIO_SUCCESS_FILE_BYTES.
Proof.
  intros ((_ & _ & (root & Hroot & Hfile) & _) & _).
  assert (Hin : root ∈ success_files (state_root_iter (scenario_state_roots self))) by (rewrite Hroot; by left).
  unfold success_files in Hin. apply list_elem_of_filter in Hin as [Hs Hin].
  rewrite <-(elem_of_list_to_set (C := gset _)), state_root_iter_set in Hin.
  unfold is_success_file in Hs. unfold file_limits_ok in Hfile.
  destruct (root_definition root) as [|d s m] eqn:E; [done|]. exists root, d, s, m.
  split_and!; [by apply success_file_root_unique|done|done|tauto..].
Qed.

Lemma scenario_limits_from_millis_Ok t p s a u c r limits :
  resources_ok r →
  scenario_limits_from_millis t p s a u c r = Ok limits ↔ limits = mkScenarioLimits t p s a u c r ∧ scenario_limits_ok limits.
Proof.
  intros Hr. unfold scenario_limits_from_millis, scenario_limits_ok. split.
  - intros H. inv_ok. inv_guards.
    repeat match goal with H : (_ <=? _) = false |- _ => apply Z.leb_gt in H end. cbn. split; [done|]. split_and!; done || lia.
  - intros [-> H]. cbn in H. destruct H as (? & ? & ? & ? & ? & ? & ? & ? & ? & ? & ? & ? & ? & _).
    rewrite !(proj2 (Z.eqb_neq _ 0)), !(proj2 (Z.ltb_ge _ _)), (proj2 (Z.leb_gt _ _)) by lia. done.
Qed.

Lemma scenario_new_ok id family adapter workflow executable roots arguments limits scenario :
  scenario_limits_ok limits → Forall (λ a, argument_ok (value_or_prefix a)) arguments → validate_package_path executable = Ok tt →
  scenario_new id family adapter workflow executable roots arguments limits = Ok scenario → scenario_ok scenario.
Proof.
  intros Hl Ha Hp [Hparts ->]%scenario_new_Ok. split_and!; [|done..]. cbn.
  eapply scenario_parts_perm; [|exact Hparts]. symmetry. apply state_root_iter_perm.
  destruct Hparts as (_ & Hnd & _). by apply NoDup_fmap_1 in Hnd.
Qed.

(** ** Documents *)

Lemma argument_new_Ok' {E} (custom : E) value argument :
  map_err (λ _, custom) (execution_argument_new value) = Ok argument ↔ argument = value ∧ argument_ok value.
Proof. by rewrite map_err_Ok, execution_argument_new_Ok. Qed.

Section Documents.
Context `{SJ : ScenarioJson} `{HS : Sha256}.

(** The members [serde] writes for a scenario, in the shape it reads them back. *)
Definition scenario_argument_transport (a : DisposableScenarioArgument) : ScenarioArgumentTransport :=
  match a with
  | Argument_Literal value => ArgumentTransport_Literal value
  | Argument_StatePath state_root prefix => ArgumentTransport_StatePath state_root prefix
  end.
Definition scenario_limits_transport (limits : DisposableScenarioLimits) : ScenarioLimitsTransport :=
  let r := scenario_resource_limits limits in
  mkScenarioLimitsTransport (maximum_timeout_millis limits) (poll_interval_millis limits) (shutdown_timeout_millis limits)
    (maximum_arguments limits) (maximum_argument_utf16_units limits) (maximum_command_line_utf16_units limits)
    (active_process_limit r, process_memory_limit_bytes r, job_memory_limit_bytes r).
Definition scenario_transport (self : DisposableCertificationScenario) : ScenarioTransport :=
  let execution := scenario_execution self in
  mkScenarioTransport (scenario_id self) (scenario_application_family self) (scenario_adapter_id self) (scenario_workflow self)
    (scenario_executable self) (state_root_iter (scenario_state_roots self)) (map scenario_argument_transport (scenario_arguments self))
    (scenario_state_mode execution) (scenario_security_posture execution) (scenario_dependency_policy execution)
    (scenario_limits_transport (scenario_limits execution)).
Definition scenario_report_transport (self : DisposableCertificationScenarioReport) : ScenarioReportTransport :=
  let package := report_package self in
  mkScenarioReportTransport (scenario_transport (report_scenario self))
    (observed_package_tree_merkle package, observed_executable_sha256 package, observed_package_files package, observed_package_bytes package)
    (report_execution self).

(** What the documents rely on of [serde_json]: it reads what it writes. *)
Record lawful_scenario_json : Prop := {
  scenario_json_reads : ∀ self bs, scenario_to_vec self = Ok bs → scenario_from_slice bs = Ok (scenario_transport self);
  scenario_report_json_reads : ∀ self bs,
    scenario_report_to_vec self = Ok bs → scenario_report_from_slice bs = Ok (scenario_report_transport self)
}.

Lemma scenario_arguments_deserialize_Ok l arguments :
  scenario_arguments_deserialize l = Ok arguments ↔
    l = map scenario_argument_transport arguments ∧ Forall (λ a, argument_ok (value_or_prefix a)) arguments.
Proof.
  revert arguments. induction l as [|t l IH]; intros arguments; cbn [scenario_arguments_deserialize].
  - split; [by intros [= <-]|]. intros [H _]. by destruct arguments.
  - rewrite result_bind_Ok. setoid_rewrite result_bind_Ok.
    assert (Ht : ∀ a, scenario_argument_deserialize t = Ok a ↔ t = scenario_argument_transport a ∧ argument_ok (value_or_prefix a)).
    { intros a. unfold scenario_argument_deserialize, scenario_custom.
      destruct t as [v|r v]; rewrite result_bind_Ok; setoid_rewrite argument_new_Ok'; destruct a as [w|r' w]; cbn; naive_solver. }
    setoid_rewrite Ht. setoid_rewrite IH. split.
    + intros (a & [-> Ha] & arguments' & [-> Hl] & [= <-]). by split; [|constructor].
    + intros [He Hf]. destruct arguments as [|a arguments]; [done|]. apply Forall_cons in Hf as [Ha Hf].
      injection He as -> ->. by exists a; split; [|exists arguments].
Qed.

Lemma scenario_execution_deserialize_ok t execution :
  scenario_execution_deserialize t = Ok execution →
  execution = scenario_execution_new (scenario_limits execution) ∧ scenario_limits_ok (scenario_limits execution).
Proof.
  unfold scenario_execution_deserialize, scenario_limits_deserialize, scenario_custom.
  destruct (transport_scenario_resource_limits _) as [[a p] j]. intros H. inv_ok. split; [done|]. cbn.
  match goal with H : resource_limits_new _ _ _ = Ok ?r |- _ =>
    assert (resources_ok r) by (unfold resource_limits_new in H; inv_ok; inv_guards; split_and!; cbn; lia || done) end.
  match goal with H : scenario_limits_from_millis _ _ _ _ _ _ _ = Ok _ |- _ => by apply scenario_limits_from_millis_Ok in H as [-> ?] end.
Qed.

Lemma unchecked_scenario_ok t unchecked scenario :
  unchecked_scenario_deserialize t = Ok unchecked → scenario_check t unchecked = Ok scenario → scenario_ok scenario.
Proof.
  unfold unchecked_scenario_deserialize, scenario_custom, execution_package_path_new. intros H Hc. inv_ok.
  match goal with H : scenario_arguments_deserialize _ = Ok _ |- _ => apply scenario_arguments_deserialize_Ok in H as [_ Hargs] end.
  match goal with H : scenario_execution_deserialize _ = Ok _ |- _ => apply scenario_execution_deserialize_ok in H as [_ Hlim] end.
  unfold scenario_check in Hc. by eapply scenario_new_ok.
Qed.

(** What a document presents of a valid scenario is read as that scenario. *)
Lemma scenario_transport_reads self :
  scenario_ok self → ∃ unchecked,
    unchecked_scenario_deserialize (scenario_transport self) = Ok unchecked ∧
    scenario_check (scenario_transport self) unchecked = Ok self.
Proof.
  intros (Hparts & Hexec & Hlim & Hargs & Hpath).
  assert (Hl : scenario_limits_deserialize (scenario_limits_transport (scenario_limits (scenario_execution self))) =
    Ok (scenario_limits (scenario_execution self))).
  { pose proof Hlim as (_ & _ & _ & _ & _ & _ & _ & _ & _ & _ & _ & _ & _ & Hres).
    unfold scenario_limits_deserialize, scenario_limits_transport, scenario_custom. cbn [transport_scenario_resource_limits].
    destruct (scenario_limits (scenario_execution self)) as [? ? ? ? ? ? r]. cbn in *.
    assert (Hr : resource_limits_new (active_process_limit r) (process_memory_limit_bytes r) (job_memory_limit_bytes r) = Ok r).
    { destruct Hres as (? & ? & ? & ?). unfold resource_limits_new.
      rewrite !(proj2 (Z.eqb_neq _ 0)), (proj2 (Z.ltb_ge _ _)) by lia. by destruct r. }
    rewrite Hr. cbn [map_err result_bind]. by apply map_err_Ok, scenario_limits_from_millis_Ok. }
  assert (He : scenario_execution_deserialize (scenario_transport self) = Ok (scenario_execution self)).
  { unfold scenario_execution_deserialize. cbn [transport_scenario_limits scenario_transport]. rewrite Hl. cbn [result_bind].
    cbn [transport_scenario_state_mode transport_scenario_posture transport_scenario_dependency_policy scenario_transport].
    rewrite Hexec. cbn. by rewrite Hexec. }
  exists (scenario_executable self, scenario_arguments self, scenario_execution self). split.
  - unfold unchecked_scenario_deserialize. cbn [transport_scenario_executable transport_scenario_arguments scenario_transport].
    unfold execution_package_path_new, scenario_custom. rewrite Hpath. cbn [result_bind map_err].
    rewrite (proj2 (scenario_arguments_deserialize_Ok _ (scenario_arguments self))) by done. cbn [result_bind]. by rewrite He.
  - unfold scenario_check. cbn [scenario_transport transport_scenario_id transport_scenario_family transport_scenario_adapter_id
      transport_scenario_workflow transport_scenario_state_roots]. apply scenario_new_Ok. split; [done|].
    rewrite state_root_iter_set, <-Hexec. by destruct self as [[] ? ? ? ? ? ? ? ?].
Qed.

Lemma scenario_from_json_slice_Ok {IoError} bs self :
  scenario_from_json_slice (IoError := IoError) bs = Ok self ↔
    len bs <= MAX_DISPOSABLE_CERTIFICATION_SCENARIO_BYTES ∧ ∃ t unchecked, scenario_from_slice bs = Ok t ∧
      unchecked_scenario_deserialize t = Ok unchecked ∧ scenario_check t unchecked = Ok self.
Proof.
  unfold scenario_from_json_slice. split.
  - intros H. inv_ok. inv_guards. eauto 10.
  - intros (Hl & t & u & Ht & Hu & Hc). rewrite (proj2 (Z.ltb_ge _ _)) by lia. cbn [reject result_bind].
    rewrite Ht. cbn [map_err result_bind]. rewrite Hu. cbn [map_err result_bind]. by rewrite Hc.
Qed.
Lemma scenario_from_json_slice_ok {IoError} bs self :
  scenario_from_json_slice (IoError := IoError) bs = Ok self → scenario_ok self.
Proof. intros (_ & t & u & _ & Hu & Hc)%scenario_from_json_slice_Ok. by eapply unchecked_scenario_ok. Qed.

(** ** Reports *)

(** What the observations of a report say about its scenario. *)
Definition observation_matches (scenario : DisposableCertificationScenario) (execution : DisposableScenarioExecutionObservation) : Prop :=
  selected_timeout_millis execution ≠ 0 ∧
  selected_timeout_millis execution <= maximum_timeout_millis (scenario_limits (scenario_execution scenario)) ∧
  ∃ root digest size_bytes maximum_bytes, success_file_root scenario = Some root ∧
    root_definition root = Root_SuccessFile digest size_bytes maximum_bytes ∧ size_bytes <= maximum_bytes ∧
    observed_success_file execution = mkSuccessFileObservation (root_id root) digest size_bytes.
Definition report_ok (self : DisposableCertificationScenarioReport) : Prop :=
  scenario_ok (report_scenario self) ∧ observation_matches (report_scenario self) (report_execution self) ∧
  observed_package_files (report_package self) ≠ 0 ∧ observed_package_bytes (report_package self) ≠ 0.

Lemma report_from_observations_Ok scenario package execution report :
  report_from_observations scenario package execution = Ok report ↔
    report = mkScenarioReport ScenarioReport_V1 scenario package execution ∧ observation_matches scenario execution.
Proof.
  unfold report_from_observations, observation_matches. split.
  - intros H. inv_ok. inv_guards. destruct (root_definition _) as [|d s m] eqn:E; [done|]. inv_ok. inv_guards. split; [done|].
    split_and!; [done|done|]. eexists _, d, s, m. split; [eassumption|]. split; [done|].
    destruct (observed_success_file execution) as [i d' s']. cbn in *. subst. done.
  - intros (-> & H0 & Hm & root & d & s & m & Hr & Hd & Hle & Ho).
    rewrite (proj2 (Z.eqb_neq _ 0)), (proj2 (Z.ltb_ge _ _)) by lia. cbn [orb reject result_bind]. rewrite Hr. cbn [ok_or result_bind].
    rewrite Hd, Ho. cbn. rewrite !bool_decide_eq_false_2 by (intros Hn; by apply Hn). rewrite Z.eqb_refl, (proj2 (Z.ltb_ge _ _)) by lia. done.
Qed.

Lemma exact_millis_Ok {E} (e : E) d n :
  0 <= d → exact_millis e d = Ok n ↔ d = from_millis n ∧ 0 < n <= u64_max.
Proof.
  intros Hd. unfold exact_millis, as_millis, from_millis. assert (HN : 0 < NANOS_PER_MILLI) by done. split.
  - intros H. inv_ok. inv_guards. pose proof (Z.div_pos d NANOS_PER_MILLI Hd HN). split; [done|lia].
  - intros [-> Hn]. rewrite Z.div_mul by lia. rewrite (proj2 (Z.ltb_ge _ _)), (proj2 (Z.eqb_neq _ 0)), Z.eqb_refl by lia. done.
Qed.

Lemma unchecked_report_deserialize_Ok t scenario package execution :
  unchecked_report_deserialize t = Ok (scenario, package, execution) →
  scenario_ok scenario ∧ observed_package_files package ≠ 0 ∧ observed_package_bytes package ≠ 0.
Proof.
  unfold unchecked_report_deserialize, scenario_deserialize, package_observation_deserialize, package_observation_from_wire, scenario_custom.
  destruct (transport_report_package t) as [[[? ?] ?] ?]. intros H. inv_ok. inv_guards. split; [by eapply unchecked_scenario_ok|done].
Qed.

Lemma scenario_report_from_json_slice_Ok {IoError} bs self :
  scenario_report_from_json_slice (IoError := IoError) bs = Ok self ↔
    len bs <= MAX_DISPOSABLE_CERTIFICATION_SCENARIO_REPORT_BYTES ∧ ∃ t, scenario_report_from_slice bs = Ok t ∧
      unchecked_report_deserialize t = Ok (report_scenario self, report_package self, report_execution self) ∧
      observation_matches (report_scenario self) (report_execution self).
Proof.
  unfold scenario_report_from_json_slice. split.
  - intros H. inv_ok. inv_guards. match goal with p : _ * _ * _ |- _ => destruct p as [[? ?] ?] end. inv_ok.
    match goal with H : report_from_observations _ _ _ = Ok _ |- _ => apply report_from_observations_Ok in H as [-> ?] end. eauto 10.
  - intros (Hl & t & Ht & Hu & Hm). rewrite (proj2 (Z.ltb_ge _ _)) by lia. cbn [reject result_bind].
    rewrite Ht. cbn [map_err result_bind]. rewrite Hu. cbn [map_err result_bind]. apply map_err_Ok, report_from_observations_Ok.
    split; [by destruct self as [[]]|done].
Qed.

(** Reading to one byte above a limit loses nothing: what follows is refused by both. *)
Lemma take_to_end_slice {T E IoError} (reader : Reader IoError) maximum (read : IoError → E)
    (from_slice : bytes → result T E) v :
  0 <= maximum → (∀ bs v, from_slice bs = Ok v → len bs <= maximum) →
  (let? bs := map_err read (take_to_end (maximum + 1) reader) in from_slice bs) = Ok v ↔
    reader_end reader = None ∧ from_slice (reader_bytes reader) = Ok v.
Proof.
  intros Hm Hf. unfold take_to_end. destruct (Z.leb_spec (maximum + 1) (len (reader_bytes reader))) as [Hle|Hgt]; cbn [map_err result_bind].
  - split; [intros H|intros [_ H]]; apply Hf in H; unfold len in *; [rewrite length_take in H|]; lia.
  - destruct (reader_end reader); cbn; naive_solver.
Qed.
End Documents.

(** C35: Scenarios and their reports are what their documents say.  A reader delivers a
    document exactly when its bytes do and it ends cleanly; what is read is within its
    size and satisfies the invariant of its type, a report moreover matching the scenario
    it contains.  Writing is not bounded: what is written of a valid scenario or report
    reads back as it when it is within the size of its document, and is refused as too
    large when it is not, as happens to a scenario whose arguments are escapes in JSON. *)
Theorem scenario_documents_faithful `{SJ : ScenarioJson} {IoError} (reader : Reader IoError) bs scenario report :
  lawful_scenario_json →
  (scenario_from_json_reader reader = Ok scenario ↔
     reader_end reader = None ∧ scenario_from_json_slice (IoError := IoError) (reader_bytes reader) = Ok scenario) ∧
  (scenario_from_json_slice (IoError := IoError) bs = Ok scenario →
     scenario_ok scenario ∧ len bs <= MAX_DISPOSABLE_CERTIFICATION_SCENARIO_BYTES) ∧
  (scenario_ok scenario → scenario_canonical_json_bytes scenario = Ok bs →
     scenario_from_json_slice (IoError := IoError) bs =
       if MAX_DISPOSABLE_CERTIFICATION_SCENARIO_BYTES <? len bs then Err ScenarioDocument_DocumentTooLarge else Ok scenario) ∧
  (scenario_report_from_json_reader reader = Ok report ↔
     reader_end reader = None ∧ scenario_report_from_json_slice (IoError := IoError) (reader_bytes reader) = Ok report) ∧
  (scenario_report_from_json_slice (IoError := IoError) bs = Ok report →
     report_ok report ∧ len bs <= MAX_DISPOSABLE_CERTIFICATION_SCENARIO_REPORT_BYTES) ∧
  (report_ok report → scenario_report_to_vec report = Ok bs →
     scenario_report_from_json_slice (IoError := IoError) bs =
       if MAX_DISPOSABLE_CERTIFICATION_SCENARIO_REPORT_BYTES <? len bs then Err ScenarioDocument_DocumentTooLarge else Ok report).
Proof.
  intros Hlaw. split_and!.
  - apply take_to_end_slice; [done|]. by intros ? ? [? _]%scenario_from_json_slice_Ok.
  - intros H. split; [by eapply scenario_from_json_slice_ok|]. by apply scenario_from_json_slice_Ok in H as [? _].
  - intros Hok Hw. destruct (Z.ltb_spec MAX_DISPOSABLE_CERTIFICATION_SCENARIO_BYTES (len bs)) as [Hl|Hl].
    { unfold scenario_from_json_slice. by rewrite (proj2 (Z.ltb_lt _ _) Hl). }
    apply scenario_from_json_slice_Ok. split; [done|]. exists (scenario_transport scenario).
    destruct (scenario_transport_reads scenario Hok) as (u & ? & ?). exists u.
    split; [by apply (scenario_json_reads Hlaw)|done].
  - apply take_to_end_slice; [done|]. by intros ? ? [? _]%scenario_report_from_json_slice_Ok.
  - intros (Hl & t & _ & Hu%unchecked_report_deserialize_Ok & Hm)%scenario_report_from_json_slice_Ok. split; [|done]. split_and!; tauto.
  - intros (Hok & Hm & Hf & Hb) Hw. destruct (Z.ltb_spec MAX_DISPOSABLE_CERTIFICATION_SCENARIO_REPORT_BYTES (len bs)) as [Hl|Hl].
    { unfold scenario_report_from_json_slice. by rewrite (proj2 (Z.ltb_lt _ _) Hl). }
    apply scenario_report_from_json_slice_Ok. split; [done|].
    exists (scenario_report_transport report). split; [by apply (scenario_report_json_reads Hlaw)|]. split; [|done].
    unfold unchecked_report_deserialize, scenario_deserialize. cbn [transport_report_scenario transport_report_package transport_report_execution scenario_report_transport].
    destruct (scenario_transport_reads (report_scenario report) Hok) as (u & Hu & Hc). rewrite Hu. cbn [result_bind].
    unfold scenario_custom at 1. rewrite Hc. cbn [map_err result_bind]. unfold package_observation_deserialize, package_observation_from_wire.
    rewrite !(proj2 (Z.eqb_neq _ 0)) by done. by destruct (report_package report).
Qed.

(** A successful report is made exactly for the success file of its scenario: when the
    bytes that were observed have the size and the digest the scenario declares, and the
    selected timeout is a whole number of milliseconds within its maximum.  The report
    then records both. *)
Theorem scenario_report_exact `{HS : Sha256} scenario package selected_timeout bs report :
  scenario_ok scenario → 0 <= selected_timeout →
  report_successful scenario package selected_timeout bs = Ok report ↔
  ∃ millis root maximum_bytes,
    selected_timeout = from_millis millis ∧ 0 < millis <= maximum_timeout_millis (scenario_limits (scenario_execution scenario)) ∧
    success_file_root scenario = Some root ∧ root_definition root = Root_SuccessFile (sha256 bs) (len bs) maximum_bytes ∧
    report = mkScenarioReport ScenarioReport_V1 scenario package
      (mkExecutionObservation millis Scenario_Passed Scenario_Passed Scenario_Passed Scenario_Passed
         (mkSuccessFileObservation (root_id root) (sha256 bs) (len bs))).
Proof.
  intros Hok Ht. destruct (success_file_root_ok scenario Hok) as (root & d & s & m & Hroot & _ & Hd & Hs & Hm).
  assert (Hmax : maximum_timeout_millis (scenario_limits (scenario_execution scenario)) <= u64_max).
  { destruct Hok as (_ & _ & (_ & Hmax & _) & _). unfold MAX_DISPOSABLE_SCENARIO_TIMEOUT_MILLIS, u64_max in *. lia. }
  unfold report_successful. rewrite Hroot. cbn [ok_or]. split.
  - intros H. inv_ok. inv_guards. match goal with H : exact_millis _ _ = Ok _ |- _ => apply exact_millis_Ok in H as [-> Hn]; [|done] end.
    match goal with H : report_from_observations _ _ _ = Ok _ |- _ =>
      apply report_from_observations_Ok in H as [-> (_ & Hle & root' & d' & s' & m' & Hr' & Hd' & Hsm & He)] end.
    rewrite Hroot in Hr'. injection Hr' as <-. cbn in *. injection He as -> ->. eexists _, _, m'. split_and!; [done|lia|lia|done|by rewrite Hd'|done].
  - intros (n & root' & m' & -> & Hn & [= <-] & Hd' & ->). rewrite Hd in Hd'. injection Hd' as -> -> ->.
    rewrite (proj2 (exact_millis_Ok Report_InvalidSelectedTimeout (from_millis n) n Ht)) by (split; [done|lia]). cbn [result_bind].
    rewrite (proj2 (Z.ltb_ge _ _)) by (unfold MAX_DISPOSABLE_SCENARIO_SUCCESS_FILE_BYTES, u64_max in *; lia). cbn [reject result_bind].
    apply report_from_observations_Ok. split; [done|]. split_and!; cbn; [lia|lia|]. by exists root, (sha256 bs), (len bs), m'.
Qed.

(** ** A sample scenario *)

Module SampleScenario.
#[local] Instance sample_sha : Sha256 := λ bs, bs.
Definition marker : bytes := lit "passed".
Definition roots : list DisposableScenarioStateRoot :=
  [mkStateRoot (lit "profile") Root_EmptyDirectory; mkStateRoot (lit "marker") (Root_SuccessFile (sha256 marker) 6 64)].
Definition arguments : list DisposableScenarioArgument :=
  [Argument_Literal (lit "--probe"); Argument_StatePath (lit "marker") (lit "--marker="); Argument_StatePath (lit "profile") (lit "--profile=")].
Definition limits : DisposableScenarioLimits := mkScenarioLimits 5000 100 1000 8 512 4096 (mkResourceLimits 4 1000 2000).
Definition created : result DisposableCertificationScenario DisposableCertificationScenarioError :=
  scenario_new (lit "probe") (lit "sample.family") (lit "sample.adapter") (lit "start") (lit "app/main.exe") roots arguments limits.
Lemma created_ok : is_ok created = true.
Proof. by vm_compute. Qed.
Definition scenario : DisposableCertificationScenario := from_ok _ created_ok.
Lemma limits_checked : scenario_limits_ok limits.
Proof. unfold scenario_limits_ok, resources_ok. cbn. split_and!; done. Qed.
Lemma scenario_checked : scenario_ok scenario.
Proof.
  apply (scenario_new_ok (lit "probe") (lit "sample.family") (lit "sample.adapter") (lit "start") (lit "app/main.exe") roots arguments limits);
    [exact limits_checked|..|apply from_ok_eq]; [|by vm_compute].
  repeat (apply Forall_cons_2; [split; [by vm_compute|apply (bool_decide_unpack _); vm_compute; exact I]|]). apply Forall_nil_2.
Qed.

Definition package : DisposableScenarioPackageObservation := mkPackageObservation (replicate 32 (byte_of 1)) (replicate 32 (byte_of 2)) 3 4096.
Lemma reported_ok : is_ok (report_successful scenario package (from_millis 2000) marker) = true.
Proof. by vm_compute. Qed.
Definition report : DisposableCertificationScenarioReport := from_ok _ reported_ok.

Lemma scenario_report_exact_witness :
  ∃ root, success_file_root scenario = Some root ∧ root_definition root = Root_SuccessFile (sha256 marker) (len marker) 64.
Proof.
  destruct (proj1 (scenario_report_exact scenario package (from_millis 2000) marker report scenario_checked ltac:(by vm_compute))
    (from_ok_eq _ _)) as (n & root & m & _ & _ & Hr & Hd & _).
  exists root. split; [exact Hr|]. assert (Hm : success_file_root scenario = Some (mkStateRoot (lit "marker") (Root_SuccessFile (sha256 marker) 6 64)))
    by (by vm_compute).
  rewrite Hm in Hr. injection Hr as <-. reflexivity.
Defined.

(** A JSON that writes the sample documents alone. *)
#[local] Instance limits_eq_dec : EqDecision ExecutionResourceLimits.
Proof. solve_decision. Defined.
#[local] Instance scenario_limits_eq_dec : EqDecision DisposableScenarioLimits.
Proof. solve_decision. Defined.
#[local] Instance scenario_execution_eq_dec : EqDecision DisposableScenarioExecution.
Proof. solve_decision. Defined.
#[local] Instance scenario_version_eq_dec : EqDecision DisposableCertificationScenarioFormatVersion.
Proof. solve_decision. Defined.
#[local] Instance scenario_eq_dec : EqDecision DisposableCertificationScenario.
Proof. solve_decision. Defined.
#[local] Instance passed_check_eq_dec : EqDecision DisposableScenarioPassedCheck.
Proof. solve_decision. Defined.
#[local] Instance success_observation_eq_dec : EqDecision DisposableScenarioSuccessFileObservation.
Proof. solve_decision. Defined.
#[local] Instance execution_observation_eq_dec : EqDecision DisposableScenarioExecutionObservation.
Proof. solve_decision. Defined.
#[local] Instance package_observation_eq_dec : EqDecision DisposableScenarioPackageObservation.
Proof. solve_decision. Defined.
#[local] Instance report_version_eq_dec : EqDecision DisposableCertificationScenarioReportFormatVersion.
Proof. solve_decision. Defined.
#[local] Instance report_eq_dec : EqDecision DisposableCertificationScenarioReport.
Proof. solve_decision. Defined.

#[local] Instance sample_scenario_json : ScenarioJson := {|
  ScenarioJsonError := unit; scenario_json_custom := tt;
  scenario_from_slice bs := if bool_decide (bs = lit "scenario") then Ok (scenario_transport scenario) else Err tt;
  scenario_to_vec self := if bool_decide (self = scenario) then Ok (lit "scenario") else Err tt;
  scenario_report_from_slice bs := if bool_decide (bs = lit "report") then Ok (scenario_report_transport report) else Err tt;
  scenario_report_to_vec self := if bool_decide (self = report) then Ok (lit "report") else Err tt
|}.
Lemma sample_scenario_json_lawful : lawful_scenario_json.
Proof.
  split; intros self bs; cbn [scenario_to_vec scenario_from_slice scenario_report_to_vec scenario_report_from_slice sample_scenario_json];
    (case_bool_decide as H; [|intros He; discriminate He]); intros He; injection He as <-; rewrite H, bool_decide_eq_true_2; reflexivity.
Qed.
Lemma scenario_written : scenario_canonical_json_bytes scenario = Ok (lit "scenario").
Proof. unfold scenario_canonical_json_bytes. cbn [scenario_to_vec sample_scenario_json]. by rewrite bool_decide_eq_true_2. Qed.

Lemma scenario_documents_faithful_witness :
  scenario_from_json_reader (mkReader (lit "scenario") (None : option unit)) = Ok scenario.
Proof.
  pose proof (scenario_documents_faithful (SJ := sample_scenario_json) (mkReader (lit "scenario") (None : option unit)) (lit "scenario")
    scenario report sample_scenario_json_lawful) as H.
  apply (proj2 (proj1 H)). split; [reflexivity|].
  exact (proj1 (proj2 (proj2 H)) scenario_checked scenario_written).
Defined.
End SampleScenario.
