(* ===== verification/Launch.v ===== *)
(** * Launch: Windows command lines, environments and prepared launches

    Models the logic of [crates/weregopher-windows/src/process.rs] and the limits
    of [job.rs] in the same crate: the limits of a launch, the C-runtime quoting of
    arguments with its separate sizing pass, the explicit environment block, the
    binding of a prepared launch to the lock it was prepared for, and the order of
    operations around a suspended process.

    An [OsStr] is its UTF-16 code units, the view [encode_wide] gives of it.  What
    the operating system answers is an argument ([launch_os]); opening files,
    handles and attribute lists are left out. *)

From S2P Require Import Prelude Text.

Definition OsStr : Type := list Z.
Definition unit_of (b : byte) : Z := byte_val b.

Definition u_space : Z := 32.
Definition u_tab : Z := 9.
Definition u_quote : Z := 34.
Definition u_backslash : Z := 92.
Definition u_equals : Z := 61.

Definition WINDOWS_COMMAND_LINE_MAX_UNITS : Z := 32767.
Definition WINDOWS_ENVIRONMENT_MAX_UNITS : Z := 32767.
Definition MAX_ENVIRONMENT_VARIABLES : Z := 64.
Definition MAX_ENVIRONMENT_NAME_BYTES : Z := 128.
Definition MAX_ENVIRONMENT_VALUE_UNITS : Z := 4096.

(** The [io::Error]s of this file, by their message. *)
Inductive LaunchError : Type :=
| Launch_InstanceIdentityExhausted
| Launch_ZeroLimits
| Launch_InvertedLimits
| Launch_LimitAboveWindows
| Launch_TooManyVariables
| Launch_NameNotUnicode
| Launch_NameNotCanonical
| Launch_ValueControl
| Launch_DuplicateVariable
| Launch_EnvironmentOverflow
| Launch_EnvironmentTooLarge
| Launch_EnvironmentAllocation
| Launch_EnvironmentDisagreed
| Launch_LostParent
| Launch_TooManyArguments
| Launch_ArgumentCountOverflow
| Launch_ArgumentAllocation
| Launch_CommandLineOverflow
| Launch_CommandLineTooLong
| Launch_CommandLineAllocation
| Launch_CommandLineDisagreed
| Launch_PathAllocation
| Launch_ArgumentTooLong
| Launch_UnitsAllocation
| Launch_ContainsNul
| Launch_QuotedOverflow
| Launch_BindingMismatch
| Launch_OutsideJob
| Launch_ZeroJobLimits
| Launch_InvertedJobLimits
| Launch_Windows.

(** ** Limits *)

Record ProcessLaunchLimits : Type := mkLaunchLimits {
  launch_arguments : Z;
  launch_argument_units : Z;
  launch_command_line_units : Z
}.

Definition launch_limits_new (max_arguments max_argument_units max_command_line_units : Z) :
    result ProcessLaunchLimits LaunchError :=
  do? reject ((max_arguments =? 0) || (max_argument_units =? 0) || (max_command_line_units =? 0)) Launch_ZeroLimits in
  do? reject (max_command_line_units <=? max_argument_units) Launch_InvertedLimits in
  do? reject (WINDOWS_COMMAND_LINE_MAX_UNITS <? max_command_line_units) Launch_LimitAboveWindows in
  Ok (mkLaunchLimits max_arguments max_argument_units max_command_line_units).

Record JobLimits : Type := mkJobLimits {
  active_processes : Z;
  process_memory_bytes : Z;
  job_memory_bytes : Z
}.

(** [usize::try_from] of a [u64] cannot fail at this width. *)
Definition job_limits_new (active_processes process_memory_bytes job_memory_bytes : Z) : result JobLimits LaunchError :=
  do? reject ((active_processes =? 0) || (process_memory_bytes =? 0) || (job_memory_bytes =? 0)) Launch_ZeroJobLimits in
  do? reject (job_memory_bytes <? process_memory_bytes) Launch_InvertedJobLimits in
  Ok (mkJobLimits active_processes process_memory_bytes job_memory_bytes).

(** The counter of lock instances: [fetch_update] returns the value it replaced. *)
Definition allocate_lock_instance_id : mut Z LaunchError Z :=
  let* current := mut_get in
  let* next := mut_lift (ok_or (checked_add u64_max current 1) Launch_InstanceIdentityExhausted) in
  do* mut_put next in
  mut_ret current.

(** ** UTF-16 values *)

Section Encoding.
Context `{Alloc : Allocator}.

Definition encode_units (value : OsStr) (max_units : Z) : result OsStr LaunchError :=
  do? reject (max_units <? len value) Launch_ArgumentTooLong in
  do? reject (negb (Alloc (len value))) Launch_UnitsAllocation in
  do? reject (bool_decide (0 ∈ value)) Launch_ContainsNul in
  Ok value.

Definition encode_nul_terminated (value : OsStr) (max_units : Z) : result OsStr LaunchError :=
  let? encoded := encode_units value max_units in
  do? reject (negb (Alloc 1)) Launch_PathAllocation in
  Ok (encoded ++ [0]).

(** ** Quoting *)

Definition needs_quotes (units : OsStr) : bool :=
  bool_decide (units = []) ||
  existsb (λ unit, (unit =? u_space) || (unit =? u_tab) || (unit =? u_quote)) units.

(** The sizing loop, from a total and a run of pending backslashes. *)
Fixpoint quoted_size (units : OsStr) (total backslashes : Z) : result Z LaunchError :=
  match units with
  | [] =>
    let? tail := ok_or (doubled ← checked_mul usize_max backslashes 2; checked_add usize_max doubled 1) Launch_QuotedOverflow in
    ok_or (checked_add usize_max total tail) Launch_QuotedOverflow
  | unit :: units =>
    if unit =? u_backslash then
      let? backslashes := ok_or (checked_add usize_max backslashes 1) Launch_QuotedOverflow in
      quoted_size units total backslashes
    else if unit =? u_quote then
      let? escaped := ok_or (doubled ← checked_mul usize_max backslashes 2; checked_add usize_max doubled 2) Launch_QuotedOverflow in
      let? total := ok_or (checked_add usize_max total escaped) Launch_QuotedOverflow in
      quoted_size units total 0
    else
      let? total := ok_or (sum ← checked_add usize_max total backslashes; checked_add usize_max sum 1) Launch_QuotedOverflow in
      quoted_size units total 0
  end.

Definition quoted_units (units : OsStr) : result Z LaunchError :=
  if needs_quotes units then quoted_size units 1 0 else Ok (len units).

Definition backslash_run (n : nat) : OsStr := replicate n u_backslash.

(** The emission loop and what follows it. *)
Fixpoint escape (units : OsStr) (backslashes : nat) : OsStr :=
  match units with
  | [] => backslash_run (backslashes * 2) ++ [u_quote]
  | unit :: units =>
    if unit =? u_backslash then escape units (S backslashes)
    else if unit =? u_quote then backslash_run (backslashes * 2 + 1) ++ unit :: escape units 0
    else backslash_run backslashes ++ unit :: escape units 0
  end.

Definition append_quoted (output units : OsStr) : OsStr :=
  if needs_quotes units then output ++ u_quote :: escape units 0 else output ++ units.

(** ** The command line *)

Fixpoint encode_all (arguments : list OsStr) (max_units : Z) : result (list OsStr) LaunchError :=
  match arguments with
  | [] => Ok []
  | argument :: arguments =>
    let? encoded := encode_units argument max_units in
    let? rest := encode_all arguments max_units in
    Ok (encoded :: rest)
  end.

Fixpoint command_line_size (items : list OsStr) (first : bool) (total_units max_units : Z) : result Z LaunchError :=
  match items with
  | [] => Ok total_units
  | item :: items =>
    let? separated := if first then Ok total_units else ok_or (checked_add usize_max total_units 1) Launch_CommandLineOverflow in
    let? quoted := quoted_units item in
    let? total := ok_or (checked_add usize_max separated quoted) Launch_CommandLineOverflow in
    do? reject (max_units <? total) Launch_CommandLineTooLong in
    command_line_size items false total max_units
  end.

Fixpoint emit_items (items : list OsStr) (first : bool) (command_line : OsStr) : OsStr :=
  match items with
  | [] => command_line
  | item :: items =>
    emit_items items false (append_quoted (if first then command_line else command_line ++ [u_space]) item)
  end.

Definition build_command_line (executable : OsStr) (arguments : list OsStr) (limits : ProcessLaunchLimits) :
    result OsStr LaunchError :=
  do? reject (launch_arguments limits <? len arguments) Launch_TooManyArguments in
  let? item_count := ok_or (checked_add usize_max (len arguments) 1) Launch_ArgumentCountOverflow in
  do? reject (negb (Alloc item_count)) Launch_ArgumentAllocation in
  let? encoded := encode_all (executable :: arguments) (launch_argument_units limits) in
  let? total_units := command_line_size encoded true 1 (launch_command_line_units limits) in
  do? reject (negb (Alloc total_units)) Launch_CommandLineAllocation in
  let command_line := emit_items encoded true [] ++ [0] in
  do? reject (negb (len command_line =? total_units)) Launch_CommandLineDisagreed in
  Ok command_line.

(** ** The environment *)

Record ProcessEnvironment : Type := mkEnvironmentBlock {
  env_block : list Z;
  variable_count : Z
}.

Definition environment_empty : ProcessEnvironment := mkEnvironmentBlock [0; 0] 0.

(** [OsStr::to_str]: the UTF-8 text of well-formed UTF-16. *)
Fixpoint utf16_scalars (units : OsStr) : option (list Z) :=
  match units with
  | [] => Some []
  | u :: units =>
    if (u <? 0xD800) || (0xE000 <=? u) then cons u <$> utf16_scalars units
    else if u <? 0xDC00 then
      match units with
      | v :: units =>
        if in_range 0xDC00 0xDFFF v then
          cons (0x10000 + (u - 0xD800) * 1024 + (v - 0xDC00)) <$> utf16_scalars units
        else None
      | [] => None
      end
    else None
  end.
Definition utf8_scalar (c : Z) : str :=
  if c <? 0x80 then [byte_of c]
  else if c <? 0x800 then [byte_of (0xC0 + c / 64); byte_of (0x80 + c mod 64)]
  else if c <? 0x10000 then [byte_of (0xE0 + c / 4096); byte_of (0x80 + (c / 64) mod 64); byte_of (0x80 + c mod 64)]
  else [byte_of (0xF0 + c / 262144); byte_of (0x80 + (c / 4096) mod 64); byte_of (0x80 + (c / 64) mod 64); byte_of (0x80 + c mod 64)].
Definition to_str (value : OsStr) : option str :=
  scalars ← utf16_scalars value; Some (concat (map utf8_scalar scalars)).

Definition is_ascii_uppercase (b : byte) : bool := in_range 65 90 (byte_val b).
Definition is_ascii_decimal (b : byte) : bool := in_range 48 57 (byte_val b).
Definition name_byte (index : nat) (b : byte) : bool :=
  is_ascii_uppercase b || (byte_val b =? 95) || (negb (bool_decide (index = 0%nat)) && is_ascii_decimal b).
Definition name_canonical (name : str) : bool :=
  negb (bool_decide (name = [])) && (len name <=? MAX_ENVIRONMENT_NAME_BYTES) &&
  forallb (λ ib, name_byte ib.1 ib.2) (imap pair name).

Fixpoint environment_size (variables : list (str * OsStr)) (required : Z) : result Z LaunchError :=
  match variables with
  | [] => Ok required
  | (name, value) :: variables =>
    let? required := ok_or
      (r ← checked_add usize_max required (len name); r ← checked_add usize_max r 1;
       r ← checked_add usize_max r (len value); checked_add usize_max r 1) Launch_EnvironmentOverflow in
    environment_size variables required
  end.

Fixpoint environment_block (variables : list (str * OsStr)) : list Z :=
  match variables with
  | [] => []
  | (name, value) :: variables => map unit_of name ++ u_equals :: value ++ 0 :: environment_block variables
  end.

Definition encode_environment_block (variables : gmap str OsStr) : result ProcessEnvironment LaunchError :=
  if map_len variables =? 0 then Ok environment_empty
  else
    let entries := btree_iter str_le variables in
    let? required := environment_size entries 1 in
    do? reject (WINDOWS_ENVIRONMENT_MAX_UNITS <? required) Launch_EnvironmentTooLarge in
    do? reject (negb (Alloc required)) Launch_EnvironmentAllocation in
    let block := environment_block entries ++ [0] in
    do? reject (negb (len block =? required)) Launch_EnvironmentDisagreed in
    Ok (mkEnvironmentBlock block (map_len variables)).

Fixpoint collect_variables (variables : list (OsStr * OsStr)) (canonical : gmap str OsStr) :
    result (gmap str OsStr) LaunchError :=
  match variables with
  | [] => Ok canonical
  | (name, value) :: variables =>
    do? reject (map_len canonical =? MAX_ENVIRONMENT_VARIABLES) Launch_TooManyVariables in
    let? name := ok_or (to_str name) Launch_NameNotUnicode in
    do? reject (negb (name_canonical name)) Launch_NameNotCanonical in
    let? value_units := encode_units value MAX_ENVIRONMENT_VALUE_UNITS in
    do? reject (existsb (λ unit, (unit <? u_space) || (unit =? 0x7f)) value_units) Launch_ValueControl in
    do? reject (bool_decide (is_Some (canonical !! name))) Launch_DuplicateVariable in
    collect_variables variables (<[name := value_units]> canonical)
  end.

Definition environment_new (variables : list (OsStr * OsStr)) : result ProcessEnvironment LaunchError :=
  let? canonical := collect_variables variables ∅ in
  encode_environment_block canonical.

(** ** Prepared launches *)

Definition FileIdentity : Type := Z.

Record LockedExecutable : Type := mkLocked {
  locked_path : OsStr;
  locked_parent : option OsStr;
  lock_instance_id : Z;
  locked_identity : FileIdentity
}.

Record PreparedProcessLaunch : Type := mkPreparedLaunch {
  prepared_executable_path : OsStr;
  prepared_executable_identity : FileIdentity;
  prepared_lock_instance_id : Z;
  prepared_application : list Z;
  prepared_current_directory : list Z;
  prepared_command_line : list Z;
  prepared_environment : list Z
}.

Definition prepare_launch_with_environment (self : LockedExecutable) (arguments : list OsStr)
    (limits : ProcessLaunchLimits) (environment : ProcessEnvironment) : result PreparedProcessLaunch LaunchError :=
  let? application := encode_nul_terminated (locked_path self) (launch_argument_units limits) in
  let? parent := ok_or (locked_parent self) Launch_LostParent in
  let? current_directory := encode_nul_terminated parent (launch_argument_units limits) in
  let? command_line := build_command_line (locked_path self) arguments limits in
  Ok (mkPreparedLaunch (locked_path self) (locked_identity self) (lock_instance_id self) application
        current_directory command_line (env_block environment)).

Definition prepare_launch (self : LockedExecutable) (arguments : list OsStr) (limits : ProcessLaunchLimits) :
    result PreparedProcessLaunch LaunchError :=
  prepare_launch_with_environment self arguments limits environment_empty.
End Encoding.

(** ** Launching *)

(** What the operating system answers: the attribute list, [CreateProcessW] with the
    process identifier, the job membership and [ResumeThread]. *)
Record launch_os : Type := mkLaunchOs {
  os_attributes : result unit LaunchError;
  os_create : result Z LaunchError;
  os_membership : result bool LaunchError;
  os_resume : result unit LaunchError
}.

(** What is done to the process, in order. *)
Inductive launch_effect : Type :=
| Effect_CreateSuspended (prepared : PreparedProcessLaunch)
| Effect_QueryMembership
| Effect_Resume
| Effect_TerminateProcess (exit_code : Z)
| Effect_TerminateJob (exit_code : Z).

Record OwnedJobProcess : Type := mkOwnedProcess {
  process_id : Z;
  process_job : JobLimits;
  process_executable : LockedExecutable
}.

Definition perform (e : launch_effect) : mut (list launch_effect) LaunchError unit :=
  λ trace, (Ok tt, trace ++ [e]).

Definition abort_created_process : mut (list launch_effect) LaunchError unit :=
  do* perform (Effect_TerminateProcess 1) in perform (Effect_TerminateJob 1).

Definition complete_owned_process (os : launch_os) (job : JobLimits) (executable : LockedExecutable) (pid : Z) :
    mut (list launch_effect) LaunchError OwnedJobProcess :=
  do* perform Effect_QueryMembership in
  match os_membership os with
  | Ok true =>
    do* perform Effect_Resume in
    match os_resume os with
    | Err error => do* abort_created_process in mut_lift (Err error)
    | Ok _ => mut_ret (mkOwnedProcess pid job executable)
    end
  | Ok false => do* abort_created_process in mut_lift (Err Launch_OutsideJob)
  | Err error => do* abort_created_process in mut_lift (Err error)
  end.

Definition launch_owned_process (os : launch_os) (job : JobLimits) (executable : LockedExecutable)
    (prepared : PreparedProcessLaunch) : mut (list launch_effect) LaunchError OwnedJobProcess :=
  do* mut_lift (os_attributes os) in
  do* perform (Effect_CreateSuspended prepared) in
  let* pid := mut_lift (os_create os) in
  complete_owned_process os job executable pid.

Definition launch_prepared (os : launch_os) (job : JobLimits) (executable : LockedExecutable)
    (prepared : PreparedProcessLaunch) : mut (list launch_effect) LaunchError OwnedJobProcess :=
  do* mut_lift (reject (bool_decide (locked_path executable ≠ prepared_executable_path prepared) ||
                        bool_decide (locked_identity executable ≠ prepared_executable_identity prepared) ||
                        bool_decide (lock_instance_id executable ≠ prepared_lock_instance_id prepared))
               Launch_BindingMismatch) in
  launch_owned_process os job executable prepared.

(** [KillOnCloseJob::launch]. *)
Definition job_launch `{Alloc : Allocator} (os : launch_os) (job : JobLimits) (executable : LockedExecutable)
    (arguments : list OsStr) (limits : ProcessLaunchLimits) : mut (list launch_effect) LaunchError OwnedJobProcess :=
  let* prepared := mut_lift (prepare_launch executable arguments limits) in
  launch_prepared os job executable prepared.
