(* ===== verification/LaunchLaws.v ===== *)
(** * LaunchLaws: what is launched is what was asked for

    The command line that is built splits, under the documented rules of the C
    runtime, into exactly the executable and the arguments it was built from; the
    sizing passes agree with the emission, so their defensive errors cannot happen;
    the environment block holds exactly the variables given; and no process runs
    outside its job. *)

From S2P Require Import Prelude Text Launch.

(** ** The documented splitting of a command line

    The program name runs to the first blank outside quotes, and backslashes in it
    are literal.  In the arguments, [2n] backslashes before a quote are [n] and the
    quote delimits, [2n+1] are [n] and the quote is literal, a doubled quote inside
    quotes is literal, and any other backslash is literal. *)

Definition is_blank (c : Z) : bool := (c =? u_space) || (c =? u_tab).

Fixpoint split_arguments (line : OsStr) (current : option OsStr) (quoted : bool) (backslashes : nat) : list OsStr :=
  match line with
  | [] => match current with Some a => [a ++ backslash_run backslashes] | None => [] end
  | c :: line =>
    if c =? u_backslash then split_arguments line (Some (default [] current)) quoted (S backslashes)
    else if c =? u_quote then
      let a := default [] current ++ backslash_run (backslashes / 2) in
      if Nat.odd backslashes then split_arguments line (Some (a ++ [u_quote])) quoted 0
      else if quoted then
        match line with
        | c' :: line' => if c' =? u_quote then split_arguments line' (Some (a ++ [u_quote])) true 0
                         else split_arguments line (Some a) false 0
        | [] => split_arguments line (Some a) false 0
        end
      else split_arguments line (Some a) true 0
    else if negb quoted && is_blank c then
      match current with
      | Some a => (a ++ backslash_run backslashes) :: split_arguments line None false 0
      | None => split_arguments line None false 0
      end
    else split_arguments line (Some (default [] current ++ backslash_run backslashes ++ [c])) quoted 0
  end.

Fixpoint split_program (line : OsStr) (program : OsStr) (quoted : bool) : list OsStr :=
  match line with
  | [] => [program]
  | c :: line =>
    if c =? u_quote then split_program line program (negb quoted)
    else if negb quoted && is_blank c then program :: split_arguments line None false 0
    else split_program line (program ++ [c]) quoted
  end.

Definition split_command_line (line : OsStr) : list OsStr := split_program line [] false.

(** ** One argument *)

Definition quote_item (units : OsStr) : OsStr := append_quoted [] units.

Lemma append_quoted_item output units : append_quoted output units = output ++ quote_item units.
Proof. unfold quote_item, append_quoted. by destruct (needs_quotes units). Qed.

Lemma backslash_run_S n : backslash_run (S n) = backslash_run n ++ [u_backslash].
Proof. unfold backslash_run. change (S n) with (1 + n)%nat. by rewrite Nat.add_comm, replicate_add. Qed.

Lemma split_backslashes n line a quoted k :
  split_arguments (backslash_run n ++ line) (Some a) quoted k = split_arguments line (Some a) quoted (k + n).
Proof.
  revert k. induction n as [|n IH]; intros k; [by rewrite Nat.add_0_r|].
  cbn. fold (backslash_run n). by rewrite IH, Nat.add_succ_r.
Qed.

Lemma even_run n : Nat.odd (n * 2) = false ∧ (n * 2 / 2 = n)%nat.
Proof. split; [|by apply Nat.div_mul]. rewrite Nat.odd_mul. cbn. by rewrite andb_false_r. Qed.
Lemma odd_run n : Nat.odd (n * 2 + 1) = true ∧ ((n * 2 + 1) / 2 = n)%nat.
Proof.
  split; [rewrite Nat.add_1_r, Nat.odd_succ, Nat.even_mul; cbn; by rewrite orb_true_r|].
  rewrite Nat.mul_comm. replace (2 * n + 1)%nat with (1 + n * 2)%nat by lia. rewrite Nat.div_add by lia. done.
Qed.

(** A quote is read as literal after an odd run, as a delimiter after an even one. *)
Lemma split_literal_quote line a quoted n :
  split_arguments (u_quote :: line) (Some a) quoted (n * 2 + 1) =
  split_arguments line (Some (a ++ backslash_run n ++ [u_quote])) quoted 0.
Proof. destruct (odd_run n) as [H1 H2]. cbn [split_arguments]. rewrite H1, H2. cbn. by rewrite <-app_assoc. Qed.

(** The end of an argument: nothing, or a blank and the next one. *)
Definition ends_argument (line : OsStr) : Prop := line = [] ∨ ∃ rest, line = u_space :: rest.
Definition continue_with (a line : OsStr) : list OsStr :=
  match line with [] => [a] | _ :: rest => a :: split_arguments rest None false 0 end.

Lemma split_end a n line :
  ends_argument line → split_arguments line (Some a) false n = continue_with (a ++ backslash_run n) line.
Proof. by intros [->|[rest ->]]. Qed.

Lemma split_closing_quote line a n :
  ends_argument line →
  split_arguments (u_quote :: line) (Some a) true (n * 2) = continue_with (a ++ backslash_run n) line.
Proof.
  intros Hl. destruct (even_run n) as [H1 H2].
  change (split_arguments (u_quote :: line) (Some a) true (n * 2)) with
    (let b := a ++ backslash_run (n * 2 / 2) in
     if Nat.odd (n * 2) then split_arguments line (Some (b ++ [u_quote])) true 0
     else match line with
          | c' :: line' => if c' =? u_quote then split_arguments line' (Some (b ++ [u_quote])) true 0
                           else split_arguments line (Some b) false 0
          | [] => split_arguments line (Some b) false 0
          end).
  rewrite H1, H2. destruct Hl as [->|[rest ->]]; cbn; by rewrite app_nil_r.
Qed.

Lemma escape_split units a n line :
  ends_argument line →
  split_arguments (escape units n ++ line) (Some a) true 0 = continue_with (a ++ backslash_run n ++ units) line.
Proof.
  intros Hl. revert a n. induction units as [|u units IH]; intros a n; cbn [escape].
  { rewrite <-app_assoc, split_backslashes. cbn [app Nat.add]. rewrite split_closing_quote by done. by rewrite app_nil_r. }
  destruct (Z.eqb_spec u u_backslash) as [->|Hb].
  { rewrite IH, backslash_run_S, <-!app_assoc. done. }
  destruct (Z.eqb_spec u u_quote) as [->|Hq].
  - rewrite <-app_assoc, split_backslashes. cbn [app Nat.add]. rewrite split_literal_quote, IH. cbn [backslash_run replicate app].
    by rewrite <-!app_assoc.
  - rewrite <-app_assoc, split_backslashes. cbn [app Nat.add]. cbn [split_arguments].
    rewrite (proj2 (Z.eqb_neq _ _) Hb), (proj2 (Z.eqb_neq _ _) Hq). cbn [negb andb default from_option id].
    rewrite IH. cbn [backslash_run replicate app]. by rewrite <-!app_assoc.
Qed.

(** A blank-free, quote-free argument is read as it is. *)
Definition plain (units : OsStr) : Prop := Forall (λ u, is_blank u = false ∧ u ≠ u_quote) units.

Lemma plain_split units a n line :
  plain units → ends_argument line →
  split_arguments (units ++ line) (Some a) false n = continue_with (a ++ backslash_run n ++ units) line.
Proof.
  intros Hp Hl. revert a n. induction Hp as [|u units [Hb Hq] _ IH]; intros a n; cbn [app].
  { rewrite split_end by done. by rewrite app_nil_r. }
  cbn [split_arguments]. destruct (Z.eqb_spec u u_backslash) as [->|Hu].
  { cbn [default from_option id]. rewrite IH, backslash_run_S, <-!app_assoc. done. }
  rewrite (proj2 (Z.eqb_neq _ _) Hq), Hb, andb_false_r. cbn [default from_option id]. rewrite IH. cbn [backslash_run replicate app].
  by rewrite <-!app_assoc.
Qed.

Lemma needs_quotes_false units : needs_quotes units = false ↔ units ≠ [] ∧ plain units.
Proof.
  unfold needs_quotes, plain. rewrite orb_false_iff, bool_decide_eq_false. apply and_iff_compat_l.
  rewrite <-not_true_iff_false, existsb_exists, Forall_forall. unfold is_blank. split.
  - intros Hn u Hu%list_elem_of_In. destruct ((u =? u_space) || (u =? u_tab)) eqn:Hb.
    + exfalso. apply Hn. exists u. rewrite Hb. by rewrite orb_true_l.
    + split; [done|]. intros ->. apply Hn. exists u_quote. split; [done|]. by rewrite Z.eqb_refl, orb_true_r.
  - intros Hf (u & Hu%list_elem_of_In & Hb). destruct (Hf u Hu) as [Hb' Hq]. rewrite Hb' in Hb. cbn in Hb. by apply Z.eqb_eq in Hb.
Qed.

(** One emitted argument is read back. *)
Lemma quote_item_split units line :
  ends_argument line → split_arguments (quote_item units ++ line) None false 0 = continue_with units line.
Proof.
  intros Hl. unfold quote_item, append_quoted. destruct (needs_quotes units) eqn:Hn; cbn [app].
  - change (split_arguments (u_quote :: escape units 0 ++ line) None false 0) with
      (split_arguments (escape units 0 ++ line) (Some []) true 0). by rewrite escape_split.
  - apply needs_quotes_false in Hn as [Hne Hp]. destruct Hp as [|u units [Hb Hq] Hp]; [done|].
    cbn [app split_arguments]. destruct (Z.eqb_spec u u_backslash) as [->|Hu].
    + cbn [default from_option id]. by rewrite plain_split.
    + rewrite (proj2 (Z.eqb_neq _ _) Hq), Hb, andb_false_r. cbn [default from_option id]. rewrite plain_split by done. done.
Qed.

(** ** The whole line *)

Fixpoint joined (items : list OsStr) : OsStr :=
  match items with [] => [] | item :: items => u_space :: quote_item item ++ joined items end.

Lemma joined_ends items : ends_argument (joined items).
Proof. destruct items as [|item items]; [by left|]. right. by eexists. Qed.

Lemma joined_split items : split_arguments (joined items) None false 0 = items.
Proof.
  induction items as [|item items IH]; [done|]. cbn [joined].
  change (split_arguments (u_space :: ?l) None false 0) with (split_arguments l None false 0).
  rewrite quote_item_split by apply joined_ends. destruct items as [|item' items]; [done|].
  cbn [joined continue_with]. by rewrite <-IH.
Qed.

Lemma emit_items_joined items out : emit_items items false out = out ++ joined items.
Proof.
  revert out. induction items as [|item items IH]; intros out; cbn [emit_items joined]; [by rewrite app_nil_r|].
  rewrite IH, append_quoted_item, <-!app_assoc. done.
Qed.

Lemma emit_items_first item items : emit_items (item :: items) true [] = quote_item item ++ joined items.
Proof. cbn [emit_items]. by rewrite emit_items_joined, append_quoted_item. Qed.

(** The program name: no quote in it, and no backslash before the closing quote. *)
Definition program_ok (program : OsStr) : Prop := (u_quote ∉ program) ∧ last program ≠ Some u_backslash.

Lemma split_program_quoted units program line :
  u_quote ∉ units → split_program (units ++ line) program true = split_program line (program ++ units) true.
Proof.
  revert program. induction units as [|u units IH]; intros program Hn; cbn [app split_program]; [by rewrite app_nil_r|].
  apply not_elem_of_cons in Hn as [Hu Hn]. rewrite (proj2 (Z.eqb_neq u u_quote)) by auto. cbn [negb andb].
  rewrite IH by done. by rewrite <-app_assoc.
Qed.

Lemma split_program_plain units program line :
  plain units → split_program (units ++ line) program false = split_program line (program ++ units) false.
Proof.
  intros Hp. revert program. induction Hp as [|u units [Hb Hq] _ IH]; intros program; cbn [app split_program]; [by rewrite app_nil_r|].
  rewrite (proj2 (Z.eqb_neq _ _) Hq), Hb. cbn [negb andb]. by rewrite IH, <-app_assoc.
Qed.

(** Without quotes, and without a final backslash, nothing is escaped. *)
Lemma escape_program program n :
  u_quote ∉ program → (last program = None → n = 0%nat) → last program ≠ Some u_backslash →
  escape program n = backslash_run n ++ program ++ [u_quote].
Proof.
  revert n. induction program as [|u program IH]; intros n Hn H0 Hl; cbn [escape].
  { by rewrite (H0 eq_refl). }
  apply not_elem_of_cons in Hn as [Hu Hn].
  destruct program as [|u' program].
  - destruct (Z.eqb_spec u u_backslash) as [->|Hb]; [by destruct Hl|]. by rewrite (proj2 (Z.eqb_neq u u_quote)) by auto.
  - assert (Hlast : last (u' :: program) ≠ Some u_backslash) by exact Hl.
    assert (Hsome : ∀ m, last (u' :: program) = None → m = 0%nat) by (intros m Hx; by apply last_None in Hx).
    destruct (Z.eqb_spec u u_backslash) as [->|Hb].
    + rewrite (IH (S n)) by auto. by rewrite backslash_run_S, <-!app_assoc.
    + rewrite (proj2 (Z.eqb_neq u u_quote)) by auto. rewrite (IH 0%nat) by auto. done.
Qed.

Lemma program_split program line :
  program_ok program → ends_argument line →
  split_command_line (quote_item program ++ line) =
    match line with [] => [program] | _ :: rest => program :: split_arguments rest None false 0 end.
Proof.
  intros [Hq Hl] He. unfold split_command_line, quote_item, append_quoted. destruct (needs_quotes program) eqn:Hn; cbn [app].
  - change (split_program (u_quote :: ?l) [] false) with (split_program l [] true).
    rewrite escape_program by (done || auto). cbn [backslash_run replicate app]. rewrite <-app_assoc, split_program_quoted by done.
    cbn [app]. destruct He as [->|[rest ->]]; done.
  - apply needs_quotes_false in Hn as [_ Hp]. rewrite split_program_plain by done. destruct He as [->|[rest ->]]; done.
Qed.

(** ** The sizing passes agree with the emission *)

(** The limits a caller can hold. *)
Definition launch_limits_ok (limits : ProcessLaunchLimits) : Prop :=
  0 <= launch_argument_units limits < launch_command_line_units limits ∧
  launch_command_line_units limits <= WINDOWS_COMMAND_LINE_MAX_UNITS ∧
  0 <= launch_arguments limits < usize_max.

Lemma launch_limits_new_ok a u c limits :
  0 <= a < usize_max → 0 <= u → launch_limits_new a u c = Ok limits → launch_limits_ok limits.
Proof.
  unfold launch_limits_new, launch_limits_ok. intros Ha Hu H.
  apply result_bind_Ok in H as (_ & _ & H). apply result_bind_Ok in H as (_ & H1%reject_Ok%Z.leb_gt & H).
  apply result_bind_Ok in H as (_ & H2%reject_Ok%Z.ltb_ge & [= <-]). cbn. lia.
Qed.

Lemma len_backslash_run n : len (backslash_run n) = Z.of_nat n.
Proof. unfold len, backslash_run. by rewrite length_replicate. Qed.

Lemma len_escape_bound units n : len (escape units n) <= 2 * (len units + Z.of_nat n) + 1.
Proof.
  revert n. induction units as [|u units IH]; intros n; cbn [escape].
  { rewrite len_app, len_backslash_run, len_nil. change (len [u_quote]) with 1. lia. }
  rewrite len_cons. destruct (u =? u_backslash); [specialize (IH (S n)); lia|]. specialize (IH 0%nat).
  destruct (u =? u_quote); rewrite len_app, len_cons, len_backslash_run; lia.
Qed.

Lemma quoted_size_run units total n :
  0 <= total → total + 2 * (len units + Z.of_nat n) + 2 <= usize_max →
  quoted_size units total (Z.of_nat n) = Ok (total + len (escape units n)).
Proof.
  revert total n. induction units as [|u units IH]; intros total n Ht Hb; cbn [quoted_size escape].
  { unfold checked_mul, checked_add. rewrite len_nil in Hb.
    rewrite (proj2 (Z.leb_le (Z.of_nat n * 2) _)) by lia. cbn. rewrite (proj2 (Z.leb_le (Z.of_nat n * 2 + 1) _)) by lia. cbn.
    rewrite (proj2 (Z.leb_le (total + _) _)) by lia. cbn. f_equal. rewrite len_app, len_backslash_run. change (len [u_quote]) with 1. lia. }
  rewrite len_cons in Hb. pose proof (len_nonneg units).
  destruct (u =? u_backslash).
  { unfold checked_add. rewrite (proj2 (Z.leb_le (Z.of_nat n + 1) _)) by lia. cbn [ok_or result_bind].
    replace (Z.of_nat n + 1) with (Z.of_nat (S n)) by lia. apply IH; lia. }
  destruct (u =? u_quote).
  - unfold checked_mul, checked_add. rewrite (proj2 (Z.leb_le (Z.of_nat n * 2) _)) by lia. cbn [mbind option_bind].
    rewrite (proj2 (Z.leb_le (Z.of_nat n * 2 + 2) _)) by lia. cbn [ok_or result_bind].
    rewrite (proj2 (Z.leb_le (total + _) _)) by lia. cbn [ok_or result_bind]. change 0 with (Z.of_nat 0) at 1. rewrite IH by lia.
    f_equal. rewrite len_app, len_cons, len_backslash_run. lia.
  - unfold checked_add. rewrite (proj2 (Z.leb_le (total + Z.of_nat n) _)) by lia. cbn [mbind option_bind].
    rewrite (proj2 (Z.leb_le (total + Z.of_nat n + 1) _)) by lia. cbn [ok_or result_bind]. change 0 with (Z.of_nat 0) at 1. rewrite IH by lia.
    f_equal. rewrite len_app, len_cons, len_backslash_run. lia.
Qed.

Lemma quoted_units_run units :
  len units <= WINDOWS_COMMAND_LINE_MAX_UNITS → quoted_units units = Ok (len (quote_item units)).
Proof.
  intros Hu. unfold quoted_units, quote_item, append_quoted. destruct (needs_quotes units); [|done].
  change 0 with (Z.of_nat 0) at 1. rewrite quoted_size_run by (unfold WINDOWS_COMMAND_LINE_MAX_UNITS, usize_max, u64_max in *; lia).
  f_equal. cbn [app]. by rewrite len_cons.
Qed.

Lemma len_quote_item_bound units : 0 <= len (quote_item units) <= 2 * len units + 2.
Proof.
  split; [apply len_nonneg|]. unfold quote_item, append_quoted. destruct (needs_quotes units); cbn [app].
  - rewrite len_cons. pose proof (len_escape_bound units 0). lia.
  - pose proof (len_nonneg units). lia.
Qed.

Definition item_fits (limits : ProcessLaunchLimits) (item : OsStr) : Prop :=
  len item <= launch_argument_units limits ∧ 0 ∉ item.

Section Line.
Context `{Alloc : Allocator}.

Lemma encode_units_Ok value max encoded :
  ample Alloc → encode_units value max = Ok encoded ↔ len value <= max ∧ (0 ∉ value) ∧ encoded = value.
Proof.
  intros Ha. unfold encode_units. rewrite Ha. cbn [negb reject].
  destruct (Z.ltb_spec max (len value)); cbn [reject result_bind]; [split; [done|lia]|].
  case_bool_decide; cbn [reject result_bind]; [by split; [|intros (_ & ? & _)]|]. split; [by intros [= <-]|by intros (_ & _ & ->)].
Qed.

Lemma encode_all_Ok arguments limits items :
  ample Alloc →
  encode_all arguments (launch_argument_units limits) = Ok items ↔ Forall (item_fits limits) arguments ∧ items = arguments.
Proof.
  intros Ha. revert items. induction arguments as [|a arguments IH]; intros items; cbn [encode_all].
  { split; [by intros [= <-]|by intros [_ ->]]. }
  rewrite Forall_cons. unfold item_fits at 1. split.
  - intros Hr. apply result_bind_Ok in Hr as (e & (H1 & H2 & ->)%encode_units_Ok & Hr); [|done].
    apply result_bind_Ok in Hr as (rest & (H3 & ->)%IH & [= <-]). done.
  - intros ([[H1 H2] H3] & ->). rewrite (proj2 (encode_units_Ok _ _ a Ha)) by done. cbn [result_bind].
    by rewrite (proj2 (IH arguments)).
Qed.

Lemma joined_size items total max n :
  Forall (λ i, len i <= WINDOWS_COMMAND_LINE_MAX_UNITS) items → 0 <= total <= max → max <= WINDOWS_COMMAND_LINE_MAX_UNITS →
  command_line_size items false total max = Ok n ↔ n = total + len (joined items) ∧ n <= max.
Proof.
  intros Hf. revert total. induction Hf as [|i items Hi _ IH]; intros total Ht Hmax; cbn [command_line_size joined].
  { rewrite len_nil, Z.add_0_r. split; [intros [= <-]; lia|by intros [-> _]]. }
  rewrite len_cons, len_app. pose proof (len_quote_item_bound i). pose proof (len_nonneg (joined items)).
  assert (Hu : usize_max > 4 * WINDOWS_COMMAND_LINE_MAX_UNITS ∧ WINDOWS_COMMAND_LINE_MAX_UNITS = 32767) by by vm_compute.
  unfold checked_add at 1. rewrite (proj2 (Z.leb_le (total + 1) _)) by lia. cbn [ok_or result_bind].
  rewrite (quoted_units_run i Hi). cbn [result_bind]. unfold checked_add.
  rewrite (proj2 (Z.leb_le (total + 1 + _) _)) by lia. cbn [ok_or result_bind].
  destruct (Z.ltb_spec max (total + 1 + len (quote_item i))); cbn [reject result_bind]; [split; [done|lia]|].
  rewrite IH by lia. lia.
Qed.

Lemma build_command_line_Ok executable arguments limits line :
  ample Alloc → launch_limits_ok limits →
  build_command_line executable arguments limits = Ok line ↔
    len arguments <= launch_arguments limits ∧ Forall (item_fits limits) (executable :: arguments) ∧
    line = quote_item executable ++ joined arguments ++ [0] ∧ len line <= launch_command_line_units limits.
Proof.
  intros Ha ((Hl0 & Hl1) & Hl2 & Hl3). unfold build_command_line.
  destruct (Z.ltb_spec (launch_arguments limits) (len arguments)); cbn [reject result_bind]; [split; [done|lia]|].
  unfold checked_add at 1. rewrite (proj2 (Z.leb_le (len arguments + 1) _)) by lia. cbn [ok_or result_bind]. rewrite Ha. cbn [negb reject result_bind].
  pose proof (λ items, encode_all_Ok (executable :: arguments) limits items Ha) as Henc.
  assert (Hsize : Forall (item_fits limits) (executable :: arguments) → ∀ n,
    command_line_size (executable :: arguments) true 1 (launch_command_line_units limits) = Ok n ↔
    n = 1 + len (quote_item executable) + len (joined arguments) ∧ n <= launch_command_line_units limits).
  { intros Hf n. apply Forall_cons in Hf as [[He _] Hf]. cbn [command_line_size result_bind].
    assert (Hbig : len executable <= WINDOWS_COMMAND_LINE_MAX_UNITS) by lia.
    rewrite (quoted_units_run executable Hbig). cbn [result_bind]. pose proof (len_quote_item_bound executable).
    pose proof (len_nonneg (joined arguments)).
    assert (Hu : usize_max > 4 * WINDOWS_COMMAND_LINE_MAX_UNITS ∧ WINDOWS_COMMAND_LINE_MAX_UNITS = 32767) by by vm_compute.
    unfold checked_add. rewrite (proj2 (Z.leb_le (1 + _) _)) by lia. cbn [ok_or result_bind].
    destruct (Z.ltb_spec (launch_command_line_units limits) (1 + len (quote_item executable))); cbn [reject result_bind]; [split; [done|lia]|].
    rewrite joined_size; [done| |lia|lia]. eapply Forall_impl; [exact Hf|]. intros i [Hi _]. lia. }
  assert (Hlen : len ((quote_item executable ++ joined arguments) ++ [0]) = 1 + len (quote_item executable) + len (joined arguments)).
  { rewrite !len_app. change (len [0]) with 1. lia. }
  split.
  - intros Hr. apply result_bind_Ok in Hr as (items & [Hf ->]%Henc & Hr). apply result_bind_Ok in Hr as (n & [-> Hn]%Hsize & Hr); [|done].
    apply result_bind_Ok in Hr as (_ & _ & Hr). apply result_bind_Ok in Hr as (_ & _ & [= <-]).
    change (append_quoted [] executable) with (quote_item executable). rewrite emit_items_joined, Hlen.
    split_and!; [done|done|by rewrite <-app_assoc|done].
  - intros (_ & Hf & -> & Hn). rewrite (proj2 (Henc _) (conj Hf eq_refl)). cbn [result_bind].
    rewrite app_assoc, Hlen in Hn. rewrite (proj2 (Hsize Hf _) (conj eq_refl Hn)). cbn [result_bind]. rewrite Ha. cbn [negb reject result_bind].
    rewrite emit_items_first, Hlen, Z.eqb_refl. cbn. by rewrite <-app_assoc.
Qed.

Lemma escape_nul units n : 0 ∈ escape units n → 0 ∈ units.
Proof.
  assert (Hr : ∀ m, 0 ∉ backslash_run m) by (intros m [? _]%elem_of_replicate; done).
  revert n. induction units as [|u units IH]; intros n; cbn [escape].
  { intros [?%Hr|?%list_elem_of_singleton]%elem_of_app; done. }
  destruct (u =? u_backslash); [intros ?%IH; by right|].
  destruct (u =? u_quote); intros [?%Hr|[<-|?%IH]%elem_of_cons]%elem_of_app; try done; by (left + right).
Qed.

Lemma quote_item_nul units : 0 ∈ quote_item units → 0 ∈ units.
Proof.
  unfold quote_item, append_quoted. destruct (needs_quotes units); [|done]. cbn [app].
  intros [?|?%escape_nul]%elem_of_cons; done.
Qed.

Lemma joined_nul items : 0 ∈ joined items → ∃ item, item ∈ items ∧ 0 ∈ item.
Proof.
  induction items as [|i items IH]; cbn [joined]; [by intros ?%elem_of_nil|].
  intros [?|[?%quote_item_nul|(j & Hj & ?)%IH]%elem_of_app]%elem_of_cons; [done| |].
  - exists i. split; [by left|done].
  - exists j. split; [by right|done].
Qed.

Lemma build_command_line_splits executable arguments limits line :
  ample Alloc → launch_limits_ok limits → program_ok executable →
  build_command_line executable arguments limits = Ok line →
  ∃ text, line = text ++ [0] ∧ (0 ∉ text) ∧ len line <= launch_command_line_units limits ∧
    split_command_line text = executable :: arguments.
Proof.
  intros Ha Hl Hp (_ & Hf & -> & Hlen)%build_command_line_Ok; [|done..].
  exists (quote_item executable ++ joined arguments). split_and!; [by rewrite app_assoc| |done|].
  - rewrite Forall_forall in Hf. intros [H0%quote_item_nul|(a & Hin & H0)%joined_nul]%elem_of_app;
      [by eapply (Hf executable); [left|]|by eapply (Hf a); [right|]].
  - rewrite program_split by (done || apply joined_ends). destruct arguments as [|a arguments]; [done|].
    cbn [joined]. f_equal. rewrite <-(joined_split (a :: arguments)). done.
Qed.

(** C28: a command line says exactly what was asked for.  The line that is built is
    the executable and the arguments, each quoted; it ends in the only NUL of it,
    fits the limit, and the documented splitting of the C runtime recovers exactly
    the executable and the arguments, whatever blanks, quotes and backslashes these
    contain; the executable is a Windows file path, without a quote and not ending
    in a backslash. *)
Theorem build_command_line_roundtrip executable arguments limits line :
  ample Alloc → launch_limits_ok limits → program_ok executable →
  build_command_line executable arguments limits = Ok line →
  ∃ text, line = text ++ [0] ∧ (0 ∉ text) ∧ len line <= launch_command_line_units limits ∧
    split_command_line text = executable :: arguments.
Proof. apply build_command_line_splits. Qed.

(** ** The environment *)

(** The documented reading of a block: strings ended by NUL, up to an empty one. *)
Fixpoint block_strings (block entry : OsStr) : option (list OsStr) :=
  match block with
  | [] => None
  | c :: block =>
    if c =? 0 then (if bool_decide (entry = []) then Some [] else cons entry <$> block_strings block [])
    else block_strings block (entry ++ [c])
  end.
Fixpoint split_entry (entry name : OsStr) : option (OsStr * OsStr) :=
  match entry with
  | [] => None
  | c :: entry => if c =? u_equals then Some (name, entry) else split_entry entry (name ++ [c])
  end.
Definition parse_environment (block : OsStr) : option (list (OsStr * OsStr)) :=
  entries ← block_strings block []; mapM (λ e, split_entry e []) entries.

Definition name_char (u : Z) : Prop := 65 <= u <= 90 ∨ u = 95 ∨ 48 <= u <= 57.

Lemma name_canonical_chars s : name_canonical s = true → s ≠ [] ∧ Forall (λ b, name_char (byte_val b)) s.
Proof.
  unfold name_canonical. rewrite !andb_true_iff, negb_true_iff, bool_decide_eq_false. intros [[Hne _] Hf].
  split; [done|]. apply Forall_lookup. intros i b Hi. rewrite forallb_forall in Hf.
  assert (Hin : In (i, b) (imap pair s)).
  { apply list_elem_of_In, list_elem_of_lookup. exists i. by rewrite list_lookup_imap, Hi. }
  apply Hf in Hin. unfold name_byte, is_ascii_uppercase, is_ascii_decimal, name_char in *. cbn in Hin.
  rewrite !orb_true_iff, !andb_true_iff, !in_range_true, Z.eqb_eq in Hin. lia.
Qed.

Lemma utf8_scalar_ascii c : 0 <= c <= 0x10FFFF → Forall (λ b, byte_val b < 128) (utf8_scalar c) → utf8_scalar c = [byte_of c] ∧ c < 128.
Proof.
  intros Hc. unfold utf8_scalar. destruct (Z.ltb_spec c 0x80); [done|]. intros Hf. exfalso. revert Hf.
  repeat case_match; rewrite Forall_cons, byte_val_of; intros [Hx _]; rewrite ?Z.ltb_lt, ?Z.ltb_ge in *; revert Hx; Z.div_mod_to_equations; lia.
Qed.

Lemma utf16_scalars_range units scalars :
  Forall (λ u, 0 <= u <= u16_max) units → utf16_scalars units = Some scalars → Forall (λ c, 0 <= c <= 0x10FFFF) scalars.
Proof.
  revert scalars. remember (length units) as n eqn:Hn. assert (Hle : (length units <= n)%nat) by lia. clear Hn. revert units Hle.
  induction n as [|n IH]; intros [|u units] Hle scalars Hf; cbn in *; try lia; try by intros [= <-].
  apply Forall_cons in Hf as [Hu Hf]. destruct ((u <? 0xD800) || (0xE000 <=? u)) eqn:Hb.
  { intros (l & Hl & ->)%fmap_Some. constructor; [unfold u16_max in Hu; lia|]. apply (IH units); [lia|done|done]. }
  destruct (Z.ltb_spec u 0xDC00); [|done]. destruct units as [|v units]; [done|]. apply Forall_cons in Hf as [Hv Hf].
  destruct (in_range 0xDC00 0xDFFF v) eqn:Hr; [|done]. apply in_range_true in Hr.
  apply orb_false_iff in Hb as [Hb%Z.ltb_ge _].
  intros (l & Hl & ->)%fmap_Some. constructor; [unfold u16_max in *; lia|]. apply (IH units); [cbn in Hle; lia|done|done].
Qed.

(** A name that is pure ASCII is its own units. *)
Lemma to_str_ascii units s :
  Forall (λ u, 0 <= u <= u16_max) units → to_str units = Some s → Forall (λ b, byte_val b < 128) s → units = map unit_of s.
Proof.
  unfold to_str. intros Hu (scalars & Hs & [= <-])%bind_Some Hf. pose proof (utf16_scalars_range _ _ Hu Hs) as Hnn.
  clear Hu. revert scalars Hs Hnn Hf. induction units as [|u units IH]; intros scalars Hs Hnn Hf; cbn in Hs.
  { by injection Hs as <-. }
  destruct ((u <? 0xD800) || (0xE000 <=? u)) eqn:Hb.
  - apply fmap_Some in Hs as (l & Hl & ->). cbn in Hf. apply Forall_app in Hf as [Hf1 Hf2]. apply Forall_cons in Hnn as [Hn Hnn].
    destruct (utf8_scalar_ascii u Hn Hf1) as [He Hlt]. cbn. rewrite He. cbn. f_equal; [|by apply IH].
    unfold unit_of. rewrite byte_val_of, Z.mod_small by lia. done.
  - exfalso. destruct (u <? 0xDC00); [|done]. destruct units as [|v units]; [done|]. destruct (in_range _ _ v) eqn:Hr; [|done].
    apply in_range_true in Hr. apply orb_false_iff in Hb as [Hb%Z.ltb_ge _].
    apply fmap_Some in Hs as (l & _ & ->). apply Forall_cons in Hnn as [Hn _]. cbn in Hf. apply Forall_app in Hf as [Hf _].
    apply utf8_scalar_ascii in Hf; [lia|done].
Qed.

(** What a variable promises once it is accepted. *)
Definition variable_ok (x : str * OsStr) : Prop := name_canonical x.1 = true ∧ Forall (λ u, u_space <= u) x.2.

Lemma collect_variables_Ok vars canonical m :
  ample Alloc → collect_variables vars canonical = Ok m →
  (∀ k v, m !! k = Some v ↔ canonical !! k = Some v ∨ ∃ n, (n, v) ∈ vars ∧ to_str n = Some k) ∧
  Forall (λ nv, ∃ k, to_str nv.1 = Some k ∧ variable_ok (k, nv.2)) vars ∧
  NoDup (vars.*1) ∧ Forall (λ nv, ∀ k, to_str nv.1 = Some k → canonical !! k = None) vars.
Proof.
  intros Ha. revert canonical. induction vars as [|[n v] vars IH]; intros canonical; cbn [collect_variables].
  { intros [= <-]. split_and!; [|constructor..]. intros k w. split; [by left|]. intros [?|(? & ?%elem_of_nil & _)]; done. }
  intros Hr. apply result_bind_Ok in Hr as (_ & _ & Hr). apply result_bind_Ok in Hr as (k & Hk%ok_or_Ok & Hr).
  apply result_bind_Ok in Hr as (_ & Hc%reject_Ok%negb_false_iff & Hr).
  apply result_bind_Ok in Hr as (w & (_ & _ & ->)%encode_units_Ok & Hr); [|done].
  apply result_bind_Ok in Hr as (_ & Hctl%reject_Ok & Hr).
  apply result_bind_Ok in Hr as (_ & Hnew%reject_Ok%bool_decide_eq_false%eq_None_not_Some & Hr).
  apply IH in Hr as (Hm & Hf & Hnd & Hfresh). split_and!.
  - intros k' v'. rewrite Hm, lookup_insert_Some. setoid_rewrite elem_of_cons. split.
    + intros [[[<- <-]|[_ ?]]|(n' & Hin & Hn')]; [right; exists n; auto|by left|right; exists n'; auto].
    + intros [?|(n' & [[= -> ->]|Hin] & Hn')].
      * left. right. split; [congruence|done].
      * left. left. split; congruence.
      * right. by exists n'.
  - constructor; [|done]. exists k. split; [done|]. split; [done|]. cbn. apply Forall_forall. intros u Hu%list_elem_of_In.
    destruct (Z.le_gt_cases u_space u) as [?|Hlt]; [done|]. rewrite <-not_true_iff_false, existsb_exists in Hctl.
    destruct Hctl. exists u. split; [done|]. by rewrite (proj2 (Z.ltb_lt _ _) Hlt).
  - cbn. constructor; [|done]. intros ([n' v'] & -> & Hin)%list_elem_of_fmap. rewrite Forall_forall in Hfresh.
    specialize (Hfresh _ Hin k Hk). by rewrite lookup_insert_eq in Hfresh.
  - constructor; [cbn [fst]; intros k' Hk'; rewrite Hk in Hk'; by injection Hk' as <-|]. eapply Forall_impl; [exact Hfresh|]. intros [n' v'] Hx k' Hk'.
    specialize (Hx k' Hk'). by apply lookup_insert_None in Hx as [? _].
Qed.

Lemma environment_size_run entries required n :
  environment_size entries required = Ok n → n = required + len (environment_block entries).
Proof.
  revert required. induction entries as [|[name value] entries IH]; intros required; cbn [environment_size environment_block].
  { intros [= <-]. rewrite len_nil. lia. }
  intros Hr. apply result_bind_Ok in Hr as (r & Hr%ok_or_Ok & ->%IH).
  apply bind_Some in Hr as (a & [-> _]%checked_add_Some & Hr). apply bind_Some in Hr as (b & [-> _]%checked_add_Some & Hr).
  apply bind_Some in Hr as (c & [-> _]%checked_add_Some & [-> _]%checked_add_Some).
  rewrite len_app, len_cons, len_app, len_cons. replace (len (map unit_of name)) with (len name) by (unfold len; by rewrite length_map). lia.
Qed.

Lemma block_strings_entry chars block entry :
  0 ∉ chars → entry ++ chars ≠ [] →
  block_strings (chars ++ 0 :: block) entry = cons (entry ++ chars) <$> block_strings block [].
Proof.
  revert entry. induction chars as [|c chars IH]; intros entry Hn Hne; cbn [app block_strings].
  { rewrite Z.eqb_refl, app_nil_r in *. by rewrite bool_decide_eq_false_2. }
  apply not_elem_of_cons in Hn as [Hc Hn]. rewrite (proj2 (Z.eqb_neq c 0)) by auto.
  rewrite IH; [by rewrite <-app_assoc|done|by destruct entry].
Qed.

Lemma split_entry_name name value acc :
  u_equals ∉ name → split_entry (name ++ u_equals :: value) acc = Some (acc ++ name, value).
Proof.
  revert acc. induction name as [|c name IH]; intros acc Hn; cbn [app split_entry]; [by rewrite app_nil_r|].
  apply not_elem_of_cons in Hn as [Hc Hn]. rewrite (proj2 (Z.eqb_neq c u_equals)) by auto. by rewrite IH, <-app_assoc.
Qed.

Lemma canonical_units k : name_canonical k = true → map unit_of k ≠ [] ∧ (0 ∉ map unit_of k) ∧ (u_equals ∉ map unit_of k).
Proof.
  intros [Hne Hf]%name_canonical_chars. rewrite Forall_forall in Hf. split_and!; [by destruct k| |];
    intros (b & Hb & Hin%Hf)%list_elem_of_fmap; unfold unit_of, name_char, u_equals in *; lia.
Qed.

Lemma block_reads entries rest :
  Forall variable_ok entries →
  parse_environment (environment_block entries ++ 0 :: rest) = Some (map (λ x, (map unit_of x.1, x.2)) entries).
Proof.
  unfold parse_environment. induction 1 as [|[k v] entries [Hk Hv] _ IH]; [done|]. cbn [environment_block map fst snd].
  destruct (canonical_units k Hk) as (Hne & H0 & He).
  rewrite <-app_assoc. cbn [app]. rewrite <-app_assoc. cbn [app].
  change (map unit_of k ++ u_equals :: v ++ 0 :: ?l) with (map unit_of k ++ ([u_equals] ++ v) ++ 0 :: l). rewrite app_assoc.
  rewrite block_strings_entry; cbn [app].
  - destruct (block_strings (environment_block entries ++ 0 :: rest) []) as [strings|]; [|done]. cbn in *.
    rewrite split_entry_name by done. cbn. rewrite IH. done.
  - intros [?|[?|Hin]%elem_of_cons]%elem_of_app; [done|done|]. rewrite Forall_forall in Hv. apply Hv in Hin. cbn in Hin. unfold u_space in Hin. lia.
  - by destruct k.
Qed.

(** the environment block holds exactly the variables given.  Read by the
    documented rule, it lists every variable with its value, once, and no other; it
    fits the ceiling of the system. *)
Theorem environment_new_roundtrip vars env :
  ample Alloc → Forall (λ nv, Forall (λ u, 0 <= u <= u16_max) nv.1) vars → environment_new vars = Ok env →
  ∃ entries, parse_environment (env_block env) = Some entries ∧ NoDup entries.*1 ∧
    (∀ n v, (n, v) ∈ entries ↔ (n, v) ∈ vars) ∧
    variable_count env = len entries ∧ len (env_block env) <= WINDOWS_ENVIRONMENT_MAX_UNITS.
Proof.
  intros Ha Hu Hr. unfold environment_new in Hr. apply result_bind_Ok in Hr as (m & Hm & Hr).
  apply collect_variables_Ok in Hm as (Hlook & Hvars & Hnd & _); [|done].
  assert (Hname : ∀ n v k, (n, v) ∈ vars → to_str n = Some k → n = map unit_of k ∧ variable_ok (k, v)).
  { intros n v k Hin Hk. rewrite Forall_forall in Hvars, Hu. destruct (Hvars _ Hin) as (k' & Hk' & Hok). cbn [fst snd] in *.
    assert (k' = k) as -> by congruence. split; [|done]. apply to_str_ascii; [by apply (Hu _ Hin)|done|].
    destruct Hok as [[_ Hc]%name_canonical_chars _]. eapply Forall_impl; [exact Hc|]. unfold name_char. cbn. lia. }
  assert (Hentries : ∀ n v, (n, v) ∈ map (λ x, (map unit_of x.1, x.2)) (btree_iter str_le m) ↔ (n, v) ∈ vars).
  { intros n v. rewrite list_elem_of_fmap. split.
    - intros ([k w] & [= -> ->] & Hin%elem_of_btree_iter). apply Hlook in Hin as [Hin|(n & Hin & Hk)].
      + by rewrite lookup_empty in Hin.
      + by destruct (Hname _ _ _ Hin Hk) as [-> _].
    - intros Hin. rewrite Forall_forall in Hvars. destruct (Hvars _ Hin) as (k & Hk & _). cbn [fst snd] in Hk.
      destruct (Hname _ _ _ Hin Hk) as [-> _]. exists (k, v). split; [done|]. apply elem_of_btree_iter, Hlook. right. by eexists. }
  assert (Hok : Forall variable_ok (btree_iter str_le m)).
  { apply Forall_forall. intros [k w] Hin%elem_of_btree_iter. apply Hlook in Hin as [Hin|(n & Hin & Hk)]; [by rewrite lookup_empty in Hin|].
    by destruct (Hname _ _ _ Hin Hk). }
  assert (Hinj : NoDup (map (λ x : str * OsStr, (map unit_of x.1, x.2)) (btree_iter str_le m)).*1).
  { rewrite <-list_fmap_compose. change (fst ∘ (λ x : str * OsStr, (map unit_of x.1, x.2))) with (map unit_of ∘ (@fst str OsStr)).
    rewrite list_fmap_compose. apply NoDup_fmap_2; [|apply btree_iter_NoDup]. apply list_fmap_eq_inj. intros b b' Hb. by apply byte_val_inj. }
  assert (Hcount : map_len m = len (map (λ x : str * OsStr, (map unit_of x.1, x.2)) (btree_iter str_le m))).
  { unfold map_len, len. rewrite length_map, (Permutation_length (btree_iter_perm _ _)). by rewrite length_map_to_list. }
  exists (map (λ x, (map unit_of x.1, x.2)) (btree_iter str_le m)). unfold encode_environment_block in Hr.
  destruct (Z.eqb_spec (map_len m) 0) as [H0|H0].
  - injection Hr as <-. cbn [environment_empty env_block variable_count]. rewrite Hcount in H0. pose proof H0 as Hnil%len_zero.
    rewrite Hnil in *. split_and!; [done|done|done|done|by vm_compute].
  - apply result_bind_Ok in Hr as (n & ->%environment_size_run & Hr). apply result_bind_Ok in Hr as (_ & Hmax%reject_Ok%Z.ltb_ge & Hr).
    do 2 apply result_bind_Ok in Hr as (_ & _ & Hr). injection Hr as <-. cbn [env_block variable_count].
    split_and!; [by apply (block_reads _ [])|done|done|done|]. rewrite len_app. change (len [0]) with 1. lia.
Qed.
End Line.

(** ** No process runs outside its job *)

Definition bound_to (executable : LockedExecutable) (prepared : PreparedProcessLaunch) : Prop :=
  locked_path executable = prepared_executable_path prepared ∧
  locked_identity executable = prepared_executable_identity prepared ∧
  lock_instance_id executable = prepared_lock_instance_id prepared.

Lemma launch_prepared_run os job executable prepared trace r trace' :
  launch_prepared os job executable prepared trace = (r, trace') →
  ∃ steps, trace' = trace ++ steps ∧
    (Effect_Resume ∈ steps → os_membership os = Ok true ∧ bound_to executable prepared) ∧
    match r with
    | Ok p => steps = [Effect_CreateSuspended prepared; Effect_QueryMembership; Effect_Resume] ∧
              bound_to executable prepared ∧ os_create os = Ok (process_id p) ∧ os_membership os = Ok true ∧ os_resume os = Ok tt ∧
              p = mkOwnedProcess (process_id p) job executable
    | Err _ => steps = [] ∨ (steps = [Effect_CreateSuspended prepared] ∧ is_ok (os_create os) = false) ∨
               ∃ before, steps = before ++ [Effect_TerminateProcess 1; Effect_TerminateJob 1]
    end.
Proof.
  unfold launch_prepared, launch_owned_process, complete_owned_process, abort_created_process, perform, bound_to.
  unfold mut_bind, mut_lift, mut_ret.
  destruct (bool_decide _ || _ || _) eqn:Hb; cbn [reject].
  { intros [= <- <-]. exists []. rewrite app_nil_r. split_and!; [done|by intros ?%elem_of_nil|by left]. }
  apply orb_false_iff in Hb as [[H1%bool_decide_eq_false%dec_stable H2%bool_decide_eq_false%dec_stable]%orb_false_iff H3%bool_decide_eq_false%dec_stable].
  destruct (os_attributes os) as [[]|e]; [|intros [= <- <-]; exists []; rewrite app_nil_r; split_and!; [done|by intros ?%elem_of_nil|by left]].
  destruct (os_create os) as [pid|e].
  2: { intros [= <- <-]. eexists. split; [reflexivity|]. split; [by intros ?%list_elem_of_singleton|]. right. by left. }
  destruct (os_membership os) as [[|]|e]; [destruct (os_resume os) as [[]|e]|..]; intros [= <- <-]; rewrite <-!app_assoc;
    (eexists; split; [reflexivity|]; split; [try (intros _; by split_and!)|]).
  - cbn. by split_and!.
  - right. right. by exists [Effect_CreateSuspended prepared; Effect_QueryMembership; Effect_Resume].
  - cbn. rewrite !elem_of_cons, elem_of_nil. intros [?|[?|[?|[?|?]]]]; done.
  - right. right. by exists [Effect_CreateSuspended prepared; Effect_QueryMembership].
  - cbn. rewrite !elem_of_cons, elem_of_nil. intros [?|[?|[?|[?|?]]]]; done.
  - right. right. by exists [Effect_CreateSuspended prepared; Effect_QueryMembership].
Qed.

(** no process runs outside its job, and none is left behind.  A prepared launch
    is used with the very lock it was prepared for; the primary thread is resumed
    only after the membership of the job was confirmed; and whenever a created
    process cannot be handed over, the process and then its job are terminated. *)
Theorem launch_prepared_safe os job executable prepared trace r trace' :
  launch_prepared os job executable prepared trace = (r, trace') →
  ∃ steps, trace' = trace ++ steps ∧
    (Effect_Resume ∈ steps → os_membership os = Ok true ∧ bound_to executable prepared) ∧
    match r with
    | Ok p => steps = [Effect_CreateSuspended prepared; Effect_QueryMembership; Effect_Resume] ∧
              bound_to executable prepared ∧ os_create os = Ok (process_id p) ∧ os_membership os = Ok true ∧ os_resume os = Ok tt ∧
              p = mkOwnedProcess (process_id p) job executable
    | Err _ => steps = [] ∨ (steps = [Effect_CreateSuspended prepared] ∧ is_ok (os_create os) = false) ∨
               ∃ before, steps = before ++ [Effect_TerminateProcess 1; Effect_TerminateJob 1]
    end.
Proof. apply launch_prepared_run. Qed.

(** ** Concrete launches *)

Definition sample_program : OsStr := map unit_of (lit "C:\Program Files\helper.exe").
Definition quoting_arguments : list OsStr :=
  [[]; map unit_of (lit "plain"); map unit_of (lit "a\") ++ u_quote :: map unit_of (lit "b"); map unit_of (lit "trailing slash \")].
Definition sample_launch_limits : ProcessLaunchLimits := mkLaunchLimits 4 128 1024.

Lemma sample_launch_limits_ok : launch_limits_ok sample_launch_limits.
Proof. by vm_compute. Qed.
Lemma sample_program_ok : program_ok sample_program.
Proof. split; by apply (bool_decide_unpack _). Qed.
Lemma sample_line_ok :
  is_ok (build_command_line (Alloc := ample_allocator) sample_program quoting_arguments sample_launch_limits) = true.
Proof. by vm_compute. Qed.
Definition sample_line : OsStr := from_ok _ sample_line_ok.

Lemma build_command_line_roundtrip_witness :
  ∃ text, sample_line = text ++ [0] ∧ split_command_line text = sample_program :: quoting_arguments.
Proof.
  destruct (build_command_line_roundtrip (Alloc := ample_allocator) sample_program quoting_arguments sample_launch_limits sample_line
    ample_allocator_ample sample_launch_limits_ok sample_program_ok (from_ok_eq _ _)) as (text & Ht & _ & _ & Hs).
  exists text. exact (conj Ht Hs).
Defined.

Definition sample_variables : list (OsStr * OsStr) :=
  [(map unit_of (lit "PATH"), map unit_of (lit "C:\a=b")); (map unit_of (lit "LANG_1"), [])].
Lemma sample_environment_ok : is_ok (environment_new (Alloc := ample_allocator) sample_variables) = true.
Proof. by vm_compute. Qed.
Definition sample_environment : ProcessEnvironment := from_ok _ sample_environment_ok.
Lemma sample_variables_units : Forall (λ nv : OsStr * OsStr, Forall (λ u, 0 <= u <= u16_max) nv.1) sample_variables.
Proof. repeat (apply Forall_cons_2 || apply Forall_nil_2); vm_compute; by split. Qed.

Lemma environment_new_roundtrip_witness :
  ∃ entries, parse_environment (env_block sample_environment) = Some entries ∧
    (map unit_of (lit "PATH"), map unit_of (lit "C:\a=b")) ∈ entries.
Proof.
  destruct (environment_new_roundtrip (Alloc := ample_allocator) sample_variables sample_environment ample_allocator_ample
    sample_variables_units (from_ok_eq _ _)) as (entries & Hp & _ & Hin & _).
  exists entries. exact (conj Hp (proj2 (Hin _ _) (list_elem_of_here _ _))).
Defined.

Definition sample_locked : LockedExecutable := mkLocked sample_program (Some (map unit_of (lit "C:\Program Files"))) 5 99.
Definition sample_prepared_ok : is_ok (prepare_launch (Alloc := ample_allocator) sample_locked quoting_arguments sample_launch_limits) = true := eq_refl.
Definition prepared_sample : PreparedProcessLaunch := from_ok _ sample_prepared_ok.
Definition refused_os : launch_os := mkLaunchOs (Ok tt) (Ok 17) (Ok false) (Ok tt).
Definition sample_job : JobLimits := mkJobLimits 4 1000 2000.

Lemma launch_prepared_safe_witness :
  ∃ steps, (launch_prepared refused_os sample_job sample_locked prepared_sample []).2 = steps ∧ Effect_Resume ∉ steps.
Proof.
  destruct (launch_prepared_safe refused_os sample_job sample_locked prepared_sample [] _ _ (surjective_pairing _)) as (steps & Ht & Hr & _).
  exists steps. split; [exact Ht|]. intros Hx. destruct (Hr Hx) as [H _]. discriminate H.
Defined.
