(* ===== verification/Authorization.v ===== *)
(** * Authorization: live execution authorization and supervised launch

    Models [crates/weregopher-transform/src/execution_authorization.rs]: local
    execution policies and their store, the limits and hashes of policy evidence,
    the decision [authorize_execution] over an exact contract, its resolution, the
    compatibility analysis and a retained executable, the digest of its context, and
    [launch_authorized_execution], which consumes a decision.

    The stores are those of [Policy]: addresses in a heap of locks.  A store is
    read twice by a decision, and others may run in between, so [authorize_execution]
    takes the heap of each reading.  Whether the current view of a retained artifact
    still verifies is asked of the file system: it is the argument [view].  What
    Windows answers is [launch_os], and [create_job] for the job object. *)

From S2P Require Import Prelude Text Wire Evidence Policy Compatibility Overlay Execution ExecutionTarget Launch.

Definition CompatibilityAnalysisDigest : Type := Sha256Digest.
Definition UserPolicyDigest : Type := Sha256Digest.
Definition AuthorizationContextDigest : Type := Sha256Digest.

Definition WINDOWS_MAX_COMMAND_LINE_UNITS : Z := 32767.
Definition WINDOWS_MAX_SINGLE_VALUE_UNITS : Z := 32766.
Definition MAX_EXECUTION_POLICY_EVIDENCE_BYTES : Z := 1024 * 1024.
Definition MAX_TOTAL_EXECUTION_POLICY_EVIDENCE_BYTES : Z := 4 * 1024 * 1024.

#[global] Instance TrustMode_eq_dec : EqDecision TrustMode.
Proof. solve_decision. Defined.

Inductive ExecutionAuthorizationError : Type :=
| Auth_InvalidLimits
| Auth_EvidenceLimitsExceedImplementationMaximum
| Auth_EvidenceByteLimitExceeded
| Auth_EvidenceByteCountOverflow
| Auth_AggregateEvidenceByteLimitExceeded
| Auth_UnsupportedTrustMode
| Auth_UnsupportedSecurityPosture
| Auth_UnsupportedLaunchSemantics
| Auth_UnsupportedStateMode
| Auth_UnsupportedDependencyPolicy
| Auth_UnrepresentableLaunch
| Auth_UnrepresentableResourceLimits
| Auth_DeveloperModeRequiresDisposableState
| Auth_PolicyStorePoisoned
| Auth_PolicyGenerationExhausted
| Auth_PolicyStoreUnavailable
| Auth_PolicyRevoked
| Auth_PolicyChanged
| Auth_AuthorityIdentityMismatch
| Auth_AuthorityDigestMismatch
| Auth_SourceBuildContextMismatch
| Auth_PackageTreeContextMismatch
| Auth_ExecutionEnvironmentContextMismatch
| Auth_BuildDescriptorContextMismatch
| Auth_TargetPolicyMismatch
| Auth_UnknownTarget
| Auth_TargetContractDigestMismatch
| Auth_TargetKindMismatch
| Auth_ArtifactSourceMismatch
| Auth_ResolutionEvidenceDigestMismatch
| Auth_ResolutionTargetMismatch
| Auth_ResolutionLocatorMismatch
| Auth_ResolutionContractMismatch
| Auth_ResolutionArtifactSourceMismatch
| Auth_ResolutionExecutableMismatch
| Auth_ArtifactTrustEvidenceMismatch
| Auth_ProvenanceEvidenceMismatch
| Auth_CompatibilityDigestMismatch
| Auth_CompatibilityDenied
| Auth_CompatibilitySourceMismatch
| Auth_CompatibilityEnvironmentMismatch
| Auth_CapabilityPolicyMismatch
| Auth_StatePolicyMismatch
| Auth_UserPolicyMismatch
| Auth_SecurityPostureMismatch
| Auth_StateModeMismatch
| Auth_RetainedArtifactSourceMismatch
| Auth_RetainedArtifactLocatorMismatch
| Auth_RetainedArtifactSourceDigestMismatch
| Auth_RetainedExecutableDigestMismatch
| Auth_RetainedArtifactCurrentViewInvalid
| Auth_CanonicalSerializationFailed
| Auth_AuthorizationContextEncodingFailed.

#[global] Instance ExecutionAuthorizationError_policy : PolicyErrors ExecutionAuthorizationError := {|
  PolicyStorePoisoned := Auth_PolicyStorePoisoned;
  PolicyGenerationExhausted := Auth_PolicyGenerationExhausted;
  PolicyStoreUnavailable := Auth_PolicyStoreUnavailable;
  PolicyRevoked := Auth_PolicyRevoked;
  PolicyChanged := Auth_PolicyChanged
|}.

Inductive SupervisedExecutionError : Type :=
| Supervised_Authorization (source : ExecutionAuthorizationError)
| Supervised_JobCreation (source : LaunchError)
| Supervised_ProcessLaunch (source : LaunchError).

(** ** Local policies *)

Record ExecutionAuthorityPins : Type := mkAuthorityPins {
  pinned_adapter_id : AdapterId;
  pinned_family : ApplicationFamilyId;
  pinned_adapter_content_digest : Sha256Digest;
  pinned_authority_document_digest : Sha256Digest
}.
Record ExecutionContextPins : Type := mkContextPins {
  pinned_source_build_fingerprint_digest : Sha256Digest;
  pinned_package_tree_merkle : Sha256Digest;
  pinned_execution_environment_digest : Sha256Digest;
  pinned_build_descriptor_digest : Sha256Digest
}.
Record ExecutionTargetPins : Type := mkTargetPins {
  pinned_target_id : ExecutionTargetId;
  pinned_target_contract_digest : ExecutionContractDigest;
  pinned_resolution_evidence_digest : ExecutionResolutionEvidenceDigest;
  pinned_artifact_trust_evidence_digest : ArtifactTrustEvidenceDigest;
  pinned_provenance_evidence_digest : ProvenanceEvidenceDigest;
  pinned_compatibility_analysis_digest : CompatibilityAnalysisDigest;
  pinned_capability_policy_digest : CapabilityPolicyDigest;
  pinned_state_policy_digest : StatePolicyDigest;
  pinned_user_policy_digest : UserPolicyDigest;
  pinned_security_posture : EffectiveSecurityPosture;
  pinned_state_mode : ExecutionStateMode
}.
Record LocalExecutionPolicy : Type := mkLocalExecutionPolicy {
  policy_trust_mode : TrustMode;
  policy_authority : ExecutionAuthorityPins;
  policy_context : ExecutionContextPins;
  policy_target : ExecutionTargetPins;
  policy_revision_digest : Sha256Digest
}.

Definition local_execution_policy_new (trust_mode : TrustMode) (authority : ExecutionAuthorityPins)
    (context : ExecutionContextPins) (target : ExecutionTargetPins) (revision_digest : Sha256Digest) :
    result LocalExecutionPolicy ExecutionAuthorizationError :=
  do? reject (bool_decide (pinned_security_posture target ≠ Effective_VendorEquivalentFullTrust))
    Auth_UnsupportedSecurityPosture in
  do? match trust_mode with
      | Trust_LocallyTrusted => Ok tt
      | Trust_Developer =>
        reject (negb (bool_decide (pinned_state_mode target = StateMode_Disposable))) Auth_DeveloperModeRequiresDisposableState
      | Trust_RegistryTrusted | Trust_ForensicOverride => Err Auth_UnsupportedTrustMode
      end in
  Ok (mkLocalExecutionPolicy trust_mode authority context target revision_digest).

(** ** The policy store *)

Abbreviation ExecutionPolicyState := (PolicyState LocalExecutionPolicy).
Abbreviation ExecutionPolicyHeap := (PolicyHeap LocalExecutionPolicy).

Definition execution_policy_store_new (policy : LocalExecutionPolicy) : PolicyLock LocalExecutionPolicy :=
  policy_store_new policy.
Definition execution_replace_policy (policy : LocalExecutionPolicy) :
    mut (PolicyLock LocalExecutionPolicy) ExecutionAuthorizationError unit := replace_policy policy.
Definition execution_revoke (revocation_evidence_digest : Sha256Digest) :
    mut (PolicyLock LocalExecutionPolicy) ExecutionAuthorizationError unit := revoke revocation_evidence_digest.
Definition execution_snapshot (store : PolicyLock LocalExecutionPolicy) :
    result ExecutionPolicyState ExecutionAuthorizationError := snapshot store.

(** Only the generation is compared, not the policy. *)
Definition verify_policy_state (state : ExecutionPolicyState) (expected_generation : Z) :
    result unit ExecutionAuthorizationError :=
  do? reject (bool_decide (is_Some (revocation_evidence_digest state))) Auth_PolicyRevoked in
  reject (negb (generation state =? expected_generation)) Auth_PolicyChanged.

Definition verify_policy_generation (store : PolicyLock LocalExecutionPolicy) (generation : Z) :
    result unit ExecutionAuthorizationError :=
  let? state := lock_guard store in
  do? reject (bool_decide (is_Some (revocation_evidence_digest state))) Auth_PolicyRevoked in
  reject (negb (Policy.generation state =? generation)) Auth_PolicyChanged.

(** ** Evidence *)

Record ExecutionAuthorizationLimits : Type := mkAuthorizationLimits {
  max_evidence_bytes : Z;
  max_total_evidence_bytes : Z
}.
Definition authorization_limits_new (max_evidence_bytes max_total_evidence_bytes : Z) :
    result ExecutionAuthorizationLimits ExecutionAuthorizationError :=
  do? reject ((max_evidence_bytes =? 0) || (max_total_evidence_bytes =? 0)) Auth_InvalidLimits in
  do? reject ((MAX_EXECUTION_POLICY_EVIDENCE_BYTES <? max_evidence_bytes) ||
              (MAX_TOTAL_EXECUTION_POLICY_EVIDENCE_BYTES <? max_total_evidence_bytes))
    Auth_EvidenceLimitsExceedImplementationMaximum in
  Ok (mkAuthorizationLimits max_evidence_bytes max_total_evidence_bytes).

Record ExecutionPolicyEvidence : Type := mkPolicyEvidence {
  artifact_trust : bytes;
  provenance : bytes;
  capability_policy : bytes;
  state_policy : bytes;
  user_policy : bytes
}.
Record PolicyEvidenceDigests : Type := mkEvidenceDigests {
  artifact_trust_digest : ArtifactTrustEvidenceDigest;
  provenance_digest : ProvenanceEvidenceDigest;
  capability_policy_digest : CapabilityPolicyDigest;
  state_policy_digest : StatePolicyDigest;
  user_policy_digest : UserPolicyDigest
}.
Definition into_sha256_array (self : PolicyEvidenceDigests) : list Sha256Digest :=
  [artifact_trust_digest self; provenance_digest self; capability_policy_digest self; state_policy_digest self;
   user_policy_digest self].

(** The loop over the values of [hash_policy_evidence]. *)
Fixpoint bound_evidence (limits : ExecutionAuthorizationLimits) (values : list bytes) (total : Z) :
    result Z ExecutionAuthorizationError :=
  match values with
  | [] => Ok total
  | value :: values =>
    do? reject (max_evidence_bytes limits <? len value) Auth_EvidenceByteLimitExceeded in
    let? total := ok_or (checked_add usize_max total (len value)) Auth_EvidenceByteCountOverflow in
    do? reject (max_total_evidence_bytes limits <? total) Auth_AggregateEvidenceByteLimitExceeded in
    bound_evidence limits values total
  end.
Definition evidence_values (evidence : ExecutionPolicyEvidence) : list bytes :=
  [artifact_trust evidence; provenance evidence; capability_policy evidence; state_policy evidence; user_policy evidence].

Definition hash_policy_evidence `{HS : Sha256} (evidence : ExecutionPolicyEvidence) (limits : ExecutionAuthorizationLimits) :
    result PolicyEvidenceDigests ExecutionAuthorizationError :=
  let? _ := bound_evidence limits (evidence_values evidence) 0 in
  Ok (mkEvidenceDigests (sha256 (artifact_trust evidence)) (sha256 (provenance evidence))
        (sha256 (capability_policy evidence)) (sha256 (state_policy evidence)) (sha256 (user_policy evidence))).

(** ** Retained artifacts *)

(** [PackageSnapshotExecutable] of [snapshot.rs], whose lease is the tree it retains. *)
Record PackageSnapshotExecutable : Type := mkSnapshotExecutable {
  snapshot_package_tree_merkle : Sha256Digest;
  snapshot_normalized_path : str;
  snapshot_digest : Sha256Digest;
  snapshot_locked : LockedExecutable
}.
(** [ManagedArtifactExecutable] of [store.rs], whose lease is the manifest it retains. *)
Record ManagedArtifactExecutable : Type := mkManagedExecutable {
  managed_manifest_digest : Sha256Digest;
  managed_digest : Sha256Digest;
  managed_locked : LockedExecutable
}.
Inductive RetainedExecutionArtifact : Type :=
| Retained_PackageSnapshot (executable : PackageSnapshotExecutable)
| Retained_ManagedArtifact (executable : ManagedArtifactExecutable).

Definition artifact_source (self : RetainedExecutionArtifact) : ExecutionArtifactSource :=
  match self with
  | Retained_PackageSnapshot _ => ArtifactSource_PackageSnapshot
  | Retained_ManagedArtifact _ => ArtifactSource_ManagedArtifact
  end.
Definition artifact_source_digest (self : RetainedExecutionArtifact) : Sha256Digest :=
  match self with
  | Retained_PackageSnapshot executable => snapshot_package_tree_merkle executable
  | Retained_ManagedArtifact executable => managed_manifest_digest executable
  end.
Definition artifact_digest (self : RetainedExecutionArtifact) : Sha256Digest :=
  match self with
  | Retained_PackageSnapshot executable => snapshot_digest executable
  | Retained_ManagedArtifact executable => managed_digest executable
  end.
Definition matches_locator (self : RetainedExecutionArtifact) (locator : ExecutionArtifactLocator) : bool :=
  match self, locator with
  | Retained_PackageSnapshot executable, Locator_PackageSnapshot path =>
    bool_decide (path = snapshot_normalized_path executable)
  | Retained_ManagedArtifact executable, Locator_ManagedArtifact digest => bool_decide (digest = managed_digest executable)
  | _, _ => false
  end.
Definition artifact_locked (self : RetainedExecutionArtifact) : LockedExecutable :=
  match self with
  | Retained_PackageSnapshot executable => snapshot_locked executable
  | Retained_ManagedArtifact executable => managed_locked executable
  end.
Definition verify_current (view : RetainedExecutionArtifact → bool) (self : RetainedExecutionArtifact) :
    result unit ExecutionAuthorizationError :=
  reject (negb (view self)) Auth_RetainedArtifactCurrentViewInvalid.

(** The lease an executable is retained by: its source and the identity it retains. *)
Definition RetainedExecutionLease : Type := ExecutionArtifactSource * Sha256Digest.
Definition into_launch_parts (self : RetainedExecutionArtifact) : RetainedExecutionLease * LockedExecutable :=
  ((artifact_source self, artifact_source_digest self), artifact_locked self).

(** ** Preparing the launch *)

(** [OsString::from] a string and [encode_wide]: the UTF-16 code units of its
    characters. *)
Definition char_scalar (c : str) : Z :=
  match map byte_val c with
  | [a] => a
  | [a; b] => (a - 0xC0) * 64 + (b - 0x80)
  | [a; b; d] => (a - 0xE0) * 4096 + (b - 0x80) * 64 + (d - 0x80)
  | [a; b; d; e] => (a - 0xF0) * 262144 + (b - 0x80) * 4096 + (d - 0x80) * 64 + (e - 0x80)
  | _ => 0
  end.
Definition scalar_units (c : Z) : OsStr :=
  if c <? 0x10000 then [c] else [0xD800 + (c - 0x10000) / 1024; 0xDC00 + (c - 0x10000) mod 1024].
Definition os_string_from (s : str) : OsStr := concat (map (λ c, scalar_units (char_scalar c)) (chars s)).

Record PreparedAuthorizedLaunch : Type := mkPreparedAuthorized {
  prepared_job_limits : JobLimits;
  prepared_process : PreparedProcessLaunch
}.

Definition prepare_authorized_launch `{Alloc : Allocator} (artifact : RetainedExecutionArtifact)
    (launch_policy : ExecutionLaunchPolicy) : result PreparedAuthorizedLaunch ExecutionAuthorizationError :=
  do? reject (bool_decide (dependency_policy launch_policy ≠ Dependency_VendorDefaultAmbient))
    Auth_UnsupportedDependencyPolicy in
  do? reject (bool_decide (state_mode launch_policy ≠ StateMode_VendorDefault)) Auth_UnsupportedStateMode in
  do? reject (bool_decide (environment launch_policy ≠ Environment_Empty) ||
              bool_decide (inherited_handles launch_policy ≠ InheritedHandles_None) ||
              bool_decide (console launch_policy ≠ Console_None) ||
              bool_decide (working_directory launch_policy ≠ WorkingDirectory_ExecutableParent))
    Auth_UnsupportedLaunchSemantics in
  do? reject (negb (Alloc (len (launch_policy_arguments launch_policy)))) Auth_UnrepresentableLaunch in
  let arguments := map os_string_from (launch_policy_arguments launch_policy) in
  let? process_limits := map_err (λ _, Auth_UnrepresentableLaunch)
    (launch_limits_new MAX_EXECUTION_ARGUMENTS WINDOWS_MAX_SINGLE_VALUE_UNITS WINDOWS_MAX_COMMAND_LINE_UNITS) in
  let? process := map_err (λ _, Auth_UnrepresentableLaunch)
    (prepare_launch (artifact_locked artifact) arguments process_limits) in
  let resources := resource_limits launch_policy in
  let? job_limits := map_err (λ _, Auth_UnrepresentableResourceLimits)
    (job_limits_new (active_process_limit resources) (process_memory_limit_bytes resources) (job_memory_limit_bytes resources)) in
  Ok (mkPreparedAuthorized job_limits process).

(** ** The decision *)

Record ExecutionAuthorizationRequest : Type := mkAuthorizationRequest {
  request_structural_overlay : StructurallyValidatedExecutionOverlay;
  request_target_contract : ExecutionTargetContract;
  request_resolution_evidence : ExecutionResolutionEvidence;
  request_compatibility_analysis : CompatibilityAnalysis;
  request_policy_store : Address;
  request_policy_evidence : ExecutionPolicyEvidence;
  request_retained_artifact : RetainedExecutionArtifact;
  request_limits : ExecutionAuthorizationLimits
}.

Record AuthorizedExecution : Type := mkAuthorized {
  authorized_target_id : ExecutionTargetId;
  authorized_trust_mode : TrustMode;
  effective_security_posture : EffectiveSecurityPosture;
  authorized_launch_policy : ExecutionLaunchPolicy;
  authorization_context : AuthorizationContextDigest;
  authorized_policy_store : Address;
  authorized_policy_generation : Z;
  prepared_launch : PreparedAuthorizedLaunch;
  retained_artifact : RetainedExecutionArtifact
}.

Record ValidatedExecutionBindings : Type := mkValidatedBindings {
  validated_authority_digest : Sha256Digest;
  validated_target_id : ExecutionTargetId;
  validated_contract_digest : ExecutionContractDigest;
  validated_resolution_digest : ExecutionResolutionEvidenceDigest;
  validated_artifact_source : ExecutionArtifactSource;
  validated_artifact_source_digest : ExecutionArtifactSourceDigest;
  validated_executable_digest : ExecutableDigest
}.

Record AuthorizationContextDigests : Type := mkContextDigests {
  context_authority_document : Sha256Digest;
  context_target_contract : ExecutionContractDigest;
  context_resolution_evidence : ExecutionResolutionEvidenceDigest;
  context_artifact_source : ExecutionArtifactSourceDigest;
  context_executable : ExecutableDigest;
  context_compatibility_analysis : CompatibilityAnalysisDigest;
  context_policy_evidence : PolicyEvidenceDigests
}.

Definition trust_mode_tag (trust_mode : TrustMode) : Z :=
  match trust_mode with
  | Trust_RegistryTrusted => 0 | Trust_LocallyTrusted => 1 | Trust_Developer => 2 | Trust_ForensicOverride => 3
  end.

Definition AUTHORIZATION_CONTEXT_DOMAIN : bytes := lit "weregopher-live-execution-authorization-v1" ++ [byte_of 0].

(** What [authorization_context_digest] hashes; a length always fits [u64]. *)
Definition authorization_preimage (target_id : ExecutionTargetId) (digests : AuthorizationContextDigests)
    (policy : LocalExecutionPolicy) (generation : Z) : bytes :=
  AUTHORIZATION_CONTEXT_DOMAIN ++ le_bytes 8 (len target_id) ++ target_id ++
  concat [context_authority_document digests; pinned_source_build_fingerprint_digest (policy_context policy);
          pinned_package_tree_merkle (policy_context policy); pinned_execution_environment_digest (policy_context policy);
          pinned_build_descriptor_digest (policy_context policy)] ++
  concat [context_target_contract digests; context_resolution_evidence digests; context_artifact_source digests;
          context_executable digests; context_compatibility_analysis digests] ++
  concat (into_sha256_array (context_policy_evidence digests)) ++
  policy_revision_digest policy ++ le_bytes 8 generation ++ [byte_of (trust_mode_tag (policy_trust_mode policy))].

Section Decision.
Context `{EJ : ExecutionJson} `{HS : Sha256} `{Alloc : Allocator} (hex_encode : bytes → str).

Definition authorization_context_digest (target_id : ExecutionTargetId) (digests : AuthorizationContextDigests)
    (policy : LocalExecutionPolicy) (generation : Z) : AuthorizationContextDigest :=
  sha256 (authorization_preimage target_id digests policy generation).

Definition compatibility_canonical_digest (compatibility : CompatibilityAnalysis) : result Sha256Digest ExecutionAuthorizationError :=
  let? bs := map_err (λ _, Auth_CanonicalSerializationFailed) (analysis_to_vec compatibility) in
  Ok (sha256 bs).

Definition validate_execution_bindings (policy : LocalExecutionPolicy) (proof : StructurallyValidatedExecutionOverlay)
    (target_contract : ExecutionTargetContract) (resolution : ExecutionResolutionEvidence) :
    result ValidatedExecutionBindings ExecutionAuthorizationError :=
  let authority := proof_authority proof in
  let pins := policy_authority policy in
  do? reject (bool_decide (execution_authority_adapter_id authority ≠ pinned_adapter_id pins) ||
              bool_decide (execution_authority_family authority ≠ pinned_family pins) ||
              bool_decide (execution_authority_adapter_content_digest authority ≠ pinned_adapter_content_digest pins))
    Auth_AuthorityIdentityMismatch in
  let authority_digest := execution_authority_document_digest hex_encode authority in
  do? reject (bool_decide (authority_digest ≠ pinned_authority_document_digest pins)) Auth_AuthorityDigestMismatch in
  let overlay_context := execution_binding (proof_overlay proof) in
  do? reject (bool_decide (overlay_source_build_fingerprint_digest overlay_context ≠
                           pinned_source_build_fingerprint_digest (policy_context policy))) Auth_SourceBuildContextMismatch in
  do? reject (bool_decide (overlay_package_tree_merkle overlay_context ≠ pinned_package_tree_merkle (policy_context policy)))
    Auth_PackageTreeContextMismatch in
  do? reject (bool_decide (overlay_execution_environment_digest overlay_context ≠
                           pinned_execution_environment_digest (policy_context policy)))
    Auth_ExecutionEnvironmentContextMismatch in
  do? reject (bool_decide (overlay_build_descriptor_digest overlay_context ≠ pinned_build_descriptor_digest (policy_context policy)))
    Auth_BuildDescriptorContextMismatch in
  let target_id := contract_target_id target_contract in
  do? reject (bool_decide (target_id ≠ pinned_target_id (policy_target policy))) Auth_TargetPolicyMismatch in
  let? static_target := ok_or (execution_targets authority !! target_id) Auth_UnknownTarget in
  let? generated_binding := ok_or (execution_bindings (proof_overlay proof) !! target_id) Auth_UnknownTarget in
  let? contract_digest := map_err (λ _, Auth_CanonicalSerializationFailed) (contract_document_digest target_contract) in
  do? reject (bool_decide (contract_digest ≠ pinned_target_contract_digest (policy_target policy)) ||
              bool_decide (target_ref_contract_digest static_target ≠ contract_digest) ||
              bool_decide (bound_execution_contract generated_binding ≠ contract_digest)) Auth_TargetContractDigestMismatch in
  do? reject (bool_decide (contract_kind target_contract ≠ target_ref_kind static_target)) Auth_TargetKindMismatch in
  let locator := contract_artifact_locator target_contract in
  do? reject (bool_decide (locator_artifact_source locator ≠ target_ref_artifact_source static_target))
    Auth_ArtifactSourceMismatch in
  let? resolution_digest := map_err (λ _, Auth_CanonicalSerializationFailed) (resolution_document_digest resolution) in
  do? reject (bool_decide (resolution_digest ≠ pinned_resolution_evidence_digest (policy_target policy)) ||
              bool_decide (bound_resolution_evidence generated_binding ≠ resolution_digest))
    Auth_ResolutionEvidenceDigestMismatch in
  do? reject (bool_decide (resolution_target_id resolution ≠ target_id)) Auth_ResolutionTargetMismatch in
  do? reject (bool_decide (resolution_artifact_locator resolution ≠ locator)) Auth_ResolutionLocatorMismatch in
  let digests := resolution_digests resolution in
  do? reject (bool_decide (resolved_execution_contract_digest digests ≠ contract_digest)) Auth_ResolutionContractMismatch in
  do? reject (bool_decide (bound_artifact_source generated_binding ≠ resolved_artifact_source_digest digests))
    Auth_ResolutionArtifactSourceMismatch in
  do? reject (bool_decide (bound_executable generated_binding ≠ resolved_executable_digest digests))
    Auth_ResolutionExecutableMismatch in
  Ok (mkValidatedBindings authority_digest target_id contract_digest resolution_digest
        (target_ref_artifact_source static_target) (resolved_artifact_source_digest digests)
        (resolved_executable_digest digests)).

Definition validate_policy_evidence (policy : LocalExecutionPolicy) (overlay : GeneratedExecutionOverlay)
    (resolution : ExecutionResolutionEvidence) (compatibility : CompatibilityAnalysis)
    (launch_policy : ExecutionLaunchPolicy) (evidence : ExecutionPolicyEvidence) (limits : ExecutionAuthorizationLimits) :
    result (PolicyEvidenceDigests * CompatibilityAnalysisDigest) ExecutionAuthorizationError :=
  let? evidence_digests := hash_policy_evidence evidence limits in
  let digests := resolution_digests resolution in
  let pins := policy_target policy in
  do? reject (bool_decide (artifact_trust_digest evidence_digests ≠ resolved_artifact_trust_evidence_digest digests) ||
              bool_decide (artifact_trust_digest evidence_digests ≠ pinned_artifact_trust_evidence_digest pins))
    Auth_ArtifactTrustEvidenceMismatch in
  do? reject (bool_decide (provenance_digest evidence_digests ≠ resolved_provenance_evidence_digest digests) ||
              bool_decide (provenance_digest evidence_digests ≠ pinned_provenance_evidence_digest pins))
    Auth_ProvenanceEvidenceMismatch in
  let required := policy_requirements launch_policy in
  let? compatibility_digest := compatibility_canonical_digest compatibility in
  do? reject (bool_decide (compatibility_digest ≠ pinned_compatibility_analysis_digest pins)) Auth_CompatibilityDigestMismatch in
  do? reject (bool_decide (analysis_disposition compatibility ≠ Analysis_Complete)) Auth_CompatibilityDenied in
  do? reject (bool_decide (analysis_source_build_fingerprint_digest compatibility ≠
                           overlay_source_build_fingerprint_digest (execution_binding overlay))) Auth_CompatibilitySourceMismatch in
  do? reject (bool_decide (compat_execution_environment_digest (analysis_target compatibility) ≠
                           overlay_execution_environment_digest (execution_binding overlay)))
    Auth_CompatibilityEnvironmentMismatch in
  do? reject (bool_decide (capability_policy_digest evidence_digests ≠ required_capability_policy_digest required) ||
              bool_decide (capability_policy_digest evidence_digests ≠ pinned_capability_policy_digest pins))
    Auth_CapabilityPolicyMismatch in
  do? reject (bool_decide (state_policy_digest evidence_digests ≠ required_state_policy_digest required) ||
              bool_decide (state_policy_digest evidence_digests ≠ pinned_state_policy_digest pins)) Auth_StatePolicyMismatch in
  do? reject (bool_decide (user_policy_digest evidence_digests ≠ pinned_user_policy_digest pins)) Auth_UserPolicyMismatch in
  do? reject (negb (is_satisfied_by (required_security_posture launch_policy) (pinned_security_posture pins)))
    Auth_SecurityPostureMismatch in
  do? reject (bool_decide (state_mode launch_policy ≠ pinned_state_mode pins)) Auth_StateModeMismatch in
  Ok (evidence_digests, compatibility_digest).

(** [heap] is read first, [heap'] by the final currentness check. *)
Definition authorize_execution (heap heap' : ExecutionPolicyHeap) (view : RetainedExecutionArtifact → bool)
    (request : ExecutionAuthorizationRequest) : result AuthorizedExecution ExecutionAuthorizationError :=
  let? store := ok_or (upgrade heap (request_policy_store request)) Auth_PolicyStoreUnavailable in
  let? snapshot := execution_snapshot store in
  do? reject (bool_decide (is_Some (revocation_evidence_digest snapshot))) Auth_PolicyRevoked in
  let policy := Policy.policy snapshot in
  let proof := request_structural_overlay request in
  let? bindings := validate_execution_bindings policy proof (request_target_contract request)
    (request_resolution_evidence request) in
  let launch_policy := contract_launch_policy (request_target_contract request) in
  let? evidence := validate_policy_evidence policy (proof_overlay proof) (request_resolution_evidence request)
    (request_compatibility_analysis request) launch_policy (request_policy_evidence request) (request_limits request) in
  let artifact := request_retained_artifact request in
  do? reject (bool_decide (artifact_source artifact ≠ validated_artifact_source bindings)) Auth_RetainedArtifactSourceMismatch in
  do? reject (negb (matches_locator artifact (contract_artifact_locator (request_target_contract request))))
    Auth_RetainedArtifactLocatorMismatch in
  do? reject (bool_decide (artifact_source_digest artifact ≠ validated_artifact_source_digest bindings))
    Auth_RetainedArtifactSourceDigestMismatch in
  do? reject (bool_decide (artifact_digest artifact ≠ validated_executable_digest bindings))
    Auth_RetainedExecutableDigestMismatch in
  let? prepared := prepare_authorized_launch artifact launch_policy in
  do? verify_current view artifact in
  let? store' := ok_or (upgrade heap' (request_policy_store request)) Auth_PolicyStoreUnavailable in
  do? verify_policy_generation store' (Policy.generation snapshot) in
  let context := authorization_context_digest (validated_target_id bindings)
    (mkContextDigests (validated_authority_digest bindings) (validated_contract_digest bindings)
       (validated_resolution_digest bindings) (artifact_source_digest artifact) (artifact_digest artifact) evidence.2 evidence.1)
    policy (Policy.generation snapshot) in
  Ok (mkAuthorized (validated_target_id bindings) (policy_trust_mode policy) (pinned_security_posture (policy_target policy))
        launch_policy context (request_policy_store request) (Policy.generation snapshot) prepared artifact).
End Decision.

(** ** The launch *)

Record SupervisedExecution : Type := mkSupervised {
  supervised_process : OwnedJobProcess;
  supervised_target_id : ExecutionTargetId;
  supervised_trust_mode : TrustMode;
  supervised_security_posture : EffectiveSecurityPosture;
  supervised_launch_policy : ExecutionLaunchPolicy;
  supervised_authorization_context : AuthorizationContextDigest;
  supervised_retained_source : RetainedExecutionLease;
  supervised_policy_store : Address;
  supervised_policy_generation : Z
}.

(** [verify_current_policy] of [AuthorizedExecution] and of [SupervisedExecution]. *)
Definition verify_store_generation (heap : ExecutionPolicyHeap) (policy_store : Address) (policy_generation : Z) :
    result unit ExecutionAuthorizationError :=
  let? store := ok_or (upgrade heap policy_store) Auth_PolicyStoreUnavailable in
  let? state := lock_guard store in
  verify_policy_state state policy_generation.
Definition authorized_verify_current_policy (heap : ExecutionPolicyHeap) (self : AuthorizedExecution) :
    result unit ExecutionAuthorizationError :=
  verify_store_generation heap (authorized_policy_store self) (authorized_policy_generation self).
Definition supervised_verify_current_policy (heap : ExecutionPolicyHeap) (self : SupervisedExecution) :
    result unit ExecutionAuthorizationError :=
  verify_store_generation heap (supervised_policy_store self) (supervised_policy_generation self).

Definition mut_map_err {S E F A} (f : E → F) (m : mut S E A) : mut S F A :=
  λ s, let '(r, s') := m s in (map_err f r, s').

(** The read guard is held from the check to the end, so the store stays as it was
    read; the job is created by [create_job]. *)
Definition launch_authorized_execution (heap : ExecutionPolicyHeap) (view : RetainedExecutionArtifact → bool)
    (create_job : JobLimits → result unit LaunchError) (os : launch_os) (authorization : AuthorizedExecution) :
    mut (list launch_effect) SupervisedExecutionError SupervisedExecution :=
  do* mut_lift (map_err Supervised_Authorization (authorized_verify_current_policy heap authorization)) in
  do* mut_lift (map_err Supervised_Authorization (verify_current view (retained_artifact authorization))) in
  let job := prepared_job_limits (prepared_launch authorization) in
  do* mut_lift (map_err Supervised_JobCreation (create_job job)) in
  let '(retained_source, executable) := into_launch_parts (retained_artifact authorization) in
  let* process := mut_map_err Supervised_ProcessLaunch
    (launch_prepared os job executable (prepared_process (prepared_launch authorization))) in
  mut_ret (mkSupervised process (authorized_target_id authorization) (authorized_trust_mode authorization)
    (effective_security_posture authorization) (authorized_launch_policy authorization) (authorization_context authorization)
    retained_source (authorized_policy_store authorization) (authorized_policy_generation authorization)).
