(* ===== verification/AuthorizationLaws.v ===== *)
(** * AuthorizationLaws: what is launched is what was authorized

    A decision is made exactly when the pins of the local policy are the identities
    of the documents, the evidence and the retained executable at hand; its context
    digest identifies all of them; and a launch that consumes it starts exactly that
    executable with the arguments of the contract, only while the policy has not
    been touched. *)

From S2P Require Import Prelude Text Wire Evidence Policy Compatibility Overlay Execution ExecutionTarget Launch.
From S2P Require Import LaunchLaws Authorization.

(** ** Arguments reach Windows unchanged *)

Lemma scalar_units_read z rest :
  0 <= z < 0xD800 ∨ 0xE000 <= z < 0x110000 →
  utf16_scalars (scalar_units z ++ rest) = cons z <$> utf16_scalars rest.
Proof.
  intros Hz. unfold scalar_units. destruct (Z.ltb_spec z 0x10000); cbn [app utf16_scalars].
  - destruct (Z.ltb_spec z 0xD800); [done|]. destruct (Z.leb_spec 0xE000 z); [done|lia].
  - assert (Hh : 0 <= (z - 0x10000) / 1024 < 1024) by (Z.div_mod_to_equations; lia).
    pose proof (Z.mod_pos_bound (z - 0x10000) 1024 ltac:(lia)) as Hl.
    destruct (Z.ltb_spec (0xD800 + (z - 0x10000) / 1024) 0xD800); [lia|].
    destruct (Z.leb_spec 0xE000 (0xD800 + (z - 0x10000) / 1024)); [lia|]. cbn [orb].
    destruct (Z.ltb_spec (0xD800 + (z - 0x10000) / 1024) 0xDC00); [|lia].
    rewrite (proj2 (in_range_true _ _ _)) by lia. do 2 f_equal. Z.div_mod_to_equations. lia.
Qed.

(** The shapes of a well-formed character. *)
Inductive well_formed_char : str → Prop :=
| char_1 a : byte_val a < 0x80 → well_formed_char [a]
| char_2 a b : 0xC2 <= byte_val a <= 0xDF → utf8_cont b = true → well_formed_char [a; b]
| char_3 a b c : 0xE0 <= byte_val a <= 0xEF → utf8_cont b = true → utf8_cont c = true →
    (byte_val a = 0xE0 → 0xA0 <= byte_val b) → (byte_val a = 0xED → byte_val b <= 0x9F) → well_formed_char [a; b; c]
| char_4 a b c d : 0xF0 <= byte_val a <= 0xF4 → utf8_cont b = true → utf8_cont c = true → utf8_cont d = true →
    (byte_val a = 0xF0 → 0x90 <= byte_val b) → (byte_val a = 0xF4 → byte_val b <= 0x8F) → well_formed_char [a; b; c; d].

Lemma byte_of_eq b z : z mod 256 = byte_val b → byte_of z = b.
Proof. intros H. apply byte_val_inj. by rewrite byte_val_of. Qed.

Lemma well_formed_scalar c :
  well_formed_char c →
  (0 <= char_scalar c < 0xD800 ∨ 0xE000 <= char_scalar c < 0x110000) ∧ utf8_scalar (char_scalar c) = c.
Proof.
  destruct 1 as [a Ha|a b Ha Hb|a b c Ha Hb Hc H1 H2|a b c d Ha Hb Hc Hd H1 H2];
    unfold char_scalar, utf8_scalar; cbn [map]; pose proof (byte_val_range a);
    repeat match goal with H : utf8_cont _ = true |- _ => apply in_range_true in H end.
  - split; [lia|]. destruct (Z.ltb_spec (byte_val a) 0x80); [|lia]. by rewrite byte_of_val.
  - split; [lia|]. set (z := _ + _). destruct (Z.ltb_spec z 0x80); [lia|]. destruct (Z.ltb_spec z 0x800); [|lia].
    repeat f_equal; apply byte_of_eq; subst z; Z.div_mod_to_equations; lia.
  - set (z := _ + _). split; [lia|]. destruct (Z.ltb_spec z 0x80); [lia|]. destruct (Z.ltb_spec z 0x800); [lia|].
    destruct (Z.ltb_spec z 0x10000); [|lia].
    repeat f_equal; apply byte_of_eq; subst z; Z.div_mod_to_equations; lia.
  - set (z := _ + _). split; [lia|]. destruct (Z.ltb_spec z 0x80); [lia|]. destruct (Z.ltb_spec z 0x800); [lia|].
    destruct (Z.ltb_spec z 0x10000); [lia|].
    repeat f_equal; apply byte_of_eq; subst z; Z.div_mod_to_equations; lia.
Qed.

(** Well-formed text is empty or a well-formed character before well-formed text. *)
Lemma utf8_valid_step s :
  utf8_valid s = true → s = [] ∨ ∃ c t, s = c ++ t ∧ well_formed_char c ∧ utf8_valid t = true ∧ chars s = c :: chars t.
Proof.
  destruct s as [|a s]; [by left|]. intros Hv. right.
  assert (Hg : ∀ cs t, s = cs ++ t → Forall (λ b, utf8_cont b = true) cs → utf8_valid t = true → well_formed_char (a :: cs) →
    ∃ c t, a :: s = c ++ t ∧ well_formed_char c ∧ utf8_valid t = true ∧ chars (a :: s) = c :: chars t).
  { intros cs t -> Hcs Ht Hw. exists (a :: cs), t. split_and!; [done..|]. apply chars_group; [done|by apply utf8_valid_start]. }
  assert (Hr : ∀ lo hi b, in_range lo hi (byte_val b) = true → 0x80 <= lo → hi <= 0xBF → utf8_cont b = true).
  { intros lo hi b H1%in_range_true ? ?. apply in_range_true. lia. }
  cbn in Hv. destruct (Z.ltb_spec (byte_val a) 0x80).
  { apply (Hg [] s); [done|constructor|done|by constructor]. }
  destruct (in_range 0xC2 0xDF (byte_val a)) eqn:E2.
  { apply in_range_true in E2. destruct s as [|b t]; [done|]. apply andb_true_iff in Hv as [Hb Ht].
    apply (Hg [b] t); [done|by repeat constructor|done|by constructor]. }
  destruct (in_range 0xE0 0xEF (byte_val a)) eqn:E3.
  { apply in_range_true in E3. destruct s as [|b [|c t]]; [done..|]. rewrite !andb_true_iff in Hv. destruct Hv as [[Hb Hc] Ht].
    assert (Hb' : utf8_cont b = true ∧ (byte_val a = 0xE0 → 0xA0 <= byte_val b) ∧ (byte_val a = 0xED → byte_val b <= 0x9F)).
    { destruct (Z.eqb_spec (byte_val a) 0xE0); [|destruct (Z.eqb_spec (byte_val a) 0xED)];
        (split; [by (done || (eapply Hr; [exact Hb|lia|lia]))|]); try apply in_range_true in Hb; lia. }
    destruct Hb' as (? & ? & ?). apply (Hg [b; c] t); [done|by repeat constructor|done|by constructor]. }
  destruct (in_range 0xF0 0xF4 (byte_val a)) eqn:E4; [|done]. apply in_range_true in E4.
  destruct s as [|b [|c [|d t]]]; [done..|]. rewrite !andb_true_iff in Hv. destruct Hv as [[[Hb Hc] Hd] Ht].
  assert (Hb' : utf8_cont b = true ∧ (byte_val a = 0xF0 → 0x90 <= byte_val b) ∧ (byte_val a = 0xF4 → byte_val b <= 0x8F)).
  { destruct (Z.eqb_spec (byte_val a) 0xF0); [|destruct (Z.eqb_spec (byte_val a) 0xF4)];
      (split; [by (done || (eapply Hr; [exact Hb|lia|lia]))|]); try apply in_range_true in Hb; lia. }
  destruct Hb' as (? & ? & ?). apply (Hg [b; c; d] t); [done|by repeat constructor|done|by constructor].
Qed.

(** The UTF-16 of an argument reads back as the argument. *)
Lemma os_string_from_to_str s : utf8_valid s = true → to_str (os_string_from s) = Some s.
Proof.
  intros Hv. assert (H : ∃ scalars, utf16_scalars (os_string_from s) = Some scalars ∧ concat (map utf8_scalar scalars) = s).
  { remember (length s) as n eqn:Hn. revert s Hn Hv. induction n as [n IH] using lt_wf_ind. intros s -> Hv.
    destruct (utf8_valid_step s Hv) as [->|(c & t & Hs & Hc & Ht & Hch)]; [by exists []|].
    destruct (well_formed_scalar c Hc) as [Hz Hsc].
    assert (Hlt : (length t < length s)%nat) by (rewrite Hs, length_app; destruct Hc; cbn; lia).
    destruct (IH _ Hlt t eq_refl Ht) as (scalars & H1 & H2).
    exists (char_scalar c :: scalars). unfold os_string_from. rewrite Hch. cbn [map concat].
    rewrite scalar_units_read by done. fold (os_string_from t). rewrite H1. split; [done|]. cbn [map concat]. by rewrite Hsc, H2, Hs. }
  destruct H as (scalars & H1 & H2). unfold to_str. rewrite H1. cbn. by rewrite H2.
Qed.

(** ** Policies and currentness *)

(** What [LocalExecutionPolicy::new] admits. *)
Definition local_policy_ok (policy : LocalExecutionPolicy) : Prop :=
  pinned_security_posture (policy_target policy) = Effective_VendorEquivalentFullTrust ∧
  (policy_trust_mode policy = Trust_LocallyTrusted ∨
   policy_trust_mode policy = Trust_Developer ∧ pinned_state_mode (policy_target policy) = StateMode_Disposable).

Lemma local_execution_policy_new_Ok mode authority context target revision policy :
  local_execution_policy_new mode authority context target revision = Ok policy ↔
    policy = mkLocalExecutionPolicy mode authority context target revision ∧ local_policy_ok policy.
Proof.
  unfold local_execution_policy_new, local_policy_ok. destruct (decide (pinned_security_posture target = Effective_VendorEquivalentFullTrust)) as [Hp|Hp].
  - rewrite bool_decide_eq_false_2 by (intros H; by apply H). cbn [reject result_bind].
    destruct mode; cbn [result_bind]; [naive_solver| |case_bool_decide; cbn [negb reject result_bind]|naive_solver];
      (split; [try (intros [= <-]; cbn; auto); try done|intros [-> ?]; cbn in *; naive_solver]).
  - rewrite bool_decide_eq_true_2 by done. cbn [reject result_bind]. split; [done|]. intros (-> & H & _). by cbn in H.
Qed.

(** The store at an address holds a policy of a generation, unrevoked and unpoisoned. *)
Definition store_current (heap : ExecutionPolicyHeap) (a : Address) (g : Z) (policy : LocalExecutionPolicy) : Prop :=
  heap !! a = Some (Some (mkPolicyLock false (mkPolicyState g policy None))).

Lemma verify_store_generation_Ok heap a g : verify_store_generation heap a g = Ok tt ↔ ∃ policy, store_current heap a g policy.
Proof.
  unfold verify_store_generation, store_current, upgrade, lock_guard, verify_policy_state.
  destruct (heap !! a) as [[[[|] [g' p [d|]]]|]|]; cbn; try naive_solver.
  destruct (Z.eqb_spec g' g); cbn; naive_solver.
Qed.

Lemma verify_policy_generation_Ok store g :
  verify_policy_generation store g = Ok tt ↔ ∃ policy, store = mkPolicyLock false (mkPolicyState g policy None).
Proof.
  unfold verify_policy_generation, lock_guard. destruct store as [[|] [g' p [d|]]]; cbn; try naive_solver.
  destruct (Z.eqb_spec g' g); cbn; naive_solver.
Qed.

(** The generation alone tells whether a store was touched: after any steps it is
    verified exactly when the store is as it was. *)
Lemma generation_identifies_store heap heap' a g policy :
  store_current heap a g policy → rtc (policy_step (E := ExecutionAuthorizationError)) heap heap' →
  (verify_store_generation heap' a g = Ok tt ↔ heap' !! a = heap !! a).
Proof.
  intros Hc Hs. rewrite verify_store_generation_Ok. split.
  - intros [policy' Hc']. destruct (steps_current (E := ExecutionAuthorizationError) heap heap' (mkDecision policy g a) Hc Hs) as [[_ ?]|Hp]; [done|].
    unfold store_current in Hc'. cbn in Hp. rewrite Hc' in Hp. destruct Hp as [Hp|Hp]; cbn in Hp; [done|lia].
  - intros Heq. exists policy. unfold store_current in *. by rewrite Heq.
Qed.

(** ** What a decision rests on *)

Section Decision.
Context `{EJ : ExecutionJson} `{HS : Sha256} `{Alloc : Allocator} (hex_encode : bytes → str).

Definition limits_ok (limits : ExecutionAuthorizationLimits) : Prop :=
  max_total_evidence_bytes limits <= MAX_TOTAL_EXECUTION_POLICY_EVIDENCE_BYTES.

Definition evidence_bounded (limits : ExecutionAuthorizationLimits) (evidence : ExecutionPolicyEvidence) : Prop :=
  Forall (λ value, len value <= max_evidence_bytes limits) (evidence_values evidence) ∧
  foldr Z.add 0 (map len (evidence_values evidence)) <= max_total_evidence_bytes limits.

Lemma bound_evidence_Ok limits values total :
  limits_ok limits → 0 <= total → total <= max_total_evidence_bytes limits →
  (∃ n, bound_evidence limits values total = Ok n) ↔
    Forall (λ value, len value <= max_evidence_bytes limits) values ∧
    total + foldr Z.add 0 (map len values) <= max_total_evidence_bytes limits.
Proof.
  intros Hl. revert total. induction values as [|value values IH]; intros total H0 Ht; cbn [bound_evidence map foldr].
  - rewrite Z.add_0_r. split; [by split|by eexists].
  - assert (Hs : 0 <= foldr Z.add 0 (map len values)).
    { clear. induction values as [|v vs IHv]; cbn; [done|]. pose proof (len_nonneg v). lia. }
    pose proof (len_nonneg value). rewrite Forall_cons.
    destruct (Z.ltb_spec (max_evidence_bytes limits) (len value)); cbn [reject result_bind]; [split; [by intros [??]|lia]|].
    unfold checked_add. destruct (Z.leb_spec (total + len value) usize_max) as [Hu|Hu]; cbn [ok_or result_bind].
    2: { split; [by intros [??]|]. unfold limits_ok, MAX_TOTAL_EXECUTION_POLICY_EVIDENCE_BYTES, usize_max, u64_max in *. lia. }
    destruct (Z.ltb_spec (max_total_evidence_bytes limits) (total + len value)); cbn [reject result_bind]; [split; [by intros [??]|lia]|].
    rewrite IH by lia. rewrite Z.add_assoc. naive_solver.
Qed.

Definition evidence_hashes (evidence : ExecutionPolicyEvidence) : PolicyEvidenceDigests :=
  mkEvidenceDigests (sha256 (artifact_trust evidence)) (sha256 (provenance evidence)) (sha256 (capability_policy evidence))
    (sha256 (state_policy evidence)) (sha256 (user_policy evidence)).

Lemma hash_policy_evidence_Ok evidence limits digests :
  limits_ok limits → 0 <= max_total_evidence_bytes limits →
  hash_policy_evidence evidence limits = Ok digests ↔ evidence_bounded limits evidence ∧ digests = evidence_hashes evidence.
Proof.
  intros Hl H0. unfold hash_policy_evidence, evidence_bounded. pose proof (bound_evidence_Ok limits (evidence_values evidence) 0 Hl) as Hb.
  rewrite Z.add_0_l in Hb. rewrite <-Hb by done. destruct (bound_evidence _ _ _) as [n|e]; cbn [result_bind].
  - split; [intros [= <-]; split; [by eexists|done]|by intros [_ ->]].
  - split; [done|by intros [[??] _]].
Qed.

(** Computes the projections of the records a decision is about, and nothing else. *)
Ltac records :=
  cbn [policy_trust_mode policy_authority policy_context policy_target policy_revision_digest pinned_adapter_id
   pinned_family pinned_adapter_content_digest pinned_authority_document_digest
   pinned_source_build_fingerprint_digest pinned_package_tree_merkle pinned_execution_environment_digest
   pinned_build_descriptor_digest pinned_target_id pinned_target_contract_digest
   pinned_resolution_evidence_digest pinned_artifact_trust_evidence_digest pinned_provenance_evidence_digest
   pinned_compatibility_analysis_digest pinned_capability_policy_digest pinned_state_policy_digest
   pinned_user_policy_digest pinned_security_posture pinned_state_mode request_structural_overlay
   request_target_contract request_resolution_evidence request_compatibility_analysis request_policy_store
   request_policy_evidence request_retained_artifact request_limits validated_authority_digest
   validated_target_id validated_contract_digest validated_resolution_digest validated_artifact_source
   validated_artifact_source_digest validated_executable_digest context_authority_document
   context_target_contract context_resolution_evidence context_artifact_source context_executable
   context_compatibility_analysis context_policy_evidence resolution_format_version resolution_target_id
   resolution_artifact_locator resolution_digests resolved_execution_contract_digest
   resolved_artifact_source_digest resolved_executable_digest resolved_artifact_trust_evidence_digest
   resolved_provenance_evidence_digest bound_execution_contract bound_artifact_source bound_executable
   bound_resolution_evidence target_ref_kind target_ref_artifact_source target_ref_contract_digest
   lock_poisoned lock_state revocation_evidence_digest Policy.policy Policy.generation fst snd] in *.

(** The pins of a policy are exactly the identities of what is at hand, and the
    documents agree with each other. *)
Record authorization_grounds (policy : LocalExecutionPolicy) (request : ExecutionAuthorizationRequest)
    (digests : AuthorizationContextDigests) : Prop := {
  grounds_authority :
    let authority := proof_authority (request_structural_overlay request) in
    context_authority_document digests = execution_authority_document_digest hex_encode authority ∧
    policy_authority policy = mkAuthorityPins (execution_authority_adapter_id authority) (execution_authority_family authority)
      (execution_authority_adapter_content_digest authority) (context_authority_document digests);
  grounds_context :
    let binding := execution_binding (proof_overlay (request_structural_overlay request)) in
    policy_context policy = mkContextPins (overlay_source_build_fingerprint_digest binding) (overlay_package_tree_merkle binding)
      (overlay_execution_environment_digest binding) (overlay_build_descriptor_digest binding);
  grounds_documents :
    contract_document_digest (request_target_contract request) = Ok (context_target_contract digests) ∧
    resolution_document_digest (request_resolution_evidence request) = Ok (context_resolution_evidence digests) ∧
    compatibility_canonical_digest (request_compatibility_analysis request) = Ok (context_compatibility_analysis digests) ∧
    context_artifact_source digests = artifact_source_digest (request_retained_artifact request) ∧
    context_executable digests = artifact_digest (request_retained_artifact request) ∧
    context_policy_evidence digests = evidence_hashes (request_policy_evidence request);
  grounds_target :
    let contract := request_target_contract request in
    let evidence := context_policy_evidence digests in
    policy_target policy = mkTargetPins (contract_target_id contract) (context_target_contract digests)
      (context_resolution_evidence digests) (artifact_trust_digest evidence) (provenance_digest evidence)
      (context_compatibility_analysis digests) (capability_policy_digest evidence) (state_policy_digest evidence)
      (user_policy_digest evidence) (pinned_security_posture (policy_target policy))
      (state_mode (contract_launch_policy contract));
  grounds_static :
    execution_targets (proof_authority (request_structural_overlay request)) !! contract_target_id (request_target_contract request) =
      Some (mkTargetRef (contract_kind (request_target_contract request)) (artifact_source (request_retained_artifact request))
        (context_target_contract digests));
  grounds_generated :
    execution_bindings (proof_overlay (request_structural_overlay request)) !! contract_target_id (request_target_contract request) =
      Some (mkArtifactBinding (context_target_contract digests) (context_artifact_source digests) (context_executable digests)
        (context_resolution_evidence digests));
  grounds_resolution :
    let contract := request_target_contract request in
    let evidence := context_policy_evidence digests in
    request_resolution_evidence request = mkResolution Resolution_V2 (contract_target_id contract) (contract_artifact_locator contract)
      (mkResolutionDigests (context_target_contract digests) (context_artifact_source digests) (context_executable digests)
        (artifact_trust_digest evidence) (provenance_digest evidence));
  grounds_requirements :
    let policy' := contract_launch_policy (request_target_contract request) in
    let evidence := context_policy_evidence digests in
    policy_requirements policy' = mkPolicyRequirements (capability_policy_digest evidence) (state_policy_digest evidence) ∧
    is_satisfied_by (required_security_posture policy') (pinned_security_posture (policy_target policy)) = true;
  grounds_compatibility :
    let analysis := request_compatibility_analysis request in
    let binding := execution_binding (proof_overlay (request_structural_overlay request)) in
    analysis_disposition analysis = Analysis_Complete ∧
    analysis_source_build_fingerprint_digest analysis = overlay_source_build_fingerprint_digest binding ∧
    compat_execution_environment_digest (analysis_target analysis) = overlay_execution_environment_digest binding;
  grounds_artifact :
    matches_locator (request_retained_artifact request) (contract_artifact_locator (request_target_contract request)) = true ∧
    locator_artifact_source (contract_artifact_locator (request_target_contract request)) = artifact_source (request_retained_artifact request);
  grounds_evidence : evidence_bounded (request_limits request) (request_policy_evidence request)
}.

Lemma validate_execution_bindings_Ok policy proof contract resolution bindings :
  validate_execution_bindings hex_encode policy proof contract resolution = Ok bindings ↔
  let authority := proof_authority proof in
  let binding := execution_binding (proof_overlay proof) in
  let id := contract_target_id contract in
  ∃ contract_digest resolution_digest source executable kind,
    contract_document_digest contract = Ok contract_digest ∧ resolution_document_digest resolution = Ok resolution_digest ∧
    policy_authority policy = mkAuthorityPins (execution_authority_adapter_id authority) (execution_authority_family authority)
      (execution_authority_adapter_content_digest authority) (execution_authority_document_digest hex_encode authority) ∧
    policy_context policy = mkContextPins (overlay_source_build_fingerprint_digest binding) (overlay_package_tree_merkle binding)
      (overlay_execution_environment_digest binding) (overlay_build_descriptor_digest binding) ∧
    pinned_target_id (policy_target policy) = id ∧ pinned_target_contract_digest (policy_target policy) = contract_digest ∧
    pinned_resolution_evidence_digest (policy_target policy) = resolution_digest ∧
    kind = locator_artifact_source (contract_artifact_locator contract) ∧
    execution_targets authority !! id = Some (mkTargetRef (contract_kind contract) kind contract_digest) ∧
    execution_bindings (proof_overlay proof) !! id = Some (mkArtifactBinding contract_digest source executable resolution_digest) ∧
    resolution_target_id resolution = id ∧ resolution_artifact_locator resolution = contract_artifact_locator contract ∧
    resolved_execution_contract_digest (resolution_digests resolution) = contract_digest ∧
    resolved_artifact_source_digest (resolution_digests resolution) = source ∧
    resolved_executable_digest (resolution_digests resolution) = executable ∧
    bindings = mkValidatedBindings (execution_authority_document_digest hex_encode authority) id contract_digest resolution_digest
      kind source executable.
Proof.
  cbv zeta. destruct policy as [mode [p1 p2 p3 p4] [c1 c2 c3 c4] t revision]. unfold validate_execution_bindings. cbv zeta.
  cbn [policy_authority policy_context policy_target pinned_adapter_id pinned_family pinned_adapter_content_digest
    pinned_authority_document_digest pinned_source_build_fingerprint_digest pinned_package_tree_merkle
    pinned_execution_environment_digest pinned_build_descriptor_digest].
  split.
  - intros H. inv_ok. inv_guards.
    match goal with H1 : execution_targets _ !! _ = Some ?s, H2 : execution_bindings _ !! _ = Some ?b |- _ => destruct s as [s1 s2 s3], b as [b1 b2 b3 b4] end.
    cbn [target_ref_kind target_ref_artifact_source target_ref_contract_digest bound_execution_contract bound_artifact_source
      bound_executable bound_resolution_evidence] in *. subst.
    eexists _, _, _, _, _. split_and!; try reflexivity; try eassumption; congruence.
  - intros (cd & rd & source & executable & kind & Hc & Hr & [= -> -> -> ->] & [= -> -> -> ->] & H1 & H2 & H3 & -> & H4 & H5 & H6 & H7 & H8 & H9 & H10 & ->).
    rewrite H1, H2, H3, H4, H5, Hc, Hr, H6, H7, H8, H9, H10. cbn [ok_or map_err result_bind target_ref_contract_digest
      bound_execution_contract target_ref_kind target_ref_artifact_source bound_resolution_evidence bound_artifact_source bound_executable].
    by rewrite !(bool_decide_eq_false_2 (_ ≠ _)) by (intros Hn; by apply Hn).
Qed.

Lemma validate_policy_evidence_Ok policy overlay resolution analysis launch_policy evidence limits out :
  limits_ok limits → 0 <= max_total_evidence_bytes limits →
  validate_policy_evidence policy overlay resolution analysis launch_policy evidence limits = Ok out ↔
  let digests := evidence_hashes evidence in
  let pins := policy_target policy in
  let binding := execution_binding overlay in
  evidence_bounded limits evidence ∧ compatibility_canonical_digest analysis = Ok out.2 ∧ out.1 = digests ∧
  resolved_artifact_trust_evidence_digest (resolution_digests resolution) = artifact_trust_digest digests ∧
  resolved_provenance_evidence_digest (resolution_digests resolution) = provenance_digest digests ∧
  pinned_artifact_trust_evidence_digest pins = artifact_trust_digest digests ∧
  pinned_provenance_evidence_digest pins = provenance_digest digests ∧
  pinned_compatibility_analysis_digest pins = out.2 ∧
  analysis_disposition analysis = Analysis_Complete ∧
  analysis_source_build_fingerprint_digest analysis = overlay_source_build_fingerprint_digest binding ∧
  compat_execution_environment_digest (analysis_target analysis) = overlay_execution_environment_digest binding ∧
  policy_requirements launch_policy = mkPolicyRequirements (capability_policy_digest digests) (state_policy_digest digests) ∧
  pinned_capability_policy_digest pins = capability_policy_digest digests ∧
  pinned_state_policy_digest pins = state_policy_digest digests ∧
  pinned_user_policy_digest pins = user_policy_digest digests ∧
  is_satisfied_by (required_security_posture launch_policy) (pinned_security_posture pins) = true ∧
  pinned_state_mode pins = state_mode launch_policy.
Proof.
  intros Hl H0. cbv zeta. unfold validate_policy_evidence. cbv zeta. destruct (policy_requirements launch_policy) as [r1 r2]. cbn [required_capability_policy_digest required_state_policy_digest].
  split.
  - intros H. apply result_bind_Ok in H as (digests & [Hb ->]%hash_policy_evidence_Ok & H); [|done..]. inv_ok. inv_guards.
    cbn [fst snd]. split_and!; congruence || done.
  - destruct out as [d k]. cbn [fst snd].
    intros (Hb & Hk & -> & H1 & H2 & H3 & H4 & H5 & H6 & H7 & H8 & [= -> ->] & H10 & H11 & H12 & H13 & H14).
    rewrite (proj2 (hash_policy_evidence_Ok _ _ _ Hl H0) (conj Hb eq_refl)). cbn [result_bind].
    rewrite H1, H2, H3, H4, H5, Hk, H6, H7, H8, H10, H11, H12, H13, H14. cbn [result_bind].
    by rewrite !(bool_decide_eq_false_2 (_ ≠ _)) by (intros Hn; by apply Hn).
Qed.

(** The decision a grounded request gets. *)
Definition decision_of (policy : LocalExecutionPolicy) (generation : Z) (request : ExecutionAuthorizationRequest)
    (digests : AuthorizationContextDigests) (prepared : PreparedAuthorizedLaunch) : AuthorizedExecution :=
  let id := contract_target_id (request_target_contract request) in
  mkAuthorized id (policy_trust_mode policy) (pinned_security_posture (policy_target policy))
    (contract_launch_policy (request_target_contract request))
    (authorization_context_digest id digests policy generation) (request_policy_store request) generation prepared
    (request_retained_artifact request).

Lemma authorize_execution_Ok heap heap' view request decision :
  limits_ok (request_limits request) → 0 <= max_total_evidence_bytes (request_limits request) →
  authorize_execution hex_encode heap heap' view request = Ok decision ↔
  ∃ policy generation digests prepared,
    store_current heap (request_policy_store request) generation policy ∧
    (∃ policy', store_current heap' (request_policy_store request) generation policy') ∧
    authorization_grounds policy request digests ∧
    prepare_authorized_launch (request_retained_artifact request) (contract_launch_policy (request_target_contract request)) = Ok prepared ∧
    view (request_retained_artifact request) = true ∧
    decision = decision_of policy generation request digests prepared.
Proof.
  intros Hl H0. destruct request as [proof contract resolution analysis a evidence artifact limits]. records.
  unfold authorize_execution, decision_of. cbn [request_structural_overlay request_target_contract request_resolution_evidence
    request_compatibility_analysis request_policy_store request_policy_evidence request_retained_artifact request_limits].
  split.
  - intros H. apply result_bind_Ok in H as (store & Hs%ok_or_Ok & H). apply result_bind_Ok in H as (snap & Hsnap & H).
    unfold execution_snapshot, snapshot, lock_guard in Hsnap. inv_ok.
    match goal with H : validate_execution_bindings _ _ _ _ _ = Ok _ |- _ => apply validate_execution_bindings_Ok in H as
      (cd & rd & source & executable & kind & Hc & Hr & Hpa & Hpc & B1 & B2 & B3 & -> & B4 & B5 & B6 & B7 & B8 & B9 & B10 & ->) end.
    match goal with H : validate_policy_evidence _ _ _ _ _ _ _ = Ok _ |- _ => apply validate_policy_evidence_Ok in H as
      (Hb & Hk & He & G1 & G2 & G3 & G4 & G5 & G6 & G7 & G8 & G9 & G10 & G11 & G12 & G13 & G14); [|done..] end.
    match goal with H : verify_policy_generation _ _ = Ok _ |- _ => apply verify_policy_generation_Ok in H as [policy' Hst'] end.
    unfold verify_current in *. inv_ok. inv_guards. cbn [validated_artifact_source validated_artifact_source_digest
      validated_executable_digest validated_target_id validated_authority_digest validated_contract_digest validated_resolution_digest] in *.
    destruct store as [poisoned [g policy revoked]]. cbn [lock_poisoned lock_state revocation_evidence_digest Policy.policy Policy.generation] in *.
    match goal with H : ¬ is_Some revoked |- _ => apply eq_None_not_Some in H end. subst poisoned revoked.
    match goal with H : (_, _) = _ |- _ => idtac | p : PolicyEvidenceDigests * CompatibilityAnalysisDigest |- _ => destruct p as [ed kd] end.
    cbn [fst snd] in *. subst ed.
    eexists policy, g, (mkContextDigests _ cd rd (artifact_source_digest artifact) (artifact_digest artifact) kd (evidence_hashes evidence)), _.
    split_and!; [| | |eassumption|done|reflexivity].
    + unfold store_current, upgrade in *. by repeat case_match; simplify_eq.
    + exists policy'. unfold store_current, upgrade in *. by repeat case_match; simplify_eq.
    + destruct resolution as [[] ri rl [q1 q2 q3 q4 q5]], policy as [mode pins context [t1 t2 t3 t4 t5 t6 t7 t8 t9 t10 t11] revision].
      records. subst. split; records; split_and?; try done; congruence.
  - intros (policy & g & digests & prepared & Hs & [policy' Hs'] & HG & Hp & Hv & ->).
    destruct HG as [[G1 G2] G3 (G4 & G5 & G6 & G7 & G8 & G9) G10 G11 G12 G13 [G14 G15] (G16 & G17 & G18) [G19 G20] G21].
    destruct digests as [d1 d2 d3 d4 d5 d6 d7]. records. subst.
    unfold store_current, upgrade, execution_snapshot, snapshot, lock_guard in *. rewrite Hs. cbn [ok_or result_bind lock_poisoned reject lock_state
      revocation_evidence_digest Policy.policy Policy.generation].
    rewrite bool_decide_eq_false_2 by (by intros [??]). cbn [reject result_bind].
    match goal with |- context [validate_execution_bindings ?h ?p ?pr ?c ?r] =>
      assert (Hb : validate_execution_bindings h p pr c r = Ok (mkValidatedBindings (execution_authority_document_digest h (proof_authority pr))
        (contract_target_id c) d2 d3 (artifact_source artifact) (artifact_source_digest artifact) (artifact_digest artifact))) end.
    { apply validate_execution_bindings_Ok. cbv zeta. exists d2, d3, (artifact_source_digest artifact), (artifact_digest artifact), (artifact_source artifact).
      rewrite G10, G2, G3. records. split_and!; done || congruence. }
    rewrite Hb. clear Hb. cbn [result_bind].
    match goal with |- context [validate_policy_evidence ?p ?o ?r ?n ?l ?e ?m] =>
      assert (He : validate_policy_evidence p o r n l e m = Ok (evidence_hashes e, d6)) end.
    { apply validate_policy_evidence_Ok; [done..|]. cbv zeta. rewrite G10. records. split_and!; done || congruence. }
    rewrite He. clear He. cbn [result_bind validated_artifact_source validated_artifact_source_digest validated_executable_digest validated_target_id
      validated_authority_digest validated_contract_digest validated_resolution_digest fst snd].
    rewrite !(bool_decide_eq_false_2 (_ ≠ _)) by (intros Hn; by apply Hn). rewrite G19. cbn [negb reject result_bind].
    rewrite Hp. cbn [result_bind]. unfold verify_current. rewrite Hv. cbn [negb reject result_bind]. rewrite Hs'. cbn [ok_or result_bind].
    rewrite (proj2 (verify_policy_generation_Ok _ _) (ex_intro _ policy' eq_refl)). done.
Qed.
End Decision.

(** C29: a retained executable is authorized exactly when the store holds, at both
    readings, an unrevoked policy of one generation whose pins are the identities of
    the authority, the build context, the contract, the resolution, the evidence, the
    compatibility analysis and the executable at hand, the documents agree with each
    other on all of them, the analysis is complete, the launch can be represented, and
    the retained view still verifies; the decision then binds that policy and that
    executable. *)
Theorem authorize_execution_exact `{EJ : ExecutionJson} `{HS : Sha256} `{Alloc : Allocator} (hex_encode : bytes → str)
    heap heap' view request decision :
  limits_ok (request_limits request) → 0 <= max_total_evidence_bytes (request_limits request) →
  authorize_execution hex_encode heap heap' view request = Ok decision ↔
  ∃ policy generation digests prepared,
    store_current heap (request_policy_store request) generation policy ∧
    (∃ policy', store_current heap' (request_policy_store request) generation policy') ∧
    authorization_grounds hex_encode policy request digests ∧
    prepare_authorized_launch (request_retained_artifact request) (contract_launch_policy (request_target_contract request)) = Ok prepared ∧
    view (request_retained_artifact request) = true ∧
    decision = decision_of policy generation request digests prepared.
Proof. apply authorize_execution_Ok. Qed.

(** ** What is prepared *)

Definition authorized_launch_limits : ProcessLaunchLimits :=
  mkLaunchLimits MAX_EXECUTION_ARGUMENTS WINDOWS_MAX_SINGLE_VALUE_UNITS WINDOWS_MAX_COMMAND_LINE_UNITS.
Lemma authorized_launch_limits_ok : launch_limits_ok authorized_launch_limits.
Proof. by vm_compute. Qed.

Lemma prepare_authorized_launch_Ok `{Alloc : Allocator} artifact launch_policy prepared :
  ample Alloc → prepare_authorized_launch artifact launch_policy = Ok prepared →
  let executable := artifact_locked artifact in
  dependency_policy launch_policy = Dependency_VendorDefaultAmbient ∧ state_mode launch_policy = StateMode_VendorDefault ∧
  (∃ parent line, locked_parent executable = Some parent ∧
     build_command_line (locked_path executable) (map os_string_from (launch_policy_arguments launch_policy))
       authorized_launch_limits = Ok line ∧
     prepared_process prepared = mkPreparedLaunch (locked_path executable) (locked_identity executable) (lock_instance_id executable)
       (locked_path executable ++ [0]) (parent ++ [0]) line [0; 0]) ∧
  prepared_job_limits prepared = mkJobLimits (active_process_limit (resource_limits launch_policy))
    (process_memory_limit_bytes (resource_limits launch_policy)) (job_memory_limit_bytes (resource_limits launch_policy)).
Proof.
  intros Ha H. cbv zeta. unfold prepare_authorized_launch in H.
  change (launch_limits_new MAX_EXECUTION_ARGUMENTS WINDOWS_MAX_SINGLE_VALUE_UNITS WINDOWS_MAX_COMMAND_LINE_UNITS)
    with (Ok (E := LaunchError) authorized_launch_limits) in H. cbn [map_err] in H.
  unfold prepare_launch, prepare_launch_with_environment, encode_nul_terminated, job_limits_new in H. inv_ok. inv_guards.
  repeat match goal with H : encode_units _ _ = Ok _ |- _ => apply encode_units_Ok in H as (? & ? & ->); [|done] end.
  split_and!; [done..| |done]. by eexists _, _.
Qed.

(** authorization is only ever granted to a locally trusted policy for an
    ordinary full-trust launch.  With a store that holds policies as they are
    constructed, every decision has the local trust mode, the vendor-equivalent
    posture, the vendor's own state and the ambient dependency namespace: a developer
    policy requires disposable state, which no launch is prepared for, so it never
    authorizes anything. *)
Theorem authorization_requires_local_trust `{EJ : ExecutionJson} `{HS : Sha256} `{Alloc : Allocator} (hex_encode : bytes → str)
    heap heap' view request decision :
  ample Alloc → limits_ok (request_limits request) → 0 <= max_total_evidence_bytes (request_limits request) →
  (∀ generation policy, store_current heap (request_policy_store request) generation policy → local_policy_ok policy) →
  authorize_execution hex_encode heap heap' view request = Ok decision →
  authorized_trust_mode decision = Trust_LocallyTrusted ∧
  effective_security_posture decision = Effective_VendorEquivalentFullTrust ∧
  required_security_posture (authorized_launch_policy decision) = Required_VendorEquivalentFullTrust ∧
  state_mode (authorized_launch_policy decision) = StateMode_VendorDefault ∧
  dependency_policy (authorized_launch_policy decision) = Dependency_VendorDefaultAmbient.
Proof.
  intros Ha Hl H0 Hpol (policy & g & digests & prepared & Hs & _ & HG & Hp & _ & ->)%authorize_execution_Ok; [|done..].
  apply prepare_authorized_launch_Ok in Hp as (Hd & Hstate & _); [|done].
  destruct (Hpol _ _ Hs) as [Hpost Htrust]. pose proof (grounds_target _ _ _ _ HG) as Ht. cbv zeta in Ht.
  pose proof (grounds_requirements _ _ _ _ HG) as [_ Hreq]. unfold decision_of.
  cbn [authorized_trust_mode effective_security_posture authorized_launch_policy]. rewrite Hpost in Hreq.
  split_and!; [|done| |done|done].
  - destruct Htrust as [?|[_ Hdis]]; [done|]. rewrite Ht in Hdis. cbn [pinned_state_mode] in Hdis. congruence.
  - by destruct (required_security_posture _).
Qed.

(** ** The context digest *)

Definition digest_wf (d : Sha256Digest) : Prop := length d = 32%nat.

(** The digests a context is made of, in the order they are hashed. *)
Definition context_digests (digests : AuthorizationContextDigests) (policy : LocalExecutionPolicy) : list Sha256Digest :=
  [context_authority_document digests; pinned_source_build_fingerprint_digest (policy_context policy);
   pinned_package_tree_merkle (policy_context policy); pinned_execution_environment_digest (policy_context policy);
   pinned_build_descriptor_digest (policy_context policy); context_target_contract digests;
   context_resolution_evidence digests; context_artifact_source digests; context_executable digests;
   context_compatibility_analysis digests] ++ into_sha256_array (context_policy_evidence digests) ++ [policy_revision_digest policy].

Lemma concat_digests_inj l l' x y :
  Forall digest_wf l → Forall digest_wf l' → length l = length l' → concat l ++ x = concat l' ++ y → l = l' ∧ x = y.
Proof.
  revert l'. induction l as [|d l IH]; intros [|d' l'] Hl Hl' Hlen He; try done.
  apply Forall_cons in Hl as [Hd Hl], Hl' as [Hd' Hl']. cbn in He. rewrite <-!app_assoc in He.
  apply app_inj_1 in He as [-> He]; [|by unfold digest_wf in *; congruence].
  destruct (IH l' Hl Hl') as [-> ->]; [by injection Hlen|done|done].
Qed.

Lemma authorization_preimage_flat target_id digests policy generation :
  authorization_preimage target_id digests policy generation =
  AUTHORIZATION_CONTEXT_DOMAIN ++ le_bytes 8 (len target_id) ++ target_id ++
  concat (context_digests digests policy) ++ le_bytes 8 generation ++ [byte_of (trust_mode_tag (policy_trust_mode policy))].
Proof. unfold authorization_preimage, context_digests, into_sha256_array. cbn [app concat]. by rewrite <-!app_assoc. Qed.

Lemma le_bytes_8_inj a b : 0 <= a <= u64_max → 0 <= b <= u64_max → le_bytes 8 a = le_bytes 8 b → a = b.
Proof.
  intros Ha Hb H. rewrite <-(le_val_bytes 8 a), <-(le_val_bytes 8 b) by (change (256 ^ Z.of_nat 8) with (u64_max + 1); lia). by rewrite H.
Qed.

Lemma authorization_preimage_inj t d p g t' d' p' g' :
  len t <= u64_max → len t' <= u64_max → 0 <= g <= u64_max → 0 <= g' <= u64_max →
  Forall digest_wf (context_digests d p) → Forall digest_wf (context_digests d' p') →
  authorization_preimage t d p g = authorization_preimage t' d' p' g' →
  t = t' ∧ context_digests d p = context_digests d' p' ∧ g = g' ∧ policy_trust_mode p = policy_trust_mode p'.
Proof.
  intros Ht Ht' Hg Hg' Hd Hd' He. rewrite !authorization_preimage_flat in He. apply app_inv_head in He.
  apply app_inj_1 in He as [Hl He]; [|by rewrite !le_bytes_length].
  apply le_bytes_8_inj in Hl; [|pose proof (len_nonneg t); lia|pose proof (len_nonneg t'); lia].
  apply app_inj_1 in He as [-> He]; [|unfold len in Hl; lia].
  apply concat_digests_inj in He as [Hc He]; [|done..]. apply app_inj_1 in He as [Hgen He]; [|by rewrite !le_bytes_length].
  apply le_bytes_8_inj in Hgen; [|done..]. split_and!; [done..|].
  destruct (policy_trust_mode p), (policy_trust_mode p'); try done.
Qed.

(** a context digest identifies its decision: two decisions with one context
    digest agree on the target, on every digest that went into it, on the revision, the
    generation and the trust mode of the policy, unless the byte strings hashed for
    the two differ and have the same SHA-256 digest. *)
Theorem authorization_context_identifies `{HS : Sha256} t d p g t' d' p' g' :
  len t <= u64_max → len t' <= u64_max → 0 <= g <= u64_max → 0 <= g' <= u64_max →
  Forall digest_wf (context_digests d p) → Forall digest_wf (context_digests d' p') →
  authorization_context_digest t d p g = authorization_context_digest t' d' p' g' →
  (t = t' ∧ d = d' ∧ policy_context p = policy_context p' ∧ policy_revision_digest p = policy_revision_digest p' ∧
   g = g' ∧ policy_trust_mode p = policy_trust_mode p') ∨
  (authorization_preimage t d p g ≠ authorization_preimage t' d' p' g' ∧
   sha256 (authorization_preimage t d p g) = sha256 (authorization_preimage t' d' p' g')).
Proof.
  intros Ht Ht' Hg Hg' Hd Hd' He. unfold authorization_context_digest in He.
  destruct (decide (authorization_preimage t d p g = authorization_preimage t' d' p' g')) as [Hp|Hne]; [left|by right].
  destruct (authorization_preimage_inj _ _ _ _ _ _ _ _ Ht Ht' Hg Hg' Hd Hd' Hp) as (-> & Hc & -> & Hm).
  unfold context_digests, into_sha256_array in Hc. cbn [app] in Hc.
  destruct d as [? ? ? ? ? ? [? ? ? ? ?]], d' as [? ? ? ? ? ? [? ? ? ? ?]], p as [? ? [? ? ? ?] ? ?], p' as [? ? [? ? ? ?] ? ?].
  cbn in Hc, Hm |- *. injection Hc as -> -> -> -> -> -> -> -> -> -> -> -> -> -> -> ->. by split_and!.
Qed.

(** ** From the decision to the process *)

(** The command line of a prepared launch splits into the executable and UTF-16
    arguments that read back as the arguments of the contract. *)
Definition carries_arguments (executable : LockedExecutable) (arguments : list ExecutionArgument)
    (prepared : PreparedProcessLaunch) : Prop :=
  ∃ text units, prepared_command_line prepared = text ++ [0] ∧ (0 ∉ text) ∧
    split_command_line text = locked_path executable :: units ∧ map to_str units = map Some arguments.

Lemma prepared_carries_arguments `{Alloc : Allocator} artifact launch_policy prepared :
  ample Alloc → prepare_authorized_launch artifact launch_policy = Ok prepared →
  program_ok (locked_path (artifact_locked artifact)) →
  Forall (λ a, utf8_valid a = true) (launch_policy_arguments launch_policy) →
  carries_arguments (artifact_locked artifact) (launch_policy_arguments launch_policy) (prepared_process prepared) ∧
  prepared_environment (prepared_process prepared) = [0; 0].
Proof.
  intros Ha (_ & _ & (parent & line & _ & Hline & ->) & _)%prepare_authorized_launch_Ok Hprog Hargs; [|done].
  split; [|done]. apply build_command_line_splits in Hline as (text & -> & Hn & _ & Hs); [|done|apply authorized_launch_limits_ok|done].
  exists text, (map os_string_from (launch_policy_arguments launch_policy)). split_and!; [done..|].
  rewrite map_map. apply map_ext_Forall. eapply Forall_impl; [exact Hargs|]. intros a. apply os_string_from_to_str.
Qed.

Lemma launch_authorized_run heap view create_job os decision trace r trace' :
  launch_authorized_execution heap view create_job os decision trace = (r, trace') →
  (is_ok (authorized_verify_current_policy heap decision) = true ∧ view (retained_artifact decision) = true ∧
   ∃ r0, launch_prepared os (prepared_job_limits (prepared_launch decision)) (artifact_locked (retained_artifact decision))
           (prepared_process (prepared_launch decision)) trace = (r0, trace') ∧
         match r with
         | Ok s => ∃ process, r0 = Ok process ∧ s = mkSupervised process (authorized_target_id decision) (authorized_trust_mode decision)
                     (effective_security_posture decision) (authorized_launch_policy decision) (authorization_context decision)
                     (into_launch_parts (retained_artifact decision)).1 (authorized_policy_store decision) (authorized_policy_generation decision)
         | Err _ => is_ok r0 = false
         end) ∨
  (is_ok r = false ∧ trace' = trace).
Proof.
  unfold launch_authorized_execution, verify_current, mut_map_err, into_launch_parts, mut_bind, mut_lift, mut_ret.
  destruct (authorized_verify_current_policy heap decision) as [[]|e]; cbn [map_err]; [|intros [= <- <-]; by right].
  destruct (view (retained_artifact decision)); cbn [negb reject map_err]; [|intros [= <- <-]; by right].
  destruct (create_job _) as [[]|e]; cbn [map_err]; [|intros [= <- <-]; by right].
  destruct (launch_prepared _ _ _ _ trace) as [[process|e] t] eqn:E; cbn [map_err]; intros [= <- <-]; left; (split; [done|]);
    (split; [done|]); eexists; (split; [reflexivity|]); [by eexists|done].
Qed.

(** C30: a process that was authorized is exactly what runs.  Whatever happens to
    the policy stores between the decision and its launch, nothing is done once the
    store was touched or the retained view no longer verifies; a process handed over
    was created suspended with the retained executable itself, whose digest is the
    resolved one, with the arguments of the contract, an empty environment and the
    limits of the contract, and was resumed inside its job; and any other process is
    terminated. *)
Theorem authorized_launch_sound `{EJ : ExecutionJson} `{HS : Sha256} `{Alloc : Allocator} (hex_encode : bytes → str)
    heap heap1 heap2 view view' request decision create_job os trace r trace' :
  ample Alloc → limits_ok (request_limits request) → 0 <= max_total_evidence_bytes (request_limits request) →
  let store := request_policy_store request in
  let artifact := request_retained_artifact request in
  let contract := request_target_contract request in
  let limits := resource_limits (contract_launch_policy contract) in
  program_ok (locked_path (artifact_locked artifact)) →
  Forall (λ a, utf8_valid a = true) (launch_policy_arguments (contract_launch_policy contract)) →
  rtc (policy_step (E := ExecutionAuthorizationError)) heap heap1 →
  rtc (policy_step (E := ExecutionAuthorizationError)) heap1 heap2 →
  authorize_execution hex_encode heap heap1 view request = Ok decision →
  launch_authorized_execution heap2 view' create_job os decision trace = (r, trace') →
  ∃ steps, trace' = trace ++ steps ∧
    (heap2 !! store ≠ heap !! store ∨ view' artifact = false → steps = [] ∧ is_ok r = false) ∧
    match r with
    | Ok s => ∃ prepared, steps = [Effect_CreateSuspended prepared; Effect_QueryMembership; Effect_Resume] ∧
        carries_arguments (artifact_locked artifact) (launch_policy_arguments (contract_launch_policy contract)) prepared ∧
        prepared_environment prepared = [0; 0] ∧
        bound_to (artifact_locked artifact) prepared ∧ process_executable (supervised_process s) = artifact_locked artifact ∧
        process_job (supervised_process s) =
          mkJobLimits (active_process_limit limits) (process_memory_limit_bytes limits) (job_memory_limit_bytes limits) ∧
        supervised_target_id s = contract_target_id contract ∧ supervised_launch_policy s = contract_launch_policy contract ∧
        supervised_retained_source s = (artifact_source artifact, artifact_source_digest artifact) ∧
        artifact_digest artifact = resolved_executable_digest (resolution_digests (request_resolution_evidence request))
    | Err _ => steps = [] ∨ (∃ prepared, steps = [Effect_CreateSuspended prepared] ∧ is_ok (os_create os) = false) ∨
               ∃ before, steps = before ++ [Effect_TerminateProcess 1; Effect_TerminateJob 1]
    end.
Proof.
  intros Ha Hl H0 store artifact contract limits Hprog Hargs Hs1 Hs2 (policy & g & digests & prepared & Hs & _ & HG & Hp & _ & ->)%authorize_execution_Ok; [|done..].
  intros [(Hcur & Hview & r0 & Hrun & Hr)|[Hr ->]]%launch_authorized_run.
  2: { exists []. rewrite app_nil_r. split; [done|]. split; [done|]. destruct r; [done|by left]. }
  assert (Hsame : heap2 !! store = heap !! store).
  { apply (generation_identifies_store heap heap2 store g policy Hs); [by etrans|].
    unfold authorized_verify_current_policy, decision_of in Hcur. cbn [authorized_policy_store authorized_policy_generation] in Hcur.
    fold store in Hcur. by destruct (verify_store_generation heap2 store g) as [[]|]. }
  unfold decision_of in Hview, Hrun. cbn [retained_artifact prepared_launch] in Hview, Hrun. fold artifact in Hview, Hrun.
  pose proof (prepare_authorized_launch_Ok _ _ _ Ha Hp) as (_ & _ & _ & Hjob).
  destruct (prepared_carries_arguments _ _ _ Ha Hp Hprog Hargs) as [Hcarry Henv].
  apply launch_prepared_run in Hrun as (steps & -> & _ & Hrest). exists steps. split; [done|]. split.
  { intros [Hne|Hv]; [by destruct Hne|]. congruence. }
  destruct r as [s|e].
  - destruct Hr as (process & -> & ->). destruct Hrest as (-> & Hbound & _ & _ & _ & ->). exists (prepared_process prepared).
    pose proof (grounds_resolution _ _ _ _ HG) as Hres. pose proof (grounds_documents _ _ _ _ HG) as (_ & _ & _ & _ & Hexe & _).
    split_and!; try done. cbv zeta in Hres. rewrite Hres. cbn [resolution_digests resolved_executable_digest]. by rewrite Hexe.
  - destruct r0; [done|]. destruct Hrest as [?|[[-> ?]|?]]; [by left|right; left; by eexists|by right; right].
Qed.
