(* ===== verification/AuthorizationSpec.v ===== *)
(** * AuthorizationSpec: concrete decisions

    A policy, an authority with one target, its overlay, contract, resolution and
    evidence, and a retained executable, on which every law of [AuthorizationLaws] is
    used: the executable is authorized, launched, and refused once the policy is
    revoked. *)

From S2P Require Import Prelude Text Wire Evidence Policy Compatibility Overlay Execution ExecutionTarget Launch.
From S2P Require Import LaunchLaws Authorization AuthorizationLaws.

#[local] Instance sample_sha : Sha256 := λ bs, take 32 (bs ++ replicate 32 (byte_of 0)).
#[local] Instance sample_json : ExecutionJson := {|
  ExecutionJsonError := unit; execution_json_custom := tt;
  contract_from_slice := λ _, Err tt; contract_to_vec := λ _, Ok (lit "contract");
  resolution_from_slice := λ _, Err tt; resolution_to_vec := λ _, Ok (lit "resolution");
  analysis_to_vec := λ _, Ok (lit "analysis")
|}.
#[local] Existing Instance ample_allocator.

Definition spec_authority_transport : ExecutionAuthorityTransport :=
  mkExecutionAuthorityTransport (lit "openai.chatgpt") (lit "chatgpt") (sample_digest 11) None
    [(sample_target_id, mkTargetRef TargetKind_MainRuntime ArtifactSource_PackageSnapshot (sha256 (lit "contract")))].
Lemma spec_authority_ok : is_ok (execution_authority_deserialize spec_authority_transport) = true.
Proof. by vm_compute. Qed.
Definition spec_authority : AdapterExecutionAuthority := from_ok _ spec_authority_ok.

(** The build and the environment the sample analysis is about. *)
Definition spec_context : ExecutionOverlayContext :=
  mkOverlayContext (sample_digest 1) (sample_digest 12) (sample_digest 3) (sample_digest 13).
Definition spec_overlay_transport : ExecutionOverlayTransport :=
  mkExecutionOverlayTransport (overlay_binding_new demo_hex spec_context spec_authority) None
    [(sample_target_id, artifact_binding_new
        (mkArtifactDigests (sha256 (lit "contract")) (sample_digest 12) (sample_digest 14) (sha256 (lit "resolution"))))].
Lemma spec_overlay_ok : is_ok (execution_overlay_deserialize spec_overlay_transport) = true.
Proof. by vm_compute. Qed.
Definition spec_overlay : GeneratedExecutionOverlay := from_ok _ spec_overlay_ok.

Definition spec_evidence : ExecutionPolicyEvidence :=
  mkPolicyEvidence (lit "trust") (lit "provenance") (lit "capability") (lit "state") (lit "user").
Definition spec_launch_policy_transport : LaunchPolicyTransport :=
  mkLaunchPolicyTransport (Some 2) [lit "--serve"; lit "two words"] Environment_Empty InheritedHandles_None Console_None
    WorkingDirectory_ExecutableParent Dependency_VendorDefaultAmbient Required_VendorEquivalentFullTrust
    StateMode_VendorDefault (4, 1000, 2000) (mkPolicyRequirements (sha256 (lit "capability")) (sha256 (lit "state"))).
Lemma spec_launch_policy_ok : is_ok (launch_policy_deserialize spec_launch_policy_transport) = true.
Proof. by vm_compute. Qed.
Definition spec_launch_policy : ExecutionLaunchPolicy := from_ok _ spec_launch_policy_ok.
Definition spec_contract : ExecutionTargetContract :=
  target_contract_new sample_target_id TargetKind_MainRuntime (Locator_PackageSnapshot (lit "app/main.exe")) spec_launch_policy.
Definition spec_resolution : ExecutionResolutionEvidence :=
  mkResolution Resolution_V2 sample_target_id (Locator_PackageSnapshot (lit "app/main.exe"))
    (mkResolutionDigests (sha256 (lit "contract")) (sample_digest 12) (sample_digest 14) (sha256 (lit "trust")) (sha256 (lit "provenance"))).

Definition spec_target_pins : ExecutionTargetPins :=
  mkTargetPins sample_target_id (sha256 (lit "contract")) (sha256 (lit "resolution")) (sha256 (lit "trust"))
    (sha256 (lit "provenance")) (sha256 (lit "analysis")) (sha256 (lit "capability")) (sha256 (lit "state")) (sha256 (lit "user"))
    Effective_VendorEquivalentFullTrust StateMode_VendorDefault.
Definition spec_policy : LocalExecutionPolicy :=
  mkLocalExecutionPolicy Trust_LocallyTrusted
    (mkAuthorityPins (lit "openai.chatgpt") (lit "chatgpt") (sample_digest 11) (execution_authority_document_digest demo_hex spec_authority))
    (mkContextPins (sample_digest 1) (sample_digest 12) (sample_digest 3) (sample_digest 13)) spec_target_pins (sample_digest 15).

Definition spec_heap : ExecutionPolicyHeap := {[0%nat := Some (execution_policy_store_new spec_policy)]}.
Definition revoked_lock : PolicyLock LocalExecutionPolicy :=
  (execution_revoke (sample_digest 16) (execution_policy_store_new spec_policy)).2.
Definition revoked_heap : ExecutionPolicyHeap := <[0%nat := Some revoked_lock]> spec_heap.

Definition spec_artifact : RetainedExecutionArtifact :=
  Retained_PackageSnapshot (mkSnapshotExecutable (sample_digest 12) (lit "app/main.exe") (sample_digest 14) sample_locked).
Definition spec_limits : ExecutionAuthorizationLimits := mkAuthorizationLimits 1024 4096.
Definition spec_request : ExecutionAuthorizationRequest :=
  mkAuthorizationRequest (mkExecutionProof spec_overlay spec_authority) spec_contract spec_resolution sample_analysis 0%nat
    spec_evidence spec_artifact spec_limits.
Definition verifying : RetainedExecutionArtifact → bool := λ _, true.

Lemma spec_decision_ok : is_ok (authorize_execution demo_hex spec_heap spec_heap verifying spec_request) = true.
Proof. by vm_compute. Qed.
Definition spec_decision : AuthorizedExecution := from_ok _ spec_decision_ok.
Lemma spec_limits_ok : limits_ok (request_limits spec_request).
Proof. by vm_compute. Qed.
Lemma spec_total_nonneg : 0 <= max_total_evidence_bytes (request_limits spec_request).
Proof. by vm_compute. Qed.
Lemma spec_arguments_valid :
  Forall (λ a, utf8_valid a = true) (launch_policy_arguments (contract_launch_policy (request_target_contract spec_request))).
Proof. repeat constructor. Qed.
Lemma revoked_step : rtc (policy_step (E := ExecutionAuthorizationError)) spec_heap revoked_heap.
Proof.
  apply rtc_once, (step_revoke (E := ExecutionAuthorizationError) spec_heap 0%nat (execution_policy_store_new spec_policy) (sample_digest 16) (Ok tt));
    reflexivity.
Qed.
Definition accepting_os : launch_os := mkLaunchOs (Ok tt) (Ok 17) (Ok true) (Ok tt).
Definition creating_job : JobLimits → result unit LaunchError := λ _, Ok tt.

Lemma authorize_execution_exact_witness :
  ∃ policy generation digests, store_current spec_heap 0%nat generation policy ∧
    authorization_grounds demo_hex policy spec_request digests.
Proof.
  destruct (proj1 (authorize_execution_exact demo_hex spec_heap spec_heap verifying spec_request spec_decision spec_limits_ok spec_total_nonneg)
    (from_ok_eq _ _)) as (policy & g & digests & _ & Hs & _ & HG & _).
  exists policy, g, digests. exact (conj Hs HG).
Defined.

Lemma authorization_requires_local_trust_witness :
  authorized_trust_mode spec_decision = Trust_LocallyTrusted.
Proof.
  apply (authorization_requires_local_trust demo_hex spec_heap spec_heap verifying spec_request spec_decision
    ample_allocator_ample spec_limits_ok spec_total_nonneg); [|apply from_ok_eq].
  intros g policy Hs. unfold store_current, spec_heap in Hs. apply lookup_singleton_Some in Hs as [_ Hs].
  injection Hs as _ <-. split; [reflexivity|]. left. reflexivity.
Defined.

Definition spec_context_digests : AuthorizationContextDigests :=
  mkContextDigests (execution_authority_document_digest demo_hex spec_authority) (sha256 (lit "contract")) (sha256 (lit "resolution"))
    (sample_digest 12) (sample_digest 14) (sha256 (lit "analysis")) (evidence_hashes spec_evidence).
Lemma spec_digests_wf : Forall digest_wf (context_digests spec_context_digests spec_policy).
Proof. repeat (apply Forall_cons_2; [by vm_compute|]). apply Forall_nil_2. Qed.

Lemma authorization_context_identifies_witness :
  policy_context spec_policy = policy_context spec_policy ∨ 
  (authorization_preimage sample_target_id spec_context_digests spec_policy 1 ≠
   authorization_preimage sample_target_id spec_context_digests spec_policy 1).
Proof.
  destruct (authorization_context_identifies sample_target_id spec_context_digests spec_policy 1 sample_target_id spec_context_digests
    spec_policy 1 ltac:(by vm_compute) ltac:(by vm_compute) ltac:(by vm_compute) ltac:(by vm_compute) spec_digests_wf spec_digests_wf
    eq_refl) as [(_ & _ & H & _)|[H _]]; [left; exact H|right; exact H].
Defined.

(** Launched, and refused after a revocation. *)
Lemma authorized_launch_sound_witness :
  (∃ prepared, (launch_authorized_execution spec_heap verifying creating_job accepting_os spec_decision []).2 =
     [Effect_CreateSuspended prepared; Effect_QueryMembership; Effect_Resume] ∧
     carries_arguments sample_locked [lit "--serve"; lit "two words"] prepared) ∧
  (launch_authorized_execution revoked_heap verifying creating_job accepting_os spec_decision []).2 = [].
Proof.
  assert (Hok : is_ok (launch_authorized_execution spec_heap verifying creating_job accepting_os spec_decision []).1 = true) by by vm_compute.
  split.
  - destruct (authorized_launch_sound demo_hex spec_heap spec_heap spec_heap verifying verifying spec_request spec_decision creating_job accepting_os
      [] _ _ ample_allocator_ample spec_limits_ok spec_total_nonneg sample_program_ok spec_arguments_valid (rtc_refl _ _) (rtc_refl _ _)
      (from_ok_eq _ _) (surjective_pairing _)) as (steps & Ht & _ & Hr).
    destruct ((launch_authorized_execution spec_heap verifying creating_job accepting_os spec_decision []).1) as [s|e]; [|discriminate Hok].
    destruct Hr as (prepared & Hsteps & Hc & _). exists prepared. rewrite Hsteps in Ht. exact (conj Ht Hc).
  - destruct (authorized_launch_sound demo_hex spec_heap spec_heap revoked_heap verifying verifying spec_request spec_decision creating_job accepting_os
      [] _ _ ample_allocator_ample spec_limits_ok spec_total_nonneg sample_program_ok spec_arguments_valid (rtc_refl _ _) revoked_step
      (from_ok_eq _ _) (surjective_pairing _)) as (steps & Ht & Hs & _).
    assert (Hne : revoked_heap !! 0%nat ≠ spec_heap !! 0%nat) by (intros H; discriminate H).
    destruct (Hs (or_introl Hne)) as [-> _]. exact Ht.
Defined.
