(* ===== verification/Supervision.v ===== *)
(** * Supervision: a launched process under a revocable policy

    Models [crates/weregopher-transform/src/supervision.rs] and, of
    [crates/weregopher-windows/src/process.rs], [wait_for_process]: the limits of a
    supervision, its loop over policy checks and bounded waits, and the confirmed
    termination of the process.

    What the supervisor observes is a [SupervisionHost]: the policy stores as other
    threads have left them, the monotonic clock, and the calls into Windows on the
    process and its job.  Its state is threaded through the calls, so each reading
    sees the world left by the one before.  The loop runs on fuel; [loop_turns] is
    always enough. *)

From S2P Require Import Prelude Text Wire Policy Execution ExecutionTarget Launch Attest Authorization.
From S2P Require Import AuthorizationLaws AuthorizationSpec.

(** ** Limits *)

Definition MIN_POLICY_POLL_INTERVAL : Duration := from_millis 1.
Definition MAX_POLICY_POLL_INTERVAL : Duration := from_millis (60 * 1000).
Definition MAX_SUPERVISION_RUNTIME : Duration := from_millis (24 * 60 * 60 * 1000).
Definition TERMINATION_CONFIRMATION_TIMEOUT : Duration := from_millis 5000.
Definition SUPERVISOR_TERMINATION_EXIT_CODE : Z := 197.

Record SupervisionLimits : Type := mkSupervisionLimits {
  policy_poll_interval : Duration;
  max_runtime : Duration
}.

Inductive WaitError (OsError : Type) : Type :=
| Wait_TimeoutOutOfRange | Wait_UnboundedSentinel | Wait_LastOsError (source : OsError) | Wait_UnexpectedResult.
Arguments Wait_TimeoutOutOfRange {_}. Arguments Wait_UnboundedSentinel {_}. Arguments Wait_LastOsError {_}.
Arguments Wait_UnexpectedResult {_}.

Inductive SupervisionError (OsError : Type) : Type :=
| Supervision_InvalidLimits
| Supervision_ProcessWait (source : WaitError OsError)
| Supervision_ProcessTermination (source : OsError)
| Supervision_TerminationConfirmationTimeout.
Arguments Supervision_InvalidLimits {_}. Arguments Supervision_ProcessWait {_}.
Arguments Supervision_ProcessTermination {_}. Arguments Supervision_TerminationConfirmationTimeout {_}.

Definition supervision_limits_new {OsError} (policy_poll_interval max_runtime : Duration) :
    result SupervisionLimits (SupervisionError OsError) :=
  do? reject ((policy_poll_interval <? MIN_POLICY_POLL_INTERVAL) || (max_runtime =? 0) ||
              (MAX_POLICY_POLL_INTERVAL <? policy_poll_interval) || (MAX_SUPERVISION_RUNTIME <? max_runtime) ||
              (max_runtime <? policy_poll_interval)) Supervision_InvalidLimits in
  Ok (mkSupervisionLimits policy_poll_interval max_runtime).

Inductive SupervisionOutcome : Type :=
| Outcome_Exited (code : Z)
| Outcome_PolicyInvalidated (reason : ExecutionAuthorizationError)
| Outcome_RuntimeExceeded.

Record SupervisionReport : Type := mkSupervisionReport {
  report_target_id : ExecutionTargetId;
  report_authorization_context_digest : AuthorizationContextDigest;
  report_elapsed : Duration;
  report_outcome : SupervisionOutcome
}.

(** ** The world of the supervisor *)

(** The results of [WaitForSingleObject] that the code tells apart. *)
Definition WAIT_OBJECT_0 : Z := 0.
Definition WAIT_TIMEOUT : Z := 258.
Definition WAIT_FAILED : Z := 0xFFFFFFFF.

Record SupervisionHost (W OsError : Type) : Type := mkSupervisionHost {
  host_policies : W → ExecutionPolicyHeap * W;
  host_now : W → Instant * W;
  wait_for_single_object : Z → W → Z * W;
  get_exit_code_process : W → result Z OsError * W;
  last_os_error : W → OsError;
  terminate_job_object : Z → W → result unit OsError * W
}.
Arguments host_policies {_ _}. Arguments host_now {_ _}. Arguments wait_for_single_object {_ _}.
Arguments get_exit_code_process {_ _}. Arguments last_os_error {_ _}. Arguments terminate_job_object {_ _}.

Section Supervise.
Context {W OsError : Type} (host : SupervisionHost W OsError).

Definition wait_for_process (timeout : Duration) : mut W (WaitError OsError) (option Z) :=
  let milliseconds := as_millis timeout in
  do* mut_lift (reject (u32_max <? milliseconds) Wait_TimeoutOutOfRange) in
  do* mut_lift (reject (milliseconds =? u32_max) Wait_UnboundedSentinel) in
  λ w, let '(wait, w) := wait_for_single_object host milliseconds w in
    if wait =? WAIT_TIMEOUT then (Ok None, w)
    else if wait =? WAIT_OBJECT_0 then
      match get_exit_code_process host w with
      | (Ok exit_code, w) => (Ok (Some exit_code), w)
      | (Err source, w) => (Err (Wait_LastOsError source), w)
      end
    else if wait =? WAIT_FAILED then (Err (Wait_LastOsError (last_os_error host w)), w)
    else (Err Wait_UnexpectedResult, w).

(** [execution.wait_for(timeout).map_err(SupervisionError::ProcessWait)]. *)
Definition supervised_wait (timeout : Duration) : mut W (SupervisionError OsError) (option Z) :=
  mut_map_err Supervision_ProcessWait (wait_for_process timeout).

Definition terminate_and_confirm : mut W (SupervisionError OsError) unit :=
  let* exited := supervised_wait 0 in
  if bool_decide (is_Some exited) then mut_ret tt
  else λ w, match terminate_job_object host SUPERVISOR_TERMINATION_EXIT_CODE w with
    | (Err error, w) =>
      (let* exited := supervised_wait 0 in
       if bool_decide (is_Some exited) then mut_ret tt
       else mut_lift (Err (Supervision_ProcessTermination error))) w
    | (Ok _, w) =>
      (let* exited := supervised_wait TERMINATION_CONFIRMATION_TIMEOUT in
       mut_lift (reject (bool_decide (exited = None)) Supervision_TerminationConfirmationTimeout)) w
    end.

Definition host_elapsed (started : Instant) : mut W (SupervisionError OsError) Duration :=
  λ w, let '(now, w) := host_now host w in (Ok (elapsed_since started now), w).

Section Loop.
Context (execution : SupervisedExecution) (limits : SupervisionLimits) (started : Instant).

Definition supervision_report (elapsed : Duration) (outcome : SupervisionOutcome) : SupervisionReport :=
  mkSupervisionReport (supervised_target_id execution) (supervised_authorization_context execution) elapsed outcome.

(** [supervised_verify_current_policy] on the stores as they are. *)
Definition host_verify_current_policy : mut W (SupervisionError OsError) (result unit ExecutionAuthorizationError) :=
  λ w, let '(heap, w) := host_policies host w in (Ok (supervised_verify_current_policy heap execution), w).

(** The body of the loop: a report, or another turn. *)
Definition supervise_turn : mut W (SupervisionError OsError) (option SupervisionReport) :=
  let* verified := host_verify_current_policy in
  match verified with
  | Err reason =>
    do* terminate_and_confirm in
    let* elapsed := host_elapsed started in
    mut_ret (Some (supervision_report elapsed (Outcome_PolicyInvalidated reason)))
  | Ok _ =>
    let* elapsed := host_elapsed started in
    if max_runtime limits <=? elapsed then
      do* terminate_and_confirm in
      let* elapsed := host_elapsed started in
      mut_ret (Some (supervision_report elapsed Outcome_RuntimeExceeded))
    else
      let observation_interval := Z.min (policy_poll_interval limits) (Z.max 0 (max_runtime limits - elapsed)) in
      let* exited := supervised_wait observation_interval in
      match exited with
      | Some code =>
        let* elapsed := host_elapsed started in
        mut_ret (Some (supervision_report elapsed (Outcome_Exited code)))
      | None => mut_ret None
      end
  end.

Fixpoint supervise_loop (fuel : nat) (w : W) : option (result SupervisionReport (SupervisionError OsError) * W) :=
  match fuel with
  | O => None
  | S fuel =>
    match supervise_turn w with
    | (Ok (Some report), w) => Some (Ok report, w)
    | (Ok None, w) => supervise_loop fuel w
    | (Err error, w) => Some (Err error, w)
    end
  end.
End Loop.

Definition supervise_execution (fuel : nat) (execution : SupervisedExecution) (limits : SupervisionLimits) (w : W) :
    option (result SupervisionReport (SupervisionError OsError) * W) :=
  let '(started, w) := host_now host w in supervise_loop execution limits started fuel w.
End Supervise.

(** ** What the supervisor relies on of Windows *)

Section Laws.
Context {W OsError : Type} (host : SupervisionHost W OsError) (clock : W → Instant) (exit_status : W → option Z).

(** Time does not go back, and a process that has exited keeps its exit code. *)
Definition onward (w w' : W) : Prop :=
  clock w <= clock w' ∧ ∀ c, exit_status w = Some c → exit_status w' = Some c.

#[local] Instance onward_preorder : PreOrder onward.
Proof. unfold onward. split; [intros w; split; [lia|done]|]. intros w1 w2 w3 [? H1] [? H2]. split; [lia|]. auto. Qed.

(** The clock is read between the states before and after the call; a signalled process
    has exited, with the code that is queried afterwards.  How long a wait takes before
    it times out is left open: Windows may return early, and a wait of less than a
    millisecond is a poll. *)
Record lawful_host : Prop := mkLawfulHost {
  policies_onward : ∀ w heap w', host_policies host w = (heap, w') → onward w w';
  now_reads : ∀ w t w', host_now host w = (t, w') → onward w w' ∧ clock w <= t <= clock w';
  wait_onward : ∀ ms w code w', wait_for_single_object host ms w = (code, w') → onward w w';
  wait_signalled : ∀ ms w w', wait_for_single_object host ms w = (WAIT_OBJECT_0, w') → is_Some (exit_status w');
  query_onward : ∀ w r w', get_exit_code_process host w = (r, w') → onward w w';
  query_reads : ∀ w c w', get_exit_code_process host w = (Ok c, w') → is_Some (exit_status w) → exit_status w' = Some c;
  terminate_onward : ∀ code w r w', terminate_job_object host code w = (r, w') → onward w w'
}.

(** [n] waits that time out, of whatever length, between readings of policy and clock. *)
Inductive polled : nat → W → W → Prop :=
| polled_none w : polled 0 w w
| polled_policies n w w' : polled n w w' → polled n w (host_policies host w').2
| polled_now n w w' : polled n w w' → polled n w (host_now host w').2
| polled_wait n ms w w' w'' :
    polled n w w' → wait_for_single_object host ms w' = (WAIT_TIMEOUT, w'') → polled (S n) w w''.

(** The clock is not stuck: [polls] waits that time out, however early each of them
    returns, take a [tick] together. *)
Record ticking_host (tick : Z) (polls : nat) : Prop := mkTickingHost {
  tick_positive : 0 < tick;
  polls_tick : ∀ w w', polled polls w w' → clock w + tick <= clock w'
}.

Context (Hlaw : lawful_host).

(** The errors of a supervision that are not the caller's: Windows refused a call, or
    the process outlived its termination. *)
Definition host_failure (e : SupervisionError OsError) : Prop :=
  match e with
  | Supervision_ProcessWait (Wait_LastOsError _) | Supervision_ProcessWait Wait_UnexpectedResult
  | Supervision_ProcessTermination _ | Supervision_TerminationConfirmationTimeout => True
  | _ => False
  end.

(** [m] moves the world onward, fails only through the host, and its value satisfies [post]. *)
Definition observes {A} (m : mut W (SupervisionError OsError) A) (w : W) (post : A → W → Prop) : Prop :=
  let '(r, w') := m w in onward w w' ∧ match r with Ok a => post a w' | Err e => host_failure e end.

Lemma observes_bind {A B} (m : mut W (SupervisionError OsError) A) (k : A → mut W (SupervisionError OsError) B) w post post' :
  observes m w post → (∀ a w', onward w w' → post a w' → observes (k a) w' post') → observes (mut_bind m k) w post'.
Proof.
  unfold observes, mut_bind. destruct (m w) as [[a|e] w'] eqn:E; intros [Ho Hp] Hk; [|done].
  specialize (Hk a w' Ho Hp). destruct (k a w') as [r w'']. destruct Hk as [Ho' Hr]. split; [by etrans|done].
Qed.
Lemma observes_ret {A} (a : A) w (post : A → W → Prop) : post a w → observes (mut_ret a) w post.
Proof. by split. Qed.
Lemma observes_mono {A} (m : mut W (SupervisionError OsError) A) w (post post' : A → W → Prop) :
  observes m w post → (∀ a w', onward w w' → post a w' → post' a w') → observes m w post'.
Proof. unfold observes. destruct (m w) as [[a|e] w']; intros [Ho Hp] Hm; split; auto. Qed.

(** The timeouts in use are milliseconds Windows can wait for. *)
Lemma supervised_wait_observes timeout w :
  0 <= timeout <= MAX_POLICY_POLL_INTERVAL →
  observes (supervised_wait host timeout) w (λ exited w',
    match exited with None => True | Some c => exit_status w' = Some c end).
Proof.
  intros Ht. unfold observes, supervised_wait, mut_map_err, wait_for_process, mut_bind, mut_lift.
  assert (Hms : 0 <= as_millis timeout <= 60 * 1000).
  { unfold as_millis, MAX_POLICY_POLL_INTERVAL, from_millis, NANOS_PER_MILLI in *.
    split; [apply Z.div_pos; lia|apply Z.div_le_upper_bound; lia]. }
  destruct (Z.ltb_spec u32_max (as_millis timeout)); [unfold u32_max in *; lia|].
  destruct (Z.eqb_spec (as_millis timeout) u32_max); [unfold u32_max in *; lia|]. cbn [reject].
  destruct (wait_for_single_object host (as_millis timeout) w) as [code w1] eqn:E.
  pose proof (wait_onward Hlaw _ _ _ _ E) as Ho.
  destruct (Z.eqb_spec code WAIT_TIMEOUT) as [->|_].
  { by split. }
  destruct (Z.eqb_spec code WAIT_OBJECT_0) as [->|_]; [|by destruct (code =? WAIT_FAILED)].
  pose proof (wait_signalled Hlaw _ _ _ E) as Hs.
  destruct (get_exit_code_process host w1) as [[c|e] w2] eqn:Eq; cbn [map_err].
  - split; [etrans; [exact Ho|by apply (query_onward Hlaw _ _ _ Eq)]|]. by apply (query_reads Hlaw _ _ _ Eq).
  - split; [etrans; [exact Ho|by apply (query_onward Hlaw _ _ _ Eq)]|done].
Qed.

Lemma host_elapsed_observes started w :
  observes (host_elapsed host started) w (λ elapsed w',
    Z.max 0 (clock w - started) <= elapsed <= Z.max 0 (clock w' - started)).
Proof.
  unfold observes, host_elapsed, elapsed_since. destruct (host_now host w) as [t w'] eqn:E.
  destruct (now_reads Hlaw _ _ _ E) as [Ho Ht]. split; [done|]. lia.
Qed.

Lemma terminate_and_confirm_observes w :
  observes (terminate_and_confirm host) w (λ _ w', is_Some (exit_status w')).
Proof.
  assert (Hzero : 0 <= 0 <= MAX_POLICY_POLL_INTERVAL) by done.
  assert (Hconf : 0 <= TERMINATION_CONFIRMATION_TIMEOUT <= MAX_POLICY_POLL_INTERVAL) by done.
  unfold terminate_and_confirm. eapply observes_bind; [by apply supervised_wait_observes|].
  intros [c|] w1 Ho Hw; [apply (observes_ret tt w1 (λ _ w', is_Some (exit_status w'))); by eexists|].
  rewrite (bool_decide_eq_false_2 (is_Some None)) by (by intros []). unfold observes.
  destruct (terminate_job_object host SUPERVISOR_TERMINATION_EXIT_CODE w1) as [[u|e] w2] eqn:E;
    apply (terminate_onward Hlaw) in E as Ho2.
  - enough (observes (let* exited := supervised_wait host TERMINATION_CONFIRMATION_TIMEOUT in
       mut_lift (reject (bool_decide (exited = None)) Supervision_TerminationConfirmationTimeout)) w2 (λ _ w', is_Some (exit_status w'))) as Hk.
    { unfold observes in Hk. destruct (mut_bind _ _ w2) as [r w3]. destruct Hk as [Ho3 Hk]. split; [by etrans|done]. }
    eapply observes_bind; [by apply supervised_wait_observes|]. intros [c|] w3 _ Hw3; split; try done; by eexists.
  - enough (observes (let* exited := supervised_wait host 0 in
       if bool_decide (is_Some exited) then mut_ret tt else mut_lift (Err (Supervision_ProcessTermination e))) w2
       (λ _ w', is_Some (exit_status w'))) as Hk.
    { unfold observes in Hk. destruct (mut_bind _ _ w2) as [r w3]. destruct Hk as [Ho3 Hk]. split; [by etrans|done]. }
    eapply observes_bind; [by apply supervised_wait_observes|]. intros [c|] w3 _ Hw3; cbn.
    + split; [done|]. by eexists.
    + done.
Qed.

(** ** One turn of the loop *)

Section Turn.
Context (execution : SupervisedExecution) (limits : SupervisionLimits).
Context (Hpoll : MIN_POLICY_POLL_INTERVAL <= policy_poll_interval limits <= MAX_POLICY_POLL_INTERVAL).

Abbreviation verified_at w := (supervised_verify_current_policy (host_policies host w).1 execution).

(** What a report of a supervision that began at [started] says in the world it leaves,
    when its last turn began in [w]. *)
Definition report_truthful (started : Instant) (report : SupervisionReport) (w w' : W) : Prop :=
  report_target_id report = supervised_target_id execution ∧
  report_authorization_context_digest report = supervised_authorization_context execution ∧
  is_Some (exit_status w') ∧ report_elapsed report <= Z.max 0 (clock w' - started) ∧
  match report_outcome report with
  | Outcome_Exited code => exit_status w' = Some code ∧ verified_at w = Ok tt
  | Outcome_PolicyInvalidated reason => verified_at w = Err reason
  | Outcome_RuntimeExceeded => max_runtime limits <= report_elapsed report ∧ verified_at w = Ok tt
  end.

(** A turn that is not the last has found the policy in force, and the runtime not over. *)
Definition turn_post (started : Instant) (w : W) (o : option SupervisionReport) (w' : W) : Prop :=
  match o with
  | Some report => report_truthful started report w w'
  | None => verified_at w = Ok tt ∧ clock w - started < max_runtime limits
  end.

Lemma supervise_turn_observes started w :
  started <= clock w → observes (supervise_turn host execution limits started) w (turn_post started w).
Proof.
  intros Hst. unfold supervise_turn. eapply (observes_bind _ _ _ (λ v w', v = verified_at w)).
  { unfold observes, host_verify_current_policy. destruct (host_policies host w) as [heap w1] eqn:E. split; [|done].
    by apply (policies_onward Hlaw _ _ _ E). }
  intros v w1 Ho1 Hv. destruct v as [[]|reason].
  - eapply observes_bind; [apply host_elapsed_observes|]. intros e w2 Ho2 He. cbn beta in He.
    assert (He' : e <= clock w2 - started) by (destruct Ho1, Ho2; lia).
    destruct (Z.leb_spec (max_runtime limits) e).
    + eapply observes_bind; [apply terminate_and_confirm_observes|]. intros [] w3 Ho3 Hx.
      eapply observes_bind; [apply host_elapsed_observes|]. intros e' w4 Ho4 He4. cbn beta in He4.
      apply observes_ret. destruct Hx as [c Hx].
      split_and!; [done|done|exists c; by apply Ho4|cbn; lia|]. cbn. destruct Ho3. by split; [lia|].
    + eapply observes_bind.
      { apply supervised_wait_observes. rewrite Z.max_r by lia. unfold MIN_POLICY_POLL_INTERVAL, from_millis, NANOS_PER_MILLI in Hpoll. lia. }
      intros [c|] w3 Ho3 Hx; cbn beta in Hx.
      * eapply observes_bind; [apply host_elapsed_observes|]. intros e' w4 Ho4 He4. cbn beta in He4.
        apply observes_ret. apply Ho4 in Hx. split_and!; [done|done|by exists c|cbn; lia|by split].
      * apply observes_ret. split; [done|]. destruct Ho1. lia.
  - eapply observes_bind; [apply terminate_and_confirm_observes|]. intros [] w3 Ho3 Hx.
    eapply observes_bind; [apply host_elapsed_observes|]. intros e' w4 Ho4 He4. cbn beta in He4.
    apply observes_ret. destruct Hx as [c Hx].
    split_and!; [done|done|exists c; by apply Ho4|cbn; lia|done].
Qed.

(** A turn that is not the last has polled once. *)
Lemma supervise_turn_polled started w w' :
  supervise_turn host execution limits started w = (Ok None, w') → polled 1 w w'.
Proof.
  unfold supervise_turn, mut_bind, host_verify_current_policy, host_elapsed, mut_ret.
  destruct (host_policies host w) as [heap w1] eqn:E1.
  destruct (supervised_verify_current_policy heap execution) as [[]|reason].
  2: { destruct (terminate_and_confirm host w1) as [[[]|e] w2]; [|done]. by destruct (host_now host w2). }
  destruct (host_now host w1) as [t w2] eqn:E2. destruct (_ <=? _).
  { destruct (terminate_and_confirm host w2) as [[[]|e] w3]; [|done]. by destruct (host_now host w3). }
  destruct (supervised_wait host _ w2) as [[[c|]|e] w3] eqn:E3; [by destruct (host_now host w3)| |done]. intros [= <-].
  pose proof (polled_now _ _ _ (polled_policies _ _ _ (polled_none w))) as Hp. rewrite E1 in Hp. cbn in Hp. rewrite E2 in Hp. cbn in Hp.
  revert E3. unfold supervised_wait, mut_map_err, wait_for_process, mut_bind, mut_lift.
  destruct (reject _ _); [|done]. destruct (reject _ _); [|done].
  destruct (wait_for_single_object host _ w2) as [code w4] eqn:E4.
  destruct (Z.eqb_spec code WAIT_TIMEOUT) as [->|_]; [intros [= <-]; by eapply polled_wait|].
  destruct (code =? WAIT_OBJECT_0); [by destruct (get_exit_code_process host w4) as [[]]|]. by destruct (code =? WAIT_FAILED).
Qed.

(** ** The loop ends *)

(** [n] turns that were not the last, each of which found the policy in force. *)
Inductive earlier_turns (started : Instant) : nat → W → W → Prop :=
| no_turn w : earlier_turns started 0 w w
| one_turn n w w1 w2 :
    verified_at w = Ok tt → supervise_turn host execution limits started w = (Ok None, w1) →
    earlier_turns started n w1 w2 → earlier_turns started (S n) w w2.

Lemma polled_app n m w w1 w2 : polled n w w1 → polled m w1 w2 → polled (n + m) w w2.
Proof.
  intros H1 H2. induction H2 as [|m w1 w2 _ IH|m w1 w2 _ IH|m ms w1 w2 w3 _ IH Hw].
  - by rewrite Nat.add_0_r.
  - apply polled_policies, IH, H1.
  - apply polled_now, IH, H1.
  - rewrite <-plus_n_Sm. eapply polled_wait; [by apply IH|done].
Qed.

Lemma polled_split n m w w2 : polled (n + m) w w2 → ∃ w1, polled n w w1 ∧ polled m w1 w2.
Proof.
  intros H. remember (n + m)%nat as k eqn:Hk. revert m Hk.
  induction H as [|k w w2 _ IH|k w w2 _ IH|k ms w w2 w3 Hp IH Hw]; intros m Hk.
  - assert (n = 0 ∧ m = 0)%nat as [-> ->] by lia. exists w. by split; constructor.
  - destruct (IH m Hk) as (w1 & ? & ?). exists w1. by split; [|apply polled_policies].
  - destruct (IH m Hk) as (w1 & ? & ?). exists w1. by split; [|apply polled_now].
  - destruct m as [|m].
    + rewrite Nat.add_0_r in Hk. subst n. exists w3. split; [by eapply polled_wait|constructor].
    + destruct (IH m ltac:(lia)) as (w1 & ? & ?). exists w1. split; [done|by eapply polled_wait].
Qed.

Lemma earlier_turns_polled started n w w' : earlier_turns started n w w' → polled n w w'.
Proof.
  induction 1 as [|n w w1 w2 _ Ht _ IH]; [constructor|]. apply (polled_app 1 n w w1); [by eapply supervise_turn_polled|done].
Qed.

(** The loop has run out of fuel, or ended with the turn after the ones that were not the last. *)
Lemma supervise_loop_turns started fuel w :
  started <= clock w → ∃ n w1, earlier_turns started n w w1 ∧ started <= clock w1 ∧
    (n = fuel ∧ supervise_loop host execution limits started fuel w = None ∨
     (n < fuel)%nat ∧ ∃ r w', supervise_loop host execution limits started fuel w = Some (r, w') ∧ onward w w' ∧
       match r with Ok report => report_truthful started report w1 w' | Err e => host_failure e end).
Proof.
  revert w. induction fuel as [|fuel IH]; intros w Hst; cbn [supervise_loop].
  { exists 0%nat, w. split_and!; [constructor|done|by left]. }
  pose proof (supervise_turn_observes started w Hst) as Ht. unfold observes in Ht.
  destruct (supervise_turn host execution limits started w) as [[[report|]|e] w'] eqn:E; destruct Ht as [Ho Ht].
  - exists 0%nat, w. split_and!; [constructor|done|right]. split; [lia|]. by eexists _, _.
  - destruct Ht as [Hv _]. destruct (IH w') as (n & w1 & Hn & Hw1 & Hr); [destruct Ho; lia|].
    exists (S n), w1. split_and!; [by eapply one_turn|done|].
    destruct Hr as [[-> Hr]|(Hlt & r & w2 & Hr & Ho2 & Hp)]; [by left|right]. split; [lia|].
    exists r, w2. split_and!; [done|by etrans|done].
  - exists 0%nat, w. split_and!; [constructor|done|right]. split; [lia|]. by eexists _, _.
Qed.

(** How many turns may pass before the runtime is over. *)
Definition loop_turns (tick : Z) (polls : nat) (runtime : Z) : nat := polls * Z.to_nat ((runtime + tick - 1) / tick).

Lemma polled_onward n w w' : polled n w w' → onward w w'.
Proof.
  induction 1 as [|n w w' _ IH|n w w' _ IH|n ms w w' w'' _ IH Hw]; [done|..]; (etrans; [exact IH|]).
  - destruct (host_policies host w') eqn:E. by eapply policies_onward.
  - destruct (host_now host w') eqn:E. by eapply now_reads.
  - by eapply wait_onward.
Qed.

Lemma polled_ticks tick polls k w w' :
  ticking_host tick polls → polled (polls * k) w w' → clock w + Z.of_nat k * tick <= clock w'.
Proof.
  intros Htick. revert w. induction k as [|k IH]; intros w Hp.
  - destruct (polled_onward _ _ _ Hp). lia.
  - rewrite Nat.mul_succ_r, Nat.add_comm in Hp. apply polled_split in Hp as (w1 & H1 & H2).
    apply (polls_tick _ _ Htick) in H1. apply IH in H2. lia.
Qed.

Lemma earlier_turns_split started n m w w2 :
  earlier_turns started (n + m) w w2 → ∃ w1, earlier_turns started n w w1 ∧ earlier_turns started m w1 w2.
Proof.
  revert w. induction n as [|n IH]; intros w H; [exists w; by split; [constructor|]|].
  inv H as [|? ? w1 ? Hv Ht Hr]. apply IH in Hr as (w3 & ? & ?). exists w3. split; [by eapply one_turn|done].
Qed.

(** The runtime is over before that many turns have passed. *)
Lemma earlier_turns_bounded tick polls started n w w1 :
  ticking_host tick polls → started <= clock w → earlier_turns started n w w1 →
  (n <= loop_turns tick polls (max_runtime limits))%nat.
Proof.
  intros Htick Hst Hn. pose proof (tick_positive _ _ Htick) as Hpos. apply Nat.nlt_ge. unfold loop_turns. intros Hlt.
  set (k := Z.to_nat ((max_runtime limits + tick - 1) / tick)) in *.
  replace n with (polls * k + S (n - S (polls * k)))%nat in Hn by lia.
  apply earlier_turns_split in Hn as (w2 & H2 & H3). apply earlier_turns_polled in H2.
  pose proof (polled_ticks _ _ _ _ _ Htick H2) as Hc. destruct (polled_onward _ _ _ H2) as [Ho _].
  inv H3 as [|? ? w3 ? Hv Ht _]. pose proof (supervise_turn_observes started w2 ltac:(lia)) as Hp. unfold observes in Hp.
  rewrite Ht in Hp. destruct Hp as (_ & _ & Hp).
  assert (Hk : max_runtime limits <= Z.of_nat k * tick); [|lia].
  pose proof (Z.div_mod (max_runtime limits + tick - 1) tick ltac:(lia)).
  pose proof (Z.mod_pos_bound (max_runtime limits + tick - 1) tick Hpos). nia.
Qed.
End Turn.
End Laws.

Lemma supervision_limits_new_Ok {OsError} poll runtime limits :
  supervision_limits_new (OsError := OsError) poll runtime = Ok limits ↔
    limits = mkSupervisionLimits poll runtime ∧ MIN_POLICY_POLL_INTERVAL <= poll <= MAX_POLICY_POLL_INTERVAL ∧
    poll <= runtime <= MAX_SUPERVISION_RUNTIME.
Proof.
  unfold supervision_limits_new. split.
  - intros H. inv_ok. inv_guards. split_and!; done || lia.
  - intros (-> & ? & ?). unfold MIN_POLICY_POLL_INTERVAL, MAX_POLICY_POLL_INTERVAL, MAX_SUPERVISION_RUNTIME, from_millis, NANOS_PER_MILLI in *.
    rewrite !(proj2 (Z.ltb_ge _ _)) by lia. rewrite (proj2 (Z.eqb_neq _ _)) by lia. done.
Qed.

(** C32: Every supervision ends, and ends truthfully.  Waits may time out early, so the
    loop may take more turns than its interval suggests; as long as the clock is not
    stuck ([polls] timed-out waits take a tick together, [ticking_host]) there are at
    most [polls] turns for each tick of the runtime, under valid limits, before the last
    one.  Every earlier turn found the policy in force.  When the last one reports, the
    process has exited: by itself with the reported code, or, the policy still in force,
    not before the runtime was exceeded, or after a check of the policy in this very
    turn failed with the reported reason.  A supervision fails only when Windows refuses
    a wait or a termination, or the termination is not confirmed in time. *)
Theorem supervision_ends_truthfully {W OsError} (host : SupervisionHost W OsError) clock exit_status tick polls
    execution poll runtime limits fuel w :
  lawful_host host clock exit_status → ticking_host host clock tick polls →
  supervision_limits_new (OsError := OsError) poll runtime = Ok limits →
  (loop_turns tick polls runtime < fuel)%nat →
  ∃ r started w0 n w1 w', host_now host w = (started, w0) ∧
    supervise_execution host fuel execution limits w = Some (r, w') ∧ clock w <= started <= clock w' ∧
    earlier_turns host execution limits started n w0 w1 ∧ (n <= loop_turns tick polls runtime)%nat ∧
    match r with
    | Ok report => report_truthful host clock exit_status execution limits started report w1 w'
    | Err e => host_failure e
    end.
Proof.
  intros Hlaw Htick (-> & Hp & Hr)%supervision_limits_new_Ok Hf. unfold supervise_execution.
  destruct (host_now host w) as [started w0] eqn:E. destruct (now_reads _ _ _ Hlaw _ _ _ E) as [Ho Ht].
  destruct (supervise_loop_turns host clock exit_status Hlaw execution (mkSupervisionLimits poll runtime) Hp started fuel w0)
    as (n & w1 & Hn & Hw1 & Hcase); [lia|].
  pose proof (earlier_turns_bounded host clock exit_status Hlaw execution (mkSupervisionLimits poll runtime) Hp
    tick polls started n w0 w1 Htick ltac:(lia) Hn) as Hbound. cbn in Hbound.
  destruct Hcase as [[-> _]|(_ & r & w' & Hrun & Ho' & Hpost)]; [lia|].
  exists r, started, w0, n, w1, w'. destruct Ho'. split_and!; done || lia.
Qed.

(** C31: A supervised process does not outlive its policy.  Once the store is replaced,
    revoked, poisoned or dropped after the decision it was launched under, whatever else
    happens to the stores, the turn that sees it is the last: it reports an invalidated
    policy and leaves the process exited, or fails because Windows refused to. *)
Theorem supervision_ends_with_policy {W OsError} (host : SupervisionHost W OsError) clock exit_status
    execution limits started fuel w heap0 policy :
  lawful_host host clock exit_status →
  MIN_POLICY_POLL_INTERVAL <= policy_poll_interval limits <= MAX_POLICY_POLL_INTERVAL →
  store_current heap0 (supervised_policy_store execution) (supervised_policy_generation execution) policy →
  rtc (policy_step (E := ExecutionAuthorizationError)) heap0 (host_policies host w).1 →
  (host_policies host w).1 !! supervised_policy_store execution ≠ heap0 !! supervised_policy_store execution →
  started <= clock w →
  ∃ r w', supervise_loop host execution limits started (S fuel) w = Some (r, w') ∧
    match r with
    | Ok report => is_Some (exit_status w') ∧ ∃ reason, report_outcome report = Outcome_PolicyInvalidated reason
    | Err e => host_failure e
    end.
Proof.
  intros Hlaw Hp Hc Hs Hne Hst. cbn [supervise_loop].
  pose proof (generation_identifies_store _ _ _ _ _ Hc Hs) as Hcur.
  pose proof (supervise_turn_observes host clock exit_status Hlaw execution limits Hp started w Hst) as Ht. unfold observes in Ht.
  assert (Hv : is_ok (supervised_verify_current_policy (host_policies host w).1 execution) = false).
  { unfold supervised_verify_current_policy. destruct (verify_store_generation _ _ _) as [[]|]; [|done].
    destruct Hne. by apply Hcur. }
  destruct (supervise_turn host execution limits started w) as [[[report|]|e] w1]; destruct Ht as [Ho Ht].
  - eexists _, _. split; [done|]. destruct Ht as (_ & _ & Hx & _ & Hrep). split; [done|].
    destruct (report_outcome report) as [c|reason|]; [by rewrite (proj2 Hrep) in Hv|by eexists|by rewrite (proj2 Hrep) in Hv].
  - destruct Ht as [Hok _]. by rewrite Hok in Hv.
  - by eexists _, _.
Qed.

(** ** A sample host *)

Record SampleWorld : Type := mkSampleWorld { world_time : Z; world_exit : option Z; world_heap : ExecutionPolicyHeap }.

(** A process that exits with code 3 at [exits_at], unless it is terminated before,
    under a Windows whose waits time out in half the time, and whose polls take half a
    microsecond. *)
Definition sample_wait (ms : Z) : Z := Z.max 500 (from_millis ms / 2).
Definition sample_host (exits_at : Z) : SupervisionHost SampleWorld unit :=
  mkSupervisionHost _ _ (λ w, (world_heap w, w)) (λ w, (world_time w, w))
    (λ ms w,
      match world_exit w with
      | Some _ => (WAIT_OBJECT_0, w)
      | None =>
        if exits_at <=? world_time w + sample_wait ms
        then (WAIT_OBJECT_0, mkSampleWorld (Z.max (world_time w) exits_at) (Some 3) (world_heap w))
        else (WAIT_TIMEOUT, mkSampleWorld (world_time w + sample_wait ms) None (world_heap w))
      end)
    (λ w, (Ok (default 259 (world_exit w)), w)) (λ _, tt)
    (λ code w, (Ok tt, mkSampleWorld (world_time w) (Some (default code (world_exit w))) (world_heap w))).

Lemma sample_host_lawful exits_at : lawful_host (sample_host exits_at) world_time world_exit.
Proof.
  split; unfold onward; cbn.
  - by intros w heap w' [= <- <-].
  - intros w t w' [= <- <-]. split_and!; done || lia.
  - intros ms w code w'. destruct (world_exit w) eqn:E; [by intros [= <- <-]; rewrite E|].
    unfold sample_wait. destruct (_ <=? _); intros [= <- <-]; cbn; (split; [|done]); lia.
  - intros ms w w'. destruct (world_exit w) eqn:E; [intros [= <-]; by rewrite E|]. destruct (_ <=? _); [|done]. intros [= <-]. done.
  - by intros w r w' [= <- <-].
  - intros w c w' [= <- <-] [d Hd]. by rewrite Hd.
  - intros code w r w' [= <- <-]. cbn. split; [done|]. intros c Hc. by rewrite Hc.
Qed.

Lemma sample_host_ticks exits_at : ticking_host (sample_host exits_at) world_time 1000 2.
Proof.
  split; [done|]. intros w w' H.
  assert (Hn : world_time w + 500 * Z.of_nat 2 <= world_time w'); [|lia].
  induction H as [|n w w' _ IH|n w w' _ IH|n ms w w' w'' _ IH Hw]; cbn [host_policies host_now sample_host snd]; [lia|done|done|].
  cbn [sample_host wait_for_single_object] in Hw. destruct (world_exit w'); [done|]. destruct (_ <=? _); [done|].
  injection Hw as <-. cbn [world_time]. unfold sample_wait. lia.
Qed.

Lemma sample_supervised_ok :
  is_ok (launch_authorized_execution spec_heap verifying creating_job accepting_os spec_decision []).1 = true.
Proof. by vm_compute. Qed.
Definition sample_supervised : SupervisedExecution := from_ok _ sample_supervised_ok.
Definition sample_supervision_limits : SupervisionLimits := mkSupervisionLimits (from_millis 2) (from_millis 5).

(** Left alone, the process exits by itself; a process that does not is terminated. *)
Lemma supervision_ends_truthfully_witness :
  ∃ r started w0 n w1 w', host_now (sample_host (from_millis 3)) (mkSampleWorld 0 None spec_heap) = (started, w0) ∧
    supervise_execution (sample_host (from_millis 3)) 10010 sample_supervised sample_supervision_limits
      (mkSampleWorld 0 None spec_heap) = Some (r, w') ∧ 0 <= started <= world_time w' ∧
    earlier_turns (sample_host (from_millis 3)) sample_supervised sample_supervision_limits started n w0 w1 ∧ (n <= 10000)%nat ∧
    match r with
    | Ok report => report_truthful (sample_host (from_millis 3)) world_time world_exit sample_supervised sample_supervision_limits
        started report w1 w'
    | Err e => host_failure e
    end.
Proof.
  apply (supervision_ends_truthfully (sample_host (from_millis 3)) world_time world_exit 1000 2 sample_supervised (from_millis 2)
    (from_millis 5) sample_supervision_limits 10010 (mkSampleWorld 0 None spec_heap) (sample_host_lawful _) (sample_host_ticks _));
    [by vm_compute|]. apply Nat.ltb_lt. by vm_compute.
Defined.

Example sample_supervision_exits :
  option_map (λ p, map_err (λ _, tt) (let? r := p.1 in Ok (report_elapsed r, report_outcome r)))
    (supervise_execution (sample_host (from_millis 3)) 10 sample_supervised sample_supervision_limits (mkSampleWorld 0 None spec_heap)) =
  Some (Ok (from_millis 3, Outcome_Exited 3)).
Proof. by vm_compute. Qed.
Example sample_supervision_terminates :
  option_map (λ p, map_err (λ _, tt) (let? r := p.1 in Ok (report_elapsed r, report_outcome r)))
    (supervise_execution (sample_host (from_millis 9)) 2000 sample_supervised sample_supervision_limits (mkSampleWorld 0 None spec_heap)) =
  Some (Ok (from_millis 5 + 500, Outcome_RuntimeExceeded)).
Proof. by vm_compute. Qed.

Lemma supervision_ends_with_policy_witness :
  ∃ r w', supervise_loop (sample_host (from_millis 9)) sample_supervised sample_supervision_limits 0 1
      (mkSampleWorld 0 None revoked_heap) = Some (r, w') ∧
    match r with
    | Ok report => is_Some (world_exit w') ∧ ∃ reason, report_outcome report = Outcome_PolicyInvalidated reason
    | Err e => host_failure e
    end.
Proof.
  apply (supervision_ends_with_policy (sample_host (from_millis 9)) world_time world_exit sample_supervised sample_supervision_limits
    0 0 (mkSampleWorld 0 None revoked_heap) spec_heap spec_policy (sample_host_lawful _)); [done|by vm_compute|exact revoked_step| |done].
  assert (Ha : supervised_policy_store sample_supervised = 0%nat) by by vm_compute. rewrite Ha. intros H. discriminate H.
Defined.
