(* ===== verification/Transform.v ===== *)
(** * Transform: planning and emission of static import rewrites

    Models [crates/weregopher-transform/src/planning.rs] (the rewrite rule and
    its identity, the scan of a parsed module for matching specifiers) and
    [emission.rs] (the transformed source and the match evidence).

    The ECMAScript parser is a parameter: [Oxc] gives, for a module text, the
    number of diagnostics and the statements with the spans and decoded values
    of their module specifiers.  [sha2] is [Sha256], and a refused reservation
    is the oracle [Allocator]. *)

From S2P Require Import Prelude Text Wire Overlay.

(** ** Plans *)

Record TextEdit : Type := mkTextEdit {
  start_byte : Z;
  end_byte : Z;
  replacement : str
}.

Record TransformPlan : Type := mkTransformPlan {
  rule_id : TransformRuleId;
  plan_rule_digest : Sha256Digest;
  plan_source : SourceUnitRef;
  edits : list TextEdit
}.

#[global] Instance text_edit_eq_dec : EqDecision TextEdit.
Proof. solve_decision. Defined.
#[global] Instance transform_plan_eq_dec : EqDecision TransformPlan.
Proof. solve_decision. Defined.

Definition digest `{Sha256} (bs : bytes) : Sha256Digest := sha256 bs.

(** ** Rules *)

Inductive StaticImportSpecifier : Type := Specifier_From | Specifier_To.

Inductive TransformPlanError : Type :=
| Plan_EmptySpecifier (side : StaticImportSpecifier)
| Plan_EquivalentSpecifiers
| Plan_ControlCharacterInSpecifier (side : StaticImportSpecifier)
| Plan_SpecifierTooLong (side : StaticImportSpecifier) (actual_bytes : Z)
| Plan_ExpectedMatchCountExceedsLimit (expected max_edits : Z)
| Plan_MatchSpecifierTooLarge (actual_bytes max_bytes : Z)
| Plan_ReplacementLengthOverflow
| Plan_ReplacementTooLarge (actual_bytes max_bytes : Z)
| Plan_SourceByteLimitExceedsParserCapacity (requested_bytes max_bytes : Z)
| Plan_InvalidLimits
| Plan_SourceTooLarge (actual_bytes max_bytes : Z)
| Plan_UnknownRule (rule_id : TransformRuleId)
| Plan_RuleDigestMismatch (rule_id : TransformRuleId)
| Plan_SourceDigestMismatch
| Plan_InvalidUtf8
| Plan_ParseFailed (diagnostic_count : Z)
| Plan_InvalidParserSpan (start_byte end_byte : Z)
| Plan_LoneSurrogateEscape (start_byte : Z)
| Plan_MatchCountMismatch (expected actual : Z).

Record StaticImportRewrite : Type := mkStaticImportRewrite {
  from : str;
  from_byte_length : Z;
  to : str;
  to_byte_length : Z;
  exact_match_count : Z
}.

Definition validate_specifier (specifier : str) (side : StaticImportSpecifier) :
    result Z TransformPlanError :=
  do? reject (len specifier =? 0) (Plan_EmptySpecifier side) in
  do? reject (u32_max <? len specifier) (Plan_SpecifierTooLong side (len specifier)) in
  do? reject (has_control specifier) (Plan_ControlCharacterInSpecifier side) in
  Ok (len specifier).

Definition static_import_rewrite_new (from to : str) (exact_match_count : Z) :
    result StaticImportRewrite TransformPlanError :=
  let? from_byte_length := validate_specifier from Specifier_From in
  let? to_byte_length := validate_specifier to Specifier_To in
  do? reject (bool_decide (from = to)) Plan_EquivalentSpecifiers in
  Ok (mkStaticImportRewrite from from_byte_length to to_byte_length exact_match_count).

Definition STATIC_IMPORT_REWRITE_DOMAIN : bytes :=
  lit "weregopher.static-import-rewrite.v1" ++ [byte_of 0].

(** The bytes hashed by [canonical_digest]. *)
Definition rule_preimage (self : StaticImportRewrite) : bytes :=
  STATIC_IMPORT_REWRITE_DOMAIN ++ be_bytes 4 (from_byte_length self) ++ from self ++
  be_bytes 4 (to_byte_length self) ++ to self ++ be_bytes 2 (exact_match_count self).
Definition canonical_digest `{Sha256} (self : StaticImportRewrite) : Sha256Digest :=
  digest (rule_preimage self).

Record PlannerLimits : Type := mkPlannerLimits {
  planner_source_bytes : Z;
  planner_edits : Z;
  planner_replacement_bytes : Z
}.

Definition planner_limits_new (max_source_bytes max_edits max_replacement_bytes : Z) :
    result PlannerLimits TransformPlanError :=
  do? reject ((max_source_bytes =? 0) || (max_edits =? 0) || (max_replacement_bytes =? 0))
    Plan_InvalidLimits in
  let parser_capacity := u32_max in
  do? reject (parser_capacity <? max_source_bytes)
    (Plan_SourceByteLimitExceedsParserCapacity max_source_bytes parser_capacity) in
  Ok (mkPlannerLimits max_source_bytes max_edits max_replacement_bytes).

(** ** Specifier literals *)

Definition line_separator : str := map byte_of [0xE2; 0x80; 0xA8].
Definition paragraph_separator : str := map byte_of [0xE2; 0x80; 0xA9].
Definition quote_mark : byte := byte_of 34.
Definition backslash : byte := byte_of 92.

(** The length of one character in a canonical literal. *)
Definition encoded_length (c : str) : Z :=
  if bool_decide (c = [quote_mark]) || bool_decide (c = [backslash]) then 2
  else if bool_decide (c = line_separator) || bool_decide (c = paragraph_separator) then 6
  else len c.

Fixpoint replacement_length (cs : list str) (length : Z) : option Z :=
  match cs with
  | [] => Some length
  | c :: cs => length ← checked_add usize_max length (encoded_length c); replacement_length cs length
  end.
Definition canonical_replacement_byte_length (specifier : str) : option Z :=
  replacement_length (chars specifier) 2.

Definition quote_char (c : str) : str :=
  if bool_decide (c = [quote_mark]) then [backslash; quote_mark]
  else if bool_decide (c = [backslash]) then [backslash; backslash]
  else if bool_decide (c = line_separator) then backslash :: lit "u2028"
  else if bool_decide (c = paragraph_separator) then backslash :: lit "u2029"
  else c.
Definition quote_specifier (specifier : str) : str :=
  quote_mark :: concat (map quote_char (chars specifier)) ++ [quote_mark].

(** [parse_hex_digits]: [try_fold] over the digits. *)
Definition hex_digit (b : byte) : option Z :=
  let v := byte_val b in
  if in_range 48 57 v then Some (v - 48)
  else if in_range 97 102 v then Some (v - 97 + 10)
  else if in_range 65 70 v then Some (v - 65 + 10)
  else None.
Fixpoint hex_fold (digits : bytes) (value : Z) : option Z :=
  match digits with
  | [] => Some value
  | b :: digits =>
    m ← checked_mul u32_max value 16; d ← hex_digit b; v ← checked_add u32_max m d;
    hex_fold digits v
  end.
Definition parse_hex_digits (digits : bytes) : option Z :=
  if len digits =? 0 then None else hex_fold digits 0.

(** [Iterator::position] of a byte. *)
Fixpoint position (b : byte) (bs : bytes) : option Z :=
  match bs with
  | [] => None
  | c :: bs => if bool_decide (c = b) then Some 0 else i ← position b bs; Some (i + 1)
  end.

(** [bytes.get(i)] on a [usize]. *)
Definition byte_get (bs : bytes) (i : Z) : option byte := bs !! Z.to_nat i.

Definition unicode_escape_at (bs : bytes) (slash literal_end : Z) : option (Z * Z) :=
  if negb (bool_decide (byte_get bs slash = Some backslash)) then None else
  next ← checked_add usize_max slash 1;
  if negb (bool_decide (byte_get bs next = Some (chr "u"))) then None else
  digits_start ← checked_add usize_max slash 2;
  if bool_decide (byte_get bs digits_start = Some (chr "{")) then
    value_start ← checked_add usize_max digits_start 1;
    rest ← slice bs value_start literal_end;
    close_offset ← position (chr "}") rest;
    close ← checked_add usize_max value_start close_offset;
    digits ← slice bs value_start close;
    value ← parse_hex_digits digits;
    stop ← checked_add usize_max close 1;
    Some (value, stop)
  else
    digits_end ← checked_add usize_max digits_start 4;
    if literal_end <? digits_end then None
    else
      digits ← slice bs digits_start digits_end;
      value ← parse_hex_digits digits;
      Some (value, digits_end).

(** The loop of [contains_lone_surrogate_escape]; every turn advances the
    cursor, so the length of the literal is fuel enough. *)
Fixpoint surrogate_loop (fuel : nat) (bs : bytes) (literal_end cursor : Z) : option bool :=
  match fuel with
  | O => None
  | S fuel =>
    if negb (cursor <? literal_end) then Some false
    else if negb (bool_decide (byte_get bs cursor = Some backslash)) then
      surrogate_loop fuel bs literal_end (cursor + 1)
    else
      match unicode_escape_at bs cursor literal_end with
      | None => surrogate_loop fuel bs literal_end (saturating_add usize_max cursor 2)
      | Some (value, next_cursor) =>
        if in_range 0xd800 0xdbff value then
          match unicode_escape_at bs next_cursor literal_end with
          | None => Some true
          | Some (low_surrogate, after_pair) =>
            if negb (in_range 0xdc00 0xdfff low_surrogate) then Some true
            else surrogate_loop fuel bs literal_end after_pair
          end
        else if in_range 0xdc00 0xdfff value then Some true
        else surrogate_loop fuel bs literal_end next_cursor
      end
  end.
Definition contains_lone_surrogate_escape (literal : str) : option bool :=
  surrogate_loop (S (length literal)) literal (Z.max 0 (len literal - 1)) 1.

(** ** The parsed module *)

Record StringLiteral : Type := mkStringLiteral {
  span_start : Z;
  span_end : Z;
  literal_value : str
}.

Inductive Statement : Type :=
| ImportDeclaration (source : StringLiteral)
| ExportNamedDeclaration (source : option StringLiteral)
| ExportAllDeclaration (source : StringLiteral)
| OtherStatement.

Record Parsed : Type := mkParsed {
  parse_errors : Z;
  program_body : list Statement
}.
Class Oxc : Type := parse_module : str → Parsed.

Definition static_module_specifier (statement : Statement) : option StringLiteral :=
  match statement with
  | ImportDeclaration source => Some source
  | ExportNamedDeclaration source => source
  | ExportAllDeclaration source => Some source
  | OtherStatement => None
  end.

(** ** Planning *)

(** The loop over the statements. *)
Fixpoint plan_statements (rule : StaticImportRewrite) (source_text replacement : str)
    (expected_edits : Z) (body : list Statement) (edits : list TextEdit) :
    result (list TextEdit) TransformPlanError :=
  match body with
  | [] => Ok edits
  | statement :: body =>
    match static_module_specifier statement with
    | None => plan_statements rule source_text replacement expected_edits body edits
    | Some literal =>
      let? raw_literal := ok_or (str_get source_text (span_start literal) (span_end literal))
                            (Plan_InvalidParserSpan (span_start literal) (span_end literal)) in
      do? reject (default false (contains_lone_surrogate_escape raw_literal))
        (Plan_LoneSurrogateEscape (span_start literal)) in
      if negb (bool_decide (literal_value literal = from rule)) then
        plan_statements rule source_text replacement expected_edits body edits
      else
        do? reject (len edits =? expected_edits)
          (Plan_MatchCountMismatch (exact_match_count rule) (expected_edits + 1)) in
        plan_statements rule source_text replacement expected_edits body
          (edits ++ [mkTextEdit (span_start literal) (span_end literal) replacement])
    end
  end.

Definition plan_static_import_rewrite `{Sha256, Oxc} (authority : AdapterTransformAuthority)
    (rule_id : TransformRuleId) (rule : StaticImportRewrite) (source : SourceUnitRef)
    (source_bytes : bytes) (limits : PlannerLimits) : result TransformPlan TransformPlanError :=
  let expected_edits := exact_match_count rule in
  do? reject (planner_edits limits <? expected_edits)
    (Plan_ExpectedMatchCountExceedsLimit (exact_match_count rule) (planner_edits limits)) in
  do? reject (planner_source_bytes limits <? len (from rule))
    (Plan_MatchSpecifierTooLarge (len (from rule)) (planner_source_bytes limits)) in
  let? replacement_byte_length := ok_or (canonical_replacement_byte_length (to rule))
                                    Plan_ReplacementLengthOverflow in
  do? reject (planner_replacement_bytes limits <? replacement_byte_length)
    (Plan_ReplacementTooLarge replacement_byte_length (planner_replacement_bytes limits)) in
  do? reject (planner_source_bytes limits <? len source_bytes)
    (Plan_SourceTooLarge (len source_bytes) (planner_source_bytes limits)) in
  let rule_digest := canonical_digest rule in
  let? authorized_rule := ok_or (rules authority !! rule_id) (Plan_UnknownRule rule_id) in
  do? reject (negb (bool_decide (authorized_rule_digest authorized_rule = rule_digest))) (Plan_RuleDigestMismatch rule_id) in
  do? reject (negb (bool_decide (digest source_bytes = source_digest source)))
    Plan_SourceDigestMismatch in
  do? reject (negb (utf8_valid source_bytes)) Plan_InvalidUtf8 in
  let parsed := parse_module source_bytes in
  do? reject (negb (parse_errors parsed =? 0)) (Plan_ParseFailed (parse_errors parsed)) in
  let? edits := plan_statements rule source_bytes (quote_specifier (to rule)) expected_edits
                  (program_body parsed) [] in
  do? reject (negb (len edits =? expected_edits))
    (Plan_MatchCountMismatch (exact_match_count rule) (len edits)) in
  Ok (mkTransformPlan rule_id rule_digest source edits).

(** ** Emission of the transformed source *)

Inductive TransformEmissionError : Type :=
| Emission_InvalidLimits
| Emission_SourceTooLarge (actual_bytes max_bytes : Z)
| Emission_SourceDigestMismatch
| Emission_EditOffsetOutOfRange (offset : Z)
| Emission_InvalidEditRange (start_byte end_byte previous_end source_bytes : Z)
| Emission_InvalidTailOffset (source_cursor source_bytes : Z)
| Emission_TransformedSourceLengthOverflow
| Emission_TransformedSourceTooLarge (actual_bytes max_bytes : Z)
| Emission_AllocationFailed (requested_bytes : Z)
| Emission_EmittedLengthMismatch (expected_bytes actual_bytes : Z).

Record TransformEmissionLimits : Type := mkTransformEmissionLimits {
  emission_source_bytes : Z;
  emission_transformed_source_bytes : Z
}.

Definition emission_limits_new (max_source_bytes max_transformed_source_bytes : Z) :
    result TransformEmissionLimits TransformEmissionError :=
  do? reject ((max_source_bytes =? 0) || (max_transformed_source_bytes =? 0)) Emission_InvalidLimits in
  Ok (mkTransformEmissionLimits max_source_bytes max_transformed_source_bytes).

Record EmittedTransformedSource : Type := mkEmittedTransformedSource {
  emitted_plan : TransformPlan;
  transformed_source : bytes;
  emitted_source_digest : Sha256Digest
}.

#[global] Instance emitted_transformed_source_eq_dec : EqDecision EmittedTransformedSource.
Proof. solve_decision. Defined.

(** [usize::try_from] of a [u32] offset. *)
Definition edit_offset {E} (offset : Z) (e : E) : result Z E :=
  ok_or (if offset <=? usize_max then Some offset else None) e.

(** The first loop: the ranges are ordered and the length of the output. *)
Fixpoint measure_edits (edits : list TextEdit) (source_bytes transformed_length previous_end : Z) :
    result Z TransformEmissionError :=
  match edits with
  | [] => Ok transformed_length
  | edit :: edits =>
    let? start := edit_offset (start_byte edit) (Emission_EditOffsetOutOfRange (start_byte edit)) in
    let? stop := edit_offset (end_byte edit) (Emission_EditOffsetOutOfRange (end_byte edit)) in
    do? reject ((start <? previous_end) || (stop <? start) || (source_bytes <? stop))
      (Emission_InvalidEditRange (start_byte edit) (end_byte edit) previous_end source_bytes) in
    let? transformed_length := ok_or
      (length ← checked_sub transformed_length (stop - start);
       checked_add usize_max length (len (replacement edit)))
      Emission_TransformedSourceLengthOverflow in
    measure_edits edits source_bytes transformed_length stop
  end.

(** The second loop: the output so far and the cursor in the source. *)
Fixpoint append_edits (edits : list TextEdit) (source : bytes) (source_cursor : Z) (output : bytes) :
    result (Z * bytes) TransformEmissionError :=
  match edits with
  | [] => Ok (source_cursor, output)
  | edit :: edits =>
    let? start := edit_offset (start_byte edit) (Emission_EditOffsetOutOfRange (start_byte edit)) in
    let? stop := edit_offset (end_byte edit) (Emission_EditOffsetOutOfRange (end_byte edit)) in
    let? unchanged := ok_or (slice source source_cursor start)
      (Emission_InvalidEditRange (start_byte edit) (end_byte edit) source_cursor (len source)) in
    append_edits edits source stop (output ++ unchanged ++ replacement edit)
  end.

Definition emit_transformed_source `{Sha256, Allocator} (plan : TransformPlan) (source : bytes)
    (limits : TransformEmissionLimits) : result EmittedTransformedSource TransformEmissionError :=
  do? reject (emission_source_bytes limits <? len source)
    (Emission_SourceTooLarge (len source) (emission_source_bytes limits)) in
  do? reject (negb (bool_decide (digest source = source_digest (plan_source plan))))
    Emission_SourceDigestMismatch in
  let? transformed_length := measure_edits (edits plan) (len source) (len source) 0 in
  do? reject (emission_transformed_source_bytes limits <? transformed_length)
    (Emission_TransformedSourceTooLarge transformed_length
       (emission_transformed_source_bytes limits)) in
  do? reject (negb (try_reserve transformed_length)) (Emission_AllocationFailed transformed_length) in
  let? (source_cursor, output) := append_edits (edits plan) source 0 [] in
  let? tail := ok_or (slice source source_cursor (len source))
    (Emission_InvalidTailOffset source_cursor (len source)) in
  let output := output ++ tail in
  do? reject (negb (len output =? transformed_length))
    (Emission_EmittedLengthMismatch transformed_length (len output)) in
  Ok (mkEmittedTransformedSource plan output (digest output)).

(** ** Match evidence *)

Inductive MatchEvidenceError : Type :=
| Evidence_InvalidLimit
| Evidence_LengthOverflow
| Evidence_TooLarge (actual_bytes max_bytes : Z)
| Evidence_AllocationFailed (requested_bytes : Z)
| Evidence_IntegerEncodingFailed
| Evidence_EmittedLengthMismatch (expected_bytes actual_bytes : Z).

Record EmittedMatchEvidence : Type := mkEmittedMatchEvidence {
  evidence_plan : TransformPlan;
  evidence_bytes : bytes;
  evidence_digest : Sha256Digest
}.

Definition evidence_limits_new (max_evidence_bytes : Z) : result Z MatchEvidenceError :=
  do? reject (max_evidence_bytes =? 0) Evidence_InvalidLimit in Ok max_evidence_bytes.

Definition DIGEST_TEXT_LENGTH : Z := 71.

(** JSON text written with single quotation marks. *)
Definition json (s : string) : bytes :=
  map (λ b, if bool_decide (b = chr "'") then quote_mark else b) (lit s).

Definition EVIDENCE_PREFIX : bytes :=
  json "{'format_version':'1','kind':'static_module_specifier_matches','rule_id':'".
Definition EVIDENCE_RULE_DIGEST : bytes := json "','rule_digest':'".
Definition EVIDENCE_SOURCE_UNIT : bytes := json "','source':{'unit_id':'".
Definition EVIDENCE_SOURCE_DIGEST : bytes := json "','source_digest':'".
Definition EVIDENCE_MATCHES : bytes := json "'},'matches':[".
Definition MATCH_START : bytes := json "{'start_byte':".
Definition MATCH_END : bytes := json ",'end_byte':".
Definition EVIDENCE_SUFFIX : bytes := json "]}".
Definition LOWER_HEX : bytes := lit "0123456789abcdef".

(** [LOWER_HEX[i]]. *)
Definition hex_char (i : Z) : byte := default (byte_of 0) (LOWER_HEX !! Z.to_nat i).
Definition digest_text (d : Sha256Digest) : bytes :=
  lit "sha256:" ++ concat (map (λ b, [hex_char (byte_val b ≫ 4); hex_char (Z.land (byte_val b) 0x0f)]) d).

(** [decimal_length]: one unit of fuel per digit. *)
Fixpoint decimal_length_from (fuel : nat) (value length : Z) : Z :=
  match fuel with
  | O => length
  | S fuel => if 10 <=? value then decimal_length_from fuel (value / 10) (length + 1) else length
  end.
Definition decimal_length (value : Z) : Z := decimal_length_from 20 value 1.
#[global] Arguments decimal_length : simpl never.

(** [append_u32]: the buffer is filled from its end, [position] counts down. *)
Fixpoint encode_u32_from (position : nat) (value : Z) (encoded : bytes) :
    result bytes MatchEvidenceError :=
  match position with
  | O => Err Evidence_IntegerEncodingFailed
  | S position =>
    let encoded := byte_of (48 + value mod 10) :: encoded in
    let value := value / 10 in
    if value =? 0 then Ok encoded else encode_u32_from position value encoded
  end.
Definition encode_u32 (value : Z) : result bytes MatchEvidenceError := encode_u32_from 10 value [].
#[global] Arguments encode_u32 : simpl never.

(** The lengths added for the edits, the separator before all but the first. *)
Fixpoint match_lengths (first : bool) (edits : list TextEdit) : list Z :=
  match edits with
  | [] => []
  | edit :: edits =>
    (if first then [] else [1]) ++
    [len MATCH_START; decimal_length (start_byte edit); len MATCH_END;
     decimal_length (end_byte edit); 1] ++ match_lengths false edits
  end.

Definition match_evidence_length (plan : TransformPlan) : result Z MatchEvidenceError :=
  ok_or (checked_sum
    ([len EVIDENCE_PREFIX; len EVIDENCE_RULE_DIGEST; len EVIDENCE_SOURCE_UNIT;
      len EVIDENCE_SOURCE_DIGEST; len EVIDENCE_MATCHES; len EVIDENCE_SUFFIX;
      len (rule_id plan); DIGEST_TEXT_LENGTH; len (unit_id (plan_source plan));
      DIGEST_TEXT_LENGTH] ++ match_lengths true (edits plan)) 0) Evidence_LengthOverflow.

Fixpoint append_matches (first : bool) (edits : list TextEdit) (output : bytes) :
    result bytes MatchEvidenceError :=
  match edits with
  | [] => Ok output
  | edit :: edits =>
    let? start := encode_u32 (start_byte edit) in
    let? stop := encode_u32 (end_byte edit) in
    append_matches false edits
      (output ++ (if first then [] else lit ",") ++ MATCH_START ++ start ++ MATCH_END ++ stop ++ lit "}")
  end.

Definition emit_match_evidence `{Sha256, Allocator} (plan : TransformPlan) (max_evidence_bytes : Z) :
    result EmittedMatchEvidence MatchEvidenceError :=
  let? evidence_length := match_evidence_length plan in
  do? reject (max_evidence_bytes <? evidence_length)
    (Evidence_TooLarge evidence_length max_evidence_bytes) in
  do? reject (negb (try_reserve evidence_length)) (Evidence_AllocationFailed evidence_length) in
  let? output := append_matches true (edits plan)
    (EVIDENCE_PREFIX ++ rule_id plan ++ EVIDENCE_RULE_DIGEST ++ digest_text (plan_rule_digest plan) ++
     EVIDENCE_SOURCE_UNIT ++ unit_id (plan_source plan) ++ EVIDENCE_SOURCE_DIGEST ++
     digest_text (source_digest (plan_source plan)) ++ EVIDENCE_MATCHES) in
  let output := output ++ EVIDENCE_SUFFIX in
  do? reject (negb (len output =? evidence_length))
    (Evidence_EmittedLengthMismatch evidence_length (len output)) in
  Ok (mkEmittedMatchEvidence plan output (digest output)).
