(* ===== verification/TransformLaws.v ===== *)
(** * TransformLaws: what planning and emission guarantee

    The proofs about [Transform.v]: the transformed source is the source with
    exactly the planned ranges replaced, the plan holds exactly the matching
    specifiers, the replacement literal reads back as the specifier, and the
    lengths computed before allocation are the lengths written. *)

From S2P Require Import Prelude Text Wire Overlay Transform.

(** ** Rewriting, as a relation *)

(** [rewrites off edits source out]: [source], which starts at offset [off] of
    the whole text, becomes [out] when each edit replaces its range. *)
Inductive rewrites : Z → list TextEdit → bytes → bytes → Prop :=
| rewrites_done off rest : rewrites off [] rest rest
| rewrites_edit off edit edits keep old rest out :
    start_byte edit = off + len keep → end_byte edit = start_byte edit + len old →
    rewrites (end_byte edit) edits rest out →
    rewrites off (edit :: edits) (keep ++ old ++ rest) (keep ++ replacement edit ++ out).

Definition replacement_total (edits : list TextEdit) : Z :=
  foldr (λ e n, len (replacement e) + n) 0 edits.

Lemma replacement_total_nonneg edits : 0 <= replacement_total edits.
Proof.
  unfold replacement_total. induction edits as [|e edits IH]; cbn; [done|].
  pose proof (len_nonneg (replacement e)). lia.
Qed.

Lemma rewrites_unique off edits source out out' :
  rewrites off edits source out → rewrites off edits source out' → out = out'.
Proof.
  intros H. revert out'. induction H as [|off e es keep old rest out H1 H2 _ IH]; intros out' H'.
  - by inversion H'.
  - inversion H' as [|off0 e0 es0 keep' old' rest' out1 H1' H2' Hr Ho Hes Heq Hout]; subst.
    unfold len in *. apply app_inj_1 in Heq as [-> Heq]; [|lia].
    apply app_inj_1 in Heq as [-> ->]; [|lia]. by rewrite (IH _ Hr).
Qed.

Lemma slice_split (pre keep rest : bytes) start :
  start = len pre + len keep → slice (pre ++ keep ++ rest) (len pre) start = Some keep.
Proof.
  intros ->. pose proof (len_nonneg pre). pose proof (len_nonneg keep). pose proof (len_nonneg rest).
  apply slice_Some. rewrite !len_app. split_and!; [lia|lia|lia|]. exists pre, rest. split_and!; [done|done|lia].
Qed.

Lemma edit_offset_Ok {E} offset (e : E) x : edit_offset offset e = Ok x ↔ x = offset ∧ offset <= usize_max.
Proof. unfold edit_offset. rewrite ok_or_Ok. destruct (Z.leb_spec offset usize_max); naive_solver lia. Qed.

(** The first loop accepts exactly the edits that rewrite the source, and
    computes the length of the result. *)
Lemma measure_edits_sound edits (pre rest : bytes) total n :
  measure_edits edits (len (pre ++ rest)) total (len pre) = Ok n →
  ∃ out, rewrites (len pre) edits rest out ∧ n = total - len rest + len out.
Proof.
  revert pre rest total. induction edits as [|e edits IH]; intros pre rest total H.
  { injection H as <-. exists rest. split; [constructor|lia]. }
  cbn in H. inv_ok.
  repeat match goal with H : edit_offset _ _ = Ok _ |- _ => apply edit_offset_Ok in H as [-> ?] end.
  match goal with H : _ ≫= _ = Some _ |- _ =>
    apply bind_Some in H as (? & [-> ?]%checked_sub_Some & [-> ?]%checked_add_Some) end.
  rewrite !orb_false_iff, !Z.ltb_ge in *. destruct_and!.
  set (k := start_byte e - len pre). set (o := end_byte e - start_byte e).
  assert (Hlen : k + o <= len rest) by (rewrite len_app in *; lia).
  assert (Hk : len (take (Z.to_nat k) rest) = k) by (unfold len in *; rewrite length_take; lia).
  assert (Ho : len (take (Z.to_nat o) (drop (Z.to_nat k) rest)) = o)
    by (unfold len in *; rewrite length_take, length_drop; lia).
  set (keep := take (Z.to_nat k) rest) in *. set (old := take (Z.to_nat o) (drop (Z.to_nat k) rest)) in *.
  set (tail := drop (Z.to_nat o) (drop (Z.to_nat k) rest)).
  assert (Hrest : rest = keep ++ old ++ tail) by (unfold keep, old, tail; by rewrite !take_drop).
  rewrite Hrest in H. replace (end_byte e) with (len (pre ++ keep ++ old)) in H by (rewrite !len_app; lia).
  replace (pre ++ keep ++ old ++ tail) with ((pre ++ keep ++ old) ++ tail) in H by (by rewrite <-!app_assoc).
  apply IH in H as (out & Hr & ->). exists (keep ++ replacement e ++ out). split.
  - rewrite Hrest. constructor; [lia|lia|]. replace (end_byte e) with (len (pre ++ keep ++ old)); [done|].
    rewrite !len_app. lia.
  - rewrite Hrest, !len_app. lia.
Qed.

Lemma measure_edits_complete edits off rest out (pre : bytes) total :
  rewrites off edits rest out → off = len pre → len (pre ++ rest) <= usize_max → len rest <= total →
  total + replacement_total edits <= usize_max →
  measure_edits edits (len (pre ++ rest)) total off = Ok (total - len rest + len out).
Proof.
  intros H. revert pre total. induction H as [off rest|off e es keep old rest out H1 H2 _ IH];
    intros pre total -> Hus Hle Htot; [cbn; f_equal; lia|].
  rewrite !len_app in Hle. cbn [measure_edits].
  change (replacement_total (e :: es)) with (len (replacement e) + replacement_total es) in Htot.
  pose proof (replacement_total_nonneg es). pose proof (len_nonneg keep). pose proof (len_nonneg old).
  pose proof (len_nonneg pre). pose proof (len_nonneg rest). pose proof (len_nonneg (replacement e)).
  rewrite !len_app in Hus |- *.
  rewrite (proj2 (edit_offset_Ok (start_byte e) _ _)) by (split; [reflexivity|lia]). cbn [result_bind].
  rewrite (proj2 (edit_offset_Ok (end_byte e) _ _)) by (split; [reflexivity|lia]). cbn [result_bind].
  rewrite (proj2 (Z.ltb_ge (start_byte e) (len pre))), (proj2 (Z.ltb_ge (end_byte e) (start_byte e))),
    (proj2 (Z.ltb_ge _ (end_byte e))) by lia. cbn [orb reject result_bind].
  rewrite (proj2 (checked_sub_Some total (end_byte e - start_byte e) _)) by (split; [reflexivity|lia]).
  cbn [mbind option_bind].
  rewrite (proj2 (checked_add_Some usize_max _ (len (replacement e)) _)) by (split; [reflexivity|lia]).
  cbn [ok_or result_bind].
  replace (len pre + (len keep + (len old + len rest))) with (len ((pre ++ keep ++ old) ++ rest))
    by (rewrite !len_app; lia).
  rewrite IH by (rewrite ?len_app; lia). f_equal. rewrite !len_app. lia.
Qed.

(** The second loop writes what the relation says. *)
Lemma append_edits_spec edits off rest out (pre acc : bytes) :
  rewrites off edits rest out → off = len pre → len (pre ++ rest) <= usize_max →
  ∃ cursor written tail,
    append_edits edits (pre ++ rest) off acc = Ok (cursor, written) ∧
    slice (pre ++ rest) cursor (len (pre ++ rest)) = Some tail ∧ written ++ tail = acc ++ out.
Proof.
  intros H. revert pre acc. induction H as [off rest|off e es keep old rest out H1 H2 _ IH];
    intros pre acc -> Hus.
  - exists (len pre), acc, rest. split_and!; [done| |done].
    pose proof (slice_split pre rest [] (len (pre ++ rest)) (len_app _ _)) as Hs. by rewrite app_nil_r in Hs.
  - pose proof (len_nonneg old). pose proof (len_nonneg rest). pose proof (len_nonneg keep).
    pose proof (len_nonneg pre). rewrite !len_app in Hus. cbn [append_edits].
    rewrite (proj2 (edit_offset_Ok (start_byte e) _ _)) by (split; [reflexivity|lia]). cbn [result_bind].
    rewrite (proj2 (edit_offset_Ok (end_byte e) _ _)) by (split; [reflexivity|lia]). cbn [result_bind].
    rewrite slice_split by lia. cbn [ok_or result_bind].
    destruct (IH (pre ++ keep ++ old) (acc ++ keep ++ replacement e)) as (c & w & t & Ha & Hs & Hw);
      [rewrite !len_app; lia|rewrite !len_app; lia|].
    rewrite <-!app_assoc in Ha, Hs, Hw. exists c, w, t. by rewrite Hw.
Qed.

Section Emission.
Context `{HS : Sha256} `{HA : Allocator}.

(** emission succeeds exactly when the source is the planned one, its
    edits are ordered ranges inside it, and the sizes fit; the output is then
    the source with each range replaced and nothing else changed.  In
    particular the length computed before the allocation is the length written. *)
Theorem emit_transformed_source_exact plan source limits r :
  len source + replacement_total (edits plan) <= usize_max →
  emit_transformed_source plan source limits = Ok r ↔
  len source <= emission_source_bytes limits ∧ digest source = source_digest (plan_source plan) ∧
  ∃ out, rewrites 0 (edits plan) source out ∧ len out <= emission_transformed_source_bytes limits ∧
    try_reserve (len out) = true ∧ r = mkEmittedTransformedSource plan out (digest out).
Proof.
  intros Hus. pose proof (replacement_total_nonneg (edits plan)). unfold emit_transformed_source. split.
  - intros Hr.
    apply result_bind_Ok in Hr as (_ & H1%reject_Ok & Hr). apply result_bind_Ok in Hr as (_ & H2%reject_Ok & Hr).
    apply result_bind_Ok in Hr as (n & Hm & Hr). apply result_bind_Ok in Hr as (_ & H3%reject_Ok & Hr).
    apply result_bind_Ok in Hr as (_ & H4%reject_Ok & Hr).
    apply (measure_edits_sound (edits plan) []) in Hm as (out & Hrw & ->).
    destruct (append_edits_spec (edits plan) 0 source out [] [] Hrw eq_refl ltac:(cbn; lia))
      as (c & w & t & Ha & Hs & Hw). cbn [app] in *. rewrite Ha in Hr. cbn [result_bind] in Hr.
    rewrite Hs in Hr. cbn [ok_or result_bind] in Hr. rewrite Hw in Hr. clear Hw. inv_ok.
    apply negb_false_iff in H2, H4. apply bool_decide_eq_true in H2.
    replace (len source - len source + len out) with (len out) in * by lia.
    split_and!; [lia|done|]. exists out. split_and!; [done|lia|done|done].
  - intros (H1 & H2 & out & Hrw & H3 & H4 & ->).
    rewrite (proj2 (Z.ltb_ge _ _)) by lia. cbn [reject result_bind].
    rewrite bool_decide_eq_true_2 by done. cbn [negb reject result_bind].
    pose proof (measure_edits_complete (edits plan) 0 source out [] (len source) Hrw eq_refl
      ltac:(cbn; lia) ltac:(lia) Hus) as Hm.
    cbn [app] in Hm. rewrite Hm. cbn [result_bind]. replace (len source - len source + len out) with (len out) by lia.
    rewrite (proj2 (Z.ltb_ge _ _)) by lia. cbn [reject result_bind]. rewrite H4. cbn [negb reject result_bind].
    destruct (append_edits_spec (edits plan) 0 source out [] [] Hrw eq_refl ltac:(cbn; lia))
      as (c & w & t & Ha & Hs & Hw). cbn [app] in *. rewrite Ha. cbn [result_bind]. rewrite Hs.
    cbn [ok_or result_bind]. rewrite Hw, Z.eqb_refl. done.
Qed.
End Emission.

(** ** Planning *)

Lemma encoded_length_quote c : encoded_length c = len (quote_char c).
Proof.
  unfold encoded_length, quote_char. repeat case_bool_decide; subst; try done.
Qed.

Lemma replacement_length_exact cs n :
  replacement_length cs n =
  if bool_decide (cs = []) then Some n
  else checked_add usize_max n (len (concat (map quote_char cs))).
Proof.
  revert n. induction cs as [|c cs IH]; intros n; [done|]. rewrite bool_decide_eq_false_2 by done.
  cbn. rewrite encoded_length_quote, len_app. pose proof (len_nonneg (quote_char c)).
  pose proof (len_nonneg (concat (map quote_char cs))). unfold checked_add at 1.
  destruct (Z.leb_spec (n + len (quote_char c)) usize_max); cbn.
  - rewrite IH. case_bool_decide as Hc.
    + subst. cbn. rewrite Z.add_0_r. symmetry. apply checked_add_Some. split; [done|lia].
    + unfold checked_add. by rewrite <-Z.add_assoc.
  - unfold checked_add. destruct (Z.leb_spec (n + (len (quote_char c) + len (concat (map quote_char cs)))) usize_max); [lia|done].
Qed.

(** The length announced for the replacement is the length of the literal. *)
Lemma canonical_replacement_length_exact s :
  s ≠ [] → len (quote_specifier s) <= usize_max →
  canonical_replacement_byte_length s = Some (len (quote_specifier s)).
Proof.
  intros Hs Hus. unfold canonical_replacement_byte_length. rewrite replacement_length_exact.
  rewrite bool_decide_eq_false_2 by (by apply chars_nonempty).
  apply checked_add_Some. unfold quote_specifier in *. rewrite len_cons, len_app in *. change (len [quote_mark]) with 1 in *. lia.
Qed.

Lemma canonical_replacement_length_Some s n :
  s ≠ [] → canonical_replacement_byte_length s = Some n → n = len (quote_specifier s) ∧ n <= usize_max.
Proof.
  intros Hs. unfold canonical_replacement_byte_length. rewrite replacement_length_exact.
  rewrite bool_decide_eq_false_2 by (by apply chars_nonempty). intros [-> ?]%checked_add_Some.
  unfold quote_specifier. rewrite len_cons, len_app. change (len [quote_mark]) with 1. lia.
Qed.

(** The specifiers of a module, those a rule matches, and the edit of one. *)
Definition specifiers (body : list Statement) : list StringLiteral := omap static_module_specifier body.
Definition matching (rule : StaticImportRewrite) (body : list Statement) : list StringLiteral :=
  filter (λ l, literal_value l = from rule) (specifiers body).
Definition edit_of (replacement : str) (l : StringLiteral) : TextEdit :=
  mkTextEdit (span_start l) (span_end l) replacement.

(** A specifier that planning reads without error. *)
Definition literal_ok (text : str) (l : StringLiteral) : Prop :=
  ∃ raw, str_get text (span_start l) (span_end l) = Some raw ∧
    default false (contains_lone_surrogate_escape raw) = false.

Lemma plan_statements_exact rule text rep expected body acc out :
  len acc <= expected →
  plan_statements rule text rep expected body acc = Ok out ↔
  Forall (literal_ok text) (specifiers body) ∧ out = acc ++ map (edit_of rep) (matching rule body) ∧
  len out <= expected.
Proof.
  unfold matching, specifiers. revert acc. induction body as [|st body IH]; intros acc Hacc.
  { cbn. rewrite app_nil_r. split; [intros [= <-]; split_and!; [constructor|done|done]|naive_solver]. }
  cbn [plan_statements omap list_omap]. destruct (static_module_specifier st) as [l|]; [|by apply IH].
  rewrite Forall_cons, result_bind_Ok. setoid_rewrite ok_or_Ok. unfold literal_ok at 1. split.
  - intros (raw & Hraw & H). apply result_bind_Ok in H as (_ & Hs%reject_Ok & H).
    destruct (decide (literal_value l = from rule)) as [Hm|Hm].
    + rewrite bool_decide_eq_true_2 in H by done. cbn [negb] in H.
      apply result_bind_Ok in H as (_ & Hc%reject_Ok & H).
      apply IH in H as (Hf & -> & Hle); [|rewrite len_app; unfold len in *; cbn in *; lia].
      rewrite filter_cons_True by done. cbn [map]. rewrite <-app_assoc in *. split_and!; [eauto|done|done|done].
    + rewrite bool_decide_eq_false_2 in H by done. cbn [negb] in H.
      apply IH in H as (Hf & -> & Hle); [|done]. rewrite filter_cons_False by done. split_and!; [eauto|done|done|done].
  - intros ([(raw & Hraw & Hs) Hf] & -> & Hle). exists raw. split; [done|]. rewrite Hs. cbn [reject result_bind].
    destruct (decide (literal_value l = from rule)) as [Hm|Hm].
    + rewrite bool_decide_eq_true_2 by done. cbn [negb]. rewrite filter_cons_True in * by done. cbn [map] in *.
      rewrite len_app, len_cons in Hle. pose proof (len_nonneg (map (edit_of rep)
        (filter (λ l, literal_value l = from rule) (omap static_module_specifier body)))).
      rewrite (proj2 (Z.eqb_neq _ _)) by lia. cbn [reject result_bind].
      apply IH; [rewrite len_app; unfold len in *; cbn in *; lia|]. rewrite <-app_assoc. cbn [app].
      rewrite len_app, len_cons. split_and!; [done|done|lia].
    + rewrite bool_decide_eq_false_2 by done. cbn [negb]. rewrite filter_cons_False in * by done. by apply IH.
Qed.

Section Planning.
Context `{HS : Sha256} `{HO : Oxc}.

(** a plan is produced exactly when the rule is the authorized one, the
    source is the declared one and parses, every module specifier of the module
    can be read, and the specifiers equal to the rule's are as many as the rule
    says; its edits are then those specifiers, in order, each replaced by the
    canonical literal. *)
Theorem plan_static_import_rewrite_exact authority id rule source bs limits p :
  0 <= exact_match_count rule → to rule ≠ [] → planner_replacement_bytes limits <= usize_max →
  plan_static_import_rewrite authority id rule source bs limits = Ok p ↔
  (exact_match_count rule <= planner_edits limits ∧ len (from rule) <= planner_source_bytes limits ∧
   len (quote_specifier (to rule)) <= planner_replacement_bytes limits ∧
   len bs <= planner_source_bytes limits) ∧
  (∃ r, rules authority !! id = Some r ∧ authorized_rule_digest r = canonical_digest rule) ∧
  digest bs = source_digest source ∧ utf8_valid bs = true ∧ parse_errors (parse_module bs) = 0 ∧
  Forall (literal_ok bs) (specifiers (program_body (parse_module bs))) ∧
  len (matching rule (program_body (parse_module bs))) = exact_match_count rule ∧
  p = mkTransformPlan id (canonical_digest rule) source
        (map (edit_of (quote_specifier (to rule))) (matching rule (program_body (parse_module bs)))).
Proof.
  intros Hn Hto Hus. unfold plan_static_import_rewrite.
  assert (Hlen : ∀ ls, len (map (edit_of (quote_specifier (to rule))) ls) = len ls)
    by (intros; unfold len; by rewrite length_map). split.
  - intros H. inv_ok.
    match goal with H : canonical_replacement_byte_length _ = Some _ |- _ =>
      apply canonical_replacement_length_Some in H as [-> ?]; [|done] end.
    match goal with H : plan_statements _ _ _ _ _ _ = Ok _ |- _ =>
      apply plan_statements_exact in H as (Hf & -> & _); [|done] end.
    cbn [app] in *. rewrite Hlen in *.
    repeat match goal with H : negb _ = false |- _ => apply negb_false_iff in H end.
    rewrite ?bool_decide_eq_true, ?Z.eqb_eq in *.
    split_and!; [lia|lia|lia|lia|eauto|done|done|done|done|lia|done].
  - intros ((H1 & H2 & H3 & H4) & (r & Hr & Hrd) & Hd & Hu & Hp & Hf & Hm & ->).
    rewrite (proj2 (Z.ltb_ge (planner_edits limits) _)) by lia. cbn [reject result_bind].
    rewrite (proj2 (Z.ltb_ge (planner_source_bytes limits) (len (from rule)))) by lia. cbn [reject result_bind].
    rewrite canonical_replacement_length_exact by (done || lia). cbn [ok_or result_bind].
    rewrite (proj2 (Z.ltb_ge (planner_replacement_bytes limits) _)) by lia. cbn [reject result_bind].
    rewrite (proj2 (Z.ltb_ge (planner_source_bytes limits) (len bs))) by lia. cbn [reject result_bind].
    rewrite Hr. cbn [ok_or result_bind]. rewrite !bool_decide_eq_true_2 by done. cbn [negb reject result_bind].
    rewrite Hu, Hp. cbn [negb Z.eqb reject result_bind].
    assert (Hrun : plan_statements rule bs (quote_specifier (to rule)) (exact_match_count rule)
        (program_body (parse_module bs)) [] =
      Ok (map (edit_of (quote_specifier (to rule))) (matching rule (program_body (parse_module bs))))).
    { apply plan_statements_exact; [done|]. rewrite Hlen. split_and!; [done|done|lia]. }
    rewrite Hrun. cbn [result_bind]. rewrite Hlen, Hm, Z.eqb_refl. done.
Qed.
End Planning.

(** ** The replacement literal *)

(** UTF-8 encoding of a code point of the basic plane. *)
Definition utf8_encode (v : Z) : str :=
  if v <? 0x80 then [byte_of v]
  else if v <? 0x800 then [byte_of (0xC0 + v / 64); byte_of (0x80 + v mod 64)]
  else [byte_of (0xE0 + v / 4096); byte_of (0x80 + v / 64 mod 64); byte_of (0x80 + v mod 64)].

(** The value of an ECMAScript string literal in double quotation marks, for the
    escapes of a quotation mark, a backslash and four hexadecimal digits; from
    after the opening mark. *)
Fixpoint js_body (s : bytes) : option str :=
  match s with
  | [] => None
  | b :: s =>
    if bool_decide (b = quote_mark) then (if bool_decide (s = []) then Some [] else None)
    else if bool_decide (b = backslash) then
      match s with
      | [] => None
      | c :: s =>
        if bool_decide (c = quote_mark) || bool_decide (c = backslash) then v ← js_body s; Some (c :: v)
        else if bool_decide (c = chr "u") then
          match s with
          | d0 :: d1 :: d2 :: d3 :: s =>
            v ← parse_hex_digits [d0; d1; d2; d3]; r ← js_body s; Some (utf8_encode v ++ r)
          | _ => None
          end
        else None
      end
    else if byte_val b <? 0x20 then None
    else v ← js_body s; Some (b :: v)
  end.
Definition js_string_value (s : bytes) : option str :=
  match s with
  | b :: s => if bool_decide (b = quote_mark) then js_body s else None
  | [] => None
  end.

Lemma has_control_app c s : has_control (c ++ s) = false → has_control s = false.
Proof.
  induction c as [|b c IH]; [done|]. cbn. rewrite !orb_false_iff. intros [_ H]. auto.
Qed.

Lemma has_control_prefix c s : has_control (c ++ s) = false → has_control c = false.
Proof.
  induction c as [|b c IH]; [done|]. cbn. rewrite !orb_false_iff. intros [[H1 H2] H].
  rewrite ?orb_false_iff in *. destruct_and!. split_and!; [done|done| |auto]. destruct c as [|b' c]; [apply andb_false_r|done].
Qed.

Lemma js_body_plain c s :
  Forall (λ b, b ≠ quote_mark ∧ b ≠ backslash ∧ 0x20 <= byte_val b) c →
  js_body (c ++ s) = (v ← js_body s; Some (c ++ v)).
Proof.
  induction 1 as [|b c (H1 & H2 & H3) _ IH]; cbn; [by destruct (js_body s)|].
  rewrite !bool_decide_eq_false_2 by done. rewrite (proj2 (Z.ltb_ge _ _)) by lia.
  rewrite IH. by destruct (js_body s).
Qed.

(** One quoted character reads back as itself. *)
Lemma js_body_quote_char c s :
  utf8_char c → has_control c = false → js_body (quote_char c ++ s) = (v ← js_body s; Some (c ++ v)).
Proof.
  intros Hc Hctl. unfold quote_char. repeat case_bool_decide; subst; try (vm_compute (bool_decide _); cbn; by destruct (js_body s)).
  apply js_body_plain. destruct Hc as [(b & -> & Hb)|[_ Hall]].
  - constructor; [|constructor]. cbn in Hctl. rewrite !orb_false_iff in Hctl. destruct_and!.
    split_and!; [by intros ->|by intros ->|lia].
  - eapply Forall_impl; [exact Hall|]. cbn. intros b Hb. split_and!; [| |lia]; intros ->; vm_compute in Hb; done.
Qed.

(** The canonical literal of a specifier has the specifier as its value. *)
Lemma quote_specifier_reads_back s :
  utf8_valid s = true → has_control s = false → js_string_value (quote_specifier s) = Some s.
Proof.
  intros Hv Hc. cbn. rewrite bool_decide_eq_true_2 by done. revert Hc. pattern s. revert s Hv. apply utf8_ind.
  - intros _. reflexivity.
  - intros c s Hcs Hv Hch IH Hctl. rewrite Hch. cbn [map concat]. rewrite <-app_assoc.
    rewrite js_body_quote_char by (done || by eapply has_control_prefix). rewrite IH by (by eapply has_control_app). done.
Qed.

(** ** Match evidence *)

Lemma decimal_length_from_shift fuel v n m :
  decimal_length_from fuel v (n + m) = m + decimal_length_from fuel v n.
Proof.
  revert v n. induction fuel as [|fuel IH]; intros v n; cbn; [lia|].
  destruct (10 <=? v); [|lia]. rewrite <-IH. f_equal. lia.
Qed.

(** The digits written are as many as announced, and the buffer is large enough. *)
Lemma encode_u32_from_length position : ∀ fuel value acc,
  (position <= fuel)%nat → (0 < position)%nat → 0 <= value < 10 ^ Z.of_nat position →
  ∃ r, encode_u32_from position value acc = Ok r ∧ len r = len acc + decimal_length_from fuel value 1.
Proof.
  induction position as [|position IH]; intros fuel value acc Hf Hp Hv; [lia|].
  destruct fuel as [|fuel]; [lia|]. rewrite Nat2Z.inj_succ, Z.pow_succ_r in Hv by lia. cbn.
  destruct (Z.eqb_spec (value / 10) 0) as [Hz|Hz].
  - apply Z.div_small_iff in Hz; [|lia]. rewrite (proj2 (Z.leb_gt 10 value)) by lia.
    eexists. split; [done|]. rewrite len_cons. lia.
  - assert (10 <= value).
    { destruct (Z.le_gt_cases 10 value); [done|]. exfalso. apply Hz, Z.div_small. lia. }
    rewrite (proj2 (Z.leb_le 10 value)) by done.
    assert (Hpos : (0 < position)%nat).
    { destruct position; [cbn in Hv; lia|lia]. }
    destruct (IH fuel (value / 10) (byte_of (48 + value mod 10) :: acc)) as (r & Hr & Hl); [lia|lia| |].
    { split; [apply Z.div_pos; lia|apply Z.div_lt_upper_bound; lia]. }
    exists r. split; [done|]. rewrite Hl, len_cons, (decimal_length_from_shift _ _ 1 1). lia.
Qed.

Lemma encode_u32_length v :
  0 <= v <= u32_max → ∃ r, encode_u32 v = Ok r ∧ len r = decimal_length v.
Proof.
  intros Hv. destruct (encode_u32_from_length 10 20 v []) as (r & Hr & Hl); [lia|lia| |].
  - unfold u32_max in Hv. change (10 ^ Z.of_nat 10) with 10000000000. lia.
  - exists r. split; [done|]. rewrite Hl. done.
Qed.

Definition edits_typed (edits : list TextEdit) : Prop :=
  Forall (λ e, 0 <= start_byte e <= u32_max ∧ 0 <= end_byte e <= u32_max) edits.

Lemma match_lengths_nonneg first es : edits_typed es → Forall (λ x, 0 <= x) (match_lengths first es).
Proof.
  intros Hes. revert first. induction Hes as [|e es [H1 H2] _ IH]; intros first; cbn; [constructor|].
  destruct (encode_u32_length _ H1) as (r1 & _ & <-), (encode_u32_length _ H2) as (r2 & _ & <-).
  pose proof (len_nonneg r1). pose proof (len_nonneg r2).
  destruct first; cbn; repeat (constructor; [lia || done|]); apply IH.
Qed.

Lemma append_matches_length first es acc :
  edits_typed es →
  ∃ out, append_matches first es acc = Ok out ∧ len out = len acc + sum_lengths (match_lengths first es).
Proof.
  intros Hes. revert first acc. unfold sum_lengths. induction Hes as [|e es [H1 H2] _ IH]; intros first acc;
    cbn [append_matches match_lengths].
  { exists acc. split; [done|cbn; lia]. }
  destruct (encode_u32_length _ H1) as (r1 & -> & Hl1), (encode_u32_length _ H2) as (r2 & -> & Hl2).
  cbn [result_bind].
  match goal with |- ∃ out, append_matches false es ?a = _ ∧ _ => destruct (IH false a) as (out & Hrun & Hlen) end.
  exists out. split; [exact Hrun|]. rewrite Hlen, !len_app, Hl1, Hl2. rewrite foldr_app.
  change (len (lit "}")) with 1.
  destruct first; cbn -[decimal_length MATCH_START MATCH_END len];
    [change (len (@nil byte)) with 0|rewrite (len_cons _ []); change (len (@nil byte)) with 0]; lia.
Qed.

Lemma digest_text_length d : len d = 32 → len (digest_text d) = DIGEST_TEXT_LENGTH.
Proof.
  intros Hd. unfold digest_text. rewrite len_app. change (len (lit "sha256:")) with 7.
  assert (Hc : ∀ l : bytes, len (concat (map (λ b, [hex_char (byte_val b ≫ 4); hex_char (Z.land (byte_val b) 0x0f)]) l))
                = 2 * len l).
  { induction l as [|b l IH]; [done|]. cbn [map concat]. rewrite len_app, IH, !len_cons. change (len (@nil byte)) with 0. lia. }
  rewrite Hc, Hd. done.
Qed.

(** The evidence of a plan. *)
Definition evidence_head (plan : TransformPlan) : bytes :=
  EVIDENCE_PREFIX ++ rule_id plan ++ EVIDENCE_RULE_DIGEST ++ digest_text (plan_rule_digest plan) ++
  EVIDENCE_SOURCE_UNIT ++ unit_id (plan_source plan) ++ EVIDENCE_SOURCE_DIGEST ++
  digest_text (source_digest (plan_source plan)) ++ EVIDENCE_MATCHES.

Definition plan_typed (plan : TransformPlan) : Prop :=
  edits_typed (edits plan) ∧ len (plan_rule_digest plan) = 32 ∧ len (source_digest (plan_source plan)) = 32.

(** Writing the evidence of a plan never fails, and its length is the one
    computed beforehand. *)
Lemma match_evidence_length_exact plan :
  plan_typed plan → ∃ body,
    append_matches true (edits plan) (evidence_head plan) = Ok body ∧
    ∀ n, match_evidence_length plan = Ok n ↔ n = len (body ++ EVIDENCE_SUFFIX) ∧ n <= usize_max.
Proof.
  intros (He & H1 & H2). destruct (append_matches_length true (edits plan) (evidence_head plan) He) as (body & Hb & Hl).
  exists body. split; [done|]. intros n. unfold match_evidence_length. rewrite ok_or_Ok, checked_sum_exact.
  - rewrite sum_lengths_app, len_app, Hl. unfold evidence_head. rewrite !len_app, !digest_text_length by done.
    unfold sum_lengths at 1. cbn -[len DIGEST_TEXT_LENGTH match_lengths sum_lengths EVIDENCE_PREFIX
      EVIDENCE_RULE_DIGEST EVIDENCE_SOURCE_UNIT EVIDENCE_SOURCE_DIGEST EVIDENCE_MATCHES EVIDENCE_SUFFIX].
    split; intros [-> Hn]; (split; [lia|]); [destruct Hn as [|Hn]; [done|lia]|right; lia].
  - apply Forall_app. split; [|by apply match_lengths_nonneg].
    repeat (constructor; [apply len_nonneg || done|]). constructor.
Qed.

Section Evidence.
Context `{HS : Sha256} `{HA : Allocator}.

Lemma emit_match_evidence_exact plan max r :
  plan_typed plan →
  emit_match_evidence plan max = Ok r ↔
  ∃ body, append_matches true (edits plan) (evidence_head plan) = Ok body ∧
    len (body ++ EVIDENCE_SUFFIX) <= Z.min max usize_max ∧
    try_reserve (len (body ++ EVIDENCE_SUFFIX)) = true ∧
    r = mkEmittedMatchEvidence plan (body ++ EVIDENCE_SUFFIX) (digest (body ++ EVIDENCE_SUFFIX)).
Proof.
  intros Hp. destruct (match_evidence_length_exact plan Hp) as (body & Hb & Hlen).
  unfold emit_match_evidence. fold (evidence_head plan). split.
  - intros H. apply result_bind_Ok in H as (n & Hn & H). apply Hlen in Hn as [-> Hn].
    rewrite Hb in H. cbn [result_bind] in H. apply result_bind_Ok in H as (_ & H1%reject_Ok & H).
    apply result_bind_Ok in H as (_ & H2%reject_Ok & H). apply result_bind_Ok in H as (_ & _ & [= <-]).
    apply negb_false_iff in H2. exists body. split_and!; [done|lia|done|done].
  - intros (body' & Hb' & Hle & Hr & ->). rewrite Hb in Hb'. injection Hb' as <-.
    rewrite (proj2 (Hlen _)) by (split; [reflexivity|lia]). cbn [result_bind].
    rewrite (proj2 (Z.ltb_ge _ _)) by lia. cbn [reject result_bind]. rewrite Hr. cbn [negb reject result_bind].
    rewrite Hb. cbn [result_bind]. by rewrite Z.eqb_refl.
Qed.
End Evidence.

(** ** The scan of a literal ends *)

Lemma unicode_escape_at_advances bs slash stop v next :
  0 <= slash → unicode_escape_at bs slash stop = Some (v, next) → slash < next.
Proof.
  unfold unicode_escape_at. intros H0 H.
  repeat match goal with
  | H : (if ?b then _ else _) = Some _ |- _ => destruct b; try discriminate H
  | H : _ ≫= _ = Some _ |- _ => apply bind_Some in H as (? & ? & H)
  | H : checked_add _ _ _ = Some _ |- _ => apply checked_add_Some in H as [-> _]
  | H : Some _ = Some _ |- _ => injection H as ? ?; subst
  end; try lia.
  match goal with H : slice _ _ (_ + ?x) = Some _ |- context [?x] => apply slice_Some in H as ([_ ?] & _) end. lia.
Qed.

Lemma surrogate_loop_total fuel bs stop cursor :
  0 <= cursor → stop <= usize_max → (0 < fuel)%nat → stop - cursor < Z.of_nat fuel →
  is_Some (surrogate_loop fuel bs stop cursor).
Proof.
  revert cursor. induction fuel as [|fuel IH]; intros cursor H0 Hus Hf Hlt; [lia|]. cbn.
  destruct (Z.ltb_spec cursor stop) as [Hc|]; cbn; [|by eexists].
  assert (Hrec : ∀ next, cursor < next → is_Some (surrogate_loop fuel bs stop next)).
  { intros next Hn. apply IH; lia. }
  destruct (negb _); [apply Hrec; lia|].
  destruct (unicode_escape_at bs cursor stop) as [[v next]|] eqn:E;
    [|apply Hrec; unfold saturating_add; lia].
  pose proof (unicode_escape_at_advances _ _ _ _ _ H0 E).
  destruct (in_range 0xd800 0xdbff v).
  - destruct (unicode_escape_at bs next stop) as [[low after]|] eqn:E2; [|by eexists].
    apply unicode_escape_at_advances in E2; [|lia]. destruct (negb _); [by eexists|]. apply Hrec. lia.
  - destruct (in_range 0xdc00 0xdfff v); [by eexists|]. by apply Hrec.
Qed.

(** The scan for lone surrogate escapes ends on every literal: every turn of its
    loop advances the cursor, so the length of the literal is fuel enough. *)
Theorem contains_lone_surrogate_escape_total literal :
  len literal <= usize_max → is_Some (contains_lone_surrogate_escape literal).
Proof.
  intros H. pose proof (len_nonneg literal). apply surrogate_loop_total; [lia|lia|lia|]. unfold len in *. lia.
Qed.

(** ** A sample rewrite *)

Module Sample.
Definition zeros : bytes := replicate 32 (byte_of 0).
(** A digest of thirty-two bytes: the start of the text, padded. *)
#[local] Instance sample_sha256 : Sha256 := λ bs, take 32 (bs ++ zeros).
#[local] Instance sample_allocator : Allocator := ample_allocator.

Definition source_text : bytes := lit "import 'a'" ++ [byte_of 10] ++ lit "f()".
#[local] Instance sample_oxc : Oxc :=
  λ _, mkParsed 0 [ImportDeclaration (mkStringLiteral 7 10 (lit "a")); OtherStatement].

Definition the_rule : StaticImportRewrite := mkStaticImportRewrite (lit "a") 1 (lit "bc") 2 1.
Definition the_authority : AdapterTransformAuthority :=
  mkAdapterTransformAuthority RebindingFormat_V1 (lit "adapter") (lit "family") zeros
    {[lit "r" := mkAuthorizedTransformRuleRef (canonical_digest the_rule)]}.
Definition the_unit : SourceUnitRef := mkSourceUnitRef (lit "u") (digest source_text).
Definition the_plan : TransformPlan :=
  mkTransformPlan (lit "r") (canonical_digest the_rule) the_unit
    [mkTextEdit 7 10 ([quote_mark] ++ lit "bc" ++ [quote_mark])].
Definition transformed_text : bytes :=
  lit "import " ++ [quote_mark] ++ lit "bc" ++ [quote_mark; byte_of 10] ++ lit "f()".
Definition the_transformed : EmittedTransformedSource :=
  mkEmittedTransformedSource the_plan transformed_text (digest transformed_text).
Definition the_planner : PlannerLimits := mkPlannerLimits 100 4 100.
Definition the_emission : TransformEmissionLimits := mkTransformEmissionLimits 100 100.

Lemma emit_transformed_source_exact_witness :
  emit_transformed_source the_plan source_text the_emission = Ok the_transformed ∧ rewrites 0 (edits the_plan) source_text transformed_text.
Proof.
  assert (Hrun : emit_transformed_source the_plan source_text the_emission = Ok the_transformed) by (by vm_compute). split; [done|].
  assert (Hus : len source_text + replacement_total (edits the_plan) <= usize_max) by (by vm_compute).
  destruct (proj1 (emit_transformed_source_exact the_plan source_text the_emission the_transformed Hus) Hrun)
    as (_ & _ & out & Hrw & _ & _ & Heq). injection Heq as ->. exact Hrw.
Defined.

Lemma plan_static_import_rewrite_exact_witness :
  plan_static_import_rewrite the_authority (lit "r") the_rule the_unit source_text the_planner = Ok the_plan ∧
  len (matching the_rule (program_body (parse_module source_text))) = 1.
Proof.
  assert (Hrun : plan_static_import_rewrite the_authority (lit "r") the_rule the_unit source_text the_planner = Ok the_plan) by (by vm_compute).
  split; [done|].
  exact (proj1 (proj2 (proj2 (proj2 (proj2 (proj2 (proj2 (proj1 (plan_static_import_rewrite_exact the_authority (lit "r") the_rule the_unit source_text the_planner the_plan
    ltac:(by vm_compute) ltac:(done) ltac:(by vm_compute)) Hrun)))))))).
Defined.

Lemma contains_lone_surrogate_escape_total_witness :
  is_Some (contains_lone_surrogate_escape ([quote_mark; backslash] ++ lit "uD83Dx" ++ [quote_mark])).
Proof. apply contains_lone_surrogate_escape_total. by vm_compute. Defined.
End Sample.
