(* ===== verification/SourceMap.v ===== *)
(** * SourceMap: deterministic Source Map v3 emission

    Models [crates/weregopher-transform/src/source_map.rs]: the line starts of
    the generated text, the anchors at line starts and edit boundaries, the
    resolution of byte offsets to lines and UTF-16 columns, the Base64 VLQ
    mappings and the canonical document.

    The index into the edits of a plan is the list of the edits that remain, so
    its overflow check has no counterpart.  [char_indices] pairs each character
    of the text with its byte offset. *)

From S2P Require Import Prelude Text Wire Overlay Transform.

Definition MAP_PREFIX : bytes := json "{'version':3,'sources':['".
Definition MAP_MAPPINGS : bytes := json "'],'names':[],'mappings':'".
Definition MAP_EXTENSION : bytes := json "','x_weregopher':{'format_version':'1','rule_id':'".
Definition MAP_RULE_DIGEST : bytes := json "','rule_digest':'".
Definition MAP_SOURCE_DIGEST : bytes := json "','source_digest':'".
Definition MAP_TRANSFORMED_DIGEST : bytes := json "','transformed_source_digest':'".
Definition MAP_SUFFIX : bytes := json "'}}".
Definition BASE64 : bytes :=
  lit "ABCDEFGHIJKLMNOPQRSTUVWXYZabcdefghijklmnopqrstuvwxyz0123456789+/".

Inductive SourceMapError : Type :=
| Map_InvalidLimits
| Map_SourceTooLarge (actual_bytes max_bytes : Z)
| Map_TransformedSourceTooLarge (actual_bytes max_bytes : Z)
| Map_SourceDigestMismatch
| Map_SourceNotUtf8
| Map_TransformedSourceNotUtf8
| Map_SegmentCountOverflow
| Map_SegmentLimitExceeded (required_segments max_segments : Z)
| Map_AllocationFailed (purpose : string) (items : Z)
| Map_OffsetOverflow
| Map_PositionOverflow
| Map_EditOffsetOutOfRange (offset : Z)
| Map_InvalidEditRange
| Map_LineStartInsideEdit (line_start edit_start edit_end : Z)
| Map_LineStartCountMismatch (expected actual : Z)
| Map_LineStartCollectionFailed
| Map_AnchorOrderingFailed
| Map_AmbiguousGeneratedAnchor (generated_byte : Z)
| Map_InvalidAnchorOffset (offset : Z)
| Map_PositionResolutionFailed
| Map_PositionCountMismatch
| Map_MappingOrderInvalid
| Map_PositionDeltaOutOfRange
| Map_VlqEncodingFailed
| Map_DigestEncodingFailed
| Map_SourceMapLengthOverflow
| Map_SourceMapTooLarge (actual_bytes max_bytes : Z)
| Map_EmittedLengthMismatch (expected_bytes actual_bytes : Z).

Record SourceMapLimits : Type := mkSourceMapLimits {
  map_source_bytes : Z;
  map_transformed_source_bytes : Z;
  map_segments : Z;
  source_map_bytes : Z
}.

Definition source_map_limits_new (max_source_bytes max_transformed_source_bytes max_segments
    max_source_map_bytes : Z) : result SourceMapLimits SourceMapError :=
  do? reject ((max_source_bytes =? 0) || (max_transformed_source_bytes =? 0) || (max_segments =? 0) ||
              (max_source_map_bytes =? 0)) Map_InvalidLimits in
  Ok (mkSourceMapLimits max_source_bytes max_transformed_source_bytes max_segments
        max_source_map_bytes).

Record EmittedSourceMap : Type := mkEmittedSourceMap {
  map_transformed_source : EmittedTransformedSource;
  map_bytes : bytes;
  map_digest : Sha256Digest;
  segment_count : Z
}.

Record ByteAnchor : Type := mkByteAnchor { generated : Z; original : Z }.
Record LineColumn : Type := mkLineColumn { line : Z; column : Z }.

#[global] Instance byte_anchor_eq_dec : EqDecision ByteAnchor.
Proof. solve_decision. Defined.

Definition allocate_vec `{Allocator} (items : Z) (purpose : string) : result unit SourceMapError :=
  reject (negb (try_reserve items)) (Map_AllocationFailed purpose items).

(** ** Lines *)

Definition is_cr (c : str) : bool := bool_decide (c = [byte_of 13]).
Definition is_lf (c : str) : bool := bool_decide (c = [byte_of 10]).
Definition is_separator (c : str) : bool :=
  bool_decide (c = line_separator) || bool_decide (c = paragraph_separator).

(** [str::char_indices]. *)
Fixpoint char_indices_from (index : Z) (cs : list str) : list (Z * str) :=
  match cs with
  | [] => []
  | c :: cs => (index, c) :: char_indices_from (index + len c) cs
  end.
Definition char_indices (text : str) : list (Z * str) := char_indices_from 0 (chars text).

Fixpoint count_from (cs : list str) (count : Z) (previous_was_cr : bool) : result Z SourceMapError :=
  match cs with
  | [] => Ok count
  | c :: cs =>
    if is_cr c then
      let? count := ok_or (checked_add usize_max count 1) Map_SegmentCountOverflow in
      count_from cs count true
    else if is_lf c && previous_was_cr then count_from cs count false
    else if is_lf c || is_separator c then
      let? count := ok_or (checked_add usize_max count 1) Map_SegmentCountOverflow in
      count_from cs count false
    else count_from cs count false
  end.
Definition count_line_starts (text : str) : result Z SourceMapError := count_from (chars text) 1 false.

Fixpoint collect_from (cs : list (Z * str)) (starts : list Z) (previous_was_cr : bool) :
    result (list Z) SourceMapError :=
  match cs with
  | [] => Ok starts
  | (index, c) :: cs =>
    if is_cr c then
      let? start := ok_or (checked_add usize_max index (len c)) Map_OffsetOverflow in
      collect_from cs (starts ++ [start]) true
    else if is_lf c && previous_was_cr then
      do? reject (bool_decide (starts = [])) Map_LineStartCollectionFailed in
      let? start := ok_or (checked_add usize_max index (len c)) Map_OffsetOverflow in
      collect_from cs (removelast starts ++ [start]) false
    else if is_lf c || is_separator c then
      let? start := ok_or (checked_add usize_max index (len c)) Map_OffsetOverflow in
      collect_from cs (starts ++ [start]) false
    else collect_from cs starts false
  end.
Definition collect_line_starts `{Allocator} (text : str) (count : Z) : result (list Z) SourceMapError :=
  do? allocate_vec count "source line starts" in
  let? starts := collect_from (char_indices text) [0] false in
  do? reject (negb (len starts =? count)) (Map_LineStartCountMismatch count (len starts)) in
  Ok starts.

(** ** Anchors *)

(** The checked range of an edit and its place in the generated text. *)
Definition edit_places (edit : TextEdit) (source_bytes source_cursor generated_cursor : Z) :
    result (Z * Z * Z * Z) SourceMapError :=
  let? start := edit_offset (start_byte edit) (Map_EditOffsetOutOfRange (start_byte edit)) in
  let? stop := edit_offset (end_byte edit) (Map_EditOffsetOutOfRange (end_byte edit)) in
  do? reject ((start <? source_cursor) || (stop <? start) || (source_bytes <? stop))
    Map_InvalidEditRange in
  let? generated_start := ok_or (checked_add usize_max generated_cursor (start - source_cursor))
    Map_OffsetOverflow in
  let? generated_end := ok_or (checked_add usize_max generated_start (len (replacement edit)))
    Map_OffsetOverflow in
  Ok (start, stop, generated_start, generated_end).

(** The [loop] for one line start: the original offset, and the edits and
    cursors to continue with. *)
Fixpoint locate (generated source_bytes : Z) (edits : list TextEdit)
    (source_cursor generated_cursor : Z) : result (Z * (list TextEdit * Z * Z)) SourceMapError :=
  match edits with
  | [] =>
    let? unchanged := ok_or (checked_sub generated generated_cursor) Map_InvalidEditRange in
    let? original := ok_or (checked_add usize_max source_cursor unchanged) Map_OffsetOverflow in
    do? reject (source_bytes <? original) (Map_InvalidAnchorOffset original) in
    Ok (original, ([], source_cursor, generated_cursor))
  | edit :: rest =>
    let? (start, stop, generated_start, generated_end) :=
      edit_places edit source_bytes source_cursor generated_cursor in
    if generated <? generated_start then
      let? unchanged := ok_or (checked_sub generated generated_cursor) Map_InvalidEditRange in
      let? original := ok_or (checked_add usize_max source_cursor unchanged) Map_OffsetOverflow in
      Ok (original, (edits, source_cursor, generated_cursor))
    else if generated <? generated_end then Ok (start, (edits, source_cursor, generated_cursor))
    else locate generated source_bytes rest stop generated_end
  end.

Fixpoint append_generated_line_anchors (line_starts : list Z) (source_bytes : Z)
    (state : list TextEdit * Z * Z) (anchors : list ByteAnchor) :
    result (list ByteAnchor) SourceMapError :=
  match line_starts with
  | [] => Ok anchors
  | generated :: line_starts =>
    let '(edits, source_cursor, generated_cursor) := state in
    let? (original, state) := locate generated source_bytes edits source_cursor generated_cursor in
    append_generated_line_anchors line_starts source_bytes state
      (anchors ++ [mkByteAnchor generated original])
  end.

Fixpoint append_edit_anchors (edits : list TextEdit) (source_bytes source_cursor generated_cursor : Z)
    (anchors : list ByteAnchor) : result (list ByteAnchor) SourceMapError :=
  match edits with
  | [] => Ok anchors
  | edit :: edits =>
    let? (start, stop, generated_start, generated_end) :=
      edit_places edit source_bytes source_cursor generated_cursor in
    append_edit_anchors edits source_bytes stop generated_end
      (anchors ++ [mkByteAnchor generated_start start; mkByteAnchor generated_end stop])
  end.

(** The derived [Ord] of [ByteAnchor], and [Vec::dedup]. *)
Definition anchor_le (a b : ByteAnchor) : bool :=
  (generated a <? generated b) || ((generated a =? generated b) && (original a <=? original b)).
Fixpoint dedup (anchors : list ByteAnchor) : list ByteAnchor :=
  match anchors with
  | a :: (b :: _) as rest => if bool_decide (a = b) then dedup rest else a :: dedup rest
  | _ => anchors
  end.

(** The loop over [anchors.windows(2)]. *)
Fixpoint check_ambiguous (anchors : list ByteAnchor) : result unit SourceMapError :=
  match anchors with
  | a :: (b :: _) as rest =>
    do? reject ((generated a =? generated b) && negb (original a =? original b))
      (Map_AmbiguousGeneratedAnchor (generated a)) in
    check_ambiguous rest
  | _ => Ok tt
  end.

(** ** Positions *)

Record Resolver : Type := mkResolver {
  characters : list (Z * str);
  byte_cursor : Z;
  resolver_line : Z;
  resolver_column : Z;
  previous_was_cr : bool
}.

(** The [while byte_cursor < target] loop. *)
Fixpoint advance (target : Z) (characters : list (Z * str)) (byte_cursor line column : Z)
    (previous_was_cr : bool) : result Resolver SourceMapError :=
  if negb (byte_cursor <? target) then
    Ok (mkResolver characters byte_cursor line column previous_was_cr)
  else
    match characters with
    | [] => Err Map_PositionResolutionFailed
    | (index, c) :: characters =>
      do? reject (negb (index =? byte_cursor)) Map_PositionResolutionFailed in
      let? next_cursor := ok_or (checked_add usize_max index (len c)) Map_OffsetOverflow in
      do? reject (target <? next_cursor) (Map_InvalidAnchorOffset target) in
      if is_cr c then
        let? line := ok_or (checked_add usize_max line 1) Map_PositionOverflow in
        advance target characters next_cursor line 0 true
      else if is_lf c && previous_was_cr then advance target characters next_cursor line 0 false
      else if is_lf c || is_separator c then
        let? line := ok_or (checked_add usize_max line 1) Map_PositionOverflow in
        advance target characters next_cursor line 0 false
      else
        let? column := ok_or (checked_add usize_max column (len_utf16 c)) Map_PositionOverflow in
        advance target characters next_cursor line column false
    end.

Fixpoint resolve_from (text : str) (targets : list Z) (r : Resolver) (previous_target : Z)
    (positions : list LineColumn) : result (list LineColumn) SourceMapError :=
  match targets with
  | [] => Ok positions
  | target :: targets =>
    do? reject ((target <? previous_target) || (len text <? target) ||
                negb (is_char_boundary text target)) (Map_InvalidAnchorOffset target) in
    let? r := advance target (characters r) (byte_cursor r) (resolver_line r) (resolver_column r)
                (previous_was_cr r) in
    resolve_from text targets r target
      (positions ++ [mkLineColumn (resolver_line r) (resolver_column r)])
  end.

Definition resolve_positions `{Allocator} (text : str) (anchors : list ByteAnchor)
    (offset : ByteAnchor → Z) (purpose : string) : result (list LineColumn) SourceMapError :=
  do? allocate_vec (len anchors) purpose in
  resolve_from text (map offset anchors) (mkResolver (char_indices text) 0 0 0 false) 0 [].

(** ** Mappings *)

Definition i64_max : Z := 9223372036854775807.

Definition signed_delta (current previous : Z) : result Z SourceMapError :=
  if previous <=? current then
    ok_or (if current - previous <=? i64_max then Some (current - previous) else None)
      Map_PositionDeltaOutOfRange
  else
    let? magnitude := ok_or (if previous - current <=? i64_max then Some (previous - current) else None)
      Map_PositionDeltaOutOfRange in
    Ok (- magnitude).

Record MappingCursor : Type := mkMappingCursor {
  generated_line : Z;
  generated_column : Z;
  original_line : Z;
  original_column : Z;
  has_segment : bool
}.
Definition mapping_cursor_new : MappingCursor := mkMappingCursor 0 0 0 0 false.

Record MappingStep : Type := mkMappingStep {
  new_lines : Z;
  comma : bool;
  deltas : list Z
}.

Definition step (self : MappingCursor) (generated original : LineColumn) :
    result (MappingStep * MappingCursor) SourceMapError :=
  do? reject (line generated <? generated_line self) Map_MappingOrderInvalid in
  let new_lines := line generated - generated_line self in
  let self := if 0 <? new_lines
              then mkMappingCursor (line generated) 0 (original_line self) (original_column self) false
              else self in
  do? reject (column generated <? generated_column self) Map_MappingOrderInvalid in
  let? d0 := signed_delta (column generated) (generated_column self) in
  let? d2 := signed_delta (line original) (original_line self) in
  let? d3 := signed_delta (column original) (original_column self) in
  Ok (mkMappingStep new_lines (has_segment self) [d0; 0; d2; d3],
      mkMappingCursor (generated_line self) (column generated) (line original) (column original) true).

Definition vlq_value (value : Z) : Z :=
  Z.lor (Z.min u64_max (Z.abs value * 2)) (if value <? 0 then 1 else 0).

(** The VLQ loops: a [u64] has at most thirteen groups of five bits. *)
Fixpoint vlq_length_from (fuel : nat) (remaining length : Z) : Z :=
  match fuel with
  | O => length
  | S fuel => if 32 <=? remaining then vlq_length_from fuel (remaining ≫ 5) (length + 1) else length
  end.
Definition vlq_length (value : Z) : Z := vlq_length_from 13 (vlq_value value) 1.

Fixpoint vlq_from (fuel : nat) (remaining : Z) (output : bytes) : result bytes SourceMapError :=
  match fuel with
  | O => Err Map_VlqEncodingFailed
  | S fuel =>
    let digit := Z.land remaining 31 in
    let remaining := remaining ≫ 5 in
    let digit := if 0 <? remaining then Z.lor digit 32 else digit in
    let? c := ok_or (BASE64 !! Z.to_nat digit) Map_VlqEncodingFailed in
    if remaining =? 0 then Ok (output ++ [c]) else vlq_from fuel remaining (output ++ [c])
  end.
Definition append_vlq (output : bytes) (value : Z) : result bytes SourceMapError :=
  vlq_from 13 (vlq_value value) output.

Fixpoint append_vlqs (output : bytes) (values : list Z) : result bytes SourceMapError :=
  match values with
  | [] => Ok output
  | value :: values => let? output := append_vlq output value in append_vlqs output values
  end.

(** The loop of [mappings_length], over the zipped positions. *)
Fixpoint mappings_length_from (positions : list (LineColumn * LineColumn)) (cursor : MappingCursor)
    (length : Z) : result Z SourceMapError :=
  match positions with
  | [] => Ok length
  | (generated, original) :: positions =>
    let? (s, cursor) := step cursor generated original in
    let? length := ok_or (checked_sum ([new_lines s] ++ (if comma s then [1] else []) ++
                                       map vlq_length (deltas s)) length)
      Map_SourceMapLengthOverflow in
    mappings_length_from positions cursor length
  end.
Definition mappings_length (generated original : list LineColumn) : result Z SourceMapError :=
  do? reject (negb (len generated =? len original)) Map_PositionCountMismatch in
  mappings_length_from (zip generated original) mapping_cursor_new 0.

Fixpoint append_mappings_from (positions : list (LineColumn * LineColumn)) (cursor : MappingCursor)
    (output : bytes) : result bytes SourceMapError :=
  match positions with
  | [] => Ok output
  | (generated, original) :: positions =>
    let? (s, cursor) := step cursor generated original in
    let? output := append_vlqs (output ++ replicate (Z.to_nat (new_lines s)) (chr ";") ++
                                (if comma s then [chr ","] else [])) (deltas s) in
    append_mappings_from positions cursor output
  end.
Definition append_mappings (output : bytes) (generated original : list LineColumn) :
    result bytes SourceMapError :=
  do? reject (negb (len generated =? len original)) Map_PositionCountMismatch in
  append_mappings_from (zip generated original) mapping_cursor_new output.

(** ** The document *)

Definition source_map_length (mappings_length source_id_length rule_id_length : Z) :
    result Z SourceMapError :=
  ok_or (checked_sum
    [len MAP_PREFIX; len MAP_MAPPINGS; len MAP_EXTENSION; len MAP_RULE_DIGEST; len MAP_SOURCE_DIGEST;
     len MAP_TRANSFORMED_DIGEST; len MAP_SUFFIX; source_id_length; mappings_length; rule_id_length;
     DIGEST_TEXT_LENGTH; DIGEST_TEXT_LENGTH; DIGEST_TEXT_LENGTH] 0) Map_SourceMapLengthOverflow.

Definition emit_source_map `{Sha256, Allocator} (transformed : EmittedTransformedSource)
    (source : bytes) (limits : SourceMapLimits) : result EmittedSourceMap SourceMapError :=
  do? reject (map_source_bytes limits <? len source)
    (Map_SourceTooLarge (len source) (map_source_bytes limits)) in
  do? reject (map_transformed_source_bytes limits <? len (transformed_source transformed))
    (Map_TransformedSourceTooLarge (len (transformed_source transformed))
       (map_transformed_source_bytes limits)) in
  let plan := emitted_plan transformed in
  do? reject (negb (bool_decide (digest source = source_digest (plan_source plan))))
    Map_SourceDigestMismatch in
  do? reject (negb (utf8_valid source)) Map_SourceNotUtf8 in
  do? reject (negb (utf8_valid (transformed_source transformed))) Map_TransformedSourceNotUtf8 in
  let transformed_text := transformed_source transformed in
  let? line_count := count_line_starts transformed_text in
  let? edit_segments := ok_or (checked_mul usize_max (len (edits plan)) 2) Map_SegmentCountOverflow in
  let? required_segments := ok_or (checked_add usize_max line_count edit_segments)
    Map_SegmentCountOverflow in
  do? reject (map_segments limits <? required_segments)
    (Map_SegmentLimitExceeded required_segments (map_segments limits)) in
  let? line_starts := collect_line_starts transformed_text line_count in
  do? allocate_vec required_segments "source-map anchors" in
  let? anchors := append_generated_line_anchors line_starts (len source) (edits plan, 0, 0) [] in
  let? anchors := append_edit_anchors (edits plan) (len source) 0 0 anchors in
  let anchors := dedup (merge_sort (λ a b, Is_true (anchor_le a b)) anchors) in
  do? check_ambiguous anchors in
  let? generated_positions := resolve_positions transformed_text anchors generated
    "generated positions" in
  let? original_positions := resolve_positions source anchors original "original positions" in
  let? mappings_length := mappings_length generated_positions original_positions in
  let? map_length := source_map_length mappings_length (len (unit_id (plan_source plan)))
    (len (rule_id plan)) in
  do? reject (source_map_bytes limits <? map_length)
    (Map_SourceMapTooLarge map_length (source_map_bytes limits)) in
  do? allocate_vec map_length "source-map bytes" in
  let? output := append_mappings (MAP_PREFIX ++ unit_id (plan_source plan) ++ MAP_MAPPINGS)
    generated_positions original_positions in
  let output := output ++ MAP_EXTENSION ++ rule_id plan ++ MAP_RULE_DIGEST ++
    digest_text (plan_rule_digest plan) ++ MAP_SOURCE_DIGEST ++
    digest_text (source_digest (plan_source plan)) ++ MAP_TRANSFORMED_DIGEST ++
    digest_text (emitted_source_digest transformed) ++ MAP_SUFFIX in
  do? reject (negb (len output =? map_length))
    (Map_EmittedLengthMismatch map_length (len output)) in
  Ok (mkEmittedSourceMap transformed output (digest output) (len anchors)).
