(* ===== verification/SourceMapLaws.v ===== *)
(** * SourceMapLaws: the mappings of an emitted map can be read back

    A reader of the [mappings] field, written from the Source Map v3 format, and
    the proofs that it inverts [append_mappings] and that the lengths computed
    before allocation are the lengths written. *)

From S2P Require Import Prelude Text Wire Overlay Transform TransformLaws SourceMap.

(** ** Reading VLQ fields *)

(** A field: groups of five bits, least significant first, with a continuation
    bit; the sign is the lowest bit of the number. *)
Fixpoint vlq_read (s : bytes) (scale acc : Z) : option (Z * bytes) :=
  match s with
  | [] => None
  | b :: s =>
    d ← position b BASE64;
    let acc := acc + scale * (d mod 32) in
    if 32 <=? d then vlq_read s (scale * 32) acc else Some (acc, s)
  end.
Definition vlq_signed (n : Z) : Z := if Z.odd n then - (n / 2) else n / 2.
Definition vlq_field (s : bytes) : option (Z * bytes) :=
  '(n, s) ← vlq_read s 1 0; Some (vlq_signed n, s).

(** A segment with absolute positions: where it is in the generated text, the index
    of its source in [sources], and where it is in that source. *)
Record Segment : Type := mkSegment {
  generated_at : LineColumn;
  source_index : Z;
  original_at : LineColumn
}.

(** The segments of a [mappings] field. *)
Fixpoint decode_mappings_from (fuel : nat) (s : bytes) (gl gc src ol oc : Z) :
    option (list Segment) :=
  match fuel with
  | O => None
  | S fuel =>
    match s with
    | [] => Some []
    | b :: rest =>
      if bool_decide (b = chr ";") then decode_mappings_from fuel rest (gl + 1) 0 src ol oc
      else if bool_decide (b = chr ",") then decode_mappings_from fuel rest gl gc src ol oc
      else
        '(d0, s) ← vlq_field s; '(d1, s) ← vlq_field s; '(d2, s) ← vlq_field s; '(d3, s) ← vlq_field s;
        segments ← decode_mappings_from fuel s gl (gc + d0) (src + d1) (ol + d2) (oc + d3);
        Some (mkSegment (mkLineColumn gl (gc + d0)) (src + d1) (mkLineColumn (ol + d2) (oc + d3)) :: segments)
    end
  end.
Definition decode_mappings (s : bytes) : option (list Segment) :=
  decode_mappings_from (S (length s)) s 0 0 0 0 0.

Lemma base64_inverse d :
  0 <= d < 64 →
  ∃ c, BASE64 !! Z.to_nat d = Some c ∧ position c BASE64 = Some d ∧ c ≠ chr ";" ∧ c ≠ chr ",".
Proof.
  intros Hd.
  assert (Hall : forallb (λ n, match BASE64 !! n with
    | Some c => bool_decide (position c BASE64 = Some (Z.of_nat n)) && negb (bool_decide (c = chr ";")) &&
                negb (bool_decide (c = chr ","))
    | None => false end) (seq 0 64) = true) by (by vm_compute).
  rewrite forallb_forall in Hall. specialize (Hall (Z.to_nat d)).
  rewrite in_seq in Hall. specialize (Hall ltac:(lia)).
  destruct (BASE64 !! Z.to_nat d) as [c|]; [|done]. exists c. rewrite !andb_true_iff, !negb_true_iff in Hall.
  destruct Hall as [[H1 H2] H3]. apply bool_decide_eq_true in H1. apply bool_decide_eq_false in H2, H3.
  rewrite Z2Nat.id in H1 by lia. done.
Qed.

Lemma shiftr5 n : n ≫ 5 = n / 32.
Proof. by rewrite Z.shiftr_div_pow2. Qed.
Lemma land31 n : Z.land n 31 = n mod 32.
Proof. apply (Z.land_ones n 5). lia. Qed.
Lemma lor32 d : 0 <= d < 32 → Z.lor d 32 = d + 32.
Proof.
  intros Hd. assert (Hall : forallb (λ n, Z.lor (Z.of_nat n) 32 =? Z.of_nat n + 32) (seq 0 32) = true) by (by vm_compute).
  rewrite forallb_forall in Hall. specialize (Hall (Z.to_nat d)). rewrite in_seq in Hall.
  specialize (Hall ltac:(lia)). rewrite Z2Nat.id in Hall by lia. lia.
Qed.

Lemma vlq_length_from_shift fuel n a b : vlq_length_from fuel n (a + b) = b + vlq_length_from fuel n a.
Proof.
  revert n a. induction fuel as [|fuel IH]; intros n a; cbn [vlq_length_from]; [lia|].
  destruct (32 <=? n); [|lia]. rewrite <-IH. f_equal. lia.
Qed.

(** The groups written for a number read back as the number, are as many as
    announced, and do not start like a separator. *)
Lemma vlq_from_spec fuel : ∀ n,
  0 <= n < 32 ^ Z.of_nat fuel → (0 < fuel)%nat →
  ∃ c ds, (∀ out, vlq_from fuel n out = Ok (out ++ c :: ds)) ∧ len (c :: ds) = vlq_length_from fuel n 1 ∧
    (c ≠ chr ";" ∧ c ≠ chr ",") ∧
    ∀ rest scale acc, vlq_read (c :: ds ++ rest) scale acc = Some (acc + scale * n, rest).
Proof.
  induction fuel as [|fuel IH]; intros n Hn Hf; [lia|].
  rewrite Nat2Z.inj_succ, Z.pow_succ_r in Hn by lia. cbn [vlq_from vlq_length_from].
  rewrite !shiftr5, land31. pose proof (Z.mod_pos_bound n 32 ltac:(lia)). pose proof (Z.div_mod n 32 ltac:(lia)).
  pose proof (Z.div_pos n 32 ltac:(lia) ltac:(lia)).
  destruct (Z.leb_spec 32 n) as [Hbig|Hsmall].
  - assert (Hq : 1 <= n / 32) by (apply Z.div_le_lower_bound; lia).
    rewrite (proj2 (Z.ltb_lt 0 (n / 32))) by lia. rewrite lor32 by lia.
    destruct (base64_inverse (n mod 32 + 32)) as (c & Hc & Hpos & Hsep); [lia|]. rewrite Hc. cbn [ok_or result_bind].
    rewrite (proj2 (Z.eqb_neq (n / 32) 0)) by lia.
    assert (Hf' : (0 < fuel)%nat) by (destruct fuel; [cbn in Hn; lia|lia]).
    destruct (IH (n / 32)) as (c' & ds & Hrun & Hlen & _ & Hread);
      [split; [lia|apply Z.div_lt_upper_bound; lia]|done|].
    exists c, (c' :: ds). split_and!; [intros out; by rewrite Hrun, <-app_assoc| |apply Hsep|apply Hsep|].
    + rewrite len_cons, Hlen, (vlq_length_from_shift _ _ 1 1). lia.
    + intros rest scale acc. cbn [app]. cbn [vlq_read]. rewrite Hpos. cbn [mbind option_bind].
      rewrite (proj2 (Z.leb_le 32 _)) by lia. cbn [app vlq_read] in Hread. rewrite Hread. f_equal. f_equal.
      replace ((n mod 32 + 32) mod 32) with (n mod 32); [lia|].
      rewrite <-Z.add_mod_idemp_r by lia. rewrite Z.mod_same by lia. rewrite Z.add_0_r, Z.mod_mod by lia. done.
  - rewrite (Z.div_small n 32), Z.mod_small by lia. cbn [Z.ltb Z.compare Z.eqb].
    destruct (base64_inverse n) as (c & Hc & Hpos & Hsep); [lia|]. rewrite Hc. cbn [ok_or result_bind].
    exists c, []. split_and!; [done|done|apply Hsep|apply Hsep|].
    intros rest scale acc. cbn [app vlq_read]. rewrite Hpos. cbn [mbind option_bind]. rewrite (proj2 (Z.leb_gt 32 n)), Z.mod_small by lia. done.
Qed.

Lemma vlq_value_range v : - i64_max <= v <= i64_max →
  vlq_value v = 2 * Z.abs v + (if v <? 0 then 1 else 0) ∧ 0 <= vlq_value v < 32 ^ Z.of_nat 13.
Proof.
  unfold i64_max. intros Hv.
  assert (H : vlq_value v = 2 * Z.abs v + (if v <? 0 then 1 else 0)).
  { unfold vlq_value. rewrite Z.min_r by (unfold u64_max; lia). rewrite Z.mul_comm.
    destruct (v <? 0); [|by rewrite Z.lor_0_r, Z.add_0_r]. destruct (Z.abs v) as [|p|p] eqn:E; [done|done|lia]. }
  split; [done|]. rewrite H. change (32 ^ Z.of_nat 13) with 36893488147419103232. destruct (v <? 0); lia.
Qed.

Lemma vlq_signed_value v : vlq_signed (2 * Z.abs v + (if v <? 0 then 1 else 0)) = v.
Proof.
  unfold vlq_signed. rewrite Z.add_comm, Z.odd_add_mul_2, (Z.mul_comm 2), Z.div_add by lia.
  destruct (Z.ltb_spec v 0); cbv [Z.odd]; [change (1 / 2) with 0|change (0 / 2) with 0]; lia.
Qed.

(** Any value in range is written, with the announced length, and read back. *)
Lemma append_vlq_spec v :
  - i64_max <= v <= i64_max →
  ∃ c ds, (∀ out, append_vlq out v = Ok (out ++ c :: ds)) ∧ len (c :: ds) = vlq_length v ∧
    (c ≠ chr ";" ∧ c ≠ chr ",") ∧ ∀ rest, vlq_field (c :: ds ++ rest) = Some (v, rest).
Proof.
  intros Hv. destruct (vlq_value_range v Hv) as [Hval Hr].
  destruct (vlq_from_spec 13 (vlq_value v) Hr ltac:(lia)) as (c & ds & Hrun & Hlen & Hsep & Hread).
  exists c, ds. split_and!; [done|done|apply Hsep|apply Hsep|].
  intros rest. unfold vlq_field. rewrite Hread. cbn [mbind option_bind]. rewrite Z.add_0_l, Z.mul_1_l, Hval.
  by rewrite vlq_signed_value.
Qed.

#[local] Opaque vlq_field append_vlq vlq_length position.

(** ** Segments *)

Definition delta_ok (d : Z) : Prop := - i64_max <= d <= i64_max.

Lemma signed_delta_Ok current previous d :
  signed_delta current previous = Ok d → d = current - previous ∧ delta_ok d.
Proof.
  unfold signed_delta, delta_ok. destruct (Z.leb_spec previous current) as [H|H].
  - rewrite ok_or_Ok. destruct (Z.leb_spec (current - previous) i64_max); [|done]. intros [= <-].
    unfold i64_max in *. lia.
  - rewrite result_bind_Ok. setoid_rewrite ok_or_Ok. intros (m & Hm & [= <-]).
    destruct (Z.leb_spec (previous - current) i64_max); [|done]. injection Hm as <-. unfold i64_max in *. lia.
Qed.

(** What one step of the cursor says. *)
Lemma step_Ok cur g o s cur' :
  step cur g o = Ok (s, cur') →
  let column0 := if 0 <? new_lines s then 0 else generated_column cur in
  0 <= new_lines s ∧ line g = generated_line cur + new_lines s ∧
  comma s = (if 0 <? new_lines s then false else has_segment cur) ∧
  deltas s = [column g - column0; 0; line o - original_line cur; column o - original_column cur] ∧
  Forall delta_ok (deltas s) ∧
  cur' = mkMappingCursor (line g) (column g) (line o) (column o) true.
Proof.
  unfold step. intros H. apply result_bind_Ok in H as (_ & H1%reject_Ok & H).
  apply result_bind_Ok in H as (_ & _ & H). inv_ok.
  repeat match goal with H : signed_delta _ _ = Ok _ |- _ => apply signed_delta_Ok in H as [-> ?] end.
  cbn [new_lines comma deltas].
  assert (Hzero : delta_ok 0) by (unfold delta_ok, i64_max; lia).
  destruct (Z.ltb_spec 0 (line g - generated_line cur)); cbn in *; split_and!; try lia; try done;
    repeat (constructor; [done|]); try constructor. f_equal. lia.
Qed.

Definition reads_field (w : bytes) (v : Z) : Prop := ∀ rest, vlq_field (w ++ rest) = Some (v, rest).

Lemma decode_segment w0 w1 w2 w3 d0 d1 d2 d3 b w fuel rest gl gc src ol oc :
  w0 = b :: w → b ≠ chr ";" → b ≠ chr "," →
  reads_field w0 d0 → reads_field w1 d1 → reads_field w2 d2 → reads_field w3 d3 →
  decode_mappings_from (S fuel) (w0 ++ w1 ++ w2 ++ w3 ++ rest) gl gc src ol oc =
  (segments ← decode_mappings_from fuel rest gl (gc + d0) (src + d1) (ol + d2) (oc + d3);
   Some (mkSegment (mkLineColumn gl (gc + d0)) (src + d1) (mkLineColumn (ol + d2) (oc + d3)) :: segments)).
Proof.
  intros Hw Hb Hb' F0 F1 F2 F3. rewrite Hw. cbn [app decode_mappings_from].
  rewrite (bool_decide_eq_false_2 _ Hb), (bool_decide_eq_false_2 _ Hb').
  rewrite !app_comm_cons, <-Hw. rewrite F0. cbn [mbind option_bind]. rewrite F1. cbn [mbind option_bind].
  rewrite F2. cbn [mbind option_bind]. rewrite F3. cbn [mbind option_bind]. reflexivity.
Qed.

(** A written segment is read as one segment. *)
Lemma segment_spec d0 d2 d3 :
  delta_ok d0 → delta_ok d2 → delta_ok d3 →
  ∃ w, (∀ out, append_vlqs out [d0; 0; d2; d3] = Ok (out ++ w)) ∧
    len w = sum_lengths (map vlq_length [d0; 0; d2; d3]) ∧
    ∀ fuel rest gl gc src ol oc,
      decode_mappings_from (S fuel) (w ++ rest) gl gc src ol oc =
      (segments ← decode_mappings_from fuel rest gl (gc + d0) (src + 0) (ol + d2) (oc + d3);
       Some (mkSegment (mkLineColumn gl (gc + d0)) (src + 0) (mkLineColumn (ol + d2) (oc + d3)) :: segments)).
Proof.
  assert (Hz : delta_ok 0) by (unfold delta_ok, i64_max; lia). revert Hz.
  generalize 0 at 1 2 3 4 5 as d1. intros d1 H1 H0 H2 H3.
  destruct (append_vlq_spec d0 H0) as (a & as_ & Ra & La & [Ha1 Ha2] & Fa).
  destruct (append_vlq_spec d1 H1) as (b & bs & Rb & Lb & _ & Fb).
  destruct (append_vlq_spec d2 H2) as (c & cs & Rc & Lc & _ & Fc).
  destruct (append_vlq_spec d3 H3) as (d & ds & Rd & Ld & _ & Fd).
  exists ((a :: as_) ++ (b :: bs) ++ (c :: cs) ++ (d :: ds)). split_and!.
  - intros out. cbn [append_vlqs]. rewrite Ra. cbn [result_bind]. rewrite Rb. cbn [result_bind]. rewrite Rc. cbn [result_bind].
    rewrite Rd. cbn [result_bind]. rewrite <-!app_assoc. reflexivity.
  - rewrite !len_app, La, Lb, Lc, Ld. unfold sum_lengths. cbn [map foldr]. lia.
  - intros fuel rest gl gc src ol oc. rewrite <-!app_assoc.
    exact (decode_segment (a :: as_) (b :: bs) (c :: cs) (d :: ds) d0 d1 d2 d3 a as_ fuel rest gl gc src ol oc
             eq_refl Ha1 Ha2 Fa Fb Fc Fd).
Qed.

Lemma decode_newlines k : ∀ fuel rest gl gc src ol oc,
  decode_mappings_from (k + fuel) (replicate k (chr ";") ++ rest) gl gc src ol oc =
  decode_mappings_from fuel rest (gl + Z.of_nat k) (match k with O => gc | _ => 0 end) src ol oc.
Proof.
  induction k as [|k IH]; intros fuel rest gl gc src ol oc; [cbn; by rewrite Z.add_0_r|].
  cbn [Nat.add replicate app decode_mappings_from]. rewrite bool_decide_eq_true_2 by done. rewrite IH.
  f_equal; [lia|by destruct k].
Qed.

(** ** Mappings *)

(** The segment of two positions that correspond: it names the first source, the
    only one of an emitted map. *)
Definition segment_of (p : LineColumn * LineColumn) : Segment := mkSegment p.1 0 p.2.

Definition reads_as (w : bytes) (cur : MappingCursor) (positions : list (LineColumn * LineColumn)) : Prop :=
  ∀ fuel, (length w < fuel)%nat →
    decode_mappings_from fuel w (generated_line cur) (generated_column cur) 0 (original_line cur)
      (original_column cur) = Some (map segment_of positions).

Lemma vlq_length_pos v : 1 <= vlq_length v.
Proof.
  Transparent vlq_length. unfold vlq_length. Opaque vlq_length.
  assert (H : ∀ fuel n k, k <= vlq_length_from fuel n k); [|apply H].
  induction fuel as [|fuel IH]; intros n k; cbn [vlq_length_from]; [lia|].
  destruct (32 <=? n); [etransitivity; [|apply IH]|]; lia.
Qed.

(** The separators before a segment. *)
Definition separators (s : MappingStep) : bytes :=
  replicate (Z.to_nat (new_lines s)) (chr ";") ++ (if comma s then [chr ","] else []).

Lemma decode_separators cur g s fuel rest src :
  0 <= new_lines s → line g = generated_line cur + new_lines s →
  (length (separators s) < fuel)%nat →
  ∃ fuel', (fuel - length (separators s) <= fuel')%nat ∧
    decode_mappings_from fuel (separators s ++ rest) (generated_line cur) (generated_column cur) src
      (original_line cur) (original_column cur) =
    decode_mappings_from fuel' rest (line g) (if 0 <? new_lines s then 0 else generated_column cur) src
      (original_line cur) (original_column cur).
Proof.
  intros Hn Hline. unfold separators. rewrite length_app, length_replicate. intros Hf.
  set (k := Z.to_nat (new_lines s)) in *.
  assert (Hgl : generated_line cur + Z.of_nat k = line g) by (unfold k; lia).
  assert (Hgc : match k with O => generated_column cur | _ => 0 end =
                (if 0 <? new_lines s then 0 else generated_column cur)).
  { unfold k. destruct (Z.ltb_spec 0 (new_lines s)) as [H|H].
    - destruct (Z.to_nat (new_lines s)) eqn:E; [lia|done].
    - by replace (Z.to_nat (new_lines s)) with O by lia. }
  replace fuel with (k + (fuel - k))%nat by lia. rewrite <-app_assoc, decode_newlines, Hgl, Hgc.
  destruct (comma s); cbn [length] in *.
  - destruct (fuel - k)%nat as [|fuel'] eqn:Hk; [lia|]. exists fuel'. split; [lia|].
    cbn [app decode_mappings_from]. rewrite (bool_decide_eq_false_2 (chr "," = chr ";")) by (vm_compute; congruence).
    by rewrite bool_decide_eq_true_2.
  - exists (fuel - k)%nat. split; [lia|done].
Qed.

(** Writing either fails in both passes, or writes [w], of the length computed
    by the first pass, which reads as the positions. *)
Lemma mappings_spec positions : ∀ cur,
  (∃ w, (∀ out, append_mappings_from positions cur out = Ok (out ++ w)) ∧ reads_as w cur positions ∧
     ∀ n m, mappings_length_from positions cur n = Ok m ↔
       m = n + len w ∧ (positions = [] ∨ m <= usize_max)) ∨
  (∃ e, (∀ out, append_mappings_from positions cur out = Err e) ∧
     ∀ n m, mappings_length_from positions cur n ≠ Ok m).
Proof.
  induction positions as [|[g o] positions IH]; intros cur.
  { left. exists []. split_and!.
    - intros out. cbn. by rewrite app_nil_r.
    - intros [|fuel] Hf; [cbn in Hf; lia|done].
    - intros n m. cbn. rewrite Z.add_0_r. split; [intros [= <-]; auto|intros [-> _]; done]. }
  cbn [append_mappings_from mappings_length_from].
  destruct (step cur g o) as [[s cur']|e] eqn:Hs; cbn [result_bind]; [|right; eauto].
  apply step_Ok in Hs as (Hnl & Hline & Hcomma & Hd & Hok & ->). rewrite Hd in Hok.
  apply Forall_cons in Hok as [H0 Hok]. apply Forall_cons in Hok as [_ Hok].
  apply Forall_cons in Hok as [H2 Hok]. apply Forall_cons in Hok as [H3 _].
  fold (separators s).
  destruct (segment_spec _ _ _ H0 H2 H3) as (w & Hw & Hlen & Hread). rewrite <-Hd in Hw, Hlen.
  set (cur1 := mkMappingCursor (line g) (column g) (line o) (column o) true).
  destruct (IH cur1) as [(w' & Hw' & Hr' & Hl')|(e & He & Hl)]; [left|right].
  - exists (separators s ++ w ++ w'). split_and!.
    + intros out. rewrite Hw. cbn [result_bind]. rewrite Hw'. by rewrite <-!app_assoc.
    + intros fuel Hf. rewrite !length_app in Hf.
      assert (Hw0 : (0 < length w)%nat).
      { pose proof (vlq_length_pos 0). unfold len in Hlen. rewrite Hd in Hlen. unfold sum_lengths in Hlen.
        cbn [map foldr] in Hlen. pose proof (vlq_length_pos (column g - (if 0 <? new_lines s then 0 else generated_column cur))).
        pose proof (vlq_length_pos (line o - original_line cur)). pose proof (vlq_length_pos (column o - original_column cur)). lia. }
      destruct (decode_separators cur g s fuel (w ++ w') 0 Hnl Hline ltac:(lia)) as (fuel' & Hf' & ->).
      destruct fuel' as [|fuel']; [lia|]. rewrite Hread.
      specialize (Hr' fuel' ltac:(lia)). rewrite Z.add_0_r. cbn [generated_line generated_column original_line original_column cur1] in Hr'.
      replace (_ + (column g - _)) with (column g) by lia. replace (_ + (line o - _)) with (line o) by lia.
      replace (_ + (column o - _)) with (column o) by lia. rewrite Hr'. cbn [mbind option_bind].
      by destruct g, o.
    + intros n m. rewrite !len_app, result_bind_Ok. setoid_rewrite ok_or_Ok.
      assert (Hseps : len (separators s) = new_lines s + (if comma s then 1 else 0)).
      { unfold separators. rewrite len_app. unfold len. rewrite length_replicate. destruct (comma s); cbn; lia. }
      set (L := [new_lines s] ++ _ ++ _).
      assert (HL : sum_lengths L = len (separators s) + len w).
      { unfold L. rewrite !sum_lengths_app, <-Hlen, Hseps. unfold sum_lengths. destruct (comma s); cbn [foldr]; lia. }
      assert (HF : Forall (λ x, 0 <= x) L).
      { unfold L. apply Forall_app. split; [by repeat constructor|]. apply Forall_app. split; [destruct (comma s); by repeat constructor|].
        apply Forall_map, Forall_true. intros x. pose proof (vlq_length_pos x). cbn. lia. }
      setoid_rewrite (λ n m, checked_sum_exact L n m HF). rewrite HL. pose proof (len_nonneg w').
      setoid_rewrite Hl'. split.
      * intros (k & [-> [?|Hk]] & -> & Hm); [done|]. split; [lia|right]. destruct Hm as [->|]; [|done].
        destruct (Hl' 0 (len w')) as [_ Hx]. specialize (Hx ltac:(split; [lia|auto])). cbn in Hx. injection Hx as Hx. lia.
      * intros [-> [?|Hm]]; [done|]. eexists. split; [split; [reflexivity|right; lia]|]. split; [lia|right; lia].
  - exists e. split; [intros out; rewrite Hw; cbn [result_bind]; apply He|].
    intros n m H. apply result_bind_Ok in H as (k & _ & H). by apply Hl in H.
Qed.

(** ** Positions *)

(** The line and column after a text, scanned from its start: CR, LF, CR LF and
    the two Unicode separators end a line, columns count UTF-16 units. *)
Definition scan_char (p : LineColumn * bool) (c : str) : LineColumn * bool :=
  let '(pos, cr) := p in
  if is_cr c then (mkLineColumn (line pos + 1) 0, true)
  else if is_lf c && cr then (mkLineColumn (line pos) 0, false)
  else if is_lf c || is_separator c then (mkLineColumn (line pos + 1) 0, false)
  else (mkLineColumn (line pos) (column pos + len_utf16 c), false).
Definition scan (cs : list str) : LineColumn * bool := foldl scan_char (mkLineColumn 0 0, false) cs.
Definition position_at (text : str) (offset : Z) : LineColumn :=
  (scan (chars (take (Z.to_nat offset) text))).1.

(** A resolver that has consumed the characters [before]. *)
Definition resolver_at (text : str) (before : list str) (r : Resolver) : Prop :=
  ∃ after, chars text = before ++ after ∧ byte_cursor r = len (concat before) ∧
    characters r = char_indices_from (byte_cursor r) after ∧
    scan before = (mkLineColumn (resolver_line r) (resolver_column r), previous_was_cr r).

Lemma resolver_position text before r :
  resolver_at text before r →
  mkLineColumn (resolver_line r) (resolver_column r) = position_at text (byte_cursor r).
Proof.
  intros (after & Hc & Hb & _ & Hs). unfold position_at.
  assert (Ht : take (Z.to_nat (byte_cursor r)) text = concat before).
  { rewrite <-(concat_chars text), Hc, concat_app, Hb. unfold len. rewrite Nat2Z.id. apply take_app_length. }
  rewrite Ht, (chars_prefix text before after Hc), Hs. done.
Qed.

Lemma advance_spec text target : ∀ cs before cursor l c cr r,
  resolver_at text before (mkResolver cs cursor l c cr) → cursor <= target →
  advance target cs cursor l c cr = Ok r →
  ∃ before', resolver_at text before' r ∧ byte_cursor r = target.
Proof.
  induction cs as [|[i ch] cs IH]; intros before cursor l c cr r Hr Hle H; cbn [advance] in H.
  all: destruct (Z.ltb_spec cursor target) as [Hlt|Hge]; cbn [negb] in H;
    [|injection H as <-; exists before; split; [done|cbn; lia]].
  { done. }
  destruct Hr as (after & Hc & Hb & Hch & Hs). cbn [byte_cursor characters resolver_line resolver_column previous_was_cr] in *.
  destruct after as [|ch' after]; [done|]. injection Hch as -> -> ->.
  apply result_bind_Ok in H as (_ & _ & H). apply result_bind_Ok in H as (next & [-> _]%ok_or_Ok%checked_add_Some & H).
  apply result_bind_Ok in H as (_ & Hnext%reject_Ok & H). apply Z.ltb_ge in Hnext.
  assert (Hstep : ∀ l' c' cr', scan_char (mkLineColumn l c, cr) ch' = (mkLineColumn l' c', cr') →
    resolver_at text (before ++ [ch']) (mkResolver (char_indices_from (cursor + len ch') after) (cursor + len ch') l' c' cr')).
  { intros l' c' cr' Hsc. exists after. cbn [byte_cursor characters resolver_line resolver_column previous_was_cr].
    split_and!; [by rewrite Hc, <-app_assoc| |done|].
    - rewrite concat_app, len_app. cbn. rewrite app_nil_r. lia.
    - unfold scan in *. rewrite foldl_app, Hs. exact Hsc. }
  unfold scan_char in Hstep. cbn [line column] in Hstep.
  destruct (is_cr ch'); [|destruct (is_lf ch' && cr); [|destruct (is_lf ch' || is_separator ch')]];
    try (apply result_bind_Ok in H as (n & [-> _]%ok_or_Ok%checked_add_Some & H));
    (eapply IH; [apply Hstep; reflexivity|done|done]).
Qed.

Lemma resolve_from_spec text : ∀ targets before r previous acc out,
  resolver_at text before r → byte_cursor r = previous →
  resolve_from text targets r previous acc = Ok out →
  out = acc ++ map (position_at text) targets.
Proof.
  induction targets as [|t targets IH]; intros before r previous acc out Hr Hp H; cbn [resolve_from map] in *.
  { injection H as <-. by rewrite app_nil_r. }
  apply result_bind_Ok in H as (_ & H1%reject_Ok & H). apply result_bind_Ok in H as (r' & H2 & H).
  rewrite !orb_false_iff, !Z.ltb_ge in H1. destruct H1 as [[H1 _] _].
  destruct (advance_spec text t (characters r) before (byte_cursor r) (resolver_line r) (resolver_column r)
    (previous_was_cr r) r' ltac:(destruct r; exact Hr) ltac:(lia) H2) as (before' & Hr' & Hb).
  eapply IH in H; [|exact Hr'|exact Hb]. rewrite H, <-app_assoc, (resolver_position text before' r' Hr'), Hb. done.
Qed.

Lemma resolve_positions_spec `{Allocator} text anchors offset purpose out :
  resolve_positions text anchors offset purpose = Ok out →
  out = map (λ a, position_at text (offset a)) anchors.
Proof.
  unfold resolve_positions. intros Hr. apply result_bind_Ok in Hr as (_ & _ & Hr).
  apply (resolve_from_spec text _ []) in Hr; [by rewrite Hr, map_map| |done].
  exists (chars text). done.
Qed.
