(* ===== verification/SourceMapSpec.v ===== *)
(** * SourceMapSpec: what an emitted source map says

    The anchors of a map against the edits of the plan, and the theorem that the
    document of [emit_source_map] reads as the right table of positions. *)

From S2P Require Import Prelude Text Wire Overlay Transform TransformLaws SourceMap SourceMapLaws.

(** ** Corresponding offsets *)

(** [corresponds goff ooff edits g o]: when the text at [ooff] of the original is
    at [goff] of the generated text and [edits] are still to come, offset [g] of
    the generated text stands for offset [o] of the original: kept text for
    itself, the inside of a replacement for the start of what it replaces. *)
Inductive corresponds : Z → Z → list TextEdit → Z → Z → Prop :=
| corresponds_tail goff ooff k : 0 <= k → corresponds goff ooff [] (goff + k) (ooff + k)
| corresponds_keep goff ooff e es k :
    0 <= k <= start_byte e - ooff → corresponds goff ooff (e :: es) (goff + k) (ooff + k)
| corresponds_inside goff ooff e es k :
    0 <= k < len (replacement e) →
    corresponds goff ooff (e :: es) (goff + (start_byte e - ooff) + k) (start_byte e)
| corresponds_later goff ooff e es g o :
    corresponds (goff + (start_byte e - ooff) + len (replacement e)) (end_byte e) es g o →
    corresponds goff ooff (e :: es) g o.

(** Kept bytes stand for themselves. *)
Lemma corresponds_bytes ooff es source out :
  rewrites ooff es source out → ∀ goff g o, corresponds goff ooff es g o →
  (∃ e, e ∈ es ∧ start_byte e <= o ∧ o = start_byte e) ∨
  (goff <= g ∧ ooff <= o ∧ out !! Z.to_nat (g - goff) = source !! Z.to_nat (o - ooff)).
Proof.
  induction 1 as [off rest|off e es keep old rest out Hs He _ IH]; intros goff g o Hc.
  - inversion Hc as [? ? k Hk| | |]; subst. right. split_and!; [lia|lia|]. f_equal. lia.
  - pose proof (len_nonneg keep). pose proof (len_nonneg old). pose proof (len_nonneg (replacement e)).
    inversion Hc as [|? ? ? ? k Hk|? ? ? ? k Hk|? ? ? ? ? ? Hl]; subst.
    + destruct (decide (k = start_byte e - off)) as [->|Hne].
      { left. exists e. split_and!; [set_solver|lia|lia]. }
      right. split_and!; [lia|lia|]. replace (goff + k - goff) with k by lia. replace (off + k - off) with k by lia.
      unfold len in *. by rewrite !lookup_app_l by lia.
    + left. exists e. split_and!; [set_solver|lia|done].
    + destruct (IH _ _ _ Hl) as [(e' & Hin & He1 & He2)|(Hb1 & Hb2 & Hb3)].
      { left. exists e'. split_and!; [set_solver|done|done]. }
      right. split_and!; [lia|lia|].
      rewrite !app_assoc, !lookup_app_r by (rewrite length_app; unfold len in *; lia).
      rewrite !length_app. unfold len in *.
      replace (Z.to_nat (g - goff) - (length keep + length (replacement e)))%nat
        with (Z.to_nat (g - (goff + (start_byte e - off) + Z.of_nat (length (replacement e))))) by lia.
      replace (Z.to_nat (o - off) - (length keep + length old))%nat with (Z.to_nat (o - end_byte e)) by lia.
      done.
Qed.

(** ** The anchors correspond *)

Lemma edit_places_Ok e n sc gc s t gs ge :
  edit_places e n sc gc = Ok (s, t, gs, ge) →
  s = start_byte e ∧ t = end_byte e ∧ gs = gc + (s - sc) ∧ ge = gs + len (replacement e) ∧ sc <= s <= t.
Proof.
  unfold edit_places. intros H.
  apply result_bind_Ok in H as (s' & [-> _]%edit_offset_Ok & H). apply result_bind_Ok in H as (t' & [-> _]%edit_offset_Ok & H).
  apply result_bind_Ok in H as (_ & H1%reject_Ok & H). rewrite !orb_false_iff, !Z.ltb_ge in H1.
  apply result_bind_Ok in H as (gs' & [-> _]%ok_or_Ok%checked_add_Some & H).
  apply result_bind_Ok in H as (ge' & [-> _]%ok_or_Ok%checked_add_Some & H).
  injection H as <- <- <- <-. split_and!; [done..|lia|lia].
Qed.

(** The loop for a line start finds the original offset, and leaves a state from
    which the later ones are found. *)
Lemma locate_spec g n : ∀ es sc gc o es' sc' gc',
  locate g n es sc gc = Ok (o, (es', sc', gc')) → gc <= g →
  corresponds gc sc es g o ∧ gc' <= g ∧
  (∀ g' o', corresponds gc' sc' es' g' o' → corresponds gc sc es g' o').
Proof.
  induction es as [|e es IH]; intros sc gc o es' sc' gc' H Hg; cbn [locate] in H.
  - apply result_bind_Ok in H as (u & [-> Hu]%ok_or_Ok%checked_sub_Some & H).
    apply result_bind_Ok in H as (o1 & [-> _]%ok_or_Ok%checked_add_Some & H).
    apply result_bind_Ok in H as (_ & _ & H). injection H as <- <- <- <-. split_and!; [|done|done].
    replace g with (gc + (g - gc)) at 1 by lia. apply corresponds_tail. lia.
  - apply result_bind_Ok in H as ([[[s t] gs] ge] & Hp & H).
    apply edit_places_Ok in Hp as (-> & -> & -> & -> & Hle).
    destruct (Z.ltb_spec g (gc + (start_byte e - sc))) as [Hlt|Hge].
    + apply result_bind_Ok in H as (u & [-> Hu]%ok_or_Ok%checked_sub_Some & H).
      apply result_bind_Ok in H as (o1 & [-> _]%ok_or_Ok%checked_add_Some & H).
      injection H as <- <- <- <-. split_and!; [|done|done].
      replace g with (gc + (g - gc)) at 1 by lia. apply corresponds_keep. lia.
    + destruct (Z.ltb_spec g (gc + (start_byte e - sc) + len (replacement e))) as [Hin|Hout].
      * injection H as <- <- <- <-. split_and!; [|done|done].
        replace g with (gc + (start_byte e - sc) + (g - (gc + (start_byte e - sc)))) at 1 by lia.
        apply corresponds_inside. lia.
      * apply IH in H as (H1 & H2 & H3); [|lia]. split_and!; [by apply corresponds_later|done|].
        intros g' o' Hc. by apply corresponds_later, H3.
Qed.

Definition anchors_in (es : list TextEdit) (anchors : list ByteAnchor) : Prop :=
  Forall (λ a, corresponds 0 0 es (generated a) (original a)) anchors.

Lemma line_anchors_spec edits n : ∀ starts es sc gc acc out,
  append_generated_line_anchors starts n (es, sc, gc) acc = Ok out →
  Forall (λ s, gc <= s) starts → StronglySorted Z.le starts →
  (∀ g o, corresponds gc sc es g o → corresponds 0 0 edits g o) → anchors_in edits acc →
  ∃ added, out = acc ++ added ∧ anchors_in edits out ∧ map generated added = starts.
Proof.
  induction starts as [|g starts IH]; intros es sc gc acc out H Hle Hs Hc Hacc; cbn [append_generated_line_anchors] in H.
  { injection H as <-. exists []. by rewrite app_nil_r. }
  apply result_bind_Ok in H as ([o [[es' sc'] gc']] & Hl & H).
  apply Forall_cons in Hle as [Hg Hle]. apply StronglySorted_inv in Hs as [Hs Hall].
  apply locate_spec in Hl as (H1 & H2 & H3); [|done].
  eapply IH in H as (added & -> & Hin & Hm); [| |done| |].
  - exists (mkByteAnchor g o :: added). rewrite <-app_assoc in *. split_and!; [done|done|]. cbn. by rewrite Hm.
  - eapply Forall_impl; [exact Hall|]. cbn. lia.
  - auto.
  - apply Forall_app. split; [done|]. constructor; [|constructor]. cbn. auto.
Qed.

Lemma corresponds_here n es sc gc acc out :
  append_edit_anchors es n sc gc acc = Ok out → corresponds gc sc es gc sc.
Proof.
  destruct es as [|e es]; cbn [append_edit_anchors]; intros H.
  - pose proof (corresponds_tail gc sc 0 ltac:(lia)) as Hc. by rewrite !Z.add_0_r in Hc.
  - apply result_bind_Ok in H as ([[[s t] gs] ge] & Hp & _). apply edit_places_Ok in Hp as (-> & _ & _ & _ & Hle).
    pose proof (corresponds_keep gc sc e es 0 ltac:(lia)) as Hc. by rewrite !Z.add_0_r in Hc.
Qed.

Lemma edit_anchors_spec edits n : ∀ es sc gc acc out,
  append_edit_anchors es n sc gc acc = Ok out →
  (∀ g o, corresponds gc sc es g o → corresponds 0 0 edits g o) → anchors_in edits acc →
  ∃ added, out = acc ++ added ∧ anchors_in edits out ∧
    Forall (λ e, ∃ g, mkByteAnchor g (start_byte e) ∈ added ∧
                      mkByteAnchor (g + len (replacement e)) (end_byte e) ∈ added) es.
Proof.
  induction es as [|e es IH]; intros sc gc acc out H Hc Hacc; cbn [append_edit_anchors] in H.
  { injection H as <-. exists []. by rewrite app_nil_r. }
  apply result_bind_Ok in H as ([[[s t] gs] ge] & Hp & H).
  apply edit_places_Ok in Hp as (-> & -> & -> & -> & Hle).
  pose proof (corresponds_here _ _ _ _ _ _ H) as Hhere.
  eapply IH in H as (added & -> & Hin & Hm).
  - eexists. rewrite <-app_assoc in *. split_and!; [reflexivity|done|]. constructor.
    + exists (gc + (start_byte e - sc)). set_solver.
    + eapply Forall_impl; [exact Hm|]. cbn. set_solver.
  - intros g o Hg. by apply Hc, corresponds_later.
  - apply Forall_app. split; [done|]. repeat constructor; cbn; apply Hc; [|by apply corresponds_later].
    replace (start_byte e) with (sc + (start_byte e - sc)) at 2 by lia. apply corresponds_keep. lia.
Qed.

(** ** The line starts *)

(** [starts] after the characters [before]: one offset per line, each the place
    where that line begins. *)
Definition starts_at (text : str) (before : list str) (cr : bool) (starts : list Z) : Prop :=
  (scan before).2 = cr ∧ len starts = line (scan before).1 + 1 ∧
  StronglySorted Z.le starts ∧ Forall (λ s, 0 <= s <= len (concat before)) starts ∧
  ∀ i s, starts !! i = Some s → position_at text s = mkLineColumn (Z.of_nat i) 0.

Lemma position_at_prefix text before after :
  chars text = before ++ after → position_at text (len (concat before)) = (scan before).1.
Proof.
  intros H. unfold position_at, len. rewrite Nat2Z.id, <-(concat_chars text), H, concat_app, take_app_length.
  by rewrite (chars_prefix text before after H).
Qed.

Lemma starts_at_snoc text before c after starts kept l cr :
  chars text = before ++ c :: after →
  starts_at text before (scan before).2 starts → kept `prefix_of` starts →
  scan (before ++ [c]) = (mkLineColumn l 0, cr) → len kept = l →
  starts_at text (before ++ [c]) cr (kept ++ [len (concat before) + len c]).
Proof.
  intros Hc (_ & _ & Hs & Hr & Hp) [tl ->] Hscan Hlen.
  assert (Hb : len (concat (before ++ [c])) = len (concat before) + len c)
    by (rewrite concat_app, len_app; cbn; by rewrite app_nil_r).
  pose proof (len_nonneg c). pose proof (len_nonneg (concat before)).
  apply Forall_app in Hr as [Hr _]. apply StronglySorted_app in Hs as (_ & Hs & _).
  split_and!; [by rewrite Hscan|rewrite Hscan, len_app, Hlen; done| | |].
  - apply StronglySorted_app. split_and!; [|done|repeat constructor].
    intros x1 x2 Hx1 Hx2%list_elem_of_singleton. subst x2. rewrite Forall_forall in Hr. specialize (Hr _ Hx1). lia.
  - rewrite Hb. apply Forall_app. split; [eapply Forall_impl; [exact Hr|]; cbn; lia|]. constructor; [lia|constructor].
  - intros i s Hi. apply lookup_app_Some in Hi as [Hi|[Hge Hi]].
    + apply Hp. by apply lookup_app_l_Some.
    + apply list_lookup_singleton_Some in Hi as [Hi <-]. rewrite <-Hb.
      rewrite (position_at_prefix text (before ++ [c]) after) by (by rewrite <-app_assoc).
      rewrite Hscan. cbn. f_equal. unfold len in Hlen. lia.
Qed.

Lemma collect_from_spec text : ∀ after before cr starts out,
  chars text = before ++ after → starts_at text before cr starts →
  collect_from (char_indices_from (len (concat before)) after) starts cr = Ok out →
  ∃ cr', starts_at text (chars text) cr' out.
Proof.
  induction after as [|c after IH]; intros before cr starts out Hc Hst H; cbn [char_indices_from collect_from] in H.
  { injection H as <-. rewrite app_nil_r in Hc. rewrite Hc. eauto. }
  assert (Hc' : chars text = (before ++ [c]) ++ after) by (by rewrite <-app_assoc).
  assert (Hb : len (concat before) + len c = len (concat (before ++ [c])))
    by (rewrite concat_app, len_app; cbn; by rewrite app_nil_r).
  pose proof Hst as (Hcr & Hlen & _). subst cr.
  assert (Hscan : scan (before ++ [c]) = scan_char (scan before) c) by (unfold scan; by rewrite foldl_app).
  destruct (scan before) as [[l col] cr] eqn:Hsb. unfold scan_char in Hscan. cbn [line column fst snd] in *.
  destruct (is_cr c).
  { apply result_bind_Ok in H as (s & [-> _]%ok_or_Ok%checked_add_Some & H). rewrite Hb in H.
    eapply IH in H; [done|done|]. rewrite <-Hb.
    eapply starts_at_snoc; [done|by rewrite Hsb|reflexivity|exact Hscan|lia]. }
  destruct (is_lf c && cr).
  { apply result_bind_Ok in H as (_ & Hne%reject_Ok%bool_decide_eq_false & H).
    apply result_bind_Ok in H as (s & [-> _]%ok_or_Ok%checked_add_Some & H). rewrite Hb in H.
    eapply IH in H; [done|done|]. rewrite <-Hb.
    pose proof (app_removelast_last 0 Hne) as Hrl.
    eapply starts_at_snoc; [done|by rewrite Hsb|by eexists|exact Hscan|]. rewrite Hrl, len_app in Hlen. unfold len in *. cbn in Hlen. lia. }
  destruct (is_lf c || is_separator c).
  { apply result_bind_Ok in H as (s & [-> _]%ok_or_Ok%checked_add_Some & H). rewrite Hb in H.
    eapply IH in H; [done|done|]. rewrite <-Hb.
    eapply starts_at_snoc; [done|by rewrite Hsb|reflexivity|exact Hscan|lia]. }
  rewrite Hb in H. eapply IH in H; [done|done|].
  destruct Hst as (_ & _ & Hs & Hr & Hp). split_and!; [by rewrite Hscan|rewrite Hscan; cbn; lia|done| |done].
  eapply Forall_impl; [exact Hr|]. cbn. rewrite <-Hb. pose proof (len_nonneg c). lia.
Qed.

Lemma collect_line_starts_spec `{Allocator} text count starts :
  collect_line_starts text count = Ok starts →
  StronglySorted Z.le starts ∧ Forall (λ s, 0 <= s) starts ∧ len starts = line (position_at text (len text)) + 1 ∧
  ∀ i s, starts !! i = Some s → position_at text s = mkLineColumn (Z.of_nat i) 0.
Proof.
  unfold collect_line_starts. intros Hc. apply result_bind_Ok in Hc as (_ & _ & Hc).
  apply result_bind_Ok in Hc as (s & Hs & Hc). apply result_bind_Ok in Hc as (_ & _ & Hc). injection Hc as ->.
  apply (collect_from_spec text (chars text) []) in Hs as (cr & _ & Hl & Ho & Hr & Hp); [|done|].
  - split_and!; [done| |rewrite Hl|done].
    + eapply Forall_impl; [exact Hr|]. cbn. lia.
    + rewrite <-(position_at_prefix text (chars text) []) by (by rewrite app_nil_r). by rewrite concat_chars.
  - split_and!; [done|done|by apply SSorted_cons; [apply SSorted_nil|]|by apply Forall_singleton|].
    intros [|i] x Hx; [|done]. injection Hx as <-. done.
Qed.

(** ** Sorted anchors *)

Definition anchor_order : ByteAnchor → ByteAnchor → Prop := λ a b, Is_true (anchor_le a b).

Lemma anchor_order_spec a b :
  anchor_order a b ↔ generated a < generated b ∨ (generated a = generated b ∧ original a <= original b).
Proof.
  unfold anchor_order, anchor_le. rewrite Is_true_true, orb_true_iff, andb_true_iff, Z.ltb_lt, Z.eqb_eq, Z.leb_le. done.
Qed.

#[local] Instance anchor_order_total : Total anchor_order.
Proof. intros a b. rewrite !anchor_order_spec. lia. Qed.

Lemma elem_of_dedup a l : a ∈ dedup l ↔ a ∈ l.
Proof.
  induction l as [|x [|y l] IH]; [done..|]. cbn [dedup]. cbn [dedup] in IH.
  case_bool_decide as Hxy; [subst y|]; rewrite ?elem_of_cons in *; rewrite IH; tauto.
Qed.

Lemma dedup_head x l : ∃ l', dedup (x :: l) = x :: l'.
Proof.
  revert x. induction l as [|y l IH]; intros x; [eexists; reflexivity|]. cbn [dedup].
  case_bool_decide as Hxy; [subst y; apply IH|eauto].
Qed.

(** Without ambiguity, the anchors strictly advance in the generated text. *)
Lemma dedup_strict l :
  Sorted anchor_order l → check_ambiguous (dedup l) = Ok tt →
  Sorted (λ a b, generated a < generated b) (dedup l).
Proof.
  induction l as [|x [|y l] IH]; [by constructor|by repeat constructor|]. intros Hs Hc.
  apply Sorted_inv in Hs as [Hs Hxy]. apply HdRel_inv, anchor_order_spec in Hxy.
  change (dedup (x :: y :: l)) with (if bool_decide (x = y) then dedup (y :: l) else x :: dedup (y :: l)) in *.
  case_bool_decide as Heq; [by apply IH|]. destruct (dedup_head y l) as [l' Hl]. rewrite Hl in *.
  cbn [check_ambiguous] in Hc. apply result_bind_Ok in Hc as (_ & Ha%reject_Ok & Hc).
  apply Sorted_cons; [by apply IH|]. constructor. destruct Hxy as [|[Hg Ho]]; [done|].
  exfalso. apply Heq. rewrite (proj2 (Z.eqb_eq _ _) Hg) in Ha. cbn in Ha. apply negb_false_iff, Z.eqb_eq in Ha.
  destruct x, y; cbn in *; congruence.
Qed.

(** ** The document *)

Definition map_document `{Sha256} (transformed : EmittedTransformedSource) (mappings : bytes) : bytes :=
  let plan := emitted_plan transformed in
  MAP_PREFIX ++ unit_id (plan_source plan) ++ MAP_MAPPINGS ++ mappings ++ MAP_EXTENSION ++ rule_id plan ++
  MAP_RULE_DIGEST ++ digest_text (plan_rule_digest plan) ++ MAP_SOURCE_DIGEST ++
  digest_text (source_digest (plan_source plan)) ++ MAP_TRANSFORMED_DIGEST ++
  digest_text (emitted_source_digest transformed) ++ MAP_SUFFIX.

(** The table a map stands for. *)
Definition positions_of (out source : bytes) (anchors : list ByteAnchor) : list (LineColumn * LineColumn) :=
  map (λ a, (position_at out (generated a), position_at source (original a))) anchors.

Definition segments_of (out source : bytes) (anchors : list ByteAnchor) : list Segment :=
  map segment_of (positions_of out source anchors).

Lemma zip_map_positions out source anchors :
  zip (map (λ a, position_at out (generated a)) anchors) (map (λ a, position_at source (original a)) anchors) =
  positions_of out source anchors.
Proof. unfold positions_of. induction anchors as [|a l IH]; cbn; [done|by rewrite IH]. Qed.

Lemma append_mappings_spec out source anchors acc res :
  append_mappings acc (map (λ a, position_at out (generated a)) anchors)
    (map (λ a, position_at source (original a)) anchors) = Ok res →
  ∃ w, res = acc ++ w ∧ decode_mappings w = Some (segments_of out source anchors).
Proof.
  unfold append_mappings. intros Hm. apply result_bind_Ok in Hm as (_ & _ & Hm). rewrite zip_map_positions in Hm.
  destruct (mappings_spec (positions_of out source anchors) mapping_cursor_new) as [(w & Hw & Hr & _)|(e & He & _)].
  - rewrite Hw in Hm. injection Hm as <-. exists w. split; [done|]. unfold segments_of. apply (Hr (S (length w))). lia.
  - by rewrite He in Hm.
Qed.

(** What the anchors of a map are. *)
Definition anchors_ok (edits : list TextEdit) (out : bytes) (anchors : list ByteAnchor) : Prop :=
  anchors_in edits anchors ∧ Sorted (λ a b, generated a < generated b) anchors ∧
  (∀ i, 0 <= i <= line (position_at out (len out)) →
    ∃ a, a ∈ anchors ∧ position_at out (generated a) = mkLineColumn i 0) ∧
  Forall (λ e, ∃ g, mkByteAnchor g (start_byte e) ∈ anchors ∧
                    mkByteAnchor (g + len (replacement e)) (end_byte e) ∈ anchors) edits.

Lemma anchors_spec `{Allocator} edits out count n starts line_anchors anchors :
  collect_line_starts out count = Ok starts →
  append_generated_line_anchors starts n (edits, 0, 0) [] = Ok line_anchors →
  append_edit_anchors edits n 0 0 line_anchors = Ok anchors →
  check_ambiguous (dedup (merge_sort anchor_order anchors)) = Ok tt →
  anchors_ok edits out (dedup (merge_sort anchor_order anchors)).
Proof.
  intros (Hss & Hnn & Hcount & Hpos)%collect_line_starts_spec Hl He Hamb.
  apply (line_anchors_spec edits) in Hl as (added & Hla & Hin & Hgen); [|done|done|done|constructor].
  apply (edit_anchors_spec edits) in He as (added' & -> & Hin' & Hed); [|done|done].
  cbn [app] in Hla. subst added.
  assert (Hperm : ∀ a, a ∈ dedup (merge_sort anchor_order (line_anchors ++ added')) ↔ a ∈ line_anchors ∨ a ∈ added').
  { intros a. by rewrite elem_of_dedup, merge_sort_Permutation, elem_of_app. }
  split_and!.
  - apply Forall_forall. intros a Ha%Hperm. unfold anchors_in in Hin'. rewrite Forall_forall in Hin'.
    apply Hin'. by apply elem_of_app.
  - apply dedup_strict; [|done]. apply Sorted_merge_sort, _.
  - intros i Hi. destruct (lookup_lt_is_Some_2 starts (Z.to_nat i)) as [s Hs]; [unfold len in Hcount, Hi; lia|].
    pose proof (Hpos _ _ Hs) as Hp. rewrite Z2Nat.id in Hp by lia.
    apply list_elem_of_lookup_2 in Hs. rewrite <-Hgen in Hs. apply list_elem_of_In, in_map_iff in Hs as (a & <- & Ha).
    exists a. split; [apply Hperm; left; by apply list_elem_of_In|done].
  - eapply Forall_impl; [exact Hed|]. intros e (g & H1 & H2). exists g. rewrite !Hperm. auto.
Qed.


(** The length computed before allocation is the length written. *)
Lemma mappings_length_exact generated original n :
  mappings_length generated original = Ok n →
  ∃ w, len w = n ∧ ∀ acc, append_mappings acc generated original = Ok (acc ++ w).
Proof.
  unfold mappings_length, append_mappings. intros Hm. apply result_bind_Ok in Hm as (u & Hr & Hm). rewrite Hr. cbn [result_bind].
  destruct (mappings_spec (zip generated original) mapping_cursor_new) as [(w & Hw & _ & Hl)|(e & _ & Hl)].
  - destruct (proj1 (Hl _ _) Hm) as [Hn _]. exists w. split; [lia|]. intros acc. apply Hw.
  - by apply Hl in Hm.
Qed.

(** ** A sample map *)

Module SampleMap.
Import Sample.
#[local] Existing Instance sample_sha256.
#[local] Existing Instance sample_allocator.

Definition the_mapping : SourceMapLimits := mkSourceMapLimits 100 100 100 1000.
(** Two lines and one edit: four anchors. *)
Definition mappings : bytes := lit "AAAA,OAAO,IAAG;AACV".
Definition sample_map : EmittedSourceMap :=
  mkEmittedSourceMap the_transformed (map_document the_transformed mappings) (digest (map_document the_transformed mappings)) 4.

End SampleMap.
