(* ===== verification/Bundle.v ===== *)
(** * Bundle: assembling and verifying transform artifacts

    Models [crates/weregopher-transform/src/bundle.rs] (the canonical audit
    record and the bundle of the five artifacts of a rule) and the artifact
    verification of [crates/weregopher-transform/src/lib.rs].

    [hex] is the parameter [hex_encode]. *)

From S2P Require Import Prelude Text Wire Overlay Transform SourceMap.

(** ** Artifacts *)

Inductive TransformArtifactKind : Type :=
| Artifact_Source
| Artifact_MatchEvidence
| Artifact_TransformedSource
| Artifact_SourceMap
| Artifact_AuditLog.

Record TransformArtifactBytes : Type := mkTransformArtifactBytes {
  artifact_source : bytes;
  artifact_match_evidence : bytes;
  artifact_transformed_source : bytes;
  artifact_source_map : bytes;
  artifact_audit_log : bytes
}.

(** ** Assembly *)

Definition AUDIT_PREFIX : bytes :=
  json "{'format_version':'1','operation':'static_import_rewrite','rule_id':'".
Definition AUDIT_RULE_DIGEST : bytes := json "','rule_digest':'".
Definition AUDIT_SOURCE : bytes := json "','source':{'unit_id':'".
Definition AUDIT_SOURCE_DIGEST : bytes := json "','source_digest':'".
Definition AUDIT_MATCH_EVIDENCE : bytes := json "'},'artifacts':{'match_evidence_digest':'".
Definition AUDIT_TRANSFORMED_SOURCE : bytes := json "','transformed_source_digest':'".
Definition AUDIT_SOURCE_MAP : bytes := json "','source_map_digest':'".
Definition AUDIT_EDIT_COUNT : bytes := json "'},'edit_count':".
Definition AUDIT_SUFFIX : bytes := lit "}".

Inductive TransformBundleError : Type :=
| Bundle_InvalidLimits
| Bundle_SourceTooLarge (actual_bytes max_bytes : Z)
| Bundle_ArtifactPlanMismatch
| Bundle_SourceMapLineageMismatch
| Bundle_SourceDigestMismatch
| Bundle_AuditLengthOverflow
| Bundle_AuditLogTooLarge (actual_bytes max_bytes : Z)
| Bundle_AggregateLengthOverflow
| Bundle_AggregateTooLarge (actual_bytes max_bytes : Z)
| Bundle_AllocationFailed (requested_bytes : Z)
| Bundle_AuditLengthMismatch (expected_bytes actual_bytes : Z).

Record TransformBundleLimits : Type := mkTransformBundleLimits {
  bundle_source : Z;
  bundle_audit_log : Z;
  bundle_aggregate : Z
}.

Definition bundle_limits_new (max_source_bytes max_audit_log_bytes max_aggregate_bytes : Z) :
    result TransformBundleLimits TransformBundleError :=
  do? reject ((max_source_bytes =? 0) || (max_audit_log_bytes =? 0) || (max_aggregate_bytes =? 0))
    Bundle_InvalidLimits in
  Ok (mkTransformBundleLimits max_source_bytes max_audit_log_bytes max_aggregate_bytes).

Record EmittedTransformArtifactBundle : Type := mkEmittedTransformArtifactBundle {
  bundled_source : bytes;
  bundled_transformed_source : EmittedTransformedSource;
  bundled_match_evidence : EmittedMatchEvidence;
  bundled_source_map : EmittedSourceMap;
  audit_log : bytes;
  bundled_audit_log_digest : Sha256Digest;
  bundle_rebinding : TransformRebinding;
  total_bytes : Z
}.

Definition artifacts (self : EmittedTransformArtifactBundle) : TransformArtifactBytes :=
  mkTransformArtifactBytes (bundled_source self) (evidence_bytes (bundled_match_evidence self))
    (transformed_source (bundled_transformed_source self)) (map_bytes (bundled_source_map self))
    (audit_log self).

Definition audit_length (rule_id_length source_unit_id_length edit_count_length : Z) :
    result Z TransformBundleError :=
  ok_or (checked_sum
    [len AUDIT_PREFIX; len AUDIT_RULE_DIGEST; len AUDIT_SOURCE; len AUDIT_SOURCE_DIGEST;
     len AUDIT_MATCH_EVIDENCE; len AUDIT_TRANSFORMED_SOURCE; len AUDIT_SOURCE_MAP;
     len AUDIT_EDIT_COUNT; len AUDIT_SUFFIX; rule_id_length; source_unit_id_length;
     DIGEST_TEXT_LENGTH; DIGEST_TEXT_LENGTH; DIGEST_TEXT_LENGTH; DIGEST_TEXT_LENGTH;
     DIGEST_TEXT_LENGTH; edit_count_length] 0) Bundle_AuditLengthOverflow.

Definition aggregate_length (source match_evidence transformed_source source_map audit_log : Z) :
    result Z TransformBundleError :=
  ok_or (checked_sum [source; match_evidence; transformed_source; source_map; audit_log] 0)
    Bundle_AggregateLengthOverflow.

Section Assembly.
Context `{Sha256, Allocator} (hex_encode : bytes → str).

(** The audit record, in the order it is appended. *)
Definition audit_record (plan : TransformPlan) (transformed_source : EmittedTransformedSource)
    (match_evidence : EmittedMatchEvidence) (source_map : EmittedSourceMap) : bytes :=
  AUDIT_PREFIX ++ rule_id plan ++
  AUDIT_RULE_DIGEST ++ canonical_digest_text hex_encode (plan_rule_digest plan) ++
  AUDIT_SOURCE ++ unit_id (plan_source plan) ++
  AUDIT_SOURCE_DIGEST ++ canonical_digest_text hex_encode (source_digest (plan_source plan)) ++
  AUDIT_MATCH_EVIDENCE ++ canonical_digest_text hex_encode (evidence_digest match_evidence) ++
  AUDIT_TRANSFORMED_SOURCE ++ canonical_digest_text hex_encode (emitted_source_digest transformed_source) ++
  AUDIT_SOURCE_MAP ++ canonical_digest_text hex_encode (map_digest source_map) ++
  AUDIT_EDIT_COUNT ++ usize_to_string (len (edits plan)) ++ AUDIT_SUFFIX.

Definition assemble_transform_artifacts (source : bytes)
    (transformed : EmittedTransformedSource) (match_evidence : EmittedMatchEvidence)
    (source_map : EmittedSourceMap) (limits : TransformBundleLimits) :
    result EmittedTransformArtifactBundle TransformBundleError :=
  do? reject (bundle_source limits <? len source)
    (Bundle_SourceTooLarge (len source) (bundle_source limits)) in
  let plan := emitted_plan transformed in
  do? reject (negb (bool_decide (plan = evidence_plan match_evidence))) Bundle_ArtifactPlanMismatch in
  do? reject (negb (bool_decide (map_transformed_source source_map = transformed)))
    Bundle_SourceMapLineageMismatch in
  do? reject (negb (bool_decide (digest source = source_digest (plan_source plan))))
    Bundle_SourceDigestMismatch in
  let edit_count_length := decimal_length (len (edits plan)) in
  let? audit_length := audit_length (len (rule_id plan)) (len (unit_id (plan_source plan)))
    edit_count_length in
  do? reject (bundle_audit_log limits <? audit_length)
    (Bundle_AuditLogTooLarge audit_length (bundle_audit_log limits)) in
  let? total_bytes := aggregate_length (len source) (len (evidence_bytes match_evidence))
    (len (transformed_source transformed)) (len (map_bytes source_map)) audit_length in
  do? reject (bundle_aggregate limits <? total_bytes)
    (Bundle_AggregateTooLarge total_bytes (bundle_aggregate limits)) in
  do? reject (negb (try_reserve audit_length)) (Bundle_AllocationFailed audit_length) in
  let audit_log := audit_record plan transformed match_evidence source_map in
  do? reject (negb (len audit_log =? audit_length))
    (Bundle_AuditLengthMismatch audit_length (len audit_log)) in
  let rebinding := mkTransformRebinding (plan_rule_digest plan) (plan_source plan)
    (evidence_digest match_evidence) (emitted_source_digest transformed) (map_digest source_map)
    (digest audit_log) in
  Ok (mkEmittedTransformArtifactBundle source transformed match_evidence source_map audit_log
        (digest audit_log) rebinding total_bytes).
End Assembly.

(** ** Verification *)

Inductive TransformArtifactError : Type :=
| Artifacts_InvalidLimits
| MissingArtifactBundle (rule_id : TransformRuleId)
| UnexpectedArtifactBundle (rule_id : TransformRuleId)
| DigestMismatch (rule_id : TransformRuleId) (artifact : TransformArtifactKind)
| ArtifactTooLarge (rule_id : TransformRuleId) (artifact : TransformArtifactKind)
    (actual_bytes max_bytes : Z)
| TotalBytesExceeded (actual_bytes max_bytes : Z).

Record ArtifactByteLimits : Type := mkArtifactByteLimits {
  limit_source : Z;
  limit_match_evidence : Z;
  limit_transformed_source : Z;
  limit_source_map : Z;
  limit_audit_log : Z
}.

Record TransformArtifactLimits : Type := mkTransformArtifactLimits {
  per_artifact : ArtifactByteLimits;
  aggregate : Z
}.

Definition artifact_limits_new (max_source_bytes max_match_evidence_bytes
    max_transformed_source_bytes max_source_map_bytes max_audit_log_bytes max_total_bytes : Z) :
    result TransformArtifactLimits TransformArtifactError :=
  do? reject ((max_source_bytes =? 0) || (max_match_evidence_bytes =? 0) ||
              (max_transformed_source_bytes =? 0) || (max_source_map_bytes =? 0) ||
              (max_audit_log_bytes =? 0) || (max_total_bytes =? 0)) Artifacts_InvalidLimits in
  Ok (mkTransformArtifactLimits
        (mkArtifactByteLimits max_source_bytes max_match_evidence_bytes max_transformed_source_bytes
           max_source_map_bytes max_audit_log_bytes) max_total_bytes).

Record VerifiedTransformArtifacts : Type := mkVerifiedTransformArtifacts {
  structural_validation : StructurallyValidatedTransformOverlay;
  verified_artifacts : gmap TransformRuleId TransformArtifactBytes
}.

Definition bounded_artifacts (bs : TransformArtifactBytes) (limits : TransformArtifactLimits) :
    list (TransformArtifactKind * bytes * Z) :=
  [(Artifact_Source, artifact_source bs, limit_source (per_artifact limits));
   (Artifact_MatchEvidence, artifact_match_evidence bs, limit_match_evidence (per_artifact limits));
   (Artifact_TransformedSource, artifact_transformed_source bs,
     limit_transformed_source (per_artifact limits));
   (Artifact_SourceMap, artifact_source_map bs, limit_source_map (per_artifact limits));
   (Artifact_AuditLog, artifact_audit_log bs, limit_audit_log (per_artifact limits))].

(** The array of the last loop. *)
Definition expected_artifacts (bs : TransformArtifactBytes) (rebinding : TransformRebinding) :
    list (TransformArtifactKind * bytes * Sha256Digest) :=
  [(Artifact_Source, artifact_source bs, source_digest (rebinding_source rebinding));
   (Artifact_MatchEvidence, artifact_match_evidence bs, match_evidence_digest rebinding);
   (Artifact_TransformedSource, artifact_transformed_source bs, transformed_source_digest rebinding);
   (Artifact_SourceMap, artifact_source_map bs, source_map_digest rebinding);
   (Artifact_AuditLog, artifact_audit_log bs, audit_log_digest rebinding)].

(** The two loops over keys: every key of [keys] is in [m]. *)
Fixpoint check_keys {V} (keys : list TransformRuleId) (m : gmap TransformRuleId V)
    (e : TransformRuleId → TransformArtifactError) : result unit TransformArtifactError :=
  match keys with
  | [] => Ok tt
  | rule_id :: keys =>
    do? reject (negb (bool_decide (is_Some (m !! rule_id)))) (e rule_id) in
    check_keys keys m e
  end.

Fixpoint check_sizes (rule_id : TransformRuleId) (bounded : list (TransformArtifactKind * bytes * Z))
    (max_total total_bytes : Z) : result Z TransformArtifactError :=
  match bounded with
  | [] => Ok total_bytes
  | (kind, actual, max_bytes) :: bounded =>
    do? reject (max_bytes <? len actual) (ArtifactTooLarge rule_id kind (len actual) max_bytes) in
    let? total_bytes := ok_or (checked_add usize_max total_bytes (len actual))
      (TotalBytesExceeded usize_max max_total) in
    check_sizes rule_id bounded max_total total_bytes
  end.

Fixpoint check_all_sizes (artifacts : list (TransformRuleId * TransformArtifactBytes))
    (limits : TransformArtifactLimits) (total_bytes : Z) : result Z TransformArtifactError :=
  match artifacts with
  | [] => Ok total_bytes
  | (rule_id, bs) :: artifacts =>
    let? total_bytes := check_sizes rule_id (bounded_artifacts bs limits) (aggregate limits)
      total_bytes in
    check_all_sizes artifacts limits total_bytes
  end.

Fixpoint check_digests `{Sha256} (rule_id : TransformRuleId)
    (expected : list (TransformArtifactKind * bytes * Sha256Digest)) : result unit TransformArtifactError :=
  match expected with
  | [] => Ok tt
  | (kind, actual, d) :: expected =>
    do? reject (negb (bool_decide (digest actual = d))) (DigestMismatch rule_id kind) in
    check_digests rule_id expected
  end.

Fixpoint check_all_digests `{Sha256} (rebindings : list (TransformRuleId * TransformRebinding))
    (artifacts : gmap TransformRuleId TransformArtifactBytes) : result unit TransformArtifactError :=
  match rebindings with
  | [] => Ok tt
  | (rule_id, rebinding) :: rebindings =>
    let? bs := ok_or (artifacts !! rule_id) (MissingArtifactBundle rule_id) in
    do? check_digests rule_id (expected_artifacts bs rebinding) in
    check_all_digests rebindings artifacts
  end.

Definition verify_transform_artifacts `{Sha256}
    (structural_validation : StructurallyValidatedTransformOverlay)
    (artifacts : gmap TransformRuleId TransformArtifactBytes) (limits : TransformArtifactLimits) :
    result VerifiedTransformArtifacts TransformArtifactError :=
  let overlay := validated_overlay structural_validation in
  do? check_keys (btree_iter str_le (rebindings overlay)).*1 artifacts MissingArtifactBundle in
  do? check_keys (btree_iter str_le artifacts).*1 (rebindings overlay) UnexpectedArtifactBundle in
  let? total_bytes := check_all_sizes (btree_iter str_le artifacts) limits 0 in
  do? reject (aggregate limits <? total_bytes) (TotalBytesExceeded total_bytes (aggregate limits)) in
  do? check_all_digests (btree_iter str_le (rebindings overlay)) artifacts in
  Ok (mkVerifiedTransformArtifacts structural_validation artifacts).
