(* ===== verification/BundleLaws.v ===== *)
(** * BundleLaws: what assembly produces, verification accepts

    The exact outcome of structural validation, of artifact verification and of
    assembly, and their composition: the bundles assembled for the rules of an
    overlay verify against it. *)

From S2P Require Import Prelude Text Wire Overlay Transform TransformLaws SourceMap SourceMapLaws SourceMapSpec Bundle.

(** ** Structural validation *)

Section Structure.
Context `{HS : Sha256} (hex_encode : bytes → str).

Lemma validate_rebindings_Ok authority l :
  validate_rebindings authority l = Ok tt ↔
  ∀ id r, (id, r) ∈ l → ∃ rule, rules authority !! id = Some rule ∧ authorized_rule_digest rule = rebinding_rule_digest r.
Proof.
  induction l as [|[id r] l IH]; cbn [validate_rebindings].
  { split; [intros _ id r H%elem_of_nil; done|done]. }
  rewrite result_bind_Ok. setoid_rewrite ok_or_Ok. setoid_rewrite result_bind_Ok. split.
  - intros (rule & Hrule & u & Hd%reject_Ok & Hl) id' r' [Heq|Hin]%elem_of_cons.
    + injection Heq as -> ->. apply negb_false_iff, bool_decide_eq_true in Hd. eauto.
    + by apply IH.
  - intros H. destruct (H id r) as (rule & Hrule & Hd); [set_solver|]. exists rule. split; [done|]. exists tt.
    rewrite bool_decide_eq_true_2 by done. split; [done|]. apply IH. intros id' r' Hin. apply H. set_solver.
Qed.

(** The overlay names the build, the descriptor and the authority, and every
    rule it rebinds is authorised with the digest it carries. *)
Definition overlay_authorised (overlay : GeneratedTransformOverlay) (authority : AdapterTransformAuthority)
    (fingerprint descriptor : Sha256Digest) : Prop :=
  source_build_fingerprint_digest (binding overlay) = fingerprint ∧
  build_descriptor_digest (binding overlay) = descriptor ∧
  binding_adapter_id (binding overlay) = authority_adapter_id authority ∧
  binding_family (binding overlay) = authority_family authority ∧
  binding_adapter_content_digest (binding overlay) = authority_adapter_content_digest authority ∧
  adapter_transform_authority_digest (binding overlay) = canonical_document_digest hex_encode authority ∧
  ∀ id r, rebindings overlay !! id = Some r →
    ∃ rule, rules authority !! id = Some rule ∧ authorized_rule_digest rule = rebinding_rule_digest r.

Lemma validate_against_accepts overlay authority fingerprint descriptor :
  overlay_authorised overlay authority fingerprint descriptor →
  validate_against hex_encode overlay authority fingerprint descriptor = Ok (mkStructurallyValidated overlay authority).
Proof.
  intros (H1 & H2 & H3 & H4 & H5 & H6 & H7). unfold validate_against. rewrite !bool_decide_eq_true_2 by done.
  cbn [negb orb reject result_bind]. rewrite (proj2 (validate_rebindings_Ok _ _)); [done|].
  intros id r Hin%elem_of_btree_iter. by apply H7.
Qed.

(** validation accepts an overlay exactly when it names the expected build
    and descriptor, the adapter, family and content of the authority and the
    digest of the authority's canonical document, and when every rule it rebinds
    is authorised with the digest it carries. *)
Theorem validate_against_exact overlay authority fingerprint descriptor v :
  validate_against hex_encode overlay authority fingerprint descriptor = Ok v ↔
  overlay_authorised overlay authority fingerprint descriptor ∧ v = mkStructurallyValidated overlay authority.
Proof.
  split; [|intros [H ->]; by apply validate_against_accepts]. unfold validate_against, overlay_authorised. intros H.
  apply result_bind_Ok in H as (_ & H1%reject_Ok & H). apply result_bind_Ok in H as (_ & H2%reject_Ok & H).
  apply result_bind_Ok in H as (_ & H3%reject_Ok & H). apply result_bind_Ok in H as (_ & H4%reject_Ok & H).
  apply result_bind_Ok in H as ([] & H5 & [= <-]). rewrite !orb_false_iff in H3.
  rewrite !negb_false_iff, !bool_decide_eq_true in *. destruct_and!. split_and!; try done.
  intros id r Hr. apply (proj1 (validate_rebindings_Ok _ _) H5). by apply elem_of_btree_iter.
Qed.
End Structure.

(** ** Artifact verification *)

(** The five artifacts have the digests of the rebinding. *)
Definition artifacts_match `{Sha256} (bs : TransformArtifactBytes) (r : TransformRebinding) : Prop :=
  digest (artifact_source bs) = source_digest (rebinding_source r) ∧
  digest (artifact_match_evidence bs) = match_evidence_digest r ∧
  digest (artifact_transformed_source bs) = transformed_source_digest r ∧
  digest (artifact_source_map bs) = source_map_digest r ∧
  digest (artifact_audit_log bs) = audit_log_digest r.

Definition artifacts_within (bs : TransformArtifactBytes) (limits : TransformArtifactLimits) : Prop :=
  len (artifact_source bs) <= limit_source (per_artifact limits) ∧
  len (artifact_match_evidence bs) <= limit_match_evidence (per_artifact limits) ∧
  len (artifact_transformed_source bs) <= limit_transformed_source (per_artifact limits) ∧
  len (artifact_source_map bs) <= limit_source_map (per_artifact limits) ∧
  len (artifact_audit_log bs) <= limit_audit_log (per_artifact limits).

Definition artifact_total (bs : TransformArtifactBytes) : Z :=
  len (artifact_source bs) + len (artifact_match_evidence bs) + len (artifact_transformed_source bs) +
  len (artifact_source_map bs) + len (artifact_audit_log bs).

Definition artifacts_total (l : list (TransformRuleId * TransformArtifactBytes)) : Z :=
  sum_lengths (map (λ p, artifact_total p.2) l).

Lemma artifact_total_nonneg bs : 0 <= artifact_total bs.
Proof. unfold artifact_total, len. lia. Qed.

Lemma artifacts_total_nonneg l : 0 <= artifacts_total l.
Proof. apply sum_lengths_nonneg, Forall_map, Forall_true. intros p. apply artifact_total_nonneg. Qed.

Lemma check_keys_Ok {V} (keys : list TransformRuleId) (m : gmap TransformRuleId V) e :
  check_keys keys m e = Ok tt ↔ ∀ id, id ∈ keys → is_Some (m !! id).
Proof.
  induction keys as [|k keys IH]; cbn [check_keys].
  { split; [intros _ id H%elem_of_nil; done|done]. }
  rewrite result_bind_Ok. split.
  - intros (u & Hk%reject_Ok & Hl) id [->|Hin]%elem_of_cons; [by apply negb_false_iff, bool_decide_eq_true in Hk|by apply IH].
  - intros H. exists tt. rewrite bool_decide_eq_true_2 by (apply H; set_solver). split; [done|].
    apply IH. intros id Hin. apply H. set_solver.
Qed.

Lemma check_sizes_Ok id bounded max t n :
  check_sizes id bounded max t = Ok n ↔
  Forall (λ x, len x.1.2 <= x.2) bounded ∧ checked_sum (map (λ x, len x.1.2) bounded) t = Some n.
Proof.
  revert t. induction bounded as [|[[k a] m] l IH]; intros t; cbn [check_sizes map checked_sum].
  { split; [intros [= <-]; auto|intros [_ [= <-]]; done]. }
  rewrite result_bind_Ok. setoid_rewrite result_bind_Ok. setoid_rewrite ok_or_Ok. setoid_rewrite IH.
  rewrite Forall_cons, bind_Some. cbn [fst snd]. split.
  - intros (_ & Hm%reject_Ok%Z.ltb_ge & t' & Ht & Hf & Hc). eauto 10.
  - intros ([Hm Hf] & t' & Ht & Hc). exists tt. rewrite (proj2 (Z.ltb_ge _ _) Hm). eauto 10.
Qed.

Lemma check_sizes_bundle id bs limits t n :
  check_sizes id (bounded_artifacts bs limits) (aggregate limits) t = Ok n ↔
  artifacts_within bs limits ∧ n = t + artifact_total bs ∧ n <= usize_max.
Proof.
  rewrite check_sizes_Ok, checked_sum_exact by (cbn; repeat (constructor; [apply len_nonneg|]); constructor).
  unfold bounded_artifacts, artifacts_within, artifact_total, sum_lengths. rewrite !Forall_cons.
  cbn [map foldr fst snd]. split.
  - intros ((H1 & H2 & H3 & H4 & H5 & _) & -> & [?|Hn]); [done|]. split_and!; try done; lia.
  - intros ((H1 & H2 & H3 & H4 & H5) & -> & Hn). split_and!; try done; try lia.
Qed.

Lemma check_all_sizes_Ok limits l : ∀ t n,
  t <= usize_max →
  check_all_sizes l limits t = Ok n ↔
  (∀ id bs, (id, bs) ∈ l → artifacts_within bs limits) ∧ n = t + artifacts_total l ∧ n <= usize_max.
Proof.
  induction l as [|[id bs] l IH]; intros t n Ht; cbn [check_all_sizes].
  { unfold artifacts_total, sum_lengths. cbn. split.
    - intros [= <-]. split_and!; [intros id bs H%elem_of_nil; done|lia|done].
    - intros (_ & -> & _). f_equal. lia. }
  change (artifacts_total ((id, bs) :: l)) with (artifact_total bs + artifacts_total l).
  pose proof (artifacts_total_nonneg l). rewrite result_bind_Ok. setoid_rewrite check_sizes_bundle. split.
  - intros (t' & (Hw & -> & Hle) & Hl). apply IH in Hl as (Hall & -> & Hn); [|done]. split_and!; [|lia|done].
    intros id' bs' [Heq|Hin]%elem_of_cons; [by injection Heq as -> ->|eauto].
  - intros (Hall & -> & Hn). eexists. split; [split_and!; [apply (Hall id); left|reflexivity|lia]|].
    apply IH; [lia|]. split_and!; [intros id0 bs0 Hin; apply (Hall id0); by right|lia|done].
Qed.

Section Verification.
Context `{HS : Sha256}.

Lemma check_digests_bundle id bs r :
  check_digests id (expected_artifacts bs r) = Ok tt ↔ artifacts_match bs r.
Proof.
  unfold expected_artifacts, artifacts_match. cbn [check_digests]. split.
  - intros H. inv_ok. rewrite !negb_false_iff, !bool_decide_eq_true in *. done.
  - intros (H1 & H2 & H3 & H4 & H5). rewrite !bool_decide_eq_true_2 by done. done.
Qed.

Lemma check_all_digests_Ok arts l :
  check_all_digests l arts = Ok tt ↔
  ∀ id r, (id, r) ∈ l → ∃ bs, arts !! id = Some bs ∧ artifacts_match bs r.
Proof.
  induction l as [|[id r] l IH]; cbn [check_all_digests].
  { split; [intros _ id r H%elem_of_nil; done|done]. }
  rewrite result_bind_Ok. setoid_rewrite ok_or_Ok. setoid_rewrite result_bind_Ok. split.
  - intros (bs & Hbs & [] & Hd%check_digests_bundle & Hl) id' r' [Heq|Hin]%elem_of_cons.
    + injection Heq as -> ->. eauto.
    + by apply IH.
  - intros H. destruct (H id r) as (bs & Hbs & Hd); [set_solver|]. exists bs. split; [done|]. exists tt.
    split; [by apply check_digests_bundle|]. apply IH. intros id' r' Hin. apply H. set_solver.
Qed.

(** The artifacts cover the rebindings, respect the limits and have the recorded
    digests. *)
Definition artifacts_conform (rebindings : gmap TransformRuleId TransformRebinding)
    (arts : gmap TransformRuleId TransformArtifactBytes) (limits : TransformArtifactLimits) : Prop :=
  (∀ id, is_Some (arts !! id) ↔ is_Some (rebindings !! id)) ∧
  (∀ id bs, arts !! id = Some bs → artifacts_within bs limits) ∧
  artifacts_total (btree_iter str_le arts) <= Z.min (aggregate limits) usize_max ∧
  (∀ id bs b, arts !! id = Some bs → rebindings !! id = Some b → artifacts_match bs b).

Lemma elem_of_btree_keys {V} (m : gmap TransformRuleId V) id :
  id ∈ (btree_iter str_le m).*1 ↔ is_Some (m !! id).
Proof.
  rewrite list_elem_of_fmap. split.
  - intros ([k x] & -> & Hin%elem_of_btree_iter). eauto.
  - intros [x Hx]. exists (id, x). split; [done|by apply elem_of_btree_iter].
Qed.

Lemma verify_transform_artifacts_accepts v arts limits :
  artifacts_conform (rebindings (validated_overlay v)) arts limits →
  verify_transform_artifacts v arts limits = Ok (mkVerifiedTransformArtifacts v arts).
Proof.
  intros (Hdom & Hw & Ht & Hm). assert (Hz : 0 <= usize_max) by (unfold usize_max, u64_max; lia).
  unfold verify_transform_artifacts.
  rewrite (proj2 (check_keys_Ok _ _ _)) by (intros id ?%elem_of_btree_keys; by apply Hdom). cbn [result_bind].
  rewrite (proj2 (check_keys_Ok _ _ _)) by (intros id ?%elem_of_btree_keys; by apply Hdom). cbn [result_bind].
  rewrite (proj2 (check_all_sizes_Ok limits (btree_iter str_le arts) 0 (0 + artifacts_total (btree_iter str_le arts)) Hz));
    [cbn [result_bind]|split_and!; [intros id bs ?%elem_of_btree_iter; eauto|reflexivity|lia]].
  rewrite (proj2 (Z.ltb_ge _ _)) by lia. cbn [reject result_bind].
  rewrite (proj2 (check_all_digests_Ok _ _)); [done|]. intros id b Hb%elem_of_btree_iter.
  destruct (proj2 (Hdom id)) as [bs Hbs]; [eauto|]. eauto.
Qed.

(** verification accepts artifacts exactly when they cover the rebindings
    of the overlay and nothing else, each respects its limit, together they
    respect the total, and each of the five has the digest its rebinding
    records. *)
Theorem verify_transform_artifacts_exact v arts limits r :
  verify_transform_artifacts v arts limits = Ok r ↔
  artifacts_conform (rebindings (validated_overlay v)) arts limits ∧ r = mkVerifiedTransformArtifacts v arts.
Proof.
  split; [|intros [H ->]; by apply verify_transform_artifacts_accepts].
  assert (Hz : 0 <= usize_max) by (unfold usize_max, u64_max; lia). unfold verify_transform_artifacts. intros H.
  apply result_bind_Ok in H as ([] & H1 & H). apply result_bind_Ok in H as ([] & H2 & H).
  apply result_bind_Ok in H as (t & H3 & H). apply result_bind_Ok in H as (_ & H4%reject_Ok%Z.ltb_ge & H).
  apply result_bind_Ok in H as ([] & H5 & [= <-]).
  pose proof (proj1 (check_keys_Ok _ _ _) H1) as K1. pose proof (proj1 (check_keys_Ok _ _ _) H2) as K2.
  apply check_all_sizes_Ok in H3 as (Hw & -> & Hle); [|done]. rewrite check_all_digests_Ok in H5.
  split; [|done]. split_and!; [| |lia|].
  - intros id. split; intros Hi; [apply K2|apply K1]; by apply elem_of_btree_keys.
  - intros id bs Hbs. eapply Hw. by apply elem_of_btree_iter.
  - intros id bs b Hbs Hb. destruct (H5 id b) as (bs' & Hbs' & Hm); [by apply elem_of_btree_iter|]. by simplify_eq.
Qed.
End Verification.

(** ** Assembly *)

Lemma digits_rev_length fuel n :
  0 <= n → (0 < fuel)%nat → n < 10 ^ Z.of_nat fuel → len (digits_rev fuel n) = decimal_length_from fuel n 1.
Proof.
  revert n. induction fuel as [|fuel IH]; intros n Hn Hf Hlt; [lia|].
  rewrite Nat2Z.inj_succ, Z.pow_succ_r in Hlt by lia. cbn [digits_rev decimal_length_from]. rewrite len_cons.
  destruct (Z.ltb_spec n 10) as [Hs|Hs].
  - rewrite (proj2 (Z.leb_gt 10 n)) by lia. done.
  - rewrite (proj2 (Z.leb_le 10 n)) by lia. rewrite (decimal_length_from_shift _ _ 1 1).
    rewrite IH; [done|apply Z.div_pos; lia| |apply Z.div_lt_upper_bound; lia].
    destruct fuel; [cbn in Hlt; lia|lia].
Qed.

Lemma usize_to_string_length n : 0 <= n <= usize_max → len (usize_to_string n) = decimal_length n.
Proof.
  intros Hn. unfold usize_to_string, len. rewrite length_fmap, length_rev. unfold decimal_length.
  apply (digits_rev_length 20 n); [lia|lia|]. unfold usize_max, u64_max in Hn.
  change (10 ^ Z.of_nat 20) with 100000000000000000000. lia.
Qed.

(** A list with a comma between its members. *)
Fixpoint intersperse_comma (l : list bytes) : list bytes :=
  match l with
  | x :: (_ :: _) as rest => x :: lit "," :: intersperse_comma rest
  | _ => l
  end.

Section Assembly.
Context `{HS : Sha256} `{HA : Allocator} (hex_encode : bytes → str).
Context (hex_length : ∀ d, len (hex_encode d) = 2 * len d).
Context (sha256_length : ∀ bs, len (sha256 bs) = 32).

Lemma canonical_digest_text_length d :
  len d = 32 → len (canonical_digest_text hex_encode d) = DIGEST_TEXT_LENGTH.
Proof. intros Hd. unfold canonical_digest_text. rewrite len_app, hex_length, Hd. done. Qed.

(** The emitted artifacts a bundle is made from. *)
Definition emitted_ok (t : EmittedTransformedSource) (ev : EmittedMatchEvidence) (sm : EmittedSourceMap) : Prop :=
  emitted_source_digest t = digest (transformed_source t) ∧
  evidence_digest ev = digest (evidence_bytes ev) ∧ map_digest sm = digest (map_bytes sm).

Lemma audit_record_length plan t ev sm n :
  len (plan_rule_digest plan) = 32 → len (source_digest (plan_source plan)) = 32 → emitted_ok t ev sm →
  len (edits plan) <= usize_max →
  audit_length (len (rule_id plan)) (len (unit_id (plan_source plan))) (decimal_length (len (edits plan))) = Ok n ↔
  n = len (audit_record hex_encode plan t ev sm) ∧ n <= usize_max.
Proof.
  intros Hr Hs (Ht & He & Hm) Hc. unfold audit_length. rewrite ok_or_Ok, checked_sum_exact.
  - unfold audit_record. rewrite !len_app, !canonical_digest_text_length by (try rewrite Ht; try rewrite He; try rewrite Hm; auto).
    rewrite usize_to_string_length by (split; [apply len_nonneg|done]).
    unfold sum_lengths. cbn [foldr]. split; intros [-> Hn]; (split; [lia|]); [destruct Hn as [|Hn]; [done|lia]|right; lia].
  - rewrite <-usize_to_string_length by (split; [apply len_nonneg|done]).
    repeat (constructor; [apply len_nonneg || done|]). constructor.
Qed.

(** The outcome in terms of the record the code appends. *)
Lemma assemble_with_record source t ev sm limits b :
  let plan := emitted_plan t in
  let record := audit_record hex_encode plan t ev sm in
  len (plan_rule_digest plan) = 32 → len (source_digest (plan_source plan)) = 32 → emitted_ok t ev sm →
  len (edits plan) <= usize_max →
  assemble_transform_artifacts hex_encode source t ev sm limits = Ok b ↔
  len source <= bundle_source limits ∧ evidence_plan ev = plan ∧ map_transformed_source sm = t ∧
  digest source = source_digest (plan_source plan) ∧
  len record <= Z.min (bundle_audit_log limits) usize_max ∧
  artifact_total (artifacts b) <= Z.min (bundle_aggregate limits) usize_max ∧
  try_reserve (len record) = true ∧
  b = mkEmittedTransformArtifactBundle source t ev sm record (digest record)
        (mkTransformRebinding (plan_rule_digest plan) (plan_source plan) (evidence_digest ev)
           (emitted_source_digest t) (map_digest sm) (digest record)) (artifact_total (artifacts b)).
Proof.
  intros plan record Hrd Hsd Hem Hcount.
  pose proof (λ n, audit_record_length plan t ev sm n Hrd Hsd Hem Hcount) as Hlen. fold record in Hlen.
  assert (Hagg : ∀ n, aggregate_length (len source) (len (evidence_bytes ev)) (len (transformed_source t))
    (len (map_bytes sm)) (len record) = Ok n ↔
    n = artifact_total (mkTransformArtifactBytes source (evidence_bytes ev) (transformed_source t) (map_bytes sm) record)
    ∧ n <= usize_max).
  { intros n. unfold aggregate_length, artifact_total. rewrite ok_or_Ok, checked_sum_exact
      by (repeat (constructor; [apply len_nonneg|]); constructor).
    cbn [artifact_source artifact_match_evidence artifact_transformed_source artifact_source_map artifact_audit_log].
    unfold sum_lengths. cbn [foldr]. split; intros [-> Hn]; (split; [lia|]); [destruct Hn as [|Hn]; [done|lia]|right; lia]. }
  unfold assemble_transform_artifacts. fold plan. split.
  - intros H. apply result_bind_Ok in H as (_ & H1%reject_Ok%Z.ltb_ge & H).
    apply result_bind_Ok in H as (_ & H2%reject_Ok%negb_false_iff%bool_decide_eq_true & H).
    apply result_bind_Ok in H as (_ & H3%reject_Ok%negb_false_iff%bool_decide_eq_true & H).
    apply result_bind_Ok in H as (_ & H4%reject_Ok%negb_false_iff%bool_decide_eq_true & H).
    apply result_bind_Ok in H as (n & [-> Hn]%Hlen & H). apply result_bind_Ok in H as (_ & H5%reject_Ok%Z.ltb_ge & H).
    apply result_bind_Ok in H as (m & [-> Hm]%Hagg & H). apply result_bind_Ok in H as (_ & H6%reject_Ok%Z.ltb_ge & H).
    apply result_bind_Ok in H as (_ & H7%reject_Ok%negb_false_iff & H). apply result_bind_Ok in H as (_ & _ & H).
    injection H as <-. split_and!; try done; [by apply Z.min_glb|exact (Z.min_glb _ _ _ H6 Hm)].
  - intros (H1 & H2 & H3 & H4 & H5 & H6 & H7 & Hb).
    assert (Ha : artifacts b = mkTransformArtifactBytes source (evidence_bytes ev) (transformed_source t) (map_bytes sm) record)
      by (by rewrite Hb).
    rewrite Ha in H6, Hb. rewrite (proj2 (Z.ltb_ge _ _) H1). cbn [reject result_bind].
    rewrite (bool_decide_eq_true_2 (plan = _)) by done. rewrite (bool_decide_eq_true_2 (map_transformed_source sm = t)) by done.
    rewrite (bool_decide_eq_true_2 (digest source = _)) by done. cbn [negb reject result_bind].
    rewrite (proj2 (Hlen (len record))) by (split; [done|lia]). cbn [result_bind].
    rewrite (proj2 (Z.ltb_ge _ _)) by lia. cbn [reject result_bind].
    rewrite (proj2 (Hagg _)) by (split; [reflexivity|lia]). cbn [result_bind].
    rewrite (proj2 (Z.ltb_ge _ _)) by lia. cbn [reject result_bind]. rewrite H7. cbn [negb reject result_bind].
    fold record. rewrite Z.eqb_refl. cbn [negb reject result_bind]. by rewrite Hb.
Qed.
(** The audit record as a document: a compact JSON object with named fields. *)
Definition json_string (s : bytes) : bytes := json "'" ++ s ++ json "'".
Definition json_object (fields : list (bytes * bytes)) : bytes :=
  lit "{" ++ concat (intersperse_comma (map (λ f, json_string f.1 ++ lit ":" ++ f.2) fields)) ++ lit "}".
Definition json_digest (d : Sha256Digest) : bytes := json_string (canonical_digest_text hex_encode d).
Definition audit_document (source : bytes) (t : EmittedTransformedSource) (ev : EmittedMatchEvidence)
    (sm : EmittedSourceMap) : bytes :=
  let plan := emitted_plan t in
  json_object
    [(lit "format_version", json_string (lit "1"));
     (lit "operation", json_string (lit "static_import_rewrite"));
     (lit "rule_id", json_string (rule_id plan));
     (lit "rule_digest", json_digest (plan_rule_digest plan));
     (lit "source", json_object
       [(lit "unit_id", json_string (unit_id (plan_source plan)));
        (lit "source_digest", json_digest (digest source))]);
     (lit "artifacts", json_object
       [(lit "match_evidence_digest", json_digest (digest (evidence_bytes ev)));
        (lit "transformed_source_digest", json_digest (digest (transformed_source t)));
        (lit "source_map_digest", json_digest (digest (map_bytes sm)))]);
     (lit "edit_count", usize_to_string (len (edits plan)))].

Lemma audit_record_document source t ev sm :
  digest source = source_digest (plan_source (emitted_plan t)) → emitted_ok t ev sm →
  audit_record hex_encode (emitted_plan t) t ev sm = audit_document source t ev sm.
Proof.
  intros Hs (Ht & He & Hm). unfold audit_record, audit_document, json_object, json_digest, json_string.
  rewrite Hs, Ht, He, Hm. cbn [map intersperse_comma concat fst snd]. rewrite <-!app_assoc, ?app_nil_r. reflexivity.
Qed.

(** C39: assembly succeeds exactly when the parts belong together and respect
    the limits.  The audit log is then the JSON object that names the rule and its
    digest, the source unit and the digest of the source, the digests of the bytes
    of the evidence, the transformed source and the map, and the number of edits;
    the rebinding records the same digests and that of the log; and the total is
    exact: the length computed before the allocation is always the length written.
    The parts are taken as emission makes them: the digest each records of itself is
    the SHA-256 of its bytes, digests have 32 bytes and two hexadecimal digits for
    each, and the edits can be counted in a [usize]. *)
Theorem assemble_transform_artifacts_exact source t ev sm limits b :
  let plan := emitted_plan t in
  let record := audit_document source t ev sm in
  len (plan_rule_digest plan) = 32 → len (source_digest (plan_source plan)) = 32 → emitted_ok t ev sm →
  len (edits plan) <= usize_max →
  assemble_transform_artifacts hex_encode source t ev sm limits = Ok b ↔
  len source <= bundle_source limits ∧ evidence_plan ev = plan ∧ map_transformed_source sm = t ∧
  digest source = source_digest (plan_source plan) ∧
  len record <= Z.min (bundle_audit_log limits) usize_max ∧
  artifact_total (artifacts b) <= Z.min (bundle_aggregate limits) usize_max ∧
  try_reserve (len record) = true ∧
  b = mkEmittedTransformArtifactBundle source t ev sm record (digest record)
        (mkTransformRebinding (plan_rule_digest plan) (plan_source plan) (digest (evidence_bytes ev))
           (digest (transformed_source t)) (digest (map_bytes sm)) (digest record)) (artifact_total (artifacts b)).
Proof.
  intros plan record Hrd Hsd Hem Hcount. rewrite (assemble_with_record source t ev sm limits b Hrd Hsd Hem Hcount).
  pose proof Hem as (<- & <- & <-).
  split; intros (H1 & H2 & H3 & H4 & H5); pose proof (audit_record_document source t ev sm H4 Hem) as Hr;
    rewrite Hr in * || (fold record in Hr; rewrite <-Hr in H5); by split_and!; try apply H5.
Qed.
End Assembly.

(** ** From rules to accepted artifacts *)

Section Pipeline.
Context `{HS : Sha256} `{HA : Allocator} `{HO : Oxc} (hex_encode : bytes → str).

Lemma plan_authorised authority id rule source bs limits p :
  plan_static_import_rewrite authority id rule source bs limits = Ok p →
  plan_source p = source ∧ ∃ r, rules authority !! id = Some r ∧ authorized_rule_digest r = plan_rule_digest p.
Proof.
  unfold plan_static_import_rewrite. intros H. inv_ok. cbn [plan_source plan_rule_digest]. split; [done|].
  repeat match goal with H : negb (bool_decide _) = false |- _ => apply negb_false_iff, bool_decide_eq_true in H end. eauto.
Qed.

Lemma transformed_source_digest_true plan source limits t :
  emit_transformed_source plan source limits = Ok t →
  emitted_plan t = plan ∧ emitted_source_digest t = digest (transformed_source t).
Proof.
  unfold emit_transformed_source. intros H. do 5 apply result_bind_Ok in H as (? & _ & H).
  apply result_bind_Ok in H as ([c w] & _ & H). do 2 apply result_bind_Ok in H as (? & _ & H). by injection H as <-.
Qed.

Lemma evidence_digest_true plan max ev :
  emit_match_evidence plan max = Ok ev → evidence_digest ev = digest (evidence_bytes ev).
Proof.
  unfold emit_match_evidence. intros H. do 5 apply result_bind_Ok in H as (? & _ & H). by injection H as <-.
Qed.

Lemma map_digest_true t source limits sm :
  emit_source_map t source limits = Ok sm → map_digest sm = digest (map_bytes sm).
Proof.
  unfold emit_source_map. intros H. do 22 apply result_bind_Ok in H as (? & _ & H). by injection H as <-.
Qed.

(** A bundle made for a rule of the authority by the stages in order. *)
Definition produced (authority : AdapterTransformAuthority) (id : TransformRuleId)
    (b : EmittedTransformArtifactBundle) : Prop :=
  ∃ rule unit source planner plan emission t evidence ev mapping sm bundling,
    plan_static_import_rewrite authority id rule unit source planner = Ok plan ∧
    emit_transformed_source plan source emission = Ok t ∧
    emit_match_evidence plan evidence = Ok ev ∧
    emit_source_map t source mapping = Ok sm ∧
    assemble_transform_artifacts hex_encode source t ev sm bundling = Ok b.

Lemma produced_spec authority id b :
  produced authority id b →
  artifacts_match (artifacts b) (bundle_rebinding b) ∧
  ∃ r, rules authority !! id = Some r ∧ authorized_rule_digest r = rebinding_rule_digest (bundle_rebinding b).
Proof.
  intros (rule & unit & source & l1 & plan & l2 & t & l3 & ev & l4 & sm & l5 & Hp & Ht & He & Hm & Hb).
  apply plan_authorised in Hp as [_ Hauth]. apply transformed_source_digest_true in Ht as [<- Ht].
  apply evidence_digest_true in He. apply map_digest_true in Hm. unfold assemble_transform_artifacts in Hb.
  do 3 apply result_bind_Ok in Hb as (? & _ & Hb).
  apply result_bind_Ok in Hb as (? & Hd%reject_Ok%negb_false_iff%bool_decide_eq_true & Hb).
  do 6 apply result_bind_Ok in Hb as (? & _ & Hb). injection Hb as <-. done.
Qed.

(** C40: the stages compose.  When every bundle was produced by planning,
    emission, evidence, source map and assembly for a rule of the authority, and
    the overlay over their rebindings names the build, the descriptor and the
    authority, then the overlay is validated against the authority, whatever the
    digests are; and under any verification limits that each artifact respects, and
    the aggregate of which all of them together respect, the artifacts of the
    bundles verify against it. *)
Theorem produced_bundles_verify authority fingerprint descriptor bundles bd overlay limits :
  (∀ id b, bundles !! id = Some b → produced authority id b) →
  bd = mkTransformOverlayBinding fingerprint (authority_family authority) (authority_adapter_id authority)
         (authority_adapter_content_digest authority) (canonical_document_digest hex_encode authority) descriptor →
  windows_x64 bd (bundle_rebinding <$> bundles) = Ok overlay →
  (∀ id b, bundles !! id = Some b → artifacts_within (artifacts b) limits) →
  artifacts_total (btree_iter str_le (artifacts <$> bundles)) <= Z.min (aggregate limits) usize_max →
  ∃ v, validate_against hex_encode overlay authority fingerprint descriptor = Ok v ∧
    verify_transform_artifacts v (artifacts <$> bundles) limits =
    Ok (mkVerifiedTransformArtifacts v (artifacts <$> bundles)).
Proof.
  intros Hprod -> Ho Hw Ht. unfold windows_x64 in Ho. do 3 apply result_bind_Ok in Ho as (? & _ & Ho).
  injection Ho as <-. eexists. split; [apply validate_against_accepts|apply verify_transform_artifacts_accepts].
  - split_and!; try done. cbn [rebindings]. intros id r. rewrite lookup_fmap, fmap_Some.
    intros (b & Hb & ->). by eapply produced_spec, Hprod.
  - cbn [validated_overlay rebindings]. split_and!; [| |done|].
    + intros id. by rewrite !lookup_fmap, !fmap_is_Some.
    + intros id bs. rewrite lookup_fmap, fmap_Some. intros (b & Hb & ->). eauto.
    + intros id bs r. rewrite !lookup_fmap, !fmap_Some. intros (b & Hb & ->) (b' & Hb' & ->). simplify_eq.
      by eapply produced_spec, Hprod.
Qed.
End Pipeline.

(** ** A sample bundle *)

Module SampleBundle.
Import Sample SampleMap.
#[local] Existing Instance sample_sha256.
#[local] Existing Instance sample_allocator.
#[local] Existing Instance sample_oxc.

Definition hex2 (d : bytes) : str := concat (map (λ b, [hex_char (byte_val b ≫ 4); hex_char (Z.land (byte_val b) 0x0f)]) d).
Definition the_evidence : EmittedMatchEvidence :=
  let body := evidence_head the_plan ++ MATCH_START ++ lit "7" ++ MATCH_END ++ lit "10" ++ lit "}" ++ EVIDENCE_SUFFIX in
  mkEmittedMatchEvidence the_plan body (digest body).
Definition the_bundling : TransformBundleLimits := mkTransformBundleLimits 100 1000 5000.
Definition the_record : bytes := audit_record hex2 the_plan the_transformed the_evidence sample_map.
Definition the_bundle : EmittedTransformArtifactBundle :=
  mkEmittedTransformArtifactBundle source_text the_transformed the_evidence sample_map the_record (digest the_record)
    (mkTransformRebinding (canonical_digest the_rule) the_unit (evidence_digest the_evidence) (digest transformed_text)
       (map_digest sample_map) (digest the_record))
    (len source_text + len (evidence_bytes the_evidence) + len transformed_text + len (map_bytes sample_map) + len the_record).

Lemma hex2_length d : len (hex2 d) = 2 * len d.
Proof.
  unfold hex2. induction d as [|b d IH]; [done|]. cbn [map concat]. rewrite len_app, IH, !len_cons.
  change (len (@nil byte)) with 0. lia.
Qed.

Lemma sample_sha256_length bs : len (sha256 bs) = 32.
Proof.
  unfold sha256, sample_sha256, len, zeros. rewrite length_take, length_app, length_replicate. lia.
Qed.

Lemma bundle_produced : produced hex2 the_authority (lit "r") the_bundle.
Proof.
  exists the_rule, the_unit, source_text, the_planner, the_plan, the_emission, the_transformed, 1000, the_evidence, the_mapping, sample_map, the_bundling.
  split_and!; by vm_compute.
Qed.

Lemma assemble_transform_artifacts_exact_witness :
  assemble_transform_artifacts hex2 source_text the_transformed the_evidence sample_map the_bundling = Ok the_bundle ∧
  len the_record <= 1000.
Proof.
  assert (Hrun : assemble_transform_artifacts hex2 source_text the_transformed the_evidence sample_map the_bundling = Ok the_bundle)
    by (by vm_compute). split; [done|].
  assert (Hok : emitted_ok the_transformed the_evidence sample_map) by (split_and!; reflexivity).
  destruct (proj1 (assemble_transform_artifacts_exact hex2 hex2_length sample_sha256_length source_text the_transformed
    the_evidence sample_map the_bundling the_bundle ltac:(by vm_compute) ltac:(by vm_compute) Hok ltac:(by vm_compute)) Hrun)
    as (_ & _ & _ & _ & Hle & _). unfold the_record. cbn [bundle_audit_log the_bundling] in Hle. etransitivity; [exact Hle|apply Z.le_min_l].
Defined.

Definition the_limits : TransformArtifactLimits :=
  mkTransformArtifactLimits (mkArtifactByteLimits 1000 1000 1000 1000 1000) 5000.
Definition sample_binding : TransformOverlayBinding :=
  mkTransformOverlayBinding zeros (authority_family the_authority) (authority_adapter_id the_authority)
    (authority_adapter_content_digest the_authority) (canonical_document_digest hex2 the_authority) zeros.
Definition the_bundles : gmap TransformRuleId EmittedTransformArtifactBundle := {[lit "r" := the_bundle]}.
Definition the_overlay : GeneratedTransformOverlay :=
  mkGeneratedTransformOverlay RebindingFormat_V1 Platform_Windows Architecture_X86_64 sample_binding
    (bundle_rebinding <$> the_bundles).

Lemma produced_bundles_verify_witness :
  ∃ v, validate_against hex2 the_overlay the_authority zeros zeros = Ok v ∧
    verify_transform_artifacts v (artifacts <$> the_bundles) the_limits = Ok (mkVerifiedTransformArtifacts v (artifacts <$> the_bundles)).
Proof.
  apply (produced_bundles_verify hex2 the_authority zeros zeros the_bundles sample_binding the_overlay the_limits).
  - intros id b Hb. unfold the_bundles in Hb. apply lookup_singleton_Some in Hb as [<- <-]. exact bundle_produced.
  - reflexivity.
  - by vm_compute.
  - intros id b Hb. unfold the_bundles in Hb. apply lookup_singleton_Some in Hb as [<- <-]. split_and!; by vm_compute.
  - by vm_compute.
Defined.
End SampleBundle.
